(* ===== verification/_CoqProject ===== *)
-Q . S2P
Prelude.v
Words.v
Rings.v
CyLib.v
Capability.v
IpcPort.v
IpcSpec.v
IpcLimits.v
Buddy.v
BuddySpec.v
Memory.v
Slab.v
Paging.v
PagingSpec.v
Vmm.v
VmmInv.v
VmmSpec.v
VmmBuf.v
Task.v
RunQueue.v
Sched.v
SchedInv.v
SchedSpec.v
SysIpc.v
Futex.v
Signal.v
SignalSpec.v
Clone.v
Switch.v
Cpio.v
VfsData.v
Vfs.v
VfsInv.v
VfsTotal.v
VfsPipe.v
VfsSpec.v
VfsDir.v
Elf.v
ProcServer.v
SysMem.v
Tty.v
TtyPty.v
Net.v
NetInv.v
NetStep.v
NetSpec.v
Boot.v
DeviceTree.v
DeviceTreeSpec.v
DeviceTreeMap.v
Wifi.v
WifiSpec.v
LibcMem.v
LibcString.v
LibcStdio.v
LibcStdioSpec.v
LibcHeap.v
SysPath.v
SysOs.v
SysFile.v
SysInfo.v
SysEpoll.v
SysFileSpec.v
Execve.v
ExecveSpec.v
SysDispatch.v
SysInv.v
SysRun.v
SysSteps.v
LibcStart.v
InitText.v
InitShell.v
InitShellSpec.v
InitRun.v
InitVfs.v
InitVars.v
