(* ===== verification/Prelude.v ===== *)
(** * Cyanos: a verification library for the Cyanos microkernel

    Cyanos is a microkernel in Rust for AArch64 and x86_64.  The kernel proper
    manages memory (crate [mm] over the page tables of [arch]), tasks (crate
    [sched]) and message ports (crate [ipc]); servers for files, processes and
    terminals (src/servers) run as functions of the kernel behind ports; system calls
    (src/kernel/src/syscall.rs) tie them together.  This library models the
    AArch64 configuration with one CPU, definition by definition, and proves
    what makes each part correct.

    ** How the code is modelled

    A global guarded by a lock is a field of a state record.  A function on it
    is a Rocq function from state to state, in the monad [st] of this file
    where it can panic ([assert!], an index out of bounds); [Panic] stops the
    machine.  A handler that takes and releases several locks runs as one step.
    Code that gives the CPU away is cut there: what runs before and after are
    two definitions, and theorems about interleavings quantify over sequences of
    events.  Integers are elements of [Z] in the range of their type, with the
    wrapping arithmetic of a release build written out.  Memory is a function
    from addresses to bytes.  Barriers, TLB and cache instructions and debug
    output to the UART have no counterpart.

    ** The files

    - [Prelude], [Words], [Rings]: the monad and its rules, searches in
      arrays, machine words, little-endian bytes, circular slices.
    - [CyLib] (src/lib), [Capability] (src/capability).
    - [IpcPort] (src/ipc): the open-addressed port table.  [IpcSpec] gives its
      abstract specification, a finite map of ports, and the refinement for all
      histories of at most 4096 creations; [IpcLimits] shows that beyond that
      bound it fails.  [PortWaker] is the interface to the scheduler.
    - [Buddy], [BuddySpec], [Memory], [Slab], [Slab] (src/mm): page and
      object allocators.  Blocks and objects handed out never overlap, for all
      histories of clients that free only what they hold.
    - [Paging], [PagingSpec] (src/arch/aarch64/src/paging.rs): the four-level
      tables; mapping and unmapping change exactly one translation.
    - [Vmm], [VmmInv], [VmmSpec], [VmmBuf] (src/mm/src/vmm.rs, cow.rs): address
      spaces over the class [Machine], whose instance is [kmem] with those page
      tables.  VMAs stay disjoint on every machine; on the instance, a page
      fault installs a fresh zeroed page that VMA and hardware agree on, and
      user buffers are read back as written.
    - [Task], [RunQueue], [Sched], [SchedInv], [SchedSpec], [Switch]
      (src/sched): tasks, round-robin choice, the scheduler's events, the
      assembly of the context switch.  One task runs, PIDs are unique, choice is
      fair, exit codes are delivered, registers survive a switch.
    - [Futex], [Signal], [SignalSpec], [Clone], [Clone] (src/sched): futex
      queues, signal frames and their return, fork and threads.
    - [SysIpc] (src/kernel/src/syscall.rs): send, receive and call on ports and
      scheduler together; no wake-up is lost.
    - [Cpio], [VfsData], [Vfs] (src/servers/vfs): the file server with every
      handler.  [VfsInv] and [VfsTotal] prove that its tables stay well formed
      and every request is answered; [VfsPipe], [VfsSpec] and [VfsDir] that
      pipes are queues, files are read back, directories are listed completely
      and fork and exec treat descriptors as they should.
    - [Elf], [Elf] (src/elf): the loader over [Vmm]; what it maps.
    - [ProcServer] (src/servers/proc): process table and parked waits, over
      [IpcPort].
    - [Tty], [TtyPty] (src/servers/tty): terminals, pseudo terminals and POSIX
      timers, over [Sched]; timers fire when due, pseudo terminals are queues.
    - [SysMem] (src/kernel/src/syscall.rs): mmap and its relatives over
      [Sched] and [Vmm], positioned file access over [Vfs].

    ** Bounds and fuel

    Loops over arrays recurse on the list.  Where the code loops otherwise, the
    fuel is a bound of the code and proved to be enough: the delivery of signals
    takes at most one round per signal number ([signal_delivery_ends]); a search
    in the RAM disk advances by at least a header ([find_in_initrd_ends]); a
    read or write through /dev/stdin and its relatives follows at most three
    descriptors unless it runs in a circle ([read_fuel_enough]); rounding a page
    count up to a power of two doubles at most 64 times.  The address of a
    function or label that the linker chooses is an argument.

    ** Where the theorems need conditions

    The allocators' clients free only what they hold.  The file server's
    theorems ask that the RAM disk has no header with an empty name and that the
    caller's standard descriptors do not refer to themselves (a read would not
    end, [stdin_on_fd0_diverges]).  The file server sees memory through virtual
    addresses of the calling task, as a memory of its own; the memory of [kmem]
    is physical.  The two are not connected, so what a file-backed mmap or a
    server's write does to physical pages is not stated.

    ** Not modelled

    The network server, the remaining system calls (dispatch,
    execve, sockets, polling, the thin wrappers of server requests), the boot
    protocols and the device tree, the USB and WiFi drivers: they are pure
    enough to follow in the same style and are the next steps, in this order.
    Exception entry, MMU set-up, interrupt controllers, timers, UART, frame
    buffer and start of further CPUs are accesses to hardware; x86_64 is the
    other target; the init server and the user programs are clients of what is
    verified here. *)

From stdpp Require Import base list option numbers gmap.
From Stdlib Require Import ZArith Lia.

(** ** Outcomes and the state monad

    The kernel is built with [panic = "abort"]: an [assert!] that fails or an
    index out of bounds stops the machine.  [st S A] is a computation over the
    global state [S] that returns an [A] or panics. *)

Inductive outcome (A : Type) : Type :=
  | Ret (a : A)
  | Panic.
Arguments Ret {A} a.
Arguments Panic {A}.

Definition st (S A : Type) : Type := S → outcome (A * S).

#[export] Instance st_ret S : MRet (st S) := λ A a s, Ret (a, s).
#[export] Instance st_bind S : MBind (st S) := λ A B f m s,
  match m s with
  | Ret (a, s') => f a s'
  | Panic => Panic
  end.

Definition st_get {S A} (f : S → A) : st S A := λ s, Ret (f s, s).
Definition st_modify {S} (f : S → S) : st S unit := λ s, Ret (tt, f s).
(** An operation that cannot panic. *)
Definition st_lift {S A} (f : S → A * S) : st S A := λ s, Ret (f s).
(** A computation written out as a function of the state. *)
Definition st_of {S A} (f : S → outcome (A * S)) : st S A := f.
Definition st_panic {S A} : st S A := λ _, Panic.

(** [l[i]]: an index out of bounds panics. *)
Definition st_index {S A} (l : list A) (i : nat) : st S A :=
  match l !! i with Some x => mret x | None => st_panic end.
(** [assert!(b)], also the bounds check of [l[i] = x]. *)
Definition st_assert {S} (b : bool) : st S unit :=
  if b then mret tt else st_panic.

(** [wp c Q s]: the computation [c] started in [s] does not panic and its
    result satisfies [Q].  [wlp] is the liberal form: a panic is allowed. *)
Definition wp {S A} (c : st S A) (Q : A → S → Prop) (s : S) : Prop :=
  match c s with Ret (a, s') => Q a s' | Panic => False end.
Definition wlp {S A} (c : st S A) (Q : A → S → Prop) (s : S) : Prop :=
  match c s with Ret (a, s') => Q a s' | Panic => True end.

Create HintDb cyanos.

Section monad.
Context {S : Type}.
Implicit Types s : S.

Lemma wp_ret {A} (a : A) Q s : Q a s → wp (mret a) Q s.
Proof. done. Qed.

Lemma wp_bind {A B} (c : st S A) (f : A → st S B) Q s :
  wp c (λ a s', wp (f a) Q s') s → wp (c ≫= f) Q s.
Proof. unfold wp, mbind, st_bind. destruct (c s) as [[a s']|]; done. Qed.

Lemma wp_mono {A} (c : st S A) (Q Q' : A → S → Prop) s :
  wp c Q s → (∀ a s', Q a s' → Q' a s') → wp c Q' s.
Proof. unfold wp. destruct (c s) as [[a s']|]; naive_solver. Qed.

Lemma wlp_ret {A} (a : A) Q s : Q a s → wlp (mret a) Q s.
Proof. done. Qed.

Lemma wlp_bind {A B} (c : st S A) (f : A → st S B) Q s :
  wlp c (λ a s', wlp (f a) Q s') s → wlp (c ≫= f) Q s.
Proof. unfold wlp, mbind, st_bind. destruct (c s) as [[a s']|]; done. Qed.

Lemma wlp_mono {A} (c : st S A) (Q Q' : A → S → Prop) s :
  wlp c Q s → (∀ a s', Q a s' → Q' a s') → wlp c Q' s.
Proof. unfold wlp. destruct (c s) as [[a s']|]; naive_solver. Qed.

Lemma wp_wlp {A} (c : st S A) Q s : wp c Q s → wlp c Q s.
Proof. unfold wp, wlp. destruct (c s) as [[a s']|]; done. Qed.

Lemma wlp_true {A} (c : st S A) s : wlp c (λ _ _, True) s.
Proof. unfold wlp. destruct (c s) as [[a s']|]; done. Qed.

Lemma wlp_run {A} (c : st S A) Q s a s' :
  wlp c Q s → c s = Ret (a, s') → Q a s'.
Proof. unfold wlp. intros HQ H. by rewrite H in HQ. Qed.

Lemma wp_run {A} (c : st S A) Q s a s' :
  wp c Q s → c s = Ret (a, s') → Q a s'.
Proof. unfold wp. intros HQ H. by rewrite H in HQ. Qed.

Lemma bind_Ret {A B} (c : st S A) (f : A → st S B) s r :
  (c ≫= f) s = Ret r ↔ ∃ a s', c s = Ret (a, s') ∧ f a s' = Ret r.
Proof.
  unfold mbind, st_bind. destruct (c s) as [[a s']|]; naive_solver.
Qed.
End monad.

(** [for x in l { body }] *)
Fixpoint for_each {S A} (l : list A) (body : A → st S unit) : st S unit :=
  match l with
  | [] => mret tt
  | x :: l' => body x ≫= λ _, for_each l' body
  end.

Lemma wlp_for_each {S A} (I : S → Prop) (l : list A) (body : A → st S unit) s :
  I s → (∀ x s', x ∈ l → I s' → wlp (body x) (λ _, I) s') →
  wlp (for_each l body) (λ _, I) s.
Proof.
  revert s. induction l as [|x l IH]; intros s HI Hb; [done|].
  simpl. apply wlp_bind. eapply wlp_mono; [apply Hb; [set_solver|done]|].
  intros [] s' HI'. apply IH; [done|]. intros; apply Hb; [set_solver|done].
Qed.

(** ** Results of fallible operations *)

Inductive result (A E : Type) : Type :=
  | Ok (a : A)
  | Err (e : E).
Arguments Ok {A E} a.
Arguments Err {A E} e.

Definition ok_or {A E} (o : option A) (e : E) : result A E :=
  match o with Some a => Ok a | None => Err e end.

#[export] Instance result_ret E : MRet (λ A, result A E) := λ A a, Ok a.
#[export] Instance result_bind E : MBind (λ A, result A E) := λ A B f r,
  match r with Ok a => f a | Err e => Err e end.

Definition is_ok {A E} (r : result A E) : bool :=
  match r with Ok _ => true | Err _ => false end.

(** ** Searching arrays: [iter().position(..)] and [iter().find(..)] *)

Fixpoint position {A} (p : A → bool) (l : list A) : option nat :=
  match l with
  | [] => None
  | x :: l' => if p x then Some O else S <$> position p l'
  end.

Definition find_first {A} (p : A → bool) (l : list A) : option A :=
  i ← position p l; l !! i.

Section position.
Context {A : Type} (p : A → bool).
Implicit Types l : list A.

Lemma position_Some l i :
  position p l = Some i ↔
  ∃ x, l !! i = Some x ∧ p x = true ∧
       ∀ j y, (j < i)%nat → l !! j = Some y → p y = false.
Proof.
  revert i. induction l as [|x l IH]; intros i; simpl.
  { split; [done|]. intros (x & Hx & _). by rewrite lookup_nil in Hx. }
  destruct (p x) eqn:Hp.
  - split.
    + intros [= <-]. exists x. split_and!; [done..|]. intros; lia.
    + intros (y & Hy & Hpy & Hmin). destruct i; [done|].
      specialize (Hmin O x ltac:(lia) eq_refl). congruence.
  - destruct (position p l) as [k|] eqn:Hk; simpl.
    + split.
      * intros [= <-]. destruct (proj1 (IH k) eq_refl) as (y & ? & ? & Hmin).
        exists y. split_and!; [done..|]. intros [|j] z Hj Hz; simpl in *.
        -- congruence.
        -- eapply Hmin; [|done]. lia.
      * intros (y & Hy & Hpy & Hmin). destruct i as [|i]; simpl in *; [congruence|].
        f_equal. assert (Some k = Some i) as [= ->]; [|done].
        apply IH. exists y. split_and!; [done..|].
        intros j z Hj Hz. apply (Hmin (S j)); [lia|done].
    + split; [done|]. intros (y & Hy & Hpy & Hmin).
      destruct i as [|i]; simpl in *; [congruence|].
      assert (None = Some i); [|done]. apply IH. exists y. split_and!; [done..|].
      intros j z Hj Hz. apply (Hmin (S j)); [lia|done].
Qed.

Lemma position_None l :
  position p l = None ↔ ∀ i x, l !! i = Some x → p x = false.
Proof.
  induction l as [|x l IH]; simpl; [split; [intros _ i x; by rewrite lookup_nil|done]|].
  destruct (p x) eqn:Hp; [split; [done|intros H; specialize (H O x eq_refl); congruence]|].
  destruct (position p l); simpl.
  - split; [done|]. intros H. destruct IH as [_ IH]. discriminate IH.
    intros i y Hy. apply (H (S i) y Hy).
  - split; [|done]. intros _ [|i] y Hy; simpl in *; [congruence|].
    by eapply (proj1 IH).
Qed.

Lemma position_lt l i : position p l = Some i → (i < length l)%nat.
Proof.
  intros (x & Hx & _)%position_Some. by eapply lookup_lt_Some.
Qed.

Lemma position_holds l i x :
  position p l = Some i → l !! i = Some x → p x = true.
Proof. intros (y & Hy & Hp & _)%position_Some Hx. congruence. Qed.

(** An element that satisfies the predicate makes the search succeed. *)
Lemma position_is_Some l i x :
  l !! i = Some x → p x = true → ∃ k, position p l = Some k ∧ (k ≤ i)%nat.
Proof.
  intros Hx Hp. destruct (position p l) as [k|] eqn:Hk.
  - exists k. split; [done|]. apply position_Some in Hk as (_ & _ & _ & Hmin).
    destruct (decide (k ≤ i)%nat); [done|].
    specialize (Hmin i x ltac:(lia) Hx). congruence.
  - rewrite position_None in Hk. specialize (Hk i x Hx). congruence.
Qed.

(** The search finds the only element that satisfies the predicate. *)
Lemma position_unique l i x :
  l !! i = Some x → p x = true →
  (∀ j y, l !! j = Some y → p y = true → j = i) →
  position p l = Some i.
Proof.
  intros Hx Hp Huniq. apply position_Some. exists x. split_and!; [done..|].
  intros j y Hj Hy. destruct (p y) eqn:Hpy; [|done].
  specialize (Huniq j y Hy Hpy). lia.
Qed.

(** Only the answers of the predicate matter. *)
Lemma position_ext l l' : Forall2 (λ x y, p x = p y) l l' → position p l = position p l'.
Proof. induction 1 as [|x y l l' Hxy _ IH]; [done|]. simpl. by rewrite Hxy, IH. Qed.
End position.

Lemma find_first_Some {A} (p : A → bool) l x :
  find_first p l = Some x ↔ ∃ i, position p l = Some i ∧ l !! i = Some x.
Proof. unfold find_first. destruct (position p l); naive_solver. Qed.

Lemma find_first_None {A} (p : A → bool) l :
  find_first p l = None ↔ ∀ i x, l !! i = Some x → p x = false.
Proof.
  unfold find_first. rewrite <- position_None.
  destruct (position p l) as [i|] eqn:Hi; simpl; [|naive_solver].
  destruct (lookup_lt_is_Some_2 l i) as [x Hx]; [by eapply position_lt|].
  rewrite Hx. naive_solver.
Qed.

(** ** Automation *)

(** Case analysis on the boolean tests of the program, turned into the
    propositions they decide. *)
Ltac to_prop :=
  repeat match goal with
  | H : (_ && _)%bool = true |- _ => apply andb_true_iff in H as [? ?]
  | H : (_ || _)%bool = false |- _ => apply orb_false_iff in H as [? ?]
  | H : negb _ = true |- _ => apply negb_true_iff in H
  | H : negb _ = false |- _ => apply negb_false_iff in H
  | H : (_ <? _)%Z = true |- _ => apply Z.ltb_lt in H
  | H : (_ <? _)%Z = false |- _ => apply Z.ltb_ge in H
  | H : (_ <=? _)%Z = true |- _ => apply Z.leb_le in H
  | H : (_ <=? _)%Z = false |- _ => apply Z.leb_gt in H
  | H : (_ =? _)%Z = true |- _ => apply Z.eqb_eq in H
  | H : (_ =? _)%Z = false |- _ => apply Z.eqb_neq in H
  | H : (_ <? _)%nat = true |- _ => apply Nat.ltb_lt in H
  | H : (_ <? _)%nat = false |- _ => apply Nat.ltb_ge in H
  | H : (_ <=? _)%nat = true |- _ => apply Nat.leb_le in H
  | H : (_ <=? _)%nat = false |- _ => apply Nat.leb_gt in H
  | H : (_ =? _)%nat = true |- _ => apply Nat.eqb_eq in H
  | H : (_ =? _)%nat = false |- _ => apply Nat.eqb_neq in H
  | H : bool_decide _ = true |- _ => apply bool_decide_eq_true in H
  | H : bool_decide _ = false |- _ => apply bool_decide_eq_false in H
  end.

Ltac case_bool :=
  match goal with
  | |- context [if ?b then _ else _] => destruct b eqn:?; to_prop
  | H : context [if ?b then _ else _] |- _ => destruct b eqn:?; to_prop
  end.

(** Run a monadic program one bind at a time. *)
Ltac run_step :=
  match goal with
  | H : (mbind _ _) _ = Ret _ |- _ =>
      apply bind_Ret in H as (? & ? & ? & ?)
  | H : mret _ _ = Ret _ |- _ => unfold mret, st_ret in H; simplify_eq
  | H : st_get _ _ = Ret _ |- _ => unfold st_get in H; simplify_eq
  | H : st_modify _ _ = Ret _ |- _ => unfold st_modify in H; simplify_eq
  | H : st_panic _ = Ret _ |- _ => unfold st_panic in H; discriminate H
  end.

(** ** Lists *)

(** [x.len()] *)
Definition len {A} (l : list A) : Z := Z.of_nat (length l).

Section lists.
Context {A : Type}.
Implicit Types l : list A.

Lemma len_app l l' : len (l ++ l') = (len l + len l')%Z.
Proof. unfold len. rewrite length_app. lia. Qed.

Lemma len_nonneg l : (0 ≤ len l)%Z.
Proof. unfold len. lia. Qed.

Lemma insert_lookup_cases l i j x y :
  <[i:=x]> l !! j = Some y →
  (i = j ∧ x = y ∧ (j < length l)%nat) ∨ (i ≠ j ∧ l !! j = Some y).
Proof.
  intros H. destruct (decide (i = j)) as [->|Hne].
  - left. assert (j < length l)%nat as Hj.
    { rewrite <- (length_insert l j x). by eapply lookup_lt_Some. }
    rewrite list_lookup_insert_eq in H by done. by simplify_eq.
  - right. by rewrite list_lookup_insert_ne in H.
Qed.

Lemma Forall_insert_1 (P : A → Prop) l i x :
  Forall P l → P x → Forall P (<[i:=x]> l).
Proof.
  rewrite !Forall_lookup. intros HP Hx j y [(_ & <- & _)|[_ ?]]%insert_lookup_cases; eauto.
Qed.

Lemma lookup_replicate_Some n (x y : A) i :
  replicate n x !! i = Some y → y = x.
Proof. by intros [-> _]%lookup_replicate. Qed.
End lists.

(** Number of list elements that satisfy a boolean test. *)
Definition countb {A} (p : A → bool) (l : list A) : nat :=
  length (List.filter p l).

Lemma countb_cons {A} (p : A → bool) x l :
  countb p (x :: l) = ((if p x then 1 else 0) + countb p l)%nat.
Proof. unfold countb. simpl. by destruct (p x). Qed.

Lemma countb_insert {A} (p : A → bool) l i x y :
  l !! i = Some y →
  (countb p (<[i:=x]> l) + (if p y then 1 else 0) =
   countb p l + (if p x then 1 else 0))%nat.
Proof.
  revert i. induction l as [|z l IH]; intros [|i] Hi; simplify_eq/=.
  - rewrite !countb_cons. lia.
  - rewrite !countb_cons. specialize (IH _ Hi). lia.
Qed.

Lemma countb_replicate {A} (p : A → bool) n x :
  p x = false → countb p (replicate n x) = 0%nat.
Proof. intros Hp. induction n; simpl; [done|]. rewrite countb_cons, Hp. done. Qed.

Lemma countb_ext {A} (p q : A → bool) l : (∀ x, x ∈ l → p x = q x) → countb p l = countb q l.
Proof.
  induction l as [|x l IH]; intros Hpq; [done|]. rewrite !countb_cons.
  rewrite (Hpq x) by left. rewrite IH; [done|]. intros y Hy. apply Hpq. by right.
Qed.

Lemma countb_le {A} (p : A → bool) l : (countb p l ≤ length l)%nat.
Proof. induction l; [done|]. rewrite countb_cons. simpl. case_match; lia. Qed.

(** ** Tables of slots searched by key

    Kernel tables are fixed arrays of slots; a slot that is [live] is found by
    the first match on its [key] (capability tokens, port numbers, process
    identifiers).  With unique keys the first match is the only one and the
    table behaves as a finite map. *)

Section keyed.
Context {A : Type} (live : A → bool) (key : A → Z).
Implicit Types (l : list A) (k : Z).

Definition keyed k (x : A) : bool := live x && (key x =? k)%Z.

Definition lookup_key l k : option A := find_first (keyed k) l.

Definition unique_keys l : Prop := ∀ i j x y,
  l !! i = Some x → l !! j = Some y → live x = true → live y = true →
  key x = key y → i = j.

Lemma keyed_true k x : keyed k x = true ↔ live x = true ∧ key x = k.
Proof. unfold keyed. by rewrite andb_true_iff, Z.eqb_eq. Qed.

Lemma position_key l i x :
  unique_keys l → l !! i = Some x → live x = true →
  position (keyed (key x)) l = Some i.
Proof.
  intros Hu Hx Hl. apply (position_unique _ _ _ x); [done|by apply keyed_true|].
  intros j y Hy [Hly Hk]%keyed_true. by eapply (Hu j i y x).
Qed.

Lemma lookup_key_live l k x :
  lookup_key l k = Some x → ∃ i, l !! i = Some x ∧ live x = true ∧ key x = k.
Proof.
  intros (i & Hi & Hx)%find_first_Some. exists i. split; [done|].
  apply keyed_true. by eapply position_holds.
Qed.

Lemma lookup_key_Some l k x :
  unique_keys l →
  lookup_key l k = Some x ↔ ∃ i, l !! i = Some x ∧ live x = true ∧ key x = k.
Proof.
  intros Hu. split; [apply lookup_key_live|]. intros (i & Hx & Hl & <-).
  apply find_first_Some. exists i. split; [by apply position_key|done].
Qed.

Lemma lookup_key_None l k :
  lookup_key l k = None ↔ ∀ i x, l !! i = Some x → live x = true → key x ≠ k.
Proof.
  unfold lookup_key. rewrite find_first_None. split.
  - intros H i x Hx Hl Hk. specialize (H i x Hx).
    assert (keyed k x = true) by (by apply keyed_true). congruence.
  - intros H i x Hx. destruct (keyed k x) eqn:Hk; [|done].
    apply keyed_true in Hk as [Hl Hk]. by destruct (H i x Hx Hl).
Qed.

Lemma unique_keys_insert l i x :
  unique_keys l →
  (live x = true → ∀ j y, j ≠ i → l !! j = Some y → live y = true → key y ≠ key x) →
  unique_keys (<[i:=x]> l).
Proof.
  intros Hu Hx j1 j2 y1 y2 H1 H2 Hl1 Hl2 Hk.
  apply insert_lookup_cases in H1 as [(<- & <- & _)|[? H1]];
    apply insert_lookup_cases in H2 as [(<- & <- & _)|[? H2]]; [done|..].
  - by destruct (Hx Hl1 j2 y2 ltac:(done) H2 Hl2).
  - by destruct (Hx Hl2 j1 y1 ltac:(done) H1 Hl1).
  - by eapply Hu.
Qed.

(** Filling a slot that was free, or that had the same key. *)
Lemma lookup_key_insert l i x y k :
  unique_keys l → unique_keys (<[i:=x]> l) → l !! i = Some y → live x = true →
  (live y = true → key y = key x) →
  lookup_key (<[i:=x]> l) k = if (k =? key x)%Z then Some x else lookup_key l k.
Proof.
  intros Hu Hu' Hy Hl Hyx. destruct (Z.eqb_spec k (key x)) as [->|Hne].
  - apply lookup_key_Some; [done|]. exists i.
    rewrite list_lookup_insert_eq by (by eapply lookup_lt_Some). done.
  - destruct (lookup_key l k) as [z|] eqn:Hz.
    + apply lookup_key_Some in Hz as (j & Hj & Hlz & <-); [|done].
      apply lookup_key_Some; [done|]. exists j. split; [|done].
      rewrite list_lookup_insert_ne; [done|]. intros ->. simplify_eq.
      by destruct Hne; apply Hyx.
    + apply lookup_key_None. intros j z Hj Hlz.
      apply insert_lookup_cases in Hj as [(<- & <- & _)|[_ Hj]]; [done|].
      by eapply (proj1 (lookup_key_None l k)).
Qed.

(** Freeing a slot. *)
Lemma lookup_key_delete l i x y k :
  unique_keys l → l !! i = Some y → live y = true → live x = false →
  lookup_key (<[i:=x]> l) k = if (k =? key y)%Z then None else lookup_key l k.
Proof.
  intros Hu Hy Hly Hlx.
  assert (unique_keys (<[i:=x]> l)) as Hu'.
  { apply unique_keys_insert; [done|]. intros; congruence. }
  destruct (Z.eqb_spec k (key y)) as [->|Hne].
  - apply lookup_key_None. intros j z Hj Hlz.
    apply insert_lookup_cases in Hj as [(<- & <- & _)|[Hij Hj]]; [congruence|].
    intros Hk. by destruct Hij; eapply (Hu i j y z).
  - destruct (lookup_key l k) as [z|] eqn:Hz.
    + apply lookup_key_Some in Hz as (j & Hj & Hlz & <-); [|done].
      apply lookup_key_Some; [done|]. exists j. split; [|done].
      rewrite list_lookup_insert_ne; [done|]. intros ->. by simplify_eq.
    + apply lookup_key_None. intros j z Hj Hlz.
      apply insert_lookup_cases in Hj as [(<- & <- & _)|[_ Hj]]; [congruence|].
      by eapply (proj1 (lookup_key_None l k)).
Qed.

Lemma unique_keys_replicate n x : live x = false → unique_keys (replicate n x).
Proof.
  intros Hx i j y z Hy _ Hl. apply lookup_replicate_Some in Hy as ->. congruence.
Qed.
End keyed.

#[global] Arguments keyed : simpl never.
#[global] Arguments lookup_key : simpl never.

#[export] Hint Resolve wlp_true wp_wlp : cyanos.
