(* ===== verification/Words.v ===== *)
(** * Machine words

    Fixed-width unsigned integers are integers of [Z] in their range; the
    arithmetic of a release build wraps around.  This file has the wrapping
    operations with their notations, the casts of the source ([as u32],
    [as i64]), the page-mask identities, bit counting, and little-endian byte
    sequences. *)

From stdpp Require Import base list option numbers.
From Stdlib Require Import ZArith Lia.
From S2P Require Import Prelude.

Local Open Scope Z_scope.

Definition u8 (z : Z) : Z := z mod 2^8.
Definition u16 (z : Z) : Z := z mod 2^16.
Definition u32 (z : Z) : Z := z mod 2^32.
Definition u64 (z : Z) : Z := z mod 2^64.

Definition U32_MAX : Z := 4294967295.
Definition U64_MAX : Z := 18446744073709551615.

(** [x as i64] and [x as i32] for an unsigned [x]. *)
Definition to_i64 (z : Z) : Z := let r := u64 z in if r <? 2^63 then r else r - 2^64.
Definition to_i32 (z : Z) : Z := let r := u32 z in if r <? 2^31 then r else r - 2^32.

Declare Scope word_scope.
Delimit Scope word_scope with word.

Definition wadd (a b : Z) : Z := u64 (a + b).
Definition wsub (a b : Z) : Z := u64 (a - b).
Definition wmul (a b : Z) : Z := u64 (a * b).
Definition wnot (a : Z) : Z := Z.lxor a U64_MAX.

Notation "a +! b" := (wadd a b) (at level 50, left associativity) : word_scope.
Notation "a -! b" := (wsub a b) (at level 50, left associativity) : word_scope.
Notation "a *! b" := (wmul a b) (at level 40, left associativity) : word_scope.
Notation "a .& b" := (Z.land a b) (at level 53, left associativity) : word_scope.
Notation "a .| b" := (Z.lor a b) (at level 54, left associativity) : word_scope.

Definition checked_add (a b : Z) : option Z :=
  if a + b <? 2^64 then Some (a + b) else None.
Definition checked_sub (a b : Z) : option Z :=
  if a <? b then None else Some (a - b).
Definition checked_mul (a b : Z) : option Z :=
  if a * b <? 2^64 then Some (a * b) else None.
Definition saturating_sub (a b : Z) : Z := Z.max 0 (a - b).
Definition saturating_add64 (a b : Z) : Z := Z.min (a + b) U64_MAX.

(** [z] is a value of a [w]-bit unsigned type. *)
Definition fits (w z : Z) : Prop := 0 ≤ z < 2^w.

(** The range hypothesis of the word lemmas, as a hint. *)
Lemma u64_range z : 0 ≤ u64 z < 2^64.
Proof. apply Z.mod_pos_bound. lia. Qed.

Lemma u64_small z : 0 ≤ z < 2^64 → u64 z = z.
Proof. apply Z.mod_small. Qed.

Lemma u32_range z : 0 ≤ u32 z < 2^32.
Proof. apply Z.mod_pos_bound. lia. Qed.

Lemma u32_small z : 0 ≤ z < 2^32 → u32 z = z.
Proof. apply Z.mod_small. Qed.

Lemma wadd_small a b : 0 ≤ a + b < 2^64 → wadd a b = a + b.
Proof. apply Z.mod_small. Qed.

Lemma wsub_small a b : 0 ≤ a - b < 2^64 → wsub a b = a - b.
Proof. apply Z.mod_small. Qed.

Lemma wmul_small a b : 0 ≤ a * b < 2^64 → wmul a b = a * b.
Proof. apply Z.mod_small. Qed.

Lemma wadd_range a b : 0 ≤ wadd a b < 2^64.
Proof. apply u64_range. Qed.

Lemma wsub_range a b : 0 ≤ wsub a b < 2^64.
Proof. apply u64_range. Qed.

Lemma checked_add_Some a b c : checked_add a b = Some c ↔ c = a + b ∧ a + b < 2^64.
Proof. unfold checked_add. destruct (Z.ltb_spec (a + b) (2^64)); naive_solver lia. Qed.

Lemma checked_add_None a b : checked_add a b = None ↔ 2^64 ≤ a + b.
Proof. unfold checked_add. destruct (Z.ltb_spec (a + b) (2^64)); naive_solver lia. Qed.

(** ** Masks *)

Lemma testbit_high w z i : 0 ≤ z < 2^w → 0 ≤ w → w ≤ i → Z.testbit z i = false.
Proof.
  intros Hz Hw Hi. destruct (Z.eq_dec z 0) as [->|]; [apply Z.bits_0|].
  apply Z.bits_above_log2; [lia|].
  enough (Z.log2 z < w) by lia. apply Z.log2_lt_pow2; lia.
Qed.

(** The converse: a value without high bits fits. *)
Lemma fits_bits w z :
  0 ≤ w → 0 ≤ z → (∀ i, w ≤ i → Z.testbit z i = false) → fits w z.
Proof.
  intros Hw Hz Hb. split; [done|]. destruct (Z.lt_ge_cases z (2^w)) as [|Hge]; [done|].
  pose proof (Z.pow_pos_nonneg 2 w ltac:(lia) Hw).
  pose proof (Z.bit_log2 z ltac:(lia)) as Hl. rewrite Hb in Hl; [done|].
  apply Z.log2_le_pow2; lia.
Qed.

Lemma fits_lor w a b : 0 ≤ w → fits w a → fits w b → fits w (Z.lor a b).
Proof.
  intros Hw Ha Hb. apply fits_bits; [done|apply Z.lor_nonneg; unfold fits in *; lia|].
  intros i Hi. by rewrite Z.lor_spec, !(testbit_high w).
Qed.

Lemma fits_land w a b : 0 ≤ w → fits w a → 0 ≤ b → fits w (Z.land a b).
Proof.
  intros Hw Ha Hb. apply fits_bits; [done|apply Z.land_nonneg; lia|].
  intros i Hi. by rewrite Z.land_spec, (testbit_high w a).
Qed.

Lemma fits_ldiff w a b : 0 ≤ w → fits w a → fits w (Z.ldiff a b).
Proof.
  intros Hw Ha. apply fits_bits; [done|apply Z.ldiff_nonneg; unfold fits in *; lia|].
  intros i Hi. by rewrite Z.ldiff_spec, (testbit_high w a).
Qed.

Lemma fits_pow2 w k : 0 ≤ k < w → fits w (2^k).
Proof.
  intros. split; [apply Z.pow_nonneg; lia|]. apply Z.pow_lt_mono_r; lia.
Qed.

Lemma U64_MAX_ones : U64_MAX = Z.ones 64.
Proof. reflexivity. Qed.

(** [x & !m] clears the bits of [m]. *)
Lemma land_wnot x m : 0 ≤ x < 2^64 → Z.land x (wnot m) = Z.ldiff x m.
Proof.
  intros Hx. unfold wnot. rewrite U64_MAX_ones.
  apply Z.bits_inj'. intros i Hi.
  rewrite Z.land_spec, Z.ldiff_spec, Z.lxor_spec.
  destruct (Z.lt_ge_cases i 64).
  - rewrite Z.ones_spec_low by lia. by destruct (Z.testbit x i), (Z.testbit m i).
  - by rewrite (testbit_high 64 x i) by lia.
Qed.

(** [x & !(2^k - 1)] rounds [x] down to a multiple of [2^k]. *)
Lemma land_mask x k :
  0 ≤ x < 2^64 → 0 ≤ k → Z.land x (wnot (2^k - 1)) = x - x mod 2^k.
Proof.
  intros Hx Hk. rewrite land_wnot by done.
  replace (2^k - 1) with (Z.ones k) by (rewrite Z.ones_equiv; lia).
  rewrite Z.ldiff_ones_r, Z.shiftl_mul_pow2, Z.shiftr_div_pow2 by done.
  pose proof (Z.pow_pos_nonneg 2 k ltac:(lia) Hk).
  pose proof (Z.div_mod x (2^k) ltac:(lia)). lia.
Qed.

(** Adding a multiple-of-[2^k] base and a smaller offset is a bitwise or. *)
Lemma lor_add x y k :
  0 ≤ k → x mod 2^k = 0 → 0 ≤ y < 2^k → Z.lor x y = x + y.
Proof.
  intros Hk Hx Hy. symmetry.
  rewrite <- Z.add_lor_land.
  assert (Z.land x y = 0) as ->; [|lia].
  apply Z.bits_inj'. intros i Hi. rewrite Z.land_spec, Z.bits_0.
  destruct (Z.lt_ge_cases i k) as [Hlt|Hge].
  - apply andb_false_iff. left.
    rewrite <- (Z.mod_pow2_bits_low x k i) by lia. by rewrite Hx, Z.bits_0.
  - apply andb_false_iff. right. by apply (testbit_high k).
Qed.

(** Flipping one bit of an address moves it to its buddy. *)
Lemma lxor_pow2 x k :
  0 ≤ x → 0 ≤ k →
  Z.lxor x (2^k) = if Z.testbit x k then x - 2^k else x + 2^k.
Proof.
  intros Hx Hk. destruct (Z.testbit x k) eqn:Hb.
  - assert (Z.lxor x (2^k) + 2^k = x); [|lia].
    rewrite Z.add_nocarry_lxor.
    + by rewrite Z.lxor_assoc, Z.lxor_nilpotent, Z.lxor_0_r.
    + apply Z.bits_inj'. intros i Hi.
      rewrite Z.land_spec, Z.lxor_spec, Z.bits_0, Z.pow2_bits_eqb by lia.
      destruct (Z.eqb_spec k i) as [->|]; [by rewrite Hb|].
      by rewrite andb_false_r.
  - symmetry. apply Z.add_nocarry_lxor. apply Z.bits_inj'. intros i Hi.
    rewrite Z.land_spec, Z.bits_0, Z.pow2_bits_eqb by lia.
    destruct (Z.eqb_spec k i) as [->|]; [by rewrite Hb|]. by rewrite andb_false_r.
Qed.

Lemma testbit_mod_pow2 x k :
  0 ≤ k → x mod 2^k = 0 → x mod 2^(k+1) = if Z.testbit x k then 2^k else 0.
Proof.
  intros Hk Hx. pose proof (Z.pow_pos_nonneg 2 k ltac:(lia) Hk).
  rewrite Z.testbit_eqb by done.
  rewrite Z.pow_add_r, Z.rem_mul_r by lia. rewrite Hx, Z.pow_1_r.
  pose proof (Z.mod_pos_bound (x / 2^k) 2 ltac:(lia)).
  destruct (Z.eqb_spec ((x / 2 ^ k) mod 2) 1); lia.
Qed.

(** ** Bit counting *)

Fixpoint pos_tz (p : positive) : nat :=
  match p with xO p' => S (pos_tz p') | _ => O end.

(** [u64::trailing_zeros] and [u64::trailing_ones] *)
Definition trailing_zeros (z : Z) : nat :=
  match z with Zpos p => pos_tz p | _ => 64%nat end.
Definition trailing_ones (z : Z) : nat := trailing_zeros (wnot z).

(** [u64::leading_zeros] *)
Definition leading_zeros (z : Z) : Z := if z =? 0 then 64 else 63 - Z.log2 z.

Lemma pos_tz_spec p :
  Z.testbit (Zpos p) (Z.of_nat (pos_tz p)) = true ∧
  ∀ i, 0 ≤ i < Z.of_nat (pos_tz p) → Z.testbit (Zpos p) i = false.
Proof.
  induction p as [p IH|p IH|]; simpl pos_tz.
  - split; [done|]. intros; lia.
  - destruct IH as [Hb Hl]. split.
    + rewrite Nat2Z.inj_succ, Pos2Z.inj_xO, Z.double_bits_succ. done.
    + intros i Hi. rewrite Pos2Z.inj_xO.
      destruct (Z.eq_dec i 0) as [->|]; [by rewrite Z.testbit_even_0|].
      replace i with (Z.succ (i - 1)) by lia. rewrite Z.double_bits_succ.
      apply Hl. lia.
  - split; [done|]. intros; lia.
Qed.

Lemma trailing_zeros_spec z :
  0 < z →
  Z.testbit z (Z.of_nat (trailing_zeros z)) = true ∧
  ∀ i, 0 ≤ i < Z.of_nat (trailing_zeros z) → Z.testbit z i = false.
Proof. destruct z; [lia| |lia]. intros _. apply pos_tz_spec. Qed.

Lemma trailing_zeros_lt64 z : 0 < z < 2^64 → (trailing_zeros z < 64)%nat.
Proof.
  intros Hz. destruct (trailing_zeros_spec z) as [Hb _]; [lia|].
  destruct (decide (trailing_zeros z < 64)%nat); [done|].
  rewrite (testbit_high 64) in Hb by lia. done.
Qed.

(** [2^(trailing_zeros z)] divides [z]. *)
Lemma trailing_zeros_divide z :
  0 < z → z mod 2 ^ Z.of_nat (trailing_zeros z) = 0.
Proof.
  intros Hz. destruct (trailing_zeros_spec z Hz) as [_ Hl].
  apply Z.bits_inj'. intros i Hi. rewrite Z.bits_0.
  destruct (Z.lt_ge_cases i (Z.of_nat (trailing_zeros z))).
  - rewrite Z.mod_pow2_bits_low by done. apply Hl. lia.
  - apply Z.mod_pow2_bits_high. lia.
Qed.

(** ** Little-endian byte sequences *)

Fixpoint le_decode (bs : list Z) : Z :=
  match bs with
  | [] => 0
  | b :: bs' => b + 256 * le_decode bs'
  end.

Fixpoint le_encode (n : nat) (v : Z) : list Z :=
  match n with
  | O => []
  | S n' => v mod 256 :: le_encode n' (v / 256)
  end.

Definition is_byte (b : Z) : Prop := 0 ≤ b < 256.

Lemma length_le_encode n v : length (le_encode n v) = n.
Proof. revert v. induction n; intros; simpl; auto. Qed.

Lemma le_encode_bytes n v : Forall is_byte (le_encode n v).
Proof.
  revert v. induction n as [|n IH]; intros v; simpl; constructor; [|done].
  apply Z.mod_pos_bound. lia.
Qed.

Lemma le_decode_encode n v :
  0 ≤ v < 2 ^ (8 * Z.of_nat n) → le_decode (le_encode n v) = v.
Proof.
  revert v. induction n as [|n IH]; intros v Hv; simpl le_decode.
  - simpl in Hv. lia.
  - rewrite IH.
    + pose proof (Z.div_mod v 256 ltac:(lia)). lia.
    + split; [apply Z.div_pos; lia|]. apply Z.div_lt_upper_bound; [lia|].
      replace (8 * Z.of_nat (S n)) with (8 + 8 * Z.of_nat n) in Hv by lia.
      rewrite Z.pow_add_r in Hv by lia. lia.
Qed.

Lemma le_decode_range bs :
  Forall is_byte bs → 0 ≤ le_decode bs < 2 ^ (8 * Z.of_nat (length bs)).
Proof.
  induction 1 as [|b bs Hb _ IH]; simpl length; [simpl; lia|].
  replace (8 * Z.of_nat (S (length bs))) with (8 + 8 * Z.of_nat (length bs)) by lia.
  rewrite Z.pow_add_r by lia. unfold is_byte in Hb. simpl le_decode. lia.
Qed.

Lemma le_encode_decode bs :
  Forall is_byte bs → le_encode (length bs) (le_decode bs) = bs.
Proof.
  induction 1 as [|b bs Hb _ IH]; simpl; [done|]. unfold is_byte in Hb.
  f_equal.
  - rewrite (Z.mul_comm 256), Z.mod_add, Z.mod_small by lia. done.
  - rewrite (Z.mul_comm 256), Z.div_add, (Z.div_small b) by lia. done.
Qed.

#[export] Hint Resolve u64_range u32_range wadd_range wsub_range : cyanos.

(** Remove the wrap-around of an operation whose result is in range. *)
Ltac unwrap :=
  repeat match goal with
  | |- context [wadd ?a ?b] => rewrite (wadd_small a b) by lia
  | |- context [wsub ?a ?b] => rewrite (wsub_small a b) by lia
  | |- context [wmul ?a ?b] => rewrite (wmul_small a b) by lia
  | |- context [u64 ?a] => rewrite (u64_small a) by lia
  end.

(** ** Signed results *)

Lemma to_i64_range z : -2^63 ≤ to_i64 z < 2^63.
Proof. unfold to_i64. pose proof (u64_range z). case_bool; lia. Qed.

Lemma to_i64_mod a : (to_i64 a) mod 2^64 = a mod 2^64.
Proof.
  unfold to_i64, u64. pose proof (Z.mod_pos_bound a (2^64) ltac:(lia)). destruct (Z.ltb_spec (a mod 2^64) (2^63)).
  - apply Z.mod_mod. lia.
  - rewrite <- (Z.mod_add (a mod 2^64 - 2^64) 1 (2^64)) by lia. rewrite Z.mul_1_l, Z.sub_add. apply Z.mod_mod. lia.
Qed.

Lemma to_i64_congr a b : a mod 2^64 = b mod 2^64 → to_i64 a = to_i64 b.
Proof. intros H. unfold to_i64, u64. by rewrite H. Qed.

Lemma to_i64_small v : - 2^63 ≤ v < 2^63 → to_i64 v = v.
Proof.
  intros H. unfold to_i64, u64. destruct (decide (0 ≤ v)) as [Hp|Hneg].
  - rewrite Z.mod_small by lia. by rewrite (proj2 (Z.ltb_lt _ _)) by lia.
  - rewrite <- (Z.mod_add v 1 (2^64)), Z.mod_small by lia. rewrite (proj2 (Z.ltb_ge _ _)) by lia. lia.
Qed.

Lemma to_i32_mod a : (to_i32 a) mod 2^32 = a mod 2^32.
Proof.
  unfold to_i32, u32. pose proof (Z.mod_pos_bound a (2^32) ltac:(lia)). destruct (Z.ltb_spec (a mod 2^32) (2^31)).
  - apply Z.mod_mod. lia.
  - rewrite <- (Z.mod_add (a mod 2^32 - 2^32) 1 (2^32)) by lia. rewrite Z.mul_1_l, Z.sub_add. apply Z.mod_mod. lia.
Qed.

Lemma to_i32_add a b : to_i32 (to_i32 a + b) = to_i32 (a + b).
Proof. unfold to_i32 at 1 3, u32. rewrite <- Zplus_mod_idemp_l, to_i32_mod, Zplus_mod_idemp_l. done. Qed.

Lemma to_i32_add_r a b : to_i32 (a + to_i32 b) = to_i32 (a + b).
Proof. by rewrite Z.add_comm, to_i32_add, Z.add_comm. Qed.

Lemma to_i32_idem a : to_i32 (to_i32 a) = to_i32 a.
Proof. unfold to_i32 at 1, u32. by rewrite to_i32_mod. Qed.

Lemma to_i32_small a : 0 ≤ a < 2^31 → to_i32 a = a.
Proof. intros Ha. unfold to_i32, u32. rewrite Z.mod_small by lia. by rewrite (proj2 (Z.ltb_lt _ _)) by lia. Qed.
