(* ===== verification/Rings.v ===== *)
(** * Circular slices

    The kernel has several ring buffers over fixed arrays: the [RingBuffer] of
    the library, the message queue of an IPC port, the pipe rings of the VFS
    server and the buffers of the TTY server.  [cslice buf s n] is the list of
    the [n] slots that start at index [s] and wrap around the array; the rings
    are proved to implement queues through it. *)

From stdpp Require Import base list option numbers.
From Stdlib Require Import Arith Lia.
From S2P Require Import Prelude.

Section cslice.
Context {A : Type}.
Implicit Types buf : list A.

Fixpoint cslice buf (s n : nat) : list A :=
  match n with
  | O => []
  | S n' =>
      match buf !! (s mod length buf) with
      | Some x => x :: cslice buf (S s) n'
      | None => []
      end
  end.

Lemma mod_add_inj N s k n :
  k < N → n < N → (s + k) mod N = (s + n) mod N → k = n.
Proof.
  intros Hk Hn Heq.
  pose proof (Nat.div_mod_eq (s + k) N). pose proof (Nat.div_mod_eq (s + n) N).
  rewrite Heq in *. set (q1 := (s + k) / N) in *. set (q2 := (s + n) / N) in *.
  destruct (Nat.lt_trichotomy q1 q2) as [|[|]]; nia.
Qed.

Lemma lookup_mod_is_Some buf i :
  0 < length buf → is_Some (buf !! (i mod length buf)).
Proof. intros. apply lookup_lt_is_Some_2, Nat.mod_upper_bound. lia. Qed.

Lemma length_cslice buf s n : 0 < length buf → length (cslice buf s n) = n.
Proof.
  intros HN. revert s. induction n as [|n IH]; intros s; simpl; [done|].
  destruct (lookup_mod_is_Some buf s HN) as [x ->]. simpl. by rewrite IH.
Qed.

Lemma lookup_cslice buf s n k :
  0 < length buf → k < n → cslice buf s n !! k = buf !! ((s + k) mod length buf).
Proof.
  intros HN. revert s k. induction n as [|n IH]; intros s k Hk; simpl; [lia|].
  destruct (lookup_mod_is_Some buf s HN) as [x Hx]. rewrite Hx.
  destruct k as [|k]; simpl.
  - by rewrite Nat.add_0_r.
  - rewrite IH by lia. do 2 f_equal. lia.
Qed.

Lemma cslice_ext buf buf' s s' n :
  0 < length buf → 0 < length buf' →
  (∀ k, k < n → buf !! ((s + k) mod length buf) = buf' !! ((s' + k) mod length buf')) →
  cslice buf s n = cslice buf' s' n.
Proof.
  intros HN HN' Heq. apply list_eq. intros k.
  destruct (decide (k < n)).
  - rewrite !lookup_cslice by done. by apply Heq.
  - rewrite !lookup_ge_None_2; [done|rewrite length_cslice by done; lia..].
Qed.

Lemma cslice_mod buf s n :
  0 < length buf → cslice buf (s mod length buf) n = cslice buf s n.
Proof.
  intros HN. apply cslice_ext; [done..|]. intros k Hk.
  by rewrite Nat.Div0.add_mod_idemp_l.
Qed.

Lemma cslice_insert_ne buf s n i x :
  0 < length buf → (∀ k, k < n → (s + k) mod length buf ≠ i) →
  cslice (<[i:=x]> buf) s n = cslice buf s n.
Proof.
  intros HN Hne. apply cslice_ext; rewrite ?length_insert; [done..|].
  intros k Hk. rewrite list_lookup_insert_ne; [done|].
  intros ->. by apply (Hne k).
Qed.

(** Writing the slot just after a slice appends to it. *)
Lemma cslice_push buf s n x :
  n < length buf →
  cslice (<[((s + n) mod length buf) := x]> buf) s (S n) = cslice buf s n ++ [x].
Proof.
  intros Hn. apply list_eq. intros k.
  assert (0 < length buf) as HN by lia.
  destruct (Nat.lt_trichotomy k n) as [Hk|[->|Hk]].
  - rewrite lookup_app_l by (by rewrite length_cslice).
    rewrite !lookup_cslice by (rewrite ?length_insert; lia).
    rewrite length_insert, list_lookup_insert_ne; [done|].
    intros Heq%mod_add_inj; lia.
  - rewrite lookup_cslice by (rewrite ?length_insert; lia). rewrite length_insert.
    rewrite list_lookup_insert_eq by (apply Nat.mod_upper_bound; lia).
    rewrite lookup_app_r by (rewrite length_cslice; lia).
    rewrite length_cslice by done. by rewrite Nat.sub_diag.
  - rewrite !lookup_ge_None_2; [done| |].
    + rewrite length_app, length_cslice by done. simpl. lia.
    + rewrite length_cslice by (rewrite length_insert; done). lia.
Qed.

(** A slice is the slice of its first slots and that of the rest. *)
Lemma cslice_app buf s n k :
  0 < length buf → cslice buf s (n + k) = cslice buf s n ++ cslice buf (s + n) k.
Proof.
  intros HN. revert s. induction n as [|n IH]; intros s; cbn [cslice Nat.add app]; [by rewrite Nat.add_0_r|].
  destruct (lookup_mod_is_Some buf s HN) as [x ->]. simpl. rewrite IH. by replace (S s + n) with (s + S n) by lia.
Qed.

(** Reading the first slot of a slice takes its head. *)
Lemma cslice_pop buf s n x :
  0 < length buf → buf !! (s mod length buf) = Some x →
  cslice buf s (S n) = x :: cslice buf (S s) n.
Proof. intros _ Hx. simpl. by rewrite Hx. Qed.
End cslice.

(** The number of slots between two cursors of a ring of [N] slots. *)
Definition ring_count (N head tail : nat) : nat := (tail + N - head) mod N.

Lemma ring_count_lt N head tail : 0 < N → ring_count N head tail < N.
Proof. intros. apply Nat.mod_upper_bound. lia. Qed.

Lemma ring_count_empty N head tail :
  0 < N → head < N → tail < N → ring_count N head tail = 0 ↔ head = tail.
Proof.
  intros HN Hh Ht. unfold ring_count. split.
  - intros H0. apply (mod_add_inj N (N - head) head tail Hh Ht).
    replace (N - head + tail) with (tail + N - head) by lia. rewrite H0.
    replace (N - head + head) with (0 + 1 * N) by lia.
    rewrite Nat.Div0.mod_add. apply Nat.mod_0_l. lia.
  - intros ->. replace (tail + N - tail) with (0 + 1 * N) by lia.
    rewrite Nat.Div0.mod_add. apply Nat.mod_0_l. lia.
Qed.

(** The tail cursor is the head cursor advanced by the count. *)
Lemma ring_count_tail N head tail :
  0 < N → head < N → tail < N → (head + ring_count N head tail) mod N = tail.
Proof.
  intros HN Hh Ht. unfold ring_count. rewrite Nat.Div0.add_mod_idemp_r.
  replace (head + (tail + N - head)) with (tail + 1 * N) by lia.
  rewrite Nat.Div0.mod_add. by apply Nat.mod_small.
Qed.

Lemma ring_count_succ N head tail :
  0 < N → head < N → tail < N → (tail + 1) mod N ≠ head →
  ring_count N head ((tail + 1) mod N) = S (ring_count N head tail).
Proof.
  intros HN Hh Ht Hne. pose proof (ring_count_lt N head tail HN) as Hlt.
  assert (ring_count N head tail < N - 1) as Hlt'.
  { destruct (decide (ring_count N head tail = N - 1)) as [He|]; [|lia].
    destruct Hne. rewrite <- (ring_count_tail N head tail) by done.
    rewrite He, Nat.Div0.add_mod_idemp_l.
    replace (head + (N - 1) + 1) with (head + 1 * N) by lia.
    rewrite Nat.Div0.mod_add. by apply Nat.mod_small. }
  pose proof (Nat.mod_upper_bound (tail + 1) N ltac:(lia)).
  apply (mod_add_inj N head); [apply ring_count_lt; lia|lia|].
  rewrite ring_count_tail by done.
  rewrite <- (ring_count_tail N head tail) at 1 by done.
  rewrite Nat.Div0.add_mod_idemp_l. f_equal. lia.
Qed.

Lemma ring_count_full N head tail :
  0 < N → head < N → tail < N → (tail + 1) mod N = head →
  ring_count N head tail = N - 1.
Proof.
  intros HN Hh Ht Heq. pose proof (ring_count_lt N head tail HN) as Hlt.
  destruct (decide (N = 1)) as [->|]; [lia|].
  assert (S (ring_count N head tail) mod N = 0) as H0.
  { apply (f_equal (λ x, (x + (N - head)) mod N)) in Heq.
    rewrite Nat.Div0.add_mod_idemp_l in Heq.
    replace (head + (N - head)) with (0 + 1 * N) in Heq by lia.
    rewrite Nat.Div0.mod_add, Nat.mod_0_l in Heq by lia. rewrite <- Heq.
    unfold ring_count. rewrite <- Nat.add_1_l, Nat.Div0.add_mod_idemp_r. f_equal. lia. }
  destruct (decide (S (ring_count N head tail) < N)) as [Hs|]; [|lia].
  rewrite Nat.mod_small in H0; lia.
Qed.

Lemma ring_count_pred N head tail :
  0 < N → head < N → tail < N → head ≠ tail →
  ring_count N head tail = S (ring_count N ((head + 1) mod N) tail).
Proof.
  intros HN Hh Ht Hne. pose proof (ring_count_lt N head tail HN).
  assert (ring_count N head tail ≠ 0) as Hnz by (by rewrite ring_count_empty).
  pose proof (Nat.mod_upper_bound (head + 1) N ltac:(lia)).
  enough (ring_count N ((head + 1) mod N) tail = ring_count N head tail - 1) by lia.
  apply (mod_add_inj N (head + 1)); [apply ring_count_lt; lia|lia|].
  rewrite <- Nat.Div0.add_mod_idemp_l, ring_count_tail by done.
  replace (head + 1 + (ring_count N head tail - 1))
    with (head + ring_count N head tail) by lia.
  by rewrite ring_count_tail.
Qed.
