(* ===== verification/CyLib.v ===== *)
(** * The shared kernel library (crate [cyanos_lib], src/lib)

    [align_up] and [align_down], the single-producer single-consumer
    [RingBuffer] and the [Bitmap].  A method on [&mut self] is a computation of
    [st Self]; an index out of bounds panics. *)

From stdpp Require Import base list option numbers.
From Stdlib Require Import ZArith Lia.
From S2P Require Import Prelude Words Rings.

Local Open Scope Z_scope.

(** ** Alignment *)

Definition align_up (value align : Z) : Z :=
  Z.land (wsub (wadd value align) 1) (wnot (wsub align 1)).

Definition align_down (value align : Z) : Z :=
  Z.land value (wnot (wsub align 1)).

Lemma align_down_spec value k :
  fits 64 value → 0 ≤ k < 64 →
  align_down value (2^k) = value - value mod 2^k.
Proof.
  intros Hv Hk. unfold align_down, fits in *.
  pose proof (Z.pow_pos_nonneg 2 k ltac:(lia) ltac:(lia)).
  pose proof (Z.pow_lt_mono_r 2 k 64 ltac:(lia) ltac:(lia) ltac:(lia)).
  rewrite wsub_small by lia. apply land_mask; lia.
Qed.

Lemma align_up_spec value k :
  fits 64 value → 0 ≤ k < 64 → value + 2^k ≤ 2^64 →
  align_up value (2^k) = (value + 2^k - 1) - (value + 2^k - 1) mod 2^k.
Proof.
  intros Hv Hk Hfit. unfold align_up, fits in *.
  pose proof (Z.pow_pos_nonneg 2 k ltac:(lia) ltac:(lia)).
  pose proof (Z.pow_lt_mono_r 2 k 64 ltac:(lia) ltac:(lia) ltac:(lia)).
  rewrite (wsub_small (2^k) 1) by lia.
  assert (wsub (wadd value (2 ^ k)) 1 = value + 2^k - 1) as ->.
  { unfold wsub, wadd, u64. rewrite Zminus_mod_idemp_l. apply Z.mod_small. lia. }
  apply land_mask; lia.
Qed.

(** ** RingBuffer *)

Module RingBuffer.
Section ring.
Context {T : Type}.

Record RingBuffer := mk { buf : list (option T); head : nat; tail : nat }.

Definition new (N : nat) : RingBuffer := mk (replicate N None) 0 0.

(** The modulus is the array length [N]; [% 0] panics. *)
Definition push (val : T) : st RingBuffer bool := λ r,
  let N := length (buf r) in
  if (N =? 0)%nat then Panic else
  let next := ((tail r + 1) mod N)%nat in
  if (next =? head r)%nat then Ret (false, r)
  else if (tail r <? N)%nat then
    Ret (true, mk (<[tail r := Some val]> (buf r)) (head r) next)
  else Panic.

Definition pop : st RingBuffer (option T) := λ r,
  let N := length (buf r) in
  if (head r =? tail r)%nat then Ret (None, r)
  else match buf r !! head r with
  | None => Panic
  | Some val =>
      Ret (val, mk (<[head r := None]> (buf r)) ((head r + 1) mod N)%nat (tail r))
  end.

Definition is_empty (r : RingBuffer) : bool := (head r =? tail r)%nat.

(** The ring [r] holds the queue [q]. *)
Definition holds (r : RingBuffer) (q : list T) : Prop :=
  let N := length (buf r) in
  (0 < N)%nat ∧ (head r < N)%nat ∧ (tail r < N)%nat ∧
  cslice (buf r) (head r) (ring_count N (head r) (tail r)) = Some <$> q.

Lemma holds_length r q : holds r q →
  length q = ring_count (length (buf r)) (head r) (tail r).
Proof.
  intros (HN & _ & _ & Hq). apply (f_equal length) in Hq.
  by rewrite length_cslice, length_fmap in Hq.
Qed.

Lemma new_holds N : (0 < N)%nat → holds (new N) [].
Proof.
  intros HN. unfold holds, new; simpl. rewrite length_replicate.
  split_and!; [done..|].
  by rewrite (proj2 (ring_count_empty N 0 0 HN HN HN)).
Qed.

(** A push is refused exactly when [N - 1] elements are queued; otherwise
    it appends. *)
Lemma push_holds r q v : holds r q →
  ∃ ok r', push v r = Ret (ok, r') ∧ length (buf r') = length (buf r) ∧
    (if ok then holds r' (q ++ [v]) else r' = r ∧ S (length q) = length (buf r)).
Proof.
  intros Hr. pose proof (holds_length _ _ Hr) as Hlen.
  destruct Hr as (HN & Hh & Ht & Hq). unfold push.
  rewrite (proj2 (Nat.eqb_neq _ 0)) by lia.
  destruct (Nat.eqb_spec ((tail r + 1) mod length (buf r)) (head r)) as [Heq|Hne].
  - exists false, r. split_and!; [done..|].
    rewrite Hlen, (ring_count_full _ _ _ HN Hh Ht Heq). lia.
  - rewrite (proj2 (Nat.ltb_lt _ _) Ht). eexists true, _. split; [done|].
    simpl. split; [apply length_insert|]. unfold holds; simpl.
    rewrite length_insert. split_and!; [done..|apply Nat.mod_upper_bound; lia|].
    rewrite ring_count_succ by done.
    rewrite <- (ring_count_tail _ _ _ HN Hh Ht) at 1.
    rewrite cslice_push by (apply ring_count_lt; lia).
    by rewrite Hq, fmap_app.
Qed.

(** A pop returns the oldest element. *)
Lemma pop_holds r q : holds r q →
  ∃ r', pop r = Ret (List.hd_error q, r') ∧ length (buf r') = length (buf r) ∧
    holds r' (List.tl q).
Proof.
  intros Hr. pose proof (holds_length _ _ Hr) as Hlen.
  destruct Hr as (HN & Hh & Ht & Hq). unfold pop.
  destruct (Nat.eqb_spec (head r) (tail r)) as [Heq|Hne].
  - apply (ring_count_empty _ _ _ HN Hh Ht) in Heq as H0.
    rewrite H0 in Hlen. destruct q; [|done]. exists r. split_and!; [done..|].
    by split_and!.
  - rewrite (ring_count_pred _ _ _ HN Hh Ht Hne) in Hq.
    destruct (lookup_lt_is_Some_2 (buf r) (head r) Hh) as [ov Hov].
    rewrite cslice_pop with (x := ov) in Hq
      by (rewrite ?(Nat.mod_small (head r)) by done; done).
    destruct q as [|v q]; [done|]. simpl in Hq. injection Hq as -> Hq.
    rewrite Hov. simpl. eexists. split; [done|]. simpl.
    split; [apply length_insert|]. unfold holds; simpl. rewrite length_insert.
    split_and!; [done|apply Nat.mod_upper_bound; lia|done|].
    etrans; [|exact Hq]. rewrite <- (cslice_mod (buf r) (S (head r))) by done.
    rewrite Nat.add_1_r.
    set (n := ring_count _ (S (head r) mod length (buf r)) (tail r)).
    assert (S n < S (length (buf r)))%nat as Hn.
    { pose proof (ring_count_lt (length (buf r)) (S (head r) mod length (buf r))
        (tail r) HN). lia. }
    assert (S n = ring_count (length (buf r)) (head r) (tail r)) as Hsn.
    { rewrite (ring_count_pred _ _ _ HN Hh Ht Hne), Nat.add_1_r. done. }
    pose proof (ring_count_lt (length (buf r)) (head r) (tail r) HN).
    apply cslice_insert_ne; [done|]. intros k Hk.
    rewrite Nat.Div0.add_mod_idemp_l.
    intros Heq. replace (S (head r) + k)%nat with (head r + S k)%nat in Heq by lia.
    rewrite <- (Nat.mod_small (head r) (length (buf r))) in Heq at 2 by done.
    rewrite <- (Nat.add_0_r (head r)) in Heq at 2.
    apply mod_add_inj in Heq; lia.
Qed.
End ring.
Arguments RingBuffer : clear implicits.
End RingBuffer.

(** ** Bitmap *)

Module Bitmap.
(** [words: [u64; N]] *)
Notation Bitmap := (list Z) (only parsing).

Definition new (N : nat) : Bitmap := replicate N 0.

(** [set], [clear] and [get] panic on a bit beyond the last word. *)
Definition set (bit : nat) : st Bitmap unit := λ words,
  match words !! (bit / 64)%nat with
  | None => Panic
  | Some w =>
      Ret (tt, <[(bit / 64)%nat := Z.lor w (Z.shiftl 1 (Z.of_nat (bit mod 64)))]> words)
  end.

Definition clear (bit : nat) : st Bitmap unit := λ words,
  match words !! (bit / 64)%nat with
  | None => Panic
  | Some w =>
      Ret (tt, <[(bit / 64)%nat :=
                   Z.land w (wnot (Z.shiftl 1 (Z.of_nat (bit mod 64))))]> words)
  end.

Definition get (words : Bitmap) (bit : nat) : outcome bool :=
  match words !! (bit / 64)%nat with
  | None => Panic
  | Some w => Ret (negb (Z.land (Z.shiftr w (Z.of_nat (bit mod 64))) 1 =? 0))
  end.

Fixpoint first_clear_from (i : nat) (words : Bitmap) : option nat :=
  match words with
  | [] => None
  | w :: words' =>
      if negb (w =? U64_MAX) then Some (i * 64 + trailing_ones w)%nat
      else first_clear_from (S i) words'
  end.
Definition first_clear (words : Bitmap) : option nat := first_clear_from 0 words.

Definition capacity (words : Bitmap) : nat := (length words * 64)%nat.

Definition wf (words : Bitmap) : Prop := Forall (fits 64) words.

(** The set of bits a bitmap represents. *)
Definition bit_of (words : Bitmap) (b : nat) : bool :=
  match words !! (b / 64)%nat with
  | Some w => Z.testbit w (Z.of_nat (b mod 64))
  | None => false
  end.

Lemma land_shiftr_1 w k : 0 ≤ k → (negb (Z.land (Z.shiftr w k) 1 =? 0)) = Z.testbit w k.
Proof.
  intros Hk. change 1 with (Z.ones 1). rewrite Z.land_ones by lia.
  rewrite Z.pow_1_r, <- Z.bit0_mod, Z.shiftr_spec by lia.
  replace (0 + k) with k by lia. by destruct (Z.testbit w k).
Qed.

Lemma index_lt words b : (b < capacity words)%nat → (b / 64 < length words)%nat.
Proof. unfold capacity. intros. apply Nat.Div0.div_lt_upper_bound. lia. Qed.

Lemma get_bit_of words b :
  (b < capacity words)%nat → get words b = Ret (bit_of words b).
Proof.
  intros Hb. unfold get, bit_of.
  destruct (lookup_lt_is_Some_2 words (b / 64)) as [w ->]; [by apply index_lt|].
  by rewrite land_shiftr_1 by lia.
Qed.

Lemma same_bit b b' : (b / 64 = b' / 64 → b mod 64 = b' mod 64 → b = b')%nat.
Proof.
  intros H1 H2. rewrite (Nat.div_mod_eq b 64), (Nat.div_mod_eq b' 64). congruence.
Qed.

Lemma bit_of_insert words b b' w w' v :
  words !! (b / 64)%nat = Some w →
  (∀ k, 0 ≤ k → Z.testbit w' k =
     if k =? Z.of_nat (b mod 64) then v else Z.testbit w k) →
  bit_of (<[(b / 64)%nat := w']> words) b' =
    if (b' =? b)%nat then v else bit_of words b'.
Proof.
  intros Hw Hbit. unfold bit_of.
  destruct (decide (b / 64 = b' / 64)%nat) as [Heq|Hne].
  - rewrite <- Heq, list_lookup_insert_eq by (by eapply lookup_lt_Some).
    rewrite Hw, Hbit by lia.
    destruct (Nat.eqb_spec b' b) as [->|Hnb]; [by rewrite Z.eqb_refl|].
    destruct (Z.eqb_spec (Z.of_nat (b' mod 64)) (Z.of_nat (b mod 64))) as [He|]; [|done].
    destruct Hnb. apply same_bit; [done|lia].
  - rewrite list_lookup_insert_ne by done.
    destruct (Nat.eqb_spec b' b) as [->|]; [done|]. done.
Qed.

Lemma set_spec words b : wf words → (b < capacity words)%nat →
  ∃ words', set b words = Ret (tt, words') ∧ wf words' ∧
    length words' = length words ∧
    ∀ b', bit_of words' b' = if (b' =? b)%nat then true else bit_of words b'.
Proof.
  intros Hwf Hb. unfold set.
  destruct (lookup_lt_is_Some_2 words (b / 64)) as [w Hw]; [by apply index_lt|].
  rewrite Hw. pose proof (Nat.mod_upper_bound b 64 ltac:(lia)) as Hm.
  rewrite Z.shiftl_1_l. eexists. split; [done|]. split_and!.
  - apply Forall_insert_1; [done|]. apply fits_lor; [done| |apply fits_pow2; lia].
    by apply (proj1 (Forall_lookup _ _) Hwf _ _ Hw).
  - apply length_insert.
  - intros b'. apply (bit_of_insert _ _ _ w); [done|]. intros k Hk.
    rewrite Z.lor_spec, Z.pow2_bits_eqb by lia. rewrite Z.eqb_sym.
    destruct (k =? _); [apply orb_true_r|apply orb_false_r].
Qed.

Lemma clear_spec words b : wf words → (b < capacity words)%nat →
  ∃ words', clear b words = Ret (tt, words') ∧ wf words' ∧
    length words' = length words ∧
    ∀ b', bit_of words' b' = if (b' =? b)%nat then false else bit_of words b'.
Proof.
  intros Hwf Hb. unfold clear.
  destruct (lookup_lt_is_Some_2 words (b / 64)) as [w Hw]; [by apply index_lt|].
  rewrite Hw. pose proof (proj1 (Forall_lookup _ _) Hwf _ _ Hw) as Hfw.
  rewrite Z.shiftl_1_l, land_wnot by done. eexists. split; [done|]. split_and!.
  - apply Forall_insert_1; [done|]. by apply fits_ldiff.
  - apply length_insert.
  - intros b'. apply (bit_of_insert _ _ _ w); [done|]. intros k Hk.
    rewrite Z.ldiff_spec, Z.pow2_bits_eqb by lia. rewrite Z.eqb_sym.
    destruct (k =? _); [apply andb_false_r|apply andb_true_r].
Qed.

Lemma trailing_ones_spec w : fits 64 w → w ≠ U64_MAX →
  (trailing_ones w < 64)%nat ∧
  Z.testbit w (Z.of_nat (trailing_ones w)) = false ∧
  ∀ i, 0 ≤ i < Z.of_nat (trailing_ones w) → Z.testbit w i = true.
Proof.
  intros Hw Hne. unfold trailing_ones, fits in *.
  assert (∀ i, 0 ≤ i < 64 → Z.testbit (wnot w) i = negb (Z.testbit w i)) as Hnot.
  { intros i Hi. unfold wnot. rewrite U64_MAX_ones, Z.lxor_spec, Z.ones_spec_low by lia.
    by destruct (Z.testbit w i). }
  assert (0 < wnot w < 2^64) as Hr.
  { assert (wnot w = U64_MAX - w) as ->.
    { assert (wnot w + w = U64_MAX); [|lia]. rewrite Z.add_nocarry_lxor.
      - unfold wnot. by rewrite Z.lxor_comm, <- Z.lxor_assoc, Z.lxor_nilpotent, Z.lxor_0_l.
      - apply Z.bits_inj'. intros i Hi. rewrite Z.land_spec, Z.bits_0.
        destruct (Z.lt_ge_cases i 64).
        + rewrite Hnot by lia. by destruct (Z.testbit w i).
        + rewrite (testbit_high 64 w i) by lia. apply andb_false_r. }
    unfold U64_MAX in *. lia. }
  pose proof (trailing_zeros_lt64 _ Hr).
  destruct (trailing_zeros_spec (wnot w)) as [Hb Hl]; [lia|].
  split_and!; [done| |].
  - rewrite Hnot in Hb by lia. by apply negb_true_iff.
  - intros i Hi. specialize (Hl i Hi). rewrite Hnot in Hl by lia. by apply negb_false_iff.
Qed.

Lemma U64_MAX_bit k : 0 ≤ k < 64 → Z.testbit U64_MAX k = true.
Proof. intros. rewrite U64_MAX_ones. by apply Z.ones_spec_low. Qed.

Lemma first_clear_from_spec words i : wf words →
  match first_clear_from i words with
  | Some b => ∃ c, (b = i * 64 + c)%nat ∧ (c < capacity words)%nat ∧
      bit_of words c = false ∧ ∀ c', (c' < c)%nat → bit_of words c' = true
  | None => ∀ c, (c < capacity words)%nat → bit_of words c = true
  end.
Proof.
  intros Hwf. revert i. induction Hwf as [|w words Hw _ IH]; intros i; simpl.
  { intros c Hc. unfold capacity in Hc. simpl in Hc. lia. }
  destruct (Z.eqb_spec w U64_MAX) as [->|Hne]; simpl.
  - assert (∀ c, (c < 64)%nat → bit_of (U64_MAX :: words) c = true) as Hlow.
    { intros c Hc. unfold bit_of. rewrite Nat.div_small, Nat.mod_small by done.
      apply U64_MAX_bit. lia. }
    assert (∀ c, (64 ≤ c)%nat → bit_of (U64_MAX :: words) c = bit_of words (c - 64)) as Hhigh.
    { intros c Hc. unfold bit_of.
      assert (c / 64 = S ((c - 64) / 64))%nat as ->.
      { replace c with (c - 64 + 1 * 64)%nat at 1 by lia.
        rewrite Nat.div_add by lia. lia. }
      assert (c mod 64 = (c - 64) mod 64)%nat as ->; [|done].
      replace c with (c - 64 + 1 * 64)%nat at 1 by lia. apply Nat.Div0.mod_add. }
    specialize (IH (S i)). destruct (first_clear_from (S i) words) as [b|].
    + destruct IH as (c & -> & Hc & Hbit & Hmin). exists (c + 64)%nat.
      split_and!; [lia|unfold capacity in *; simpl; lia| |].
      * rewrite Hhigh by lia. by replace (c + 64 - 64)%nat with c by lia.
      * intros c' Hc'. destruct (decide (c' < 64)%nat); [by apply Hlow|].
        rewrite Hhigh by lia. apply Hmin. lia.
    + intros c Hc. destruct (decide (c < 64)%nat); [by apply Hlow|].
      rewrite Hhigh by lia. apply IH. unfold capacity in *. simpl in Hc. lia.
  - destruct (trailing_ones_spec w Hw Hne) as (Hlt & Hbit & Hmin).
    exists (trailing_ones w). split_and!; [done|unfold capacity; simpl; lia| |].
    + unfold bit_of. by rewrite Nat.div_small, Nat.mod_small by done.
    + intros c' Hc'. unfold bit_of. rewrite Nat.div_small, Nat.mod_small by lia.
      apply Hmin. lia.
Qed.
End Bitmap.
