(* ===== verification/Capability.v ===== *)
(** * Capability table (crate [capability], src/capability)

    Opaque [u32] tokens mapped to kernel objects.  The table is proved to
    implement a finite map from tokens to objects as long as the token counter
    has not wrapped around onto a live token. *)

From stdpp Require Import base list option numbers gmap.
From Stdlib Require Import ZArith Lia.
From S2P Require Import Prelude Words.

Local Open Scope Z_scope.

Definition MAX_CAPS : nat := 1024.

Inductive CapKind :=
  | Port (port : Z)
  | Vmo (phys : Z)
  | FileDesc (fd : Z).

#[export] Instance CapKind_eq_dec : EqDecision CapKind.
Proof. solve_decision. Defined.

Record CapSlot := mkCapSlot { token : Z; kind : CapKind }.

Definition CapSlot_free : CapSlot := mkCapSlot U32_MAX (Port 0).
Definition is_free (s : CapSlot) : bool := token s =? U32_MAX.

Record CapTable := mkCapTable { slots : list CapSlot; next_tok : Z }.

Definition CapTable_new : CapTable := mkCapTable (replicate MAX_CAPS CapSlot_free) 0.

Definition alloc_cap (k : CapKind) (t : CapTable) : option Z * CapTable :=
  match position is_free (slots t) with
  | None => (None, t)
  | Some slot_idx =>
      let tok := next_tok t in
      let next := u32 (tok + 1) in
      let next := if next =? U32_MAX then 0 else next in
      (Some tok, mkCapTable (<[slot_idx := mkCapSlot tok k]> (slots t)) next)
  end.

Definition lookup_cap (t : CapTable) (tok : Z) : option CapKind :=
  kind <$> find_first (λ s, negb (is_free s) && (token s =? tok)) (slots t).

Definition free_cap (tok : Z) (t : CapTable) : CapTable :=
  match position (λ s, negb (is_free s) && (token s =? tok)) (slots t) with
  | Some i => mkCapTable (<[i := CapSlot_free]> (slots t)) (next_tok t)
  | None => t
  end.

(** ** Specification *)

Notation slot_live := (λ s, negb (is_free s)).

(** Live tokens are distinct and the counter is a legal token. *)
Record cap_wf (t : CapTable) : Prop := {
  wf_len : length (slots t) = MAX_CAPS;
  wf_unique : unique_keys slot_live token (slots t);
  wf_next : 0 ≤ next_tok t < U32_MAX
}.

(** The counter does not name a live token.  It holds until [2^32 - 1]
    allocations have been made, and afterwards whenever the token that comes up
    again has been revoked. *)
Definition cap_fresh (t : CapTable) : Prop := lookup_cap t (next_tok t) = None.

(** The table [t] implements the map [m]. *)
Definition cap_refines (t : CapTable) (m : gmap Z CapKind) : Prop :=
  cap_wf t ∧ ∀ tok, lookup_cap t tok = m !! tok.

Lemma lookup_cap_key t tok :
  lookup_cap t tok = kind <$> lookup_key slot_live token (slots t) tok.
Proof. done. Qed.

Lemma cap_new_refines : cap_refines CapTable_new ∅.
Proof.
  split.
  - split; [done| |done]. by apply unique_keys_replicate.
  - intros tok. rewrite lookup_empty, lookup_cap_key.
    assert (lookup_key slot_live token (slots CapTable_new) tok = None) as ->; [|done].
    apply lookup_key_None. intros i x ->%lookup_replicate_Some. done.
Qed.

Lemma next_tok_range tok :
  0 ≤ tok < U32_MAX →
  let next := u32 (tok + 1) in 0 ≤ (if next =? U32_MAX then 0 else next) < U32_MAX.
Proof.
  intros Ht. simpl. unfold U32_MAX in *. rewrite u32_small by lia.
  destruct (Z.eqb_spec (tok + 1) 4294967295); lia.
Qed.

(** Allocation adds a mapping under a token that was not in use. *)
Lemma alloc_cap_refines t m k :
  cap_refines t m → cap_fresh t →
  match alloc_cap k t with
  | (Some tok, t') => m !! tok = None ∧ cap_refines t' (<[tok := k]> m)
  | (None, t') => t' = t ∧ Forall (λ s, is_free s = false) (slots t)
  end.
Proof.
  intros [[Hlen Hu Hn] Hm] Hfresh. unfold alloc_cap.
  destruct (position is_free (slots t)) as [i|] eqn:Hi.
  - pose proof (position_lt _ _ _ Hi) as Hlt.
    destruct (lookup_lt_is_Some_2 _ _ Hlt) as [y Hy].
    pose proof (position_holds _ _ _ _ Hi Hy) as Hfree.
    assert (unique_keys slot_live token
      (<[i := mkCapSlot (next_tok t) k]> (slots t))) as Hu'.
    { apply unique_keys_insert; [done|]. intros _ j z _ Hz Hlz Heq. simpl in Heq.
      unfold cap_fresh in Hfresh. rewrite lookup_cap_key in Hfresh.
      apply fmap_None in Hfresh. by eapply (proj1 (lookup_key_None _ _ _ _) Hfresh). }
    split; [by rewrite <- Hm|]. split.
    + split; simpl; [by rewrite length_insert|done|by apply next_tok_range].
    + intros tok. rewrite lookup_cap_key. simpl.
      rewrite (lookup_key_insert _ _ _ _ _ y _ Hu Hu' Hy); simpl;
        [|apply negb_true_iff, Z.eqb_neq; simpl; lia|by rewrite Hfree]. destruct (Z.eqb_spec tok (next_tok t)) as [->|Hne].
      * by rewrite lookup_insert_eq.
      * rewrite lookup_insert_ne by done. by rewrite <- Hm.
  - split; [done|]. apply Forall_lookup. intros j x Hx.
    by eapply (proj1 (position_None _ _)).
Qed.

(** Revocation removes exactly the mapping of the token. *)
Lemma free_cap_refines t m tok :
  cap_refines t m → cap_refines (free_cap tok t) (delete tok m).
Proof.
  intros [[Hlen Hu Hn] Hm]. unfold free_cap.
  destruct (position _ (slots t)) as [i|] eqn:Hi.
  - pose proof (position_lt _ _ _ Hi) as Hlt.
    destruct (lookup_lt_is_Some_2 _ _ Hlt) as [y Hy].
    pose proof (position_holds _ _ _ _ Hi Hy) as [Hly Hk]%keyed_true.
    split.
    + split; simpl; [by rewrite length_insert| |done].
      apply unique_keys_insert; done.
    + intros tok'. rewrite lookup_cap_key. simpl.
      rewrite (lookup_key_delete _ _ _ _ _ y) by done. rewrite Hk.
      destruct (Z.eqb_spec tok' tok) as [->|Hne].
      * by rewrite lookup_delete_eq.
      * rewrite lookup_delete_ne by done. by rewrite <- Hm.
  - split; [done|]. intros tok'. rewrite Hm.
    destruct (decide (tok = tok')) as [<-|Hne]; [|by rewrite lookup_delete_ne].
    rewrite lookup_delete_eq, <- Hm, lookup_cap_key.
    assert (lookup_key slot_live token (slots t) tok = None) as ->; [|done].
    unfold lookup_key, find_first, keyed. by rewrite Hi.
Qed.

(** ** The global table as a transition system *)

(** One locked operation on the global table. *)
Inductive cap_op :=
  | OpAlloc (k : CapKind)
  | OpFree (tok : Z).

Definition cap_step (op : cap_op) (t : CapTable) : CapTable :=
  match op with
  | OpAlloc k => snd (alloc_cap k t)
  | OpFree tok => free_cap tok t
  end.

Definition cap_run (ops : list cap_op) : CapTable := foldl (λ t op, cap_step op t) CapTable_new ops.

(** Every live token is below the counter while the counter has not wrapped. *)
Definition below_next (t : CapTable) : Prop :=
  ∀ tok, is_Some (lookup_cap t tok) → tok < next_tok t.

Lemma cap_run_inv ops :
  Z.of_nat (length ops) < U32_MAX →
  ∃ m, cap_refines (cap_run ops) m ∧ below_next (cap_run ops) ∧
       next_tok (cap_run ops) ≤ Z.of_nat (length ops).
Proof.
  induction ops as [|op ops IH] using rev_ind; intros Hlen.
  { exists ∅. split_and!; [apply cap_new_refines| |done].
    intros tok Hs. rewrite (proj2 cap_new_refines), lookup_empty in Hs. by destruct Hs. }
  rewrite length_app in Hlen. simpl in Hlen.
  destruct IH as (m & Hr & Hb & Hn); [lia|].
  unfold cap_run in *. rewrite foldl_app, length_app. simpl.
  set (t := foldl _ _ _) in *. pose proof (wf_next _ (proj1 Hr)) as Hnr.
  destruct op as [k|tok]; simpl.
  - assert (cap_fresh t) as Hf.
    { unfold cap_fresh. destruct (lookup_cap t (next_tok t)) eqn:He; [|done].
      specialize (Hb (next_tok t) ltac:(eauto)). lia. }
    pose proof (alloc_cap_refines t m k Hr Hf) as Ha.
    destruct (alloc_cap k t) as [[tok|] t'] eqn:Heq; simpl in *.
    + destruct Ha as [_ Hr']. exists (<[tok:=k]> m). split; [done|].
      assert (tok = next_tok t ∧ next_tok t' = next_tok t + 1) as [-> Hnt].
      { unfold alloc_cap in Heq. destruct (position _ _); simplify_eq/=.
        split; [done|]. unfold U32_MAX in *. rewrite u32_small by lia.
        by rewrite (proj2 (Z.eqb_neq (next_tok t + 1) 4294967295)) by lia. }
      split; [|lia]. intros tok Hs. rewrite (proj2 Hr'), lookup_insert in Hs.
      case_decide; [lia|]. rewrite <- (proj2 Hr) in Hs. specialize (Hb tok Hs). lia.
    + destruct Ha as [-> _]. exists m. split_and!; [done..|lia].
  - exists (delete tok m). pose proof (free_cap_refines t m tok Hr) as Hr'.
    assert (next_tok (free_cap tok t) = next_tok t) as Hnt.
    { unfold free_cap. by destruct (position _ _). }
    split_and!; [done| |rewrite Hnt; lia].
    intros tok' Hs. rewrite Hnt. rewrite (proj2 Hr'), lookup_delete in Hs.
    case_decide; [by destruct Hs|]. apply Hb. by rewrite (proj2 Hr).
Qed.

(** For any sequence of fewer than [2^32 - 1] allocations and revocations on
    the global capability table, the next allocation that succeeds returns a
    token that is not live, after it the token resolves to exactly the given
    object, and every other token resolves as before. *)
Theorem alloc_cap_isolated ops k tok t' :
  Z.of_nat (length ops) < U32_MAX →
  alloc_cap k (cap_run ops) = (Some tok, t') →
  lookup_cap (cap_run ops) tok = None ∧
  lookup_cap t' tok = Some k ∧
  ∀ tok', tok' ≠ tok → lookup_cap t' tok' = lookup_cap (cap_run ops) tok'.
Proof.
  intros Hlen Ha. destruct (cap_run_inv ops Hlen) as (m & Hr & Hb & _).
  assert (cap_fresh (cap_run ops)) as Hf.
  { unfold cap_fresh. destruct (lookup_cap _ (next_tok (cap_run ops))) eqn:He; [|done].
    specialize (Hb (next_tok (cap_run ops)) ltac:(eauto)). lia. }
  pose proof (alloc_cap_refines _ m k Hr Hf) as H. rewrite Ha in H.
  destruct H as [Hnone Hr']. rewrite (proj2 Hr), (proj2 Hr'), lookup_insert_eq.
  split_and!; [done..|]. intros tok' Hne.
  by rewrite (proj2 Hr'), (proj2 Hr), lookup_insert_ne.
Qed.

Lemma alloc_cap_isolated_witness :
  lookup_cap (snd (alloc_cap (Vmo 4096) (cap_run [OpAlloc (Port 7)]))) 1 = Some (Vmo 4096).
Proof.
  eapply (alloc_cap_isolated [OpAlloc (Port 7)] (Vmo 4096) 1).
  - vm_compute. reflexivity.
  - vm_compute. reflexivity.
Defined.

(** Revoking a token removes its mapping and no other: for any history of
    the global table, [free_cap] makes the token unresolvable and leaves every
    other token as it was. *)
Theorem free_cap_isolated ops tok :
  Z.of_nat (length ops) < U32_MAX →
  lookup_cap (free_cap tok (cap_run ops)) tok = None ∧
  ∀ tok', tok' ≠ tok →
    lookup_cap (free_cap tok (cap_run ops)) tok' = lookup_cap (cap_run ops) tok'.
Proof.
  intros Hlen. destruct (cap_run_inv ops Hlen) as (m & Hr & _).
  pose proof (free_cap_refines _ m tok Hr) as Hr'.
  rewrite (proj2 Hr'), lookup_delete_eq. split; [done|]. intros tok' Hne.
  by rewrite (proj2 Hr'), (proj2 Hr), lookup_delete_ne.
Qed.

Lemma free_cap_isolated_witness :
  lookup_cap (free_cap 0 (cap_run [OpAlloc (Port 7); OpAlloc (Vmo 1)])) 0 = None.
Proof.
  apply (free_cap_isolated [OpAlloc (Port 7); OpAlloc (Vmo 1)] 0).
  vm_compute. reflexivity.
Defined.
