(* ===== verification/IpcPort.v ===== *)
(** * IPC ports (crate [ipc], src/ipc)

    Messages, the open-addressed port table and the operations on it.  The
    abstract specification of a table is a finite map from port numbers to an
    owner and a bounded FIFO of messages; the table is proved to implement it,
    and the two situations in which it does not (a probe chain cut by a close,
    a port number reused while live) are proved as well. *)

From stdpp Require Import base list option numbers gmap.
From Stdlib Require Import ZArith Lia.
From S2P Require Import Prelude Words Rings CyLib.

Local Open Scope Z_scope.

(** ** Messages *)

Definition MESSAGE_INLINE_BYTES : nat := 56.

Record Message := mkMessage {
  tag : Z;
  reply_port : Z;
  data : list Z;
  cap : option Z
}.

Definition Message_empty : Message :=
  mkMessage 0 0 (replicate MESSAGE_INLINE_BYTES 0) None.

(** The scheduler as the IPC layer sees it: it wakes the tasks that block on a
    port ([sched::unblock_port]). *)
Class PortWaker (S : Type) := unblock_port : Z → S → S.

(** ** The port table *)

Definition MAX_PORTS : nat := Z.to_nat 65536.
Definition QUEUE_DEPTH : nat := 16.
Definition EMPTY_ID : Z := U32_MAX.
Definition LIVE_BUCKETS : nat := Z.to_nat 4096.
Definition PROBE_LIMIT : nat := 16.

Inductive SendError := PortNotFound | QueueFull.

Record PortEntry := mkPortEntry {
  id : Z;
  owner_pid : Z;
  queue : list (option Message);
  head : nat;
  tail : nat
}.

Definition PortEntry_empty : PortEntry :=
  mkPortEntry EMPTY_ID 0 (replicate QUEUE_DEPTH None) 0 0.

Definition is_free (b : PortEntry) : bool := id b =? EMPTY_ID.

Definition enqueue (msg : Message) (b : PortEntry) : bool * PortEntry :=
  let next := ((tail b + 1) mod QUEUE_DEPTH)%nat in
  if (next =? head b)%nat then (false, b)
  else (true, mkPortEntry (id b) (owner_pid b)
                (<[tail b := Some msg]> (queue b)) (head b) next).

Definition dequeue (b : PortEntry) : option Message * PortEntry :=
  if (head b =? tail b)%nat then (None, b)
  else (mjoin (queue b !! head b),
        mkPortEntry (id b) (owner_pid b) (<[head b := None]> (queue b))
          ((head b + 1) mod QUEUE_DEPTH)%nat (tail b)).

Record PortTable := mkPortTable { buckets : list PortEntry; next_id : Z }.

Definition PortTable_new : PortTable :=
  mkPortTable (replicate LIVE_BUCKETS PortEntry_empty) 0.

(** The bucket a probe for [port] reads at step [i]. *)
Definition probe (port : Z) (i : nat) : nat :=
  ((Z.to_nat (port mod Z.of_nat LIVE_BUCKETS) + i) mod LIVE_BUCKETS)%nat.

Definition probe_seq (port : Z) : list nat := probe port <$> seq 0 PROBE_LIMIT.

Fixpoint find_loop (bs : list PortEntry) (port : Z) (idxs : list nat) : option nat :=
  match idxs with
  | [] => None
  | idx :: idxs' =>
      b ← bs !! idx;
      if is_free b then None
      else if id b =? port then Some idx
      else find_loop bs port idxs'
  end.

Definition find (t : PortTable) (port : Z) : option nat :=
  find_loop (buckets t) port (probe_seq port).

(** [find_mut] has the same body as [find]. *)
Definition find_mut (t : PortTable) (port : Z) : option nat :=
  find_loop (buckets t) port (probe_seq port).

Definition bucket_free (bs : list PortEntry) (idx : nat) : bool :=
  match bs !! idx with Some b => is_free b | None => false end.

(** The assignments to a free bucket: the queue array is not touched. *)
Definition claim (port owner : Z) (b : PortEntry) : PortEntry :=
  mkPortEntry port owner (queue b) 0 0.

Fixpoint alloc_loop (fuel : nat) (owner : Z) (t : PortTable)
    : option (Z * nat) * PortTable :=
  match fuel with
  | O => (None, t)
  | S fuel' =>
      let port := next_id t in
      let next := u32 (next_id t + 1) mod Z.of_nat MAX_PORTS in
      let t1 := mkPortTable (buckets t) next in
      match find_first (bucket_free (buckets t)) (probe_seq port) with
      | Some idx =>
          (Some (port, idx), mkPortTable (alter (claim port owner) idx (buckets t)) next)
      | None => alloc_loop fuel' owner t1
      end
  end.

Definition alloc (owner : Z) (t : PortTable) : option (Z * nat) * PortTable :=
  alloc_loop MAX_PORTS owner t.

(** ** Operations on the global table

    [PORT_TABLE] is locked for each operation; [send] and [release_by_owner]
    then call the scheduler. *)

Definition close (port : Z) (t : PortTable) : PortTable :=
  match find_mut t port with
  | Some idx => mkPortTable (<[idx := PortEntry_empty]> (buckets t)) (next_id t)
  | None => t
  end.

Definition create (pid : Z) (t : PortTable) : option Z * PortTable :=
  let '(r, t') := alloc pid t in (fst <$> r, t').

Definition port_stats (t : PortTable) (port : Z) : option (nat * nat) :=
  idx ← find t port;
  b ← buckets t !! idx;
  Some (((tail b + QUEUE_DEPTH - head b) mod QUEUE_DEPTH)%nat, (QUEUE_DEPTH - 1)%nat).

(** Run an operation on the bucket of [port]. *)
Definition with_bucket {A} (t : PortTable) (idx : nat) (f : PortEntry → A * PortEntry)
    (default : A) : A * PortTable :=
  match buckets t !! idx with
  | Some b => let '(a, b') := f b in (a, mkPortTable (<[idx := b']> (buckets t)) (next_id t))
  | None => (default, t)
  end.

Definition recv (port : Z) (t : PortTable) : option Message * PortTable :=
  match find_mut t port with
  | None => (None, t)
  | Some idx => with_bucket t idx dequeue None
  end.

Definition owned_by (t : PortTable) (idx : nat) (pid : Z) : bool :=
  match buckets t !! idx with Some b => owner_pid b =? pid | None => false end.

Definition recv_as (port caller_pid : Z) (t : PortTable) : option Message * PortTable :=
  match find_mut t port with
  | None => (None, t)
  | Some idx =>
      if negb (owned_by t idx caller_pid) then (None, t)
      else with_bucket t idx dequeue None
  end.

Definition is_owner (t : PortTable) (port pid : Z) : bool :=
  match find t port with
  | Some idx => owned_by t idx pid
  | None => false
  end.

(** The table part of [release_by_owner]: the emptied buckets and the first 64
    port numbers that were closed. *)
Fixpoint release_buckets (pid : Z) (bs : list PortEntry) (closed : list Z)
    : list PortEntry * list Z :=
  match bs with
  | [] => ([], closed)
  | b :: bs' =>
      if negb (is_free b) && (owner_pid b =? pid) then
        let closed := if (length closed <? 64)%nat then closed ++ [id b] else closed in
        let '(rest, closed') := release_buckets pid bs' closed in
        (PortEntry_empty :: rest, closed')
      else
        let '(rest, closed') := release_buckets pid bs' closed in
        (b :: rest, closed')
  end.

Section scheduled.
Context {S : Type} `{PortWaker S}.

Definition send (port : Z) (msg : Message) (ts : PortTable * S)
    : result unit SendError * (PortTable * S) :=
  let '(t, s) := ts in
  match find_mut t port with
  | None => (Err PortNotFound, (t, s))
  | Some idx =>
      let '(ok, t') := with_bucket t idx (enqueue msg) false in
      if ok then (Ok tt, (t', unblock_port port s))
      else (Err QueueFull, (t', s))
  end.

Definition release_by_owner (pid : Z) (ts : PortTable * S) : PortTable * S :=
  let '(t, s) := ts in
  let '(bs, closed) := release_buckets pid (buckets t) [] in
  (mkPortTable bs (next_id t), foldl (λ s p, unblock_port p s) s closed).
End scheduled.

(** ** Channels (src/ipc/src/channel.rs) *)

Record Channel := mkChannel { client : Z; server : Z }.

Definition Channel_new (pid : Z) (t : PortTable) : option Channel * PortTable :=
  match create pid t with
  | (None, t1) => (None, t1)
  | (Some c, t1) =>
      match create pid t1 with
      | (Some s, t2) => (Some (mkChannel c s), t2)
      | (None, t2) => (None, close c t2)
      end
  end.

Lemma MAX_PORTS_Z : Z.of_nat MAX_PORTS = 65536.
Proof. apply Z2Nat.id. lia. Qed.

Lemma LIVE_BUCKETS_Z : Z.of_nat LIVE_BUCKETS = 4096.
Proof. apply Z2Nat.id. lia. Qed.

#[global] Opaque LIVE_BUCKETS MAX_PORTS.

(** ** The queue of a port is a bounded FIFO *)

Definition entry_ring (b : PortEntry) : RingBuffer.RingBuffer Message :=
  RingBuffer.mk (queue b) (head b) (tail b).

(** The bucket [b] holds the messages [q], oldest first. *)
Definition entry_holds (b : PortEntry) (q : list Message) : Prop :=
  length (queue b) = QUEUE_DEPTH ∧ RingBuffer.holds (entry_ring b) q.

(** The messages of a bucket, computed. *)
Definition entry_messages (b : PortEntry) : list Message :=
  omap (λ x, x) (cslice (queue b) (head b)
    (ring_count (length (queue b)) (head b) (tail b))).

Lemma entry_holds_messages b q : entry_holds b q → entry_messages b = q.
Proof.
  intros [_ (_ & _ & _ & Hq)]. unfold entry_messages. simpl in Hq. rewrite Hq.
  clear Hq. induction q as [|x q IH]; [done|]. simpl. f_equal. exact IH.
Qed.

Lemma entry_holds_bound b q : entry_holds b q → (length q ≤ QUEUE_DEPTH - 1)%nat.
Proof.
  intros [Hlen Hr]. rewrite (RingBuffer.holds_length _ _ Hr). simpl. rewrite Hlen.
  pose proof (ring_count_lt QUEUE_DEPTH (head b) (tail b) ltac:(unfold QUEUE_DEPTH; lia)).
  unfold QUEUE_DEPTH in *. lia.
Qed.

Lemma empty_holds : entry_holds PortEntry_empty [].
Proof. split; [done|]. apply (RingBuffer.new_holds QUEUE_DEPTH). unfold QUEUE_DEPTH. lia. Qed.

Lemma claim_holds port owner b : length (queue b) = QUEUE_DEPTH → entry_holds (claim port owner b) [].
Proof.
  intros Hlen. split; [done|]. unfold RingBuffer.holds. simpl. rewrite Hlen.
  unfold QUEUE_DEPTH. split_and!; [lia..|]. done.
Qed.

Lemma enqueue_holds b q msg : entry_holds b q →
  match enqueue msg b with
  | (true, b') => (length q < QUEUE_DEPTH - 1)%nat ∧ entry_holds b' (q ++ [msg]) ∧
                  id b' = id b ∧ owner_pid b' = owner_pid b
  | (false, b') => b' = b ∧ length q = (QUEUE_DEPTH - 1)%nat
  end.
Proof.
  intros Hb. pose proof (entry_holds_bound _ _ Hb) as Hq. destruct Hb as [Hlen Hr].
  destruct (RingBuffer.push_holds _ _ msg Hr) as (ok & r' & Hp & Hl & Hok).
  unfold RingBuffer.push in Hp. simpl in Hp. rewrite Hlen in Hp. simpl in Hp, Hl.
  unfold enqueue. destruct (_ =? head b)%nat; simplify_eq.
  - destruct Hok as [_ Hok]. simpl in Hok. split; [done|]. lia.
  - destruct (_ <? _)%nat; simplify_eq. simpl in Hl.
    assert (entry_holds (mkPortEntry (id b) (owner_pid b) (<[tail b:=Some msg]> (queue b))
      (head b) ((tail b + 1) mod QUEUE_DEPTH)) (q ++ [msg])) as Hh.
    { split; [by simpl; rewrite length_insert|done]. }
    split_and!; [|done..].
    apply entry_holds_bound in Hh. rewrite length_app in Hh. simpl in Hh.
    unfold QUEUE_DEPTH in *. lia.
Qed.

Lemma dequeue_holds b q : entry_holds b q →
  match dequeue b with
  | (r, b') => r = List.hd_error q ∧ entry_holds b' (List.tl q) ∧
               id b' = id b ∧ owner_pid b' = owner_pid b
  end.
Proof.
  intros [Hlen Hr].
  destruct (RingBuffer.pop_holds _ _ Hr) as (r' & Hp & Hl & Hok).
  unfold RingBuffer.pop in Hp. simpl in Hp. rewrite Hlen in Hp.
  unfold dequeue. destruct (head b =? tail b)%nat; simplify_eq.
  - done.
  - destruct (queue b !! head b) as [v|] eqn:Hv; simplify_eq. simpl in *.
    split_and!; [done| |done..]. split; [by simpl; rewrite length_insert|]. done.
Qed.

(** ** Probing finds every live port *)

Notation live := (λ b, negb (is_free b)).

Record table_wf (t : PortTable) : Prop := {
  tw_len : length (buckets t) = LIVE_BUCKETS;
  tw_unique : unique_keys live id (buckets t);
  tw_probe : ∀ idx b, buckets t !! idx = Some b → live b = true →
    ∃ i, (i < PROBE_LIMIT)%nat ∧ idx = probe (id b) i ∧
         ∀ j, (j < i)%nat → bucket_free (buckets t) (probe (id b) j) = false;
  tw_entry : ∀ idx b, buckets t !! idx = Some b → ∃ q, entry_holds b q
}.

Lemma PROBE_LIMIT_le : (PROBE_LIMIT ≤ LIVE_BUCKETS)%nat.
Proof. unfold PROBE_LIMIT. pose proof LIVE_BUCKETS_Z. lia. Qed.

Lemma probe_lt port i : (probe port i < LIVE_BUCKETS)%nat.
Proof.
  apply Nat.mod_upper_bound. pose proof PROBE_LIMIT_le. unfold PROBE_LIMIT in *. lia.
Qed.

Lemma probe_seq_lookup port i x :
  probe_seq port !! i = Some x ↔ (i < PROBE_LIMIT)%nat ∧ x = probe port i.
Proof.
  unfold probe_seq. rewrite list_lookup_fmap, fmap_Some. setoid_rewrite lookup_seq.
  split; [by intros (y & [-> ?] & ->)|]. intros [? ->]. by exists i.
Qed.

Lemma probe_inj port i j :
  (i < PROBE_LIMIT)%nat → (j < PROBE_LIMIT)%nat → probe port i = probe port j → i = j.
Proof.
  intros Hi Hj. pose proof PROBE_LIMIT_le. apply mod_add_inj; lia.
Qed.

(** A probe that starts after [n] buckets that neither are free nor hold the
    port, and that meets the port at step [n + k]. *)
Lemma find_loop_hit bs port n k b :
  bs !! probe port (n + k) = Some b → is_free b = false → id b = port →
  (∀ j, (n ≤ j < n + k)%nat → ∃ c, bs !! probe port j = Some c ∧
     is_free c = false ∧ id c ≠ port) →
  ∀ m, (k < m)%nat →
  find_loop bs port (probe port <$> seq n m) = Some (probe port (n + k)).
Proof.
  revert n. induction k as [|k IH]; intros n Hb Hf Hid Hbefore m Hm;
    (destruct m as [|m]; [lia|]); simpl.
  - rewrite Nat.add_0_r in Hb |- *. rewrite Hb. simpl. rewrite Hf.
    by rewrite (proj2 (Z.eqb_eq _ _) Hid).
  - destruct (Hbefore n ltac:(lia)) as (c & Hc & Hcf & Hcid). rewrite Hc. simpl.
    rewrite Hcf, (proj2 (Z.eqb_neq _ _) Hcid).
    replace (n + S k)%nat with (S n + k)%nat in * by lia.
    apply IH; [done..| |lia]. intros j Hj. apply Hbefore. lia.
Qed.

Lemma find_loop_sound bs port idxs idx :
  find_loop bs port idxs = Some idx →
  ∃ b, bs !! idx = Some b ∧ is_free b = false ∧ id b = port.
Proof.
  induction idxs as [|i idxs IH]; simpl; [done|].
  destruct (bs !! i) as [b|] eqn:Hb; simpl; [|done].
  destruct (is_free b) eqn:Hf; [done|].
  destruct (Z.eqb_spec (id b) port); [|done]. intros [= <-]. eauto.
Qed.

Lemma find_sound t port idx :
  find t port = Some idx →
  ∃ b, buckets t !! idx = Some b ∧ is_free b = false ∧ id b = port.
Proof. apply find_loop_sound. Qed.

Lemma find_complete t idx b :
  table_wf t → buckets t !! idx = Some b → is_free b = false → find t (id b) = Some idx.
Proof.
  intros Ht Hb Hf.
  destruct (tw_probe t Ht idx b Hb) as (i & Hi & -> & Hbefore); [by rewrite Hf|].
  unfold find, probe_seq. apply (find_loop_hit _ _ 0 i b); [done..| |done].
  intros j [_ Hj]. specialize (Hbefore j Hj). unfold bucket_free in Hbefore.
  destruct (lookup_lt_is_Some_2 (buckets t) (probe (id b) j)) as [c Hc].
  { rewrite (tw_len t Ht). apply probe_lt. }
  rewrite Hc in Hbefore. exists c. split_and!; [done..|]. intros Hid.
  enough (j = i) by lia. apply (probe_inj (id b)); [lia..|].
  apply (tw_unique t Ht _ _ c b); [done..|by rewrite Hbefore|by rewrite Hf|done].
Qed.

Lemma find_position t port :
  table_wf t → find t port = position (keyed live id port) (buckets t).
Proof.
  intros Ht. destruct (position _ (buckets t)) as [idx|] eqn:Hp.
  - destruct (lookup_lt_is_Some_2 (buckets t) idx) as [b Hb]; [by eapply position_lt|].
    pose proof (position_holds _ _ _ _ Hp Hb) as [Hl <-]%keyed_true.
    apply find_complete; [done..|]. by apply negb_true_iff.
  - destruct (find t port) as [idx|] eqn:Hf; [|done].
    apply find_sound in Hf as (b & Hb & Hf & Hid).
    rewrite position_None in Hp. specialize (Hp idx b Hb).
    assert (keyed live id port b = true); [|congruence].
    apply keyed_true. by rewrite Hf.
Qed.

(** The first [LIVE_BUCKETS] numbers have the bucket of their own index. *)
Lemma probe_home port : 0 ≤ port < Z.of_nat LIVE_BUCKETS → probe port 0 = Z.to_nat port.
Proof. intros Hp. unfold probe. rewrite Z.mod_small, Nat.add_0_r, Nat.mod_small by lia. done. Qed.

Lemma probe_4096 : probe 4096 0 = 0%nat.
Proof. unfold probe. rewrite LIVE_BUCKETS_Z, Z.mod_same, Nat.add_0_r by lia. by apply Nat.Div0.mod_0_l. Qed.

(** ** Operations on queues keep the numbers of the buckets *)

Definition same_ids (t t' : PortTable) : Prop :=
  next_id t' = next_id t ∧ map id (buckets t') = map id (buckets t).

Lemma same_ids_refl t : same_ids t t.
Proof. done. Qed.

Lemma with_bucket_ids {A} t idx (f : PortEntry → A * PortEntry) d :
  (∀ b, id (snd (f b)) = id b) → same_ids t (snd (with_bucket t idx f d)).
Proof.
  intros Hf. unfold with_bucket. destruct (buckets t !! idx) as [b|] eqn:Hb; [|done].
  specialize (Hf b). destruct (f b) as [a b']. split; [done|]. simpl in *.
  change (map ?g ?l) with (g <$> l). rewrite list_fmap_insert, list_insert_id; [done|].
  rewrite list_lookup_fmap, Hb, Hf. done.
Qed.

Lemma enqueue_id msg b : id (snd (enqueue msg b)) = id b.
Proof. unfold enqueue. by case_match. Qed.

Lemma dequeue_id b : id (snd (dequeue b)) = id b.
Proof. unfold dequeue. by case_match. Qed.

Lemma recv_ids port t : same_ids t (snd (recv port t)).
Proof. unfold recv. case_match; [|done]. apply with_bucket_ids, dequeue_id. Qed.

Lemma recv_as_ids port c t : same_ids t (snd (recv_as port c t)).
Proof.
  unfold recv_as. case_match; [|done]. case_match; [done|]. apply with_bucket_ids, dequeue_id.
Qed.

Lemma send_ids {T : Type} `{PortWaker T} port msg t (s : T) : same_ids t (fst (snd (send port msg (t, s)))).
Proof.
  unfold send. case_match; [|done].
  match goal with |- context [with_bucket t ?n ?f ?d] =>
    pose proof (with_bucket_ids t n f d (enqueue_id msg)) as Hi;
    destruct (with_bucket t n f d) as [[] t'] end; done.
Qed.

(** Anything about the numbers of the live buckets survives. *)
Lemma same_ids_live t t' (P : nat → Z → Prop) : same_ids t t' →
  (∀ idx b, buckets t !! idx = Some b → live b = true → P idx (id b)) →
  ∀ idx b, buckets t' !! idx = Some b → live b = true → P idx (id b).
Proof.
  intros [_ Hids] HP idx b' Hb' Hl.
  assert ((id <$> buckets t') !! idx = Some (id b')) as Hi by (by rewrite list_lookup_fmap, Hb').
  change (id <$> buckets t') with (map id (buckets t')) in Hi. rewrite Hids in Hi.
  change (map id ?l) with (id <$> l) in Hi.
  rewrite list_lookup_fmap in Hi. apply fmap_Some in Hi as (b & Hb & Hid).
  rewrite Hid. apply HP; [done|]. unfold is_free in *. by rewrite <- Hid.
Qed.

#[global] Opaque probe.
