(* ===== verification/IpcSpec.v ===== *)
(** * The specification of the port table and its refinement

    A port map sends a live port number to its owner and its queued messages.
    [spec_step] says what each operation promises; [IpcPort] implements it for
    any history with at most [LIVE_BUCKETS] port creations.  Beyond that bound
    the single-step lemmas give the exact side conditions. *)

From stdpp Require Import base list option numbers gmap.
From Stdlib Require Import ZArith Lia.
From S2P Require Import Prelude Words Rings CyLib IpcPort.

Local Open Scope Z_scope.

Abbreviation PortMap := (gmap Z (Z * list Message)).

(** What a table says about one port. *)
Definition port_view (t : PortTable) (port : Z) : option (Z * list Message) :=
  (λ b, (owner_pid b, entry_messages b)) <$> lookup_key live id (buckets t) port.

Definition refines (t : PortTable) (m : PortMap) : Prop :=
  table_wf t ∧ ∀ port, port_view t port = m !! port.

(** ** Table updates *)

Lemma bucket_free_insert bs i b j :
  (i < length bs)%nat →
  bucket_free (<[i:=b]> bs) j = if (j =? i)%nat then is_free b else bucket_free bs j.
Proof.
  intros Hi. unfold bucket_free. destruct (Nat.eqb_spec j i) as [->|Hne].
  - by rewrite list_lookup_insert_eq.
  - by rewrite list_lookup_insert_ne.
Qed.

Lemma bucket_free_false bs idx b :
  bs !! idx = Some b → bucket_free bs idx = is_free b.
Proof. unfold bucket_free. by intros ->. Qed.

Lemma refines_view t m port o q :
  refines t m → m !! port = Some (o, q) →
  ∃ idx b, find t port = Some idx ∧ buckets t !! idx = Some b ∧ is_free b = false ∧
    id b = port ∧ owner_pid b = o ∧ entry_holds b q.
Proof.
  intros [Ht Hm] Hp. rewrite <- Hm in Hp. unfold port_view in Hp.
  apply fmap_Some in Hp as (b & Hb & [= -> ->]).
  apply lookup_key_live in Hb as (idx & Hb & Hl%negb_true_iff & <-).
  exists idx, b. split_and!; [by apply find_complete|done..|].
  destruct (tw_entry t Ht idx b Hb) as [q Hq].
  by rewrite (entry_holds_messages _ _ Hq).
Qed.

Lemma refines_none t m port :
  refines t m → m !! port = None → find t port = None.
Proof.
  intros [Ht Hm] Hp. rewrite <- Hm in Hp. apply fmap_None in Hp.
  rewrite find_position by done. apply position_None. intros i b Hb.
  destruct (keyed live id port b) eqn:Hk; [|done].
  apply keyed_true in Hk as [Hl Hid].
  by destruct (proj1 (lookup_key_None _ _ _ _) Hp i b Hb Hl).
Qed.

Lemma refines_find_None t m port :
  refines t m → find t port = None → m !! port = None.
Proof.
  intros Hr Hf. destruct (m !! port) as [[o q]|] eqn:Hp; [|done].
  destruct (refines_view _ _ _ _ _ Hr Hp) as (idx & b & Hf' & _). congruence.
Qed.

(** Changing the queue of a live bucket. *)
Lemma refines_update t m idx b b' q :
  refines t m → buckets t !! idx = Some b → is_free b = false →
  id b' = id b → owner_pid b' = owner_pid b → entry_holds b' q →
  refines (mkPortTable (<[idx := b']> (buckets t)) (next_id t))
          (<[id b := (owner_pid b, q)]> m).
Proof.
  intros [Ht Hm] Hb Hf Hid Ho Hq. pose proof (lookup_lt_Some _ _ _ Hb) as Hlt.
  assert (is_free b' = false) as Hf' by (unfold is_free in *; by rewrite Hid).
  assert (∀ j, bucket_free (<[idx:=b']> (buckets t)) j = bucket_free (buckets t) j) as Hbf.
  { intros j. rewrite bucket_free_insert by done. destruct (Nat.eqb_spec j idx) as [->|]; [|done].
    by rewrite (bucket_free_false _ _ b), Hf, Hf'. }
  assert (unique_keys live id (<[idx:=b']> (buckets t))) as Hu.
  { apply unique_keys_insert; [by apply tw_unique|]. intros _ j y Hj Hy Hly Hk.
    rewrite Hid in Hk. destruct Hj.
    apply (tw_unique t Ht _ _ y b); [done..|by rewrite Hf|done]. }
  split.
  - split; simpl.
    + rewrite length_insert. by apply tw_len.
    + done.
    + intros j c Hc Hl. setoid_rewrite Hbf.
      apply insert_lookup_cases in Hc as [(<- & <- & _)|[_ Hc]].
      * rewrite Hid. apply (tw_probe t Ht idx b Hb). by rewrite Hf.
      * by apply (tw_probe t Ht).
    + intros j c [(_ & <- & _)|[_ Hc]]%insert_lookup_cases; [by exists q|].
      by eapply tw_entry.
  - intros port. unfold port_view. simpl.
    rewrite (lookup_key_insert _ _ _ _ _ b); [|by apply tw_unique|done|done|by rewrite Hf'|done].
    rewrite Hid. destruct (Z.eqb_spec port (id b)) as [->|Hne].
    + rewrite lookup_insert_eq. simpl. by rewrite Ho, (entry_holds_messages _ _ Hq).
    + rewrite lookup_insert_ne by done. apply Hm.
Qed.

(** Claiming the first free bucket of the probe sequence for a number that is
    not live. *)
Lemma refines_claim t m port owner idx next :
  refines t m → m !! port = None → 0 ≤ port < EMPTY_ID →
  find_first (bucket_free (buckets t)) (probe_seq port) = Some idx →
  refines (mkPortTable (alter (claim port owner) idx (buckets t)) next)
          (<[port := (owner, [])]> m).
Proof.
  intros [Ht Hm] Hnone Hrange Hff. apply find_first_Some in Hff as (i & Hpos & Hi).
  apply probe_seq_lookup in Hi as [Hi ->].
  assert (probe port i < length (buckets t))%nat as Hlt.
  { rewrite (tw_len t Ht). apply probe_lt. }
  destruct (lookup_lt_is_Some_2 _ _ Hlt) as [b Hb].
  apply position_Some in Hpos as (x & Hx & Hfree & Hmin).
  apply probe_seq_lookup in Hx as [_ ->].
  rewrite (bucket_free_false _ _ _ Hb) in Hfree.
  assert (alter (claim port owner) (probe port i) (buckets t) =
          <[probe port i := claim port owner b]> (buckets t)) as ->.
  { apply list_eq. intros j. destruct (decide (probe port i = j)) as [<-|Hne].
    - rewrite list_lookup_alter_eq, Hb. simpl. by rewrite list_lookup_insert_eq.
    - by rewrite list_lookup_alter_ne, list_lookup_insert_ne. }
  assert (entry_holds (claim port owner b) []) as Hch.
  { apply claim_holds. by destruct (tw_entry t Ht _ _ Hb) as [q [Hl _]]. }
  assert (is_free (claim port owner b) = false) as Hcf.
  { unfold is_free. simpl. apply Z.eqb_neq. lia. }
  assert (∀ j c, buckets t !! j = Some c → live c = true → id c ≠ port) as Hnl.
  { rewrite <- Hm in Hnone. apply fmap_None in Hnone. by apply lookup_key_None. }
  assert (unique_keys live id (<[probe port i:=claim port owner b]> (buckets t))) as Hu.
  { apply unique_keys_insert; [by apply tw_unique|]. intros _ j y _ Hy Hly. by eapply Hnl. }
  split.
  - split; simpl.
    + rewrite length_insert. by apply tw_len.
    + done.
    + intros j c Hc Hl.
      apply insert_lookup_cases in Hc as [(<- & <- & _)|[Hne Hc]].
      * exists i. split_and!; [done..|]. intros k Hk. simpl.
        rewrite bucket_free_insert by done.
        destruct (Nat.eqb_spec (probe port k) (probe port i)) as [_|_]; [done|].
        apply (Hmin k (probe port k)); [done|]. apply probe_seq_lookup. lia.
      * destruct (tw_probe t Ht j c Hc Hl) as (k & Hk & -> & Hbefore).
        exists k. split_and!; [done..|]. intros k' Hk'.
        rewrite bucket_free_insert by done. case_match; [done|]. by apply Hbefore.
    + intros j c [(_ & <- & _)|[_ Hc]]%insert_lookup_cases; [|by eapply tw_entry].
      by exists [].
  - intros p. unfold port_view. simpl.
    rewrite (lookup_key_insert _ _ _ _ _ b);
      [|by apply tw_unique|done|done|by rewrite Hcf|simpl; by rewrite Hfree].
    simpl id. destruct (Z.eqb_spec p port) as [->|Hne].
    + rewrite lookup_insert_eq. simpl. by rewrite (entry_holds_messages _ _ Hch).
    + rewrite lookup_insert_ne by done. apply Hm.
Qed.

(** ** Ports in their home bucket *)

(** Every live port sits in the first bucket of its probe sequence. *)
Definition all_home (t : PortTable) : Prop := ∀ idx b,
  buckets t !! idx = Some b → live b = true → idx = probe (id b) 0.

(** Emptying buckets of a table whose ports are all at home. *)
Lemma home_wf_map t (keep : PortEntry → bool) next :
  table_wf t → all_home t →
  let bs := map (λ b, if keep b then b else PortEntry_empty) (buckets t) in
  table_wf (mkPortTable bs next) ∧ all_home (mkPortTable bs next) ∧
  ∀ port, port_view (mkPortTable bs next) port =
    b ← lookup_key live id (buckets t) port;
    if keep b then Some (owner_pid b, entry_messages b) else None.
Proof.
  intros Ht Hh bs.
  assert (∀ i c, bs !! i = Some c → live c = true → buckets t !! i = Some c ∧ keep c = true)
    as Hback.
  { intros i c Hc Hl. unfold bs in Hc. rewrite list_lookup_fmap in Hc.
    apply fmap_Some in Hc as (b & Hb & ->). by destruct (keep b) eqn:?. }
  assert (unique_keys live id bs) as Hu.
  { intros i j x y Hx Hy Hlx Hly Hk. destruct (Hback i x Hx Hlx), (Hback j y Hy Hly).
    by eapply (tw_unique t Ht). }
  assert (all_home (mkPortTable bs next)) as Hh'.
  { intros i c Hc Hl. destruct (Hback i c Hc Hl). by apply Hh. }
  split_and!; [|done|].
  - split; [by unfold bs; simpl; rewrite length_fmap; apply tw_len|done| |].
    + intros i c Hc Hl. exists O. split_and!; [unfold PROBE_LIMIT; lia|by apply Hh'|]. lia.
    + intros i c Hc. unfold bs in Hc. simpl in Hc. rewrite list_lookup_fmap in Hc.
      apply fmap_Some in Hc as (b & Hb & ->). destruct (keep b); [by eapply tw_entry|].
      exists []. apply empty_holds.
  - intros port. unfold port_view. simpl.
    destruct (lookup_key live id (buckets t) port) as [b|] eqn:Hb; simpl.
    + apply lookup_key_live in Hb as (i & Hi & Hl & <-). destruct (keep b) eqn:Hk.
      * assert (lookup_key live id bs (id b) = Some b) as ->; [|done].
        apply lookup_key_Some; [done|]. exists i. split; [|done].
        unfold bs. rewrite list_lookup_fmap, Hi. simpl. by rewrite Hk.
      * assert (lookup_key live id bs (id b) = None) as ->; [|done].
        apply lookup_key_None. intros j c Hc Hlc Heq.
        destruct (Hback j c Hc Hlc) as [Hj Hkc].
        assert (j = i) as -> by (by eapply (tw_unique t Ht)). congruence.
    + assert (lookup_key live id bs port = None) as ->; [|done].
      apply lookup_key_None. intros j c Hc Hlc.
      destruct (Hback j c Hc Hlc) as [Hj _].
      by apply (proj1 (lookup_key_None _ _ _ _) Hb j c Hj).
Qed.

Lemma release_buckets_map pid bs closed :
  fst (release_buckets pid bs closed) =
  map (λ b, if negb (negb (is_free b) && (owner_pid b =? pid)) then b else PortEntry_empty) bs.
Proof.
  revert closed. induction bs as [|b bs IH]; intros closed; simpl; [done|].
  destruct (negb (is_free b) && (owner_pid b =? pid)) eqn:Hc; simpl.
  - specialize (IH (if (length closed <? 64)%nat then closed ++ [id b] else closed)).
    destruct (release_buckets pid bs _) as [rest c]. simpl in *. by rewrite IH.
  - specialize (IH closed). destruct (release_buckets pid bs closed) as [rest c].
    simpl in *. by rewrite IH.
Qed.

Lemma close_home t m port :
  refines t m → all_home t → refines (close port t) (delete port m) ∧ all_home (close port t).
Proof.
  intros [Ht Hm] Hh. unfold close, find_mut. fold (find t port).
  destruct (find t port) as [idx|] eqn:Hf.
  - pose proof Hf as (b & Hb & Hfr & Hid)%find_sound.
    assert (<[idx := PortEntry_empty]> (buckets t) =
      map (λ c, if negb (keyed live id port c) then c else PortEntry_empty) (buckets t)) as ->.
    { apply list_eq. intros j. change (map ?f ?l) with (f <$> l). rewrite list_lookup_fmap.
      destruct (decide (idx = j)) as [<-|Hne].
      - rewrite list_lookup_insert_eq by (by eapply lookup_lt_Some). rewrite Hb. simpl.
        assert (keyed live id port b = true) as -> by (apply keyed_true; by rewrite Hfr).
        done.
      - rewrite list_lookup_insert_ne by done.
        destruct (buckets t !! j) as [c|] eqn:Hc; [|done]. simpl.
        destruct (keyed live id port c) eqn:Hk; [|done].
        apply keyed_true in Hk as [Hl Hk]. destruct Hne.
        apply (tw_unique t Ht _ _ b c); [done..|by rewrite Hfr|done|congruence]. }
    destruct (home_wf_map t (λ c, negb (keyed live id port c)) (next_id t) Ht Hh)
      as (Hwf & Hh' & Hv).
    split; [split; [done|]|done]. intros p. rewrite Hv, lookup_delete. rewrite <- Hm.
    unfold port_view.
    destruct (lookup_key live id (buckets t) p) as [c|] eqn:Hc; simpl.
    + apply lookup_key_live in Hc as (j & Hj & Hl & <-).
      case_decide as Hd.
      * assert (keyed live id port c = true) as -> by (by apply keyed_true). done.
      * assert (keyed live id port c = false) as ->; [|done].
        unfold keyed. rewrite Hl. simpl. by apply Z.eqb_neq.
    + by case_decide.
  - split; [|done]. split; [done|]. intros p. rewrite Hm, lookup_delete.
    case_decide as Hd; [subst p|done].
    by eapply refines_find_None.
Qed.

(** ** The abstract specification *)

Inductive op :=
  | OCreate (pid : Z)
  | OClose (port : Z)
  | OSend (port : Z) (msg : Message)
  | ORecv (port : Z)
  | ORecvAs (port caller : Z)
  | ORelease (pid : Z).

Inductive resp :=
  | RPort (r : option Z)
  | RUnit
  | RSend (r : result unit SendError)
  | RMsg (r : option Message).

Inductive spec_step (m : PortMap) : op → resp → PortMap → Prop :=
  | SpCreate pid port :
      m !! port = None →
      spec_step m (OCreate pid) (RPort (Some port)) (<[port := (pid, [])]> m)
  | SpClose port :
      spec_step m (OClose port) RUnit (delete port m)
  | SpSendOk port msg o q :
      m !! port = Some (o, q) → (length q < QUEUE_DEPTH - 1)%nat →
      spec_step m (OSend port msg) (RSend (Ok tt)) (<[port := (o, q ++ [msg])]> m)
  | SpSendFull port msg o q :
      m !! port = Some (o, q) → length q = (QUEUE_DEPTH - 1)%nat →
      spec_step m (OSend port msg) (RSend (Err QueueFull)) m
  | SpSendNone port msg :
      m !! port = None →
      spec_step m (OSend port msg) (RSend (Err PortNotFound)) m
  | SpRecv port o q :
      m !! port = Some (o, q) →
      spec_step m (ORecv port) (RMsg (List.hd_error q)) (<[port := (o, List.tl q)]> m)
  | SpRecvNone port :
      m !! port = None → spec_step m (ORecv port) (RMsg None) m
  | SpRecvAs port caller q :
      m !! port = Some (caller, q) →
      spec_step m (ORecvAs port caller) (RMsg (List.hd_error q))
        (<[port := (caller, List.tl q)]> m)
  | SpRecvAsDenied port caller :
      (∀ q, m !! port ≠ Some (caller, q)) →
      spec_step m (ORecvAs port caller) (RMsg None) m
  | SpRelease pid :
      spec_step m (ORelease pid) RUnit (filter (λ '(_, (o, _)), o ≠ pid) m).

Inductive spec_run (m : PortMap) : list op → list resp → PortMap → Prop :=
  | SrNil : spec_run m [] [] m
  | SrCons o os r rs m1 m2 :
      spec_step m o r m1 → spec_run m1 os rs m2 →
      spec_run m (o :: os) (r :: rs) m2.

Section impl.
Context {S : Type} `{PortWaker S}.

Definition impl_step (o : op) (ts : PortTable * S) : resp * (PortTable * S) :=
  match o with
  | OCreate pid => let '(r, t') := create pid (fst ts) in (RPort r, (t', snd ts))
  | OClose port => (RUnit, (close port (fst ts), snd ts))
  | OSend port msg => let '(r, ts') := send port msg ts in (RSend r, ts')
  | ORecv port => let '(r, t') := recv port (fst ts) in (RMsg r, (t', snd ts))
  | ORecvAs port c => let '(r, t') := recv_as port c (fst ts) in (RMsg r, (t', snd ts))
  | ORelease pid => (RUnit, release_by_owner pid ts)
  end.

Fixpoint impl_run (os : list op) (ts : PortTable * S) : list resp * (PortTable * S) :=
  match os with
  | [] => ([], ts)
  | o :: os' =>
      let '(r, ts1) := impl_step o ts in
      let '(rs, ts2) := impl_run os' ts1 in (r :: rs, ts2)
  end.

(** *** One operation *)

Lemma send_refines t s m port msg :
  refines t m →
  match m !! port with
  | None => send port msg (t, s) = (Err PortNotFound, (t, s))
  | Some (o, q) =>
      if (length q =? QUEUE_DEPTH - 1)%nat
      then ∃ t', send port msg (t, s) = (Err QueueFull, (t', s)) ∧ refines t' m
      else ∃ t', send port msg (t, s) = (Ok tt, (t', unblock_port port s)) ∧
                 refines t' (<[port := (o, q ++ [msg])]> m)
  end.
Proof.
  intros Hr. destruct (m !! port) as [[o q]|] eqn:Hp.
  - destruct (refines_view _ _ _ _ _ Hr Hp) as (idx & b & Hf & Hb & Hfr & <- & <- & Hq).
    unfold send, find_mut. fold (find t (id b)). rewrite Hf.
    unfold with_bucket. rewrite Hb.
    pose proof (enqueue_holds b q msg Hq) as He.
    destruct (enqueue msg b) as [[] b'].
    + destruct He as (Hlt & Hq' & Hid & Ho).
      rewrite (proj2 (Nat.eqb_neq _ _)) by lia. eexists. split; [done|].
      by apply refines_update.
    + destruct He as [-> Hlen]. rewrite (proj2 (Nat.eqb_eq _ _) Hlen).
      rewrite list_insert_id by done. eexists. split; [done|]. by destruct t.
  - unfold send, find_mut. fold (find t port). by rewrite (refines_none _ _ _ Hr Hp).
Qed.

Lemma recv_refines t m port :
  refines t m →
  match m !! port with
  | None => recv port t = (None, t)
  | Some (o, q) => ∃ t', recv port t = (List.hd_error q, t') ∧
      next_id t' = next_id t ∧ refines t' (<[port := (o, List.tl q)]> m)
  end.
Proof.
  intros Hr. destruct (m !! port) as [[o q]|] eqn:Hp.
  - destruct (refines_view _ _ _ _ _ Hr Hp) as (idx & b & Hf & Hb & Hfr & <- & <- & Hq).
    unfold recv, find_mut. fold (find t (id b)). rewrite Hf.
    unfold with_bucket. rewrite Hb.
    pose proof (dequeue_holds b q Hq) as He. destruct (dequeue b) as [r b'].
    destruct He as (-> & Hq' & Hid & Ho). eexists. split_and!; [done..|].
    by apply refines_update.
  - unfold recv, find_mut. fold (find t port). by rewrite (refines_none _ _ _ Hr Hp).
Qed.

Lemma recv_as_refines t m port caller :
  refines t m →
  match m !! port with
  | Some (o, q) =>
      if o =? caller then recv_as port caller t = recv port t
      else recv_as port caller t = (None, t)
  | None => recv_as port caller t = (None, t)
  end.
Proof.
  intros Hr. destruct (m !! port) as [[o q]|] eqn:Hp.
  - destruct (refines_view _ _ _ _ _ Hr Hp) as (idx & b & Hf & Hb & Hfr & <- & <- & Hq).
    unfold recv_as, recv, find_mut, owned_by. fold (find t (id b)). rewrite Hf, Hb.
    by destruct (owner_pid b =? caller).
  - unfold recv_as, find_mut. fold (find t port). by rewrite (refines_none _ _ _ Hr Hp).
Qed.
(** What [send] does, on every branch.  On a table that implements the
    port map [m]: an unknown port is [PortNotFound]; a port with fifteen
    queued messages is [QueueFull]; otherwise the message is appended to that
    port's queue, the tasks that block on the port are woken, and no other
    port changes.  The two error branches change neither the table's map nor
    the scheduler. *)
Theorem send_spec t s m port msg :
  refines t m →
  match m !! port with
  | None => send port msg (t, s) = (Err PortNotFound, (t, s))
  | Some (o, q) =>
      if (length q =? QUEUE_DEPTH - 1)%nat
      then ∃ t', send port msg (t, s) = (Err QueueFull, (t', s)) ∧ refines t' m
      else ∃ t', send port msg (t, s) = (Ok tt, (t', unblock_port port s)) ∧
                 refines t' (<[port := (o, q ++ [msg])]> m)
  end.
Proof. apply send_refines. Qed.
End impl.

Lemma is_owner_refines t m port pid :
  refines t m → is_owner t port pid = true ↔ ∃ q, m !! port = Some (pid, q).
Proof.
  intros Hr. unfold is_owner. destruct (m !! port) as [[o q]|] eqn:Hp.
  - destruct (refines_view _ _ _ _ _ Hr Hp) as (idx & b & Hf & Hb & Hfr & Hid & Ho & Hq).
    rewrite Hf. unfold owned_by. rewrite Hb, Ho, Z.eqb_eq. naive_solver.
  - rewrite (refines_none _ _ _ Hr Hp). naive_solver.
Qed.

(** Only the owner of a port receives from it: [recv_as] by any other
    process returns nothing and leaves the table as it is, and [is_owner]
    answers exactly for the owner. *)
Theorem recv_as_owner_only t m port caller :
  refines t m →
  (is_owner t port caller = false → recv_as port caller t = (None, t)) ∧
  (is_owner t port caller = true ↔ ∃ q, m !! port = Some (caller, q)).
Proof.
  intros Hr. pose proof (is_owner_refines t m port caller Hr) as How. split; [|done].
  intros Hno. pose proof (recv_as_refines t m port caller Hr) as Hra.
  destruct (m !! port) as [[o q]|] eqn:Hp; [|done].
  destruct (Z.eqb_spec o caller) as [->|Hne]; [|done]. exfalso.
  assert (is_owner t port caller = true) by (apply How; eauto). congruence.
Qed.

(** ** Creation *)

Lemma alloc_loop_Some fuel owner t port idx t' :
  alloc_loop fuel owner t = (Some (port, idx), t') →
  0 ≤ next_id t < Z.of_nat MAX_PORTS →
  find_first (bucket_free (buckets t)) (probe_seq port) = Some idx ∧
  buckets t' = alter (claim port owner) idx (buckets t) ∧
  0 ≤ port < Z.of_nat MAX_PORTS.
Proof.
  revert t. induction fuel as [|fuel IH]; intros t; simpl; [done|].
  destruct (find_first _ _) as [i|] eqn:Hff.
  - intros [= <- <- <-] Hr. done.
  - intros Ha Hr. apply IH in Ha; [done|]. simpl. apply Z.mod_pos_bound.
    pose proof MAX_PORTS_Z. lia.
Qed.

Lemma MAX_PORTS_lt_EMPTY port : 0 ≤ port < Z.of_nat MAX_PORTS → 0 ≤ port < EMPTY_ID.
Proof. rewrite MAX_PORTS_Z. unfold EMPTY_ID, U32_MAX. lia. Qed.

(** A created port is new to the map if its number was not live. *)
Lemma create_refines t m pid port t' :
  refines t m → 0 ≤ next_id t < Z.of_nat MAX_PORTS →
  create pid t = (Some port, t') → m !! port = None →
  refines t' (<[port := (pid, [])]> m).
Proof.
  intros Hr Hn Hc Hnone. unfold create, alloc in Hc.
  destruct (alloc_loop MAX_PORTS pid t) as [[[p idx]|] t1] eqn:Ha; simplify_eq/=.
  destruct (alloc_loop_Some _ _ _ _ _ _ Ha Hn) as (Hff & Hbs & Hp).
  destruct t' as [bs next]. simpl in Hbs. subst bs.
  apply refines_claim; [done..|by apply MAX_PORTS_lt_EMPTY|done].
Qed.

(** When the next number has a free bucket, it is the one handed out. *)
Lemma create_first t pid idx :
  find_first (bucket_free (buckets t)) (probe_seq (next_id t)) = Some idx →
  create pid t = (Some (next_id t),
    mkPortTable (alter (claim (next_id t) pid) idx (buckets t))
      (u32 (next_id t + 1) mod Z.of_nat MAX_PORTS)).
Proof.
  intros Hff. unfold create, alloc.
  enough (∀ n, (0 < n)%nat → alloc_loop n pid t = (Some (next_id t, idx),
    mkPortTable (alter (claim (next_id t) pid) idx (buckets t))
      (u32 (next_id t + 1) mod Z.of_nat MAX_PORTS))) as Ha.
  { rewrite Ha; [done|]. pose proof MAX_PORTS_Z. lia. }
  intros [|n] Hn; [lia|]. simpl alloc_loop. by rewrite Hff.
Qed.

(** ** Histories with at most [LIVE_BUCKETS] creations *)

Definition creates (o : op) : nat := match o with OCreate _ => 1 | _ => 0 end.
#[global] Arguments creates : simpl never.

(** The table after a history with [k] creations, as the map [m]. *)
Record hist (t : PortTable) (m : PortMap) (k : nat) : Prop := {
  h_refines : refines t m;
  h_home : all_home t;
  h_next : next_id t = Z.of_nat k;
  h_fresh : ∀ idx b, buckets t !! idx = Some b → live b = true → 0 ≤ id b < Z.of_nat k
}.

Lemma hist_new : hist PortTable_new ∅ 0.
Proof.
  assert (∀ i b, buckets PortTable_new !! i = Some b → b = PortEntry_empty) as Hb.
  { intros i b ->%lookup_replicate_Some. done. }
  split; [|intros i b ->%Hb; done|done|intros i b ->%Hb; done].
  split.
  - split.
    + apply length_replicate.
    + apply unique_keys_replicate. done.
    + intros i b ->%Hb. done.
    + intros i b ->%Hb. exists []. apply empty_holds.
  - intros port. rewrite lookup_empty. apply fmap_None, lookup_key_None.
    intros i b ->%Hb. done.
Qed.

Lemma hist_same_ids t t' m m' k :
  hist t m k → same_ids t t' → refines t' m' → hist t' m' k.
Proof.
  intros [Hr Hh Hn Hf] Hs Hr'. split; [done| | |].
  - exact (same_ids_live t t' (λ idx p, idx = probe p 0) Hs Hh).
  - destruct Hs as [-> _]. done.
  - exact (same_ids_live t t' (λ _ p, 0 ≤ p < Z.of_nat k) Hs Hf).
Qed.

Lemma hist_create t m k pid :
  hist t m k → (k < LIVE_BUCKETS)%nat →
  ∃ t', create pid t = (Some (Z.of_nat k), t') ∧ m !! Z.of_nat k = None ∧
        hist t' (<[Z.of_nat k := (pid, [])]> m) (S k).
Proof.
  intros [Hr Hh Hn Hf] Hk. pose proof LIVE_BUCKETS_Z as HB. pose proof MAX_PORTS_Z as HP.
  assert (probe (Z.of_nat k) 0 = k) as Hpk by (rewrite probe_home; lia).
  assert (m !! Z.of_nat k = None) as Hnone.
  { destruct (m !! Z.of_nat k) as [[o q]|] eqn:Hm; [|done].
    destruct (refines_view _ _ _ _ _ Hr Hm) as (idx & b & _ & Hb & Hl & Hid & _).
    specialize (Hf idx b Hb). rewrite Hl in Hf. specialize (Hf eq_refl). lia. }
  destruct (lookup_lt_is_Some_2 (buckets t) k) as [b Hb].
  { rewrite (tw_len t); [done|]. apply Hr. }
  assert (is_free b = true) as Hfree.
  { destruct (is_free b) eqn:Hfb; [done|]. exfalso.
    assert (live b = true) as Hlive by (by rewrite Hfb).
    pose proof (Hh k b Hb Hlive) as Hhk. specialize (Hf k b Hb Hlive).
    rewrite probe_home in Hhk; lia. }
  assert (find_first (bucket_free (buckets t)) (probe_seq (next_id t)) = Some k) as Hff.
  { assert (probe_seq (next_id t) !! 0%nat = Some k) as Hp0.
    { apply probe_seq_lookup. rewrite Hn, Hpk. split; [unfold PROBE_LIMIT; lia|done]. }
    apply find_first_Some. exists 0%nat. split; [|done].
    apply position_Some. exists k. split_and!; [done| |lia].
    by rewrite (bucket_free_false _ _ _ Hb). }
  rewrite (create_first _ _ _ Hff). rewrite Hn. eexists. split; [reflexivity|].
  split; [exact Hnone|].
  assert (∀ idx c, alter (claim (Z.of_nat k) pid) k (buckets t) !! idx = Some c →
            idx = k ∧ id c = Z.of_nat k ∨ buckets t !! idx = Some c) as Hcases.
  { intros idx c. destruct (decide (k = idx)) as [<-|Hne].
    - rewrite list_lookup_alter_eq, Hb. intros [= <-]. left. split; reflexivity.
    - rewrite list_lookup_alter_ne by done. by right. }
  split; simpl.
  - apply refines_claim; [exact Hr|exact Hnone|apply MAX_PORTS_lt_EMPTY; lia|].
    by rewrite <- Hn.
  - intros idx c [[-> ->]|Hc]%Hcases Hl; [done|by apply Hh].
  - rewrite u32_small by lia. rewrite Z.mod_small; lia.
  - intros idx c [[-> ->]|Hc]%Hcases Hl; [lia|]. specialize (Hf idx c Hc Hl). lia.
Qed.

Lemma hist_release t m k pid bs closed :
  hist t m k → release_buckets pid (buckets t) [] = (bs, closed) →
  hist (mkPortTable bs (next_id t)) (filter (λ '(_, (o, _)), o ≠ pid) m) k.
Proof.
  intros [Hr Hh Hn Hf] Hrel. pose proof (release_buckets_map pid (buckets t) []) as Hmap.
  rewrite Hrel in Hmap. simpl in Hmap. subst bs.
  set (keep := λ b, negb (negb (is_free b) && (owner_pid b =? pid))).
  destruct (home_wf_map t keep (next_id t) (proj1 Hr) Hh) as (Hwf & Hh' & Hv).
  split; [|done|done|].
  - split; [done|]. intros port. rewrite Hv, map_lookup_filter.
    rewrite <- (proj2 Hr port). unfold port_view.
    destruct (lookup_key live id (buckets t) port) as [b|] eqn:Hb; simpl; [|done].
    apply lookup_key_live in Hb as (i & _ & Hl%negb_true_iff & _).
    unfold keep. rewrite Hl. simpl. destruct (Z.eqb_spec (owner_pid b) pid); simpl.
    + case_guard; [|done]. naive_solver.
    + case_guard; [done|]. naive_solver.
  - simpl. intros idx c Hc Hl. change (map ?g ?l) with (g <$> l) in Hc.
    rewrite list_lookup_fmap in Hc. apply fmap_Some in Hc as (b & Hb & ->).
    revert Hl. destruct (negb (negb _ && _)); [by apply (Hf idx b)|done].
Qed.

Section history.
Context {T : Type} `{PortWaker T}.

(** Forward simulation: every operation of the table is the step the
    specification allows. *)
Lemma hist_step o t (s : T) m k r t' s' :
  hist t m k → (k + creates o ≤ LIVE_BUCKETS)%nat →
  impl_step o (t, s) = (r, (t', s')) →
  ∃ m', spec_step m o r m' ∧ hist t' m' (k + creates o).
Proof.
  intros Hh Hk Hs. pose proof (h_refines _ _ _ Hh) as Hr.
  destruct o as [pid|port|port msg|port|port c|pid];
    unfold creates in Hk |- *; cbn [impl_step fst snd] in Hs;
    rewrite ?Nat.add_0_r.
  - destruct (hist_create t m k pid Hh ltac:(lia)) as (t1 & Hc & Hnone & Hh1).
    rewrite Hc in Hs. simplify_eq. eexists. split; [by constructor|].
    by rewrite Nat.add_1_r.
  - simplify_eq. destruct (close_home t m port Hr (h_home _ _ _ Hh)) as [Hr' Hh'].
    eexists. split; [constructor|]. split; [done..| |].
    + unfold close. case_match; [|by apply Hh]. by apply Hh.
    + intros idx b Hb Hl. apply (h_fresh _ _ _ Hh idx); [|done].
      unfold close in Hb. case_match; [|done]. simpl in Hb.
      by apply insert_lookup_cases in Hb as [(_ & <- & _)|[_ Hb]].
  - pose proof (send_ids port msg t s) as Hids.
    pose proof (send_refines t s m port msg Hr) as Hsp.
    destruct (send port msg (t, s)) as [r1 [t1 s1]]. simplify_eq/=.
    destruct (m !! port) as [[o q]|] eqn:Hm; [case_match eqn:Hq|].
    + destruct Hsp as (? & ? & ?). simplify_eq. eexists.
      split; [eapply SpSendFull; [done|by apply Nat.eqb_eq]|by eapply hist_same_ids].
    + destruct Hsp as (? & ? & Hr'). simplify_eq. eexists.
      split; [eapply SpSendOk; [done|]|by eapply hist_same_ids].
      destruct (refines_view _ _ _ _ _ Hr Hm) as (? & ? & _ & _ & _ & _ & _ & Hb).
      apply entry_holds_bound in Hb. apply Nat.eqb_neq in Hq.
      unfold QUEUE_DEPTH in *. lia.
    + simplify_eq. eexists. by split; [apply SpSendNone|].
  - pose proof (recv_ids port t) as Hids. pose proof (recv_refines t m port Hr) as Hsp.
    destruct (m !! port) as [[o q]|] eqn:Hm.
    + destruct Hsp as (t1 & Hc & _ & Hr'). rewrite Hc in *. simplify_eq. eexists.
      split; [by eapply SpRecv|by eapply hist_same_ids].
    + rewrite Hsp in *. simplify_eq. eexists. by split; [apply SpRecvNone|].
  - pose proof (recv_as_ids port c t) as Hids.
    pose proof (recv_refines t m port Hr) as Hsp.
    pose proof (recv_as_refines t m port c Hr) as Has.
    destruct (m !! port) as [[o q]|] eqn:Hm; [destruct (Z.eqb_spec o c) as [->|Hne]|].
    + destruct Hsp as (t1 & Hc & _ & Hr'). rewrite Has, Hc in *. simplify_eq. eexists.
      split; [by eapply SpRecvAs|by eapply hist_same_ids].
    + rewrite Has in *. simplify_eq. eexists. split; [apply SpRecvAsDenied; congruence|done].
    + rewrite Has in *. simplify_eq. eexists. split; [apply SpRecvAsDenied; congruence|done].
  - unfold release_by_owner in Hs.
    destruct (release_buckets pid (buckets t) []) as [bs closed] eqn:Hrel. simplify_eq.
    eexists. split; [constructor|]. by eapply hist_release.
Qed.

Lemma hist_run os t (s : T) m k rs t' s' :
  hist t m k → (k + sum_list_with creates os ≤ LIVE_BUCKETS)%nat →
  impl_run os (t, s) = (rs, (t', s')) →
  ∃ m', spec_run m os rs m' ∧ hist t' m' (k + sum_list_with creates os).
Proof.
  revert t s m k rs. induction os as [|o os IH]; intros t s m k rs Hh Hk Hr;
    cbn [impl_run sum_list_with] in *.
  - simplify_eq. exists m. rewrite Nat.add_0_r. by split; [constructor|].
  - destruct (impl_step o (t, s)) as [r [t1 s1]] eqn:Ho.
    destruct (impl_run os (t1, s1)) as [rs1 [t2 s2]] eqn:Hos. simplify_eq.
    destruct (hist_step o t s m k r t1 s1 Hh ltac:(lia) Ho) as (m1 & Hs1 & Hh1).
    destruct (IH t1 s1 m1 (k + creates o)%nat rs1 Hh1 ltac:(lia) Hos) as (m2 & Hs2 & Hh2).
    exists m2. rewrite Nat.add_assoc. split; [by econstructor|done].
Qed.

End history.

(** Witnesses: a table with one port, owned by process 7; the scheduler records
    the ports it is asked to wake. *)
#[local] Instance log_waker : PortWaker (list Z) := λ port log, log ++ [port].

Lemma send_spec_witness :
  ∃ t m, refines t m ∧ m !! 0 = Some (7, []) ∧
  ∃ t', send 0 Message_empty (t, []) = (Ok tt, (t', [0])) ∧
        refines t' (<[0 := (7, [Message_empty])]> m).
Proof.
  pose proof LIVE_BUCKETS_Z.
  destruct (hist_create _ _ _ 7 hist_new ltac:(lia)) as (t & _ & _ & Hh).
  exists t, (<[0 := (7, [])]> ∅).
  assert (refines t (<[0 := (7, [])]> ∅)) as Hr by apply Hh.
  split_and!; [done|by rewrite lookup_insert_eq|].
  pose proof (send_spec t [] _ 0 Message_empty Hr) as Hs.
  rewrite lookup_insert_eq in Hs. exact Hs.
Defined.

Lemma recv_as_owner_only_witness :
  ∃ t m, refines t m ∧ is_owner t 0 7 = true ∧ recv_as 0 8 t = (None, t).
Proof.
  pose proof LIVE_BUCKETS_Z.
  destruct (hist_create _ _ _ 7 hist_new ltac:(lia)) as (t & _ & _ & Hh).
  exists t, (<[0 := (7, [])]> ∅).
  assert (refines t (<[0 := (7, [])]> ∅)) as Hr by apply Hh.
  destruct (recv_as_owner_only t _ 0 7 Hr) as [_ H7].
  destruct (recv_as_owner_only t _ 0 8 Hr) as [Hno H8].
  split_and!; [done|apply H7; exists []; by rewrite lookup_insert_eq|].
  apply Hno. apply not_true_iff_false. intros [q Hq]%H8. by rewrite lookup_insert_eq in Hq.
Defined.

