(* ===== verification/IpcLimits.v ===== *)
(** * Where the port table leaves its specification

    [IpcSpec] proves the table correct for histories of at most [LIVE_BUCKETS]
    creations.  This file shows two histories beyond that bound, from the
    initial table, in which it is not: a number is handed out again while its
    port is live, and a live port becomes unreachable when another is closed. *)

From stdpp Require Import base list option numbers gmap.
From Stdlib Require Import ZArith Lia.
From S2P Require Import Prelude Words Rings CyLib IpcPort IpcSpec.

Local Open Scope Z_scope.

(** If the number that comes up
    next is still live, and some later bucket of its probe sequence is free,
    [create] returns that number again to another process, although the port
    is in use. *)
Lemma create_duplicates t pid b :
  buckets t !! probe (next_id t) 0 = Some b → is_free b = false →
  id b = next_id t → bucket_free (buckets t) (probe (next_id t) 1) = true →
  fst (create pid t) = Some (id b) ∧
  find (snd (create pid t)) (id b) = Some (probe (next_id t) 0).
Proof.
  intros Hb Hf Hid Hf1.
  assert (find_first (bucket_free (buckets t)) (probe_seq (next_id t)) =
          Some (probe (next_id t) 1)) as Hff.
  { apply find_first_Some. exists 1%nat. split; [|done]. apply position_Some.
    exists (probe (next_id t) 1). split_and!; [done..|].
    intros j y Hj Hy. assert (j = 0)%nat as -> by lia.
    apply probe_seq_lookup in Hy as [_ ->]. by rewrite (bucket_free_false _ _ _ Hb). }
  rewrite (create_first _ _ _ Hff).
  simpl. rewrite Hid. split; [done|].
  unfold find. apply (find_loop_hit _ _ 0 0 b); simpl; [|done|done| |unfold PROBE_LIMIT; lia].
  - rewrite list_lookup_alter_ne; [done|].
    intros Heq%probe_inj; [done|unfold PROBE_LIMIT; lia..].
  - intros j Hj. lia.
Qed.

(** If a live port sits
    in the second bucket of its probe sequence, closing the port in the first
    bucket leaves it in the table but no operation finds it any more: a send
    to it reports [PortNotFound]. *)
Lemma close_cuts_probe_chain t port b other c :
  buckets t !! probe other 0 = Some b → is_free b = false → id b = port →
  find t port = Some (probe other 0) →
  buckets t !! probe other 1 = Some c → is_free c = false → id c = other →
  port ≠ other →
  find t other = Some (probe other 1) ∧
  buckets (close port t) !! probe other 1 = Some c ∧
  find (close port t) other = None.
Proof.
  intros Hb Hfb Hidb Hfind Hc Hfc Hidc Hne.
  assert (probe other 0 ≠ probe other 1) as Hp01.
  { intros Heq%probe_inj; [done|unfold PROBE_LIMIT; lia..]. }
  split_and!.
  - unfold find. apply (find_loop_hit _ _ 0 1 c); [done..| |unfold PROBE_LIMIT; lia].
    intros j Hj. assert (j = 0)%nat as -> by lia. exists b.
    split_and!; [done..|congruence].
  - unfold close, find_mut. fold (find t port). rewrite Hfind. simpl.
    by rewrite list_lookup_insert_ne.
  - unfold close, find_mut. fold (find t port). rewrite Hfind.
    unfold find. change (probe_seq other) with (probe other 0 :: (probe other <$> seq 1 15)).
    cbn [find_loop buckets].
    by rewrite (list_lookup_insert_eq _ _ _ (lookup_lt_Some _ _ _ Hb)).
Qed.

(** ** A table in which only port 0 is live *)

Definition port0 : PortEntry := claim 0 1 PortEntry_empty.

Definition only_port0 (k : Z) : PortTable :=
  mkPortTable (<[0%nat := port0]> (replicate LIVE_BUCKETS PortEntry_empty)) k.

Lemma only_port0_lookup k idx : (idx < LIVE_BUCKETS)%nat →
  buckets (only_port0 k) !! idx = Some (if (idx =? 0)%nat then port0 else PortEntry_empty).
Proof.
  intros Hidx. simpl. destruct (Nat.eqb_spec idx 0) as [->|Hne].
  - apply list_lookup_insert_eq. by rewrite length_replicate.
  - rewrite list_lookup_insert_ne by congruence. apply lookup_replicate. done.
Qed.

(** The bucket the next port takes: its home, or the one after bucket 0. *)
Lemma only_port0_first k port : ∃ i, (i < PROBE_LIMIT)%nat ∧ probe port i ≠ 0%nat ∧
  (∀ j, (j < i)%nat → probe port j = 0%nat) ∧
  find_first (bucket_free (buckets (only_port0 k))) (probe_seq port) = Some (probe port i).
Proof.
  assert (∀ idx, (idx < LIVE_BUCKETS)%nat →
    bucket_free (buckets (only_port0 k)) idx = negb (idx =? 0)%nat) as Hbf.
  { intros idx Hidx. unfold bucket_free. rewrite only_port0_lookup by done. by case_match. }
  assert (∀ i, (i < 2)%nat → probe port i ≠ 0%nat → (∀ j, (j < i)%nat → probe port j = 0%nat) →
    find_first (bucket_free (buckets (only_port0 k))) (probe_seq port) = Some (probe port i))
    as Hff.
  { intros i Hi Hnz Hz. assert (i < PROBE_LIMIT)%nat by (unfold PROBE_LIMIT; lia).
    apply find_first_Some. exists i. split; [|by apply probe_seq_lookup].
    apply position_Some. exists (probe port i).
    split_and!; [by apply probe_seq_lookup| |].
    - rewrite Hbf by apply probe_lt. by apply negb_true_iff, Nat.eqb_neq.
    - intros j y Hj [_ ->]%probe_seq_lookup. rewrite Hbf by apply probe_lt.
      by rewrite (Hz j Hj). }
  destruct (decide (probe port 0 = 0%nat)) as [Hz|Hnz].
  - assert (probe port 1 ≠ 0%nat) as H1.
    { rewrite <- Hz. intros Heq%probe_inj; [done|unfold PROBE_LIMIT; lia..]. }
    assert (∀ j, (j < 1)%nat → probe port j = 0%nat) as Hb.
    { intros j Hj. by assert (j = 0)%nat as -> by lia. }
    exists 1%nat. split_and!; [unfold PROBE_LIMIT; lia|done..|]. apply Hff; [lia|done..].
  - exists 0%nat. split_and!; [unfold PROBE_LIMIT; lia|done|lia|]. apply Hff; [lia|done|lia].
Qed.

(** One round: create a port and close it again. *)
Lemma only_port0_round k : 0 < k < Z.of_nat MAX_PORTS →
  ∃ t1, create 2 (only_port0 k) = (Some k, t1) ∧
        close k t1 = only_port0 ((k + 1) mod Z.of_nat MAX_PORTS).
Proof.
  intros Hk. pose proof MAX_PORTS_Z as HP.
  destruct (only_port0_first k k) as (i & Hi & Hnz & Hbefore & Hff).
  rewrite (create_first _ _ _ Hff). eexists. split; [reflexivity|].
  change (next_id (only_port0 k)) with k. rewrite u32_small by lia.
  pose proof (probe_lt k i) as Hlt.
  assert (buckets (only_port0 k) !! probe k i = Some PortEntry_empty) as Hb.
  { rewrite only_port0_lookup by done. by rewrite (proj2 (Nat.eqb_neq _ _) Hnz). }
  assert (find_mut (mkPortTable (alter (claim k 2) (probe k i) (buckets (only_port0 k)))
            ((k + 1) mod Z.of_nat MAX_PORTS)) k = Some (probe k i)) as Hfind.
  { unfold find_mut, probe_seq. apply (find_loop_hit _ _ 0 i (claim k 2 PortEntry_empty)).
    - cbn [buckets Nat.add]. by rewrite list_lookup_alter_eq, Hb.
    - apply Z.eqb_neq. unfold EMPTY_ID, U32_MAX. simpl. lia.
    - done.
    - intros j Hj. exists port0. cbn [buckets].
      rewrite list_lookup_alter_ne by (intros ->%probe_inj; unfold PROBE_LIMIT in *; lia).
      rewrite (Hbefore j) by lia. split_and!; [|done|simpl; lia].
      apply (only_port0_lookup k 0). pose proof (probe_lt k 0). lia.
    - done. }
  unfold close. rewrite Hfind. cbn [buckets next_id]. unfold only_port0. f_equal.
  apply list_eq. intros j. destruct (decide (probe k i = j)) as [<-|Hne].
  - rewrite list_lookup_insert_eq by (rewrite length_alter; by eapply lookup_lt_Some). done.
  - rewrite list_lookup_insert_ne, list_lookup_alter_ne by done. done.
Qed.

(** ** Histories *)

(** [n] rounds of process 2, for the numbers from [k]. *)
Fixpoint rounds (n : nat) (k : Z) : list op :=
  match n with
  | O => []
  | S n' => OCreate 2 :: OClose k :: rounds n' (k + 1)
  end.

Lemma rounds_ops n k o : 0 < k → o ∈ rounds n k → o = OCreate 2 ∨ ∃ p, o = OClose p ∧ k ≤ p < k + Z.of_nat n.
Proof.
  revert k. induction n as [|n IH]; intros k Hk; simpl; [by intros ?%elem_of_nil|].
  rewrite !elem_of_cons. intros [->|[->|Hin]]; [by left|right; exists k; split; [done|lia]|].
  destruct (IH (k + 1) ltac:(lia) Hin) as [->|(p & -> & Hp)]; [by left|right].
  exists p. split; [done|lia].
Qed.

Section histories.
Context {T : Type} `{PortWaker T}.

Lemma impl_run_app os os' (ts : PortTable * T) rs ts1 :
  impl_run os ts = (rs, ts1) →
  impl_run (os ++ os') ts = (rs ++ fst (impl_run os' ts1), snd (impl_run os' ts1)).
Proof.
  revert ts rs. induction os as [|o os IH]; intros ts rs Hr; cbn [impl_run app] in *.
  - simplify_eq. by destruct (impl_run os' ts1).
  - destruct (impl_step o ts) as [r ts2]. destruct (impl_run os ts2) as [rs2 ts3] eqn:Hos.
    simplify_eq. rewrite (IH _ _ Hos). done.
Qed.

Lemma run_rounds n k (s : T) : 0 < k → k + Z.of_nat n ≤ Z.of_nat MAX_PORTS →
  ∃ rs, impl_run (rounds n k) (only_port0 (k mod Z.of_nat MAX_PORTS), s) =
        (rs, (only_port0 ((k + Z.of_nat n) mod Z.of_nat MAX_PORTS), s)).
Proof.
  revert k. induction n as [|n IH]; intros k Hk Hle.
  - exists []. by rewrite Z.add_0_r.
  - destruct (only_port0_round k ltac:(lia)) as (t1 & Hc & Hcl).
    destruct (IH (k + 1) ltac:(lia) ltac:(lia)) as [rs Hrs].
    cbn [rounds impl_run impl_step fst snd].
    rewrite (Z.mod_small k) by lia. rewrite Hc. cbn [fst snd]. rewrite Hcl, Hrs.
    replace (k + Z.of_nat (S n)) with (k + 1 + Z.of_nat n) by lia. eexists. reflexivity.
Qed.

Lemma create_port0 : create 1 PortTable_new = (Some 0, only_port0 1).
Proof.
  pose proof LIVE_BUCKETS_Z. pose proof MAX_PORTS_Z as HP.
  assert (probe 0 0 = 0%nat) as Hp0 by (rewrite probe_home; lia).
  assert (buckets PortTable_new !! 0%nat = Some PortEntry_empty) as Hb.
  { apply lookup_replicate. split; [done|lia]. }
  assert (alter (claim 0 1) 0%nat (buckets PortTable_new) =
          buckets (only_port0 1)) as Hal.
  { apply list_eq. intros [|j].
    - rewrite list_lookup_alter_eq, Hb, only_port0_lookup by lia. done.
    - rewrite list_lookup_alter_ne by done. unfold only_port0. cbn [buckets].
      by rewrite list_lookup_insert_ne. }
  rewrite (create_first PortTable_new 1 0%nat).
  - change (next_id PortTable_new) with 0. rewrite Hal, u32_small, Z.mod_small by lia.
    reflexivity.
  - cbn [next_id PortTable_new]. apply find_first_Some. exists 0%nat.
    assert (probe_seq 0 !! 0%nat = Some 0%nat) as Hs.
    { apply probe_seq_lookup. split; [unfold PROBE_LIMIT; lia|done]. }
    split; [|done]. apply position_Some. exists 0%nat. split_and!; [done| |lia].
    by rewrite (bucket_free_false _ _ _ Hb).
Qed.

(** The table with only port 0 whose next number is [k]. *)
Lemma reach_port0 k (s : T) : 0 < k ≤ Z.of_nat MAX_PORTS →
  ∃ os rs, (∀ o, o ∈ os → o = OCreate 2 ∨ ∃ p, o = OClose p ∧ 0 < p < k) ∧
    impl_run (OCreate 1 :: os) (PortTable_new, s) =
      (RPort (Some 0) :: rs, (only_port0 (k mod Z.of_nat MAX_PORTS), s)).
Proof.
  intros Hk. pose proof MAX_PORTS_Z as HP.
  destruct (run_rounds (Z.to_nat (k - 1)) 1 s ltac:(lia) ltac:(lia)) as [rs Hrs].
  rewrite Z.mod_small, Z2Nat.id in Hrs by lia.
  exists (rounds (Z.to_nat (k - 1)) 1), rs. split.
  - intros o [->|(p & -> & Hp)]%rounds_ops; [by left| |lia]. right. exists p. split; [done|lia].
  - cbn [impl_run impl_step fst snd]. rewrite create_port0. rewrite Hrs.
    by replace (1 + (k - 1)) with k by lia.
Qed.
End histories.

(** A port number is handed out twice.  From the initial table, process 1
    creates port 0 and keeps it; after process 2 has created and closed 65535
    other ports, the next create returns 0 to process 2 while port 0 is still
    live and owned by process 1. *)
Theorem port_number_reused {T} `{PortWaker T} (s : T) :
  ∃ os rs t, (∀ o, o ∈ os → o = OCreate 2 ∨ ∃ p, o = OClose p ∧ p ≠ 0) ∧
    impl_run (OCreate 1 :: os ++ [OCreate 2]) (PortTable_new, s) =
      (RPort (Some 0) :: rs ++ [RPort (Some 0)], (t, s)) ∧
    is_owner t 0 1 = true.
Proof.
  pose proof MAX_PORTS_Z as HP. pose proof LIVE_BUCKETS_Z as HB.
  destruct (reach_port0 65536 s ltac:(lia)) as (os & rs & Hos & Hr).
  rewrite HP, Z.mod_same in Hr by lia.
  assert (probe 0 0 = 0%nat) as Hp0 by (rewrite probe_home; lia).
  assert (buckets (only_port0 0) !! 0%nat = Some port0) as Hb.
  { apply (only_port0_lookup 0 0). lia. }
  destruct (create_duplicates (only_port0 0) 2 port0) as [Hc Hf].
  - change (next_id (only_port0 0)) with 0. by rewrite Hp0.
  - done.
  - done.
  - change (next_id (only_port0 0)) with 0. unfold bucket_free.
    rewrite only_port0_lookup by apply probe_lt.
    rewrite (proj2 (Nat.eqb_neq _ _)); [done|]. rewrite <- Hp0.
    intros Heq%probe_inj; [done|unfold PROBE_LIMIT; lia..].
  - change (next_id (only_port0 0)) with 0 in Hf. rewrite Hp0 in Hf.
    destruct (create 2 (only_port0 0)) as [r t] eqn:Hcr. simpl in Hc, Hf. subst r.
    exists os, rs, t. split_and!.
    + intros o [->|(p & -> & Hp)]%Hos; [by left|right]. exists p. split; [done|lia].
    + rewrite app_comm_cons, (impl_run_app _ _ _ _ _ Hr). cbn [impl_run impl_step fst snd].
      by rewrite Hcr.
    + unfold is_owner. rewrite Hf. unfold owned_by.
      destruct (find_sound _ _ _ Hf) as (b & Hbt & _).
      (* the bucket of port 0 is untouched *)
      assert (buckets t !! 0%nat = Some port0) as ->; [|done].
      revert Hcr. destruct (only_port0_first 0 0) as (i & Hi & Hnz & _ & Hff).
      rewrite (create_first _ _ _ Hff). intros [= <-]. cbn [buckets].
      rewrite list_lookup_alter_ne by done. done.
Qed.

(** Closing a port can make another one unreachable.  From the initial
    table, process 1 creates port 0, process 2 comes to own port 4096, which
    shares the bucket of port 0 and sits in the next one.  When process 1 closes
    port 0, a send to port 4096 is answered [PortNotFound], although nobody
    closed port 4096. *)
Theorem live_port_lost {T} `{PortWaker T} (s : T) (msg : Message) :
  ∃ os rs ts, (∀ o, o ∈ os → o = OCreate 2 ∨ ∃ p, o = OClose p ∧ p ≠ 4096) ∧
    impl_run (OCreate 1 :: os ++ [OCreate 2; OClose 0; OSend 4096 msg]) (PortTable_new, s) =
      (RPort (Some 0) :: rs ++ [RPort (Some 4096); RUnit; RSend (Err PortNotFound)], ts).
Proof.
  pose proof MAX_PORTS_Z as HP. pose proof LIVE_BUCKETS_Z as HB.
  destruct (reach_port0 4096 s ltac:(lia)) as (os & rs & Hos & Hr).
  rewrite HP, Z.mod_small in Hr by lia.
  assert (probe 4096 0 = 0%nat) as Hp0 by apply probe_4096.
  assert (buckets (only_port0 4096) !! 0%nat = Some port0) as Hb.
  { apply (only_port0_lookup 4096 0). lia. }
  destruct (only_port0_first 4096 4096) as (i & Hi & Hnz & Hbefore & Hff).
  assert (i = 1)%nat as ->.
  { destruct i as [|[|i]]; [by destruct Hnz|reflexivity|]. exfalso.
    enough (1 = 0)%nat by lia. apply (probe_inj 4096); [unfold PROBE_LIMIT; lia..|].
    rewrite !Hbefore by lia. done. }
  pose proof (create_first _ 2 _ Hff) as Hcr.
  set (t := mkPortTable _ _) in Hcr. change (next_id (only_port0 4096)) with 4096 in Hcr.
  assert (buckets t !! 0%nat = Some port0) as Hb0.
  { unfold t. cbn [buckets]. rewrite list_lookup_alter_ne by done. done. }
  assert (find t 0 = Some 0%nat) as Hf0.
  { unfold find. assert (probe 0 0 = 0%nat) as Hp by (rewrite probe_home; lia).
    pose proof (find_loop_hit (buckets t) 0 0 0 port0) as Hh. cbn [Nat.add] in Hh.
    rewrite Hp in Hh. apply Hh; [exact Hb0|reflexivity|reflexivity|lia|].
    unfold PROBE_LIMIT. lia. }
  destruct (close_cuts_probe_chain t 0 port0 4096 (claim 4096 2 PortEntry_empty))
    as (_ & _ & Hlost); [by rewrite Hp0|done|done|by rewrite Hp0| |done|done|done|].
  { unfold t. cbn [buckets]. rewrite list_lookup_alter_eq.
    rewrite only_port0_lookup by apply probe_lt.
    by rewrite (proj2 (Nat.eqb_neq _ _) Hnz). }
  exists os, rs, (close 0 t, s). split.
  - intros o [->|(p & -> & Hp)]%Hos; [by left|right]. exists p. split; [done|lia].
  - rewrite app_comm_cons, (impl_run_app _ _ _ _ _ Hr).
    cbn [impl_run impl_step fst snd]. rewrite Hcr. cbn [impl_run impl_step fst snd].
    unfold send, find_mut. fold (find (close 0 t) 4096). by rewrite Hlost.
Qed.
