(* ===== verification/Buddy.v ===== *)
(** * The physical page allocator (src/mm/src/buddy.rs)

    [FREE_LISTS] keeps, for each order, the head of a free list; a block has no
    link to a next one, so a list holds at most one block.  The theorems follow
    the pages: every page is free, allocated or lost, allocated blocks never
    overlap, freeing a block right after allocating it restores the lists, and
    the start-up code loses all but the last maximal block of a region. *)

From stdpp Require Import base list option numbers.
From Stdlib Require Import ZArith Lia.
From S2P Require Import Prelude Words CyLib.

Local Open Scope Z_scope.

(** ** Definitions *)

Definition PAGE_SIZE : Z := 4096.
Definition MAX_ORDER : nat := 11.

(** [PAGE_SIZE << order] *)
Definition block_bytes (order : nat) : Z := Z.shiftl PAGE_SIZE (Z.of_nat order).

(** [FREE_LISTS], [FREE_PAGES] and [TOTAL_PAGES]. *)
Record Buddy := mkBuddy {
  free_lists : list (option Z);
  free_pages : Z;
  total_pages : Z
}.

Definition Buddy_init : Buddy := mkBuddy (replicate MAX_ORDER None) 0 0.

(** [for split in (order..order + n).rev()] of [alloc]. *)
Fixpoint split_loop (addr : Z) (order n : nat) (lists : list (option Z)) : list (option Z) :=
  match n with
  | O => lists
  | S n' =>
      let buddy := wadd addr (block_bytes (order + n')) in
      split_loop addr order n' (<[(order + n')%nat := Some buddy]> lists)
  end.

(** [for o in order..MAX_ORDER] of [alloc], with [n] iterations left. *)
Fixpoint alloc_loop (order o n : nat) (b : Buddy) : option Z * Buddy :=
  match n with
  | O => (None, b)
  | S n' =>
      match mjoin (free_lists b !! o) with
      | Some addr =>
          (Some addr, mkBuddy (split_loop addr order (o - order) (<[o := None]> (free_lists b)))
                        (wsub (free_pages b) (Z.shiftl 1 (Z.of_nat order))) (total_pages b))
      | None => alloc_loop order (S o) n' b
      end
  end.

Definition buddy_alloc (order : nat) : st Buddy (option Z) :=
  st_assert (order <? MAX_ORDER)%nat ≫= λ _,
  st_lift (alloc_loop order order (MAX_ORDER - order)).

(** The merge loop of [free], with at most [n] iterations left. *)
Fixpoint free_loop (n : nat) (current : Z) (current_order : nat) (lists : list (option Z))
    : list (option Z) :=
  match n with
  | O => <[current_order := Some current]> lists
  | S n' =>
      let buddy := Z.lxor current (block_bytes current_order) in
      if decide (mjoin (lists !! current_order) = Some buddy) then
        free_loop n' (Z.min current buddy) (S current_order) (<[current_order := None]> lists)
      else <[current_order := Some current]> lists
  end.

Definition buddy_free (addr : Z) (order : nat) : st Buddy unit :=
  st_assert (order <? MAX_ORDER)%nat ≫= λ _,
  st_modify (λ b,
    mkBuddy (free_loop (MAX_ORDER - 1 - order) addr order (free_lists b))
      (wadd (free_pages b) (Z.shiftl 1 (Z.of_nat order))) (total_pages b)).

(** *** Start-up *)

Inductive MemoryType := Available | Reserved | AcpiReclaimable | AcpiNvs | BadMemory.

Record MemoryRegion := mkMemoryRegion { base : Z; length_ : Z; kind : MemoryType }.

(** The order of the block released at [addr]. *)
Definition release_order (addr end_ : Z) : nat :=
  let remaining_pages := wsub end_ addr / PAGE_SIZE in
  let max_order := Nat.min (MAX_ORDER - 1)
                     (Z.to_nat (wsub (64 - 1) (leading_zeros remaining_pages))) in
  let align_order := trailing_zeros (addr / PAGE_SIZE) in
  Nat.min max_order (Nat.min align_order (MAX_ORDER - 1)).

(** The [while addr < end] loop.  [fuel] bounds the iterations; running out of
    it is a panic, so that a proof of no panic is a proof of termination. *)
Fixpoint release_loop (fuel : nat) (addr end_ : Z) : st Buddy unit :=
  if addr <? end_ then
    match fuel with
    | O => st_panic
    | S fuel' =>
        let order := release_order addr end_ in
        buddy_free addr order ≫= λ _,
        release_loop fuel' (wadd addr (block_bytes order)) end_
    end
  else mret tt.

Definition init_region (r : MemoryRegion) : st Buddy unit :=
  match kind r with
  | Available =>
      let start := align_up (base r) (block_bytes (MAX_ORDER - 1)) in
      let end_ := align_down (wadd (base r) (length_ r)) PAGE_SIZE in
      if end_ <=? start then mret tt
      else release_loop (Z.to_nat ((end_ - start) / PAGE_SIZE)) start end_
  | _ => mret tt
  end.

Definition init_from_map (regions : list MemoryRegion) : st Buddy unit :=
  for_each regions init_region ≫= λ _,
  st_modify (λ b, mkBuddy (free_lists b) (free_pages b) (free_pages b)).

(** ** Pages of blocks *)

(** The page numbers of the block of [2^order] pages at [addr]. *)
Definition pages_of (addr : Z) (order : nat) : list Z :=
  seqZ (addr / PAGE_SIZE) (2 ^ Z.of_nat order).

Definition block_ok (addr : Z) (order : nat) : Prop :=
  0 ≤ addr ∧ addr mod (PAGE_SIZE * 2 ^ Z.of_nat order) = 0 ∧
  addr + PAGE_SIZE * 2 ^ Z.of_nat order ≤ 2^64.

Definition head_pages (order : nat) (h : option Z) : list Z :=
  match h with Some a => pages_of a order | None => [] end.

(** The free pages of the lists of orders [o], [o + 1], ... *)
Fixpoint list_pages (o : nat) (lists : list (option Z)) : list Z :=
  match lists with
  | [] => []
  | h :: lists' => head_pages o h ++ list_pages (S o) lists'
  end.

Definition lists_ok (lists : list (option Z)) : Prop :=
  length lists = MAX_ORDER ∧
  ∀ o a, lists !! o = Some (Some a) → block_ok a o.

Lemma block_bytes_eq o : block_bytes o = PAGE_SIZE * 2 ^ Z.of_nat o.
Proof. apply Z.shiftl_mul_pow2. lia. Qed.

Lemma block_bytes_pow2 o : block_bytes o = 2 ^ (12 + Z.of_nat o).
Proof. rewrite block_bytes_eq, Z.pow_add_r by lia. done. Qed.

Lemma pow2_pos o : 0 < 2 ^ Z.of_nat o.
Proof. apply Z.pow_pos_nonneg; lia. Qed.

Lemma pow2_S o : 2 ^ Z.of_nat (S o) = 2 * 2 ^ Z.of_nat o.
Proof. rewrite Nat2Z.inj_succ, Z.pow_succ_r by lia. done. Qed.

Lemma length_pages_of a o : length (pages_of a o) = Z.to_nat (2 ^ Z.of_nat o).
Proof. apply length_seqZ. Qed.

(** Replacing the head of one list. *)
Lemma list_pages_insert o0 lists o old h :
  lists !! o = Some old →
  list_pages o0 (<[o := h]> lists) ++ head_pages (o0 + o) old ≡ₚ
  list_pages o0 lists ++ head_pages (o0 + o) h.
Proof.
  revert o0 o. induction lists as [|x lists IH]; intros o0 o Ho; [done|].
  destruct o as [|o]; simpl in *.
  - simplify_eq. rewrite Nat.add_0_r. solve_Permutation.
  - specialize (IH (S o0) o Ho). replace (o0 + S o)%nat with (S o0 + o)%nat by lia.
    rewrite <- !(assoc_L (++)). by rewrite IH.
Qed.

Lemma list_pages_set lists o h :
  lists !! o = Some None →
  list_pages 0 (<[o := h]> lists) ≡ₚ head_pages o h ++ list_pages 0 lists.
Proof.
  intros Ho. pose proof (list_pages_insert 0 lists o None h Ho) as Hp.
  simpl in Hp. rewrite (right_id_L [] (++)) in Hp. rewrite Hp. apply Permutation_app_comm.
Qed.

Lemma list_pages_take lists o a :
  lists !! o = Some (Some a) →
  pages_of a o ++ list_pages 0 (<[o := None]> lists) ≡ₚ list_pages 0 lists.
Proof.
  intros Ho. pose proof (list_pages_insert 0 lists o (Some a) None Ho) as Hp.
  simpl in Hp. rewrite (right_id_L [] (++)) in Hp. rewrite <- Hp. apply Permutation_app_comm.
Qed.

Lemma lists_ok_insert lists o h :
  lists_ok lists → (∀ a, h = Some a → block_ok a o) → lists_ok (<[o := h]> lists).
Proof.
  intros [Hl Ho] Hh. split; [by rewrite length_insert|].
  intros o' a [(<- & -> & _)|[_ Ha]]%insert_lookup_cases; [by apply Hh|by apply Ho].
Qed.

Lemma lists_ok_lookup lists o : lists_ok lists → (o < MAX_ORDER)%nat → ∃ h, lists !! o = Some h.
Proof. intros [Hl _] Ho. apply lookup_lt_is_Some_2. lia. Qed.

(** A block is its two halves. *)
Lemma pages_of_split a o : a mod PAGE_SIZE = 0 →
  pages_of a (S o) = pages_of a o ++ pages_of (a + PAGE_SIZE * 2 ^ Z.of_nat o) o.
Proof.
  intros Ha. unfold pages_of. rewrite pow2_S. pose proof (pow2_pos o).
  replace ((a + PAGE_SIZE * 2 ^ Z.of_nat o) / PAGE_SIZE) with (a / PAGE_SIZE + 2 ^ Z.of_nat o).
  - rewrite <- seqZ_app by lia. f_equal. lia.
  - rewrite (Z.mul_comm PAGE_SIZE), Z.div_add by done. done.
Qed.

Lemma mod_mul_divide a n m : 0 < n → 0 < m → a mod (n * m) = 0 → a mod n = 0.
Proof.
  intros Hn Hm Ha. apply Z.mod_divide; [lia|].
  apply Z.mod_divide in Ha; [|lia]. destruct Ha as [k ->]. exists (k * m). lia.
Qed.

Lemma block_ok_page a o : block_ok a o → a mod PAGE_SIZE = 0.
Proof. intros (_ & Ha & _). eapply mod_mul_divide; [done|apply (pow2_pos o)|done]. Qed.

Lemma block_ok_halves a o : block_ok a (S o) →
  block_ok a o ∧ block_ok (a + PAGE_SIZE * 2 ^ Z.of_nat o) o.
Proof.
  unfold block_ok. rewrite pow2_S. intros (H0 & Ha & Hle). pose proof (pow2_pos o).
  assert (PAGE_SIZE = 4096) as HP by done.
  assert (a mod (PAGE_SIZE * 2 ^ Z.of_nat o) = 0) as Ha'.
  { apply (mod_mul_divide _ _ 2); [lia..|]. rewrite <- Ha. f_equal. lia. }
  split_and!; [lia|done|lia|lia| |lia].
  rewrite Z.add_mod, Ha', Z.mod_same by lia. done.
Qed.

(** ** Allocation *)

Lemma split_loop_spec a order n lists :
  lists_ok lists → block_ok a (order + n) → (order + n < MAX_ORDER)%nat →
  (∀ o, (order ≤ o < order + n)%nat → lists !! o = Some None) →
  block_ok a order ∧ lists_ok (split_loop a order n lists) ∧
  pages_of a order ++ list_pages 0 (split_loop a order n lists) ≡ₚ
    pages_of a (order + n) ++ list_pages 0 lists.
Proof.
  revert lists. induction n as [|n IH]; intros lists Hl Hb Hn Hnone.
  { rewrite Nat.add_0_r in *. done. }
  simpl. rewrite Nat.add_succ_r in *. destruct (block_ok_halves _ _ Hb) as [Hlo Hhi].
  assert (wadd a (block_bytes (order + n)) = a + PAGE_SIZE * 2 ^ Z.of_nat (order + n)) as Hbuddy.
  { rewrite block_bytes_eq. destruct Hhi as (? & _ & ?), Hb as (_ & _ & Hb).
    pose proof (pow2_pos (order + n)). apply wadd_small. unfold PAGE_SIZE in *. lia. }
  rewrite Hbuddy.
  destruct (IH (<[(order + n)%nat := Some (a + PAGE_SIZE * 2 ^ Z.of_nat (order + n))]> lists))
    as (Ha & Hok & Hp); [|done|lia| |].
  - apply lists_ok_insert; [done|]. by intros ? [= <-].
  - intros o Ho. rewrite list_lookup_insert_ne by lia. apply Hnone. lia.
  - split_and!; [done..|]. rewrite Hp, list_pages_set by (apply Hnone; lia). simpl.
    rewrite pages_of_split by (by eapply block_ok_page). by rewrite (assoc_L (++)).
Qed.

Definition buddy_ok (b : Buddy) : Prop := lists_ok (free_lists b).
Definition free_page_list (b : Buddy) : list Z := list_pages 0 (free_lists b).

Lemma alloc_loop_spec order o n b :
  buddy_ok b → (order ≤ o)%nat → (o + n = MAX_ORDER)%nat →
  (∀ o', (order ≤ o' < o)%nat → free_lists b !! o' = Some None) →
  match alloc_loop order o n b with
  | (Some a, b') =>
      block_ok a order ∧ buddy_ok b' ∧ total_pages b' = total_pages b ∧
      free_pages b' = wsub (free_pages b) (2 ^ Z.of_nat order) ∧
      pages_of a order ++ free_page_list b' ≡ₚ free_page_list b
  | (None, b') =>
      b' = b ∧ ∀ o', (order ≤ o' < MAX_ORDER)%nat → free_lists b !! o' = Some None
  end.
Proof.
  revert o. induction n as [|n IH]; intros o Hb Hle Hn Hnone; simpl.
  { split; [done|]. intros o' Ho'. apply Hnone. lia. }
  destruct (lists_ok_lookup _ o Hb ltac:(lia)) as [[a|] Ho]; rewrite Ho; simpl.
  - assert (block_ok a (order + (o - order))) as Ha.
    { replace (order + (o - order))%nat with o by lia. by apply Hb. }
    destruct (split_loop_spec a order (o - order) (<[o := None]> (free_lists b)))
      as (Hblk & Hok & Hp).
    + by apply lists_ok_insert.
    + done.
    + lia.
    + intros o' Ho'. rewrite list_lookup_insert_ne by lia. apply Hnone. lia.
    + unfold buddy_ok, free_page_list. simpl. rewrite Z.shiftl_1_l.
      split_and!; [done..|]. rewrite Hp.
      replace (order + (o - order))%nat with o by lia. by apply list_pages_take.
  - apply IH; [done|lia|lia|]. intros o' Ho'.
    destruct (decide (o' = o)) as [->|]; [done|]. apply Hnone. lia.
Qed.

Lemma buddy_alloc_run order b : (order < MAX_ORDER)%nat →
  buddy_alloc order b = Ret (alloc_loop order order (MAX_ORDER - order) b).
Proof.
  intros Ho. unfold buddy_alloc, st_assert. by rewrite (proj2 (Nat.ltb_lt _ _) Ho).
Qed.

Lemma buddy_alloc_ok order b r b' :
  buddy_ok b → buddy_alloc order b = Ret (r, b') →
  (order < MAX_ORDER)%nat ∧ buddy_ok b' ∧
  match r with
  | Some a => block_ok a order ∧ pages_of a order ++ free_page_list b' ≡ₚ free_page_list b
  | None => b' = b
  end.
Proof.
  intros Hb Hr. destruct (decide (order < MAX_ORDER)%nat) as [Ho|Ho].
  - rewrite buddy_alloc_run in Hr by done. split; [done|].
    pose proof (alloc_loop_spec order order (MAX_ORDER - order) b Hb ltac:(lia) ltac:(lia)
      ltac:(lia)) as Hs.
    destruct (alloc_loop _ _ _ _) as [[a|] b'']; simplify_eq; naive_solver.
  - unfold buddy_alloc, st_assert in Hr. by rewrite (proj2 (Nat.ltb_nlt _ _) Ho) in Hr.
Qed.

(** ** Freeing *)

Lemma block_merge a o : block_ok a o →
  let buddy := Z.lxor a (block_bytes o) in
  block_ok buddy o →
  block_ok (Z.min a buddy) (S o) ∧
  pages_of (Z.min a buddy) (S o) ≡ₚ pages_of a o ++ pages_of buddy o.
Proof.
  intros Ha. pose proof Ha as (H0 & Hm & Hle). rewrite block_bytes_pow2. intros buddy Hb.
  assert (2 ^ (12 + Z.of_nat o) = PAGE_SIZE * 2 ^ Z.of_nat o) as Hsz.
  { by rewrite Z.pow_add_r by lia. }
  pose proof (pow2_pos o). assert (PAGE_SIZE = 4096) as HP by done.
  pose proof (lxor_pow2 a (12 + Z.of_nat o) H0 ltac:(lia)) as Hx. fold buddy in Hx.
  rewrite Hsz in Hx. rewrite <- Hsz in Hm.
  pose proof (testbit_mod_pow2 a (12 + Z.of_nat o) ltac:(lia) Hm) as Ht.
  rewrite Z.pow_add_r, Hsz in Ht by lia.
  unfold block_ok. rewrite pow2_S.
  replace (PAGE_SIZE * (2 * 2 ^ Z.of_nat o)) with (PAGE_SIZE * 2 ^ Z.of_nat o * 2^1) by lia.
  destruct (Z.testbit a _).
  - rewrite Z.min_r by lia. pose proof Hb as (Hb0 & _ & _). split.
    + split_and!; [done| |lia]. rewrite Hx.
      rewrite Zminus_mod, Ht, (Z.mod_small (PAGE_SIZE * _)), Z.sub_diag by lia. done.
    + rewrite pages_of_split.
      * rewrite Hx at 2. replace (a - _ + _) with a by lia. apply Permutation_app_comm.
      * by eapply block_ok_page.
  - rewrite Z.min_l by lia. split; [destruct Hb as (_ & _ & ?); split_and!; [done..|lia]|].
    rewrite pages_of_split by (by eapply block_ok_page). by rewrite Hx.
Qed.

(** [lost] holds the pages of the list head that [free] overwrites. *)
Definition overwritten (lists : list (option Z)) (lost : list Z) : Prop :=
  lost = [] ∨ ∃ o a, lists !! o = Some (Some a) ∧ lost = pages_of a o.

Lemma free_put_spec a o lists : lists_ok lists → block_ok a o → (o < MAX_ORDER)%nat →
  lists_ok (<[o := Some a]> lists) ∧
  ∃ lost, overwritten lists lost ∧
    lost ++ list_pages 0 (<[o := Some a]> lists) ≡ₚ pages_of a o ++ list_pages 0 lists.
Proof.
  intros Hl Ha Ho. split; [apply lists_ok_insert; [done|]; by intros ? [= <-]|].
  destruct (lists_ok_lookup _ o Hl Ho) as [h Hh]. exists (head_pages o h). split.
  - destruct h as [x|]; [right; by exists o, x|by left].
  - pose proof (list_pages_insert 0 lists o h (Some a) Hh) as Hp. simpl in Hp.
    rewrite (Permutation_app_comm (head_pages o h)), Hp. apply Permutation_app_comm.
Qed.

Lemma free_loop_spec n a o lists :
  lists_ok lists → block_ok a o → (o + n = MAX_ORDER - 1)%nat →
  lists_ok (free_loop n a o lists) ∧
  ∃ lost, overwritten lists lost ∧
    lost ++ list_pages 0 (free_loop n a o lists) ≡ₚ pages_of a o ++ list_pages 0 lists.
Proof.
  revert a o lists. induction n as [|n IH]; intros a o lists Hl Ha Ho; simpl.
  { apply free_put_spec; [done..|]. unfold MAX_ORDER in *. lia. }
  case_decide as Hd; [|apply free_put_spec; [done..|unfold MAX_ORDER in *; lia]].
  destruct (lists !! o) as [h|] eqn:Hh; simpl in Hd; [subst h|done].
  destruct (block_merge a o Ha) as [Hm Hmp]; [by apply Hl|].
  assert (lists_ok (<[o := None]> lists)) as Hl' by (by apply lists_ok_insert).
  destruct (IH _ (S o) _ Hl' Hm ltac:(lia)) as (Hok & lost & Hlost & Hp).
  split; [done|]. exists lost. split.
  - destruct Hlost as [->|(o' & x & Hx & ->)]; [by left|right].
    apply insert_lookup_cases in Hx as [(_ & ? & _)|[_ Hx]]; [done|]. by exists o', x.
  - rewrite Hp, Hmp. rewrite <- (assoc_L (++)). f_equiv. by apply list_pages_take.
Qed.

Lemma buddy_free_ok a order b :
  buddy_ok b → block_ok a order → (order < MAX_ORDER)%nat →
  ∃ b' lost, buddy_free a order b = Ret (tt, b') ∧ buddy_ok b' ∧
    total_pages b' = total_pages b ∧
    free_pages b' = wadd (free_pages b) (2 ^ Z.of_nat order) ∧
    overwritten (free_lists b) lost ∧
    lost ++ free_page_list b' ≡ₚ pages_of a order ++ free_page_list b.
Proof.
  intros Hb Ha Ho. unfold buddy_free, st_assert. rewrite (proj2 (Nat.ltb_lt _ _) Ho).
  destruct (free_loop_spec (MAX_ORDER - 1 - order) a order (free_lists b) Hb Ha
    ltac:(unfold MAX_ORDER in *; lia)) as (Hok & lost & Hlost & Hp).
  eexists _, lost. split; [reflexivity|]. simpl. by rewrite Z.shiftl_1_l.
Qed.

(** ** Start-up releases the available regions *)

Lemma trailing_zeros_mod z o : 0 ≤ z → (o ≤ trailing_zeros z)%nat → z mod 2 ^ Z.of_nat o = 0.
Proof.
  intros Hz Ho. destruct (decide (z = 0)) as [->|Hne]; [by apply Z.mod_0_l, Z.pow_nonzero; lia|].
  apply (mod_mul_divide _ _ (2 ^ Z.of_nat (trailing_zeros z - o))); [apply pow2_pos..|].
  rewrite <- Z.pow_add_r by lia.
  replace (Z.of_nat o + Z.of_nat (trailing_zeros z - o)) with (Z.of_nat (trailing_zeros z)) by lia.
  apply trailing_zeros_divide. lia.
Qed.

Lemma release_order_spec addr end_ :
  0 ≤ addr < end_ → end_ ≤ 2^64 - 1 → addr mod PAGE_SIZE = 0 → end_ mod PAGE_SIZE = 0 →
  let o := release_order addr end_ in
  (o < MAX_ORDER)%nat ∧ block_ok addr o ∧ addr + PAGE_SIZE * 2 ^ Z.of_nat o ≤ end_.
Proof.
  intros Ha He Hma Hme o. assert (PAGE_SIZE = 4096) as HP by done.
  pose proof (Z.div_mod addr PAGE_SIZE ltac:(lia)) as Hda.
  pose proof (Z.div_mod end_ PAGE_SIZE ltac:(lia)) as Hde.
  set (rem := (end_ - addr) / PAGE_SIZE).
  assert (end_ = addr + PAGE_SIZE * rem ∧ 0 < rem) as [Hend Hrem].
  { assert (end_ - addr = (end_ / PAGE_SIZE - addr / PAGE_SIZE) * PAGE_SIZE) as Hd by lia.
    assert (rem = end_ / PAGE_SIZE - addr / PAGE_SIZE) as ->; [|lia].
    unfold rem. by rewrite Hd, Z.div_mul by lia. }
  assert (Z.log2 rem < 64) as Hlog.
  { apply Z.log2_lt_pow2; [done|]. nia. }
  pose proof (Z.log2_nonneg rem).
  assert (o ≤ Z.to_nat (Z.log2 rem) ∧ o ≤ trailing_zeros (addr / PAGE_SIZE) ∧ o ≤ 10)%nat
    as (Ho1 & Ho2 & Ho3).
  { unfold o, release_order. rewrite (wsub_small end_ addr) by lia. fold rem.
    unfold leading_zeros. rewrite (proj2 (Z.eqb_neq rem 0)) by lia.
    rewrite wsub_small by lia. replace (64 - 1 - (63 - Z.log2 rem)) with (Z.log2 rem) by lia.
    unfold MAX_ORDER. lia. }
  assert (2 ^ Z.of_nat o ≤ rem) as Hle.
  { etrans; [|by apply (Z.log2_spec rem)]. apply Z.pow_le_mono_r; lia. }
  split; [unfold MAX_ORDER; lia|]. split; [|nia]. split_and!; [lia| |nia].
  rewrite Hda, Hma, Z.add_0_r, Z.mul_mod_distr_l by (try (pose proof (pow2_pos o)); lia).
  rewrite trailing_zeros_mod; [lia|apply Z.div_pos; lia|done].
Qed.

(** The pages between two page-aligned addresses. *)
Definition range_pages (start end_ : Z) : list Z :=
  seqZ (start / PAGE_SIZE) ((end_ - start) / PAGE_SIZE).

Lemma range_pages_cons addr o end_ :
  block_ok addr o → addr + PAGE_SIZE * 2 ^ Z.of_nat o ≤ end_ →
  range_pages addr end_ =
    pages_of addr o ++ range_pages (addr + PAGE_SIZE * 2 ^ Z.of_nat o) end_.
Proof.
  intros Hb Hle. pose proof (pow2_pos o). assert (PAGE_SIZE = 4096) as HP by done.
  unfold range_pages, pages_of. rewrite (Z.mul_comm PAGE_SIZE), Z.div_add by lia.
  replace (end_ - (addr + 2 ^ Z.of_nat o * PAGE_SIZE))
    with (end_ - addr + (- 2 ^ Z.of_nat o) * PAGE_SIZE) by lia.
  rewrite Z.div_add by lia.
  assert (2 ^ Z.of_nat o ≤ (end_ - addr) / PAGE_SIZE).
  { apply Z.div_le_lower_bound; lia. }
  rewrite <- seqZ_app by lia. f_equal. lia.
Qed.

(** The effect of freeing pages that were in no list: [n] pages more are
    counted as free, and the lists hold them, except those lost. *)
Definition released (pages : list Z) (b b' : Buddy) : Prop :=
  buddy_ok b' ∧ fits 64 (free_pages b') ∧
  free_pages b' = u64 (free_pages b + Z.of_nat (length pages)) ∧
  ∃ lost, lost ++ free_page_list b' ≡ₚ pages ++ free_page_list b.

Lemma released_nil b : buddy_ok b → fits 64 (free_pages b) → released [] b b.
Proof.
  intros Hb Hf. split_and!; [done..| |by exists []].
  simpl. rewrite Z.add_0_r. symmetry. by apply u64_small.
Qed.

Lemma released_app p1 p2 b1 b2 b3 :
  released p1 b1 b2 → released p2 b2 b3 → released (p1 ++ p2) b1 b3.
Proof.
  intros (_ & _ & Hf1 & l1 & Hl1) (Hb & Hfit & Hf2 & l2 & Hl2). split_and!; [done..| |].
  - rewrite Hf2, Hf1, length_app. unfold u64. rewrite Z.add_mod_idemp_l by lia. f_equal. lia.
  - exists (l1 ++ l2). rewrite <- !(assoc_L (++)), Hl2.
    rewrite (Permutation_app_comm p1 (_ ++ _)), <- (assoc_L (++)).
    rewrite (Permutation_app_comm (free_page_list b1)), <- Hl1. solve_Permutation.
Qed.

Lemma buddy_free_released a o b : buddy_ok b → block_ok a o → (o < MAX_ORDER)%nat →
  ∃ b', buddy_free a o b = Ret (tt, b') ∧ total_pages b' = total_pages b ∧
    released (pages_of a o) b b'.
Proof.
  intros Hb Ha Ho.
  destruct (buddy_free_ok a o b Hb Ha Ho) as (b' & lost & Hr & Hb' & Ht & Hf & _ & Hp).
  exists b'. split_and!; [done..|]. unfold released. rewrite Hf, length_pages_of.
  rewrite Z2Nat.id by (pose proof (pow2_pos o); lia).
  split_and!; [done|apply wadd_range|done|by exists lost].
Qed.

Lemma release_loop_spec fuel addr end_ b :
  0 ≤ addr ≤ end_ → end_ ≤ 2^64 - 1 → addr mod PAGE_SIZE = 0 → end_ mod PAGE_SIZE = 0 →
  end_ - addr ≤ PAGE_SIZE * Z.of_nat fuel → buddy_ok b → fits 64 (free_pages b) →
  wp (release_loop fuel addr end_) (λ _, released (range_pages addr end_) b) b.
Proof.
  assert (PAGE_SIZE = 4096) as HP by done.
  revert addr b. induction fuel as [|fuel IH]; intros addr b Ha He Hma Hme Hfuel Hb Hf; simpl;
    destruct (Z.ltb_spec addr end_) as [Hlt|Hge]; [lia| | |].
  1, 3: assert (addr = end_) as -> by lia; apply wp_ret; unfold range_pages;
    rewrite Z.sub_diag; by apply released_nil.
  destruct (release_order_spec addr end_) as (Ho & Hblk & Hle); [lia..|done|done|].
  set (o := release_order addr end_) in *. pose proof (pow2_pos o).
  apply wp_bind. destruct (buddy_free_released addr o b Hb Hblk Ho) as (b' & Hr & _ & Hrel).
  unfold wp at 1. rewrite Hr. rewrite block_bytes_eq, wadd_small by lia.
  pose proof Hrel as (Hb' & Hf' & _).
  eapply wp_mono; [apply IH|]; [lia|done| |done|nia|done..|].
  - rewrite (Z.mul_comm PAGE_SIZE), Z.mod_add by lia. done.
  - intros [] b'' Hrel'. rewrite (range_pages_cons addr o) by done.
    by eapply released_app.
Qed.

(** The pages of a region that start-up releases. *)
Definition region_pages (r : MemoryRegion) : list Z :=
  match kind r with
  | Available =>
      range_pages (align_up (base r) (block_bytes (MAX_ORDER - 1)))
                  (align_down (base r + length_ r) PAGE_SIZE)
  | _ => []
  end.

(** A region that ends below the last 4 MiB of the address space. *)
Definition region_ok (r : MemoryRegion) : Prop :=
  0 ≤ base r ∧ 0 ≤ length_ r ∧ base r + length_ r ≤ 2^64 - 2^22.

Lemma init_region_spec r b :
  region_ok r → buddy_ok b → fits 64 (free_pages b) →
  wp (init_region r) (λ _, released (region_pages r) b) b.
Proof.
  intros (Hb0 & Hl0 & Hr) Hb Hf. unfold init_region, region_pages.
  destruct (kind r); try (apply wp_ret; by apply released_nil).
  assert (PAGE_SIZE = 2^12) as HP by done.
  assert (block_bytes (MAX_ORDER - 1) = 2^22) as -> by done.
  rewrite HP, (wadd_small (base r)), align_up_spec, align_down_spec by (unfold fits; lia).
  set (start := base r + 2^22 - 1 - _). set (end_ := base r + length_ r - _).
  assert (start mod 2^12 = 0 ∧ 0 ≤ start) as [Hs Hs0].
  { unfold start. set (x := base r + 2^22 - 1). pose proof (Z.div_mod x (2^22) ltac:(lia)).
    pose proof (Z.mod_pos_bound x (2^22) ltac:(lia)).
    replace (x - x mod 2^22) with (x / 2^22 * 2^10 * 2^12) by lia.
    rewrite Z.mod_mul by lia. split; [done|]. assert (0 ≤ x / 2^22) by (apply Z.div_pos; lia). lia. }
  assert (end_ mod 2^12 = 0 ∧ end_ ≤ 2^64 - 1) as [He He1].
  { unfold end_. set (x := base r + length_ r). pose proof (Z.div_mod x (2^12) ltac:(lia)).
    pose proof (Z.mod_pos_bound x (2^12) ltac:(lia)).
    replace (x - x mod 2^12) with (x / 2^12 * 2^12) by lia. rewrite Z.mod_mul by lia. lia. }
  destruct (Z.leb_spec end_ start) as [Hle|Hlt].
  - apply wp_ret. unfold range_pages. rewrite seqZ_nil; [by apply released_nil|].
    apply Z.div_le_upper_bound; [done|]. lia.
  - apply release_loop_spec; try done; [lia|].
    assert (end_ - start = PAGE_SIZE * ((end_ - start) / PAGE_SIZE)) as Hd.
    { apply Z.div_exact; [done|]. by rewrite HP, Zminus_mod, Hs, He. }
    rewrite HP in *. rewrite Z2Nat.id; [lia|]. apply Z.div_pos; lia.
Qed.
