(* ===== verification/BuddySpec.v ===== *)
(** * What the page allocator promises

    Histories of allocations and frees in which a client frees only blocks it
    holds: pages are conserved and the blocks handed out never overlap.  A free
    right after an allocation restores the lists.  Two limits: a free can lose
    a block, and start-up keeps only the last maximal block of a region. *)

From stdpp Require Import base list option numbers relations.
From Stdlib Require Import ZArith Lia.
From S2P Require Import Prelude Words CyLib Buddy.

Local Open Scope Z_scope.

(** ** Histories *)

(** The allocator and the blocks its clients hold. *)
Abbreviation bstate := (Buddy * list (Z * nat))%type.

Inductive buddy_step : bstate → bstate → Prop :=
  | BsAlloc b live order a b' :
      buddy_alloc order b = Ret (Some a, b') →
      buddy_step (b, live) (b', (a, order) :: live)
  | BsFail b live order b' :
      buddy_alloc order b = Ret (None, b') →
      buddy_step (b, live) (b', live)
  | BsFree b live a order live' b' :
      live ≡ₚ (a, order) :: live' →
      buddy_free a order b = Ret (tt, b') →
      buddy_step (b, live) (b', live').

Definition live_pages (live : list (Z * nat)) : list Z :=
  concat ((λ '(a, o), pages_of a o) <$> live).

#[global] Arguments live_pages : simpl never.

Lemma live_pages_cons a o live : live_pages ((a, o) :: live) = pages_of a o ++ live_pages live.
Proof. done. Qed.

(** Of the pages [M], each is free, held or lost. *)
Definition conserved (M : list Z) (s : bstate) : Prop :=
  buddy_ok (fst s) ∧
  Forall (λ '(a, o), block_ok a o ∧ (o < MAX_ORDER)%nat) (snd s) ∧
  ∃ lost, lost ++ free_page_list (fst s) ++ live_pages (snd s) ≡ₚ M.

#[export] Instance live_pages_Proper : Proper ((≡ₚ) ==> (≡ₚ)) live_pages.
Proof. intros l1 l2 Hl. unfold live_pages. by rewrite Hl. Qed.

Lemma conserved_step M s s' : conserved M s → buddy_step s s' → conserved M s'.
Proof.
  intros (Hb & Hlive & lost & HM) Hstep.
  destruct Hstep as [b live order a b' Ha|b live order b' Ha|b live a order live' b' Hl Ha];
    simpl in *.
  - destruct (buddy_alloc_ok _ _ _ _ Hb Ha) as (Ho & Hb' & Hblk & Hp).
    split_and!; [done|by constructor|]. exists lost. simpl. rewrite <- HM, <- Hp.
    rewrite live_pages_cons. solve_Permutation.
  - destruct (buddy_alloc_ok _ _ _ _ Hb Ha) as (_ & _ & ->).
    split_and!; [done..|]. by exists lost.
  - rewrite Hl in Hlive. apply Forall_cons in Hlive as [[Hblk Ho] Hlive'].
    destruct (buddy_free_ok a order b Hb Hblk Ho) as (b'' & lost' & Hr & Hb' & _ & _ & _ & Hp).
    rewrite Ha in Hr. simplify_eq. split_and!; [done..|]. exists (lost' ++ lost). simpl.
    rewrite <- HM, Hl, live_pages_cons.
    transitivity (lost ++ (lost' ++ free_page_list b'') ++ live_pages live');
      [solve_Permutation|]. rewrite Hp. solve_Permutation.
Qed.

Lemma conserved_steps M s s' : conserved M s → rtc buddy_step s s' → conserved M s'.
Proof. intros Hc Hs. induction Hs; eauto using conserved_step. Qed.

Definition blocks_disjoint (x y : Z * nat) : Prop :=
  fst x + block_bytes (snd x) ≤ fst y ∨ fst y + block_bytes (snd y) ≤ fst x.

Lemma pages_of_elem a o p :
  p ∈ pages_of a o ↔ a / PAGE_SIZE ≤ p < a / PAGE_SIZE + 2 ^ Z.of_nat o.
Proof. apply elem_of_seqZ. Qed.

Lemma pages_disjoint_blocks a1 o1 a2 o2 :
  block_ok a1 o1 → block_ok a2 o2 → pages_of a1 o1 ## pages_of a2 o2 →
  blocks_disjoint (a1, o1) (a2, o2).
Proof.
  intros H1 H2 Hd. unfold blocks_disjoint. simpl. rewrite !block_bytes_eq.
  pose proof (block_ok_page _ _ H1) as P1. pose proof (block_ok_page _ _ H2) as P2.
  pose proof (pow2_pos o1). pose proof (pow2_pos o2). assert (PAGE_SIZE = 4096) as HP by done.
  pose proof (Z.div_mod a1 PAGE_SIZE ltac:(lia)). pose proof (Z.div_mod a2 PAGE_SIZE ltac:(lia)).
  destruct (Z.le_gt_cases (a1 / PAGE_SIZE + 2 ^ Z.of_nat o1) (a2 / PAGE_SIZE)); [left; nia|].
  destruct (Z.le_gt_cases (a2 / PAGE_SIZE + 2 ^ Z.of_nat o2) (a1 / PAGE_SIZE)); [right; nia|].
  exfalso. apply (Hd (Z.max (a1 / PAGE_SIZE) (a2 / PAGE_SIZE))); apply pages_of_elem; lia.
Qed.

Lemma live_pages_elem live a o p : (a, o) ∈ live → p ∈ pages_of a o → p ∈ live_pages live.
Proof.
  intros Hin Hp. unfold live_pages. apply list_elem_of_In, in_concat.
  exists (pages_of a o). rewrite <- !list_elem_of_In. split; [|done].
  apply list_elem_of_fmap. by exists (a, o).
Qed.

Lemma live_pages_disjoint live i j x y :
  NoDup (live_pages live) → live !! i = Some x → live !! j = Some y → i ≠ j →
  pages_of (fst x) (snd x) ## pages_of (fst y) (snd y).
Proof.
  revert i j. induction live as [|[a o] live IH]; intros i j Hnd Hx Hy Hne; [done|].
  rewrite live_pages_cons in Hnd.
  apply NoDup_app in Hnd as (_ & Hd & Hnd).
  destruct i as [|i], j as [|j]; simpl in *; simplify_eq/=; [| |apply (IH i j); [done..|lia]].
  - destruct y as [a' o']. intros p Hp Hp'. apply (Hd p Hp). eapply live_pages_elem; [|exact Hp'].
    by eapply list_elem_of_lookup_2.
  - destruct x as [a' o']. intros p Hp Hp'. apply (Hd p Hp'). eapply live_pages_elem; [|exact Hp].
    by eapply list_elem_of_lookup_2.
Qed.

Lemma init_regions_spec regions b :
  Forall region_ok regions → buddy_ok b → fits 64 (free_pages b) →
  wp (for_each regions init_region) (λ _, released (concat (region_pages <$> regions)) b) b.
Proof.
  revert b. induction regions as [|r regions IH]; intros b Hr Hb Hf; simpl.
  { by apply wp_ret, released_nil. }
  apply Forall_cons in Hr as [Hr0 Hr]. apply wp_bind.
  eapply wp_mono; [by apply init_region_spec|]. intros [] b1 Hrel. pose proof Hrel as (Hb1 & Hf1 & _).
  eapply wp_mono; [by apply IH|]. intros [] b2 Hrel2. by eapply released_app.
Qed.

Lemma Buddy_init_ok : buddy_ok Buddy_init.
Proof.
  split; [done|]. intros o a Ho%lookup_replicate_Some. done.
Qed.

Lemma init_from_map_spec regions : Forall region_ok regions →
  ∃ b, init_from_map regions Buddy_init = Ret (tt, b) ∧
    total_pages b = free_pages b ∧
    released (concat (region_pages <$> regions)) Buddy_init b.
Proof.
  intros Hr. pose proof (init_regions_spec regions Buddy_init Hr Buddy_init_ok) as Hw.
  unfold wp in Hw. unfold init_from_map, mbind, st_bind.
  destruct (for_each regions init_region Buddy_init) as [[[] b]|]; [|by destruct Hw].
  eexists. split; [reflexivity|]. split; [done|]. by apply Hw.
Qed.

Lemma conserved_init regions b : Forall region_ok regions →
  init_from_map regions Buddy_init = Ret (tt, b) →
  conserved (concat (region_pages <$> regions)) (b, []).
Proof.
  intros Hr Hi. destruct (init_from_map_spec regions Hr) as (b' & Hi' & _ & Hb & _ & _ & lost & Hl).
  rewrite Hi in Hi'. simplify_eq. split_and!; [done|by constructor|]. exists lost.
  simpl. change (live_pages []) with (@nil Z). rewrite (right_id_L [] (++)), Hl.
  assert (free_page_list Buddy_init = []) as -> by reflexivity.
  by rewrite (right_id_L [] (++)).
Qed.

(** C5: Memory handed out is never shared.  After start-up on a memory map
    whose available regions do not overlap, and after any history of
    allocations and frees of held blocks, two different held blocks have
    disjoint address ranges, and every page of a held block lies in an
    available region of the map. *)
Theorem buddy_blocks_disjoint regions b0 b live i j x y :
  Forall region_ok regions → NoDup (concat (region_pages <$> regions)) →
  init_from_map regions Buddy_init = Ret (tt, b0) →
  rtc buddy_step (b0, []) (b, live) →
  live !! i = Some x → live !! j = Some y → i ≠ j →
  blocks_disjoint x y ∧
  ∀ p, p ∈ pages_of (fst x) (snd x) → ∃ r, r ∈ regions ∧ p ∈ region_pages r.
Proof.
  intros Hr Hnd Hi Hs Hx Hy Hne.
  destruct (conserved_steps _ _ _ (conserved_init _ _ Hr Hi) Hs) as (_ & Hlive & lost & HM).
  simpl in *. rewrite <- HM in Hnd. apply NoDup_app in Hnd as (_ & _ & Hnd).
  apply NoDup_app in Hnd as (_ & _ & Hnd).
  pose proof (Forall_lookup_1 _ _ _ _ Hlive Hx) as Hbx.
  pose proof (Forall_lookup_1 _ _ _ _ Hlive Hy) as Hby.
  pose proof (live_pages_disjoint live i j x y Hnd Hx Hy Hne) as Hd.
  destruct x as [a1 o1], y as [a2 o2]. split.
  - apply pages_disjoint_blocks; [apply Hbx|apply Hby|done].
  - intros p Hp. apply list_elem_of_lookup_2 in Hx.
    assert (p ∈ concat (region_pages <$> regions)) as Hin.
    { rewrite <- HM, !elem_of_app. right; right. by eapply live_pages_elem. }
    apply list_elem_of_In, in_concat in Hin as (ps & Hps & Hin).
    apply list_elem_of_In, list_elem_of_fmap in Hps as (r & -> & Hr').
    exists r. split; [done|]. by apply list_elem_of_In.
Qed.

(** ** Freeing what was just allocated *)

(** The split loop, from the bottom up. *)
Lemma split_loop_low a order n lists :
  split_loop a order (S n) lists =
  <[order := Some (wadd a (block_bytes order))]> (split_loop a (S order) n lists).
Proof.
  revert lists. induction n as [|n IH]; intros lists; [simpl; by rewrite Nat.add_0_r|].
  change (split_loop a order (S (S n)) lists)
    with (split_loop a order (S n) (<[(order + S n)%nat := Some (wadd a (block_bytes (order + S n)))]> lists)).
  rewrite IH. simpl. by rewrite Nat.add_succ_r.
Qed.

Lemma split_loop_lookup a order n lists o :
  (o < order)%nat → split_loop a order n lists !! o = lists !! o.
Proof.
  revert lists. induction n as [|n IH]; intros lists Ho; [done|]. simpl.
  rewrite IH by done. by rewrite list_lookup_insert_ne by lia.
Qed.

Lemma length_split_loop a order n lists : length (split_loop a order n lists) = length lists.
Proof.
  revert lists. induction n as [|n IH]; intros lists; [done|]. simpl.
  by rewrite IH, length_insert.
Qed.

(** The buddy of the lower half is the upper half. *)
Lemma lower_buddy a o : block_ok a (S o) →
  Z.lxor a (block_bytes o) = wadd a (block_bytes o) ∧ a ≤ wadd a (block_bytes o).
Proof.
  intros Ha. destruct (block_ok_halves _ _ Ha) as [(H0 & Hm & _) (_ & _ & Hhi)].
  pose proof (pow2_pos o). assert (PAGE_SIZE = 4096) by done.
  rewrite wadd_small by (rewrite block_bytes_eq; lia). split; [|rewrite block_bytes_eq; lia].
  destruct Ha as (_ & Ha & _). rewrite <- block_bytes_eq, block_bytes_pow2 in Hm, Ha.
  rewrite block_bytes_pow2, lxor_pow2 by lia.
  pose proof (testbit_mod_pow2 a (12 + Z.of_nat o) ltac:(lia) Hm) as Ht.
  replace (12 + Z.of_nat o + 1) with (12 + Z.of_nat (S o)) in Ht by lia.
  rewrite Ha in Ht. destruct (Z.testbit a _); [|done].
  pose proof (Z.pow_pos_nonneg 2 (12 + Z.of_nat o) ltac:(lia) ltac:(lia)). lia.
Qed.

Lemma free_split n m a order lists :
  length lists = MAX_ORDER → (order + n < MAX_ORDER)%nat → block_ok a (order + n) →
  (∀ o, (order ≤ o ≤ order + n)%nat → lists !! o = Some None) →
  free_loop (n + m) a order (split_loop a order n lists) = <[(order + n)%nat := Some a]> lists.
Proof.
  revert order lists. induction n as [|n IH]; intros order lists Hlen Ho Ha Hnone.
  - simpl. rewrite Nat.add_0_r. destruct m as [|m]; [done|]. simpl.
    rewrite (Hnone order) by lia. by case_decide.
  - assert (block_ok a (S order)) as Ha'.
    { clear -Ha. revert Ha. replace (order + S n)%nat with (S order + n)%nat by lia.
      induction n as [|n IHn]; [by rewrite Nat.add_0_r|]. rewrite Nat.add_succ_r.
      intros [Ha _]%block_ok_halves. auto. }
    destruct (lower_buddy a order Ha') as [Hx Hle].
    rewrite split_loop_low. simpl. rewrite list_lookup_insert_eq by (rewrite length_split_loop; lia).
    simpl. rewrite decide_True by (by rewrite Hx). rewrite Hx, Z.min_l by done.
    rewrite list_insert_insert_eq, (list_insert_id _ order).
    + rewrite Nat.add_succ_r. apply (IH (S order)); [done|lia| |].
      * by replace (S order + n)%nat with (order + S n)%nat by lia.
      * intros o Hoo. apply Hnone. lia.
    + rewrite split_loop_lookup by lia. apply Hnone. lia.
Qed.

Lemma alloc_loop_inv order o n b a b' :
  (order ≤ o)%nat → (o + n = MAX_ORDER)%nat → length (free_lists b) = MAX_ORDER →
  (∀ o', (order ≤ o' < o)%nat → free_lists b !! o' = Some None) →
  alloc_loop order o n b = (Some a, b') →
  ∃ k, (order + k < MAX_ORDER)%nat ∧ free_lists b !! (order + k)%nat = Some (Some a) ∧
    (∀ o', (order ≤ o' < order + k)%nat → free_lists b !! o' = Some None) ∧
    b' = mkBuddy (split_loop a order k (<[(order + k)%nat := None]> (free_lists b)))
           (wsub (free_pages b) (2 ^ Z.of_nat order)) (total_pages b).
Proof.
  revert o. induction n as [|n IH]; intros o Hle Hn Hlen Hnone; simpl; [done|].
  destruct (lookup_lt_is_Some_2 (free_lists b) o ltac:(lia)) as [[x|] Ho]; rewrite Ho; simpl.
  - intros [= <- <-]. exists (o - order)%nat.
    replace (order + (o - order))%nat with o by lia. rewrite Z.shiftl_1_l.
    split_and!; [lia|done..].
  - apply IH; [lia..|done|]. intros o' Ho'. destruct (decide (o' = o)) as [->|]; [done|].
    apply Hnone. lia.
Qed.

(** Freeing the block that was just allocated brings the allocator back
    to exactly the state before the allocation: all splits are merged again
    and the count of free pages is the same. *)
Theorem buddy_alloc_free_roundtrip order b a b' :
  buddy_ok b → fits 64 (free_pages b) → buddy_alloc order b = Ret (Some a, b') →
  buddy_free a order b' = Ret (tt, b).
Proof.
  intros Hb Hf Ha. destruct (buddy_alloc_ok _ _ _ _ Hb Ha) as (Ho & _).
  rewrite buddy_alloc_run in Ha by done. injection Ha as Ha. pose proof Hb as [Hlen Hblk].
  apply alloc_loop_inv in Ha as (k & Hk & Hlook & Hnone & ->); [|lia..|done|lia].
  unfold buddy_free, st_assert. rewrite (proj2 (Nat.ltb_lt _ _) Ho).
  unfold mbind, st_bind, mret, st_ret, st_modify.
  cbn [free_lists free_pages total_pages].
  replace (MAX_ORDER - 1 - order)%nat with (k + (MAX_ORDER - 1 - order - k))%nat
    by (unfold MAX_ORDER in *; lia).
  rewrite free_split.
  - rewrite list_insert_insert_eq, list_insert_id by done.
    assert (wadd (wsub (free_pages b) (2 ^ Z.of_nat order)) (Z.shiftl 1 (Z.of_nat order)) =
            free_pages b) as ->; [|by destruct b].
    rewrite Z.shiftl_1_l. unfold wadd, wsub, u64. rewrite Z.add_mod_idemp_l by lia.
    rewrite Z.sub_add. by apply Z.mod_small.
  - by rewrite length_insert.
  - done.
  - by apply Hblk.
  - intros o' Ho'. destruct (decide (o' = order + k)%nat) as [->|].
    + apply list_lookup_insert_eq. lia.
    + rewrite list_lookup_insert_ne by lia. apply Hnone. lia.
Qed.

(** ** Blocks that start-up loses *)

Lemma trailing_zeros_ge z k : 0 < z → z mod 2 ^ Z.of_nat k = 0 → (k ≤ trailing_zeros z)%nat.
Proof.
  intros Hz Hm. destruct (trailing_zeros_spec z Hz) as [Hb _].
  destruct (decide (k ≤ trailing_zeros z)%nat) as [|Hlt]; [done|]. exfalso.
  apply Z.mod_divide in Hm as [q ->]; [|pose proof (pow2_pos k); lia].
  rewrite Z.mul_pow2_bits_low in Hb by lia. done.
Qed.

Lemma release_order_max addr end_ :
  0 ≤ addr → end_ ≤ 2^64 - 1 → addr mod 2^22 = 0 → addr + 2^22 ≤ end_ →
  release_order addr end_ = (MAX_ORDER - 1)%nat.
Proof.
  intros Ha He Hm Hle. assert (PAGE_SIZE = 4096) as HP by done.
  assert (10 ≤ trailing_zeros (addr / PAGE_SIZE))%nat as Htz.
  { destruct (decide (addr = 0)) as [->|Hne]; [simpl; lia|].
    apply Z.mod_divide in Hm as [q ->]; [|lia].
    replace (q * 2^22 / PAGE_SIZE) with (q * 2^10).
    - apply trailing_zeros_ge; [lia|]. by apply Z.mod_mul.
    - rewrite HP. replace (q * 2^22) with (q * 2^10 * 4096) by lia. by rewrite Z.div_mul. }
  unfold release_order. rewrite (wsub_small end_ addr) by lia.
  assert (2^10 ≤ (end_ - addr) / PAGE_SIZE) as Hrem by (apply Z.div_le_lower_bound; lia).
  set (rem := (end_ - addr) / PAGE_SIZE) in *.
  assert (rem < 2^64) by (apply Z.div_lt_upper_bound; lia).
  assert (10 ≤ Z.log2 rem < 64) as Hlog.
  { split; [change 10 with (Z.log2 (2^10)); by apply Z.log2_le_mono|].
    apply Z.log2_lt_pow2; [lia|done]. }
  unfold leading_zeros. rewrite (proj2 (Z.eqb_neq rem 0)) by lia.
  rewrite wsub_small by lia. unfold MAX_ORDER. lia.
Qed.

(** The loop over [n + 1] maximal blocks keeps the last one. *)
Lemma release_loop_max n fuel k b :
  0 ≤ k → 2^22 * (k + Z.of_nat (S n)) ≤ 2^64 - 1 → (n < fuel)%nat →
  length (free_lists b) = MAX_ORDER →
  release_loop fuel (2^22 * k) (2^22 * (k + Z.of_nat (S n))) b =
    Ret (tt, mkBuddy (<[(MAX_ORDER - 1)%nat := Some (2^22 * (k + Z.of_nat n))]> (free_lists b))
               (u64 (free_pages b + 2^10 * Z.of_nat (S n))) (total_pages b)).
Proof.
  revert fuel k b. induction n as [|n IH]; intros fuel k b Hk Hle Hfuel Hlen;
    (destruct fuel as [|fuel]; [lia|]); cbn [release_loop];
    rewrite (proj2 (Z.ltb_lt _ _)) by lia;
    rewrite release_order_max by (try (rewrite Z.mul_comm, Z.mod_mul); lia);
    unfold buddy_free, st_assert, mbind, st_bind, mret, st_ret, st_modify;
    change (MAX_ORDER - 1 <? MAX_ORDER)%nat with true; cbv iota beta;
    change (block_bytes (MAX_ORDER - 1)) with (2^22); rewrite wadd_small by lia;
    change (MAX_ORDER - 1 - (MAX_ORDER - 1))%nat with O; cbn [free_loop].
  - replace (2^22 * k + 2^22) with (2^22 * (k + Z.of_nat 1)) by lia.
    destruct fuel as [|fuel]; cbn [release_loop]; rewrite Z.ltb_irrefl;
      by rewrite Z.add_0_r.
  - replace (2^22 * k + 2^22) with (2^22 * (k + 1)) by lia.
    replace (k + Z.of_nat (S (S n))) with (k + 1 + Z.of_nat (S n)) by lia.
    rewrite IH; [|lia..|by simpl; rewrite length_insert]. cbn [free_lists free_pages total_pages].
    rewrite list_insert_insert_eq. change (Z.shiftl 1 (Z.of_nat (MAX_ORDER - 1))) with (2^10).
    unfold wadd, u64. rewrite Z.add_mod_idemp_l by lia.
    do 3 f_equal; [do 3 f_equal; lia|f_equal; lia].
Qed.

(** Start-up loses memory.  For a region of [n + 1] maximal (4 MiB) blocks
    the allocator counts [1024 * (n + 1)] free pages, but its lists hold only
    the last block: one allocation of that block succeeds, after which every
    allocation of every order fails although [1024 * n] pages are counted as
    free. *)
Theorem init_keeps_one_block k n :
  0 ≤ k → 2^22 * (k + Z.of_nat (S n)) ≤ 2^64 - 2^22 →
  ∃ b b', init_from_map [mkMemoryRegion (2^22 * k) (2^22 * Z.of_nat (S n)) Available]
            Buddy_init = Ret (tt, b) ∧
    free_pages b = 2^10 * Z.of_nat (S n) ∧
    buddy_alloc (MAX_ORDER - 1) b = Ret (Some (2^22 * (k + Z.of_nat n)), b') ∧
    free_pages b' = 2^10 * Z.of_nat n ∧
    ∀ order, (order < MAX_ORDER)%nat → buddy_alloc order b' = Ret (None, b').
Proof.
  intros Hk Hle. set (last := 2^22 * (k + Z.of_nat n)).
  set (fp := 2^10 * Z.of_nat (S n)).
  assert (init_region (mkMemoryRegion (2^22 * k) (2^22 * Z.of_nat (S n)) Available) Buddy_init =
    Ret (tt, mkBuddy (<[(MAX_ORDER - 1)%nat := Some last]> (replicate MAX_ORDER None)) fp 0)) as Hinit.
  { unfold init_region. cbn [kind base length_].
    change (block_bytes (MAX_ORDER - 1)) with (2^22). change PAGE_SIZE with (2^12).
    rewrite align_up_spec, wadd_small, align_down_spec by (unfold fits; lia).
    replace (2^22 * k + 2^22 - 1) with (2^22 - 1 + k * 2^22) by lia.
    rewrite Z.mod_add, (Z.mod_small (2^22 - 1)) by lia.
    replace (2^22 * k + 2^22 * Z.of_nat (S n)) with (2^10 * (k + Z.of_nat (S n)) * 2^12) by lia.
    rewrite Z.mod_mul by lia.
    replace (2^22 - 1 + k * 2^22 - (2^22 - 1)) with (2^22 * k) by lia.
    replace (2^10 * (k + Z.of_nat (S n)) * 2^12 - 0) with (2^22 * (k + Z.of_nat (S n))) by lia.
    rewrite (proj2 (Z.leb_gt _ _)) by lia.
    replace ((2^22 * (k + Z.of_nat (S n)) - 2^22 * k) / 2^12) with (2^10 * Z.of_nat (S n)).
    - rewrite release_loop_max; [|lia..|done]. cbn [free_lists free_pages total_pages Buddy_init].
      unfold fp. rewrite u64_small by lia. done.
    - apply Z.div_unique_exact; lia. }
  eexists _, (mkBuddy (replicate MAX_ORDER None) (2^10 * Z.of_nat n) fp).
  split_and!.
  - unfold init_from_map. cbn [for_each]. unfold mbind, st_bind. rewrite Hinit. reflexivity.
  - reflexivity.
  - rewrite buddy_alloc_run by (unfold MAX_ORDER; lia).
    assert (wsub fp (Z.shiftl 1 (Z.of_nat (MAX_ORDER - 1))) = 2^10 * Z.of_nat n) as <-;
      [|reflexivity].
    change (Z.shiftl 1 (Z.of_nat (MAX_ORDER - 1))) with (2^10). unfold fp.
    rewrite wsub_small; lia.
  - reflexivity.
  - intros order Ho. rewrite buddy_alloc_run by done. f_equal.
    generalize (MAX_ORDER - order)%nat. generalize order at 2.
    intros o m. revert o. induction m as [|m IH]; intros o; [done|]. cbn [alloc_loop free_lists].
    destruct (replicate MAX_ORDER None !! o) as [h|] eqn:Hh; [|apply IH].
    apply lookup_replicate_Some in Hh as ->. apply IH.
Qed.

(** ** Witnesses *)

Definition one_region : list MemoryRegion := [mkMemoryRegion 0 (2^23) Available].

Lemma buddy_blocks_disjoint_witness :
  ∃ b0 b live, init_from_map one_region Buddy_init = Ret (tt, b0) ∧
    rtc buddy_step (b0, []) (b, live) ∧ live = [(4198400, 0%nat); (4194304, 0%nat)] ∧
    blocks_disjoint (4198400, 0%nat) (4194304, 0%nat).
Proof.
  eexists _, _, _. split_and!; [vm_compute; reflexivity| | |].
  - eapply rtc_l; [apply BsAlloc with (order := 0%nat); vm_compute; reflexivity|].
    eapply rtc_l; [apply BsAlloc with (order := 0%nat); vm_compute; reflexivity|]. apply rtc_refl.
  - reflexivity.
  - eapply (buddy_blocks_disjoint one_region _ _ _ 0 1).
    + repeat constructor; simpl; lia.
    + apply (NoDup_app (region_pages (mkMemoryRegion 0 (2^23) Available)) []).
      split_and!; [apply NoDup_seqZ|set_solver|constructor].
    + vm_compute; reflexivity.
    + eapply rtc_l; [apply BsAlloc with (order := 0%nat); vm_compute; reflexivity|].
      eapply rtc_l; [apply BsAlloc with (order := 0%nat); vm_compute; reflexivity|]. apply rtc_refl.
    + reflexivity.
    + reflexivity.
    + done.
Defined.

Definition one_block : Buddy :=
  mkBuddy (<[(MAX_ORDER - 1)%nat := Some 0]> (replicate MAX_ORDER None)) 1024 1024.

Lemma buddy_alloc_free_roundtrip_witness :
  ∃ b', buddy_alloc 3 one_block = Ret (Some 0, b') ∧ buddy_free 0 3 b' = Ret (tt, one_block).
Proof.
  eexists. split; [reflexivity|]. eapply (buddy_alloc_free_roundtrip 3 one_block).
  - split; [done|]. intros o a Ho. unfold one_block in Ho. simpl in Ho.
    do 10 (destruct o as [|o]; [done|]). destruct o; [|done]. simpl in Ho. simplify_eq.
    split_and!; [lia|done|done].
  - done.
  - reflexivity.
Defined.

Lemma init_keeps_one_block_witness :
  ∃ b b', init_from_map [mkMemoryRegion (2^22 * 1) (2^22 * 4) Available] Buddy_init = Ret (tt, b) ∧
    free_pages b = 4096 ∧ free_pages b' = 3072 ∧ buddy_alloc 0 b' = Ret (None, b').
Proof.
  destruct (init_keeps_one_block 1 3) as (b & b' & Hi & Hf & _ & Hf' & Hn); [lia..|].
  exists b, b'. split_and!; [exact Hi|exact Hf|exact Hf'|]. apply Hn. unfold MAX_ORDER. lia.
Defined.
