(* ===== verification/Memory.v ===== *)
(** * Physical memory and the kernel memory state (src/mm/src/lib.rs)

    Memory is a function from addresses to bytes.  [kmem] holds what the memory
    subsystem keeps globally: the page allocator, the offset of the direct map,
    the memory itself, and the number of TLB shootdowns so far. *)

From stdpp Require Import base list option numbers.
From Stdlib Require Import ZArith Lia.
From S2P Require Import Prelude Words Buddy.

Local Open Scope Z_scope.

Abbreviation mem := (Z → Z).

Definition in_range (a n x : Z) : bool := (a <=? x) && (x <? a + n).

(** [ptr.write_bytes(v, n)] *)
Definition mem_fill (a v n : Z) (m : mem) : mem :=
  λ x, if in_range a n x then v else m x.

(** [copy_nonoverlapping(src, dst, n)] *)
Definition mem_copy (src dst n : Z) (m : mem) : mem :=
  λ x, if in_range dst n x then m (src + (x - dst)) else m x.

(** Reading and writing a slice. *)
Definition mem_read (m : mem) (a n : Z) : list Z := m <$> seqZ a n.
Definition mem_write (a : Z) (bs : list Z) (m : mem) : mem :=
  λ x, if in_range a (Z.of_nat (length bs)) x then default 0 (bs !! Z.to_nat (x - a)) else m x.

(** [(a as *const u64).read()] and [(a as *mut u64).write(v)] *)
Definition read_u64 (m : mem) (a : Z) : Z := le_decode (mem_read m a 8).
Definition write_u64 (a v : Z) (m : mem) : mem := mem_write a (le_encode 8 v) m.

Record kmem := mkKmem {
  k_buddy : Buddy;
  k_hhdm : Z;
  k_mem : mem;
  k_shootdowns : nat
}.

Definition set_buddy (b : Buddy) (k : kmem) : kmem :=
  mkKmem b (k_hhdm k) (k_mem k) (k_shootdowns k).
Definition on_mem (f : mem → mem) (k : kmem) : kmem :=
  mkKmem (k_buddy k) (k_hhdm k) (f (k_mem k)) (k_shootdowns k).

Definition phys_to_virt (phys : Z) (k : kmem) : Z := wadd phys (k_hhdm k).
Definition virt_to_phys (virt : Z) (k : kmem) : Z := wsub virt (k_hhdm k).

(** The allocator as part of the memory state. *)
Definition k_alloc (order : nat) : st kmem (option Z) := λ k,
  match buddy_alloc order (k_buddy k) with
  | Ret (r, b) => Ret (r, set_buddy b k)
  | Panic => Panic
  end.

Definition k_free (addr : Z) (order : nat) : st kmem unit := λ k,
  match buddy_free addr order (k_buddy k) with
  | Ret (_, b) => Ret (tt, set_buddy b k)
  | Panic => Panic
  end.

(** [init_with_map]; [slab::init] does nothing. *)
Definition init_with_map (regions : list MemoryRegion) (hhdm_offset : Z) : st kmem unit := λ k,
  match init_from_map regions (k_buddy k) with
  | Ret (_, b) => Ret (tt, mkKmem b hhdm_offset (k_mem k) (k_shootdowns k))
  | Panic => Panic
  end.

(** ** Reading back *)

Lemma in_range_true a n x : in_range a n x = true ↔ a ≤ x < a + n.
Proof. unfold in_range. rewrite andb_true_iff, Z.leb_le, Z.ltb_lt. done. Qed.

Lemma in_range_false a n x : in_range a n x = false ↔ ¬ (a ≤ x < a + n).
Proof. rewrite <- in_range_true. by destruct (in_range a n x). Qed.

Lemma mem_fill_out a v n m x : ¬ (a ≤ x < a + n) → mem_fill a v n m x = m x.
Proof. intros Hx. unfold mem_fill. by rewrite (proj2 (in_range_false _ _ _) Hx). Qed.

Lemma mem_fill_in a v n m x : a ≤ x < a + n → mem_fill a v n m x = v.
Proof. intros Hx. unfold mem_fill. by rewrite (proj2 (in_range_true _ _ _) Hx). Qed.

Lemma mem_copy_out src dst n m x : ¬ (dst ≤ x < dst + n) → mem_copy src dst n m x = m x.
Proof. intros Hx. unfold mem_copy. by rewrite (proj2 (in_range_false _ _ _) Hx). Qed.

Lemma mem_copy_in src dst n m x : dst ≤ x < dst + n → mem_copy src dst n m x = m (src + (x - dst)).
Proof. intros Hx. unfold mem_copy. by rewrite (proj2 (in_range_true _ _ _) Hx). Qed.

Lemma mem_write_out a bs m x : ¬ (a ≤ x < a + Z.of_nat (length bs)) → mem_write a bs m x = m x.
Proof. intros Hx. unfold mem_write. by rewrite (proj2 (in_range_false _ _ _) Hx). Qed.

Lemma mem_write_in a bs m x b :
  a ≤ x → bs !! Z.to_nat (x - a) = Some b → mem_write a bs m x = b.
Proof.
  intros Hx Hb. unfold mem_write. rewrite (proj2 (in_range_true _ _ _)).
  - by rewrite Hb.
  - apply lookup_lt_Some in Hb. lia.
Qed.

Lemma length_mem_read m a n : length (mem_read m a n) = Z.to_nat n.
Proof. unfold mem_read. by rewrite length_fmap, length_seqZ. Qed.

Lemma lookup_mem_read m a n i :
  mem_read m a n !! i = if decide (Z.of_nat i < n) then Some (m (a + Z.of_nat i)) else None.
Proof.
  unfold mem_read. rewrite list_lookup_fmap. case_decide.
  - by rewrite lookup_seqZ_lt by lia.
  - rewrite lookup_seqZ_ge by lia. done.
Qed.

Lemma mem_read_ext m m' a n :
  (∀ x, a ≤ x < a + n → m x = m' x) → mem_read m a n = mem_read m' a n.
Proof.
  intros Hx. apply list_eq. intros i. rewrite !lookup_mem_read. case_decide; [|done].
  f_equal. apply Hx. lia.
Qed.

Lemma mem_read_app m a n k : 0 ≤ n → 0 ≤ k → mem_read m a (n + k) = mem_read m a n ++ mem_read m (a + n) k.
Proof. intros Hn Hk. unfold mem_read. by rewrite seqZ_app, fmap_app by done. Qed.

Lemma mem_read_1 m a : mem_read m a 1 = [m a].
Proof. unfold mem_read. by rewrite seqZ_cons. Qed.

Lemma mem_read_write a bs m : mem_read (mem_write a bs m) a (Z.of_nat (length bs)) = bs.
Proof.
  apply list_eq. intros i. rewrite lookup_mem_read. case_decide as Hi.
  - destruct (lookup_lt_is_Some_2 bs i) as [b Hb]; [lia|]. rewrite Hb. f_equal.
    apply mem_write_in; [lia|]. by replace (Z.to_nat (a + Z.of_nat i - a)) with i by lia.
  - symmetry. apply lookup_ge_None_2. lia.
Qed.

Lemma read_write_u64 a v m : 0 ≤ v < 2^64 → read_u64 (write_u64 a v m) a = v.
Proof.
  intros Hv. unfold read_u64, write_u64.
  pose proof (mem_read_write a (le_encode 8 v) m) as Hr. rewrite length_le_encode in Hr.
  change (Z.of_nat 8) with 8 in Hr. rewrite Hr. by apply le_decode_encode.
Qed.

Lemma write_u64_out a v m x : ¬ (a ≤ x < a + 8) → write_u64 a v m x = m x.
Proof. intros Hx. apply mem_write_out. by rewrite length_le_encode. Qed.

Lemma read_u64_ext m m' a : (∀ x, a ≤ x < a + 8 → m x = m' x) → read_u64 m a = read_u64 m' a.
Proof. intros Hx. unfold read_u64. by rewrite (mem_read_ext m m'). Qed.

Lemma read_write_u64_ne a b v m : a + 8 ≤ b ∨ b + 8 ≤ a → read_u64 (write_u64 a v m) b = read_u64 m b.
Proof. intros Hd. apply read_u64_ext. intros x Hx. apply write_u64_out. lia. Qed.

(** A zeroed word reads as zero. *)
Lemma read_fill_u64 a n m b : a ≤ b → b + 8 ≤ a + n → read_u64 (mem_fill a 0 n m) b = 0.
Proof.
  intros Ha Hb. transitivity (read_u64 (λ _, 0) b); [|done].
  apply read_u64_ext. intros x Hx. apply mem_fill_in. lia.
Qed.

(** ** Strings *)

(** Memory holds the NUL-terminated string [str] at [p]. *)
Definition cstring (m : mem) (p : Z) (str : list Z) : Prop :=
  0 ∉ str ∧ mem_read m p (Z.of_nat (length str) + 1) = str ++ [0].

Lemma cstring_byte m p str i : cstring m p str → (i ≤ length str)%nat →
  m (p + Z.of_nat i) = 0 ↔ i = length str.
Proof.
  intros [H0 Hm] Hi. assert ((str ++ [0]) !! i = Some (m (p + Z.of_nat i))) as Hl.
  { rewrite <- Hm, lookup_mem_read. by rewrite decide_True by lia. }
  destruct (decide (i = length str)) as [->|Hne].
  - rewrite list_lookup_middle in Hl by done. split; [done|]. intros _. congruence.
  - split; [|done]. intros Hz. rewrite lookup_app_l, Hz in Hl by lia. destruct H0. by eapply list_elem_of_lookup_2.
Qed.

Lemma cstring_unique m p str str' : cstring m p str → cstring m p str' → str = str'.
Proof.
  intros H H'. assert (length str = length str') as Hlen.
  { destruct (decide (length str ≤ length str')%nat).
    - apply (cstring_byte m p str' (length str)); [done..|]. by apply (cstring_byte m p str (length str)).
    - symmetry. apply (cstring_byte m p str (length str')); [done|lia|]. by apply (cstring_byte m p str' (length str')). }
  destruct H as [_ H], H' as [_ H']. rewrite Hlen, H' in H. by apply app_inj_tail in H as [-> _].
Qed.

Lemma cstring_lookup m p str i b : cstring m p str → str !! i = Some b → m (p + Z.of_nat i) = b ∧ b ≠ 0.
Proof.
  intros [H0 Hm] Hi. pose proof (lookup_lt_Some _ _ _ Hi) as Hlt. split.
  - assert ((str ++ [0]) !! i = Some b) as H by by rewrite lookup_app_l.
    rewrite <- Hm, lookup_mem_read, decide_True in H by lia. by injection H.
  - intros ->. destruct H0. by eapply list_elem_of_lookup_2.
Qed.

Lemma cstring_nul m p str : cstring m p str → m (p + Z.of_nat (length str)) = 0.
Proof. intros H. by apply (cstring_byte m p str). Qed.

(** The rest of a string is a string. *)
Lemma cstring_drop m p str i : cstring m p str → (i ≤ length str)%nat → cstring m (p + Z.of_nat i) (drop i str).
Proof.
  intros [H0 Hm] Hi. split.
  - intros H. apply H0. rewrite <- (take_drop i str). apply elem_of_app. by right.
  - replace (Z.of_nat (length str) + 1) with (Z.of_nat i + (Z.of_nat (length (drop i str)) + 1)) in Hm by (rewrite length_drop; lia).
    rewrite mem_read_app in Hm by lia. assert (str ++ [0] = take i str ++ drop i str ++ [0]) as He by by rewrite app_assoc, take_drop.
    rewrite He in Hm. apply app_inj_1 in Hm as [_ Hm]; [done|]. rewrite length_mem_read, length_take. lia.
Qed.

Lemma cstring_ext m m' p str : cstring m p str → (∀ x, p ≤ x ≤ p + Z.of_nat (length str) → m' x = m x) → cstring m' p str.
Proof. intros [H0 Hm] Hx. split; [done|]. rewrite <- Hm. apply mem_read_ext. intros x H. apply Hx. lia. Qed.
