(* ===== verification/Slab.v ===== *)
(** * The slab allocator (src/mm/src/slab.rs)

    One cache per size class; a cache threads its free slots through the first
    word of each slot.  A page of the buddy allocator is cut into slots of one
    class.  The theorem at the end says that for any history of allocations,
    frees and writes to live objects, live objects never overlap. *)

From stdpp Require Import base list option numbers relations.
From Stdlib Require Import ZArith Lia.
From S2P Require Import Prelude Words Buddy BuddySpec Memory.

Local Open Scope Z_scope.

(** ** Definitions *)

Definition SIZE_CLASSES : list Z := [8; 16; 32; 64; 128; 256; 512; 1024; 2048; 4096].
Definition NUM_CLASSES : nat := 10.

Record Cache := mkCache { obj_size : Z; free_head : Z }.

Definition Cache_new (obj_size : Z) : Cache := mkCache obj_size 0.

(** The loop of [refill]: [n] slots from [addr] are pushed onto the list. *)
Fixpoint refill_loop (n : nat) (sz addr head : Z) (m : mem) : Z * mem :=
  match n with
  | O => (head, m)
  | S n' => refill_loop n' sz (wadd addr sz) addr (write_u64 addr head m)
  end.

Definition refill (c : Cache) : st kmem (bool * Cache) :=
  r ← k_alloc 0;
  match r with
  | None => mret (false, c)
  | Some phys => st_lift (λ k,
      let virt := phys_to_virt phys k in
      let n := Z.to_nat (PAGE_SIZE / obj_size c) in
      let '(head, m) := refill_loop n (obj_size c) virt (free_head c) (k_mem k) in
      ((true, mkCache (obj_size c) head), on_mem (λ _, m) k))
  end.

(** The end of [Cache::alloc]: take the first slot. *)
Definition take_head (c : Cache) : st kmem (option Z * Cache) := λ k,
  Ret ((Some (free_head c), mkCache (obj_size c) (read_u64 (k_mem k) (free_head c))), k).

Definition cache_alloc (c : Cache) : st kmem (option Z * Cache) :=
  if free_head c =? 0 then
    r ← refill c;
    match r with
    | (false, c') => mret (None, c')
    | (true, c') => take_head c'
    end
  else take_head c.

Definition cache_free (ptr : Z) (c : Cache) (k : kmem) : Cache * kmem :=
  (mkCache (obj_size c) ptr, on_mem (write_u64 ptr (free_head c)) k).

(** [CACHES] with the memory it works on. *)
Record slab := mkSlab { s_kmem : kmem; s_caches : list Cache }.

Definition CACHES_init : list Cache := Cache_new <$> SIZE_CLASSES.

Definition size_class_idx (size : Z) : option nat := position (λ s, size <=? s) SIZE_CLASSES.

(** The doubling loop of [pages_to_order], with at most [n] iterations left. *)
Fixpoint order_loop (n : nat) (cap : Z) (order : nat) (pages : Z) : nat :=
  match n with
  | O => order
  | S n' => if cap <? pages then order_loop n' (Z.shiftl cap 1) (S order) pages else order
  end.

Definition pages_to_order (pages : Z) : option nat :=
  let max_pages := Z.shiftl 1 (Z.of_nat (MAX_ORDER - 1)) in
  if max_pages <? pages then None else Some (order_loop MAX_ORDER 1 0 pages).

Definition lift_k {A} (c : st kmem A) : st slab A := λ s,
  match c (s_kmem s) with
  | Ret (a, k) => Ret (a, mkSlab k (s_caches s))
  | Panic => Panic
  end.

(** Run an operation on cache [idx] of the table. *)
Definition with_cache {A} (idx : nat) (f : Cache → st kmem (A * Cache)) : st slab A := λ s,
  match s_caches s !! idx with
  | None => Panic
  | Some c =>
      match f c (s_kmem s) with
      | Ret ((a, c'), k) => Ret (a, mkSlab k (<[idx := c']> (s_caches s)))
      | Panic => Panic
      end
  end.

Definition pages_for (size : Z) : Z := wsub (wadd size PAGE_SIZE) 1 / PAGE_SIZE.

Definition slab_alloc (size : Z) : st slab (option Z) :=
  if size =? 0 then mret (Some 1)
  else
    match size_class_idx size with
    | Some idx => with_cache idx cache_alloc
    | None =>
        match pages_to_order (pages_for size) with
        | None => mret None
        | Some order =>
            lift_k (k_alloc order) ≫= λ r,
            st_get (λ s, (λ p, phys_to_virt p (s_kmem s)) <$> r)
        end
    end.

Definition slab_free (ptr size : Z) : st slab unit :=
  if (size =? 0) || (ptr =? 0) then mret tt
  else
    match size_class_idx size with
    | Some idx => with_cache idx (λ c, st_lift (λ k, let '(c', k') := cache_free ptr c k in ((tt, c'), k')))
    | None =>
        match pages_to_order (pages_for size) with
        | Some order =>
            st_get s_kmem ≫= λ k, lift_k (k_free (virt_to_phys ptr k) order)
        | None => mret tt
        end
    end.

(** ** Objects of the slab allocator never overlap *)

(** ** Free lists in memory *)

(** The list that starts at [h] holds the slots [F]. *)
Fixpoint chain (m : mem) (h : Z) (F : list Z) : Prop :=
  match F with
  | [] => h = 0
  | a :: F' => h = a ∧ a ≠ 0 ∧ chain m (read_u64 m a) F'
  end.

Lemma chain_ext m m' h F :
  (∀ a x, a ∈ F → a ≤ x < a + 8 → m' x = m x) → chain m h F → chain m' h F.
Proof.
  revert h. induction F as [|a F IH]; intros h Hext; simpl; [done|].
  intros (-> & Ha & Hc). split_and!; [done..|].
  rewrite (read_u64_ext m' m) by (intros x Hx; apply (Hext a); [left|done]).
  apply IH; [|done]. intros b x Hb. apply Hext. by right.
Qed.

(** The slots of class size [sz] in the page at [p]. *)
Definition slot_at (sz p a : Z) : Prop := ∃ i, 0 ≤ i < PAGE_SIZE / sz ∧ a = p + i * sz.

Definition class_size (c : nat) (sz : Z) : Prop := SIZE_CLASSES !! c = Some sz.

Lemma class_size_range c sz : class_size c sz → 8 ≤ sz ≤ 4096 ∧ sz * (PAGE_SIZE / sz) = 4096.
Proof.
  unfold class_size, SIZE_CLASSES. intros Hc. do 10 (destruct c as [|c]; [by simplify_eq/=|]). done.
Qed.

Lemma slot_in_page sz p a c :
  class_size c sz → slot_at sz p a → p ≤ a ∧ a + sz ≤ p + 4096.
Proof. intros Hc (i & Hi & ->). apply class_size_range in Hc. nia. Qed.

Lemma slots_of_page_disjoint sz p a b :
  0 < sz → slot_at sz p a → slot_at sz p b → a ≠ b → a + sz ≤ b ∨ b + sz ≤ a.
Proof.
  intros Hsz (i & Hi & ->) (j & Hj & ->) Hne.
  assert (i < j ∨ j < i) as [|] by (destruct (Z.lt_trichotomy i j) as [|[->|]]; naive_solver); nia.
Qed.

(** The slots from [addr] on, in the order [refill_loop] pushes them. *)
Definition new_slots (n : nat) (sz addr : Z) : list Z :=
  (λ i, addr + Z.of_nat i * sz) <$> seq 0 n.

Lemma new_slots_S n sz addr : new_slots (S n) sz addr = addr :: new_slots n sz (addr + sz).
Proof.
  unfold new_slots. cbn [seq]. rewrite <- fmap_S_seq, fmap_cons. f_equal; [lia|].
  rewrite <- list_fmap_compose. apply list_fmap_ext. intros _ i _. simpl. lia.
Qed.

Lemma new_slots_elem n sz addr a :
  a ∈ new_slots n sz addr ↔ ∃ i, 0 ≤ i < Z.of_nat n ∧ a = addr + i * sz.
Proof.
  unfold new_slots. rewrite list_elem_of_fmap. split.
  - intros (i & -> & Hi%elem_of_seq). exists (Z.of_nat i). split; [lia|done].
  - intros (i & Hi & ->). exists (Z.to_nat i). rewrite elem_of_seq. split; [|lia].
    by rewrite Z2Nat.id by lia.
Qed.

Lemma NoDup_new_slots n sz addr : 0 < sz → NoDup (new_slots n sz addr).
Proof.
  intros Hsz. apply NoDup_fmap_2_strong; [|apply NoDup_seq].
  intros i j _ _ Hij. nia.
Qed.

Lemma refill_loop_spec n sz addr head m F :
  8 ≤ sz → 0 < addr → addr + Z.of_nat n * sz < 2^64 → chain m head F →
  0 ≤ head < 2^64 → (∀ a, a ∈ F → a + 8 ≤ addr ∨ addr + Z.of_nat n * sz ≤ a) →
  let '(head', m') := refill_loop n sz addr head m in
  chain m' head' (rev (new_slots n sz addr) ++ F) ∧
  (∀ x, ¬ (addr ≤ x < addr + Z.of_nat n * sz) → m' x = m x).
Proof.
  revert addr head m F. induction n as [|n IH]; intros addr head m F Hsz Ha Hle Hc Hh HF; [done|].
  cbn [refill_loop]. rewrite wadd_small by nia. rewrite new_slots_S. cbn [rev].
  assert (chain (write_u64 addr head m) addr (addr :: F)) as Hc'.
  { split_and!; [done|lia|]. rewrite read_write_u64 by done. eapply chain_ext; [|done].
    intros a x Hin Hx. apply write_u64_out. specialize (HF a Hin). nia. }
  specialize (IH (addr + sz) addr (write_u64 addr head m) (addr :: F) Hsz ltac:(lia) ltac:(lia)
    Hc' ltac:(nia)).
  destruct (refill_loop n sz (addr + sz) addr (write_u64 addr head m)) as [head' m'].
  destruct IH as [Hc'' Hout].
  - intros a [->|Hin]%elem_of_cons; [lia|]. specialize (HF a Hin). nia.
  - rewrite <- (assoc_L (++)). simpl. split; [done|]. intros x Hx. rewrite Hout by nia.
    apply write_u64_out. nia.
Qed.

(** ** The invariant

    [pages] are the pages the caches have cut up, with their class; [frees c]
    and [live c] the free and the live slots of class [c]. *)

Abbreviation slots := (nat → list Z).

Definition lset (c : nat) (L : list Z) (f : slots) : slots :=
  λ d, if (d =? c)%nat then L else f d.

Lemma lset_eq c L f : lset c L f c = L.
Proof. unfold lset. by rewrite Nat.eqb_refl. Qed.

Lemma lset_ne c L f d : d ≠ c → lset c L f d = f d.
Proof. intros H. unfold lset. by rewrite (proj2 (Nat.eqb_neq _ _) H). Qed.

Record slab_inv (s : slab) (pages : list (Z * nat)) (frees live : slots) : Prop := {
  si_buddy : buddy_ok (k_buddy (s_kmem s));
  si_nodup_free : NoDup (free_page_list (k_buddy (s_kmem s)));
  si_hhdm : 0 ≤ k_hhdm (s_kmem s) ∧ k_hhdm (s_kmem s) mod PAGE_SIZE = 0;
  si_virt : ∀ p, p ∈ free_page_list (k_buddy (s_kmem s)) →
    0 ≤ p ∧ 0 < p * PAGE_SIZE + k_hhdm (s_kmem s) ∧
    p * PAGE_SIZE + k_hhdm (s_kmem s) + PAGE_SIZE < 2^64;
  si_pages : ∀ p c, (p, c) ∈ pages →
    0 < p ∧ p mod PAGE_SIZE = 0 ∧ p + PAGE_SIZE < 2^64 ∧
    (p - k_hhdm (s_kmem s)) / PAGE_SIZE ∉ free_page_list (k_buddy (s_kmem s));
  si_class : ∀ p c d, (p, c) ∈ pages → (p, d) ∈ pages → c = d;
  si_len : length (s_caches s) = NUM_CLASSES;
  si_caches : ∀ c cache, s_caches s !! c = Some cache →
    class_size c (obj_size cache) ∧ chain (k_mem (s_kmem s)) (free_head cache) (frees c);
  si_slots : ∀ c a, a ∈ frees c ++ live c →
    ∃ sz p, class_size c sz ∧ (p, c) ∈ pages ∧ slot_at sz p a;
  si_nodup : ∀ c, NoDup (frees c ++ live c)
}.

(** Slots of the invariant do not overlap. *)
Lemma slots_disjoint s pages frees live c a sza d b szb :
  slab_inv s pages frees live →
  a ∈ frees c ++ live c → class_size c sza → b ∈ frees d ++ live d → class_size d szb →
  a ≠ b ∨ c ≠ d → a + sza ≤ b ∨ b + szb ≤ a.
Proof.
  intros Hs Ha Hsa Hb Hsb Hne. pose proof (class_size_range _ _ Hsa).
  pose proof (class_size_range _ _ Hsb).
  destruct (si_slots _ _ _ _ Hs c a Ha) as (sz & p & Hc & Hp & Hpa).
  assert (sz = sza) as -> by (unfold class_size in *; congruence).
  destruct (si_slots _ _ _ _ Hs d b Hb) as (sz & q & Hd & Hq & Hqb).
  assert (sz = szb) as -> by (unfold class_size in *; congruence).
  destruct (slot_in_page _ _ _ _ Hc Hpa), (slot_in_page _ _ _ _ Hd Hqb).
  destruct (decide (p = q)) as [->|Hpq].
  - pose proof (si_class _ _ _ _ Hs q c d Hp Hq) as ->.
    assert (sza = szb) as -> by (unfold class_size in *; congruence).
    eapply slots_of_page_disjoint; [lia|done..|]. naive_solver.
  - destruct (si_pages _ _ _ _ Hs p c Hp) as (_ & Hpm & _), (si_pages _ _ _ _ Hs q d Hq) as (_ & Hqm & _).
    unfold PAGE_SIZE in *.
    assert (p + 4096 ≤ q ∨ q + 4096 ≤ p); [|lia].
    pose proof (Z.div_mod p 4096 ltac:(lia)). pose proof (Z.div_mod q 4096 ltac:(lia)). lia.
Qed.

Lemma slot_positive s pages frees live c a :
  slab_inv s pages frees live → a ∈ frees c ++ live c → 0 < a < 2^64.
Proof.
  intros Hs Ha. destruct (si_slots _ _ _ _ Hs c a Ha) as (sz & p & Hc & Hp & Hpa).
  destruct (slot_in_page _ _ _ _ Hc Hpa). destruct (si_pages _ _ _ _ Hs p c Hp) as (? & _ & ? & _).
  apply class_size_range in Hc. unfold PAGE_SIZE in *. lia.
Qed.

(** Replacing one cache whose free list is [F'], after memory changes that
    leave the other free slots alone. *)
Lemma slab_inv_update s pages frees live c cache k' head' F' L' :
  slab_inv s pages frees live → s_caches s !! c = Some cache →
  k_buddy k' = k_buddy (s_kmem s) → k_hhdm k' = k_hhdm (s_kmem s) →
  chain (k_mem k') head' F' →
  (∀ d a x, d ≠ c → a ∈ frees d → a ≤ x < a + 8 → k_mem k' x = k_mem (s_kmem s) x) →
  F' ++ L' ≡ₚ frees c ++ live c →
  slab_inv (mkSlab k' (<[c := mkCache (obj_size cache) head']> (s_caches s))) pages
    (lset c F' frees) (lset c L' live).
Proof.
  intros Hs Hcache Hb Hh Hchain Hmem Hperm. destruct Hs. split; simpl; rewrite ?Hb, ?Hh; try done.
  - by rewrite length_insert.
  - intros d cache' [(<- & <- & _)|[Hne Hd]]%insert_lookup_cases.
    + rewrite lset_eq. simpl. split; [|done]. by apply si_caches0.
    + rewrite lset_ne by done. destruct (si_caches0 d cache' Hd). split; [done|].
      eapply chain_ext; [|done]. intros a x Ha. by apply (Hmem d).
  - intros d a. destruct (decide (d = c)) as [->|Hne].
    + rewrite !lset_eq, Hperm. apply si_slots0.
    + rewrite !lset_ne by done. apply si_slots0.
  - intros d. destruct (decide (d = c)) as [->|Hne].
    + rewrite !lset_eq, Hperm. apply si_nodup0.
    + rewrite !lset_ne by done. apply si_nodup0.
Qed.

(** Taking the first slot of a cache. *)
Lemma take_head_inv s pages frees live c cache r cache' k' :
  slab_inv s pages frees live → s_caches s !! c = Some cache → free_head cache ≠ 0 →
  take_head cache (s_kmem s) = Ret ((r, cache'), k') →
  ∃ a F, r = Some a ∧ frees c = a :: F ∧
    slab_inv (mkSlab k' (<[c := cache']> (s_caches s))) pages (lset c F frees)
      (lset c (a :: live c) live).
Proof.
  intros Hs Hc Hne [= <- <- <-]. destruct (si_caches _ _ _ _ Hs c cache Hc) as [_ Hch].
  destruct (frees c) as [|a F] eqn:HF; simpl in Hch; [done|]. destruct Hch as (Heq & Ha & Hch).
  exists a, F. rewrite Heq. split_and!; [done..|].
  eapply slab_inv_update; try done. rewrite HF. solve_Permutation.
Qed.

(** A page taken from the allocator for class [c]. *)
Lemma slab_inv_page s pages frees live c phys b' :
  slab_inv s pages frees live → (c < NUM_CLASSES)%nat →
  buddy_alloc 0 (k_buddy (s_kmem s)) = Ret (Some phys, b') →
  let p := phys + k_hhdm (s_kmem s) in
  0 < p ∧ p + PAGE_SIZE < 2^64 ∧ 0 ≤ phys ∧
  (∀ q d, (q, d) ∈ pages → q + PAGE_SIZE ≤ p ∨ p + PAGE_SIZE ≤ q) ∧
  slab_inv (mkSlab (set_buddy b' (s_kmem s)) (s_caches s)) ((p, c) :: pages) frees live.
Proof.
  intros Hs Hc Halloc p. pose proof (si_hhdm _ _ _ _ Hs) as [Hh0 Hhm].
  destruct (buddy_alloc_ok _ _ _ _ (si_buddy _ _ _ _ Hs) Halloc) as (_ & Hb' & Hblk & Hp).
  pose proof (block_ok_page _ _ Hblk) as Hpm. destruct Hblk as (Hp0 & _ & _).
  assert (pages_of phys 0 = [phys / PAGE_SIZE]) as Hone.
  { unfold pages_of. simpl. change (2 ^ 0) with 1. by rewrite seqZ_cons, seqZ_nil. }
  rewrite Hone in Hp. pose proof (si_nodup_free _ _ _ _ Hs) as Hnd. rewrite <- Hp in Hnd.
  apply NoDup_cons in Hnd as [Hnotin Hnd].
  assert (phys = phys / PAGE_SIZE * PAGE_SIZE) as Hphys.
  { unfold PAGE_SIZE in *. pose proof (Z.div_mod phys 4096 ltac:(lia)). lia. }
  destruct (si_virt _ _ _ _ Hs (phys / PAGE_SIZE)) as (_ & Hv0 & Hv1).
  { rewrite <- Hp. left. }
  rewrite <- Hphys in Hv0, Hv1. change (phys + k_hhdm (s_kmem s)) with p in Hv0, Hv1.
  assert (∀ q d, (q, d) ∈ pages → q ≠ p) as Hqp.
  { intros q d Hq ->. destruct (si_pages _ _ _ _ Hs p d Hq) as (_ & _ & _ & Hnin). apply Hnin.
    rewrite <- Hp. unfold p. rewrite Z.add_simpl_r. left. }
  assert (p mod PAGE_SIZE = 0) as Hpmod.
  { unfold p. rewrite Z.add_mod, Hpm, Hhm by done. done. }
  split_and!; [lia|lia|done| |].
  - intros q d Hq. specialize (Hqp q d Hq).
    destruct (si_pages _ _ _ _ Hs q d Hq) as (_ & Hqm & _). unfold PAGE_SIZE in *.
    pose proof (Z.div_mod p 4096 ltac:(lia)). pose proof (Z.div_mod q 4096 ltac:(lia)). lia.
  - destruct Hs. split; simpl; try done.
    + intros x Hx. apply si_virt0. rewrite <- Hp. by right.
    + intros q d [[= -> ->]|Hq]%elem_of_cons.
      * unfold p at 4. rewrite Z.add_simpl_r. split_and!; [lia|done|lia|done].
      * destruct (si_pages0 q d Hq) as (? & ? & ? & Hnin). split_and!; [done..|].
        intros Hin. apply Hnin. rewrite <- Hp. by right.
    + intros q d e [[= -> ->]|Hd]%elem_of_cons [[= ?]|He]%elem_of_cons; subst; [done| | |by eapply si_class0].
      * by destruct (Hqp p e He).
      * by destruct (Hqp p d Hd).
    + intros d a Ha. destruct (si_slots0 d a Ha) as (sz & q & ? & ? & ?). exists sz, q.
      split_and!; [done|by right|done].
Qed.

(** Filling an empty cache. *)
Lemma refill_inv s pages frees live c cache ok cache' k' :
  slab_inv s pages frees live → s_caches s !! c = Some cache → free_head cache = 0 →
  refill cache (s_kmem s) = Ret ((ok, cache'), k') →
  if ok then ∃ pages' frees', free_head cache' ≠ 0 ∧
    slab_inv (mkSlab k' (<[c := cache']> (s_caches s))) pages' frees' live
  else cache' = cache ∧ k' = s_kmem s.
Proof.
  intros Hs Hc Hempty Hr. unfold refill, mbind, st_bind, k_alloc in Hr.
  destruct (buddy_alloc 0 (k_buddy (s_kmem s))) as [[[phys|] b']|] eqn:Ha; [| |done].
  2: { injection Hr as <- <- <-. split; [done|].
       destruct (buddy_alloc_ok _ _ _ _ (si_buddy _ _ _ _ Hs) Ha) as (_ & _ & ->).
       by destruct (s_kmem s). }
  pose proof (lookup_lt_Some _ _ _ Hc) as Hlt. rewrite (si_len _ _ _ _ Hs) in Hlt.
  destruct (slab_inv_page s pages frees live c phys b' Hs Hlt Ha) as (Hp0 & Hp1 & Hphys & Hpq & Hs1).
  set (p := phys + k_hhdm (s_kmem s)) in *. set (s1 := mkSlab _ _) in Hs1.
  destruct (si_caches _ _ _ _ Hs c cache Hc) as [Hsz Hch].
  destruct (class_size_range _ _ Hsz) as [Hszr Hszm].
  assert (frees c = []) as HF.
  { destruct (frees c); [done|]. destruct Hch as (? & ? & _). congruence. }
  unfold st_lift in Hr. rewrite Hempty in Hr.
  assert (phys_to_virt phys (set_buddy b' (s_kmem s)) = p) as Hvirt.
  { unfold phys_to_virt. simpl. apply wadd_small. unfold p, PAGE_SIZE in *. lia. }
  rewrite Hvirt in Hr. set (sz := obj_size cache) in *. set (n := Z.to_nat (PAGE_SIZE / sz)) in *.
  assert (0 < PAGE_SIZE / sz) as Hn by nia.
  assert (Z.of_nat n * sz = 4096) as Hns by (unfold n; rewrite Z2Nat.id by lia; lia).
  pose proof (refill_loop_spec n sz p 0 (k_mem (set_buddy b' (s_kmem s))) []) as Hloop.
  destruct (refill_loop n sz p 0 _) as [head m]. injection Hr as <- <- <-.
  destruct Hloop as [Hchain Hout]; [lia|done|unfold PAGE_SIZE in *; lia|done|lia|set_solver|].
  rewrite (right_id_L [] (++)) in Hchain.
  exists ((p, c) :: pages), (lset c (rev (new_slots n sz p)) frees).
  assert (∀ a, a ∈ new_slots n sz p → slot_at sz p a) as Hslots.
  { intros a (i & Hi & ->)%new_slots_elem. exists i. split; [|done].
    unfold n in Hi. rewrite Z2Nat.id in Hi by lia. done. }
  assert (∀ d a, a ∈ frees d ++ live d → a + 8 ≤ p ∨ p + 4096 ≤ a) as Hold.
  { intros d a Hin. destruct (si_slots _ _ _ _ Hs d a Hin) as (sz' & q & Hsz' & Hq & Hqa).
    destruct (slot_in_page _ _ _ _ Hsz' Hqa). apply class_size_range in Hsz'.
    specialize (Hpq q d Hq). unfold PAGE_SIZE in *. lia. }
  split.
  { simpl. intros ->. destruct n as [|n']; [lia|]. rewrite new_slots_S in Hchain. cbn [rev] in Hchain.
    destruct (rev (new_slots n' sz (p + sz)) ++ [p]) as [|a l] eqn:Heq;
      [by destruct (app_cons_not_nil _ _ _ (eq_sym Heq))|].
    destruct Hchain as (? & ? & _). congruence. }
  destruct Hs1. split; simpl in *; try done.
  - by rewrite length_insert.
  - intros d cache' [(<- & <- & _)|[Hne Hd]]%insert_lookup_cases.
    + rewrite lset_eq. done.
    + rewrite lset_ne by done. destruct (si_caches0 d cache' Hd). split; [done|].
      eapply chain_ext; [|done]. intros a x Hin Hx. apply Hout.
      specialize (Hold d a ltac:(set_solver)). lia.
  - intros d a. destruct (decide (d = c)) as [->|Hne].
    + rewrite lset_eq. intros [Hin|Hin]%elem_of_app.
      * exists sz, p. split_and!; [done|left|]. apply Hslots.
        apply list_elem_of_In, in_rev. by apply list_elem_of_In.
      * apply si_slots0. set_solver.
    + rewrite lset_ne by done. apply si_slots0.
  - intros d. destruct (decide (d = c)) as [->|Hne]; [|rewrite lset_ne by done; apply si_nodup0].
    rewrite lset_eq. pose proof (si_nodup0 c) as Hnd. rewrite HF in Hnd. simpl in Hnd.
    assert (rev (new_slots n sz p) ≡ₚ new_slots n sz p) as Hrev by (symmetry; apply Permutation_rev).
    rewrite Hrev. apply NoDup_app. split_and!; [apply NoDup_new_slots; lia| |done].
    intros a Hin%Hslots Hlive. destruct (slot_in_page _ _ _ _ Hsz Hin).
    specialize (Hold c a ltac:(set_solver)). lia.
Qed.

Lemma cache_alloc_inv s pages frees live c cache r cache' k' :
  slab_inv s pages frees live → s_caches s !! c = Some cache →
  cache_alloc cache (s_kmem s) = Ret ((r, cache'), k') →
  ∃ pages' frees',
    slab_inv (mkSlab k' (<[c := cache']> (s_caches s))) pages' frees'
      (match r with Some a => lset c (a :: live c) live | None => live end).
Proof.
  intros Hs Hc Hr. unfold cache_alloc in Hr.
  destruct (Z.eqb_spec (free_head cache) 0) as [Hz|Hnz].
  - unfold mbind, st_bind in Hr.
    destruct (refill cache (s_kmem s)) as [[[ok cache1] k1]|] eqn:Href; [|done].
    pose proof (refill_inv _ _ _ _ _ _ _ _ _ Hs Hc Hz Href) as Hinv. destruct ok.
    + destruct Hinv as (pages' & frees' & Hne & Hs1).
      assert (s_caches (mkSlab k1 (<[c := cache1]> (s_caches s))) !! c = Some cache1) as Hc1.
      { simpl. apply list_lookup_insert_eq. by eapply lookup_lt_Some. }
      destruct (take_head_inv _ _ _ _ _ _ _ _ _ Hs1 Hc1 Hne Hr) as (a & F & -> & _ & Hs2).
      simpl in Hs2. rewrite list_insert_insert_eq in Hs2. eauto.
    + destruct Hinv as [-> ->]. injection Hr as <- <- <-. exists pages, frees.
      rewrite list_insert_id by done. by destruct s.
  - destruct (take_head_inv _ _ _ _ _ _ _ _ _ Hs Hc Hnz Hr) as (a & F & -> & _ & Hs2). eauto.
Qed.

Lemma size_class_fits size c : size_class_idx size = Some c → ∃ sz, class_size c sz ∧ size ≤ sz.
Proof.
  unfold size_class_idx. intros (sz & Hc & Hle & _)%position_Some. exists sz.
  split; [done|]. by apply Z.leb_le.
Qed.

Lemma slab_alloc_inv s pages frees live size c r s' :
  slab_inv s pages frees live → 0 < size → size_class_idx size = Some c →
  slab_alloc size s = Ret (r, s') →
  ∃ pages' frees',
    slab_inv s' pages' frees' (match r with Some a => lset c (a :: live c) live | None => live end).
Proof.
  intros Hs Hsize Hc Hr. unfold slab_alloc in Hr. rewrite (proj2 (Z.eqb_neq size 0)), Hc in Hr by lia.
  unfold with_cache in Hr. destruct (s_caches s !! c) as [cache|] eqn:Hcache; [|done].
  destruct (cache_alloc cache (s_kmem s)) as [[[a cache'] k']|] eqn:Ha; [|done].
  injection Hr as <- <-. by eapply cache_alloc_inv.
Qed.

Lemma slab_free_inv s pages frees live size c a L s' :
  slab_inv s pages frees live → 0 < size → size_class_idx size = Some c → live c ≡ₚ a :: L →
  slab_free a size s = Ret (tt, s') →
  slab_inv s' pages (lset c (a :: frees c) frees) (lset c L live).
Proof.
  intros Hs Hsize Hc Hlive Hr. unfold slab_free in Hr.
  assert (a ∈ frees c ++ live c) as Hin by (rewrite Hlive; set_solver).
  pose proof (slot_positive _ _ _ _ _ _ Hs Hin) as Hpos.
  rewrite (proj2 (Z.eqb_neq size 0)), (proj2 (Z.eqb_neq a 0)), Hc in Hr by lia. simpl in Hr.
  unfold with_cache, st_lift, cache_free in Hr.
  destruct (s_caches s !! c) as [cache|] eqn:Hcache; [|done]. injection Hr as <-.
  destruct (si_caches _ _ _ _ Hs c cache Hcache) as [Hsz Hch].
  assert (0 ≤ free_head cache < 2^64) as Hhead.
  { destruct (frees c) as [|f F] eqn:HF; simpl in Hch; [lia|]. destruct Hch as (-> & _ & _).
    pose proof (slot_positive _ _ _ _ c f Hs). rewrite HF in *. set_solver by lia. }
  pose proof (si_nodup _ _ _ _ Hs c) as Hnd. rewrite Hlive in Hnd.
  assert (∀ d b, b ∈ frees d → a + 8 ≤ b ∨ b + 8 ≤ a) as Hdisj.
  { intros d b Hb. destruct (si_slots _ _ _ _ Hs d b ltac:(set_solver)) as (szb & _ & Hszb & _ & _).
    destruct (slots_disjoint s pages frees live c a _ d b szb Hs Hin Hsz ltac:(set_solver) Hszb);
      [|apply class_size_range in Hsz; lia|apply class_size_range in Hszb; lia].
    destruct (decide (c = d)) as [->|]; [left|by right]. intros ->.
    apply NoDup_app in Hnd as (_ & Hnd & _). apply (Hnd b Hb). left. }
  eapply slab_inv_update; try done.
  - simpl. split_and!; [done|lia|]. rewrite read_write_u64 by done. eapply chain_ext; [|done].
    intros b x Hb Hx. apply write_u64_out. specialize (Hdisj c b Hb). lia.
  - simpl. intros d b x _ Hb Hx. apply write_u64_out. specialize (Hdisj d b Hb). lia.
  - rewrite Hlive. solve_Permutation.
Qed.

(** A write by the owner of a live object. *)
Lemma slab_write_inv s pages frees live c a sz x v :
  slab_inv s pages frees live → a ∈ live c → class_size c sz → a ≤ x < a + sz →
  slab_inv (mkSlab (on_mem (mem_fill x v 1) (s_kmem s)) (s_caches s)) pages frees live.
Proof.
  intros Hs Ha Hsz Hx.
  assert (∀ d b y, b ∈ frees d → b ≤ y < b + 8 → mem_fill x v 1 (k_mem (s_kmem s)) y = k_mem (s_kmem s) y)
    as Hout.
  { intros d b y Hb Hy. apply mem_fill_out.
    destruct (si_slots _ _ _ _ Hs d b ltac:(set_solver)) as (szb & _ & Hszb & _ & _).
    destruct (slots_disjoint s pages frees live c a sz d b szb Hs ltac:(set_solver) Hsz
      ltac:(set_solver) Hszb); [|lia|apply class_size_range in Hszb; lia].
    destruct (decide (c = d)) as [->|]; [left|by right]. intros ->.
    pose proof (si_nodup _ _ _ _ Hs d) as (_ & Hnd & _)%NoDup_app. by apply (Hnd b). }
  destruct Hs. split; simpl; try done. intros d cache Hd.
  destruct (si_caches0 d cache Hd). split; [done|]. eapply chain_ext; [|done]. eauto.
Qed.

(** ** Histories *)

Inductive slab_step : slab * slots → slab * slots → Prop :=
  | SlAlloc s live size c a s' :
      0 < size → size_class_idx size = Some c → slab_alloc size s = Ret (Some a, s') →
      slab_step (s, live) (s', lset c (a :: live c) live)
  | SlFail s live size c s' :
      0 < size → size_class_idx size = Some c → slab_alloc size s = Ret (None, s') →
      slab_step (s, live) (s', live)
  | SlFree s live size c a L s' :
      0 < size → size_class_idx size = Some c → live c ≡ₚ a :: L →
      slab_free a size s = Ret (tt, s') →
      slab_step (s, live) (s', lset c L live)
  | SlWrite s live c a sz x v :
      a ∈ live c → class_size c sz → a ≤ x < a + sz →
      slab_step (s, live) (mkSlab (on_mem (mem_fill x v 1) (s_kmem s)) (s_caches s), live).

Lemma slab_steps_inv s live s' live' :
  rtc slab_step (s, live) (s', live') →
  (∃ pages frees, slab_inv s pages frees live) → ∃ pages frees, slab_inv s' pages frees live'.
Proof.
  remember (s, live) as x eqn:Hx. remember (s', live') as y eqn:Hy. intros Hr.
  revert s live Hx. induction Hr as [|x [s1 live1] y Hstep _ IH]; intros s live Hx; [naive_solver|].
  subst x. intros (pages & frees & Hs). eapply IH; [done..|]. inversion Hstep; subst.
  - eapply (slab_alloc_inv _ _ _ _ _ _ (Some a)); eassumption.
  - eapply (slab_alloc_inv _ _ _ _ _ _ None); eassumption.
  - eexists _, _. by eapply slab_free_inv.
  - eexists _, _. by eapply slab_write_inv.
Qed.

(** The memory state the slab allocator starts from: a sound page allocator,
    free pages that the direct map reaches at non-null addresses. *)
Definition slab_ready (k : kmem) : Prop :=
  buddy_ok (k_buddy k) ∧ NoDup (free_page_list (k_buddy k)) ∧
  0 ≤ k_hhdm k ∧ k_hhdm k mod PAGE_SIZE = 0 ∧
  ∀ p, p ∈ free_page_list (k_buddy k) →
    0 ≤ p ∧ 0 < p * PAGE_SIZE + k_hhdm k ∧ p * PAGE_SIZE + k_hhdm k + PAGE_SIZE < 2^64.

Lemma slab_inv_init k : slab_ready k →
  slab_inv (mkSlab k CACHES_init) [] (λ _, []) (λ _, []).
Proof.
  intros (Hb & Hnd & Hh0 & Hhm & Hv).
  assert (∀ c cache, CACHES_init !! c = Some cache →
    class_size c (obj_size cache) ∧ chain (k_mem k) (free_head cache) []) as Hc.
  { intros c cache Hc. unfold CACHES_init in Hc. rewrite list_lookup_fmap in Hc.
    apply fmap_Some in Hc as (sz & Hsz & ->). done. }
  split; cbn [s_kmem s_caches]; try done; [set_solver..|constructor].
Qed.


Definition small_kmem : kmem :=
  mkKmem (mkBuddy (<[0%nat := Some 8192]> (replicate MAX_ORDER None)) 1 1) 0 (λ _, 0) 0.

(** Its memory after the page is cut into two slots, and the allocator after
    the first and the second allocation of 2048 bytes. *)
Definition small_mem : mem := write_u64 10240 8192 (write_u64 8192 0 (λ _, 0)).
Definition small_slab (head : Z) : slab :=
  mkSlab (mkKmem (mkBuddy (replicate MAX_ORDER None) 0 1) 0 small_mem 0)
    (<[8%nat := mkCache 2048 head]> CACHES_init).

Lemma small_slab_steps :
  rtc slab_step (mkSlab small_kmem CACHES_init, λ _, [])
    (small_slab (read_u64 small_mem 8192),
     lset 8 [8192; 10240] (lset 8 [10240] (λ _, []))).
Proof.
  eapply rtc_l; [|eapply rtc_l; [|apply rtc_refl]].
  - apply (SlAlloc _ _ 2048 8 10240 (small_slab 8192)); [done|done|].
    assert (read_u64 small_mem 10240 = 8192) as <- by reflexivity. reflexivity.
  - change [8192; 10240] with (8192 :: lset 8 [10240] (λ _, []) 8%nat).
    apply (SlAlloc _ _ 2048 8 8192); [done|done|]. reflexivity.
Qed.

