(* ===== verification/Paging.v ===== *)
(** * Page tables of AArch64 (src/arch/aarch64/src/paging.rs, src/mm/src/paging.rs)

    Four levels of 512 entries.  [node] and [lookup] are the walk the hardware
    makes; the theorems say that mapping a page installs exactly that page,
    unmapping removes exactly it, the permissions the hardware sees are those
    asked for, and a failed mapping changes no translation. *)

From stdpp Require Import base list option numbers.
From Stdlib Require Import ZArith Lia.
From S2P Require Import Prelude Words Buddy BuddySpec Memory.

Local Open Scope Z_scope.

(** ** Definitions *)

Module PageFlags.
Definition PRESENT : Z := Z.shiftl 1 0.
Definition WRITABLE : Z := Z.shiftl 1 1.
Definition USER : Z := Z.shiftl 1 2.
Definition EXECUTE : Z := Z.shiftl 1 3.
Definition NOCACHE : Z := Z.shiftl 1 4.
(** [from_bits_truncate] keeps the named bits. *)
Definition all : Z := 31.
Definition contains (bits f : Z) : bool := Z.land bits f =? f.
End PageFlags.

Module PageDescFlags.
Definition VALID : Z := Z.shiftl 1 0.
Definition TABLE : Z := Z.shiftl 1 1.
Definition ATTR_DEV : Z := Z.shiftl 1 2.
Definition USER : Z := Z.shiftl 1 6.
Definition RDONLY : Z := Z.shiftl 1 7.
Definition INNER_SHR : Z := Z.shiftl 3 8.
Definition AF : Z := Z.shiftl 1 10.
Definition NO_EXEC : Z := Z.shiftl 1 54.
End PageDescFlags.

(** [0x0000_FFFF_FFFF_F000] *)
Definition ADDR_MASK : Z := 0x0000FFFFFFFFF000.

(** [(virt >> shift) & 0x1FF] *)
Definition level_index (shift virt : Z) : Z := Z.land (Z.shiftr virt shift) 511.

(** The address of entry [idx] of a table: [parent.add(idx)]. *)
Definition entry_addr (parent idx : Z) : Z := parent + 8 * idx.

Definition alloc_zeroed_page : st kmem (option Z) :=
  r ← k_alloc 0;
  match r with
  | None => mret None
  | Some phys => st_lift (λ k, (Some phys, on_mem (mem_fill phys 0 PAGE_SIZE) k))
  end.

Definition ensure_table (parent idx : Z) : st kmem (option Z) :=
  entry ← st_get (λ k, read_u64 (k_mem k) (entry_addr parent idx));
  if negb (Z.land entry PageDescFlags.VALID =? 0) then mret (Some (Z.land entry ADDR_MASK))
  else
    r ← alloc_zeroed_page;
    match r with
    | None => mret None
    | Some table => st_lift (λ k,
        (Some table, on_mem (write_u64 (entry_addr parent idx)
           (Z.lor (Z.lor table PageDescFlags.TABLE) PageDescFlags.VALID)) k))
    end.

(** The TLB maintenance at the end of [map_4k] and [unmap_4k] has no effect on
    the tables. *)
Definition map_4k (pgd virt phys flags : Z) : st kmem bool :=
  r1 ← ensure_table pgd (level_index 39 virt);
  match r1 with
  | None => mret false
  | Some p1 =>
      r2 ← ensure_table p1 (level_index 30 virt);
      match r2 with
      | None => mret false
      | Some p2 =>
          r3 ← ensure_table p2 (level_index 21 virt);
          match r3 with
          | None => mret false
          | Some p3 => st_lift (λ k,
              (true, on_mem (write_u64 (entry_addr p3 (level_index 12 virt))
                 (Z.lor (Z.lor phys flags) 3)) k))
          end
      end
  end.

(** Read an entry of a table and follow it if it is valid. *)
Definition follow (m : mem) (table idx : Z) : option Z :=
  let e := read_u64 m (entry_addr table idx) in
  if Z.land e PageDescFlags.VALID =? 0 then None else Some (Z.land e ADDR_MASK).

Definition unmap_4k (pgd virt : Z) : st kmem unit := st_lift (λ k,
  let m := k_mem k in
  match follow m pgd (level_index 39 virt) with
  | None => (tt, k)
  | Some p1 =>
      match follow m p1 (level_index 30 virt) with
      | None => (tt, k)
      | Some p2 =>
          match follow m p2 (level_index 21 virt) with
          | None => (tt, k)
          | Some p3 => (tt, on_mem (write_u64 (entry_addr p3 (level_index 12 virt)) 0) k)
          end
      end
  end).

Definition translate_flags (bits : Z) : Z :=
  let src := Z.land bits PageFlags.all in
  let f := Z.lor (Z.lor PageDescFlags.VALID PageDescFlags.AF) PageDescFlags.INNER_SHR in
  let f := if PageFlags.contains src PageFlags.USER then Z.lor f PageDescFlags.USER else f in
  let f := if negb (PageFlags.contains src PageFlags.WRITABLE)
           then Z.lor f PageDescFlags.RDONLY else f in
  let f := if negb (PageFlags.contains src PageFlags.EXECUTE)
           then Z.lor f PageDescFlags.NO_EXEC else f in
  if PageFlags.contains src PageFlags.NOCACHE then Z.lor f PageDescFlags.ATTR_DEV else f.

Definition arch_map_page (page_table_root virt phys flags : Z) : st kmem bool :=
  map_4k page_table_root virt phys (translate_flags flags).

Definition arch_unmap_page (page_table_root virt : Z) : st kmem unit :=
  unmap_4k page_table_root virt.

Definition arch_tlb_shootdown_all : st kmem unit :=
  st_modify (λ k, mkKmem (k_buddy k) (k_hhdm k) (k_mem k) (S (k_shootdowns k))).

(** [while addr < end { map_4k(root, addr, addr, flags); addr += PAGE_SIZE }]
    over [n] pages. *)
Fixpoint identity_map (n : nat) (root addr flags : Z) : st kmem unit :=
  match n with
  | O => mret tt
  | S n' => map_4k root addr addr flags ≫= λ _, identity_map n' root (addr + PAGE_SIZE) flags
  end.

Definition kernel_pages : nat := Z.to_nat ((0x44000000 - 0x40000000) / PAGE_SIZE).
Definition uart_pages : nat := Z.to_nat ((0x09100000 - 0x09000000) / PAGE_SIZE).

Definition arch_alloc_page_table_root : st kmem Z :=
  r ← k_alloc 0;
  match r with
  | None => mret 0
  | Some phys =>
      let rw := Z.lor (Z.lor PageDescFlags.VALID PageDescFlags.AF) PageDescFlags.INNER_SHR in
      st_modify (on_mem (mem_fill phys 0 PAGE_SIZE)) ≫= λ _,
      identity_map kernel_pages phys 0x40000000 rw ≫= λ _,
      identity_map uart_pages phys 0x09000000 (Z.lor rw PageDescFlags.ATTR_DEV) ≫= λ _,
      mret phys
  end.

#[global] Opaque kernel_pages uart_pages.

(** [map_page], [unmap_page] and [tlb_shootdown_all] of [mm::paging] forward to
    these. *)
Definition map_page (root virt phys flags : Z) : st kmem bool := arch_map_page root virt phys flags.
Definition unmap_page (root virt : Z) : st kmem unit := arch_unmap_page root virt.
Definition tlb_shootdown_all : st kmem unit := arch_tlb_shootdown_all.

(** ** The hardware's walk *)

(** The table reached from [t] along a path of indices. *)
Fixpoint node (m : mem) (t : Z) (path : list Z) : option Z :=
  match path with
  | [] => Some t
  | i :: path' => follow m t i ≫= λ t', node m t' path'
  end.

(** The valid leaf entry [i] of the table at [path]. *)
Definition leaf (m : mem) (root : Z) (path : list Z) (i : Z) : option Z :=
  t ← node m root path;
  let e := read_u64 m (entry_addr t i) in
  if Z.land e PageDescFlags.VALID =? 0 then None else Some e.

Definition vpath (virt : Z) : list Z :=
  [level_index 39 virt; level_index 30 virt; level_index 21 virt].

(** The descriptor the hardware finds for [virt]. *)
Definition lookup_entry (m : mem) (root virt : Z) : option Z :=
  leaf m root (vpath virt) (level_index 12 virt).

(** The physical page of a descriptor. *)
Definition entry_phys (e : Z) : Z := Z.land e ADDR_MASK.
