(* ===== verification/PagingSpec.v ===== *)
(** * Mapping and unmapping change exactly one translation *)

From stdpp Require Import base list option numbers sets.
From Stdlib Require Import ZArith Lia.
From S2P Require Import Prelude Words Buddy BuddySpec Memory Paging.

Local Open Scope Z_scope.

Definition idx_ok (i : Z) : Prop := 0 ≤ i < 512.
Definition path_ok (n : nat) (path : list Z) : Prop := (length path ≤ n)%nat ∧ Forall idx_ok path.

(** The tables of [root] form a tree of distinct pages, none of them free. *)
Record pt_wf (k : kmem) (root : Z) : Prop := {
  pw_buddy : buddy_ok (k_buddy k);
  pw_nodup : NoDup (free_page_list (k_buddy k));
  pw_free : ∀ p, p ∈ free_page_list (k_buddy k) → 0 ≤ p ∧ p * PAGE_SIZE + PAGE_SIZE ≤ 2^48;
  pw_table : ∀ path t, path_ok 3 path → node (k_mem k) root path = Some t →
    0 ≤ t < 2^48 ∧ t mod PAGE_SIZE = 0 ∧ t / PAGE_SIZE ∉ free_page_list (k_buddy k);
  pw_inj : ∀ p q t, path_ok 3 p → path_ok 3 q →
    node (k_mem k) root p = Some t → node (k_mem k) root q = Some t → p = q
}.

(** ** Walking *)

Lemma node_app m t p q : node m t (p ++ q) = node m t p ≫= λ t', node m t' q.
Proof.
  revert t. induction p as [|i p IH]; intros t; [done|]. simpl.
  destruct (follow m t i); [apply IH|done].
Qed.

Lemma node_snoc m t p i : node m t (p ++ [i]) = node m t p ≫= λ t', follow m t' i.
Proof.
  rewrite node_app. destruct (node m t p) as [u|]; [|done]. simpl. by destruct (follow m u i).
Qed.

Lemma follow_ext m m' t i :
  (∀ x, entry_addr t i ≤ x < entry_addr t i + 8 → m' x = m x) → follow m' t i = follow m t i.
Proof. intros Hx. unfold follow. by rewrite (read_u64_ext m' m). Qed.

Lemma path_ok_mono n n' p : (n ≤ n')%nat → path_ok n p → path_ok n' p.
Proof. intros Hn [? ?]. split; [lia|done]. Qed.

Lemma path_ok_snoc n p i : path_ok (S n) (p ++ [i]) ↔ path_ok n p ∧ idx_ok i.
Proof.
  unfold path_ok. rewrite length_app, Forall_app, Forall_singleton. simpl.
  split; intros; destruct_and!; split_and!; done || lia.
Qed.

Lemma pages_apart t u : t mod PAGE_SIZE = 0 → u mod PAGE_SIZE = 0 → t ≠ u →
  t + PAGE_SIZE ≤ u ∨ u + PAGE_SIZE ≤ t.
Proof.
  unfold PAGE_SIZE. intros Ht Hu Hne. pose proof (Z.div_mod t 4096 ltac:(lia)).
  pose proof (Z.div_mod u 4096 ltac:(lia)). lia.
Qed.

Lemma entry_in_page t i x : idx_ok i → entry_addr t i ≤ x < entry_addr t i + 8 → t ≤ x < t + PAGE_SIZE.
Proof. unfold idx_ok, entry_addr, PAGE_SIZE. lia. Qed.

(** Entries of the same table are apart. *)
Lemma entries_apart t i j : i ≠ j → entry_addr t i + 8 ≤ entry_addr t j ∨ entry_addr t j + 8 ≤ entry_addr t i.
Proof. unfold entry_addr. lia. Qed.

(** ** Writing a leaf entry *)

Section leaf_write.
Context (k : kmem) (root : Z) (Hwf : pt_wf k root).
Context (p3 : list Z) (t3 i v : Z).
Context (Hlen : length p3 = 3%nat) (Hp3 : path_ok 3 p3) (Hi : idx_ok i).
Context (Ht3 : node (k_mem k) root p3 = Some t3).

Lemma leaf_write_out t j q : path_ok 3 q → node (k_mem k) root q = Some t → t ≠ t3 → idx_ok j →
  ∀ x, entry_addr t j ≤ x < entry_addr t j + 8 →
  write_u64 (entry_addr t3 i) v (k_mem k) x = k_mem k x.
Proof.
  intros Hq Ht Hne Hj x Hx. apply write_u64_out. intros Hx3.
  destruct (pw_table _ _ Hwf q t Hq Ht) as (_ & Hm & _).
  destruct (pw_table _ _ Hwf p3 t3 Hp3 Ht3) as (_ & Hm3 & _).
  pose proof (entry_in_page _ _ _ Hj Hx). pose proof (entry_in_page _ _ _ Hi Hx3).
  destruct (pages_apart t t3 Hm Hm3 Hne); lia.
Qed.

Lemma leaf_write_node q : path_ok 3 q →
  node (write_u64 (entry_addr t3 i) v (k_mem k)) root q = node (k_mem k) root q.
Proof.
  induction q as [|j q IH] using rev_ind; intros Hq; [done|].
  apply path_ok_snoc in Hq as [Hq Hj]. rewrite !node_snoc, IH by (by eapply path_ok_mono; [|done]; lia).
  destruct (node (k_mem k) root q) as [u|] eqn:Hu; [|done]. simpl. apply follow_ext.
  eapply leaf_write_out; [by eapply path_ok_mono; [|done]; lia|done| |done].
  intros ->. assert (q = p3) as ->.
  { apply (pw_inj _ _ Hwf q p3 t3); [by eapply path_ok_mono; [|done]; lia|done..]. }
  destruct Hq as [Hq _]. lia.
Qed.

Lemma leaf_write_leaf q j : length q = 3%nat → path_ok 3 q → idx_ok j → 0 ≤ v < 2^64 →
  leaf (write_u64 (entry_addr t3 i) v (k_mem k)) root q j =
  if decide (q = p3 ∧ j = i)
  then (if Z.land v PageDescFlags.VALID =? 0 then None else Some v)
  else leaf (k_mem k) root q j.
Proof.
  intros Hq Hqok Hj Hv. unfold leaf. rewrite leaf_write_node by done.
  case_decide as Hd.
  - destruct Hd as [-> ->]. rewrite Ht3. simpl. by rewrite read_write_u64.
  - destruct (node (k_mem k) root q) as [u|] eqn:Hu; [|done]. simpl.
    assert (read_u64 (write_u64 (entry_addr t3 i) v (k_mem k)) (entry_addr u j) =
            read_u64 (k_mem k) (entry_addr u j)) as ->; [|done].
    destruct (decide (u = t3)) as [->|Hne].
    + assert (q = p3) as -> by (by apply (pw_inj _ _ Hwf q p3 t3)).
      apply read_write_u64_ne, entries_apart. naive_solver.
    + apply read_u64_ext. by eapply leaf_write_out.
Qed.

Lemma leaf_write_wf : pt_wf (on_mem (write_u64 (entry_addr t3 i) v) k) root.
Proof.
  destruct Hwf. split; simpl; try done.
  - intros q t Hq. rewrite leaf_write_node by done. by apply pw_table0.
  - intros p q t Hp Hq. rewrite !leaf_write_node by done. by apply pw_inj0.
Qed.
End leaf_write.

(** ** Descriptors *)

Lemma ADDR_MASK_bits i : 0 ≤ i → Z.testbit ADDR_MASK i = (12 <=? i) && (i <? 48).
Proof.
  intros Hi. change ADDR_MASK with (Z.shiftl (Z.ones 36) 12).
  rewrite Z.shiftl_spec by done. rewrite Z.testbit_ones by lia.
  destruct (Z.leb_spec 12 i), (Z.ltb_spec i 48), (Z.leb_spec 0 (i - 12)), (Z.ltb_spec (i - 12) 36);
    done || lia.
Qed.

(** A page address passes through the mask. *)
Lemma land_addr t : 0 ≤ t < 2^48 → t mod PAGE_SIZE = 0 → Z.land t ADDR_MASK = t.
Proof.
  intros Ht Hm. apply Z.bits_inj'. intros i Hi. rewrite Z.land_spec, ADDR_MASK_bits by done.
  destruct (Z.leb_spec 12 i); simpl.
  - destruct (Z.ltb_spec i 48); [apply andb_true_r|]. rewrite (testbit_high 48 t) by lia. done.
  - rewrite andb_false_r. change PAGE_SIZE with (2^12) in Hm.
    rewrite <- (Z.mod_pow2_bits_low t 12 i) by lia. rewrite Hm. by rewrite Z.bits_0.
Qed.

(** The descriptor of a page with attribute bits outside the address. *)
Lemma descriptor_phys t f : 0 ≤ t < 2^48 → t mod PAGE_SIZE = 0 → Z.land f ADDR_MASK = 0 →
  Z.land (Z.lor t f) ADDR_MASK = t.
Proof. intros Ht Hm Hf. by rewrite Z.land_lor_distr_l, land_addr, Hf, Z.lor_0_r. Qed.

Lemma descriptor_valid t f : t mod PAGE_SIZE = 0 → Z.land f 1 = 1 → Z.land (Z.lor t f) 1 = 1.
Proof.
  intros Ht Hf. rewrite Z.land_lor_distr_l, Hf. change 1 with (Z.ones 1) at 1.
  rewrite Z.land_ones by lia.
  assert (t mod 2^1 = 0) as ->; [|done]. unfold PAGE_SIZE in Ht.
  pose proof (Z.div_mod t 4096 ltac:(lia)). rewrite H, Ht.
  replace (4096 * (t / 4096) + 0) with (2048 * (t / 4096) * 2^1) by lia. by apply Z.mod_mul.
Qed.

Lemma table_descriptor t : 0 ≤ t < 2^48 → t mod PAGE_SIZE = 0 →
  let v := Z.lor (Z.lor t PageDescFlags.TABLE) PageDescFlags.VALID in
  0 ≤ v < 2^64 ∧ Z.land v PageDescFlags.VALID = 1 ∧ Z.land v ADDR_MASK = t.
Proof.
  intros Ht Hm. simpl. rewrite <- Z.lor_assoc.
  change (Z.lor PageDescFlags.TABLE PageDescFlags.VALID) with 3. split; [|split].
  - apply (fits_lor 64); [lia|unfold fits; lia|done].
  - by apply descriptor_valid.
  - by apply descriptor_phys.
Qed.

(** ** What page-table operations leave alone *)

Definition table_page (k : kmem) (root p : Z) : Prop :=
  ∃ q t, path_ok 3 q ∧ node (k_mem k) root q = Some t ∧ t / PAGE_SIZE = p.

(** Pages that are neither free nor tables of [root]. *)
Definition data_page (k : kmem) (root p : Z) : Prop :=
  p ∉ free_page_list (k_buddy k) ∧ ¬ table_page k root p.

Record pt_frame (root : Z) (k k' : kmem) : Prop := {
  pf_data : ∀ p, data_page k root p →
    data_page k' root p ∧ ∀ x, x / PAGE_SIZE = p → k_mem k' x = k_mem k x;
  pf_free : free_page_list (k_buddy k') ⊆ free_page_list (k_buddy k);
  pf_hhdm : k_hhdm k' = k_hhdm k
}.

#[export] Instance pt_frame_preorder root : PreOrder (pt_frame root).
Proof.
  split.
  - intros k. by split.
  - intros k1 k2 k3 [Hd1 Hf1 Hh1] [Hd2 Hf2 Hh2]. split; [|set_solver|congruence].
    intros p [Hp1 Hm1]%Hd1. destruct (Hd2 p Hp1) as [Hp2 Hm2]. split; [done|].
    intros x Hx. by rewrite Hm2, Hm1.
Qed.

Definition same_leaves (root : Z) (k k' : kmem) : Prop :=
  ∀ q j, length q = 3%nat → path_ok 3 q → idx_ok j →
    leaf (k_mem k') root q j = leaf (k_mem k) root q j.

Lemma aligned_div t x : t mod PAGE_SIZE = 0 → t ≤ x < t + PAGE_SIZE → x / PAGE_SIZE = t / PAGE_SIZE.
Proof.
  unfold PAGE_SIZE. intros Ht Hx. pose proof (Z.div_mod t 4096 ltac:(lia)).
  symmetry. apply (Z.div_unique x 4096 _ (x - t)); lia.
Qed.

(** ** Installing a table *)

Section add_table.
Context (k : kmem) (root : Z) (Hwf : pt_wf k root).
Context (pp : list Z) (parent idx t : Z).
Context (Hpp : path_ok 2 pp) (Hidx : idx_ok idx).
Context (Hparent : node (k_mem k) root pp = Some parent).
Context (Hnone : follow (k_mem k) parent idx = None).
Context (Ht : 0 ≤ t < 2^48) (Htm : t mod PAGE_SIZE = 0).
Context (Hfresh : ∀ q u, path_ok 3 q → node (k_mem k) root q = Some u → u ≠ t).

Local Notation v := (Z.lor (Z.lor t PageDescFlags.TABLE) PageDescFlags.VALID).
Local Notation m' := (write_u64 (entry_addr parent idx) v (mem_fill t 0 PAGE_SIZE (k_mem k))).

Lemma parent_apart : parent + PAGE_SIZE ≤ t ∨ t + PAGE_SIZE ≤ parent.
Proof.
  assert (path_ok 3 pp) as Hpp3 by (eapply path_ok_mono; [|done]; lia).
  destruct (pw_table _ _ Hwf pp parent Hpp3 Hparent) as (_ & Hm & _).
  apply pages_apart; [done..|]. by eapply Hfresh.
Qed.

(** The new table is empty. *)
Lemma add_table_empty j : idx_ok j → read_u64 m' (entry_addr t j) = 0.
Proof.
  intros Hj. pose proof parent_apart. unfold idx_ok, entry_addr, PAGE_SIZE in *.
  rewrite read_write_u64_ne by lia. apply read_fill_u64; lia.
Qed.

(** Entries of the old tables, apart from the new link, are as before. *)
Lemma add_table_old q u j : path_ok 3 q → node (k_mem k) root q = Some u → idx_ok j →
  ¬ (u = parent ∧ j = idx) → read_u64 m' (entry_addr u j) = read_u64 (k_mem k) (entry_addr u j).
Proof.
  intros Hq Hu Hj Hne. pose proof (Hfresh q u Hq Hu) as Hut.
  assert (path_ok 3 pp) as Hpp3 by (eapply path_ok_mono; [|done]; lia).
  destruct (pw_table _ _ Hwf q u Hq Hu) as (_ & Hum & _).
  destruct (pw_table _ _ Hwf pp parent Hpp3 Hparent) as (_ & Hpm & _).
  transitivity (read_u64 (mem_fill t 0 PAGE_SIZE (k_mem k)) (entry_addr u j)).
  - apply read_write_u64_ne. destruct (decide (u = parent)) as [->|Hup].
    + apply entries_apart. naive_solver.
    + destruct (pages_apart u parent Hum Hpm Hup);
        unfold idx_ok, entry_addr, PAGE_SIZE in *; lia.
  - apply read_u64_ext. intros x Hx. apply mem_fill_out.
    pose proof (entry_in_page _ _ _ Hj Hx). destruct (pages_apart u t Hum Htm Hut); lia.
Qed.

Lemma add_table_link : follow m' parent idx = Some t.
Proof.
  destruct (table_descriptor t Ht Htm) as (Hv & Hvalid & Hmask).
  unfold follow. rewrite read_write_u64 by done. by rewrite Hvalid, Hmask.
Qed.

Lemma add_table_node q : path_ok 3 q →
  (∃ r, q = (pp ++ [idx]) ++ r ∧ r ≠ [] ∧ node m' root q = None) ∨
  (q = pp ++ [idx] ∧ node m' root q = Some t) ∨
  ((∀ r, q ≠ (pp ++ [idx]) ++ r) ∧ node m' root q = node (k_mem k) root q).
Proof.
  assert (path_ok 3 pp) as Hpp3 by (eapply path_ok_mono; [|done]; lia).
  induction q as [|j q IH] using rev_ind; intros Hq.
  { right; right. split; [|done]. intros r Hr. destruct pp; done. }
  apply path_ok_snoc in Hq as [Hq Hj].
  assert (path_ok 3 q) as Hq3 by (eapply path_ok_mono; [|done]; lia).
  assert (∀ r, r ≠ [] → q ++ [j] = (pp ++ [idx]) ++ r → ∃ r', q = (pp ++ [idx]) ++ r') as Hpre.
  { intros r Hr. destruct r as [|x r _] using rev_ind; [done|].
    rewrite (assoc_L (++)). intros [-> _]%app_inj_tail. by exists r. }
  rewrite !node_snoc. destruct (IH Hq3) as [(r & -> & _ & Hn)|[[-> Hn]|[Hnp Hn]]]; rewrite Hn.
  - left. exists (r ++ [j]). rewrite (assoc_L (++)). split_and!; [done| |done].
    intros H%app_nil. naive_solver.
  - left. exists [j]. split_and!; [done..|]. simpl. unfold follow.
    by rewrite add_table_empty.
  - destruct (node (k_mem k) root q) as [u|] eqn:Hu; simpl.
    + destruct (decide (u = parent ∧ j = idx)) as [[-> ->]|Hne].
      * right; left. split; [|apply add_table_link]. f_equal.
        by apply (pw_inj _ _ Hwf q pp parent).
      * right; right. split; [|unfold follow; by rewrite (add_table_old q)].
        intros r Hr. destruct (decide (r = [])) as [->|Hrn]; [|by destruct (Hpre r Hrn Hr) as [r' ?]; eapply Hnp].
        rewrite (right_id_L [] (++)) in Hr. apply app_inj_tail in Hr as [-> ->].
        rewrite Hparent in Hu. naive_solver.
    + right; right. split; [|done]. intros r Hr.
      destruct (decide (r = [])) as [->|Hrn]; [|by destruct (Hpre r Hrn Hr) as [r' ?]; eapply Hnp].
      rewrite (right_id_L [] (++)) in Hr. apply app_inj_tail in Hr as [-> ->]. congruence.
Qed.

Lemma add_table_below r : r ≠ [] → node (k_mem k) root ((pp ++ [idx]) ++ r) = None.
Proof. intros _. rewrite node_app, node_snoc, Hparent. simpl. by rewrite Hnone. Qed.

Lemma add_table_at : node (k_mem k) root (pp ++ [idx]) = None.
Proof. rewrite node_snoc, Hparent. exact Hnone. Qed.

Lemma add_table_keeps q u : path_ok 3 q → node (k_mem k) root q = Some u → node m' root q = Some u.
Proof.
  intros Hq Hu. destruct (add_table_node q Hq) as [(r & -> & Hr & _)|[[-> _]|[_ ->]]]; [| |done].
  - by rewrite add_table_below in Hu.
  - by rewrite add_table_at in Hu.
Qed.

Lemma add_table_leaf q j : length q = 3%nat → path_ok 3 q → idx_ok j →
  leaf m' root q j = leaf (k_mem k) root q j.
Proof.
  intros Hlen Hq Hj. unfold leaf.
  destruct (add_table_node q Hq) as [(r & -> & Hr & ->)|[[-> ->]|[_ ->]]].
  - by rewrite add_table_below.
  - rewrite add_table_at. simpl. by rewrite add_table_empty.
  - destruct (node (k_mem k) root q) as [u|] eqn:Hu; [|done]. simpl.
    rewrite (add_table_old q u j Hq Hu Hj); [done|]. intros [-> _].
    assert (path_ok 3 pp) as Hpp3 by (eapply path_ok_mono; [|done]; lia).
    assert (q = pp) as -> by (by apply (pw_inj _ _ Hwf q pp parent)). destruct Hpp. lia.
Qed.

Lemma add_table_wf b' : buddy_ok b' → t / PAGE_SIZE :: free_page_list b' ≡ₚ free_page_list (k_buddy k) →
  pt_wf (on_mem (λ _, m') (set_buddy b' k)) root.
Proof.
  intros Hb' Hp. pose proof (pw_nodup _ _ Hwf) as Hnd. rewrite <- Hp in Hnd.
  apply NoDup_cons in Hnd as [Hnin Hnd].
  assert (∀ q u, path_ok 3 q → node m' root q = Some u →
    node (k_mem k) root q = Some u ∨ q = pp ++ [idx] ∧ u = t) as Hcases.
  { intros q u Hq. destruct (add_table_node q Hq) as [(r & _ & _ & ->)|[[-> ->]|[_ ->]]];
      [done| |by left]. intros [= ->]. by right. }
  split; simpl; [done|done| | |].
  - intros p Hin. apply (pw_free _ _ Hwf). rewrite <- Hp. by right.
  - intros q u Hq [Hu|[_ ->]]%Hcases; [|done|done].
    destruct (pw_table _ _ Hwf q u Hq Hu) as (? & ? & Hn). split; [done|split; [done|]].
    intros Hin. apply Hn. rewrite <- Hp. by right.
  - intros p q u Hpok Hqok Hpu Hqu.
    destruct (Hcases p u Hpok Hpu) as [Hpo|[-> ->]], (Hcases q _ Hqok Hqu) as [Hqo|[-> ?]]; subst.
    + by apply (pw_inj _ _ Hwf p q u).
    + by destruct (Hfresh p t Hpok Hpo).
    + by destruct (Hfresh q t Hqok Hqo).
    + done.
Qed.
Lemma add_table_frame b' :
  t / PAGE_SIZE :: free_page_list b' ≡ₚ free_page_list (k_buddy k) →
  pt_frame root k (on_mem (λ _, m') (set_buddy b' k)).
Proof.
  intros Hp. assert (path_ok 3 pp) as Hpp3 by (eapply path_ok_mono; [|done]; lia).
  split; simpl; [|rewrite <- Hp; set_solver|done].
  intros p [Hnf Hnt]. rewrite <- Hp in Hnf. apply not_elem_of_cons in Hnf as [Hpt Hnf].
  split; [split; [done|]|].
  - intros (q & u & Hq & Hu & <-). simpl in Hu. apply Hnt.
    destruct (add_table_node q Hq) as [(r & _ & _ & Hn)|[[-> Hn]|[_ Hn]]]; rewrite Hn in Hu;
      [done|naive_solver|]. by exists q, u.
  - intros x Hx. rewrite write_u64_out.
    + apply mem_fill_out. intros Hin. rewrite (aligned_div t) in Hx by done. congruence.
    + intros Hin%entry_in_page; [|done]. apply Hnt. exists pp, parent. split_and!; [done..|].
      rewrite <- Hx. symmetry. apply aligned_div; [|done]. by eapply (pw_table _ _ Hwf pp).
Qed.
End add_table.

(** [ensure_table] finds or installs the table and changes no leaf. *)
Lemma ensure_table_spec k root pp parent idx :
  pt_wf k root → path_ok 2 pp → idx_ok idx → node (k_mem k) root pp = Some parent →
  ∃ r k', ensure_table parent idx k = Ret (r, k') ∧
    pt_wf k' root ∧ pt_frame root k k' ∧ same_leaves root k k' ∧
    match r with
    | Some t => node (k_mem k') root (pp ++ [idx]) = Some t
    | None => True
    end.
Proof.
  intros Hwf Hpp Hidx Hparent. unfold ensure_table.
  destruct (follow (k_mem k) parent idx) as [t|] eqn:Hf.
  - exists (Some t), k. unfold mbind, st_bind, st_get. unfold follow in Hf.
    destruct (_ =? 0) eqn:He; [done|]. simpl. injection Hf as <-.
    split_and!; [done..|]. rewrite node_snoc, Hparent. simpl. unfold follow. by rewrite He.
  - assert (Z.land (read_u64 (k_mem k) (entry_addr parent idx)) PageDescFlags.VALID =? 0 = true) as He.
    { unfold follow in Hf. by destruct (_ =? 0). }
    unfold mbind, st_bind, st_get. rewrite He. simpl.
    unfold alloc_zeroed_page, mbind, st_bind, k_alloc.
    rewrite buddy_alloc_run by (unfold MAX_ORDER; lia).
    destruct (alloc_loop 0 0 (MAX_ORDER - 0) (k_buddy k)) as [r b'] eqn:Hal.
    assert (buddy_alloc 0 (k_buddy k) = Ret (r, b')) as Hba.
    { rewrite buddy_alloc_run by (unfold MAX_ORDER; lia). by rewrite Hal. }
    destruct (buddy_alloc_ok _ _ _ _ (pw_buddy _ _ Hwf) Hba) as (_ & Hb' & Hr).
    destruct r as [t|].
    2: { subst b'. exists None, k. split_and!; try done. by destruct k. }
    destruct Hr as [Hblk Hperm].
    assert (pages_of t 0 = [t / PAGE_SIZE]) as Hone.
    { unfold pages_of. simpl. change (2 ^ 0) with 1. by rewrite seqZ_cons, seqZ_nil. }
    rewrite Hone in Hperm. simpl in Hperm.
    assert (t / PAGE_SIZE ∈ free_page_list (k_buddy k)) as Hin by (rewrite <- Hperm; left).
    pose proof (block_ok_page _ _ Hblk) as Htm.
    assert (0 ≤ t < 2^48) as Ht.
    { destruct (pw_free _ _ Hwf _ Hin) as [? ?]. unfold PAGE_SIZE in *.
      pose proof (Z.div_mod t 4096 ltac:(lia)). lia. }
    assert (∀ q u, path_ok 3 q → node (k_mem k) root q = Some u → u ≠ t) as Hfresh.
    { intros q u Hq Hu ->. by destruct (pw_table _ _ Hwf q t Hq Hu) as (_ & _ & Hn). }
    exists (Some t), (on_mem (λ _, write_u64 (entry_addr parent idx)
      (Z.lor (Z.lor t PageDescFlags.TABLE) PageDescFlags.VALID)
      (mem_fill t 0 PAGE_SIZE (k_mem k))) (set_buddy b' k)). split; [reflexivity|].
    split_and!.
    + by eapply add_table_wf.
    + by eapply add_table_frame.
    + intros q j Hlen Hq Hj. simpl. by eapply add_table_leaf.
    + simpl. rewrite node_snoc, (add_table_keeps k root Hwf pp parent idx t) with (u := parent);
        try done; [|by eapply path_ok_mono; [|done]; lia]. simpl. by apply add_table_link.
Qed.

(** ** Virtual addresses and paths *)

Lemma level_index_eq s v : 0 ≤ s → level_index s v = (v / 2^s) mod 512.
Proof.
  intros Hs. unfold level_index. change 511 with (Z.ones 9).
  by rewrite Z.land_ones, Z.shiftr_div_pow2 by lia.
Qed.

Lemma level_index_ok s v : 0 ≤ s → idx_ok (level_index s v).
Proof. intros Hs. rewrite level_index_eq by done. apply Z.mod_pos_bound. lia. Qed.

Lemma vpath_ok v : path_ok 3 (vpath v).
Proof. split; [simpl; lia|]. repeat constructor; apply level_index_ok; lia. Qed.

(** The indices determine the page of a 48-bit address. *)
Lemma vpath_inj v w : 0 ≤ v < 2^48 → 0 ≤ w < 2^48 →
  vpath v = vpath w → level_index 12 v = level_index 12 w → v / PAGE_SIZE = w / PAGE_SIZE.
Proof.
  intros Hv Hw. unfold vpath. intros [= H0 H1 H2] H3. rewrite !level_index_eq in * by lia.
  assert (∀ x, 0 ≤ x < 2^48 → x / PAGE_SIZE =
    512 * (512 * (512 * ((x / 2^39) mod 512) + (x / 2^30) mod 512) + (x / 2^21) mod 512)
      + (x / 2^12) mod 512) as Hx; [|rewrite (Hx v Hv), (Hx w Hw); congruence].
  clear. intros x Hx.
  assert (x / 2^21 = x / 2^12 / 512) as -> by (by rewrite Z.div_div).
  assert (x / 2^30 = x / 2^12 / 512 / 512) as -> by (by rewrite !Z.div_div).
  assert (x / 2^39 = x / 2^12 / 512 / 512 / 512) as -> by (by rewrite !Z.div_div).
  change PAGE_SIZE with (2^12). set (d := x / 2^12).
  assert (0 ≤ d < 2^36) as Hd.
  { split; [apply Z.div_pos; lia|]. apply Z.div_lt_upper_bound; lia. }
  pose proof (Z.div_mod d 512 ltac:(lia)). pose proof (Z.div_mod (d / 512) 512 ltac:(lia)).
  pose proof (Z.div_mod (d / 512 / 512) 512 ltac:(lia)).
  rewrite (Z.mod_small (d / 512 / 512 / 512)); [lia|].
  split; [repeat apply Z.div_pos; lia|]. repeat (apply Z.div_lt_upper_bound; [lia|]). lia.
Qed.

(** ** The operations *)

(** The translation of [virt] becomes [e]; all others stay. *)
Definition remapped (root virt : Z) (e : option Z) (k k' : kmem) : Prop :=
  pt_wf k' root ∧ pt_frame root k k' ∧
  ∀ v, 0 ≤ v < 2^48 → lookup_entry (k_mem k') root v =
    if v / PAGE_SIZE =? virt / PAGE_SIZE then e else lookup_entry (k_mem k) root v.

Lemma same_leaves_lookup root k k' v :
  same_leaves root k k' → lookup_entry (k_mem k') root v = lookup_entry (k_mem k) root v.
Proof. intros Hs. apply Hs; [done|apply vpath_ok|by apply level_index_ok]. Qed.

Lemma same_page_indices v w : v / PAGE_SIZE = w / PAGE_SIZE →
  vpath v = vpath w ∧ level_index 12 v = level_index 12 w.
Proof.
  intros Hvw. assert (∀ s, 12 ≤ s → level_index s v = level_index s w) as Hl.
  { intros s Hs. rewrite !level_index_eq by lia. replace s with (12 + (s - 12)) by lia.
    rewrite Z.pow_add_r, <- !Z.div_div by lia. change (2^12) with PAGE_SIZE. by rewrite Hvw. }
  unfold vpath. by rewrite (Hl 39), (Hl 30), (Hl 21), (Hl 12) by lia.
Qed.

(** Writing the leaf entry of [virt]. *)
Lemma leaf_write_remaps k root virt t3 v :
  pt_wf k root → node (k_mem k) root (vpath virt) = Some t3 → 0 ≤ v < 2^64 → 0 ≤ virt < 2^48 →
  remapped root virt (if Z.land v PageDescFlags.VALID =? 0 then None else Some v) k
    (on_mem (write_u64 (entry_addr t3 (level_index 12 virt)) v) k).
Proof.
  intros Hwf Ht3 Hv Hvirt. pose proof (vpath_ok virt) as Hok.
  assert (idx_ok (level_index 12 virt)) as Hi by (by apply level_index_ok).
  split; [|split].
  - by apply (leaf_write_wf k root Hwf (vpath virt) t3).
  - split; simpl; [|done|done]. intros p [Hnf Hnt]. split; [split; [done|]|].
    + intros (q & u & Hq & Hu & <-). simpl in Hu. apply Hnt.
      rewrite (leaf_write_node k root Hwf (vpath virt)) in Hu by done. by exists q, u.
    + intros x Hx. apply write_u64_out. intros Hin%entry_in_page; [|done]. apply Hnt.
      exists (vpath virt), t3. split_and!; [apply Hok..|done|]. rewrite <- Hx. symmetry.
      apply aligned_div; [|done]. by eapply (pw_table _ _ Hwf (vpath virt)).
  - intros w Hw. unfold lookup_entry. simpl.
    rewrite (leaf_write_leaf k root Hwf (vpath virt)); try done;
      [|apply vpath_ok|by apply level_index_ok].
    destruct (Z.eqb_spec (w / PAGE_SIZE) (virt / PAGE_SIZE)) as [Heq|Hne].
    + destruct (same_page_indices _ _ Heq) as [-> ->]. by rewrite decide_True.
    + rewrite decide_False; [done|]. intros [Hp Hl]. destruct Hne. by apply vpath_inj.
Qed.

(** No translation changes. *)
Definition unmapped_same (root : Z) (k k' : kmem) : Prop :=
  pt_wf k' root ∧ pt_frame root k k' ∧
  ∀ v, lookup_entry (k_mem k') root v = lookup_entry (k_mem k) root v.

Lemma remapped_trans root virt e k k1 k' :
  pt_frame root k k1 → same_leaves root k k1 → remapped root virt e k1 k' → remapped root virt e k k'.
Proof.
  intros Hf Hl (Hwf & Hf' & Hv). split_and!; [done|by etrans|].
  intros v Hvr. rewrite Hv by done. by rewrite (same_leaves_lookup root k k1).
Qed.

Lemma same_leaves_trans root k k1 k2 :
  same_leaves root k k1 → same_leaves root k1 k2 → same_leaves root k k2.
Proof. intros H1 H2 q j Hl Hq Hj. by rewrite H2, H1. Qed.

Ltac solve_path :=
  split; [simpl; lia|repeat (apply Forall_cons; split; [done|]); apply Forall_nil; done].

Lemma map_4k_ok k root virt phys flags :
  pt_wf k root → 0 ≤ virt < 2^48 → 0 ≤ Z.lor (Z.lor phys flags) 3 < 2^64 →
  ∃ b k', map_4k root virt phys flags k = Ret (b, k') ∧
    if b then remapped root virt (Some (Z.lor (Z.lor phys flags) 3)) k k'
    else unmapped_same root k k'.
Proof.
  intros Hwf Hvirt He.
  pose proof (level_index_ok 39 virt ltac:(lia)). pose proof (level_index_ok 30 virt ltac:(lia)).
  pose proof (level_index_ok 21 virt ltac:(lia)).
  unfold map_4k, mbind, st_bind.
  destruct (ensure_table_spec k root [] root (level_index 39 virt)) as
    (r1 & k1 & -> & Hwf1 & Hf1 & Hl1 & Hr1); [done|by solve_path|done|done|].
  assert (∀ k', pt_wf k' root → pt_frame root k k' → same_leaves root k k' → unmapped_same root k k')
    as Hfail by (intros k' ? ? ?; split_and!; [done..|]; intros v; by apply same_leaves_lookup).
  destruct r1 as [p1|]; [|by exists false, k1; eauto].
  destruct (ensure_table_spec k1 root [level_index 39 virt] p1 (level_index 30 virt)) as
    (r2 & k2 & -> & Hwf2 & Hf2 & Hl2 & Hr2); [done|by solve_path|done|done|].
  assert (pt_frame root k k2 ∧ same_leaves root k k2) as [Hf02 Hl02].
  { split; [by etrans|by eapply same_leaves_trans]. }
  destruct r2 as [p2|]; [|by exists false, k2; eauto].
  destruct (ensure_table_spec k2 root [level_index 39 virt; level_index 30 virt] p2 (level_index 21 virt))
    as (r3 & k3 & -> & Hwf3 & Hf3 & Hl3 & Hr3);
    [done|by solve_path|done|done|].
  assert (pt_frame root k k3 ∧ same_leaves root k k3) as [Hf03 Hl03].
  { split; [by etrans|by eapply same_leaves_trans]. }
  destruct r3 as [p3|]; [|by exists false, k3; eauto].
  eexists true, _. split; [reflexivity|]. eapply remapped_trans; [done..|].
  pose proof (leaf_write_remaps k3 root virt p3 (Z.lor (Z.lor phys flags) 3) Hwf3 Hr3 He Hvirt) as Hw.
  assert (Z.land (Z.lor (Z.lor phys flags) 3) PageDescFlags.VALID =? 0 = false) as Hvalid.
  { apply Z.eqb_neq. intros Hz. apply (f_equal (λ z, Z.testbit z 0)) in Hz.
    by rewrite Z.land_spec, Z.lor_spec, orb_true_r in Hz. }
  by rewrite Hvalid in Hw.
Qed.

Lemma unmap_4k_ok k root virt :
  pt_wf k root → 0 ≤ virt < 2^48 →
  ∃ k', unmap_4k root virt k = Ret (tt, k') ∧ remapped root virt None k k'.
Proof.
  intros Hwf Hvirt. unfold unmap_4k, st_lift.
  assert (node (k_mem k) root (vpath virt) = None → remapped root virt None k k) as Hsame.
  { intros Hn. split_and!; [done..|]. intros v Hv.
    destruct (Z.eqb_spec (v / PAGE_SIZE) (virt / PAGE_SIZE)) as [Heq|]; [|done].
    unfold lookup_entry, leaf. destruct (same_page_indices _ _ Heq) as [-> _]. by rewrite Hn. }
  unfold vpath in Hsame. simpl in Hsame.
  destruct (follow (k_mem k) root _) as [p1|] eqn:H1; simpl in Hsame; [|by exists k; eauto].
  destruct (follow (k_mem k) p1 _) as [p2|] eqn:H2; simpl in Hsame; [|by exists k; eauto].
  destruct (follow (k_mem k) p2 _) as [p3|] eqn:H3; simpl in Hsame; [|by exists k; eauto].
  eexists. split; [reflexivity|]. apply (leaf_write_remaps k root virt p3 0); [done| |done|done].
  unfold vpath. simpl. by rewrite H1; simpl; rewrite H2; simpl; rewrite H3.
Qed.

(** ** Permissions *)

(** What the attribute bits of a descriptor say for the requested flags. *)
Definition attrs_ok (flags e : Z) : Prop :=
  Z.testbit e 6 = PageFlags.contains flags PageFlags.USER ∧
  Z.testbit e 7 = negb (PageFlags.contains flags PageFlags.WRITABLE) ∧
  Z.testbit e 54 = negb (PageFlags.contains flags PageFlags.EXECUTE) ∧
  Z.testbit e 2 = PageFlags.contains flags PageFlags.NOCACHE.

Definition attrs_check (src : Z) : bool :=
  let f := translate_flags src in
  (Z.land f ADDR_MASK =? 0) && (0 <=? f) && (f <? 2^64) &&
  eqb (Z.testbit f 6) (PageFlags.contains src PageFlags.USER) &&
  eqb (Z.testbit f 7) (negb (PageFlags.contains src PageFlags.WRITABLE)) &&
  eqb (Z.testbit f 54) (negb (PageFlags.contains src PageFlags.EXECUTE)) &&
  eqb (Z.testbit f 2) (PageFlags.contains src PageFlags.NOCACHE).

Lemma translate_flags_ok flags :
  Z.land (translate_flags flags) ADDR_MASK = 0 ∧ fits 64 (translate_flags flags) ∧
  attrs_ok flags (translate_flags flags).
Proof.
  set (src := Z.land flags PageFlags.all).
  assert (∀ f, Z.land PageFlags.all f = f → PageFlags.contains src f = PageFlags.contains flags f) as Hc.
  { intros f Hf. unfold PageFlags.contains, src. by rewrite <- Z.land_assoc, Hf. }
  assert (translate_flags flags = translate_flags src) as ->.
  { unfold translate_flags. fold src.
    assert (Z.land src PageFlags.all = src) as ->; [|done].
    unfold src. by rewrite <- Z.land_assoc, Z.land_diag. }
  assert (attrs_check src = true) as Hcheck.
  { assert (forallb attrs_check (seqZ 0 32) = true) as Hall by reflexivity.
    rewrite forallb_forall in Hall. apply Hall, list_elem_of_In, elem_of_seqZ.
    unfold src. change PageFlags.all with (Z.ones 5). rewrite Z.land_ones by lia.
    apply Z.mod_pos_bound. lia. }
  unfold attrs_check in Hcheck. rewrite !andb_true_iff, !eqb_true_iff in Hcheck.
  rewrite Z.eqb_eq, Z.leb_le, Z.ltb_lt, !Hc in Hcheck by done.
  unfold fits, attrs_ok. tauto.
Qed.

(** The descriptor that [arch_map_page] writes. *)
Definition descriptor (phys flags : Z) : Z := Z.lor (Z.lor phys (translate_flags flags)) 3.

Lemma descriptor_ok phys flags : 0 ≤ phys < 2^48 → phys mod PAGE_SIZE = 0 →
  fits 64 (descriptor phys flags) ∧ entry_phys (descriptor phys flags) = phys ∧
  attrs_ok flags (descriptor phys flags).
Proof.
  intros Hp Hm. destruct (translate_flags_ok flags) as (Hmask & Hfit & H6 & H7 & H54 & H2).
  unfold descriptor. rewrite <- Z.lor_assoc. split_and!.
  - apply fits_lor; [lia|unfold fits; lia|]. apply fits_lor; done.
  - apply descriptor_phys; [done..|]. rewrite Z.land_lor_distr_l, Hmask. done.
  - assert (∀ i, 0 ≤ i < 12 ∨ 48 ≤ i → Z.testbit phys i = false) as Hbit.
    { intros i [Hi|Hi]; [|by apply (testbit_high 48); lia].
      change PAGE_SIZE with (2^12) in Hm.
      rewrite <- (Z.mod_pow2_bits_low phys 12 i), Hm by lia. apply Z.bits_0. }
    unfold attrs_ok. rewrite !Z.lor_spec, !Hbit by lia. simpl.
    rewrite !orb_false_r. done.
Qed.

(** ** The properties *)

(** C22: Mapping a page installs exactly that page.  On well-formed tables
    [arch_map_page] never panics and keeps the tables well-formed.  If it
    returns true, the hardware's walk of [virt] finds a descriptor for [phys]
    whose user, read-only, no-execute and device bits are those the flags ask
    for; if it returns false (no memory for a table), the walk of [virt] is as
    before.  The walk of every other page is unchanged in both cases. *)
Theorem arch_map_page_spec k root virt phys flags :
  pt_wf k root → 0 ≤ virt < 2^48 → 0 ≤ phys < 2^48 → phys mod PAGE_SIZE = 0 →
  ∃ b k', arch_map_page root virt phys flags k = Ret (b, k') ∧ pt_wf k' root ∧
    (∀ v, 0 ≤ v < 2^48 → v / PAGE_SIZE ≠ virt / PAGE_SIZE →
       lookup_entry (k_mem k') root v = lookup_entry (k_mem k) root v) ∧
    if b then ∃ e, lookup_entry (k_mem k') root virt = Some e ∧
                   entry_phys e = phys ∧ attrs_ok flags e
    else lookup_entry (k_mem k') root virt = lookup_entry (k_mem k) root virt.
Proof.
  intros Hwf Hv Hp Hm. destruct (descriptor_ok phys flags Hp Hm) as (Hfit & Hphys & Hattr).
  destruct (map_4k_ok k root virt phys (translate_flags flags) Hwf Hv Hfit) as (b & k' & Hr & Hb).
  exists b, k'. split; [exact Hr|]. destruct b.
  - destruct Hb as (Hwf' & _ & Hlook). split_and!; [done| |].
    + intros v Hvr Hne. by rewrite Hlook, (proj2 (Z.eqb_neq _ _) Hne).
    + exists (descriptor phys flags). rewrite Hlook by done. by rewrite Z.eqb_refl.
  - destruct Hb as (Hwf' & _ & Hlook). split_and!; [done|by intros|done].
Qed.

(** Unmapping removes exactly one page: afterwards the walk of [virt] finds
    nothing, every other page is translated as before, and the tables stay
    well-formed. *)
Theorem arch_unmap_page_spec k root virt :
  pt_wf k root → 0 ≤ virt < 2^48 →
  ∃ k', arch_unmap_page root virt k = Ret (tt, k') ∧ pt_wf k' root ∧
    ∀ v, 0 ≤ v < 2^48 → lookup_entry (k_mem k') root v =
      if v / PAGE_SIZE =? virt / PAGE_SIZE then None else lookup_entry (k_mem k) root v.
Proof.
  intros Hwf Hv. destruct (unmap_4k_ok k root virt Hwf Hv) as (k' & Hr & Hwf' & _ & Hlook).
  by exists k'.
Qed.

(** Empty tables are well-formed. *)
Lemma zero_node root i p : node (λ _, 0) root (i :: p) = None.
Proof. done. Qed.

(** A memory of zeros with the root table in page 1 and pages 4 to 7 free. *)
Definition zero_kmem : kmem :=
  mkKmem (mkBuddy (<[2%nat := Some 16384]> (replicate MAX_ORDER None)) 4 4) 0 (λ _, 0) 0.

Lemma zero_kmem_wf : pt_wf zero_kmem 4096.
Proof.
  split.
  - split; [done|]. intros o a Ho. simpl in Ho. do 2 (destruct o as [|o]; [done|]).
    destruct o as [|o]; [simpl in Ho; simplify_eq; by split_and!|].
    do 8 (destruct o as [|o]; [done|]). done.
  - change (free_page_list _) with (seqZ 4 4). apply NoDup_seqZ.
  - change (free_page_list _) with (seqZ 4 4). intros p Hp%elem_of_seqZ. unfold PAGE_SIZE. lia.
  - change (free_page_list _) with (seqZ 4 4). intros [|i path] t _; [|by rewrite zero_node].
    intros [= <-]. rewrite elem_of_seqZ. unfold PAGE_SIZE. vm_compute. intuition congruence.
  - intros [|i p] [|j q] t _ _; [done|by rewrite zero_node..].
Qed.

Lemma arch_map_page_spec_witness :
  ∃ b k', arch_map_page 4096 0x400000 0x8000 (Z.lor PageFlags.USER PageFlags.EXECUTE) zero_kmem
    = Ret (b, k') ∧ pt_wf k' 4096.
Proof.
  destruct (arch_map_page_spec zero_kmem 4096 0x400000 0x8000 (Z.lor PageFlags.USER PageFlags.EXECUTE))
    as (b & k' & Hr & Hwf & _); [apply zero_kmem_wf|lia|lia|done|].
  exists b, k'. split; [exact Hr|exact Hwf].
Defined.

Lemma arch_unmap_page_spec_witness :
  ∃ k', arch_unmap_page 4096 0x400000 zero_kmem = Ret (tt, k') ∧
    lookup_entry (k_mem k') 4096 0x400000 = None.
Proof.
  destruct (arch_unmap_page_spec zero_kmem 4096 0x400000) as (k' & Hr & _ & Hl);
    [apply zero_kmem_wf|lia|].
  exists k'. split; [exact Hr|]. rewrite Hl by lia. reflexivity.
Defined.
