(* ===== verification/Vmm.v ===== *)
(** * Address spaces (src/mm/src/vmm.rs, src/mm/src/cow.rs)

    [AddressSpace] with its operations and [clone_as].  What the operations need
    from the rest of the system (page allocator, page tables, memory) is the
    class [Machine]; [kmem] with the AArch64 page tables is its instance. *)

From stdpp Require Import base list option numbers.
From Stdlib Require Import ZArith Lia.
From S2P Require Import Prelude Words CyLib Buddy Memory Slab Paging.

Local Open Scope Z_scope.

(** ** The machine *)

Class Machine (M : Type) := {
  m_alloc : nat → st M (option Z);
  m_free : Z → nat → st M unit;
  m_map : Z → Z → Z → Z → st M bool;
  m_unmap : Z → Z → st M unit;
  m_shootdown : st M unit;
  (** [phys_to_virt(phys).write_bytes(0, n)] *)
  m_zero : Z → Z → st M unit;
  (** [copy_nonoverlapping(phys_to_virt(src), phys_to_virt(dst), n)] *)
  m_copy : Z → Z → Z → st M unit;
  m_read : Z → Z → M → list Z;
  m_write : Z → list Z → st M unit
}.

#[export] Instance kmem_machine : Machine kmem := {|
  m_alloc := k_alloc;
  m_free := k_free;
  m_map := map_page;
  m_unmap := unmap_page;
  m_shootdown := tlb_shootdown_all;
  m_zero := λ phys n, st_modify (λ k, on_mem (mem_fill (phys_to_virt phys k) 0 n) k);
  m_copy := λ src dst n, st_modify (λ k,
    on_mem (mem_copy (phys_to_virt src k) (phys_to_virt dst k) n) k);
  m_read := λ phys n k, mem_read (k_mem k) (phys_to_virt phys k) n;
  m_write := λ phys bs, st_modify (λ k, on_mem (mem_write (phys_to_virt phys k) bs) k)
|}.

(** ** Data *)

Definition PROT_NONE : Z := 0.
Definition PROT_READ : Z := Z.shiftl 1 0.
Definition PROT_WRITE : Z := Z.shiftl 1 1.
Definition PROT_EXEC : Z := Z.shiftl 1 2.
Definition MAP_SHARED : Z := Z.shiftl 1 0.
Definition MAP_PRIVATE : Z := Z.shiftl 1 1.
Definition MAP_ANONYMOUS : Z := Z.shiftl 1 5.
Definition MAP_FIXED : Z := Z.shiftl 1 4.

Record VmaRegion := mkVma {
  v_start : Z;
  v_end : Z;
  v_phys : Z;
  v_flags : Z;
  v_lazy : bool;
  v_lazy_pages : list Z;
  v_lazy_count : Z;
  v_prot : Z;
  v_map_flags : Z;
  v_file_cap : Z;
  v_file_off : Z;
  v_cow : bool
}.

Record AddressSpace := mkAS {
  page_table_root : Z;
  regions : list (option VmaRegion);
  heap_start : Z;
  heap_end : Z
}.

Definition AddressSpace_new (page_table_root : Z) : AddressSpace :=
  mkAS page_table_root (replicate 8 None) 0 0.

Definition set_regions (rs : list (option VmaRegion)) (a : AddressSpace) : AddressSpace :=
  mkAS (page_table_root a) rs (heap_start a) (heap_end a).

Definition set_heap_end (e : Z) (a : AddressSpace) : AddressSpace :=
  mkAS (page_table_root a) (regions a) (heap_start a) e.

Definition set_end (e : Z) (r : VmaRegion) : VmaRegion :=
  mkVma (v_start r) e (v_phys r) (v_flags r) (v_lazy r) (v_lazy_pages r) (v_lazy_count r)
    (v_prot r) (v_map_flags r) (v_file_cap r) (v_file_off r) (v_cow r).

Definition set_start_phys (s phys : Z) (r : VmaRegion) : VmaRegion :=
  mkVma s (v_end r) phys (v_flags r) (v_lazy r) (v_lazy_pages r) (v_lazy_count r)
    (v_prot r) (v_map_flags r) (v_file_cap r) (v_file_off r) (v_cow r).

Definition set_lazy_pages (ps : list Z) (count : Z) (r : VmaRegion) : VmaRegion :=
  mkVma (v_start r) (v_end r) (v_phys r) (v_flags r) (v_lazy r) ps count
    (v_prot r) (v_map_flags r) (v_file_cap r) (v_file_off r) (v_cow r).

Definition set_prot (prot flags : Z) (r : VmaRegion) : VmaRegion :=
  mkVma (v_start r) (v_end r) (v_phys r) flags (v_lazy r) (v_lazy_pages r) (v_lazy_count r)
    prot (v_map_flags r) (v_file_cap r) (v_file_off r) (v_cow r).

(** A fresh anonymous private mapping. *)
Definition new_vma (start end_ phys flags : Z) (lazy : bool) : VmaRegion :=
  mkVma start end_ phys flags lazy [] 0 (Z.lor PROT_READ PROT_WRITE)
    (Z.lor MAP_ANONYMOUS MAP_PRIVATE) 0 0 false.

(** [x & !(PAGE_SIZE - 1)] and [(x + PAGE_SIZE - 1) & !(PAGE_SIZE - 1)] *)
Definition page_down (x : Z) : Z := Z.land x (wnot (wsub PAGE_SIZE 1)).
Definition page_up (x : Z) : Z := page_down (wsub (wadd x PAGE_SIZE) 1).

(** [pages_to_order]: 64 doublings are enough for any page count. *)
Definition vmm_order (pages : Z) : nat := order_loop 64 1 0 pages.

(** [virt < r.end && end > r.start] *)
Definition overlaps (virt end_ : Z) (r : VmaRegion) : bool :=
  (virt <? v_end r) && (v_start r <? end_).

Definition any_overlap (virt end_ : Z) (rs : list (option VmaRegion)) : bool :=
  existsb (λ o, match o with Some r => overlaps virt end_ r | None => false end) rs.

Definition free_slot (rs : list (option VmaRegion)) : option nat :=
  position (λ o, match o with None => true | Some _ => false end) rs.

(** [fault_va >= r.start && fault_va < r.end] *)
Definition covers (va : Z) (o : option VmaRegion) : bool :=
  match o with Some r => (v_start r <=? va) && (va <? v_end r) | None => false end.

(** The VMA of [va] with its slot. *)
Definition find_vma (rs : list (option VmaRegion)) (va : Z) : option (nat * VmaRegion) :=
  i ← position (covers va) rs; r ← mjoin (rs !! i); Some (i, r).

Definition find (a : AddressSpace) (virt : Z) : option VmaRegion :=
  snd <$> find_vma (regions a) virt.

(** The slot, page-aligned start, page count and end of a new mapping, or
    [None] where [map] and [map_lazy] return false. *)
Definition place (a : AddressSpace) (virt size : Z) : option (nat * Z * Z * Z) :=
  if size =? 0 then None
  else
    slot ← free_slot (regions a);
    let virt := page_down virt in
    let pages := wsub (wadd size PAGE_SIZE) 1 / PAGE_SIZE in
    end_ ← checked_add virt (wmul pages PAGE_SIZE);
    if any_overlap virt end_ (regions a) then None else Some (slot, virt, pages, end_).

Definition map_lazy (virt size flags : Z) (a : AddressSpace) : bool * AddressSpace :=
  match place a virt size with
  | None => (false, a)
  | Some (slot, virt, _, end_) =>
      (true, set_regions (<[slot := Some (new_vma virt end_ 0 flags true)]> (regions a)) a)
  end.

Definition as_virt_to_phys (a : AddressSpace) (virt : Z) : option Z :=
  vma ← find a virt;
  if v_lazy vma then
    let offset := wsub virt (v_start vma) in
    let phys_page := default 0 (v_lazy_pages vma !! Z.to_nat (offset / PAGE_SIZE)) in
    if phys_page =? 0 then None else Some (wadd phys_page (offset mod PAGE_SIZE))
  else Some (wadd (v_phys vma) (wsub virt (v_start vma))).

(** ** Operations *)

Section operations.
Context {M : Type} `{Machine M}.

Abbreviation vm := (M * AddressSpace)%type.

(** Run an operation of the machine, keeping the address space. *)
Definition on_m {A} (c : st M A) : st vm A := λ '(m, a),
  match c m with Ret (x, m') => Ret (x, (m', a)) | Panic => Panic end.

Definition get_as : st vm AddressSpace := st_get snd.
Definition put_as (a : AddressSpace) : st vm unit := st_modify (λ '(m, _), (m, a)).

(** The [n] unmaps of a range of pages starting with page [i]. *)
Fixpoint unmap_loop (root virt : Z) (n i : nat) : st M unit :=
  match n with
  | O => mret tt
  | S n' =>
      m_unmap root (wadd virt (wmul (Z.of_nat i) PAGE_SIZE)) ≫= λ _,
      unmap_loop root virt n' (S i)
  end.

(** The mapping loop of [map], from page [i], with its roll-back. *)
Fixpoint map_loop (root virt phys flags : Z) (order : nat) (n i : nat) : st M bool :=
  match n with
  | O => mret true
  | S n' =>
      ok ← m_map root (wadd virt (wmul (Z.of_nat i) PAGE_SIZE))
                      (wadd phys (wmul (Z.of_nat i) PAGE_SIZE)) flags;
      if ok : bool then map_loop root virt phys flags order n' (S i)
      else
        unmap_loop root virt i 0 ≫= λ _,
        m_free phys order ≫= λ _, mret false
  end.

Definition map (virt size flags : Z) : st vm bool :=
  a ← get_as;
  match place a virt size with
  | None => mret false
  | Some (slot, virt, pages, end_) =>
      let order := vmm_order pages in
      r ← on_m (m_alloc order);
      match r with
      | None => mret false
      | Some phys =>
          on_m (m_zero phys (wmul pages PAGE_SIZE)) ≫= λ _,
          ok ← on_m (map_loop (page_table_root a) virt phys flags order (Z.to_nat pages) 0);
          if ok : bool then
            put_as (set_regions (<[slot :=
              Some (new_vma virt (wadd virt (wmul pages PAGE_SIZE)) phys flags false)]>
              (regions a)) a) ≫= λ _, mret true
          else mret false
      end
  end.

(** [lazy_pages.resize(i + 1, 0)] if needed, then [lazy_pages[i] = phys]. *)
Definition record_page (i : nat) (phys : Z) (ps : list Z) : list Z :=
  let ps := if (length ps <=? i)%nat then resize (S i) 0 ps else ps in
  <[i := phys]> ps.

Definition handle_user_page_fault (fault_va : Z) : st vm bool :=
  let page_va := page_down fault_va in
  a ← get_as;
  match find_vma (regions a) fault_va with
  | None => mret false
  | Some (slot, region) =>
      if negb (v_lazy region) then mret false
      else
        let page_idx := Z.to_nat (wsub page_va (v_start region) / PAGE_SIZE) in
        if negb (default 0 (v_lazy_pages region !! page_idx) =? 0) then mret false
        else
          r ← on_m (m_alloc 0);
          match r with
          | None => mret false
          | Some phys =>
              on_m (m_zero phys PAGE_SIZE) ≫= λ _,
              mapped ← on_m (m_map (page_table_root a) page_va phys (v_flags region));
              if negb mapped then on_m (m_free phys 0) ≫= λ _, mret false
              else
                put_as (set_regions (<[slot := Some
                  (set_lazy_pages (record_page page_idx phys (v_lazy_pages region))
                     (v_lazy_count region + 1) region)]> (regions a)) a) ≫= λ _,
                mret true
          end
  end.

(** The loop of [prefault_range]; the range has [n] pages left. *)
Fixpoint prefault_loop (n : nat) (va : Z) : st vm unit :=
  match n with
  | O => mret tt
  | S n' =>
      a ← get_as;
      (match as_virt_to_phys a va with
       | None => handle_user_page_fault va ≫= λ _, mret tt
       | Some _ => mret tt
       end) ≫= λ _, prefault_loop n' (wadd va PAGE_SIZE)
  end.

Definition prefault_range (addr len : Z) : st vm unit :=
  if len =? 0 then mret tt
  else
    let page_start := page_down addr in
    let page_end := page_up (wadd addr len) in
    prefault_loop (Z.to_nat ((page_end - page_start) / PAGE_SIZE)) page_start.

(** The pages [i], [i + 1], ... of a lazy VMA at [start] are unmapped and
    freed, [n] of them. *)
Fixpoint drop_lazy (root start : Z) (n i : nat) (ps : list Z) (count : Z) : st M (list Z * Z) :=
  match n with
  | O => mret (ps, count)
  | S n' =>
      let phys := default 0 (ps !! i) in
      if negb (phys =? 0) then
        m_unmap root (wadd start (wmul (Z.of_nat i) PAGE_SIZE)) ≫= λ _,
        m_free phys 0 ≫= λ _,
        drop_lazy root start n' (S i) (<[i := 0]> ps) (saturating_sub count 1)
      else drop_lazy root start n' (S i) ps count
  end.

(** One slot of [unmap_range] that overlaps [virt, end). *)
Definition unmap_region (root virt end_ : Z) (region : VmaRegion) : st M (option VmaRegion) :=
  let r_start := v_start region in
  let r_end := v_end region in
  let clip_s := Z.max virt r_start in
  let clip_e := Z.min end_ r_end in
  region ← (if v_lazy region then
      let pg_first := Z.to_nat (wsub clip_s r_start / PAGE_SIZE) in
      let pg_last := Z.to_nat (wsub (wadd (wsub clip_e r_start) PAGE_SIZE) 1 / PAGE_SIZE) in
      r ← drop_lazy root r_start
            (Nat.min pg_last (length (v_lazy_pages region)) - pg_first) pg_first
            (v_lazy_pages region) (v_lazy_count region);
      mret (set_lazy_pages r.1 r.2 region)
    else
      unmap_loop root clip_s (Z.to_nat (wsub clip_e clip_s / PAGE_SIZE)) 0 ≫= λ _,
      mret region);
  if (clip_s =? r_start) && (clip_e =? r_end) then
    (if negb (v_lazy region) && negb (v_phys region =? 0)
     then m_free (v_phys region) (vmm_order (wsub r_end r_start / PAGE_SIZE))
     else mret tt) ≫= λ _, mret None
  else if clip_s =? r_start then
    let shift := Z.to_nat (wsub clip_e r_start / PAGE_SIZE) in
    mret (Some (
      if v_lazy region then
        set_start_phys clip_e (v_phys region)
          (set_lazy_pages (drop shift (v_lazy_pages region)) (v_lazy_count region) region)
      else if negb (v_phys region =? 0) then
        set_start_phys clip_e (wadd (v_phys region) (wsub clip_e r_start)) region
      else set_start_phys clip_e (v_phys region) region))
  else mret (Some (set_end clip_s region)).

(** [for slot in self.regions.iter_mut()]: the flag is [did_unmap]. *)
Fixpoint unmap_slots (root virt end_ : Z) (rs : list (option VmaRegion))
    : st M (bool * list (option VmaRegion)) :=
  match rs with
  | [] => mret (false, [])
  | None :: rs' =>
      x ← unmap_slots root virt end_ rs'; mret (x.1, None :: x.2)
  | Some r :: rs' =>
      if (v_start r <? end_) && (virt <? v_end r) then
        r' ← unmap_region root virt end_ r;
        x ← unmap_slots root virt end_ rs'; mret (true, r' :: x.2)
      else
        x ← unmap_slots root virt end_ rs'; mret (x.1, Some r :: x.2)
  end.

Definition unmap_range (virt len : Z) : st vm unit :=
  if len =? 0 then mret tt
  else
    let virt := page_down virt in
    let len := page_up len in
    match checked_add virt len with
    | None => mret tt
    | Some end_ =>
        a ← get_as;
        x ← on_m (unmap_slots (page_table_root a) virt end_ (regions a));
        put_as (set_regions x.2 a) ≫= λ _,
        if x.1 : bool then on_m m_shootdown else mret tt
    end.

Definition unmap (virt size : Z) : st vm unit := unmap_range virt size.
End operations.

Section operations2.
Context {M : Type} `{Machine M}.

Abbreviation vm := (M * AddressSpace)%type.

(** The loop of [read_user_buf]: the bytes copied so far are [acc].  Every
    iteration copies at least one byte, so [len] iterations are enough. *)
Fixpoint read_loop (fuel : nat) (m : M) (a : AddressSpace) (user_va len offset : Z) (acc : list Z)
    : bool * list Z :=
  if offset <? len then
    match fuel with
    | O => (false, acc)
    | S fuel' =>
        let va := wadd user_va offset in
        match as_virt_to_phys a va with
        | None => (false, acc)
        | Some phys =>
            let chunk := Z.min (PAGE_SIZE - va mod PAGE_SIZE) (len - offset) in
            read_loop fuel' m a user_va len (offset + chunk) (acc ++ m_read phys chunk m)
        end
    end
  else (true, acc).

(** Result and the bytes written to [dest]. *)
Definition read_user_buf (m : M) (a : AddressSpace) (user_va len : Z) : bool * list Z :=
  read_loop (Z.to_nat len) m a user_va len 0 [].

Fixpoint write_loop (fuel : nat) (a : AddressSpace) (user_va : Z) (src : list Z) (offset : nat)
    : st M bool :=
  if (offset <? length src)%nat then
    match fuel with
    | O => mret false
    | S fuel' =>
        let va := wadd user_va (Z.of_nat offset) in
        match as_virt_to_phys a va with
        | None => mret false
        | Some phys =>
            let chunk := Nat.min (Z.to_nat (PAGE_SIZE - va mod PAGE_SIZE)) (length src - offset) in
            m_write phys (take chunk (drop offset src)) ≫= λ _,
            write_loop fuel' a user_va src (offset + chunk)
        end
    end
  else mret true.

Definition write_user_buf (user_va : Z) (src : list Z) : st vm bool :=
  a ← get_as; on_m (write_loop (length src) a user_va src 0).

(** Remap the pages [i], [i + 1], ... of [ps] that lie in [addr, end). *)
Fixpoint remap_pages (root start addr end_ flags : Z) (i : nat) (ps : list Z) : st M unit :=
  match ps with
  | [] => mret tt
  | phys :: ps' =>
      let page_va := wadd start (wmul (Z.of_nat i) PAGE_SIZE) in
      (if negb (phys =? 0) && (addr <=? page_va) && (page_va <? end_)
       then m_map root page_va phys flags ≫= λ _, mret tt
       else mret tt) ≫= λ _,
      remap_pages root start addr end_ flags (S i) ps'
  end.

(** The physical pages of an eager VMA. *)
Definition eager_pages (r : VmaRegion) : list Z :=
  (λ i, wadd (v_phys r) (wmul (Z.of_nat i) PAGE_SIZE)) <$>
    seq 0 (Z.to_nat (wsub (v_end r) (v_start r) / PAGE_SIZE)).

(** The eager loop has no test for a zero page. *)
Fixpoint remap_eager (root start addr end_ flags : Z) (i : nat) (ps : list Z) : st M unit :=
  match ps with
  | [] => mret tt
  | phys :: ps' =>
      let page_va := wadd start (wmul (Z.of_nat i) PAGE_SIZE) in
      (if (addr <=? page_va) && (page_va <? end_)
       then m_map root page_va phys flags ≫= λ _, mret tt
       else mret tt) ≫= λ _,
      remap_eager root start addr end_ flags (S i) ps'
  end.

Fixpoint mprotect_slots (root addr end_ prot flags : Z) (rs : list (option VmaRegion))
    : st M (bool * list (option VmaRegion)) :=
  match rs with
  | [] => mret (false, [])
  | None :: rs' =>
      x ← mprotect_slots root addr end_ prot flags rs'; mret (x.1, None :: x.2)
  | Some r :: rs' =>
      if (v_start r <? end_) && (addr <? v_end r) then
        let r1 := set_prot prot flags r in
        (if v_lazy r1 then remap_pages root (v_start r1) addr end_ flags 0 (v_lazy_pages r1)
         else if negb (v_phys r1 =? 0) then
           remap_eager root (v_start r1) addr end_ flags 0 (eager_pages r1)
         else mret tt) ≫= λ _,
        x ← mprotect_slots root addr end_ prot flags rs'; mret (true, Some r1 :: x.2)
      else
        x ← mprotect_slots root addr end_ prot flags rs'; mret (x.1, Some r :: x.2)
  end.

Definition prot_flags (prot : Z) : Z :=
  let f := Z.lor PageFlags.PRESENT PageFlags.USER in
  let f := if negb (Z.land prot PROT_WRITE =? 0) then Z.lor f PageFlags.WRITABLE else f in
  if negb (Z.land prot PROT_EXEC =? 0) then Z.lor f PageFlags.EXECUTE else f.

Definition mprotect (addr len prot : Z) : st vm bool :=
  if negb (Z.land prot PROT_WRITE =? 0) && negb (Z.land prot PROT_EXEC =? 0) then mret false
  else
    let addr := page_down addr in
    match checked_add addr (page_up len) with
    | None => mret false
    | Some end_ =>
        a ← get_as;
        x ← on_m (mprotect_slots (page_table_root a) addr end_ prot (prot_flags prot) (regions a));
        put_as (set_regions x.2 a) ≫= λ _,
        (if x.1 : bool then on_m m_shootdown else mret tt) ≫= λ _, mret (x.1)
    end.

Definition root (a : AddressSpace) : Z := page_table_root a.

Definition brk (new_end : Z) : st vm Z :=
  a ← get_as;
  let current_break := if negb (heap_end a =? 0) then heap_end a else heap_start a in
  if new_end =? 0 then mret current_break
  else if heap_start a =? 0 then mret current_break
  else
    let new_end := page_up new_end in
    match position (λ o, match o with Some r => v_start r =? heap_start a | None => false end)
            (regions a) with
    | None =>
        if new_end <=? heap_start a then mret current_break
        else
          let flags := Z.lor (Z.lor PageFlags.PRESENT PageFlags.USER) PageFlags.WRITABLE in
          let '(ok, a') := map_lazy (heap_start a) (wsub new_end (heap_start a)) flags a in
          if ok then put_as (set_heap_end new_end a') ≫= λ _, mret new_end
          else mret current_break
    | Some idx =>
        match mjoin (regions a !! idx) with
        | None => st_panic
        | Some region =>
            if new_end =? v_end region then mret new_end
            else if v_end region <? new_end then
              let others := <[idx := None]> (regions a) in
              if existsb (λ o, match o with
                               | Some r => (v_start r <? new_end) && (v_end region <? v_end r)
                               | None => false end) others
              then mret current_break
              else
                put_as (set_heap_end new_end
                  (set_regions (<[idx := Some (set_end new_end region)]> (regions a)) a)) ≫= λ _,
                mret new_end
            else
              let first_idx := Z.to_nat (wsub new_end (v_start region) / PAGE_SIZE) in
              let last_idx := Z.to_nat
                (wsub (wadd (wsub (v_end region) (v_start region)) PAGE_SIZE) 1 / PAGE_SIZE) in
              x ← on_m (drop_lazy (page_table_root a) (v_start region)
                    (Nat.min last_idx (length (v_lazy_pages region)) - first_idx) first_idx
                    (v_lazy_pages region) (v_lazy_count region));
              on_m m_shootdown ≫= λ _,
              put_as (set_heap_end new_end
                (set_regions (<[idx := Some (set_lazy_pages x.1 x.2 (set_end new_end region))]>
                   (regions a)) a)) ≫= λ _,
              mret new_end
        end
    end.

(** [Drop for AddressSpace] *)
Definition drop_region (r : VmaRegion) : st M unit :=
  if v_lazy r then
    for_each (v_lazy_pages r) (λ phys, if negb (phys =? 0) then m_free phys 0 else mret tt)
  else if negb (v_phys r =? 0) then
    m_free (v_phys r) (vmm_order (wsub (v_end r) (v_start r) / PAGE_SIZE))
  else mret tt.

Definition drop_as (a : AddressSpace) : st M unit :=
  for_each (regions a) (λ o, match o with Some r => drop_region r | None => mret tt end) ≫= λ _,
  (if negb (page_table_root a =? 0) then m_free (page_table_root a) 0 else mret tt) ≫= λ _,
  m_shootdown.

(** *** [clone_as] *)

(** The pages of a lazy VMA, from index [i]; [None] is out of memory, with the
    pages recorded so far. *)
Fixpoint clone_lazy (root start flags : Z) (i : nat) (ps : list Z) (acc : list Z) (count : Z)
    : st M (bool * list Z * Z) :=
  match ps with
  | [] => mret (true, acc, count)
  | src_phys :: ps' =>
      if src_phys =? 0 then clone_lazy root start flags (S i) ps' acc count
      else
        r ← m_alloc 0;
        match r with
        | None => mret (false, acc, count)
        | Some dst_phys =>
            m_copy src_phys dst_phys PAGE_SIZE ≫= λ _,
            m_map root (wadd start (wmul (Z.of_nat i) PAGE_SIZE)) dst_phys flags ≫= λ _,
            clone_lazy root start flags (S i) ps' (record_page i dst_phys acc) (count + 1)
        end
  end.

(** The loop over the pages of an eager VMA; the result of [map_page] is
    ignored. *)
Fixpoint clone_eager (root start phys flags : Z) (n i : nat) : st M unit :=
  match n with
  | O => mret tt
  | S n' =>
      m_map root (wadd start (wmul (Z.of_nat i) PAGE_SIZE))
        (wadd phys (wmul (Z.of_nat i) PAGE_SIZE)) flags ≫= λ _,
      clone_eager root start phys flags n' (S i)
  end.

(** One VMA: whether it succeeded, and the copy as far as it was made. *)
Definition clone_region (root : Z) (r : VmaRegion) : st M (bool * VmaRegion) :=
  let dst := mkVma (v_start r) (v_end r) 0 (v_flags r) (v_lazy r) [] 0 (v_prot r)
               (v_map_flags r) (v_file_cap r) (v_file_off r) (v_cow r) in
  if v_lazy r then
    x ← clone_lazy root (v_start r) (v_flags r) 0 (v_lazy_pages r) [] 0;
    let '(ok, ps, count) := x in mret (ok, set_lazy_pages ps count dst)
  else if negb (v_phys r =? 0) then
    let n_pages := wsub (v_end r) (v_start r) / PAGE_SIZE in
    a ← m_alloc (vmm_order n_pages);
    match a with
    | None => mret (false, dst)
    | Some dst_phys =>
        m_copy (v_phys r) dst_phys (wmul n_pages PAGE_SIZE) ≫= λ _,
        clone_eager root (v_start r) dst_phys (v_flags r) (Z.to_nat n_pages) 0 ≫= λ _,
        mret (true, set_start_phys (v_start dst) dst_phys dst)
    end
  else mret (true, dst).

Fixpoint clone_slots (root : Z) (rs : list (option VmaRegion))
    : st M (bool * list (option VmaRegion)) :=
  match rs with
  | [] => mret (true, [])
  | None :: rs' => x ← clone_slots root rs'; mret (x.1, None :: x.2)
  | Some r :: rs' =>
      x ← clone_region root r;
      if x.1 : bool then
        y ← clone_slots root rs'; mret (y.1, Some x.2 :: y.2)
      else mret (false, Some x.2 :: replicate (length rs') None)
  end.

(** On failure the partly built address space is dropped. *)
Definition clone_as (src : AddressSpace) (new_page_table_root : Z) : st M (option AddressSpace) :=
  x ← clone_slots new_page_table_root (regions src);
  let dst := mkAS new_page_table_root x.2 (heap_start src) (heap_end src) in
  if x.1 : bool then mret (Some dst) else drop_as dst ≫= λ _, mret None.
End operations2.
