(* ===== verification/VmmInv.v ===== *)
(** * No address lies in two VMAs

    For any machine: whatever page allocator and page tables do, the VMAs of an
    address space stay page-aligned and cover every address at most once. *)

From stdpp Require Import base list option numbers.
From Stdlib Require Import ZArith Lia.
From S2P Require Import Prelude Words CyLib Buddy Memory Slab Paging Vmm.

Local Open Scope Z_scope.

Definition aligned (x : Z) : Prop := x mod PAGE_SIZE = 0.

Record vmas_wf (rs : list (option VmaRegion)) : Prop := {
  vw_len : length rs = 8%nat;
  vw_aligned : ∀ i r, rs !! i = Some (Some r) → aligned (v_start r) ∧ aligned (v_end r);
  vw_unique : ∀ i j o o' va, rs !! i = Some o → rs !! j = Some o' →
    covers va o = true → covers va o' = true → i = j
}.

Lemma vmas_wf_empty : vmas_wf (replicate 8 None).
Proof.
  split; [done|intros i r Hi%lookup_replicate_Some; done|].
  intros i j o o' va ->%lookup_replicate_Some _. done.
Qed.

Lemma covers_Some va r : covers va (Some r) = true ↔ v_start r ≤ va < v_end r.
Proof. simpl. rewrite andb_true_iff, Z.leb_le, Z.ltb_lt. done. Qed.

(** [o'] covers no more than [o]. *)
Definition shrinks (o o' : option VmaRegion) : Prop :=
  (∀ va, covers va o' = true → covers va o = true) ∧
  (∀ r', o' = Some r' →
     (∀ r, o = Some r → aligned (v_start r) ∧ aligned (v_end r)) →
     aligned (v_start r') ∧ aligned (v_end r')).

Lemma shrinks_refl o : shrinks o o.
Proof. split; [done|]. intros r' ->. auto. Qed.

Lemma shrinks_None o : shrinks o None.
Proof. by split. Qed.

(** Changing anything but the bounds. *)
Lemma shrinks_same r r' : v_start r' = v_start r → v_end r' = v_end r → shrinks (Some r) (Some r').
Proof.
  intros Hs He. split.
  - intros va. by rewrite !covers_Some, Hs, He.
  - intros ? [= <-] Hal. rewrite Hs, He. by apply Hal.
Qed.

Lemma shrinks_within r r' : aligned (v_start r') → aligned (v_end r') →
  v_start r ≤ v_start r' → v_end r' ≤ v_end r → shrinks (Some r) (Some r').
Proof.
  intros Hs He Hs' He'. split.
  - intros va. rewrite !covers_Some. lia.
  - by intros ? [= <-] _.
Qed.

Lemma vmas_wf_shrink rs rs' : vmas_wf rs → Forall2 shrinks rs rs' → vmas_wf rs'.
Proof.
  intros [Hl Ha Hu] HF. split.
  - by rewrite <- (Forall2_length HF).
  - intros i r' Hi. destruct (Forall2_lookup_r _ _ _ _ _ HF Hi) as (o & Ho & _ & Hal).
    apply Hal; [done|]. intros r ->. by eapply Ha.
  - intros i j o o' va Hi Hj Hc Hc'.
    destruct (Forall2_lookup_r _ _ _ _ _ HF Hi) as (p & Hp & Hcp & _).
    destruct (Forall2_lookup_r _ _ _ _ _ HF Hj) as (p' & Hp' & Hcp' & _).
    eapply (Hu i j p p' va); auto.
Qed.

Lemma Forall2_shrinks_refl rs : Forall2 shrinks rs rs.
Proof. induction rs; constructor; auto using shrinks_refl. Qed.

Lemma Forall2_shrinks_insert rs i o o' :
  rs !! i = Some o → shrinks o o' → Forall2 shrinks rs (<[i := o']> rs).
Proof.
  intros Hi Hs. rewrite <- (list_insert_id rs i o Hi) at 1.
  apply Forall2_insert; [apply Forall2_shrinks_refl|done].
Qed.

(** Growing one VMA, or filling an empty slot, over addresses nobody covers. *)
Lemma vmas_wf_grow rs i o r :
  vmas_wf rs → rs !! i = Some o → aligned (v_start r) → aligned (v_end r) →
  (∀ j o' va, j ≠ i → rs !! j = Some o' → covers va o' = true → ¬ (v_start r ≤ va < v_end r)) →
  vmas_wf (<[i := Some r]> rs).
Proof.
  intros [Hl Ha Hu] Hi Hs He Hd. split.
  - by rewrite length_insert.
  - intros j r' [(_ & [= <-] & _)|[_ Hj]]%insert_lookup_cases; [done|by eapply Ha].
  - intros j k oj ok va [(<- & <- & _)|[Hne Hj]]%insert_lookup_cases
      [(<- & <- & _)|[Hne' Hk]]%insert_lookup_cases; [done| | |by eapply Hu].
    + rewrite covers_Some. intros Hc Hck. destruct (Hd k ok va); auto.
    + rewrite covers_Some. intros Hck Hc. destruct (Hd j oj va); auto.
Qed.

(** ** Arithmetic of pages *)

Lemma page_down_eq x : 0 ≤ x < 2^64 → page_down x = x - x mod PAGE_SIZE.
Proof. intros Hx. unfold page_down. apply (land_mask x 12); lia. Qed.

Lemma page_down_range x : 0 ≤ x < 2^64 → aligned (page_down x) ∧ 0 ≤ page_down x ≤ x.
Proof.
  intros Hx. rewrite page_down_eq by done. unfold aligned, PAGE_SIZE.
  pose proof (Z.div_mod x 4096 ltac:(lia)). pose proof (Z.mod_pos_bound x 4096 ltac:(lia)).
  assert (0 ≤ x / 4096) by (apply Z.div_pos; lia).
  replace (x - x mod 4096) with (x / 4096 * 4096) by lia. rewrite Z.mod_mul by lia. lia.
Qed.

Lemma page_up_range x : 0 ≤ page_up x < 2^64 ∧ aligned (page_up x).
Proof.
  unfold page_up. destruct (page_down_range (wsub (wadd x PAGE_SIZE) 1)) as [Ha Hr].
  { apply wsub_range. }
  pose proof (wsub_range (wadd x PAGE_SIZE) 1). split; [lia|done].
Qed.

Lemma page_up_ge x : 0 ≤ x < 2^64 - PAGE_SIZE → x ≤ page_up x < x + PAGE_SIZE.
Proof.
  intros Hx. unfold page_up, PAGE_SIZE in *. rewrite wsub_small; rewrite wadd_small by lia; [|lia].
  rewrite page_down_eq by lia. unfold PAGE_SIZE. pose proof (Z.mod_pos_bound (x + 4096 - 1) 4096). lia.
Qed.

Lemma aligned_add x y : aligned x → aligned y → aligned (x + y).
Proof. unfold aligned. intros Hx Hy. by rewrite Z.add_mod, Hx, Hy by done. Qed.

Lemma aligned_mul n : aligned (n * PAGE_SIZE).
Proof. apply Z.mod_mul. done. Qed.

Lemma aligned_u64 x : aligned x → aligned (u64 x).
Proof.
  unfold aligned, u64, PAGE_SIZE. intros Hx.
  rewrite <- Znumtheory.Zmod_div_mod; [done|lia|lia|]. by exists (2^52).
Qed.

Lemma aligned_wmul n : aligned (wmul n PAGE_SIZE).
Proof. apply aligned_u64, aligned_mul. Qed.

Lemma aligned_max x y : aligned x → aligned y → aligned (Z.max x y).
Proof. intros. by destruct (Z.max_spec x y) as [[_ ->]|[_ ->]]. Qed.

Lemma aligned_min x y : aligned x → aligned y → aligned (Z.min x y).
Proof. intros. by destruct (Z.min_spec x y) as [[_ ->]|[_ ->]]. Qed.

#[export] Hint Resolve aligned_max aligned_min aligned_wmul aligned_mul aligned_u64 aligned_add
  : cyanos.

(** ** Placing a mapping *)

Lemma any_overlap_false virt end_ rs i o va :
  any_overlap virt end_ rs = false → rs !! i = Some o → covers va o = true → ¬ (virt ≤ va < end_).
Proof.
  intros Ho Hi Hc Hr. apply not_true_iff_false in Ho. apply Ho. apply existsb_exists.
  exists o. split; [by eapply list_elem_of_In, list_elem_of_lookup_2|].
  destruct o as [r|]; [|done]. apply covers_Some in Hc. unfold overlaps.
  apply andb_true_iff. rewrite !Z.ltb_lt. lia.
Qed.

Lemma place_ok a virt size slot virt' pages end_ :
  0 ≤ virt < 2^64 → place a virt size = Some (slot, virt', pages, end_) →
  regions a !! slot = Some None ∧ virt' = page_down virt ∧ aligned virt' ∧ aligned end_ ∧
  end_ = virt' + wmul pages PAGE_SIZE ∧ end_ < 2^64 ∧
  any_overlap virt' end_ (regions a) = false.
Proof.
  intros Hv. unfold place. destruct (size =? 0); [done|].
  destruct (free_slot (regions a)) as [s|] eqn:Hs; simpl; [|done].
  destruct (checked_add _ _) as [e|] eqn:He; simpl; [|done].
  destruct (any_overlap _ e _) eqn:Ho; [done|]. intros [= <- <- <- <-].
  apply checked_add_Some in He as [-> He]. destruct (page_down_range virt Hv) as [Ha _].
  apply position_Some in Hs as (x & Hx & Hp & _). destruct x; [done|].
  split_and!; auto with cyanos.
Qed.

Lemma map_lazy_wf virt size flags a :
  0 ≤ virt < 2^64 → vmas_wf (regions a) → vmas_wf (regions (map_lazy virt size flags a).2).
Proof.
  intros Hv Hwf. unfold map_lazy.
  destruct (place a virt size) as [[[[slot virt'] pages] end_]|] eqn:Hp; [|done].
  destruct (place_ok _ _ _ _ _ _ _ Hv Hp) as (Hslot & _ & Ha & He & _ & _ & Ho). simpl.
  eapply vmas_wf_grow; [done..|]. intros j o va _ Hj Hc. by eapply any_overlap_false.
Qed.

(** ** Operations on the machine leave the VMAs alone *)

Section machine_wlp.
Context {M : Type} `{Machine M}.
Implicit Types (m : M) (a : AddressSpace).

Lemma wlp_get_as (Q : AddressSpace → M * AddressSpace → Prop) m a :
  Q a (m, a) → wlp get_as Q (m, a).
Proof. done. Qed.

Lemma wlp_put_as (Q : unit → M * AddressSpace → Prop) m a a' :
  Q tt (m, a') → wlp (put_as a') Q (m, a).
Proof. done. Qed.

Lemma wlp_on_m {A} (c : st M A) (Q : A → M * AddressSpace → Prop) m a :
  wlp c (λ x m', Q x (m', a)) m → wlp (on_m c) Q (m, a).
Proof. unfold wlp, on_m. by destruct (c m) as [[x m']|]. Qed.

Lemma wlp_any {A} (c : st M A) (Q : A → M → Prop) m : (∀ x m', Q x m') → wlp c Q m.
Proof. intros HQ. unfold wlp. by destruct (c m) as [[x m']|]. Qed.

End machine_wlp.

(** Step through an operation whose machine calls do not matter. *)
Ltac vm_step :=
  match goal with
  | |- wlp (get_as ≫= _) _ _ => apply wlp_bind, wlp_get_as
  | |- wlp (put_as _ ≫= _) _ _ => apply wlp_bind, wlp_put_as
  | |- wlp (put_as _) _ _ => apply wlp_put_as
  | |- wlp (on_m _ ≫= _) _ _ => apply wlp_bind, wlp_on_m, wlp_any; intros ? ?
  | |- wlp (on_m _) _ _ => apply wlp_on_m, wlp_any; intros ? ?
  | |- wlp (mret _) _ _ => apply wlp_ret
  | |- wlp (match ?x with _ => _ end) _ _ => destruct x eqn:?
  end.

Section preservation.
Context {M : Type} `{Machine M}.
Implicit Types (m : M) (a : AddressSpace).

(** The VMAs stay well-formed, the root and the start of the heap the same. *)
Definition keeps {A} (c : st (M * AddressSpace) A) : Prop := ∀ m a,
  vmas_wf (regions a) → 0 ≤ heap_start a < 2^64 →
  wlp c (λ _ s, vmas_wf (regions s.2) ∧
    page_table_root s.2 = page_table_root a ∧ heap_start s.2 = heap_start a) (m, a).

Lemma map_keeps virt size flags : 0 ≤ virt < 2^64 → keeps (map virt size flags).
Proof.
  intros Hv m a Hwf Hheap. unfold map. vm_step.
  destruct (place a virt size) as [[[[slot virt'] pages] end_]|] eqn:Hp; [|by vm_step].
  destruct (place_ok _ _ _ _ _ _ _ Hv Hp) as (Hslot & -> & Ha & He & Hend & Hlt & Ho).
  assert (wadd (page_down virt) (wmul pages PAGE_SIZE) = end_) as Hw.
  { rewrite Hend. apply wadd_small. destruct (page_down_range virt Hv) as [_ ?].
    pose proof (u64_range (pages * PAGE_SIZE)). unfold wmul in *. lia. }
  repeat vm_step; try done. split; [|done]. simpl. rewrite Hw.
  eapply vmas_wf_grow; [done..|]. intros j o va _ Hj Hc. by eapply any_overlap_false.
Qed.

Lemma find_vma_lookup rs va i r : find_vma rs va = Some (i, r) → rs !! i = Some (Some r).
Proof.
  unfold find_vma. destruct (position _ _) as [j|]; simpl; [|done].
  destruct (rs !! j) as [[r'|]|] eqn:Hj; simpl; intros [= <- <-]; done.
Qed.

Lemma fault_keeps va : keeps (handle_user_page_fault va).
Proof.
  intros m a Hwf Hheap. unfold handle_user_page_fault. vm_step.
  destruct (find_vma (regions a) va) as [[slot r]|] eqn:Hf; [|by vm_step].
  apply find_vma_lookup in Hf. repeat vm_step; try done. split; [|done]. simpl.
  eapply vmas_wf_shrink; [done|]. eapply Forall2_shrinks_insert; [done|]. by apply shrinks_same.
Qed.

Lemma prefault_loop_keeps n va : keeps (prefault_loop n va).
Proof.
  revert va. induction n as [|n IH]; intros va m a Hwf Hheap; simpl; [by vm_step|]. vm_step.
  apply wlp_bind. destruct (as_virt_to_phys a va).
  - apply wlp_ret. by apply IH.
  - apply wlp_bind. eapply wlp_mono; [by apply fault_keeps|].
    intros _ [m1 a1] (Hwf1 & Hr1 & Hh1). simpl in *. apply wlp_ret.
    eapply wlp_mono; [apply IH; [done|congruence]|].
    intros _ [m2 a2] (? & ? & ?). simpl in *. split_and!; [done|congruence..].
Qed.

Lemma prefault_keeps addr len : keeps (prefault_range addr len).
Proof.
  intros m a Hwf Hheap. unfold prefault_range. destruct (len =? 0); [by vm_step|].
  by apply prefault_loop_keeps.
Qed.

(** *** Unmapping *)

Lemma unmap_region_shrinks root virt end_ r m :
  aligned virt → aligned end_ → aligned (v_start r) → aligned (v_end r) →
  v_start r < end_ → virt < v_end r →
  wlp (unmap_region root virt end_ r) (λ o _, shrinks (Some r) o) m.
Proof.
  intros Hv He Hrs Hre Hlt1 Hlt2. unfold unmap_region. apply wlp_bind.
  eapply (wlp_mono _ (λ r1 _, v_start r1 = v_start r ∧ v_end r1 = v_end r)).
  { destruct (v_lazy r); apply wlp_bind, wlp_any; intros; by apply wlp_ret. }
  intros r1 m1 [Hs1 He1].
  destruct (_ && _); [apply wlp_bind, wlp_any; intros; apply wlp_ret, shrinks_None|].
  destruct (Z.eqb_spec (Z.max virt (v_start r)) (v_start r)) as [Hc|Hc]; apply wlp_ret.
  - assert (∀ r2, v_start r2 = Z.min end_ (v_end r) → v_end r2 = v_end r →
      shrinks (Some r) (Some r2)) as Hsh.
    { intros r2 Hs2 He2. split.
      - intros va. rewrite !covers_Some, Hs2, He2. lia.
      - intros ? [= <-] _. rewrite Hs2, He2. auto with cyanos. }
    destruct (v_lazy r1); [by apply Hsh|]. by destruct (negb _); apply Hsh.
  - split.
    + intros va. rewrite !covers_Some. simpl. rewrite Hs1. lia.
    + intros ? [= <-] _. simpl. rewrite Hs1. auto with cyanos.
Qed.

Lemma unmap_slots_shrinks root virt end_ rs m :
  aligned virt → aligned end_ →
  (∀ r, Some r ∈ rs → aligned (v_start r) ∧ aligned (v_end r)) →
  wlp (unmap_slots root virt end_ rs) (λ x _, Forall2 shrinks rs x.2) m.
Proof.
  intros Hv He. revert m. induction rs as [|[r|] rs IH]; intros m Hal; simpl.
  - apply wlp_ret. constructor.
  - destruct (Hal r ltac:(left)) as [Hrs Hre].
    assert (∀ r0, Some r0 ∈ rs → aligned (v_start r0) ∧ aligned (v_end r0)) as Hal'
      by (intros; apply Hal; by right).
    destruct (_ && _) eqn:Hc; apply wlp_bind.
    + apply andb_true_iff in Hc as [Hc1%Z.ltb_lt Hc2%Z.ltb_lt].
      eapply wlp_mono; [by apply unmap_region_shrinks|]. intros o m1 Ho. apply wlp_bind.
      eapply wlp_mono; [by apply IH|]. intros x m2 Hx. apply wlp_ret. by constructor.
    + eapply wlp_mono; [by apply IH|]. intros x m2 Hx. apply wlp_ret.
      constructor; [apply shrinks_refl|done].
  - apply wlp_bind. eapply wlp_mono; [apply IH; intros; apply Hal; by right|].
    intros x m2 Hx. apply wlp_ret. constructor; [apply shrinks_refl|done].
Qed.

Lemma vmas_aligned rs : vmas_wf rs → ∀ r, Some r ∈ rs → aligned (v_start r) ∧ aligned (v_end r).
Proof. intros [_ Ha _] r [i Hi]%list_elem_of_lookup. by eapply Ha. Qed.

Lemma unmap_range_keeps virt len : 0 ≤ virt < 2^64 → keeps (unmap_range virt len).
Proof.
  intros Hv m a Hwf Hheap. unfold unmap_range. destruct (len =? 0); [by vm_step|].
  destruct (checked_add _ _) as [end_|] eqn:He; [|by vm_step].
  apply checked_add_Some in He as [-> _].
  destruct (page_down_range virt Hv) as [Ha _]. destruct (page_up_range len) as [_ Hl].
  vm_step. apply wlp_bind, wlp_on_m.
  eapply wlp_mono; [apply unmap_slots_shrinks; [done|by apply aligned_add|by apply vmas_aligned]|].
  intros x m1 Hx. vm_step.
  assert (vmas_wf (regions (set_regions x.2 a))) as Hwf' by (by eapply vmas_wf_shrink).
  by repeat vm_step.
Qed.

(** *** Protection *)

Lemma mprotect_slots_shrinks root addr end_ prot flags rs m :
  wlp (mprotect_slots root addr end_ prot flags rs) (λ x _, Forall2 shrinks rs x.2) m.
Proof.
  revert m. induction rs as [|[r|] rs IH]; intros m; simpl.
  - apply wlp_ret. constructor.
  - destruct (_ && _); apply wlp_bind.
    + apply wlp_any. intros _ m1. apply wlp_bind. eapply wlp_mono; [by apply IH|].
      intros x m2 Hx. apply wlp_ret. constructor; [by apply shrinks_same|done].
    + eapply wlp_mono; [by apply IH|]. intros x m2 Hx. apply wlp_ret.
      constructor; [apply shrinks_refl|done].
  - apply wlp_bind. eapply wlp_mono; [apply IH|].
    intros x m2 Hx. apply wlp_ret. constructor; [apply shrinks_refl|done].
Qed.

Lemma mprotect_keeps addr len prot : keeps (mprotect addr len prot).
Proof.
  intros m a Hwf Hheap. unfold mprotect. destruct (_ && _); [by vm_step|].
  destruct (checked_add _ _); [|by vm_step]. vm_step. apply wlp_bind, wlp_on_m.
  eapply wlp_mono; [apply mprotect_slots_shrinks|]. intros x m1 Hx. vm_step.
  assert (vmas_wf (regions (set_regions x.2 a))) as Hwf' by (by eapply vmas_wf_shrink).
  apply wlp_bind. by repeat vm_step.
Qed.

(** *** The heap *)

Lemma brk_grow_wf a idx region new_end :
  vmas_wf (regions a) → regions a !! idx = Some (Some region) → aligned new_end →
  existsb (λ o, match o with
     | Some r => (v_start r <? new_end) && (v_end region <? v_end r)
     | None => false end) (<[idx := None]> (regions a)) = false →
  vmas_wf (<[idx := Some (set_end new_end region)]> (regions a)).
Proof.
  intros Hwf Hi Ha Hex. eapply vmas_wf_grow; [done..|exact (proj1 (vw_aligned _ Hwf idx region Hi))|done|].
  intros j o va Hne Hj Hc Hr. simpl in Hr.
  destruct (Z.lt_ge_cases va (v_end region)) as [Hlt|Hge].
  - destruct Hne. eapply (vw_unique _ Hwf j idx o (Some region) va); [done..|].
    apply covers_Some. lia.
  - apply not_true_iff_false in Hex. apply Hex, existsb_exists. exists o. split.
    + apply list_elem_of_In, list_elem_of_lookup. exists j. by rewrite list_lookup_insert_ne.
    + destruct o as [r|]; [|done]. apply covers_Some in Hc.
      apply andb_true_iff. rewrite !Z.ltb_lt. lia.
Qed.

Lemma brk_keeps new_end : keeps (brk new_end).
Proof.
  intros m a Hwf Hheap. unfold brk. vm_step.
  destruct (new_end =? 0); [by vm_step|]. destruct (heap_start a =? 0); [by vm_step|].
  destruct (page_up_range new_end) as [_ Hal]. set (e := page_up new_end) in *.
  destruct (position _ (regions a)) as [idx|] eqn:Hpos.
  - apply position_Some in Hpos as (o & Ho & Hst & _). destruct o as [region|]; [|done].
    rewrite Ho. simpl. destruct (e =? v_end region); [by vm_step|].
    destruct (Z.ltb_spec (v_end region) e) as [Hlt|Hge].
    + destruct (existsb _ _) eqn:Hex; [by vm_step|]. repeat vm_step. split; [|done]. simpl.
      by apply brk_grow_wf.
    + apply wlp_bind, wlp_on_m, wlp_any. intros x m1. repeat vm_step. split; [|done]. simpl.
      eapply vmas_wf_shrink; [done|]. eapply Forall2_shrinks_insert; [done|].
      apply shrinks_within; simpl; [exact (proj1 (vw_aligned _ Hwf idx region Ho))|done|lia|lia].
  - destruct (e <=? heap_start a); [by vm_step|].
    pose proof (map_lazy_wf (heap_start a) (wsub e (heap_start a))
      (Z.lor (Z.lor PageFlags.PRESENT PageFlags.USER) PageFlags.WRITABLE) a Hheap Hwf) as Hml.
    unfold map_lazy in *. destruct (place a _ _) as [[[[slot v] pages] e']|]; by repeat vm_step.
Qed.

(** ** Histories *)

Inductive vm_op :=
  | OpMap (virt size flags : Z)
  | OpMapLazy (virt size flags : Z)
  | OpFault (va : Z)
  | OpPrefault (addr len : Z)
  | OpUnmap (virt len : Z)
  | OpMprotect (addr len prot : Z)
  | OpBrk (new_end : Z)
  | OpWrite (va : Z) (bytes : list Z).

Definition op_ok (o : vm_op) : Prop :=
  match o with
  | OpMap v _ _ | OpMapLazy v _ _ | OpUnmap v _ => 0 ≤ v < 2^64
  | _ => True
  end.

Definition vm_run_op (o : vm_op) : st (M * AddressSpace) unit :=
  match o with
  | OpMap v s f => map v s f ≫= λ _, mret tt
  | OpMapLazy v s f => a ← get_as; put_as (map_lazy v s f a).2
  | OpFault va => handle_user_page_fault va ≫= λ _, mret tt
  | OpPrefault v l => prefault_range v l
  | OpUnmap v l => unmap_range v l
  | OpMprotect v l p => mprotect v l p ≫= λ _, mret tt
  | OpBrk e => brk e ≫= λ _, mret tt
  | OpWrite v bs => write_user_buf v bs ≫= λ _, mret tt
  end.

Lemma keeps_unit {A} (c : st (M * AddressSpace) A) : keeps c → keeps (c ≫= λ _, mret tt).
Proof.
  intros Hc m a Hwf Hh. apply wlp_bind. eapply wlp_mono; [by apply Hc|]. intros; by apply wlp_ret.
Qed.

Lemma map_lazy_meta v s f a : page_table_root (map_lazy v s f a).2 = page_table_root a ∧
  heap_start (map_lazy v s f a).2 = heap_start a.
Proof. unfold map_lazy. by destruct (place a v s) as [[[[? ?] ?] ?]|]. Qed.

Lemma vm_run_op_keeps o : op_ok o → keeps (vm_run_op o).
Proof.
  destruct o; simpl; intros Ho.
  - by apply keeps_unit, map_keeps.
  - intros m a Hwf Hh. repeat vm_step. simpl. split; [by apply map_lazy_wf|apply map_lazy_meta].
  - apply keeps_unit, fault_keeps.
  - apply prefault_keeps.
  - by apply unmap_range_keeps.
  - apply keeps_unit, mprotect_keeps.
  - apply keeps_unit, brk_keeps.
  - apply keeps_unit. intros m a Hwf Hh. unfold write_user_buf. by repeat vm_step.
Qed.

Lemma vm_run_ops_wf (ops : list vm_op) m a :
  Forall op_ok ops → vmas_wf (regions a) → 0 ≤ heap_start a < 2^64 →
  wlp (for_each ops vm_run_op) (λ _ s, vmas_wf (regions s.2)) (m, a).
Proof.
  intros Hops. revert m a. induction Hops as [|o ops Ho Hops IH]; intros m a Hwf Hh; simpl.
  { by apply wlp_ret. }
  apply wlp_bind. eapply wlp_mono; [by apply vm_run_op_keeps|].
  intros _ [m1 a1] (Hwf1 & _ & Hh1). simpl in *. apply IH; [done|congruence].
Qed.

(** C18: No address is in two VMAs.  For every machine and every sequence of
    map, map_lazy, page faults, prefaults, unmaps, mprotect, brk and writes on a
    new address space, if the kernel does not panic, the VMAs are page-aligned
    and each virtual address is covered by at most one of the eight slots. *)
Theorem vmas_never_overlap (ops : list vm_op) m root heap m' a' :
  Forall op_ok ops → 0 ≤ heap < 2^64 →
  for_each ops vm_run_op (m, mkAS root (replicate 8 None) heap heap) = Ret (tt, (m', a')) →
  (∀ i r, regions a' !! i = Some (Some r) → aligned (v_start r) ∧ aligned (v_end r)) ∧
  (∀ va i j r r', regions a' !! i = Some (Some r) → regions a' !! j = Some (Some r') →
     v_start r ≤ va < v_end r → v_start r' ≤ va < v_end r' → i = j).
Proof.
  intros Hops Hh Hrun.
  pose proof (wlp_run _ _ _ _ _ (vm_run_ops_wf ops m (mkAS root (replicate 8 None) heap heap)
    Hops vmas_wf_empty Hh) Hrun) as [_ Ha Hu].
  split; [done|]. intros va i j r r' Hi Hj Hr Hr'.
  eapply (Hu i j _ _ va); [done..|by apply covers_Some|by apply covers_Some].
Qed.
End preservation.

Lemma vmas_never_overlap_witness :
  let ops := [OpMapLazy 0x400000 0x3000 7; OpBrk 0x500800; OpMapLazy 0x402000 0x1000 7;
              OpUnmap 0x400000 0x1000] in
  ∃ k a, for_each ops vm_run_op
    (mkKmem Buddy_init 0 (λ _, 0) 0, mkAS 0x1000 (replicate 8 None) 0x500000 0x500000)
      = Ret (tt, (k, a)) ∧
    regions a !! 0%nat = Some (Some (new_vma 0x401000 0x403000 0 7 true)) ∧
    ∀ va i j r r', regions a !! i = Some (Some r) → regions a !! j = Some (Some r') →
     v_start r ≤ va < v_end r → v_start r' ≤ va < v_end r' → i = j.
Proof.
  eexists _, _. split; [reflexivity|]. split; [reflexivity|].
  eapply (vmas_never_overlap
    [OpMapLazy 0x400000 0x3000 7; OpBrk 0x500800; OpMapLazy 0x402000 0x1000 7;
     OpUnmap 0x400000 0x1000] (mkKmem Buddy_init 0 (λ _, 0) 0) 0x1000 0x500000).
  - repeat constructor; simpl; lia.
  - lia.
  - reflexivity.
Defined.
