(* ===== verification/VmmSpec.v ===== *)
(** * Address spaces and the hardware's translation

    The instance of the address-space operations on [kmem] with the AArch64
    page tables: page faults and mappings install what the VMA says, on zeroed
    pages no one else uses; user buffers are read back as written. *)

From stdpp Require Import base list option numbers sets.
From Stdlib Require Import ZArith Lia.
From S2P Require Import Prelude Words CyLib Buddy BuddySpec Memory Slab Paging PagingSpec Vmm VmmInv.

Local Open Scope Z_scope.

(** ** Tables under changes of data *)

Section table_ext.
Context (k : kmem) (root : Z) (Hwf : pt_wf k root) (m' : mem).
Context (Hsame : ∀ x, table_page k root (x / PAGE_SIZE) → m' x = k_mem k x).

Lemma table_entry_same q t j : path_ok 3 q → node (k_mem k) root q = Some t → idx_ok j →
  read_u64 m' (entry_addr t j) = read_u64 (k_mem k) (entry_addr t j).
Proof.
  intros Hq Ht Hj. apply read_u64_ext. intros x Hx. apply Hsame. exists q, t. split_and!; [apply Hq..|done|].
  symmetry. apply aligned_div; [by eapply (pw_table _ _ Hwf q)|]. by eapply entry_in_page.
Qed.

Lemma node_same q : path_ok 3 q → node m' root q = node (k_mem k) root q.
Proof.
  induction q as [|j q IH] using rev_ind; intros Hq; [done|].
  apply path_ok_snoc in Hq as [Hq Hj].
  assert (path_ok 3 q) as Hq3 by (eapply path_ok_mono; [|done]; lia).
  rewrite !node_snoc, IH by done. destruct (node (k_mem k) root q) as [u|] eqn:Hu; [|done].
  simpl. unfold follow. by rewrite (table_entry_same q).
Qed.

Lemma lookup_same v : lookup_entry m' root v = lookup_entry (k_mem k) root v.
Proof.
  unfold lookup_entry, leaf. pose proof (vpath_ok v) as Hv. rewrite node_same by done.
  destruct (node (k_mem k) root (vpath v)) as [u|] eqn:Hu; [|done]. simpl.
  rewrite (table_entry_same (vpath v) u); [done..|by apply level_index_ok].
Qed.

Lemma table_ext_wf : pt_wf (on_mem (λ _, m') k) root.
Proof.
  split; simpl; [apply Hwf|apply Hwf|apply Hwf| |].
  - intros q t Hq. rewrite node_same by done. by apply (pw_table _ _ Hwf).
  - intros p q t Hp Hq. rewrite !node_same by done. by apply (pw_inj _ _ Hwf).
Qed.

Lemma table_ext_data p : data_page k root p → data_page (on_mem (λ _, m') k) root p.
Proof.
  intros [Hf Ht]. split; [done|]. intros (q & t & Hq & Hn & <-). simpl in Hn.
  rewrite node_same in Hn by done. apply Ht. by exists q, t.
Qed.
End table_ext.

(** Zeroing or writing data pages. *)
Lemma data_write k root p o n f :
  pt_wf k root → block_ok p o → (∀ x, x ∈ pages_of p o → data_page k root x) →
  0 ≤ n ≤ PAGE_SIZE * 2 ^ Z.of_nat o → (∀ x, ¬ (p ≤ x < p + n) → f x = k_mem k x) →
  ∀ x, table_page k root (x / PAGE_SIZE) → f x = k_mem k x.
Proof.
  intros Hwf Hblk Hdata Hn Hout x Ht. apply Hout. intros Hx.
  assert (x / PAGE_SIZE ∈ pages_of p o) as Hin.
  { apply pages_of_elem. pose proof (block_ok_page _ _ Hblk) as Hm. unfold PAGE_SIZE in *.
    pose proof (Z.div_mod p 4096 ltac:(lia)). pose proof (pow2_pos o).
    split; [apply Z.div_le_mono; lia|]. apply Z.div_lt_upper_bound; lia. }
  by apply (Hdata _ Hin).
Qed.

(** ** Allocating and freeing data pages *)

Lemma k_alloc_data k root o r k' :
  pt_wf k root → k_alloc o k = Ret (r, k') →
  unmapped_same root k k' ∧ k_mem k' = k_mem k ∧ k_hhdm k' = k_hhdm k ∧
  match r with
  | None => k' = k
  | Some p => block_ok p o ∧ (o < MAX_ORDER)%nat ∧
      ∀ x, x ∈ pages_of p o → data_page k' root x ∧ x ∈ free_page_list (k_buddy k)
  end.
Proof.
  intros Hwf Ha. unfold k_alloc in Ha.
  destruct (buddy_alloc o (k_buddy k)) as [[r' b']|] eqn:Hb; [|done]. injection Ha as <- <-.
  destruct (buddy_alloc_ok _ _ _ _ (pw_buddy _ _ Hwf) Hb) as (Ho & Hb' & Hr).
  destruct r' as [p|].
  - destruct Hr as [Hblk Hp]. pose proof (pw_nodup _ _ Hwf) as Hnd. rewrite <- Hp in Hnd.
    apply NoDup_app in Hnd as (Hnd1 & Hdis & Hnd2).
    assert (pt_wf (set_buddy b' k) root) as Hwf'.
    { split; simpl; [done|done| | |apply Hwf].
      - intros x Hx. apply (pw_free _ _ Hwf). rewrite <- Hp. set_solver.
      - intros q t Hq Ht. destruct (pw_table _ _ Hwf q t Hq Ht) as (? & ? & Hn).
        split; [done|split; [done|]]. intros Hin. apply Hn. rewrite <- Hp. set_solver. }
    split_and!; [|done..|].
    + split_and!; [done| |done]. split; simpl; [|rewrite <- Hp; set_solver|done].
      intros x [Hf Ht]. split; [|done]. split; [|done]. simpl. intros Hin. apply Hf.
      rewrite <- Hp. set_solver.
    + intros x Hx. rewrite <- Hp, elem_of_app. split; [|by left].
      split; [simpl; by apply Hdis|]. intros (q & t & Hq & Ht & <-).
      destruct (pw_table _ _ Hwf q t Hq Ht) as (_ & _ & Hn). apply Hn. rewrite <- Hp. set_solver.
  - subst b'. assert (set_buddy (k_buddy k) k = k) as -> by (by destruct k).
    split_and!; [|done..]. by split_and!.
Qed.

Lemma k_free_data k root p o :
  pt_wf k root → block_ok p o → (o < MAX_ORDER)%nat →
  (∀ x, x ∈ pages_of p o → data_page k root x ∧ x * PAGE_SIZE + PAGE_SIZE ≤ 2^48) →
  ∃ k', k_free p o k = Ret (tt, k') ∧ pt_wf k' root ∧ k_mem k' = k_mem k ∧ k_hhdm k' = k_hhdm k.
Proof.
  intros Hwf Hblk Ho Hdata. unfold k_free.
  destruct (buddy_free_ok p o (k_buddy k) (pw_buddy _ _ Hwf) Hblk Ho)
    as (b' & lost & -> & Hb' & _ & _ & _ & Hp).
  eexists. split; [reflexivity|]. split; [|done].
  assert (NoDup (lost ++ free_page_list b')) as Hnd.
  { rewrite Hp. apply NoDup_app. split_and!; [apply NoDup_seqZ| |apply (pw_nodup _ _ Hwf)].
    intros x Hx. by apply (Hdata x Hx). }
  apply NoDup_app in Hnd as (_ & _ & Hnd).
  assert (∀ x, x ∈ free_page_list b' → x ∈ pages_of p o ∨ x ∈ free_page_list (k_buddy k)) as Hin.
  { intros x Hx. apply elem_of_app. rewrite <- Hp. set_solver. }
  split; simpl; [done|done| | |apply Hwf].
  - intros x [Hx|Hx]%Hin; [|by apply (pw_free _ _ Hwf)]. split; [|by apply Hdata].
    apply pages_of_elem in Hx as [Hx _]. destruct Hblk as (? & _ & _).
    assert (0 ≤ p / PAGE_SIZE) by (apply Z.div_pos; done). lia.
  - intros q t Hq Ht. destruct (pw_table _ _ Hwf q t Hq Ht) as (? & ? & Hn).
    split; [done|split; [done|]]. intros [Hx|Hx]%Hin; [|done].
    destruct (Hdata _ Hx) as [[_ Hnt] _]. apply Hnt. by exists q, t.
Qed.

(** ** The translation kept in software *)

(** Changing a VMA without moving it. *)
Lemma find_vma_update rs slot r r' v :
  rs !! slot = Some (Some r) → v_start r' = v_start r → v_end r' = v_end r →
  find_vma (<[slot := Some r']> rs) v =
    match find_vma rs v with
    | Some (i, x) => Some (i, if (i =? slot)%nat then r' else x)
    | None => None
    end.
Proof.
  intros Hs Hst He. unfold find_vma.
  rewrite (position_ext (covers v) (<[slot := Some r']> rs) rs).
  - destruct (position (covers v) rs) as [i|] eqn:Hi; simpl; [|done].
    apply position_lt in Hi. destruct (Nat.eqb_spec i slot) as [->|Hne].
    + rewrite list_lookup_insert_eq by done. rewrite Hs. simpl. by rewrite Nat.eqb_refl.
    + rewrite list_lookup_insert_ne by congruence. destruct (rs !! i) as [[x|]|]; [|done..].
      simpl. by rewrite (proj2 (Nat.eqb_neq _ _) Hne).
  - rewrite <- (list_insert_id rs slot _ Hs) at 2.
    apply Forall2_insert; [clear; induction rs; by constructor|].
    simpl. by rewrite Hst, He.
Qed.

(** [lazy_pages.get(i).copied().unwrap_or(0)] *)
Definition lazy_page (r : VmaRegion) (i : nat) : Z := default 0 (v_lazy_pages r !! i).

Lemma record_page_lookup i j p ps :
  default 0 (record_page i p ps !! j) = if (j =? i)%nat then p else default 0 (ps !! j).
Proof.
  unfold record_page. destruct (Nat.eqb_spec j i) as [->|Hne].
  - rewrite list_lookup_insert_eq; [done|].
    destruct (Nat.leb_spec (length ps) i); [rewrite length_resize; lia|done].
  - rewrite list_lookup_insert_ne by congruence.
    destruct (Nat.leb_spec (length ps) i); [|done].
    destruct (decide (j < length ps)%nat).
    + rewrite lookup_resize by lia. done.
    + rewrite (lookup_ge_None_2 ps j) by lia. destruct (decide (j < S i)%nat).
      * rewrite lookup_resize_new by lia. done.
      * rewrite lookup_resize_old by lia. done.
Qed.

Definition page_index (r : VmaRegion) (v : Z) : nat := Z.to_nat ((v - v_start r) / PAGE_SIZE).

Lemma find_vma_covers rs v i r : find_vma rs v = Some (i, r) →
  rs !! i = Some (Some r) ∧ v_start r ≤ v < v_end r.
Proof.
  intros Hf. pose proof (find_vma_lookup _ _ _ _ Hf) as Hi. split; [done|].
  unfold find_vma in Hf. destruct (position _ _) as [j|] eqn:Hp; simpl in Hf; [|done].
  apply position_Some in Hp as (o & Ho & Hc & _). rewrite Ho in Hf.
  destruct o as [r'|]; [|done]. simpl in Hf. injection Hf as <- <-. by apply covers_Some.
Qed.

(** The translation of an address of a lazy VMA. *)
Lemma virt_to_phys_lazy a v i r :
  find_vma (regions a) v = Some (i, r) → v_lazy r = true → 0 ≤ v_start r → v < 2^64 →
  as_virt_to_phys a v =
    if lazy_page r (page_index r v) =? 0 then None
    else Some (wadd (lazy_page r (page_index r v)) ((v - v_start r) mod PAGE_SIZE)).
Proof.
  intros Hf Hl Hs Hv. apply find_vma_covers in Hf as Hc. destruct Hc as [_ Hc].
  unfold as_virt_to_phys, find. rewrite Hf. simpl. rewrite Hl.
  by rewrite wsub_small by lia.
Qed.

Lemma aligned_sub_div v s : aligned s → (v - s) / PAGE_SIZE = v / PAGE_SIZE - s / PAGE_SIZE.
Proof.
  intros Hs. unfold aligned, PAGE_SIZE in *. pose proof (Z.div_mod s 4096 ltac:(lia)).
  replace (v - s) with (v + - (s / 4096) * 4096) by lia. rewrite Z.div_add by lia. lia.
Qed.

Lemma aligned_sub_mod v s : aligned s → (v - s) mod PAGE_SIZE = v mod PAGE_SIZE.
Proof.
  intros Hs. unfold aligned in Hs. rewrite Zminus_mod, Hs, Z.sub_0_r. by apply Z.mod_mod.
Qed.

(** A fault changes the software translation of one page only. *)
Lemma fault_virt_to_phys a slot r va p v n :
  vmas_wf (regions a) → find_vma (regions a) va = Some (slot, r) → v_lazy r = true →
  0 ≤ v_start r → va < 2^64 → 0 ≤ v < 2^64 → 0 ≤ p → p + PAGE_SIZE ≤ 2^64 → p ≠ 0 →
  let a' := set_regions (<[slot := Some
    (set_lazy_pages (record_page (page_index r va) p (v_lazy_pages r)) n r)]> (regions a)) a in
  as_virt_to_phys a' v =
    if v / PAGE_SIZE =? va / PAGE_SIZE then
      (if (v_start r <=? v) && (v <? v_end r) then Some (p + v mod PAGE_SIZE)
       else as_virt_to_phys a v)
    else as_virt_to_phys a v.
Proof.
  intros Hwf Hf Hl Hs Hva Hv Hp Hp2 Hp0 a'. destruct (find_vma_covers _ _ _ _ Hf) as [Hslot Hcov].
  pose proof (proj1 (vw_aligned _ Hwf slot r Hslot)) as Hal.
  assert (∀ i x, find_vma (regions a) v = Some (i, x) →
    find_vma (regions a') v = Some (i, if (i =? slot)%nat then
      set_lazy_pages (record_page (page_index r va) p (v_lazy_pages r)) n r else x)) as Hupd.
  { intros i x Hx. simpl. rewrite (find_vma_update _ _ r) by done. by rewrite Hx. }
  destruct (find_vma (regions a) v) as [[i x]|] eqn:Hfv.
  - specialize (Hupd i x eq_refl). destruct (find_vma_covers _ _ _ _ Hfv) as [Hix Hcx].
    destruct (Nat.eqb_spec i slot) as [->|Hne].
    + assert (x = r) as -> by congruence.
      rewrite (virt_to_phys_lazy a' v slot _ Hupd) by (done || lia).
      rewrite (virt_to_phys_lazy a v slot r Hfv) by (done || lia).
      unfold lazy_page, page_index. cbn [v_lazy_pages v_start set_lazy_pages].
      rewrite record_page_lookup, !aligned_sub_div, aligned_sub_mod by done.
      assert (v_start r / PAGE_SIZE ≤ v / PAGE_SIZE ∧ v_start r / PAGE_SIZE ≤ va / PAGE_SIZE) as [? ?]
        by (split; apply Z.div_le_mono; done || lia).
      destruct (Z.eqb_spec (v / PAGE_SIZE) (va / PAGE_SIZE)) as [Heq|Hneq].
      * rewrite Heq, Nat.eqb_refl, (proj2 (Z.eqb_neq p 0)) by done.
        rewrite (proj2 (Z.leb_le _ _)), (proj2 (Z.ltb_lt _ _)) by lia. simpl.
        f_equal. pose proof (Z.mod_pos_bound v PAGE_SIZE ltac:(done)). apply wadd_small. lia.
      * rewrite (proj2 (Nat.eqb_neq _ _)) by lia. done.
    + assert (as_virt_to_phys a' v = as_virt_to_phys a v) as ->.
      { unfold as_virt_to_phys, find. by rewrite Hupd, Hfv. }
      destruct ((v_start r <=? v) && (v <? v_end r)) eqn:Hc; [|by case_match].
      apply andb_true_iff in Hc as [?%Z.leb_le ?%Z.ltb_lt]. destruct Hne.
      eapply (vw_unique _ Hwf i slot _ _ v); [done..|by apply covers_Some|by apply covers_Some].
  - assert (find_vma (regions a') v = None) as Hnone.
    { simpl. rewrite (find_vma_update _ _ r) by done. by rewrite Hfv. }
    assert (as_virt_to_phys a' v = as_virt_to_phys a v) as ->.
    { unfold as_virt_to_phys, find. by rewrite Hnone, Hfv. }
    destruct ((v_start r <=? v) && (v <? v_end r)) eqn:Hc; [|by case_match].
    exfalso. unfold find_vma in Hfv.
    destruct (position_is_Some (covers v) (regions a) slot (Some r)) as (i & Hi & _); [done..|].
    rewrite Hi in Hfv. simpl in Hfv. apply position_Some in Hi as (o & Ho & Hco & _).
    rewrite Ho in Hfv. by destruct o.
Qed.

(** ** Installing one zeroed page *)

Lemma page_down_div x : 0 ≤ x < 2^64 → page_down x / PAGE_SIZE = x / PAGE_SIZE.
Proof.
  intros Hx. rewrite page_down_eq by done. unfold PAGE_SIZE.
  pose proof (Z.div_mod x 4096 ltac:(lia)).
  replace (x - x mod 4096) with (x / 4096 * 4096) by lia. by rewrite Z.div_mul.
Qed.

(** The page at [p] of one data page reads as zero. *)
Definition zeroed (m : mem) (p n : Z) : Prop := ∀ x, p ≤ x < p + n → m x = 0.

(** Allocate, zero and map: on success the hardware maps [virt] to a zeroed
    page that was free before; on failure no translation changes. *)
Lemma install_page k root virt flags p k1 :
  pt_wf k root → k_hhdm k = 0 → 0 ≤ virt < 2^48 → k_alloc 0 k = Ret (Some p, k1) →
  let k2 := on_mem (mem_fill (phys_to_virt p k1) 0 PAGE_SIZE) k1 in
  p / PAGE_SIZE ∈ free_page_list (k_buddy k) ∧ 0 ≤ p ∧ p + PAGE_SIZE ≤ 2^48 ∧
  ∃ b k3, map_page root virt p flags k2 = Ret (b, k3) ∧ k_hhdm k3 = 0 ∧
    if b then
      remapped root virt (Some (descriptor p flags)) k2 k3 ∧ zeroed (k_mem k3) p PAGE_SIZE ∧
      (∀ v, 0 ≤ v < 2^48 → v / PAGE_SIZE ≠ virt / PAGE_SIZE →
         lookup_entry (k_mem k3) root v = lookup_entry (k_mem k) root v)
    else
      ∃ k4, k_free p 0 k3 = Ret (tt, k4) ∧ pt_wf k4 root ∧ k_hhdm k4 = 0 ∧
        ∀ v, lookup_entry (k_mem k4) root v = lookup_entry (k_mem k) root v.
Proof.
  intros Hwf Hh Hvirt Ha k2.
  destruct (k_alloc_data k root 0 _ _ Hwf Ha) as ((Hwf1 & _ & Hl1) & _ & Hh1 & Hblk & _ & Hdata).
  assert (p / PAGE_SIZE ∈ pages_of p 0) as Hin.
  { apply pages_of_elem. simpl. lia. }
  destruct (Hdata _ Hin) as [_ Hfree]. pose proof (block_ok_page _ _ Hblk) as Hpm.
  pose proof Hblk as (Hp0 & _ & _). destruct (pw_free _ _ Hwf _ Hfree) as [_ Hp48].
  assert (p + PAGE_SIZE ≤ 2^48) as Hp1.
  { unfold PAGE_SIZE in *. pose proof (Z.div_mod p 4096 ltac:(lia)). lia. }
  assert (p < 2^48) as Hplt by (unfold PAGE_SIZE in *; lia).
  split_and!; [done..|].
  assert (phys_to_virt p k1 = p) as Hvp.
  { unfold phys_to_virt. rewrite Hh1, Hh. unfold PAGE_SIZE in *. rewrite wadd_small; lia. }
  assert (∀ x, table_page k1 root (x / PAGE_SIZE) → mem_fill (phys_to_virt p k1) 0 PAGE_SIZE (k_mem k1) x = k_mem k1 x)
    as Hsame.
  { rewrite Hvp. apply (data_write k1 root p 0 PAGE_SIZE); [done..| | |].
    - intros x Hx. by apply Hdata.
    - simpl. unfold PAGE_SIZE. lia.
    - intros x Hx. by apply mem_fill_out. }
  pose proof (table_ext_wf k1 root Hwf1 _ Hsame) as Hwf2. fold k2 in Hwf2.
  change (on_mem (λ _, mem_fill (phys_to_virt p k1) 0 PAGE_SIZE (k_mem k1)) k1) with k2 in Hwf2.
  assert (∀ v, lookup_entry (k_mem k2) root v = lookup_entry (k_mem k) root v) as Hl2.
  { intros v. etrans; [apply (lookup_same k1 root Hwf1 _ Hsame)|apply Hl1]. }
  assert (data_page k2 root (p / PAGE_SIZE)) as Hd2.
  { apply (table_ext_data k1 root Hwf1 _ Hsame). by apply Hdata. }
  destruct (descriptor_ok p flags) as (Hfit & _); [lia|done|].
  destruct (map_4k_ok k2 root virt p (translate_flags flags) Hwf2 Hvirt Hfit) as (b & k3 & Hr & Hb).
  exists b, k3. split; [exact Hr|]. destruct b.
  - pose proof Hb as (Hwf3 & Hf3 & Hlook3). split; [rewrite (pf_hhdm _ _ _ Hf3); simpl; congruence|].
    split_and!; [done| |].
    + intros x Hx. destruct (pf_data _ _ _ Hf3 _ Hd2) as [_ Hm]. rewrite Hm.
      * simpl. rewrite Hvp. by apply mem_fill_in.
      * by apply aligned_div.
    + intros v Hv Hne. rewrite Hlook3 by done. by rewrite (proj2 (Z.eqb_neq _ _) Hne).
  - destruct Hb as (Hwf3 & Hf3 & Hl3). split; [rewrite (pf_hhdm _ _ _ Hf3); simpl; congruence|].
    destruct (k_free_data k3 root p 0) as (k4 & Hfr & Hwf4 & Hm4 & Hh4); [done|done|unfold MAX_ORDER; lia| |].
    + intros x Hx%pages_of_elem. simpl in Hx. assert (x = p / PAGE_SIZE) as -> by lia.
      split; [by apply (pf_data _ _ _ Hf3)|done].
    + exists k4. split_and!; [done..| |].
      * rewrite Hh4, (pf_hhdm _ _ _ Hf3). simpl. congruence.
      * intros v. rewrite Hm4, Hl3. apply Hl2.
Qed.

Lemma k_alloc_0_total k : ∃ r k', k_alloc 0 k = Ret (r, k').
Proof.
  unfold k_alloc. rewrite buddy_alloc_run by (unfold MAX_ORDER; lia).
  destruct (alloc_loop _ _ _ _) as [r b]. eauto.
Qed.

(** ** Page faults *)

(** C6: A page fault in a lazy VMA is handled as demand paging should be.  For
    an address of a lazy VMA whose page is not present, the handler does not
    panic.  If it returns true, the VMA's translation and the hardware's walk
    agree on a physical page that was free before, is filled with zeros and has
    the permissions of the VMA; if it returns false (no memory), nothing is
    recorded.  In both cases the translations of all other pages, in the VMAs
    and in the page tables, are as before. *)
Theorem page_fault_spec k a va slot r :
  pt_wf k (page_table_root a) → k_hhdm k = 0 → 0 ∉ free_page_list (k_buddy k) →
  vmas_wf (regions a) → 0 ≤ va < 2^48 →
  find_vma (regions a) va = Some (slot, r) → v_lazy r = true → 0 ≤ v_start r →
  as_virt_to_phys a va = None →
  ∃ b k' a', handle_user_page_fault va (k, a) = Ret (b, (k', a')) ∧
    pt_wf k' (page_table_root a) ∧
    (∀ v, 0 ≤ v < 2^48 → v / PAGE_SIZE ≠ va / PAGE_SIZE →
       lookup_entry (k_mem k') (page_table_root a) v = lookup_entry (k_mem k) (page_table_root a) v ∧
       as_virt_to_phys a' v = as_virt_to_phys a v) ∧
    if b then ∃ p e,
      as_virt_to_phys a' va = Some (p + va mod PAGE_SIZE) ∧
      lookup_entry (k_mem k') (page_table_root a) va = Some e ∧ entry_phys e = p ∧
      attrs_ok (v_flags r) e ∧ p / PAGE_SIZE ∈ free_page_list (k_buddy k) ∧
      zeroed (k_mem k') p PAGE_SIZE
    else a' = a ∧ lookup_entry (k_mem k') (page_table_root a) va =
                  lookup_entry (k_mem k) (page_table_root a) va.
Proof.
  intros Hwf Hh H0 Hvm Hva Hf Hl Hs Hnone. set (root := page_table_root a) in *.
  destruct (find_vma_covers _ _ _ _ Hf) as [Hslot Hcov].
  pose proof (proj1 (vw_aligned _ Hvm slot r Hslot)) as Hal.
  assert (Z.to_nat (wsub (page_down va) (v_start r) / PAGE_SIZE) = page_index r va) as Hidx.
  { unfold page_index. destruct (page_down_range va ltac:(lia)) as [_ Hpd].
    assert (v_start r ≤ page_down va).
    { rewrite page_down_eq by lia. unfold aligned, PAGE_SIZE in *.
      pose proof (Z.div_mod va 4096 ltac:(lia)). pose proof (Z.div_mod (v_start r) 4096 ltac:(lia)).
      assert (v_start r / 4096 ≤ va / 4096) by (apply Z.div_le_mono; lia). lia. }
    rewrite wsub_small by lia. by rewrite !aligned_sub_div, page_down_div by (done || lia). }
  rewrite (virt_to_phys_lazy _ _ _ _ Hf) in Hnone by (done || lia).
  destruct (Z.eqb_spec (lazy_page r (page_index r va)) 0) as [Hz|]; [|done].
  destruct (page_down_range va ltac:(lia)) as [_ Hpd]. pose proof (page_down_div va ltac:(lia)) as Hpdd.
  unfold handle_user_page_fault, mbind, st_bind, get_as, st_get. cbn [snd]. rewrite Hf, Hl. cbn [negb].
  rewrite Hidx. unfold lazy_page in Hz. rewrite Hz. cbn [negb Z.eqb].
  destruct (k_alloc_0_total k) as (r0 & k1 & Ha). unfold on_m at 1. cbn [m_alloc kmem_machine]. rewrite Ha.
  destruct r0 as [p|].
  2: { destruct (k_alloc_data k root 0 _ _ Hwf Ha) as (_ & _ & _ & ->).
       exists false, k, a. split_and!; done. }
  destruct (install_page k root (page_down va) (v_flags r) p k1 Hwf Hh ltac:(lia) Ha)
    as (Hfree & Hp0 & Hp1 & b & k3 & Hmap & Hh3 & Hb).
  cbn [on_m m_zero m_map m_free kmem_machine st_modify]. fold root. rewrite Hmap. destruct b; cbn [negb].
  - destruct Hb as ((Hwf3 & _ & Hlook) & Hzero & Hother).
    assert (p ≠ 0) as Hpn0 by (intros ->; done).
    assert (p < 2^48) as Hplt by (unfold PAGE_SIZE in *; lia).
    eexists true, k3, _. split; [reflexivity|]. split; [done|].
    pose proof (fault_virt_to_phys a slot r va p) as Hvp. split.
    + intros v Hv Hne. split; [apply Hother; [done|by rewrite Hpdd]|].
      rewrite Hvp by (done || lia). by rewrite (proj2 (Z.eqb_neq _ _) Hne).
    + exists p, (descriptor p (v_flags r)).
      destruct (descriptor_ok p (v_flags r)) as (_ & Hphys & Hattr); [lia| |].
      { by eapply block_ok_page, (k_alloc_data k root 0 _ _ Hwf Ha). }
      split_and!; [|rewrite Hlook, Hpdd, Z.eqb_refl by done; done|done..].
      rewrite Hvp by (done || lia). rewrite Z.eqb_refl.
      by rewrite (proj2 (Z.leb_le _ _)), (proj2 (Z.ltb_lt _ _)) by lia.
  - destruct Hb as (k4 & Hfr & Hwf4 & _ & Hlook). unfold on_m. rewrite Hfr.
    exists false, k4, a. split_and!; done.
Qed.

(** ** A small address space *)

Lemma vmas_wf_singleton r : aligned (v_start r) → aligned (v_end r) →
  vmas_wf (Some r :: replicate 7 None).
Proof.
  intros Hs He.
  assert (∀ i o, (Some r :: replicate 7 None) !! i = Some o → o = None ∨ i = 0%nat ∧ o = Some r) as Hone.
  { intros [|i] o Hi; [right; by simplify_eq/=|left].
    change (replicate 7 (@None VmaRegion) !! i = Some o) in Hi. by apply lookup_replicate_Some in Hi. }
  split; [done| |].
  - intros i r' Hi. destruct (Hone _ _ Hi) as [|[_ ?]]; by simplify_eq.
  - intros i j o o' va Hi Hj. destruct (Hone _ _ Hi) as [->|[-> _]]; [done|].
    destruct (Hone _ _ Hj) as [->|[-> _]]; done.
Qed.

(** One lazy VMA of two pages, the second one not present. *)
Definition two_pages (p q : Z) : AddressSpace :=
  mkAS 4096 (Some (set_lazy_pages [p; q] 2
    (new_vma 0x400000 0x402000 0 (Z.lor PageFlags.USER PageFlags.WRITABLE) true)) :: replicate 7 None) 0 0.

Lemma two_pages_wf p q : vmas_wf (regions (two_pages p q)).
Proof. by apply vmas_wf_singleton. Qed.

Lemma page_fault_spec_witness :
  ∃ k' a', handle_user_page_fault 0x401234 (zero_kmem, two_pages 0 0) = Ret (true, (k', a')) ∧
    pt_wf k' 4096 ∧ as_virt_to_phys a' 0x401234 = Some (0x4000 + 0x234).
Proof.
  destruct (page_fault_spec zero_kmem (two_pages 0 0) 0x401234 0
    (set_lazy_pages [0; 0] 2 (new_vma 0x400000 0x402000 0 (Z.lor PageFlags.USER PageFlags.WRITABLE) true)))
    as (b & k' & a' & Hr & Hwf & _).
  - apply zero_kmem_wf.
  - reflexivity.
  - change (free_page_list _) with (seqZ 4 4). rewrite elem_of_seqZ. lia.
  - apply two_pages_wf.
  - lia.
  - reflexivity.
  - reflexivity.
  - simpl. lia.
  - reflexivity.
  - exists k', a'. assert (b = true ∧ as_virt_to_phys a' 0x401234 = Some (0x4000 + 0x234)) as [-> Hv].
    { assert (match handle_user_page_fault 0x401234 (zero_kmem, two_pages 0 0) with
        | Ret (b, (_, a)) => (b, as_virt_to_phys a 0x401234)
        | Panic => (false, None)
        end = (true, Some (0x4000 + 0x234))) as H by (vm_compute; reflexivity).
      rewrite Hr in H. injection H as Hb Hv. split; [exact Hb|exact Hv]. }
    split; [exact Hr|]. split; [exact Hwf|exact Hv].
Defined.
