(* ===== verification/VmmBuf.v ===== *)
(** * User buffers: what is written is read back *)

From stdpp Require Import base list option numbers sets.
From Stdlib Require Import ZArith Lia.
From S2P Require Import Prelude Words CyLib Buddy BuddySpec Memory Slab Paging PagingSpec Vmm VmmInv VmmSpec.

Local Open Scope Z_scope.

(** ** Translation is linear within a page *)

Lemma find_vma_unique rs i r v : vmas_wf rs → rs !! i = Some (Some r) → v_start r ≤ v < v_end r →
  find_vma rs v = Some (i, r).
Proof.
  intros Hwf Hi Hc. apply covers_Some in Hc.
  destruct (position_is_Some (covers v) rs i (Some r)) as (j & Hj & _); [done..|].
  pose proof Hj as (o & Ho & Hco & _)%position_Some.
  assert (j = i) as -> by (by eapply (vw_unique _ Hwf j i o (Some r) v)).
  unfold find_vma. rewrite Hj. simpl. by rewrite Hi.
Qed.

Lemma wadd_shift x d p : wadd x d = p → ∀ e, 0 ≤ p + e < 2^64 → wadd x (d + e) = p + e.
Proof.
  intros <- e He. unfold wadd, u64 in *. rewrite Z.add_assoc, <- (Z.add_mod_idemp_l (x + d)) by lia.
  by apply Z.mod_small.
Qed.

Lemma virt_to_phys_linear a v p v' :
  vmas_wf (regions a) → (∀ i r, regions a !! i = Some (Some r) → 0 ≤ v_start r) →
  as_virt_to_phys a v = Some p → 0 ≤ p → p + PAGE_SIZE ≤ 2^64 → 0 ≤ v ≤ v' → v' < 2^64 →
  v' / PAGE_SIZE = v / PAGE_SIZE → as_virt_to_phys a v' = Some (p + (v' - v)).
Proof.
  intros Hwf Hpos Hv Hp Hp64 Hvv Hv64 Hpage. unfold as_virt_to_phys, find in *.
  destruct (find_vma (regions a) v) as [[i r]|] eqn:Hf; simpl in Hv; [|done].
  destruct (find_vma_covers _ _ _ _ Hf) as [Hi Hc]. specialize (Hpos i r Hi).
  destruct (vw_aligned _ Hwf i r Hi) as [Has Hae].
  assert (v' - v < PAGE_SIZE ∧ v' < v_end r) as [Hd He].
  { unfold aligned, PAGE_SIZE in *. pose proof (Z.div_mod v 4096 ltac:(lia)).
    pose proof (Z.div_mod v' 4096 ltac:(lia)). pose proof (Z.div_mod (v_end r) 4096 ltac:(lia)).
    pose proof (Z.mod_pos_bound v 4096 ltac:(lia)). pose proof (Z.mod_pos_bound v' 4096 ltac:(lia)).
    lia. }
  rewrite (find_vma_unique _ i r v') by (done || lia). simpl.
  rewrite wsub_small in Hv by lia. rewrite wsub_small by lia.
  destruct (v_lazy r).
  - rewrite !aligned_sub_div, !aligned_sub_mod, Hpage in * by done.
    destruct (_ =? 0); [done|]. injection Hv as Hv. f_equal.
    assert (v' mod PAGE_SIZE = v mod PAGE_SIZE + (v' - v)) as ->.
    { unfold PAGE_SIZE in *. pose proof (Z.div_mod v 4096 ltac:(lia)).
      pose proof (Z.div_mod v' 4096 ltac:(lia)). lia. }
    apply wadd_shift; [done|]. unfold PAGE_SIZE in *. lia.
  - injection Hv as Hv. f_equal. replace (v' - v_start r) with (v - v_start r + (v' - v)) by lia.
    apply wadd_shift; [done|]. unfold PAGE_SIZE in *. lia.
Qed.

(** ** Buffers *)

Section buffers.
Context (a : AddressSpace) (va : Z) (n : nat).

(** The range is mapped, to different bytes of physical memory. *)
Record buf_ok : Prop := {
  bo_wf : vmas_wf (regions a);
  bo_pos : ∀ i r, regions a !! i = Some (Some r) → 0 ≤ v_start r;
  bo_range : 0 ≤ va ∧ va + Z.of_nat n ≤ 2^64;
  bo_mapped : ∀ i, 0 ≤ i < Z.of_nat n → ∃ p, as_virt_to_phys a (va + i) = Some p ∧
    0 ≤ p ∧ p + PAGE_SIZE ≤ 2^64;
  bo_inj : ∀ i j p, 0 ≤ i < Z.of_nat n → 0 ≤ j < Z.of_nat n →
    as_virt_to_phys a (va + i) = Some p → as_virt_to_phys a (va + j) = Some p → i = j
}.

Context (Hok : buf_ok).

(** The chunk the loops handle at offset [i]. *)
Definition chunk_at (i : Z) : Z := Z.min (PAGE_SIZE - (va + i) mod PAGE_SIZE) (Z.of_nat n - i).

Lemma chunk_pos i : 0 ≤ i < Z.of_nat n → 0 < chunk_at i ≤ Z.of_nat n - i.
Proof.
  intros Hi. unfold chunk_at. pose proof (Z.mod_pos_bound (va + i) PAGE_SIZE ltac:(done)). lia.
Qed.

Lemma chunk_linear i j p : 0 ≤ i < Z.of_nat n → 0 ≤ j < chunk_at i →
  as_virt_to_phys a (va + i) = Some p → as_virt_to_phys a (va + (i + j)) = Some (p + j).
Proof.
  intros Hi Hj Hp. destruct (bo_range Hok). pose proof (chunk_pos i Hi).
  destruct (bo_mapped Hok i Hi) as (p' & Hp' & Hp0 & Hp1). rewrite Hp in Hp'. simplify_eq.
  replace (p' + j) with (p' + (va + (i + j) - (va + i))) by lia.
  apply virt_to_phys_linear; [apply Hok|apply Hok|done..|lia|lia|].
  unfold chunk_at, PAGE_SIZE in *.
  pose proof (Z.div_mod (va + i) 4096 ltac:(lia)).
  symmetry. apply (Z.div_unique _ 4096 _ ((va + i) mod 4096 + j)); [|lia].
  pose proof (Z.mod_pos_bound (va + i) 4096 ltac:(lia)). lia.
Qed.

(** Memory holds [bs] at the first [i] bytes of the buffer. *)
Definition holds_upto (bs : list Z) (m : mem) (i : Z) : Prop :=
  ∀ j p, 0 ≤ j < i → as_virt_to_phys a (va + j) = Some p → bs !! Z.to_nat j = Some (m p).

Lemma phys_identity p k : k_hhdm k = 0 → 0 ≤ p < 2^64 → phys_to_virt p k = p.
Proof. intros Hh Hp. unfold phys_to_virt. rewrite Hh. rewrite wadd_small; lia. Qed.

Lemma write_loop_spec bs fuel i k :
  length bs = n → k_hhdm k = 0 → (i ≤ n)%nat → (n - i ≤ fuel)%nat →
  holds_upto bs (k_mem k) (Z.of_nat i) →
  ∃ m', write_loop fuel a va bs i k = Ret (true, on_mem (λ _, m') k) ∧
    holds_upto bs m' (Z.of_nat n).
Proof.
  intros Hlen Hh. revert i k Hh. induction fuel as [|fuel IH]; intros i k Hh Hi Hfuel Hholds; simpl;
    rewrite Hlen; destruct (Nat.ltb_spec i n) as [Hlt|Hge]; [lia| | |].
  1, 3: exists (k_mem k); split; [by destruct k|]; by replace n with i by lia.
  destruct (bo_range Hok) as [Hva0 Hva1]. rewrite wadd_small by lia.
  destruct (bo_mapped Hok (Z.of_nat i) ltac:(lia)) as (p & Hp & Hp0 & Hp1). rewrite Hp.
  pose proof (chunk_pos (Z.of_nat i) ltac:(lia)) as Hch.
  assert (Nat.min (Z.to_nat (PAGE_SIZE - (va + Z.of_nat i) mod PAGE_SIZE)) (n - i) =
    Z.to_nat (chunk_at (Z.of_nat i))) as ->.
  { unfold chunk_at. pose proof (Z.mod_pos_bound (va + Z.of_nat i) PAGE_SIZE ltac:(done)). lia. }
  set (c := chunk_at (Z.of_nat i)) in *.
  unfold mbind, st_bind. cbn [m_write kmem_machine st_modify].
  rewrite phys_identity by (done || (unfold PAGE_SIZE in *; lia)).
  set (part := take (Z.to_nat c) (drop i bs)).
  assert (length part = Z.to_nat c) as Hpl.
  { unfold part. rewrite length_take, length_drop. lia. }
  destruct (IH (i + Z.to_nat c)%nat (on_mem (mem_write p part) k)) as (m' & Hrun & Hm'); [done|lia|lia| |].
  - intros j q Hj Hq. simpl. destruct (Z.lt_ge_cases j (Z.of_nat i)) as [Hji|Hji].
    + rewrite mem_write_out; [apply Hholds; [lia|done]|]. rewrite Hpl. intros Hin.
      enough (j = Z.of_nat i + (q - p)) by lia.
      apply (bo_inj Hok j (Z.of_nat i + (q - p)) q); [lia|lia|done|].
      rewrite (chunk_linear (Z.of_nat i) (q - p) p) by (done || lia). f_equal. lia.
    + pose proof (chunk_linear (Z.of_nat i) (j - Z.of_nat i) p ltac:(lia) ltac:(lia) Hp) as Hq'.
      replace (Z.of_nat i + (j - Z.of_nat i)) with j in Hq' by lia. rewrite Hq in Hq'. simplify_eq.
      destruct (lookup_lt_is_Some_2 bs (Z.to_nat j)) as [b Hb]; [lia|]. rewrite Hb. f_equal.
      symmetry. apply mem_write_in; [lia|].
      replace (Z.to_nat (p + (j - Z.of_nat i) - p)) with (Z.to_nat j - i)%nat by lia.
      unfold part. rewrite lookup_take_lt by lia. rewrite lookup_drop, <- Hb. f_equal. lia.
  - exists m'. split; [exact Hrun|done].
Qed.

Lemma read_loop_spec bs fuel i k :
  length bs = n → k_hhdm k = 0 → 0 ≤ i ≤ Z.of_nat n → Z.of_nat n - i ≤ Z.of_nat fuel →
  holds_upto bs (k_mem k) (Z.of_nat n) →
  read_loop fuel k a va (Z.of_nat n) i (take (Z.to_nat i) bs) = (true, bs).
Proof.
  intros Hlen Hh. revert i. induction fuel as [|fuel IH]; intros i Hi Hfuel Hholds; simpl;
    destruct (Z.ltb_spec i (Z.of_nat n)) as [Hlt|Hge]; [lia| | |].
  1, 3: rewrite take_ge by lia; done.
  destruct (bo_range Hok) as [Hva0 Hva1]. rewrite wadd_small by lia.
  destruct (bo_mapped Hok i ltac:(lia)) as (p & Hp & Hp0 & Hp1). rewrite Hp.
  pose proof (chunk_pos i ltac:(lia)) as Hch. fold (chunk_at i). set (c := chunk_at i) in *.
  rewrite phys_identity by (done || (unfold PAGE_SIZE in *; lia)).
  assert (take (Z.to_nat i) bs ++ mem_read (k_mem k) p c = take (Z.to_nat (i + c)) bs) as ->.
  { apply list_eq. intros j. destruct (decide (Z.of_nat j < i)).
    - rewrite lookup_app_l by (rewrite length_take; lia). by rewrite !lookup_take_lt by lia.
    - rewrite lookup_app_r by (rewrite length_take; lia). rewrite length_take, lookup_mem_read.
      replace (j - Nat.min (Z.to_nat i) (length bs))%nat with (j - Z.to_nat i)%nat by lia.
      case_decide.
      + rewrite lookup_take_lt by lia. symmetry.
        rewrite <- (Nat2Z.id j) at 1. apply (Hholds (Z.of_nat j)); [lia|].
        replace (Z.of_nat j) with (i + Z.of_nat (j - Z.to_nat i)) at 1 by lia.
        apply chunk_linear; [lia|lia|done].
      + symmetry. apply lookup_take_ge. lia. }
  apply IH; [lia|lia|done].
Qed.
End buffers.

(** A user buffer is read back as it was written.  For a mapped range whose
    bytes lie at different physical addresses, [write_user_buf] succeeds for
    any bytes, across page boundaries and VMAs, changes only memory, and
    [read_user_buf] of the same range then returns exactly those bytes. *)
Theorem user_buf_roundtrip k a va bs :
  k_hhdm k = 0 → buf_ok a va (length bs) →
  ∃ m', write_user_buf va bs (k, a) = Ret (true, (on_mem (λ _, m') k, a)) ∧
    read_user_buf (on_mem (λ _, m') k) a va (Z.of_nat (length bs)) = (true, bs).
Proof.
  intros Hh Hok.
  destruct (write_loop_spec a va (length bs) Hok bs (length bs) 0 k) as (m' & Hw & Hm');
    [done|done|lia|lia|intros j p Hj; lia|].
  exists m'. split.
  - unfold write_user_buf, mbind, st_bind, get_as, st_get, on_m. simpl. by rewrite Hw.
  - unfold read_user_buf.
    by apply (read_loop_spec a va (length bs) Hok bs (Z.to_nat (Z.of_nat (length bs))) 0); [done|done|lia|lia|].
Qed.

Lemma user_buf_roundtrip_witness :
  ∃ m', write_user_buf 0x400ffe [1;2;3;4] (zero_kmem, two_pages 0x5000 0x2000)
      = Ret (true, (on_mem (λ _, m') zero_kmem, two_pages 0x5000 0x2000)) ∧
    read_user_buf (on_mem (λ _, m') zero_kmem) (two_pages 0x5000 0x2000) 0x400ffe 4 = (true, [1;2;3;4]).
Proof.
  apply (user_buf_roundtrip zero_kmem (two_pages 0x5000 0x2000) 0x400ffe [1;2;3;4]); [reflexivity|].
  assert (∀ i, 0 ≤ i < 4 → i = 0 ∨ i = 1 ∨ i = 2 ∨ i = 3) as H4 by lia.
  split; [apply two_pages_wf| |simpl; lia| |].
  - intros [|i] r Hi; [simpl in Hi; simplify_eq; simpl; lia|].
    change (replicate 7 (@None VmaRegion) !! i = Some (Some r)) in Hi. by apply lookup_replicate_Some in Hi.
  - intros i Hi. destruct (H4 i Hi) as [->|[->|[->| ->]]]; eexists; (split; [reflexivity|split; vm_compute; congruence]).
  - intros i j p Hi Hj. destruct (H4 i Hi) as [->|[->|[->| ->]]], (H4 j Hj) as [->|[->|[->| ->]]];
      vm_compute; congruence.
Defined.
