(* ===== verification/Task.v ===== *)
(** * Task descriptors (src/sched/src/task.rs, src/sched/src/context.rs)

    The AArch64 variant of the saved context.  [Box<Task>] is a task: the run
    queue owns its tasks. *)

From stdpp Require Import base list option numbers.
From Stdlib Require Import ZArith Lia.
From S2P Require Import Prelude Words Buddy Memory Slab Paging Vmm.

Local Open Scope Z_scope.

Inductive TaskState := Ready | Running | Blocked | Zombie.

#[export] Instance TaskState_eq_dec : EqDecision TaskState.
Proof. solve_decision. Defined.

Record SigAction := mkSigAction {
  sa_handler : Z;
  sa_flags : Z;
  sa_mask : Z;
  sa_restorer : Z
}.

Definition DEFAULT_SIGACTION : SigAction := mkSigAction 0 0 0 0.

(** ** Saved contexts *)

(** Padding left out. *)
Record CpuContext := mkCtx {
  c_gregs : list Z;
  c_sp : Z;
  c_fpregs : list Z;
  c_fpcr : Z;
  c_fpsr : Z;
  c_tpidr_el0 : Z
}.

Definition CpuContext_zeroed : CpuContext :=
  mkCtx (replicate 12 0) 0 (replicate 32 0) 0 0 0.

Definition with_lr_sp (lr sp : Z) (c : CpuContext) : CpuContext :=
  mkCtx (<[11%nat := lr]> (c_gregs c)) sp (c_fpregs c) (c_fpcr c) (c_fpsr c) (c_tpidr_el0 c).
Definition with_tpidr (v : Z) (c : CpuContext) : CpuContext :=
  mkCtx (c_gregs c) (c_sp c) (c_fpregs c) (c_fpcr c) (c_fpsr c) v.

Definition CpuContext_new_task (entry stack_top : Z) : CpuContext :=
  with_lr_sp entry stack_top CpuContext_zeroed.

(** [ret_to_user] is the address of that label. *)
Definition CpuContext_new_user_task (ret_to_user user_entry user_sp kernel_stack_top : Z)
    : st kmem CpuContext :=
  let frame := wsub kernel_stack_top (4 * 8) in
  st_modify (on_mem (write_u64 frame user_sp)) ≫= λ _,
  st_modify (on_mem (write_u64 (frame + 8) user_entry)) ≫= λ _,
  st_modify (on_mem (write_u64 (frame + 16) 0)) ≫= λ _,
  st_modify (on_mem (write_u64 (frame + 24) 0)) ≫= λ _,
  mret (with_lr_sp ret_to_user frame CpuContext_zeroed).

(** ** Tasks *)

Record Task := mkTask {
  t_pid : Z;
  t_state : TaskState;
  t_priority : Z;
  t_ctx : CpuContext;
  t_page_table : Z;
  t_kernel_stack : Z;
  t_blocked_on : option Z;
  t_blocked_futex : Z;
  t_address_space : option AddressSpace;
  t_exit_code : Z;
  t_reply_port : Z;
  t_ppid : Z;
  t_tgid : Z;
  t_pgid : Z;
  t_sid : Z;
  t_uid : Z;
  t_gid : Z;
  t_euid : Z;
  t_egid : Z;
  t_signal_pending : Z;
  t_signal_mask : Z;
  t_signal_actions : list SigAction;
  t_clear_child_tid : Z;
  t_heap_start : Z;
  t_heap_end : Z;
  t_tls_base : Z;
  t_cwd : list Z;
  t_cwd_len : Z;
  t_umask : Z
}.

Definition with_state (state : TaskState) (t : Task) : Task :=
  mkTask (t_pid t) state (t_priority t) (t_ctx t) (t_page_table t) (t_kernel_stack t)
    (t_blocked_on t) (t_blocked_futex t) (t_address_space t) (t_exit_code t) (t_reply_port t)
    (t_ppid t) (t_tgid t) (t_pgid t) (t_sid t) (t_uid t) (t_gid t) (t_euid t) (t_egid t)
    (t_signal_pending t) (t_signal_mask t) (t_signal_actions t) (t_clear_child_tid t)
    (t_heap_start t) (t_heap_end t) (t_tls_base t) (t_cwd t) (t_cwd_len t) (t_umask t).
Definition with_ctx (ctx : CpuContext) (t : Task) : Task :=
  mkTask (t_pid t) (t_state t) (t_priority t) ctx (t_page_table t) (t_kernel_stack t)
    (t_blocked_on t) (t_blocked_futex t) (t_address_space t) (t_exit_code t) (t_reply_port t)
    (t_ppid t) (t_tgid t) (t_pgid t) (t_sid t) (t_uid t) (t_gid t) (t_euid t) (t_egid t)
    (t_signal_pending t) (t_signal_mask t) (t_signal_actions t) (t_clear_child_tid t)
    (t_heap_start t) (t_heap_end t) (t_tls_base t) (t_cwd t) (t_cwd_len t) (t_umask t).
Definition with_page_table (page_table : Z) (t : Task) : Task :=
  mkTask (t_pid t) (t_state t) (t_priority t) (t_ctx t) page_table (t_kernel_stack t)
    (t_blocked_on t) (t_blocked_futex t) (t_address_space t) (t_exit_code t) (t_reply_port t)
    (t_ppid t) (t_tgid t) (t_pgid t) (t_sid t) (t_uid t) (t_gid t) (t_euid t) (t_egid t)
    (t_signal_pending t) (t_signal_mask t) (t_signal_actions t) (t_clear_child_tid t)
    (t_heap_start t) (t_heap_end t) (t_tls_base t) (t_cwd t) (t_cwd_len t) (t_umask t).
Definition with_kernel_stack (kernel_stack : Z) (t : Task) : Task :=
  mkTask (t_pid t) (t_state t) (t_priority t) (t_ctx t) (t_page_table t) kernel_stack
    (t_blocked_on t) (t_blocked_futex t) (t_address_space t) (t_exit_code t) (t_reply_port t)
    (t_ppid t) (t_tgid t) (t_pgid t) (t_sid t) (t_uid t) (t_gid t) (t_euid t) (t_egid t)
    (t_signal_pending t) (t_signal_mask t) (t_signal_actions t) (t_clear_child_tid t)
    (t_heap_start t) (t_heap_end t) (t_tls_base t) (t_cwd t) (t_cwd_len t) (t_umask t).
Definition with_blocked_on (blocked_on : option Z) (t : Task) : Task :=
  mkTask (t_pid t) (t_state t) (t_priority t) (t_ctx t) (t_page_table t) (t_kernel_stack t)
    blocked_on (t_blocked_futex t) (t_address_space t) (t_exit_code t) (t_reply_port t) (t_ppid t)
    (t_tgid t) (t_pgid t) (t_sid t) (t_uid t) (t_gid t) (t_euid t) (t_egid t) (t_signal_pending t)
    (t_signal_mask t) (t_signal_actions t) (t_clear_child_tid t) (t_heap_start t) (t_heap_end t)
    (t_tls_base t) (t_cwd t) (t_cwd_len t) (t_umask t).
Definition with_blocked_futex (blocked_futex : Z) (t : Task) : Task :=
  mkTask (t_pid t) (t_state t) (t_priority t) (t_ctx t) (t_page_table t) (t_kernel_stack t)
    (t_blocked_on t) blocked_futex (t_address_space t) (t_exit_code t) (t_reply_port t) (t_ppid t)
    (t_tgid t) (t_pgid t) (t_sid t) (t_uid t) (t_gid t) (t_euid t) (t_egid t) (t_signal_pending t)
    (t_signal_mask t) (t_signal_actions t) (t_clear_child_tid t) (t_heap_start t) (t_heap_end t)
    (t_tls_base t) (t_cwd t) (t_cwd_len t) (t_umask t).
Definition with_address_space (address_space : option AddressSpace) (t : Task) : Task :=
  mkTask (t_pid t) (t_state t) (t_priority t) (t_ctx t) (t_page_table t) (t_kernel_stack t)
    (t_blocked_on t) (t_blocked_futex t) address_space (t_exit_code t) (t_reply_port t) (t_ppid t)
    (t_tgid t) (t_pgid t) (t_sid t) (t_uid t) (t_gid t) (t_euid t) (t_egid t) (t_signal_pending t)
    (t_signal_mask t) (t_signal_actions t) (t_clear_child_tid t) (t_heap_start t) (t_heap_end t)
    (t_tls_base t) (t_cwd t) (t_cwd_len t) (t_umask t).
Definition with_exit_code (exit_code : Z) (t : Task) : Task :=
  mkTask (t_pid t) (t_state t) (t_priority t) (t_ctx t) (t_page_table t) (t_kernel_stack t)
    (t_blocked_on t) (t_blocked_futex t) (t_address_space t) exit_code (t_reply_port t) (t_ppid t)
    (t_tgid t) (t_pgid t) (t_sid t) (t_uid t) (t_gid t) (t_euid t) (t_egid t) (t_signal_pending t)
    (t_signal_mask t) (t_signal_actions t) (t_clear_child_tid t) (t_heap_start t) (t_heap_end t)
    (t_tls_base t) (t_cwd t) (t_cwd_len t) (t_umask t).
Definition with_reply_port (reply_port : Z) (t : Task) : Task :=
  mkTask (t_pid t) (t_state t) (t_priority t) (t_ctx t) (t_page_table t) (t_kernel_stack t)
    (t_blocked_on t) (t_blocked_futex t) (t_address_space t) (t_exit_code t) reply_port (t_ppid t)
    (t_tgid t) (t_pgid t) (t_sid t) (t_uid t) (t_gid t) (t_euid t) (t_egid t) (t_signal_pending t)
    (t_signal_mask t) (t_signal_actions t) (t_clear_child_tid t) (t_heap_start t) (t_heap_end t)
    (t_tls_base t) (t_cwd t) (t_cwd_len t) (t_umask t).
Definition with_ppid (ppid : Z) (t : Task) : Task :=
  mkTask (t_pid t) (t_state t) (t_priority t) (t_ctx t) (t_page_table t) (t_kernel_stack t)
    (t_blocked_on t) (t_blocked_futex t) (t_address_space t) (t_exit_code t) (t_reply_port t) ppid
    (t_tgid t) (t_pgid t) (t_sid t) (t_uid t) (t_gid t) (t_euid t) (t_egid t) (t_signal_pending t)
    (t_signal_mask t) (t_signal_actions t) (t_clear_child_tid t) (t_heap_start t) (t_heap_end t)
    (t_tls_base t) (t_cwd t) (t_cwd_len t) (t_umask t).
Definition with_tgid (tgid : Z) (t : Task) : Task :=
  mkTask (t_pid t) (t_state t) (t_priority t) (t_ctx t) (t_page_table t) (t_kernel_stack t)
    (t_blocked_on t) (t_blocked_futex t) (t_address_space t) (t_exit_code t) (t_reply_port t)
    (t_ppid t) tgid (t_pgid t) (t_sid t) (t_uid t) (t_gid t) (t_euid t) (t_egid t)
    (t_signal_pending t) (t_signal_mask t) (t_signal_actions t) (t_clear_child_tid t)
    (t_heap_start t) (t_heap_end t) (t_tls_base t) (t_cwd t) (t_cwd_len t) (t_umask t).
Definition with_pgid (pgid : Z) (t : Task) : Task :=
  mkTask (t_pid t) (t_state t) (t_priority t) (t_ctx t) (t_page_table t) (t_kernel_stack t)
    (t_blocked_on t) (t_blocked_futex t) (t_address_space t) (t_exit_code t) (t_reply_port t)
    (t_ppid t) (t_tgid t) pgid (t_sid t) (t_uid t) (t_gid t) (t_euid t) (t_egid t)
    (t_signal_pending t) (t_signal_mask t) (t_signal_actions t) (t_clear_child_tid t)
    (t_heap_start t) (t_heap_end t) (t_tls_base t) (t_cwd t) (t_cwd_len t) (t_umask t).
Definition with_sid (sid : Z) (t : Task) : Task :=
  mkTask (t_pid t) (t_state t) (t_priority t) (t_ctx t) (t_page_table t) (t_kernel_stack t)
    (t_blocked_on t) (t_blocked_futex t) (t_address_space t) (t_exit_code t) (t_reply_port t)
    (t_ppid t) (t_tgid t) (t_pgid t) sid (t_uid t) (t_gid t) (t_euid t) (t_egid t)
    (t_signal_pending t) (t_signal_mask t) (t_signal_actions t) (t_clear_child_tid t)
    (t_heap_start t) (t_heap_end t) (t_tls_base t) (t_cwd t) (t_cwd_len t) (t_umask t).
Definition with_signal_pending (signal_pending : Z) (t : Task) : Task :=
  mkTask (t_pid t) (t_state t) (t_priority t) (t_ctx t) (t_page_table t) (t_kernel_stack t)
    (t_blocked_on t) (t_blocked_futex t) (t_address_space t) (t_exit_code t) (t_reply_port t)
    (t_ppid t) (t_tgid t) (t_pgid t) (t_sid t) (t_uid t) (t_gid t) (t_euid t) (t_egid t)
    signal_pending (t_signal_mask t) (t_signal_actions t) (t_clear_child_tid t) (t_heap_start t)
    (t_heap_end t) (t_tls_base t) (t_cwd t) (t_cwd_len t) (t_umask t).
Definition with_signal_mask (signal_mask : Z) (t : Task) : Task :=
  mkTask (t_pid t) (t_state t) (t_priority t) (t_ctx t) (t_page_table t) (t_kernel_stack t)
    (t_blocked_on t) (t_blocked_futex t) (t_address_space t) (t_exit_code t) (t_reply_port t)
    (t_ppid t) (t_tgid t) (t_pgid t) (t_sid t) (t_uid t) (t_gid t) (t_euid t) (t_egid t)
    (t_signal_pending t) signal_mask (t_signal_actions t) (t_clear_child_tid t) (t_heap_start t)
    (t_heap_end t) (t_tls_base t) (t_cwd t) (t_cwd_len t) (t_umask t).
Definition with_signal_actions (signal_actions : list SigAction) (t : Task) : Task :=
  mkTask (t_pid t) (t_state t) (t_priority t) (t_ctx t) (t_page_table t) (t_kernel_stack t)
    (t_blocked_on t) (t_blocked_futex t) (t_address_space t) (t_exit_code t) (t_reply_port t)
    (t_ppid t) (t_tgid t) (t_pgid t) (t_sid t) (t_uid t) (t_gid t) (t_euid t) (t_egid t)
    (t_signal_pending t) (t_signal_mask t) signal_actions (t_clear_child_tid t) (t_heap_start t)
    (t_heap_end t) (t_tls_base t) (t_cwd t) (t_cwd_len t) (t_umask t).
Definition with_clear_child_tid (clear_child_tid : Z) (t : Task) : Task :=
  mkTask (t_pid t) (t_state t) (t_priority t) (t_ctx t) (t_page_table t) (t_kernel_stack t)
    (t_blocked_on t) (t_blocked_futex t) (t_address_space t) (t_exit_code t) (t_reply_port t)
    (t_ppid t) (t_tgid t) (t_pgid t) (t_sid t) (t_uid t) (t_gid t) (t_euid t) (t_egid t)
    (t_signal_pending t) (t_signal_mask t) (t_signal_actions t) clear_child_tid (t_heap_start t)
    (t_heap_end t) (t_tls_base t) (t_cwd t) (t_cwd_len t) (t_umask t).
Definition with_heap_start (heap_start : Z) (t : Task) : Task :=
  mkTask (t_pid t) (t_state t) (t_priority t) (t_ctx t) (t_page_table t) (t_kernel_stack t)
    (t_blocked_on t) (t_blocked_futex t) (t_address_space t) (t_exit_code t) (t_reply_port t)
    (t_ppid t) (t_tgid t) (t_pgid t) (t_sid t) (t_uid t) (t_gid t) (t_euid t) (t_egid t)
    (t_signal_pending t) (t_signal_mask t) (t_signal_actions t) (t_clear_child_tid t) heap_start
    (t_heap_end t) (t_tls_base t) (t_cwd t) (t_cwd_len t) (t_umask t).
Definition with_heap_end (heap_end : Z) (t : Task) : Task :=
  mkTask (t_pid t) (t_state t) (t_priority t) (t_ctx t) (t_page_table t) (t_kernel_stack t)
    (t_blocked_on t) (t_blocked_futex t) (t_address_space t) (t_exit_code t) (t_reply_port t)
    (t_ppid t) (t_tgid t) (t_pgid t) (t_sid t) (t_uid t) (t_gid t) (t_euid t) (t_egid t)
    (t_signal_pending t) (t_signal_mask t) (t_signal_actions t) (t_clear_child_tid t)
    (t_heap_start t) heap_end (t_tls_base t) (t_cwd t) (t_cwd_len t) (t_umask t).
Definition with_tls_base (tls_base : Z) (t : Task) : Task :=
  mkTask (t_pid t) (t_state t) (t_priority t) (t_ctx t) (t_page_table t) (t_kernel_stack t)
    (t_blocked_on t) (t_blocked_futex t) (t_address_space t) (t_exit_code t) (t_reply_port t)
    (t_ppid t) (t_tgid t) (t_pgid t) (t_sid t) (t_uid t) (t_gid t) (t_euid t) (t_egid t)
    (t_signal_pending t) (t_signal_mask t) (t_signal_actions t) (t_clear_child_tid t)
    (t_heap_start t) (t_heap_end t) tls_base (t_cwd t) (t_cwd_len t) (t_umask t).
Definition with_cwd (cwd : list Z) (cwd_len : Z) (t : Task) : Task :=
  mkTask (t_pid t) (t_state t) (t_priority t) (t_ctx t) (t_page_table t) (t_kernel_stack t)
    (t_blocked_on t) (t_blocked_futex t) (t_address_space t) (t_exit_code t) (t_reply_port t)
    (t_ppid t) (t_tgid t) (t_pgid t) (t_sid t) (t_uid t) (t_gid t) (t_euid t) (t_egid t)
    (t_signal_pending t) (t_signal_mask t) (t_signal_actions t) (t_clear_child_tid t)
    (t_heap_start t) (t_heap_end t) (t_tls_base t) cwd cwd_len (t_umask t).
Definition with_umask (umask : Z) (t : Task) : Task :=
  mkTask (t_pid t) (t_state t) (t_priority t) (t_ctx t) (t_page_table t) (t_kernel_stack t)
    (t_blocked_on t) (t_blocked_futex t) (t_address_space t) (t_exit_code t) (t_reply_port t)
    (t_ppid t) (t_tgid t) (t_pgid t) (t_sid t) (t_uid t) (t_gid t) (t_euid t) (t_egid t)
    (t_signal_pending t) (t_signal_mask t) (t_signal_actions t) (t_clear_child_tid t)
    (t_heap_start t) (t_heap_end t) (t_tls_base t) (t_cwd t) (t_cwd_len t) umask.
(** The fields that all constructors of a task set alike. *)
Definition fresh_task (pid : Z) (ctx : CpuContext) (kernel_stack page_table : Z) : Task :=
  mkTask pid Ready 0 ctx page_table kernel_stack None 0 None 0 U32_MAX
    0 pid pid pid 0 0 0 0 0 0 (replicate 4 DEFAULT_SIGACTION) 0 0 0 0
    (<[0%nat := 47]> (replicate 128 0)) 1 18.

Definition new_kernel (pid entry stack_base stack_size page_table : Z) : Task :=
  fresh_task pid
    (if entry =? 0 then CpuContext_zeroed
     else CpuContext_new_task entry (wadd stack_base stack_size))
    stack_base page_table.

(** [new_kernel_inplace] writes the fields one by one; the context is set up
    for every [entry]. *)
Definition new_kernel_inplace (pid entry stack_base stack_size page_table : Z) : Task :=
  let stack_top := wadd stack_base stack_size in
  let ctx := mkCtx (<[11%nat := entry]> (replicate 12 0)) stack_top (replicate 32 0) 0 0 0 in
  mkTask pid Ready 0 ctx page_table stack_base None 0 None 0 U32_MAX
    0 pid pid pid 0 0 0 0 0 0 (replicate 4 DEFAULT_SIGACTION) 0 0 0 0
    (<[0%nat := 47]> (replicate 128 0)) 1 18.

Definition new_userspace (ret_to_user pid user_entry user_sp kernel_stack_base kernel_stack_size
    page_table : Z) : st kmem Task :=
  CpuContext_new_user_task ret_to_user user_entry user_sp
    (wadd kernel_stack_base kernel_stack_size) ≫= λ ctx,
  mret (fresh_task pid ctx kernel_stack_base page_table).
