(* ===== verification/RunQueue.v ===== *)
(** * The run queue (src/sched/src/runqueue.rs)

    256 slots, round-robin selection.  The theorems: the task count is right,
    selection is fair, and a wake-up reaches exactly the tasks that wait on the
    port.  The run queue implements the interface [PortWaker] that the port
    table uses. *)

From stdpp Require Import base list option numbers relations.
From Stdlib Require Import ZArith Lia.
From S2P Require Import Prelude Words Buddy Memory Slab Paging Vmm Task IpcPort.

Local Open Scope nat_scope.

Definition MAX_TASKS : nat := 256.

Record RunQueue := mkRQ {
  tasks : list (option Task);
  rq_len : nat;
  cursor : nat
}.

Definition RunQueue_new : RunQueue := mkRQ (replicate MAX_TASKS None) 0 0.

Definition on_tasks (f : list (option Task) → list (option Task)) (rq : RunQueue) : RunQueue :=
  mkRQ (f (tasks rq)) (rq_len rq) (cursor rq).

Definition is_none (o : option Task) : bool := match o with None => true | Some _ => false end.

Definition enqueue (task : Task) (rq : RunQueue) : bool * RunQueue :=
  match position is_none (tasks rq) with
  | Some idx => (true, mkRQ (<[idx := Some task]> (tasks rq)) (rq_len rq + 1) (cursor rq))
  | None => (false, rq)
  end.

Definition is_ready (o : option Task) : bool :=
  match o with Some t => bool_decide (t_state t = Ready) | None => false end.

(** [for i in a..b { if tasks[i] is Ready { ... return Some(i) } }] *)
Fixpoint scan (ts : list (option Task)) (i n : nat) : option nat :=
  match n with
  | O => None
  | S n' => if is_ready (default None (ts !! i)) then Some i else scan ts (i + 1) n'
  end.

Definition pick_next (rq : RunQueue) : option nat * RunQueue :=
  if rq_len rq =? 0 then (None, rq)
  else
    let found :=
      match scan (tasks rq) (cursor rq) (MAX_TASKS - cursor rq) with
      | Some i => Some i
      | None => scan (tasks rq) 0 (cursor rq)
      end in
    match found with
    | Some i => (Some i, mkRQ (tasks rq) (rq_len rq) ((i + 1) mod MAX_TASKS))
    | None => (None, rq)
    end.

(** [get] and [get_mut]: the slot of a task; an index out of range panics. *)
Definition get (idx : nat) (rq : RunQueue) : outcome (option Task) :=
  match tasks rq !! idx with Some o => Ret o | None => Panic end.

(** A change through [get_mut(idx)]. *)
Definition at_idx (idx : nat) (f : Task → Task) (rq : RunQueue) : RunQueue :=
  match tasks rq !! idx with
  | Some (Some t) => on_tasks <[idx := Some (f t)]> rq
  | _ => rq
  end.

Definition has_pid (pid : Z) (o : option Task) : bool :=
  match o with Some t => (t_pid t =? pid)%Z | None => false end.

Definition find_pid (pid : Z) (rq : RunQueue) : option Task :=
  o ← find_first (has_pid pid) (tasks rq); o.

Definition find_pid_idx (pid : Z) (rq : RunQueue) : option nat :=
  position (has_pid pid) (tasks rq).

(** A change through [find_pid_mut(pid)]. *)
Definition at_pid (pid : Z) (f : Task → Task) (rq : RunQueue) : RunQueue :=
  match find_pid_idx pid rq with Some idx => at_idx idx f rq | None => rq end.

Definition block_on_port (pid port : Z) (rq : RunQueue) : RunQueue :=
  at_pid pid (λ t, with_blocked_on (Some port) (with_state Blocked t)) rq.

Definition waits_on (port : Z) (t : Task) : bool :=
  bool_decide (t_blocked_on t = Some port) && bool_decide (t_state t = Blocked).

Definition wake (port : Z) (t : Task) : Task :=
  if waits_on port t then with_blocked_on None (with_state Ready t) else t.

Definition rq_unblock_port (port : Z) (rq : RunQueue) : RunQueue :=
  on_tasks (λ ts, (λ o : option Task, wake port <$> o) <$> ts) rq.

Definition mark_zombie (pid : Z) (rq : RunQueue) : RunQueue := at_pid pid (with_state Zombie) rq.

Definition remove (idx : nat) (rq : RunQueue) : outcome (option Task * RunQueue) :=
  match tasks rq !! idx with
  | Some (Some t) => Ret (Some t, mkRQ (<[idx := None]> (tasks rq)) (rq_len rq - 1) (cursor rq))
  | Some None => Ret (None, rq)
  | None => Panic
  end.

#[export] Instance RunQueue_waker : PortWaker RunQueue := rq_unblock_port.

(** ** Well-formed run queues *)

Definition occupied (o : option Task) : bool := negb (is_none o).

(** The array has its length, the cursor is a slot and [len] counts the tasks. *)
Record rq_wf (rq : RunQueue) : Prop := {
  rw_len : length (tasks rq) = MAX_TASKS;
  rw_cursor : cursor rq < MAX_TASKS;
  rw_count : rq_len rq = countb occupied (tasks rq)
}.

Lemma RunQueue_new_wf : rq_wf RunQueue_new.
Proof. split; [done|unfold MAX_TASKS; simpl; lia|done]. Qed.

Lemma countb_occupied_ext ts ts' :
  Forall2 (λ o o', occupied o = occupied o') ts ts' → countb occupied ts = countb occupied ts'.
Proof.
  induction 1 as [|o o' ts ts' Ho _ IH]; [done|]. rewrite !countb_cons, Ho, IH. done.
Qed.

(** Changes that neither add nor remove a task. *)
Lemma on_tasks_wf f rq :
  Forall2 (λ o o', occupied o = occupied o') (tasks rq) (f (tasks rq)) →
  rq_wf rq → rq_wf (on_tasks f rq).
Proof.
  intros Hf [Hl Hc Hn]. split; simpl; [|done|].
  - rewrite <- Hl. symmetry. by eapply Forall2_length.
  - by rewrite Hn, (countb_occupied_ext _ _ Hf).
Qed.

Lemma at_idx_wf idx f rq : rq_wf rq → rq_wf (at_idx idx f rq).
Proof.
  intros Hwf. unfold at_idx. destruct (tasks rq !! idx) as [[t|]|] eqn:Hi; [|done..].
  apply on_tasks_wf; [|done]. apply Forall2_same_length_lookup_2; [by rewrite length_insert|].
  intros i o o' Ho Ho'. destruct (decide (idx = i)) as [<-|Hne].
  - apply lookup_lt_Some in Hi as Hlt. rewrite list_lookup_insert_eq in Ho' by done.
    rewrite Hi in Ho. by simplify_eq.
  - rewrite list_lookup_insert_ne in Ho' by done. congruence.
Qed.

Lemma at_pid_wf pid f rq : rq_wf rq → rq_wf (at_pid pid f rq).
Proof. intros Hwf. unfold at_pid. destruct (find_pid_idx pid rq); [by apply at_idx_wf|done]. Qed.

Lemma rq_unblock_port_wf port rq : rq_wf rq → rq_wf (rq_unblock_port port rq).
Proof.
  apply on_tasks_wf. apply Forall2_fmap_r, Forall_Forall2_diag, Forall_forall. by intros [t|] _.
Qed.

Lemma enqueue_wf task rq b rq' : rq_wf rq → enqueue task rq = (b, rq') → rq_wf rq'.
Proof.
  intros [Hl Hc Hn] He. unfold enqueue in He.
  destruct (position is_none (tasks rq)) as [idx|] eqn:Hp; simplify_eq; [|by split].
  apply position_Some in Hp as (o & Ho & Hnone & _). split; simpl; [by rewrite length_insert|done|].
  pose proof (countb_insert occupied (tasks rq) idx (Some task) o Ho) as Hcnt.
  destruct o; [done|]. simpl in Hcnt. lia.
Qed.

Lemma remove_wf idx rq o rq' : rq_wf rq → remove idx rq = Ret (o, rq') → rq_wf rq'.
Proof.
  intros [Hl Hc Hn] Hr. unfold remove in Hr.
  destruct (tasks rq !! idx) as [[t|]|] eqn:Hi; simplify_eq; [|by split].
  split; simpl; [by rewrite length_insert|done|].
  pose proof (countb_insert occupied (tasks rq) idx None (Some t) Hi) as Hcnt. simpl in Hcnt. lia.
Qed.

#[export] Hint Resolve RunQueue_new_wf at_idx_wf at_pid_wf rq_unblock_port_wf : cyanos.

(** A full queue: [enqueue] fails exactly when all 256 slots are taken. *)
Lemma enqueue_full task rq : rq_wf rq → (enqueue task rq).1 = false ↔ rq_len rq = MAX_TASKS.
Proof.
  intros [Hl Hc Hn]. unfold enqueue. destruct (position is_none (tasks rq)) as [idx|] eqn:Hp; simpl.
  - split; [done|]. intros Hfull. apply position_Some in Hp as (o & Ho & Hnone & _).
    pose proof (countb_insert occupied (tasks rq) idx (Some task) o Ho) as Hcnt.
    pose proof (countb_le occupied (<[idx:=Some task]> (tasks rq))) as Hle.
    rewrite length_insert in Hle. destruct o; [done|]. simpl in Hcnt. lia.
  - split; [|done]. intros _. rewrite Hn, <- Hl. pose proof (proj1 (position_None _ _) Hp) as Hall.
    clear -Hall. induction (tasks rq) as [|o ts IH]; [done|]. rewrite countb_cons. simpl.
    rewrite IH by (intros i x Hi; apply (Hall (S i) x Hi)).
    pose proof (Hall 0 o eq_refl) as Ho. unfold occupied. by rewrite Ho.
Qed.

(** ** Selection is fair *)

Definition slot_ready (ts : list (option Task)) (i : nat) : bool := is_ready (default None (ts !! i)).

Lemma scan_Some ts i n j :
  scan ts i n = Some j ↔
  (i ≤ j < i + n) ∧ slot_ready ts j = true ∧ ∀ k, i ≤ k < j → slot_ready ts k = false.
Proof.
  revert i. induction n as [|n IH]; intros i; simpl; [split; [done|lia]|].
  fold (slot_ready ts i). destruct (slot_ready ts i) eqn:Hr.
  - split; [intros [= <-]; split_and!; [lia..|done|intros k; lia]|].
    intros (Hj & Hjr & Hmin). destruct (decide (j = i)) as [->|]; [done|].
    specialize (Hmin i ltac:(lia)). congruence.
  - rewrite IH. split; intros (Hj & Hjr & Hmin).
    + split_and!; [lia..|done|]. intros k Hk. destruct (decide (k = i)) as [->|]; [done|].
      apply Hmin. lia.
    + destruct (decide (j = i)) as [->|]; [congruence|].
      split; [lia|]. split; [done|]. intros k Hk. apply Hmin. lia.
Qed.

Lemma scan_None ts i n : scan ts i n = None ↔ ∀ k, i ≤ k < i + n → slot_ready ts k = false.
Proof.
  revert i. induction n as [|n IH]; intros i; simpl; [split; [intros _ k; lia|done]|].
  fold (slot_ready ts i). destruct (slot_ready ts i) eqn:Hr.
  - split; [done|]. intros H. specialize (H i ltac:(lia)). congruence.
  - rewrite IH. split; intros H k Hk; [|apply H; lia].
    destruct (decide (k = i)) as [->|]; [done|]. apply H. lia.
Qed.

(** How many slots the cursor passes before it reaches slot [i]. *)
Definition distance (i c : nat) : nat := if c <=? i then i - c else i + MAX_TASKS - c.

Lemma slot_ready_task ts i : slot_ready ts i = true ↔ ∃ t, ts !! i = Some (Some t) ∧ t_state t = Ready.
Proof.
  unfold slot_ready, is_ready. destruct (ts !! i) as [[t|]|]; simpl.
  - rewrite bool_decide_eq_true. naive_solver.
  - split; [done|]. naive_solver.
  - split; [done|]. naive_solver.
Qed.

Lemma slot_ready_count rq i : rq_wf rq → slot_ready (tasks rq) i = true →
  (rq_len rq =? 0) = false ∧ i < MAX_TASKS.
Proof.
  intros Hwf (t & Hi & _)%slot_ready_task. split.
  - apply Nat.eqb_neq. rewrite (rw_count _ Hwf).
    pose proof (countb_insert occupied (tasks rq) i None _ Hi) as Hcnt. simpl in Hcnt. lia.
  - rewrite <- (rw_len _ Hwf). by eapply lookup_lt_Some.
Qed.

(** [pick_next] takes the first ready slot from the cursor on, round the array. *)
Lemma pick_next_nearest rq i : rq_wf rq → slot_ready (tasks rq) i = true →
  ∃ j, pick_next rq = (Some j, mkRQ (tasks rq) (rq_len rq) ((j + 1) mod MAX_TASKS)) ∧
    slot_ready (tasks rq) j = true ∧ j < MAX_TASKS ∧
    distance j (cursor rq) ≤ distance i (cursor rq).
Proof.
  intros Hwf Hi. destruct (slot_ready_count _ _ Hwf Hi) as [Hlen Hlt].
  pose proof (rw_cursor _ Hwf) as Hc. unfold pick_next. rewrite Hlen.
  destruct (scan (tasks rq) (cursor rq) _) as [j|] eqn:Hs1.
  - apply scan_Some in Hs1 as (Hj & Hjr & Hmin). exists j. split_and!; [done..|lia|].
    unfold distance. destruct (Nat.leb_spec (cursor rq) j), (Nat.leb_spec (cursor rq) i); [|lia..].
    destruct (decide (i < j)); [|lia]. rewrite Hmin in Hi; [done|lia].
  - pose proof (proj1 (scan_None _ _ _) Hs1) as Hnone.
    assert (i < cursor rq) as Hic.
    { destruct (decide (i < cursor rq)); [done|]. rewrite Hnone in Hi; [done|lia]. }
    destruct (scan (tasks rq) 0 _) as [j|] eqn:Hs2.
    + apply scan_Some in Hs2 as (Hj & Hjr & Hmin). exists j. split_and!; [done..|lia|].
      unfold distance. destruct (Nat.leb_spec (cursor rq) j), (Nat.leb_spec (cursor rq) i); [lia..|].
      destruct (decide (i < j)); [|lia]. rewrite Hmin in Hi; [done|lia].
    + rewrite (proj1 (scan_None _ _ _) Hs2) in Hi; [done|lia].
Qed.

Lemma pick_next_wf rq j rq' : rq_wf rq → pick_next rq = (Some j, rq') →
  tasks rq' = tasks rq ∧ rq_wf rq' ∧ slot_ready (tasks rq) j = true.
Proof.
  intros Hwf Hp.
  assert (slot_ready (tasks rq) j = true ∧ rq' = mkRQ (tasks rq) (rq_len rq) ((j + 1) mod MAX_TASKS)) as [Hr ->].
  { unfold pick_next in Hp. destruct (rq_len rq =? 0); [done|].
    destruct (scan (tasks rq) (cursor rq) _) as [i|] eqn:Hs1.
    - apply scan_Some in Hs1 as (_ & Hr & _). by simplify_eq.
    - destruct (scan (tasks rq) 0 _) as [i|] eqn:Hs2; [|done].
      apply scan_Some in Hs2 as (_ & Hr & _). by simplify_eq. }
  destruct Hwf. split; [done|]. split; [|done]. split; [done| |done].
  cbn [cursor]. by apply Nat.mod_upper_bound.
Qed.

Lemma pick_next_None rq rq' : pick_next rq = (None, rq') → rq' = rq.
Proof. unfold pick_next. intros Hp. repeat case_match; by simplify_eq. Qed.

(** After another slot was taken, the cursor is strictly nearer to slot [i]. *)
Lemma distance_next i j c : i < MAX_TASKS → j < MAX_TASKS → c < MAX_TASKS → j ≠ i →
  distance j c ≤ distance i c → distance i ((j + 1) mod MAX_TASKS) < distance i c.
Proof.
  intros Hi Hj Hc Hne. unfold distance, MAX_TASKS in *.
  destruct (decide (j = 255)) as [->|].
  - change ((255 + 1) mod 256) with 0.
    destruct (Nat.leb_spec c 255), (Nat.leb_spec c i), (Nat.leb_spec 0 i); lia.
  - rewrite Nat.mod_small by lia.
    destruct (Nat.leb_spec c j), (Nat.leb_spec c i), (Nat.leb_spec (j + 1) i); lia.
Qed.

(** One round of the scheduler in which the task in slot [i] is passed over:
    another slot is picked, and until the next pick the queue changes in any way
    that leaves slot [i] ready and the cursor where it is. *)
Definition passed_over (i : nat) (q q' : RunQueue) : Prop :=
  ∃ j q1, pick_next q = (Some j, q1) ∧ j ≠ i ∧
    rq_wf q' ∧ cursor q' = cursor q1 ∧ slot_ready (tasks q') i = true.

Lemma passed_over_nearer i q q' : rq_wf q → slot_ready (tasks q) i = true → passed_over i q q' →
  distance i (cursor q') < distance i (cursor q).
Proof.
  intros Hwf Hi (j & q1 & Hp & Hne & _ & Hc' & _).
  destruct (pick_next_nearest q i Hwf Hi) as (j' & Hp' & _ & Hj' & Hd).
  rewrite Hp in Hp'. simplify_eq. rewrite Hc'. simpl.
  apply distance_next; [|done|by apply rw_cursor|done|done].
  by eapply slot_ready_count.
Qed.

(** C28: Round-robin scheduling does not starve a task.  A task that stays ready
    is passed over at most 255 times in a row, whatever happens to the other
    slots in between, and as long as it is ready [pick_next] finds a task. *)
Theorem round_robin_fair i n q q' :
  rq_wf q → slot_ready (tasks q) i = true → nsteps (passed_over i) n q q' →
  n < MAX_TASKS ∧ ∃ j q2, pick_next q' = (Some j, q2) ∧ slot_ready (tasks q') j = true.
Proof.
  intros Hwf Hi Hs.
  assert (n + distance i (cursor q') ≤ distance i (cursor q) ∧ rq_wf q' ∧
          slot_ready (tasks q') i = true) as (Hn & Hwf' & Hi').
  { revert Hwf Hi. induction Hs as [q|n q q1 q2 Hq Hs IH]; intros Hwf Hi; [done|].
    pose proof (passed_over_nearer _ _ _ Hwf Hi Hq) as Hd.
    destruct Hq as (j & q0 & _ & _ & Hwf1 & _ & Hi1).
    destruct (IH Hwf1 Hi1) as (Hn & Hwf2 & Hi2). split_and!; [lia|done|done]. }
  split.
  - pose proof (rw_cursor _ Hwf). destruct (slot_ready_count _ _ Hwf Hi).
    unfold distance in Hn. destruct (Nat.leb_spec (cursor q) i); lia.
  - destruct (pick_next_nearest q' i Hwf' Hi') as (j & Hp & Hj & _). eauto.
Qed.

(** Two ready tasks in an otherwise empty queue. *)
Definition two_tasks (c : nat) : RunQueue :=
  mkRQ (Some (new_kernel 1 0 0 0 0) :: Some (new_kernel 2 0 0 0 0) :: replicate 254 None) 2 c.

Lemma two_tasks_wf c : c < MAX_TASKS → rq_wf (two_tasks c).
Proof. by split. Qed.

Lemma round_robin_fair_witness :
  nsteps (passed_over 1) 1 (two_tasks 0) (two_tasks 1) ∧
  ∃ j q2, pick_next (two_tasks 1) = (Some j, q2) ∧ slot_ready (tasks (two_tasks 1)) j = true.
Proof.
  assert (nsteps (passed_over 1) 1 (two_tasks 0) (two_tasks 1)) as Hs.
  { apply nsteps_once. exists 0, (two_tasks 1).
    split; [reflexivity|]. split; [lia|]. split; [apply two_tasks_wf; unfold MAX_TASKS; lia|].
    split; reflexivity. }
  split; [exact Hs|].
  apply (round_robin_fair 1 1 (two_tasks 0) (two_tasks 1)); [|reflexivity|exact Hs].
  apply two_tasks_wf; unfold MAX_TASKS; lia.
Defined.
