(* ===== verification/Sched.v ===== *)
(** * The scheduler (src/sched/src/lib.rs)

    The global state of the scheduler and its operations.  One CPU: [sc_cur] is
    [CURRENT_PID], [sc_ctx] the slot whose context [CURRENT_CTX] points to.  The
    run loop is cut where it switches to a task and where it gets the CPU back:
    [dispatch] and [switch_back].  A task that calls [yield_now] gives the CPU
    back; what follows in its code is a definition of its own. *)

From stdpp Require Import base list option numbers.
From Stdlib Require Import ZArith Lia.
From S2P Require Import Prelude Words Buddy Memory Slab Paging Vmm IpcPort Task RunQueue.

Local Open Scope Z_scope.

Definition EXIT_LOG_LEN : nat := 256.

Record Sched := mkSched {
  sc_rq : RunQueue;
  sc_next_pid : Z;
  sc_ticks : Z;
  sc_preempt : bool;
  sc_exit_log : list (option (Z * Z));
  sc_exit_idx : nat;
  sc_cur : Z;
  sc_ctx : option nat;
  sc_kmem : kmem
}.

Definition Sched_init (k : kmem) : Sched :=
  mkSched RunQueue_new 1 0 false (replicate EXIT_LOG_LEN None) 0 0 None k.

Definition on_rq (f : RunQueue → RunQueue) (s : Sched) : Sched :=
  mkSched (f (sc_rq s)) (sc_next_pid s) (sc_ticks s) (sc_preempt s) (sc_exit_log s)
    (sc_exit_idx s) (sc_cur s) (sc_ctx s) (sc_kmem s).
Definition set_current (pid : Z) (ctx : option nat) (s : Sched) : Sched :=
  mkSched (sc_rq s) (sc_next_pid s) (sc_ticks s) (sc_preempt s) (sc_exit_log s)
    (sc_exit_idx s) pid ctx (sc_kmem s).
Definition set_kmem (k : kmem) (s : Sched) : Sched :=
  mkSched (sc_rq s) (sc_next_pid s) (sc_ticks s) (sc_preempt s) (sc_exit_log s)
    (sc_exit_idx s) (sc_cur s) (sc_ctx s) k.

(** The memory subsystem as part of the state. *)
Definition with_kmem {A} (c : st kmem A) : st Sched A := λ s,
  match c (sc_kmem s) with Ret (a, k) => Ret (a, set_kmem k s) | Panic => Panic end.

(** ** The exit-code log *)

Definition log_exit (pid code : Z) (s : Sched) : Sched :=
  mkSched (sc_rq s) (sc_next_pid s) (sc_ticks s) (sc_preempt s)
    (<[sc_exit_idx s := Some (pid, code)]> (sc_exit_log s))
    ((sc_exit_idx s + 1) mod EXIT_LOG_LEN) (sc_cur s) (sc_ctx s) (sc_kmem s).

Definition log_has (pid : Z) (e : option (Z * Z)) : bool :=
  match e with Some (p, _) => p =? pid | None => false end.

Definition get_exit_code (pid : Z) (s : Sched) : option Z :=
  e ← find_first (log_has pid) (sc_exit_log s); snd <$> e.

(** ** Identity and state of tasks *)

Definition alloc_pid (s : Sched) : Z * Sched :=
  (sc_next_pid s,
   mkSched (sc_rq s) (u32 (sc_next_pid s + 1)) (sc_ticks s) (sc_preempt s) (sc_exit_log s)
     (sc_exit_idx s) (sc_cur s) (sc_ctx s) (sc_kmem s)).

Definition current_pid (s : Sched) : Z := sc_cur s.
Definition current_task (s : Sched) : option Task := find_pid (current_pid s) (sc_rq s).

(** [RUN_QUEUE.lock().find_pid(pid).map(f).unwrap_or(d)] *)
Definition current_field {A} (f : Task → A) (d : A) (s : Sched) : A :=
  default d (f <$> current_task s).

Definition current_ppid : Sched → Z := current_field t_ppid 0.
Definition current_pgid : Sched → Z := current_field t_pgid 0.
Definition current_sid : Sched → Z := current_field t_sid 0.
Definition ticks (s : Sched) : Z := sc_ticks s.
Definition pending_signals : Sched → Z := current_field t_signal_pending 0.
Definition current_reply_port : Sched → Z := current_field t_reply_port U32_MAX.
Definition get_fs_base : Sched → Z := current_field t_tls_base 0.
Definition task_heap_end : Sched → Z := current_field t_heap_end 0.

Definition update_pid (pid : Z) (f : Task → Task) (s : Sched) : Sched := on_rq (at_pid pid f) s.
Definition update_current (f : Task → Task) (s : Sched) : Sched := update_pid (sc_cur s) f s.

Definition signal_bit (signo : Z) : Z := Z.shiftl 1 (signo - 1).

Definition wake_blocked (t : Task) : Task :=
  if bool_decide (t_state t = Blocked) then with_state Ready t else t.

Definition deliver_signal (pid signo : Z) (s : Sched) : Z * Sched :=
  match find_pid pid (sc_rq s) with
  | Some t =>
      if (0 <? signo) && (signo <=? 64) then
        (0, update_pid pid (λ t, wake_blocked
               (with_signal_pending (Z.lor (t_signal_pending t) (signal_bit signo)) t)) s)
      else (-22, s)
  | None => (-3, s)
  end.

Definition clear_pending_signal (signo : Z) (s : Sched) : Sched :=
  if (0 <? signo) && (signo <=? 64) then
    update_current (λ t,
      with_signal_pending (Z.land (t_signal_pending t) (wnot (signal_bit signo))) t) s
  else s.

Definition replace_signal_mask (new_mask : Z) (s : Sched) : Z * Sched :=
  match current_task s with
  | Some t => (t_signal_mask t, update_current (with_signal_mask new_mask) s)
  | None => (0, s)
  end.

Definition set_current_reply_port (port : Z) (s : Sched) : Sched :=
  update_current (with_reply_port port) s.

(** The bytes copied to the caller's buffer and the return value. *)
Definition current_cwd (max_len : Z) (s : Sched) : list Z * Z :=
  match current_task s with
  | Some t => let len := Z.min (t_cwd_len t) max_len in (take (Z.to_nat len) (t_cwd t), len)
  | None => ([], -1)
  end.

Definition set_cwd (path : list Z) (s : Sched) : bool * Sched :=
  match current_task s with
  | Some t =>
      let len := Nat.min (length path) 127 in
      (true, update_current (λ t, with_cwd (take len path ++ drop len (t_cwd t)) (Z.of_nat len) t) s)
  | None => (false, s)
  end.

Definition set_pgid (pid pgid : Z) (s : Sched) : bool * Sched :=
  match find_pid pid (sc_rq s) with
  | Some _ => (true, update_pid pid (with_pgid pgid) s)
  | None => (false, s)
  end.

Definition setsid (s : Sched) : Z * Sched :=
  match current_task s with
  | Some _ => (sc_cur s, update_current (λ t, with_pgid (sc_cur s) (with_sid (sc_cur s) t)) s)
  | None => (0, s)
  end.

Definition umask (mask : Z) (s : Sched) : Z * Sched :=
  match current_task s with
  | Some t =>
      (t_umask t,
       if mask =? U32_MAX then s else update_current (with_umask (Z.land mask 511)) s)
  | None => (0, s)
  end.

Definition set_clear_child_tid (tidptr : Z) (s : Sched) : Sched :=
  update_current (with_clear_child_tid tidptr) s.

Definition set_fs_base (addr : Z) (s : Sched) : Sched :=
  update_current (λ t, with_ctx (with_tpidr addr (t_ctx t)) (with_tls_base addr t)) s.

Definition timer_tick_irq (s : Sched) : Sched :=
  mkSched (sc_rq s) (sc_next_pid s) (u64 (sc_ticks s + 1)) true (sc_exit_log s)
    (sc_exit_idx s) (sc_cur s) (sc_ctx s) (sc_kmem s).

(** Whether the caller must yield. *)
Definition preempt_check (s : Sched) : bool * Sched :=
  (sc_preempt s,
   mkSched (sc_rq s) (sc_next_pid s) (sc_ticks s) false (sc_exit_log s)
     (sc_exit_idx s) (sc_cur s) (sc_ctx s) (sc_kmem s)).

Definition sched_unblock_port (port : Z) (s : Sched) : Sched := on_rq (rq_unblock_port port) s.

#[export] Instance Sched_waker : PortWaker Sched := sched_unblock_port.

(** The part of [block_on_port] before [yield_now]. *)
Definition sched_block_on_port (port : Z) (s : Sched) : Sched :=
  on_rq (block_on_port (sc_cur s) port) s.

(** The part of [exit] before [yield_now]. *)
Definition exit (code : Z) (s : Sched) : Sched :=
  update_current (λ t, with_exit_code code (with_state Zombie t)) s.

(** ** Address spaces of tasks *)

(** [with_current_address_space(f)] *)
Definition with_current_address_space {R} (f : kmem → AddressSpace → R) (s : Sched) : option R :=
  t ← current_task s;
  a ← t_address_space t;
  Some (f (sc_kmem s) a).

(** [with_current_address_space_mut(f)] *)
Definition with_current_address_space_mut {R} (f : st (kmem * AddressSpace) R) : st Sched (option R) :=
  λ s,
  match t ← current_task s; t_address_space t with
  | Some a =>
      match f (sc_kmem s, a) with
      | Ret (r, (k, a')) =>
          Ret (Some r, set_kmem k (update_current (with_address_space (Some a')) s))
      | Panic => Panic
      end
  | None => Ret (None, s)
  end.

Definition handle_page_fault (addr : Z) : st Sched bool :=
  pid ← st_get current_pid;
  if pid =? 0 then mret false
  else
    r ← with_current_address_space_mut (handle_user_page_fault addr);
    mret (default false r).

(** Dropping a [Box<Task>] drops its address space. *)
Definition drop_task (t : Task) : st kmem unit :=
  match t_address_space t with Some a => drop_as a | None => mret tt end.

(** [replace_address_space] up to the return to user space.  The assignment
    drops the old address space. *)
Definition replace_address_space (new_as : AddressSpace) (pt_root heap_start : Z) : st Sched unit :=
  o ← st_get current_task;
  match o with
  | Some t =>
      with_kmem (drop_task t) ≫= λ _,
      st_modify (update_current (λ t,
        with_heap_end heap_start (with_heap_start heap_start
          (with_page_table pt_root (with_address_space (Some new_as) t)))))
  | None => mret tt
  end.

(** ** Creation of tasks *)

(** Enqueue a task; its stack, and the task itself, are released if the queue is full. *)
Definition enqueue_or_free (task : Task) (stack : Z) (order : nat) : st Sched (option Z) :=
  ok ← st_lift (λ s, let '(ok, rq) := enqueue task (sc_rq s) in (ok, on_rq (λ _, rq) s));
  if (ok : bool) then mret (Some (t_pid task))
  else
    with_kmem (drop_task task) ≫= λ _,
    with_kmem (k_free stack order) ≫= λ _,
    mret None.

Definition spawn (entry : Z) : st Sched (option Z) :=
  pid ← st_lift alloc_pid;
  o ← with_kmem (k_alloc 4);
  match o with
  | None => mret None
  | Some stack_base =>
      enqueue_or_free (new_kernel pid entry stack_base (PAGE_SIZE * 16) 0) stack_base 4
  end.

Definition spawn_user_with_address_space (ret_to_user entry_point sp : Z) (as_ : AddressSpace)
    : st Sched (option Z) :=
  pid ← st_lift alloc_pid;
  o ← with_kmem (k_alloc 4);
  match o with
  | None => with_kmem (drop_as as_) ≫= λ _, mret None
  | Some stack_phys =>
      stack_virt ← st_get (λ s, phys_to_virt stack_phys (sc_kmem s));
      task ← with_kmem (new_userspace ret_to_user pid entry_point sp stack_virt (PAGE_SIZE * 16)
                          (page_table_root as_));
      enqueue_or_free (with_address_space (Some as_) (with_kernel_stack stack_phys task)) stack_phys 4
  end.

(** ** The run loop *)

(** From [pick_next] to [cpu_switch_to]: the slot that was dispatched. *)
Definition dispatch (s : Sched) : option nat * Sched :=
  let '(o, rq) := pick_next (sc_rq s) in
  let s := on_rq (λ _, rq) s in
  match o with
  | Some idx =>
      match tasks rq !! idx with
      | Some (Some t) =>
          (Some idx, on_rq (at_idx idx (with_state Running)) (set_current (t_pid t) (Some idx) s))
      | _ => (None, s)
      end
  | None => (None, s)
  end.

Definition stop_running (t : Task) : Task :=
  if bool_decide (t_state t = Running) then with_state Ready t else t.

(** [remove(idx)], dropping the task. *)
Definition remove_task (idx : nat) : st Sched (option Task) := λ s,
  match remove idx (sc_rq s) with
  | Ret (o, rq) =>
      match o with
      | Some t => (with_kmem (drop_task t) ≫= λ _, mret (Some t)) (on_rq (λ _, rq) s)
      | None => Ret (None, on_rq (λ _, rq) s)
      end
  | Panic => Panic
  end.

Definition zombie_info (idx : nat) (s : Sched) : option (Z * Z * Z) :=
  match tasks (sc_rq s) !! idx with
  | Some (Some t) =>
      if bool_decide (t_state t = Zombie) then Some (t_kernel_stack t, t_pid t, t_exit_code t)
      else None
  | _ => None
  end.

(** The exit hook works on the scheduler and on a state [P] of another
    component. *)
Section run_loop.
Context {P : Type} (hook : option (Z → P * Sched → P * Sched)).

Definition on_sched {A} (c : st Sched A) : st (P * Sched) A := λ '(p, s),
  match c s with Ret (a, s') => Ret (a, (p, s')) | Panic => Panic end.

(** From the return of [cpu_switch_to] to the end of the loop body. *)
Definition switch_back (idx : nat) : st (P * Sched) unit :=
  on_sched (st_modify (λ s,
    on_rq (at_idx idx stop_running) (set_current 0 None s))) ≫= λ _,
  info ← on_sched (st_get (zombie_info idx));
  match info with
  | Some (stack_base, zombie_pid, exit_code) =>
      st_modify (default (λ x, x) ((λ h, h zombie_pid) <$> hook)) ≫= λ _,
      on_sched (remove_task idx) ≫= λ _,
      on_sched (with_kmem (k_free stack_base 4)) ≫= λ _,
      on_sched (st_modify (log_exit zombie_pid exit_code))
  | None => mret tt
  end.
End run_loop.

(** ** Waiting for a task *)

(** One turn of the loop of [wait_pid]: [Some r] returns [r], [None] yields. *)
Definition wait_pid_once (pid : Z) : st Sched (option (option Z)) :=
  o ← st_get (λ s, find_pid_idx pid (sc_rq s));
  match o with
  | Some idx =>
      t ← st_get (λ s, find_pid pid (sc_rq s));
      match t with
      | Some t =>
          if bool_decide (t_state t = Zombie) then
            remove_task idx ≫= λ _, mret (Some (Some (t_exit_code t)))
          else mret None
      | None => mret None
      end
  | None => code ← st_get (get_exit_code pid); mret (Some code)
  end.
