(* ===== verification/SchedInv.v ===== *)
(** * Invariants of the scheduler

    Process identifiers are unique, at most one task runs, no zombie stays in
    the queue, and the log returns the exit code of the last 256 tasks. *)

From stdpp Require Import base list option numbers sets.
From Stdlib Require Import ZArith Lia.
From S2P Require Import Prelude Words Buddy Memory Slab Paging Vmm IpcPort Task RunQueue Sched.

Local Open Scope Z_scope.

(** ** The exit-code log *)

Section exit_log.
Local Open Scope nat_scope.

(** The slot of the [k]-th last exit when the next one goes to [idx]. *)
Definition log_slot (idx k : nat) : nat := if k <? idx then idx - 1 - k else idx + 255 - k.

(** The log holds the exits [h], the last one first. *)
Record log_holds (h : list (Z * Z)) (s : Sched) : Prop := {
  lh_len : length (sc_exit_log s) = EXIT_LOG_LEN;
  lh_idx : sc_exit_idx s < EXIT_LOG_LEN;
  lh_slot : ∀ k, k < EXIT_LOG_LEN → sc_exit_log s !! log_slot (sc_exit_idx s) k = Some (h !! k)
}.

Lemma log_slot_inj idx k k' : idx < EXIT_LOG_LEN → k < EXIT_LOG_LEN → k' < EXIT_LOG_LEN →
  log_slot idx k = log_slot idx k' → k = k'.
Proof.
  unfold log_slot, EXIT_LOG_LEN. destruct (Nat.ltb_spec k idx), (Nat.ltb_spec k' idx); lia.
Qed.

Lemma log_slot_onto idx j : idx < EXIT_LOG_LEN → j < EXIT_LOG_LEN →
  ∃ k, k < EXIT_LOG_LEN ∧ log_slot idx k = j.
Proof.
  unfold EXIT_LOG_LEN. intros Hi Hj. unfold log_slot. destruct (decide (j < idx)).
  - exists (idx - 1 - j). destruct (Nat.ltb_spec (idx - 1 - j) idx); lia.
  - exists (idx + 255 - j). destruct (Nat.ltb_spec (idx + 255 - j) idx); lia.
Qed.

Lemma log_slot_next idx k : idx < EXIT_LOG_LEN → S k < EXIT_LOG_LEN →
  log_slot ((idx + 1) mod EXIT_LOG_LEN) (S k) = log_slot idx k ∧ log_slot idx k ≠ idx.
Proof.
  unfold EXIT_LOG_LEN, log_slot. intros Hi Hk. destruct (decide (idx = 255)) as [->|].
  - change ((255 + 1) mod 256) with 0. destruct (Nat.ltb_spec (S k) 0), (Nat.ltb_spec k 255); lia.
  - rewrite Nat.mod_small by lia.
    destruct (Nat.ltb_spec (S k) (idx + 1)), (Nat.ltb_spec k idx); lia.
Qed.

Lemma log_slot_last idx : idx < EXIT_LOG_LEN → log_slot ((idx + 1) mod EXIT_LOG_LEN) 0 = idx.
Proof.
  unfold EXIT_LOG_LEN, log_slot. intros Hi. destruct (decide (idx = 255)) as [->|]; [done|].
  rewrite Nat.mod_small by lia. destruct (Nat.ltb_spec 0 (idx + 1)); lia.
Qed.

Lemma log_holds_init k : log_holds [] (Sched_init k).
Proof.
  split; [done|unfold EXIT_LOG_LEN; simpl; lia|]. intros n Hn. rewrite lookup_nil.
  cbn [sc_exit_log Sched_init sc_exit_idx]. apply lookup_replicate. split; [done|].
  unfold log_slot, EXIT_LOG_LEN in *. destruct (Nat.ltb_spec n 0); lia.
Qed.

Lemma log_exit_holds h s pid code : log_holds h s → log_holds ((pid, code) :: h) (log_exit pid code s).
Proof.
  intros [Hl Hi Hs]. split; cbn [sc_exit_log log_exit sc_exit_idx].
  - by rewrite length_insert.
  - by apply Nat.mod_upper_bound.
  - intros [|k] Hk.
    + rewrite log_slot_last by done. apply list_lookup_insert_eq. lia.
    + destruct (log_slot_next (sc_exit_idx s) k) as [-> Hne]; [done..|].
      rewrite list_lookup_insert_ne by done. apply Hs. lia.
Qed.

Lemma get_exit_code_Some h s k pid code : log_holds h s → NoDup h.*1 → k < EXIT_LOG_LEN →
  h !! k = Some (pid, code) → get_exit_code pid s = Some code.
Proof.
  intros [Hl Hi Hs] Hnd Hk Hh. unfold get_exit_code, find_first.
  destruct (position_is_Some (log_has pid) _ _ _ (Hs k Hk)) as (j & Hj & _).
  { rewrite Hh. apply Z.eqb_refl. }
  rewrite Hj. simpl. apply position_Some in Hj as (e & He & Hpe & _). rewrite He. simpl.
  destruct (log_slot_onto (sc_exit_idx s) j Hi) as (k' & Hk' & <-).
  { rewrite <- Hl. by eapply lookup_lt_Some. }
  rewrite (Hs k' Hk') in He. injection He as <-.
  destruct (h !! k') as [[p' c']|] eqn:Hh'; [|done]. simpl in Hpe. apply Z.eqb_eq in Hpe as ->.
  assert (k' = k) as ->.
  { eapply (NoDup_lookup h.*1); [done|by rewrite list_lookup_fmap, Hh'|by rewrite list_lookup_fmap, Hh]. }
  simpl. congruence.
Qed.

Lemma get_exit_code_None h s pid : log_holds h s →
  (∀ k e, k < EXIT_LOG_LEN → h !! k = Some e → fst e ≠ pid) → get_exit_code pid s = None.
Proof.
  intros [Hl Hi Hs] Hno. unfold get_exit_code, find_first.
  destruct (position _ _) as [j|] eqn:Hj; [exfalso|done].
  apply position_Some in Hj as (e & He & Hpe & _).
  destruct (log_slot_onto (sc_exit_idx s) j Hi) as (k & Hk & <-).
  { rewrite <- Hl. by eapply lookup_lt_Some. }
  rewrite (Hs k Hk) in He. injection He as <-. destruct (h !! k) as [[p' c']|] eqn:Hh; [|done].
  apply (Hno k _ Hk Hh). simpl in *. lia.
Qed.

Lemma log_exits_holds (es : list (Z * Z)) h s :
  log_holds h s → log_holds (reverse es ++ h) (foldl (λ s '(pid, code), log_exit pid code s) s es).
Proof.
  revert h s. induction es as [|[pid code] es IH]; intros h s Hs; simpl; [done|].
  rewrite reverse_cons, <- app_assoc. apply IH. by apply log_exit_holds.
Qed.
End exit_log.

(** The exit log keeps the codes of the last 256 tasks.  After any number of
    exits of different tasks, the code of a task is found if at most 255 tasks
    exited after it, and is then the code it exited with; the code of a task
    with 256 or more later exits is gone. *)
Theorem exit_log_last_256 k before after pid code :
  NoDup (before ++ (pid, code) :: after).*1 →
  get_exit_code pid
    (foldl (λ s '(pid, code), log_exit pid code s) (Sched_init k) (before ++ (pid, code) :: after))
  = if (length after <? EXIT_LOG_LEN)%nat then Some code else None.
Proof.
  intros Hnd. pose proof (log_exits_holds (before ++ (pid, code) :: after) [] _ (log_holds_init k)) as Hh.
  rewrite app_nil_r in Hh. set (h := reverse (before ++ (pid, code) :: after)) in *.
  assert (NoDup h.*1) as Hndh by (unfold h; by rewrite reverse_Permutation).
  assert (h !! length after = Some (pid, code)) as Hlook.
  { unfold h. rewrite reverse_app, reverse_cons, <- app_assoc.
    by apply list_lookup_middle; rewrite length_reverse. }
  destruct (Nat.ltb_spec (length after) EXIT_LOG_LEN).
  - by eapply get_exit_code_Some.
  - eapply get_exit_code_None; [done|]. intros n e Hn He Hpid. destruct e as [p c]. simpl in Hpid. subst p.
    assert (n = length after); [|lia].
    eapply (NoDup_lookup h.*1); [done|by rewrite list_lookup_fmap, He|by rewrite list_lookup_fmap, Hlook].
Qed.

Lemma exit_log_last_256_witness :
  get_exit_code 5 (foldl (λ s '(pid, code), log_exit pid code s)
    (Sched_init (mkKmem Buddy_init 0 (λ _, 0) 0)) [(4, 1); (5, -7); (6, 0)]) = Some (-7).
Proof.
  rewrite (exit_log_last_256 _ [(4, 1)] [(6, 0)] 5 (-7)); [reflexivity|].
  simpl. repeat constructor; set_solver.
Defined.

(** ** Well-formed scheduler states *)

Definition task_at (s : Sched) (i : nat) (t : Task) : Prop := tasks (sc_rq s) !! i = Some (Some t).

Definition idle_state (t : Task) : Prop := t_state t = Ready ∨ t_state t = Blocked.

(** The exits logged so far are of tasks that are gone. *)
Definition log_ok (s : Sched) : Prop := ∃ h, log_holds h s ∧ NoDup h.*1 ∧
  (∀ p, p ∈ h.*1 → p < sc_next_pid s) ∧ (∀ i t, task_at s i t → t_pid t ∉ h.*1).

(** All slots but [ex] are ready or blocked. *)
Record sched_ok (ex : option nat) (s : Sched) : Prop := {
  so_rq : rq_wf (sc_rq s);
  so_next : 1 ≤ sc_next_pid s < 2^32;
  so_unique : ∀ i j t t', task_at s i t → task_at s j t' → t_pid t = t_pid t' → i = j;
  so_range : ∀ i t, task_at s i t → 1 ≤ t_pid t < sc_next_pid s;
  so_log : log_ok s;
  so_state : ∀ i t, task_at s i t → ex = Some i ∨ idle_state t
}.

Definition cur_ok (s : Sched) : Prop :=
  match sc_ctx s with
  | None => sc_cur s = 0
  | Some i => ∃ t, task_at s i t ∧ t_pid t = sc_cur s
  end.

Definition sched_wf (s : Sched) : Prop := sched_ok (sc_ctx s) s ∧ cur_ok s.

Lemma Sched_init_wf k : sched_wf (Sched_init k).
Proof.
  assert (∀ i t, ¬ task_at (Sched_init k) i t) as Hno.
  { intros i t H. apply lookup_replicate_Some in H. done. }
  split; [|done]. split; [apply RunQueue_new_wf|simpl; lia| | | |]; try (intros; exfalso; by eapply Hno).
  exists []. split_and!; [apply log_holds_init|constructor|set_solver|].
  intros i t H. exfalso. by eapply Hno.
Qed.

(** Steps that change tasks in place, and what else the tasks do not see: every
    task keeps its identifier, and a task other than [ex] at most gets ready. *)
Record quiet (ex : option nat) (s s' : Sched) : Prop := {
  qu_rq : rq_wf (sc_rq s) → rq_wf (sc_rq s');
  qu_next : sc_next_pid s' = sc_next_pid s;
  qu_log : sc_exit_log s' = sc_exit_log s ∧ sc_exit_idx s' = sc_exit_idx s;
  qu_cur : sc_cur s' = sc_cur s ∧ sc_ctx s' = sc_ctx s;
  qu_back : ∀ i t', task_at s' i t' → ∃ t, task_at s i t ∧ t_pid t' = t_pid t ∧
    (ex = Some i ∨ t_state t' = t_state t ∨ t_state t' = Ready);
  qu_forth : ∀ i t, task_at s i t → ∃ t', task_at s' i t' ∧ t_pid t' = t_pid t
}.

#[export] Instance quiet_refl ex : Reflexive (quiet ex).
Proof. intros s. split; eauto 6. Qed.

#[export] Instance quiet_trans ex : Transitive (quiet ex).
Proof.
  intros s1 s2 s3 [Hr1 Hn1 [Hl1 Hl1'] [Hc1 Hc1'] Hb1 Hf1] [Hr2 Hn2 [Hl2 Hl2'] [Hc2 Hc2'] Hb2 Hf2].
  split; [auto|congruence|split; congruence|split; congruence| |].
  - intros i t3 H3. destruct (Hb2 i t3 H3) as (t2 & H2 & Hp2 & Hs2).
    destruct (Hb1 i t2 H2) as (t1 & H1 & Hp1 & Hs1). exists t1.
    split; [done|]. split; [congruence|].
    destruct Hs2 as [?|[Hs2| ?]]; [by left| |by right; right].
    destruct Hs1 as [?|[?| ?]]; [by left|right; left; congruence|right; right; congruence].
  - intros i t1 H1. destruct (Hf1 i t1 H1) as (t2 & H2 & Hp). destruct (Hf2 i t2 H2) as (t3 & H3 & Hp').
    exists t3. split; [done|congruence].
Qed.

Lemma log_holds_ext h s s' : sc_exit_log s' = sc_exit_log s → sc_exit_idx s' = sc_exit_idx s →
  log_holds h s → log_holds h s'.
Proof. intros Hl Hi [? ? ?]. split; rewrite ?Hl, ?Hi; done. Qed.

Lemma quiet_ok ex s s' : quiet ex s s' → sched_ok ex s → sched_ok ex s'.
Proof.
  intros [Hrq Hn [Hl Hli] _ Hb Hf] [Hwf Hnext Hu Hr (h & Hh & Hnd & Hlt & Hlive) Hst].
  split; [auto|by rewrite Hn| | | |].
  - intros i j t t' Hi Hj Hpid. destruct (Hb i t Hi) as (t1 & Hi1 & Hp1 & _).
    destruct (Hb j t' Hj) as (t2 & Hj2 & Hp2 & _). eapply Hu; [done..|congruence].
  - intros i t Hi. destruct (Hb i t Hi) as (t1 & Hi1 & Hp1 & _). rewrite Hn, Hp1. by eapply Hr.
  - exists h. split; [by eapply log_holds_ext|]. split; [done|]. rewrite Hn. split; [done|].
    intros i t Hi. destruct (Hb i t Hi) as (t1 & Hi1 & Hp1 & _). rewrite Hp1. by eapply Hlive.
  - intros i t Hi. destruct (Hb i t Hi) as (t1 & Hi1 & _ & Hs). unfold idle_state.
    destruct Hs as [?|[Heq| ?]]; [by left| |by right; left].
    rewrite Heq. by apply (Hst i t1).
Qed.

Lemma quiet_wf s s' : quiet (sc_ctx s) s s' → sched_wf s → sched_wf s'.
Proof.
  intros Hq [Hok Hc]. pose proof (qu_cur _ _ _ Hq) as [Hc1 Hc2]. split.
  - rewrite Hc2. by eapply quiet_ok.
  - unfold cur_ok in *. rewrite Hc1, Hc2. destruct (sc_ctx s) as [i|]; [|done].
    destruct Hc as (t & Ht & <-). by apply (qu_forth _ _ _ Hq) in Ht.
Qed.

(** ** Quiet operations *)

Lemma at_idx_lookup idx f rq i o : tasks (at_idx idx f rq) !! i = Some o →
  ∃ o0, tasks rq !! i = Some o0 ∧ o = if (i =? idx)%nat then f <$> o0 else o0.
Proof.
  unfold at_idx. destruct (tasks rq !! idx) as [[t|]|] eqn:Hi; simpl.
  - destruct (Nat.eqb_spec i idx) as [->|Hne].
    + rewrite list_lookup_insert_eq by (by eapply lookup_lt_Some). intros [= <-]. eauto.
    + rewrite list_lookup_insert_ne by done. eauto.
  - intros Ho. exists o. split; [done|]. destruct (Nat.eqb_spec i idx) as [->|]; [|done].
    rewrite Hi in Ho. by injection Ho as <-.
  - intros Ho. exists o. split; [done|]. destruct (Nat.eqb_spec i idx) as [->|]; [|done]. congruence.
Qed.

Lemma at_idx_lookup_task idx f rq i t : tasks rq !! i = Some (Some t) →
  tasks (at_idx idx f rq) !! i = Some (Some (if (i =? idx)%nat then f t else t)).
Proof.
  intros Hi. unfold at_idx. destruct (Nat.eqb_spec i idx) as [<-|Hne].
  - rewrite Hi. simpl. apply list_lookup_insert_eq. by eapply lookup_lt_Some.
  - destruct (tasks rq !! idx) as [[t'|]|] eqn:Hi'; simpl; [|done..]. by rewrite list_lookup_insert_ne.
Qed.

Lemma quiet_at_idx ex idx f s : (∀ t, t_pid (f t) = t_pid t) →
  (ex = Some idx ∨ ∀ t, t_state (f t) = t_state t ∨ t_state (f t) = Ready) →
  quiet ex s (on_rq (at_idx idx f) s).
Proof.
  intros Hpid Hst. split; [apply at_idx_wf|done..| |].
  - intros i t' Ht'. apply at_idx_lookup in Ht' as (o0 & Ho0 & Heq).
    destruct (Nat.eqb_spec i idx) as [->|Hne].
    + destruct o0 as [t|]; [|done]. injection Heq as ->. exists t. split; [done|]. split; [done|].
      destruct Hst as [->|Hst]; [by left|right; apply Hst].
    + subst o0. exists t'. auto.
  - intros i t Ht. eexists. split; [by apply at_idx_lookup_task|]. by destruct (i =? idx)%nat.
Qed.

Lemma find_pid_idx_Some pid rq i : find_pid_idx pid rq = Some i →
  ∃ t, tasks rq !! i = Some (Some t) ∧ t_pid t = pid.
Proof.
  intros (o & Ho & Hp & _)%position_Some. destruct o as [t|]; [|done]. simpl in Hp.
  apply Z.eqb_eq in Hp. eauto.
Qed.

Lemma update_pid_idx pid f s : update_pid pid f s =
  match find_pid_idx pid (sc_rq s) with Some idx => on_rq (at_idx idx f) s | None => s end.
Proof.
  unfold update_pid, on_rq, at_pid. by destruct (find_pid_idx pid (sc_rq s)); [|destruct s].
Qed.

Lemma quiet_update_pid ex pid f s : (∀ t, t_pid (f t) = t_pid t) →
  (∀ t, t_state (f t) = t_state t ∨ t_state (f t) = Ready) → quiet ex s (update_pid pid f s).
Proof.
  intros Hpid Hst. rewrite update_pid_idx.
  destruct (find_pid_idx pid (sc_rq s)) as [idx|]; [|done]. apply quiet_at_idx; auto.
Qed.

(** Also changes of state leave slots and identifiers. *)
Lemma update_pid_back pid f s i t' : (∀ t, t_pid (f t) = t_pid t) → task_at (update_pid pid f s) i t' →
  ∃ t, task_at s i t ∧ t_pid t' = t_pid t.
Proof.
  intros Hf. rewrite update_pid_idx. destruct (find_pid_idx pid (sc_rq s)) as [j|]; [|eauto].
  intros (o & Ho & Heq)%at_idx_lookup. destruct (i =? j)%nat; [|subst o; eauto].
  destruct o as [t|]; [|done]. injection Heq as ->. eauto.
Qed.

(** The slot of the current task. *)
Lemma find_current_idx s : sched_wf s → find_pid_idx (sc_cur s) (sc_rq s) = sc_ctx s.
Proof.
  intros [Hok Hc]. unfold cur_ok in Hc.
  destruct (find_pid_idx (sc_cur s) (sc_rq s)) as [j|] eqn:Hj.
  - apply find_pid_idx_Some in Hj as (t & Ht & Hp). destruct (sc_ctx s) as [i|].
    + destruct Hc as (t' & Ht' & Hp'). f_equal. eapply (so_unique _ _ Hok); [done..|congruence].
    + pose proof (so_range _ _ Hok j t Ht). lia.
  - destruct (sc_ctx s) as [i|]; [|done]. destruct Hc as (t & Ht & Hp). exfalso.
    pose proof (proj1 (position_None _ _) Hj i _ Ht) as Hno. simpl in Hno. lia.
Qed.

Lemma quiet_update_current f s : sched_wf s → (∀ t, t_pid (f t) = t_pid t) →
  quiet (sc_ctx s) s (update_current f s).
Proof.
  intros Hwf Hpid. unfold update_current. rewrite update_pid_idx, find_current_idx by done.
  destruct (sc_ctx s) as [idx|]; [|done]. apply quiet_at_idx; auto.
Qed.

Lemma update_current_wf f s : sched_wf s → (∀ t, t_pid (f t) = t_pid t) → sched_wf (update_current f s).
Proof. intros Hwf Hf. eapply quiet_wf; [by apply quiet_update_current|done]. Qed.

Lemma update_pid_wf pid f s : sched_wf s → (∀ t, t_pid (f t) = t_pid t) →
  (∀ t, t_state (f t) = t_state t ∨ t_state (f t) = Ready) → sched_wf (update_pid pid f s).
Proof. intros Hwf Hf Hs. eapply quiet_wf; [by apply quiet_update_pid|done]. Qed.

Lemma wake_pid port t : t_pid (wake port t) = t_pid t ∧
  (t_state (wake port t) = t_state t ∨ t_state (wake port t) = Ready).
Proof. unfold wake. destruct (waits_on port t); split; auto. Qed.

Lemma quiet_unblock ex port s : quiet ex s (sched_unblock_port port s).
Proof.
  split; [apply rq_unblock_port_wf|done..| |].
  - intros i t' Ht'. unfold task_at in Ht'. simpl in Ht'. rewrite list_lookup_fmap in Ht'.
    destruct (tasks (sc_rq s) !! i) as [[t|]|] eqn:Hi; simplify_eq/=.
    exists t. destruct (wake_pid port t) as [Hp Hs]. auto.
  - intros i t Ht. exists (wake port t). unfold task_at in *. simpl.
    rewrite list_lookup_fmap, Ht. split; [done|apply wake_pid].
Qed.

Lemma quiet_kmem ex k s : quiet ex s (set_kmem k s).
Proof. split; eauto 6. Qed.

Lemma quiet_with_kmem {A} ex (c : st kmem A) s : wlp (with_kmem c) (λ _ s', quiet ex s s') s.
Proof. unfold wlp, with_kmem. destruct (c (sc_kmem s)) as [[a k]|]; [apply quiet_kmem|done]. Qed.

Lemma quiet_release ex pid (ts : PortTable * Sched) : quiet ex ts.2 (release_by_owner pid ts).2.
Proof.
  destruct ts as [t s]. unfold release_by_owner. destruct (release_buckets _ _ _) as [bs closed]. simpl.
  revert s. induction closed as [|p closed IH]; intros s; simpl; [done|].
  etrans; [apply (quiet_unblock ex p s)|apply IH].
Qed.

Lemma block_update port s : sched_block_on_port port s =
  update_current (λ t, with_blocked_on (Some port) (with_state Blocked t)) s.
Proof. done. Qed.

Lemma kmem_wf {A} (c : st kmem A) s : sched_wf s → wlp (with_kmem c) (λ _, sched_wf) s.
Proof.
  intros Hwf. eapply wlp_mono; [apply (quiet_with_kmem (sc_ctx s))|]. intros a s' Hq. by apply (quiet_wf s s').
Qed.

Lemma address_space_wf {R} (f : st (kmem * AddressSpace) R) s : sched_wf s →
  wlp (with_current_address_space_mut f) (λ _ s', sched_wf s' ∧ sc_next_pid s' = sc_next_pid s) s.
Proof.
  intros Hwf. unfold wlp, with_current_address_space_mut.
  destruct (mbind _ _) as [a|]; [|done]. destruct (f _) as [[r [k a']]|]; [|done]. split; [|done].
  eapply quiet_wf; [apply quiet_kmem|]. by apply update_current_wf.
Qed.

Lemma replace_address_space_wf new_as pt heap s : sched_wf s →
  wlp (replace_address_space new_as pt heap) (λ _ s', sched_wf s' ∧ sc_next_pid s' = sc_next_pid s) s.
Proof.
  intros Hwf. unfold replace_address_space. apply wlp_bind. unfold st_get, wlp at 1.
  destruct (current_task s) as [t|]; [|done]. apply wlp_bind.
  eapply wlp_mono; [apply (quiet_with_kmem (sc_ctx s))|]. intros [] s1 Hq. unfold wlp. simpl. split.
  - apply update_current_wf; [by eapply quiet_wf|done].
  - apply Hq.
Qed.

(** ** Creation of tasks *)

(** No task has or had the identifier [pid], or a later one. *)
Definition fresh_pid (pid : Z) (s : Sched) : Prop :=
  1 ≤ pid < sc_next_pid s ∧ (∀ i t, task_at s i t → t_pid t < pid) ∧
  ∃ h, log_holds h s ∧ NoDup h.*1 ∧ (∀ p, p ∈ h.*1 → p < pid) ∧ (∀ i t, task_at s i t → t_pid t ∉ h.*1).

Lemma fresh_pid_quiet ex pid s s' : quiet ex s s' → fresh_pid pid s → fresh_pid pid s'.
Proof.
  intros [_ Hn [Hl Hli] _ Hb _] (Hp & Hlt & h & Hh & Hnd & Hhp & Hlive). split_and!; [lia|lia| |].
  - intros i t (t1 & H1 & -> & _)%Hb. by eapply Hlt.
  - exists h. split; [by eapply log_holds_ext|]. split; [done|]. split; [done|].
    intros i t (t1 & H1 & -> & _)%Hb. by eapply Hlive.
Qed.

Lemma alloc_pid_wf s pid s' : sched_wf s → sc_next_pid s + 1 < 2^32 → alloc_pid s = (pid, s') →
  sched_wf s' ∧ fresh_pid pid s' ∧ sc_next_pid s' = sc_next_pid s + 1.
Proof.
  intros [Hok Hc] Hlt [= <- <-]. destruct Hok as [Hwf Hnext Hu Hr (h & Hh & Hnd & Hp & Hlive) Hst].
  assert (u32 (sc_next_pid s + 1) = sc_next_pid s + 1) as Hu32.
  { unfold u32. apply Z.mod_small. lia. }
  assert (∀ s', sc_exit_log s' = sc_exit_log s → sc_exit_idx s' = sc_exit_idx s → log_holds h s') as Hh'.
  { intros s' ? ?. by eapply log_holds_ext. }
  split_and!; [|split_and!|done].
  - split; [|done]. split; cbn [sc_rq sc_next_pid sc_ctx]; [done|lia|done| | |done].
    + intros i t Hi. pose proof (Hr i t Hi). lia.
    + exists h. split; [by apply Hh'|]. split; [done|]. split; [|done]. cbn [sc_next_pid].
      intros p Hin. specialize (Hp p Hin). lia.
  - lia.
  - cbn [sc_next_pid]. lia.
  - intros i t Hi. by apply (Hr i t Hi).
  - exists h. split; [by apply Hh'|]. done.
Qed.

Lemma enqueue_at task rq b rq' i t : enqueue task rq = (b, rq') → tasks rq' !! i = Some (Some t) →
  tasks rq !! i = Some (Some t) ∨ t = task ∧ position is_none (tasks rq) = Some i.
Proof.
  intros He Hi. unfold enqueue in He.
  destruct (position is_none (tasks rq)) as [idx|] eqn:Hp; simplify_eq; [|by left]. simpl in Hi.
  pose proof Hp as (o & Ho & _)%position_Some. destruct (decide (idx = i)) as [->|Hne].
  - rewrite list_lookup_insert_eq in Hi by (by eapply lookup_lt_Some). right. by simplify_eq.
  - rewrite list_lookup_insert_ne in Hi by done. by left.
Qed.

Lemma enqueue_keeps task rq b rq' i t : enqueue task rq = (b, rq') → tasks rq !! i = Some (Some t) →
  tasks rq' !! i = Some (Some t).
Proof.
  intros He Hi. unfold enqueue in He.
  destruct (position is_none (tasks rq)) as [idx|] eqn:Hp; simplify_eq; [|done]. simpl.
  apply position_Some in Hp as (o & Ho & Hnone & _). rewrite list_lookup_insert_ne; [done|].
  intros <-. rewrite Hi in Ho. by simplify_eq.
Qed.

Lemma enqueue_sched_wf task s b rq' : sched_wf s → enqueue task (sc_rq s) = (b, rq') →
  t_state task = Ready → fresh_pid (t_pid task) s → sched_wf (on_rq (λ _, rq') s).
Proof.
  intros [Hok Hc] He Hrd (Hrng & Hfresh & h & Hh & Hnd & Hlog & Hlive).
  destruct Hok as [Hwf Hnext Hu Hr _ Hst].
  assert (∀ i t, task_at (on_rq (λ _, rq') s) i t → 
    task_at s i t ∨ t = task ∧ position is_none (tasks (sc_rq s)) = Some i) as Hat.
  { intros i t Hi. by apply (enqueue_at _ _ _ _ i t He). }
  split.
  - split; cbn [sc_rq sc_next_pid sc_ctx on_rq]; [by eapply enqueue_wf|done| | | |].
    + intros i j t t' Hi Hj Hpid. destruct (Hat i t Hi) as [Hi'|[-> Hi']], (Hat j t' Hj) as [Hj'|[-> Hj']].
      * by eapply Hu.
      * pose proof (Hfresh i t Hi'). lia.
      * pose proof (Hfresh j t' Hj'). lia.
      * congruence.
    + intros i t Hi. destruct (Hat i t Hi) as [Hi'|[-> _]]; [by eapply Hr|done].
    + exists h. split; [by destruct Hh|]. split; [done|]. cbn [sc_next_pid on_rq]. split.
      * intros p Hin. specialize (Hlog p Hin). lia.
      * intros i t Hi. destruct (Hat i t Hi) as [Hi'|[-> _]]; [by eapply Hlive|].
        intros Hin. specialize (Hlog _ Hin). lia.
    + intros i t Hi. destruct (Hat i t Hi) as [Hi'|[-> _]]; [by apply Hst|]. right. by left.
  - unfold cur_ok in *. cbn [sc_ctx sc_cur on_rq]. destruct (sc_ctx s) as [i|]; [|done].
    destruct Hc as (t & Ht & Hpt). exists t. split; [|done]. by eapply enqueue_keeps.
Qed.

Lemma enqueue_or_free_wf task stack order s : sched_wf s → t_state task = Ready →
  fresh_pid (t_pid task) s →
  wlp (enqueue_or_free task stack order) (λ _ s', sched_wf s' ∧ sc_next_pid s' = sc_next_pid s) s.
Proof.
  intros Hwf Hrd Hf. unfold enqueue_or_free. apply wlp_bind. unfold st_lift, wlp at 1.
  destruct (enqueue task (sc_rq s)) as [ok rq'] eqn:He.
  pose proof (enqueue_sched_wf _ _ _ _ Hwf He Hrd Hf) as Hwf'. destruct ok; [done|].
  apply wlp_bind. eapply wlp_mono; [apply (quiet_with_kmem (sc_ctx s))|]. intros [] s1 Hq1. cbn beta.
  apply wlp_bind. eapply wlp_mono; [apply (quiet_with_kmem (sc_ctx s1))|]. intros [] s2 Hq2. cbn beta.
  split; [|by rewrite (qu_next _ _ _ Hq2), (qu_next _ _ _ Hq1)].
  apply (quiet_wf s1 s2 Hq2), (quiet_wf (on_rq (λ _, rq') s) s1 Hq1). done.
Qed.

(** Both ways to create a task: a fresh identifier and a task that has it. *)
Lemma spawn_wf entry s : sched_wf s → sc_next_pid s + 1 < 2^32 →
  wlp (spawn entry) (λ _ s', sched_wf s' ∧ sc_next_pid s' = sc_next_pid s + 1) s.
Proof.
  intros Hwf Hlt. unfold spawn. apply wlp_bind. unfold st_lift, wlp at 1.
  destruct (alloc_pid s) as [pid s1] eqn:Ha.
  destruct (alloc_pid_wf _ _ _ Hwf Hlt Ha) as (Hwf1 & Hf1 & <-).
  apply wlp_bind. eapply wlp_mono; [apply (quiet_with_kmem (sc_ctx s1))|]. intros o s2 Hq. cbn beta.
  pose proof (quiet_wf _ _ Hq Hwf1) as Hwf2. rewrite <- (qu_next _ _ _ Hq).
  destruct o as [base|]; [|done]. apply enqueue_or_free_wf; [done|done|]. by eapply fresh_pid_quiet.
Qed.

Lemma spawn_user_wf ret entry sp a s : sched_wf s → sc_next_pid s + 1 < 2^32 →
  wlp (spawn_user_with_address_space ret entry sp a)
    (λ _ s', sched_wf s' ∧ sc_next_pid s' = sc_next_pid s + 1) s.
Proof.
  intros Hwf Hlt. unfold spawn_user_with_address_space. apply wlp_bind. unfold st_lift, wlp at 1.
  destruct (alloc_pid s) as [pid s1] eqn:Ha.
  destruct (alloc_pid_wf _ _ _ Hwf Hlt Ha) as (Hwf1 & Hf1 & <-).
  apply wlp_bind. eapply wlp_mono; [apply (quiet_with_kmem (sc_ctx s1))|]. intros o s2 Hq. cbn beta.
  pose proof (quiet_wf _ _ Hq Hwf1) as Hwf2. rewrite <- (qu_next _ _ _ Hq).
  destruct o as [base|]; apply wlp_bind.
  - unfold st_get, wlp at 1. apply wlp_bind. unfold with_kmem, wlp at 1.
    unfold new_userspace, mbind, st_bind, CpuContext_new_user_task, st_modify, mret, st_ret.
    refine (enqueue_or_free_wf _ _ _ (set_kmem _ s2) _ _ _); [|done|].
    + exact (quiet_wf s2 _ (quiet_kmem _ _ _) Hwf2).
    + eapply fresh_pid_quiet; [apply (quiet_kmem None)|]. by eapply fresh_pid_quiet.
  - eapply wlp_mono; [apply (quiet_with_kmem (sc_ctx s2))|]. intros [] s3 Hq3. cbn beta.
    split; [exact (quiet_wf s2 _ Hq3 Hwf2)|by apply Hq3].
Qed.

(** ** The run loop *)

Lemma dispatch_wf s idx s' : sched_wf s → sc_ctx s = None → dispatch s = (Some idx, s') →
  sched_wf s' ∧ sc_ctx s' = Some idx ∧ sc_next_pid s' = sc_next_pid s ∧
  ∃ t, task_at s idx t ∧ t_state t = Ready ∧ task_at s' idx (with_state Running t).
Proof.
  intros [Hok Hc] Hnone Hd. unfold dispatch in Hd.
  destruct (pick_next (sc_rq s)) as [[j|] rq'] eqn:Hp; [|done].
  assert (tasks rq' = tasks (sc_rq s) ∧ rq_wf rq' ∧ slot_ready (tasks (sc_rq s)) j = true) as (Ht & Hwf' & Hr).
  { by apply pick_next_wf; [apply Hok|]. }
  apply slot_ready_task in Hr as (t & Hj & Hst). rewrite Ht, Hj in Hd. injection Hd as <- <-.
  assert (sched_ok (Some j) (set_current (t_pid t) (Some j) (on_rq (λ _, rq') s))) as Hok'.
  { destruct Hok as [_ Hn Hu Hrng Hlog Hs].
    assert (∀ i t', task_at (set_current (t_pid t) (Some j) (on_rq (λ _, rq') s)) i t' → task_at s i t') as Hat.
    { intros i t' Hi. unfold task_at in *. cbn in Hi. congruence. }
    destruct Hlog as (h & Hh & Hnd & Hp' & Hlive).
    split; [done|done|eauto..| |].
    - exists h. split; [by destruct Hh|]. eauto.
    - intros i t' Hi%Hat. destruct (Hs i t' Hi) as [|]; [congruence|by right]. }
  assert (task_at (on_rq (at_idx j (with_state Running)) (set_current (t_pid t) (Some j) (on_rq (λ _, rq') s)))
            j (with_state Running t)) as Hat.
  { unfold task_at. cbn. rewrite (at_idx_lookup_task _ _ _ j t); [by rewrite Nat.eqb_refl|]. congruence. }
  split_and!; [|done..|eauto].
  split; [|exists (with_state Running t); split; [exact Hat|done]].
  eapply quiet_ok; [apply quiet_at_idx; [done|by left]|]. exact Hok'.
Qed.

Lemma dispatch_none s s' : sched_wf s → dispatch s = (None, s') → s' = s.
Proof.
  intros [Hok _] Hd. unfold dispatch in Hd.
  destruct (pick_next (sc_rq s)) as [[j|] rq'] eqn:Hp.
  - destruct (pick_next_wf _ _ _ (so_rq _ _ Hok) Hp) as (Ht & _ & Hr).
    apply slot_ready_task in Hr as (t & Hj & _). rewrite Ht, Hj in Hd. done.
  - injection Hd as <-. apply pick_next_None in Hp as ->. by destruct s.
Qed.

(** The task [pid] is out of the queue and not yet in the log. *)
Definition gone (pid : Z) (s : Sched) : Prop :=
  pid < sc_next_pid s ∧ (∀ i t, task_at s i t → t_pid t ≠ pid) ∧
  ∃ h, log_holds h s ∧ NoDup h.*1 ∧ (∀ p, p ∈ h.*1 → p < sc_next_pid s) ∧
    (∀ i t, task_at s i t → t_pid t ∉ h.*1) ∧ pid ∉ h.*1.

Lemma gone_quiet ex pid s s' : quiet ex s s' → gone pid s → gone pid s'.
Proof.
  intros [_ Hn [Hl Hli] _ Hb _] (Hp & Hno & h & Hh & Hnd & Hhp & Hlive & Hpid). rewrite <- Hn in Hp, Hhp.
  split; [done|]. split.
  - intros i t (t1 & H1 & -> & _)%Hb. by eapply Hno.
  - exists h. split; [by eapply log_holds_ext|]. split_and!; [done..| |done].
    intros i t (t1 & H1 & -> & _)%Hb. by eapply Hlive.
Qed.

Lemma remove_ok idx s t : sched_ok (Some idx) s → task_at s idx t →
  ∃ rq', remove idx (sc_rq s) = Ret (Some t, rq') ∧
    sched_ok None (on_rq (λ _, rq') s) ∧ gone (t_pid t) (on_rq (λ _, rq') s).
Proof.
  intros [Hwf Hn Hu Hr (h & Hh & Hnd & Hp & Hlive) Hs] Ht. unfold task_at in Ht.
  pose proof (remove_wf idx (sc_rq s)) as Hrw. unfold remove in *. rewrite Ht in *.
  eexists. split; [reflexivity|]. specialize (Hrw _ _ Hwf eq_refl).
  assert (∀ i t', task_at (on_rq (λ _, mkRQ (<[idx:=None]> (tasks (sc_rq s))) (rq_len (sc_rq s) - 1)
    (cursor (sc_rq s))) s) i t' → task_at s i t' ∧ i ≠ idx) as Hat.
  { intros i t' Hi. unfold task_at in *. cbn in Hi. destruct (decide (i = idx)) as [->|Hne].
    - rewrite list_lookup_insert_eq in Hi by (by eapply lookup_lt_Some). done.
    - by rewrite list_lookup_insert_ne in Hi. }
  assert (∀ i t', task_at s i t' → i ≠ idx → t_pid t' ≠ t_pid t) as Hdiff.
  { intros i t' Hi Hne Heq. apply Hne. by eapply Hu. }
  split.
  - split; [done|done|..].
    + intros i j t1 t2 [Hi _]%Hat [Hj _]%Hat. by eapply Hu.
    + intros i t1 [Hi _]%Hat. by eapply Hr.
    + exists h. split; [by destruct Hh|]. split_and!; [done..|]. intros i t1 [Hi _]%Hat. by eapply Hlive.
    + intros i t1 [Hi Hne]%Hat. destruct (Hs i t1 Hi) as [[= <-]|]; [done|by right].
  - split; [by apply (Hr idx t Ht)|]. split; [intros i t1 [Hi Hne]%Hat; by eapply Hdiff|].
    exists h. split; [by destruct Hh|]. split_and!; [done..| |by eapply Hlive].
    intros i t1 [Hi _]%Hat. by eapply Hlive.
Qed.

Lemma log_exit_ok pid code s : sched_ok None s → gone pid s →
  sched_ok None (log_exit pid code s) ∧ get_exit_code pid (log_exit pid code s) = Some code ∧
  find_pid_idx pid (sc_rq (log_exit pid code s)) = None.
Proof.
  intros [Hwf Hn Hu Hr _ Hs] (Hp & Hno & h & Hh & Hnd & Hhp & Hlive & Hpid).
  assert (NoDup ((pid, code) :: h).*1) as Hnd' by (by constructor). split_and!.
  - split; [done|done|done|done| |done].
    exists ((pid, code) :: h). split; [by apply log_exit_holds|]. split; [done|]. split.
    + intros p [->|Hin]%elem_of_cons; [done|by apply Hhp].
    + intros i t Hi [Heq|Hin]%elem_of_cons; [by eapply Hno|by eapply Hlive].
  - eapply (get_exit_code_Some _ _ 0); [by apply log_exit_holds|done|unfold EXIT_LOG_LEN; lia|done].
  - apply position_None. intros i [t|] Hi; [|done]. apply Z.eqb_neq. by apply (Hno i t).
Qed.

(** A dispatched task gives the CPU back. *)
Lemma leave_ok idx s : sched_wf s → sc_ctx s = Some idx →
  let s1 := on_rq (at_idx idx stop_running) (set_current 0 None s) in
  sched_ok (Some idx) s1 ∧ (zombie_info idx s1 = None → sched_ok None s1).
Proof.
  intros [Hok Hc] Hctx s1. rewrite Hctx in Hok.
  assert (sched_ok (Some idx) s1) as Hok1.
  { eapply quiet_ok; [apply quiet_at_idx; [|by left]|].
    - intros t. unfold stop_running. by destruct (bool_decide _).
    - destruct Hok as [? ? ? ? (h & [? ? ?] & ?) ?]. split; [done..| |done]. exists h. by split. }
  split; [done|]. intros Hz. destruct Hok1 as [? ? ? ? ? Hs]. split; [done..|].
  intros i t Ht. destruct (Hs i t Ht) as [[= <-]|]; [right|by right].
  unfold zombie_info in Hz. unfold task_at in Ht. rewrite Ht in Hz.
  apply at_idx_lookup in Ht as (o & Ho & Heq). rewrite Nat.eqb_refl in Heq. destruct o as [t0|]; [|done].
  injection Heq as ->. unfold stop_running, idle_state in *.
  destruct (bool_decide_reflect (t_state t0 = Running)) as [|Hnr]; [by left|].
  destruct (t_state t0) eqn:Hst; [by left|done|by right|done].
Qed.

Section switch_back.
Context {P : Type} (hook : option (Z → P * Sched → P * Sched)).
Context (Hhook : ∀ ex h pid x, hook = Some h → quiet ex x.2 (h pid x).2).

Lemma hook_quiet ex pid x : quiet ex x.2 (default (λ x, x) ((λ h, h pid) <$> hook) x).2.
Proof. destruct hook as [h|] eqn:Hh; simpl; [by apply Hhook|done]. Qed.

(** After [switch_back] no task is dispatched; a zombie has left the queue and
    its exit code is in the log. *)
Lemma switch_back_wf idx p s : sched_wf s → sc_ctx s = Some idx →
  wlp (switch_back hook idx) (λ _ x, sched_wf x.2 ∧ sc_ctx x.2 = None ∧ sc_next_pid x.2 = sc_next_pid s ∧
    ∀ t, task_at s idx t → t_state t = Zombie →
      get_exit_code (t_pid t) x.2 = Some (t_exit_code t) ∧ find_pid_idx (t_pid t) (sc_rq x.2) = None) (p, s).
Proof.
  intros Hwf Hctx. destruct (leave_ok idx s Hwf Hctx) as [Hok1 Hok2]. cbn zeta in *.
  set (s1 := on_rq (at_idx idx stop_running) (set_current 0 None s)) in *.
  assert (∀ t, task_at s idx t → t_state t = Zombie → task_at s1 idx t) as Hzt.
  { intros t Ht Hz. unfold task_at. unfold s1. cbn. rewrite (at_idx_lookup_task idx stop_running _ idx t) by done.
    rewrite Nat.eqb_refl. unfold stop_running. by rewrite bool_decide_false by congruence. }
  unfold switch_back. apply wlp_bind. unfold wlp at 1, on_sched, st_modify. fold s1.
  apply wlp_bind. unfold wlp at 1, st_get. unfold zombie_info in *.
  destruct (tasks (sc_rq s1) !! idx) as [[t1|]|] eqn:Ht1; [destruct (bool_decide_reflect (t_state t1 = Zombie))|..].
  2-4: split_and!; [split; [by apply Hok2|done]|done|done|];
    intros t Ht Hz; specialize (Hzt t Ht Hz); unfold task_at in Hzt; congruence.
  apply wlp_bind. unfold wlp at 1. pose proof (hook_quiet (Some idx) (t_pid t1) (p, s1)) as Hq.
  destruct (default _ _ (p, s1)) as [p2 s2]. cbn [snd] in Hq.
  destruct (qu_forth _ _ _ Hq idx t1 Ht1) as (t2 & Ht2 & Hpid).
  destruct (remove_ok idx s2 t2 (quiet_ok _ _ _ Hq Hok1) Ht2) as (rq' & Hrm & Hok3 & Hg3).
  apply wlp_bind. unfold wlp at 1, remove_task. rewrite Hrm. unfold with_kmem, mbind, st_bind.
  destruct (drop_task t2 _) as [[[] k3]|]; [|done]. cbn [mret st_ret].
  set (s3 := set_kmem k3 (on_rq (λ _, rq') s2)).
  apply wlp_bind. unfold wlp at 1. destruct (k_free _ _ _) as [[[] k4]|]; [|done]. unfold wlp. cbn [snd].
  assert (quiet None (on_rq (λ _, rq') s2) (set_kmem k4 s3)) as Hq3 by (etrans; apply quiet_kmem).
  destruct (log_exit_ok (t_pid t1) (t_exit_code t1) (set_kmem k4 s3)) as (Hok5 & Hg5 & Hn5).
  { by eapply quiet_ok. }
  { rewrite <- Hpid. by eapply gone_quiet. }
  pose proof (qu_cur _ _ _ Hq) as [Hc1 Hc2].
  assert (sc_ctx s2 = None ∧ sc_cur s2 = 0) as [Hctx2 Hcur2] by (rewrite Hc1, Hc2; done).
  split_and!; [split| |by cbn; rewrite (qu_next _ _ _ Hq)|].
  - cbn [sc_ctx log_exit set_kmem s3 on_rq]. by rewrite Hctx2.
  - unfold cur_ok. cbn [sc_ctx sc_cur log_exit set_kmem s3 on_rq]. by rewrite Hctx2.
  - done.
  - intros t Ht Hz. specialize (Hzt t Ht Hz). unfold task_at in Hzt. rewrite Ht1 in Hzt.
    injection Hzt as <-. done.
Qed.
End switch_back.
