(* ===== verification/SchedSpec.v ===== *)
(** * Runs of the scheduler

    The events of a kernel with one CPU: the run loop dispatches a task, the
    task calls into the kernel until it yields, interrupts tick.  The port table
    is the other component: it registers the exit hook. *)

From stdpp Require Import base list option numbers.
From Stdlib Require Import ZArith Lia.
From S2P Require Import Prelude Words Buddy Memory Slab Paging Vmm IpcPort Task RunQueue Sched SchedInv.

Local Open Scope Z_scope.

(** What the running task may call. *)
Inductive call :=
  | CSpawn (entry : Z)
  | CSpawnUser (ret_to_user entry sp : Z) (a : AddressSpace)
  | CExit (code : Z)
  | CBlock (port : Z)
  | CUnblock (port : Z)
  | CSignal (pid signo : Z)
  | CClearSignal (signo : Z)
  | CMask (mask : Z)
  | CReplyPort (port : Z)
  | CCwd (path : list Z)
  | CPgid (pid pgid : Z)
  | CSetsid
  | CUmask (mask : Z)
  | CClearTid (addr : Z)
  | CFsBase (addr : Z)
  | CFault (addr : Z)
  | CExec (a : AddressSpace) (pt_root heap_start : Z)
  | CWait (pid : Z).

Inductive event := EvDispatch | EvYield | EvTick | EvPreempt | EvCall (c : call).

Definition st_unit {S A} (c : st S A) : st S unit := c ≫= λ _, mret tt.

Definition run_call (c : call) : st Sched unit :=
  match c with
  | CSpawn entry => st_unit (spawn entry)
  | CSpawnUser ret entry sp a => st_unit (spawn_user_with_address_space ret entry sp a)
  | CExit code => st_modify (exit code)
  | CBlock port => st_modify (sched_block_on_port port)
  | CUnblock port => st_modify (sched_unblock_port port)
  | CSignal pid signo => st_unit (st_lift (deliver_signal pid signo))
  | CClearSignal signo => st_modify (clear_pending_signal signo)
  | CMask mask => st_unit (st_lift (replace_signal_mask mask))
  | CReplyPort port => st_modify (set_current_reply_port port)
  | CCwd path => st_unit (st_lift (set_cwd path))
  | CPgid pid pgid => st_unit (st_lift (set_pgid pid pgid))
  | CSetsid => st_unit (st_lift setsid)
  | CUmask mask => st_unit (st_lift (umask mask))
  | CClearTid addr => st_modify (set_clear_child_tid addr)
  | CFsBase addr => st_modify (set_fs_base addr)
  | CFault addr => st_unit (handle_page_fault addr)
  | CExec a pt heap => replace_address_space a pt heap
  | CWait pid => st_unit (wait_pid_once pid)
  end.

(** The current task has not exited: [exit] does not return to it. *)
Definition alive (s : Sched) : bool :=
  match current_task s with Some t => bool_decide (t_state t ≠ Zombie) | None => true end.

Definition exit_hook : option (Z → PortTable * Sched → PortTable * Sched) := Some release_by_owner.

(** Events that are not enabled do nothing. *)
Definition run_event (e : event) : st (PortTable * Sched) unit := st_of (λ x,
  match e, sc_ctx x.2 with
  | EvDispatch, None => on_sched (st_unit (st_lift dispatch)) x
  | EvYield, Some idx => switch_back exit_hook idx x
  | EvTick, _ => on_sched (st_modify timer_tick_irq) x
  | EvPreempt, _ => on_sched (st_unit (st_lift preempt_check)) x
  | EvCall c, _ => if alive x.2 then on_sched (run_call c) x else Ret (tt, x)
  | _, _ => Ret (tt, x)
  end).

Definition spawns (e : event) : nat :=
  match e with EvCall (CSpawn _) | EvCall (CSpawnUser _ _ _ _) => 1 | _ => 0 end.

(** ** The invariant holds in every run *)

Definition next_wf (n : Z) (s : Sched) : Prop := sched_wf s ∧ sc_next_pid s = n.

Lemma st_unit_wlp {A} (c : st Sched A) (Q : Sched → Prop) s :
  wlp c (λ _, Q) s → wlp (st_unit c) (λ _, Q) s.
Proof. intros H. unfold st_unit. apply wlp_bind. eapply wlp_mono; [exact H|]. done. Qed.

Lemma wait_pid_wf pid s : sched_wf s → alive s = true →
  wlp (wait_pid_once pid) (λ _, next_wf (sc_next_pid s)) s.
Proof.
  intros Hwf Ha. unfold wait_pid_once. apply wlp_bind. unfold wlp at 1, st_get.
  destruct (find_pid_idx pid (sc_rq s)) as [i|] eqn:Hi; [|done].
  apply wlp_bind. unfold wlp at 1. unfold find_pid, find_first. unfold find_pid_idx in Hi. rewrite Hi.
  apply find_pid_idx_Some in Hi as Hit. destruct Hit as (t & Ht & Hp). simpl. rewrite Ht. simpl.
  destruct (bool_decide_reflect (t_state t = Zombie)) as [Hz|]; [exfalso|done].
  destruct (so_state _ _ (proj1 Hwf) i t Ht) as [Hc|[?|?]]; [|congruence..].
  unfold alive, current_task, current_pid, find_pid, find_first in Ha.
  pose proof (find_current_idx s Hwf) as Hcur. unfold find_pid_idx in Hcur. rewrite Hcur, Hc in Ha.
  simpl in Ha. rewrite Ht in Ha. simpl in Ha. by apply bool_decide_eq_true in Ha.
Qed.

Lemma run_call_wf c s : sched_wf s → (∀ pid, c = CWait pid → alive s = true) →
  sc_next_pid s + Z.of_nat (spawns (EvCall c)) < 2^32 →
  wlp (run_call c) (λ _, next_wf (sc_next_pid s + Z.of_nat (spawns (EvCall c)))) s.
Proof.
  intros Hwf Ha Hlt. unfold next_wf.
  destruct c; simpl (Z.of_nat _) in *; rewrite ?Z.add_0_r in *; unfold run_call;
    try (apply st_unit_wlp); try (unfold wlp, st_modify, st_lift).
  - by apply spawn_wf.
  - by apply spawn_user_wf.
  - split; [by apply update_current_wf|done].
  - split; [by apply update_current_wf|done].
  - split; [|done]. exact (quiet_wf s _ (quiet_unblock _ _ _) Hwf).
  - unfold deliver_signal. destruct (find_pid _ _); [|done]. destruct (_ && _); [|done].
    split; [|done]. apply update_pid_wf; [done|..]; intros t'; unfold wake_blocked;
      destruct (bool_decide _); auto.
  - unfold clear_pending_signal. destruct (_ && _); [|done]. split; [by apply update_current_wf|done].
  - unfold replace_signal_mask. destruct (current_task s); [|done]. split; [by apply update_current_wf|done].
  - split; [by apply update_current_wf|done].
  - unfold set_cwd. destruct (current_task s); [|done]. split; [by apply update_current_wf|done].
  - unfold set_pgid. destruct (find_pid _ _); [|done]. split; [|done]. apply update_pid_wf; auto.
  - unfold setsid. destruct (current_task s); [|done]. split; [by apply update_current_wf|done].
  - unfold umask. destruct (current_task s); [|done]. destruct (_ =? _); [done|].
    split; [by apply update_current_wf|done].
  - split; [by apply update_current_wf|done].
  - split; [by apply update_current_wf|done].
  - unfold handle_page_fault. apply wlp_bind. unfold wlp at 1, st_get. destruct (_ =? 0); [done|].
    apply wlp_bind. eapply wlp_mono; [by apply address_space_wf|]. done.
  - by apply replace_address_space_wf.
  - apply wait_pid_wf; [done|by eapply Ha].
Qed.

Lemma run_event_wf e x : sched_wf x.2 → sc_next_pid x.2 + Z.of_nat (spawns e) < 2^32 →
  wlp (run_event e) (λ _ x', sched_wf x'.2 ∧ sc_next_pid x'.2 ≤ sc_next_pid x.2 + Z.of_nat (spawns e)) x.
Proof.
  intros Hwf Hlt. destruct x as [p s]. cbn [snd] in *.
  destruct e as [| | | |c]; unfold wlp, run_event, st_of; cbn [snd spawns] in *; rewrite ?Z.add_0_r in *.
  - destruct (sc_ctx s) as [i|] eqn:Hc; [split; [done|cbn [snd]; lia]|]. unfold on_sched, st_unit, mbind, st_bind, st_lift.
    destruct (dispatch s) as [[idx|] s'] eqn:Hd; cbn.
    + destruct (dispatch_wf _ _ _ Hwf Hc Hd) as (Hwf' & _ & Hn & _). split; [done|lia].
    + rewrite (dispatch_none _ _ Hwf Hd). split; [done|lia].
  - destruct (sc_ctx s) as [i|] eqn:Hc; [|split; [done|cbn [snd]; lia]].
    pose proof (switch_back_wf exit_hook) as Hsb. eapply wlp_mono; [apply Hsb|].
    + intros ex h pid y [= <-]. apply quiet_release.
    + done.
    + done.
    + intros [] y (? & _ & ? & _). split; [done|lia].
  - cbn. split; [|apply Z.le_refl]. refine (quiet_wf s _ _ Hwf). split; eauto 6.
  - cbn. split; [|apply Z.le_refl]. refine (quiet_wf s _ _ Hwf). split; eauto 6.
  - destruct (alive s) eqn:Ha; [|split; [done|cbn [snd]; lia]].
    pose proof (run_call_wf c s Hwf (λ _ _, Ha) Hlt) as Hrc. unfold wlp, on_sched in *.
    destruct (run_call c s) as [[[] s']|]; [|done]. destruct Hrc as [? Hn]. split; [done|].
    cbn [snd]. rewrite Hn. done.
Qed.

Lemma run_events_wf es x : sched_wf x.2 →
  sc_next_pid x.2 + Z.of_nat (sum_list_with spawns es) < 2^32 →
  wlp (for_each es run_event) (λ _ x', sched_wf x'.2) x.
Proof.
  revert x. induction es as [|e es IH]; intros x Hwf Hlt; [done|]. simpl in Hlt.
  apply wlp_bind. eapply wlp_mono; [apply run_event_wf; [done|lia]|].
  intros [] x' [Hwf' Hn]. apply IH; [done|]. lia.
Qed.

(** In every run of the kernel, as long as fewer than 2^32 - 1 tasks are
    created, no two tasks have the same process identifier, and only the task
    that has the CPU is running or a zombie: all others are ready or blocked,
    so a task never runs twice and none is left unreaped. *)
Theorem one_running_task es p k p' s :
  1 + Z.of_nat (sum_list_with spawns es) < 2^32 →
  for_each es run_event (p, Sched_init k) = Ret (tt, (p', s)) →
  (∀ i j t t', task_at s i t → task_at s j t' → t_pid t = t_pid t' → i = j) ∧
  (∀ i t, task_at s i t → t_state t = Running ∨ t_state t = Zombie →
     sc_ctx s = Some i ∧ t_pid t = current_pid s).
Proof.
  intros Hn Hrun.
  pose proof (wlp_run _ _ _ _ _ (run_events_wf es (p, Sched_init k) (Sched_init_wf k) Hn) Hrun) as [Hok Hc].
  cbn [snd] in *. split; [apply (so_unique _ _ Hok)|].
  intros i t Ht Hst. destruct (so_state _ _ Hok i t Ht) as [Hctx|[?|?]]; [|destruct Hst; congruence..].
  split; [done|]. unfold cur_ok in Hc. rewrite Hctx in Hc. destruct Hc as (t' & Ht' & Hp).
  unfold task_at in *. unfold current_pid. congruence.
Qed.

(** An exit status reaches the waiter.  In every reachable state with a
    running task, once the task has called [exit(code)] and given the CPU back,
    it is no longer in the run queue and [wait_pid] on it returns [code]
    without waiting. *)
Theorem exit_status_delivered es p k p1 s1 idx code p2 s2 :
  1 + Z.of_nat (sum_list_with spawns es) < 2^32 →
  for_each es run_event (p, Sched_init k) = Ret (tt, (p1, s1)) →
  sc_ctx s1 = Some idx → alive s1 = true →
  for_each [EvCall (CExit code); EvYield] run_event (p1, s1) = Ret (tt, (p2, s2)) →
  find_pid (current_pid s1) (sc_rq s2) = None ∧
  wait_pid_once (current_pid s1) s2 = Ret (Some (Some code), s2).
Proof.
  intros Hn Hrun Hctx Ha Hrun2.
  pose proof (wlp_run _ _ _ _ _ (run_events_wf es (p, Sched_init k) (Sched_init_wf k) Hn) Hrun) as Hwf.
  cbn [snd] in Hwf. pose proof (proj2 Hwf) as Hc. unfold cur_ok in Hc. rewrite Hctx in Hc.
  destruct Hc as (t & Ht & Hp).
  simpl in Hrun2. apply bind_Ret in Hrun2 as ([] & [p3 s3] & He & Hrun2).
  unfold run_event, st_of in He. cbn [snd] in He. rewrite Ha in He. cbn in He. injection He as -> <-.
  assert (sched_wf (exit code s1)) as Hwf3 by (by apply update_current_wf).
  assert (task_at (exit code s1) idx (with_exit_code code (with_state Zombie t))) as Ht3.
  { unfold exit, update_current. rewrite update_pid_idx, find_current_idx, Hctx by done.
    unfold task_at. cbn [sc_rq on_rq]. by rewrite (at_idx_lookup_task _ _ _ idx t), Nat.eqb_refl. }
  apply bind_Ret in Hrun2 as ([] & x4 & Hy & Hret). injection Hret as ->.
  unfold run_event, st_of in Hy. cbn [snd] in Hy.
  replace (sc_ctx (exit code s1)) with (Some idx) in Hy by done.
  assert (∀ ex h pid y, exit_hook = Some h → quiet ex y.2 (h pid y).2) as Hhook.
  { intros ex h pid y [= <-]. apply quiet_release. }
  pose proof (wlp_run _ _ _ _ _ (switch_back_wf exit_hook Hhook idx p3 _ Hwf3 Hctx) Hy) as (_ & _ & _ & Hz).
  destruct (Hz _ Ht3 eq_refl) as [Hcode Hgone]. cbn [snd t_pid with_exit_code with_state t_exit_code] in *.
  unfold current_pid. rewrite <- Hp. split.
  - unfold find_pid, find_first. unfold find_pid_idx in Hgone. by rewrite Hgone.
  - unfold wait_pid_once, mbind, st_bind, st_get. by rewrite Hgone, Hcode.
Qed.

(** Memory for two stacks. *)
Definition stacks_kmem : kmem :=
  mkKmem (mkBuddy (<[5%nat := Some 131072]> (replicate MAX_ORDER None)) 32 32) 0 (λ _, 0) 0.

Definition no_ports : PortTable := mkPortTable [] 0.

Lemma one_running_task_witness :
  ∃ p s, for_each [EvCall (CSpawn 4096); EvCall (CSpawn 8192); EvDispatch] run_event
      (no_ports, Sched_init stacks_kmem) = Ret (tt, (p, s)) ∧
    sc_ctx s = Some 0%nat ∧
    (∀ i t, task_at s i t → t_state t = Running ∨ t_state t = Zombie →
      sc_ctx s = Some i ∧ t_pid t = current_pid s).
Proof.
  eexists _, _. split; [vm_compute; reflexivity|]. split; [reflexivity|].
  eapply (one_running_task [EvCall (CSpawn 4096); EvCall (CSpawn 8192); EvDispatch] no_ports stacks_kmem);
    [reflexivity|vm_compute; reflexivity].
Defined.

Lemma exit_status_delivered_witness :
  ∃ p1 s1 p2 s2,
    for_each [EvCall (CSpawn 4096); EvDispatch] run_event (no_ports, Sched_init stacks_kmem)
      = Ret (tt, (p1, s1)) ∧
    for_each [EvCall (CExit 42); EvYield] run_event (p1, s1) = Ret (tt, (p2, s2)) ∧
    wait_pid_once (current_pid s1) s2 = Ret (Some (Some 42), s2).
Proof.
  eexists _, _, _, _. split; [vm_compute; reflexivity|]. split; [vm_compute; reflexivity|].
  eapply (exit_status_delivered [EvCall (CSpawn 4096); EvDispatch] no_ports stacks_kmem);
    [reflexivity|vm_compute; reflexivity..].
Defined.
