(* ===== verification/SysIpc.v ===== *)
(** * The IPC system calls (src/kernel/src/syscall.rs)

    [sys_send], [sys_recv] and [sys_call] on the port table and the scheduler.
    [sys_recv] is cut where it blocks: [sys_recv_resume] is what runs after the
    task was woken.  The theorem: no wake-up is lost. *)

From stdpp Require Import base list option numbers gmap.
From Stdlib Require Import ZArith Lia.
From S2P Require Import Prelude Words Buddy Memory Slab Paging Vmm IpcPort IpcSpec Task RunQueue Sched SchedInv SchedSpec.

Local Open Scope Z_scope.

Definition USER_SPACE_END : Z := 0x0000800000000000.

Definition validate_user_buf (ptr len : Z) : bool :=
  if ptr =? 0 then false
  else match checked_add ptr len with Some e => e <=? USER_SPACE_END | None => false end.

Definition validate_user_ptr_aligned (ptr size align : Z) : bool :=
  validate_user_buf ptr size && (Z.land ptr (align - 1) =? 0).

(** [size_of::<Message>()] *)
Definition MESSAGE_SIZE : Z := 88.

(** What a system call did: return a value, with the message it wrote to the
    caller's buffer, or block. *)
Inductive sysret :=
  | SRet (code : Z) (msg : option Message)
  | SBlocked.

Abbreviation ipc_state := (PortTable * Sched)%type.

(** [msg] is the message at [msg_ptr]. *)
Definition sys_send (port_id msg_ptr : Z) (msg : Message) : st ipc_state sysret :=
  if negb (validate_user_ptr_aligned msg_ptr MESSAGE_SIZE 8) then mret (SRet (-14) None)
  else
    r ← st_lift (send (u32 port_id) msg);
    mret (match r with
          | Ok _ => SRet 0 None
          | Err QueueFull => SRet (-11) None
          | Err PortNotFound => SRet (-9) None
          end).

(** One turn of the loop of [sys_recv]. *)
Definition sys_recv_loop (port caller : Z) : st ipc_state sysret :=
  r ← st_lift (λ '(t, s), let '(r, t') := recv_as port caller t in (r, (t', s)));
  match r with
  | Some msg => mret (SRet 0 (Some msg))
  | None =>
      own ← st_get (λ '(t, _), is_owner t port caller);
      if negb own then mret (SRet (-9) None)
      else st_modify (λ '(t, s), (t, sched_block_on_port port s)) ≫= λ _, mret SBlocked
  end.

Definition sys_recv (port_id msg_ptr : Z) : st ipc_state sysret :=
  if negb (validate_user_ptr_aligned msg_ptr MESSAGE_SIZE 8) then mret (SRet (-14) None)
  else
    caller ← st_get (λ '(_, s), current_pid s);
    own ← st_get (λ '(t, _), is_owner t (u32 port_id) caller);
    if negb own then mret (SRet (-13) None) else sys_recv_loop (u32 port_id) caller.

(** After [block_on] has returned. *)
Definition sys_recv_resume (port_id : Z) : st ipc_state sysret :=
  caller ← st_get (λ '(_, s), current_pid s);
  own ← st_get (λ '(t, _), is_owner t (u32 port_id) caller);
  if negb own then mret (SRet (-9) None) else sys_recv_loop (u32 port_id) caller.

(** The caller's reply port, created on the first call. *)
Definition call_reply_port : st ipc_state (option Z) :=
  rp ← st_get (λ '(_, s), current_reply_port s);
  if negb (rp =? U32_MAX) then mret (Some rp)
  else
    o ← st_lift (λ '(t, s), let '(r, t') := create (current_pid s) t in (r, (t', s)));
    match o with
    | Some p => st_modify (λ '(t, s), (t, set_current_reply_port p s)) ≫= λ _, mret (Some p)
    | None => mret None
    end.

Definition stamp_reply (port : Z) (m : Message) : Message := mkMessage (tag m) port (data m) (cap m).

Definition sys_call (port_id msg_ptr : Z) (msg : Message) : st ipc_state sysret :=
  if negb (validate_user_ptr_aligned msg_ptr MESSAGE_SIZE 8) then mret (SRet (-14) None)
  else
    rp ← call_reply_port;
    match rp with
    | None => mret (SRet (-12) None)
    | Some reply_port =>
        r ← st_lift (send (u32 port_id) (stamp_reply reply_port msg));
        match r with
        | Ok _ => sys_recv reply_port msg_ptr
        | Err QueueFull => mret (SRet (-11) None)
        | Err PortNotFound => mret (SRet (-9) None)
        end
    end.

(** ** Runs of the kernel with IPC *)

(** Calls of the scheduler other than blocking on a port, which only
    [sys_recv] does. *)
Definition not_block (e : event) : bool :=
  match e with EvCall (CBlock _) => false | _ => true end.

Inductive kevent :=
  | KSched (e : event)
  | KPort (o : op)
  | KSend (port ptr : Z) (msg : Message)
  | KRecv (port ptr : Z)
  | KResume (port : Z)
  | KCall (port ptr : Z) (msg : Message).

Definition run_kevent (e : kevent) : st ipc_state unit :=
  match e with
  | KSched e => if not_block e then run_event e else mret tt
  | KPort o => st_unit (st_lift (impl_step o))
  | KSend port ptr msg => st_unit (sys_send port ptr msg)
  | KRecv port ptr => st_unit (sys_recv port ptr)
  | KResume port => st_unit (sys_recv_resume port)
  | KCall port ptr msg => st_unit (sys_call port ptr msg)
  end.

(** The ports an event may create. *)
Definition kcreates (e : kevent) : nat :=
  match e with KPort o => creates o | KCall _ _ _ => 1 | _ => 0 end.

(** ** Tasks that stay blocked *)

(** Every task that is blocked after the step was blocked on the same port
    before. *)
Definition calm (s s' : Sched) : Prop := ∀ i t', task_at s' i t' → t_state t' = Blocked →
  ∃ j t, task_at s j t ∧ t_state t = Blocked ∧ t_blocked_on t' = t_blocked_on t.

Definition calm_fun (f : Task → Task) : Prop := ∀ t, t_state (f t) = Blocked →
  t_state t = Blocked ∧ t_blocked_on (f t) = t_blocked_on t.

#[export] Instance calm_refl : Reflexive calm.
Proof. intros s i t Ht Hb. eauto. Qed.

#[export] Instance calm_trans : Transitive calm.
Proof.
  intros s1 s2 s3 H12 H23 i t3 H3 Hb3. destruct (H23 i t3 H3 Hb3) as (j & t2 & H2 & Hb2 & He2).
  destruct (H12 j t2 H2 Hb2) as (k & t1 & H1 & Hb1 & He1). exists k, t1. split_and!; [done..|congruence].
Qed.

Lemma calm_same_tasks s s' : tasks (sc_rq s') = tasks (sc_rq s) → calm s s'.
Proof. intros He i t Ht Hb. exists i, t. unfold task_at in *. rewrite <- He. auto. Qed.

Lemma calm_at_idx idx f s : calm_fun f → calm s (on_rq (at_idx idx f) s).
Proof.
  intros Hf i t' Ht' Hb. apply at_idx_lookup in Ht' as (o & Ho & Heq).
  destruct (Nat.eqb_spec i idx) as [->|Hne].
  - destruct o as [t|]; [|done]. injection Heq as ->. destruct (Hf t Hb). eauto.
  - subst o. eauto.
Qed.

Lemma calm_update_pid pid f s : calm_fun f → calm s (update_pid pid f s).
Proof.
  intros Hf. rewrite update_pid_idx. destruct (find_pid_idx _ _); [by apply calm_at_idx|done].
Qed.

Lemma calm_unblock port s : calm s (sched_unblock_port port s) ∧
  ∀ i t, task_at (sched_unblock_port port s) i t → t_state t = Blocked → t_blocked_on t ≠ Some port.
Proof.
  assert (∀ i t', task_at (sched_unblock_port port s) i t' → ∃ t, task_at s i t ∧ t' = wake port t) as Hat.
  { intros i t' Ht. unfold task_at in *. simpl in Ht. rewrite list_lookup_fmap in Ht.
    destruct (tasks (sc_rq s) !! i) as [[t|]|]; simplify_eq/=. eauto. }
  split.
  - intros i t' (t & Ht & ->)%Hat Hb. exists i, t. unfold wake in *. destruct (waits_on port t); [done|auto].
  - intros i t' (t & Ht & ->)%Hat Hb Hp. unfold wake, waits_on in *.
    destruct (bool_decide_reflect (t_blocked_on t = Some port)), (bool_decide_reflect (t_state t = Blocked));
      simpl in *; congruence.
Qed.

Lemma calm_enqueue task s b rq' : enqueue task (sc_rq s) = (b, rq') → t_state task = Ready →
  calm s (on_rq (λ _, rq') s).
Proof.
  intros He Hr i t Ht Hb. destruct (enqueue_at _ _ _ _ i t He Ht) as [Hi|[-> _]]; [eauto|congruence].
Qed.

Lemma calm_remove idx s o rq' : remove idx (sc_rq s) = Ret (o, rq') → calm s (on_rq (λ _, rq') s).
Proof.
  intros Hr i t Ht Hb. exists i, t. split; [|done]. unfold remove in Hr. unfold task_at in *. simpl in Ht.
  destruct (tasks (sc_rq s) !! idx) as [[t0|]|] eqn:Hi; simplify_eq; [|done]. simpl in Ht.
  apply list_lookup_insert_Some in Ht as [(_ & ? & _)|[_ ?]]; done.
Qed.

(** Computations all of whose results are calm. *)
Definition is_calm {A} (c : st Sched A) : Prop := ∀ s, wlp c (λ _, calm s) s.

Lemma is_calm_bind {A B} (c : st Sched A) (f : A → st Sched B) :
  is_calm c → (∀ a, is_calm (f a)) → is_calm (c ≫= f).
Proof.
  intros Hc Hf s. apply wlp_bind. eapply wlp_mono; [apply Hc|]. intros a s1 H1. cbn beta.
  eapply wlp_mono; [apply Hf|]. intros b s2 H2. exact (transitivity H1 H2).
Qed.

Lemma is_calm_ret {A} (a : A) : is_calm (mret a).
Proof. intros s. exact (reflexivity s). Qed.

Lemma is_calm_get {A} (f : Sched → A) : is_calm (st_get f).
Proof. intros s. exact (reflexivity s). Qed.

Lemma is_calm_kmem {A} (c : st kmem A) : is_calm (with_kmem c).
Proof.
  intros s. unfold wlp, with_kmem. destruct (c (sc_kmem s)) as [[a k]|]; [|done]. by apply calm_same_tasks.
Qed.

Lemma is_calm_current f : calm_fun f → is_calm (st_modify (update_current f)).
Proof. intros Hf s. by apply calm_update_pid. Qed.

Lemma is_calm_lift {A} (f : Sched → A * Sched) : (∀ s, calm s (f s).2) → is_calm (st_lift f).
Proof. intros Hf s. unfold wlp, st_lift. specialize (Hf s). by destruct (f s). Qed.

Lemma is_calm_enqueue task stack order : t_state task = Ready → is_calm (enqueue_or_free task stack order).
Proof.
  intros Hr. apply is_calm_bind.
  - apply is_calm_lift. intros s. destruct (enqueue task (sc_rq s)) as [b rq'] eqn:He. by eapply calm_enqueue.
  - intros []; [apply is_calm_ret|]. repeat (apply is_calm_bind; [apply is_calm_kmem|intros []]). apply is_calm_ret.
Qed.

Lemma is_calm_remove idx : is_calm (remove_task idx).
Proof.
  intros s. unfold wlp, remove_task. destruct (remove idx (sc_rq s)) as [[o rq']|] eqn:Hr; [|done].
  pose proof (calm_remove _ _ _ _ Hr) as Hc. destruct o as [t|]; [|done].
  unfold mbind, st_bind, with_kmem. destruct (drop_task t _) as [[[] k]|]; [|done]. cbn.
  etrans; [exact Hc|by apply calm_same_tasks].
Qed.

#[export] Hint Resolve is_calm_ret is_calm_get is_calm_kmem is_calm_enqueue is_calm_remove : cyanos.

Lemma wake_blocked_calm b : calm_fun (λ t, wake_blocked (with_signal_pending (b t) t)).
Proof. intros t. unfold wake_blocked. by destruct (bool_decide_reflect (t_state (with_signal_pending (b t) t) = Blocked)). Qed.

Lemma run_call_calm c : not_block (EvCall c) = true → is_calm (run_call c).
Proof.
  intros Hb. destruct c; try done; unfold run_call, st_unit;
    try (apply is_calm_bind; [|intros; apply is_calm_ret]).
  - apply is_calm_bind; [apply is_calm_lift; intros s; by apply calm_same_tasks|intros pid].
    apply is_calm_bind; [auto with cyanos|]. intros [b|]; auto with cyanos.
  - apply is_calm_bind; [apply is_calm_lift; intros s; by apply calm_same_tasks|intros pid].
    apply is_calm_bind; [auto with cyanos|]. intros [b|].
    + intros s. apply wlp_bind. unfold wlp at 1, st_get. apply wlp_bind. unfold with_kmem, wlp at 1.
      unfold new_userspace, mbind, st_bind, CpuContext_new_user_task, st_modify, mret, st_ret.
      eapply wlp_mono; [by apply is_calm_enqueue|]. intros o s2 H2. etrans; [|exact H2]. by apply calm_same_tasks.
    + apply is_calm_bind; auto with cyanos.
  - by apply is_calm_current.
  - intros s. apply calm_unblock.
  - apply is_calm_lift. intros s. unfold deliver_signal. destruct (find_pid _ _); [|done].
    destruct (_ && _); [|done]. apply calm_update_pid, wake_blocked_calm.
  - intros s. unfold wlp, st_modify, clear_pending_signal. destruct (_ && _); [|done]. by apply calm_update_pid.
  - apply is_calm_lift. intros s. unfold replace_signal_mask. destruct (current_task s); [|done].
    by apply calm_update_pid.
  - by apply is_calm_current.
  - apply is_calm_lift. intros s. unfold set_cwd. destruct (current_task s); [|done]. by apply calm_update_pid.
  - apply is_calm_lift. intros s. unfold set_pgid. destruct (find_pid _ _); [|done]. by apply calm_update_pid.
  - apply is_calm_lift. intros s. unfold setsid. destruct (current_task s); [|done]. by apply calm_update_pid.
  - apply is_calm_lift. intros s. unfold umask. destruct (current_task s); [|done].
    destruct (_ =? _); [done|]. by apply calm_update_pid.
  - by apply is_calm_current.
  - by apply is_calm_current.
  - apply is_calm_bind; [auto with cyanos|]. intros pid. destruct (_ =? 0); [auto with cyanos|].
    apply is_calm_bind; [|auto with cyanos]. intros s. unfold wlp, with_current_address_space_mut.
    destruct (mbind _ _) as [a|]; [|done]. destruct (handle_user_page_fault _ _) as [[r [k a']]|]; [|done].
    etrans; [by apply (calm_update_pid (sc_cur s) (with_address_space (Some a')))|by apply calm_same_tasks].
  - apply is_calm_bind; [auto with cyanos|]. intros [t|]; [|auto with cyanos].
    apply is_calm_bind; [auto with cyanos|]. intros []. by apply is_calm_current.
  - apply is_calm_bind; [auto with cyanos|]. intros [idx|].
    + apply is_calm_bind; [auto with cyanos|]. intros [t|]; [|auto with cyanos].
      destruct (bool_decide _); [|auto with cyanos]. apply is_calm_bind; auto with cyanos.
    + apply is_calm_bind; auto with cyanos.
Qed.

(** ** No wake-up is lost *)

(** A port that a task sleeps on holds no message. *)
Definition no_lost (m : PortMap) (s : Sched) : Prop := ∀ i t p o q, task_at s i t →
  t_state t = Blocked → t_blocked_on t = Some p → m !! p = Some (o, q) → q = [].

Lemma no_lost_calm m s s' : calm s s' → no_lost m s → no_lost m s'.
Proof.
  intros Hc Hn i t' p o q Ht' Hb' Hp. destruct (Hc i t' Ht' Hb') as (j & t & Ht & Hb & He).
  apply (Hn j t); congruence.
Qed.

(** Messages appear in a port only by a successful [send]. *)
Lemma spec_step_queues m op r m' p o q : spec_step m op r m' → m' !! p = Some (o, q) →
  q = [] ∨ (∃ msg, op = OSend p msg ∧ r = RSend (Ok tt)) ∨
  ∃ o0 q0, m !! p = Some (o0, q0) ∧ (q0 = [] → q = []).
Proof.
  intros Hs Hp.
  assert (m !! p = Some (o, q) → q = [] ∨ (∃ msg, op = OSend p msg ∧ r = RSend (Ok tt)) ∨
    ∃ o0 q0, m !! p = Some (o0, q0) ∧ (q0 = [] → q = [])) as Hsame by eauto 6.
  destruct Hs as [pid port|port|port msg o1 q1 Hm|port msg o1 q1|port msg|port o1 q1 Hm|port
    |port caller q1 Hm|port caller|pid]; try (by apply Hsame).
  - apply lookup_insert_Some in Hp as [[_ ?]|[_ ?]]; [left; congruence|by apply Hsame].
  - apply lookup_delete_Some in Hp as [_ Hp]. by apply Hsame.
  - apply lookup_insert_Some in Hp as [[-> _]|[_ ?]]; [|by apply Hsame]. right. left. eauto.
  - apply lookup_insert_Some in Hp as [[-> [= <- <-]]|[_ ?]]; [|by apply Hsame].
    right. right. exists o1, q1. split; [done|]. by intros ->.
  - apply lookup_insert_Some in Hp as [[-> [= <- <-]]|[_ ?]]; [|by apply Hsame].
    right. right. exists caller, q1. split; [done|]. by intros ->.
  - apply map_lookup_filter_Some in Hp as [Hp _]. by apply Hsame.
Qed.

Lemma impl_step_calm o t s r t' s' : impl_step o (t, s) = (r, (t', s')) → calm s s' ∧
  (∀ port msg, o = OSend port msg → r = RSend (Ok tt) →
     ∀ i t, task_at s' i t → t_state t = Blocked → t_blocked_on t ≠ Some port).
Proof.
  destruct o as [pid|port|port msg|port|port c|pid]; simpl.
  - destruct (create pid t). intros [= _ _ <-]. split; [done|]. done.
  - intros [= _ _ <-]. split; [done|]. done.
  - destruct (find_mut t port) as [idx|]; [|intros [= <- _ <-]; split; [done|naive_solver]].
    destruct (with_bucket _ _ _ _) as [[] t1]; intros [= <- _ <-]; [|split; [done|naive_solver]].
    destruct (calm_unblock port s) as [Hc Hno]. split; [exact Hc|]. intros port' msg' [= <- _] _. exact Hno.
  - destruct (recv port t). intros [= _ _ <-]. split; [done|]. done.
  - destruct (recv_as port c t). intros [= _ _ <-]. split; [done|]. done.
  - destruct (release_buckets _ _ _) as [bs closed]. intros [= _ _ <-]. split; [|done].
    revert s. induction closed as [|p closed IH]; intros s; simpl; [done|].
    etrans; [apply (calm_unblock p s)|apply IH].
Qed.

(** The composed state: the port table implements a port map after at most [n]
    creations, and no wake-up is lost. *)
Definition ipc_inv (n : nat) (x : ipc_state) : Prop :=
  ∃ m k, (k ≤ n)%nat ∧ hist x.1 m k ∧ no_lost m x.2.

Lemma ipc_inv_calm n t s s' : calm s s' → ipc_inv n (t, s) → ipc_inv n (t, s').
Proof. intros Hc (m & k & Hk & Hh & Hn). exists m, k. split_and!; [done..|]. by eapply no_lost_calm. Qed.

Lemma impl_step_inv o n t s r t' s' : (n + creates o ≤ LIVE_BUCKETS)%nat →
  impl_step o (t, s) = (r, (t', s')) → ∀ m k, (k ≤ n)%nat → hist t m k → no_lost m s →
  ∃ m', spec_step m o r m' ∧ hist t' m' (k + creates o) ∧ no_lost m' s'.
Proof.
  intros Hle Hi m k Hk Hh Hn.
  destruct (hist_step o t s m k r t' s' Hh ltac:(lia) Hi) as (m' & Hs & Hh').
  exists m'. split_and!; [done..|]. destruct (impl_step_calm _ _ _ _ _ _ Hi) as [Hc Hno].
  intros i task p own q Ht Hb Hp Hm. destruct (spec_step_queues _ _ _ _ _ _ _ Hs Hm)
    as [?|[(msg & -> & ->)|(o0 & q0 & Hm0 & Hq)]]; [done| |].
  - by destruct (Hno p msg eq_refl eq_refl i task Ht Hb).
  - apply Hq. by eapply (no_lost_calm m s s').
Qed.

(** Computations on the composed state that keep the invariant, with [d] more
    creations allowed. *)
Definition keeps_inv {A} (d : nat) (c : st ipc_state A) : Prop := ∀ n x,
  (n + d ≤ LIVE_BUCKETS)%nat → ipc_inv n x → wlp c (λ _, ipc_inv (n + d)) x.

Lemma keeps_ret {A} (a : A) : keeps_inv 0 (mret a).
Proof. intros n x _ Hx. unfold wlp. simpl. by rewrite Nat.add_0_r. Qed.

Lemma keeps_get {A} (f : ipc_state → A) : keeps_inv 0 (st_get f).
Proof. intros n x _ Hx. unfold wlp. simpl. by rewrite Nat.add_0_r. Qed.

Lemma keeps_bind {A B} d e (c : st ipc_state A) (f : A → st ipc_state B) :
  keeps_inv d c → (∀ a, keeps_inv e (f a)) → keeps_inv (d + e) (c ≫= f).
Proof.
  intros Hc Hf n x Hle Hx. apply wlp_bind. eapply wlp_mono; [apply (Hc n x); [lia|done]|].
  intros a x1 Hx1. cbn beta. rewrite Nat.add_assoc. apply Hf; [lia|done].
Qed.

Lemma keeps_more {A} d e (c : st ipc_state A) : keeps_inv d c → (d ≤ e)%nat → keeps_inv e c.
Proof.
  intros Hc Hle n x Hn Hx. eapply wlp_mono; [apply (Hc n x); [lia|done]|].
  intros a x' (m & k & Hk & Hh & Hl). exists m, k. split_and!; [lia|done|done].
Qed.

Lemma keeps_sched {A} (c : st Sched A) : is_calm c → keeps_inv 0 (on_sched c).
Proof.
  intros Hc n [t s] _ Hx. rewrite Nat.add_0_r. specialize (Hc s). unfold wlp, on_sched in *.
  destruct (c s) as [[a s']|]; [|done]. by eapply ipc_inv_calm.
Qed.

Lemma keeps_op o : keeps_inv (creates o) (st_lift (impl_step (S:=Sched) o)).
Proof.
  intros n [t s] Hle (m & k & Hk & Hh & Hn). unfold wlp, st_lift.
  destruct (impl_step o (t, s)) as [r [t' s']] eqn:Hi.
  destruct (impl_step_inv _ _ _ _ _ _ _ Hle Hi m k Hk Hh Hn) as (m' & _ & Hh' & Hn').
  exists m', (k + creates o)%nat. split_and!; [lia|done|done].
Qed.

Lemma keeps_modify (f : ipc_state → ipc_state) : (∀ x, (f x).1 = x.1 ∧ calm x.2 (f x).2) →
  keeps_inv 0 (st_modify f).
Proof.
  intros Hf n [t s] _ Hx. rewrite Nat.add_0_r. unfold wlp, st_modify. specialize (Hf (t, s)) as [H1 H2].
  destruct (f (t, s)) as [t' s']. simpl in *. subst t'. by eapply ipc_inv_calm.
Qed.

#[export] Hint Resolve keeps_ret keeps_get keeps_sched keeps_op : cyanos.

Lemma keeps_bind0 {A B} (c : st ipc_state A) (f : A → st ipc_state B) :
  keeps_inv 0 c → (∀ a, keeps_inv 0 (f a)) → keeps_inv 0 (c ≫= f).
Proof. apply (keeps_bind 0 0). Qed.

Lemma stop_running_calm : calm_fun stop_running.
Proof. intros t. unfold stop_running. by destruct (bool_decide _). Qed.

Lemma switch_back_keeps idx : keeps_inv 0 (switch_back exit_hook idx).
Proof.
  apply keeps_bind0.
  - apply keeps_sched. intros s. unfold wlp, st_modify.
    etrans; [|apply calm_at_idx, stop_running_calm]. by apply calm_same_tasks.
  - intros []. apply keeps_bind0; [apply keeps_sched, is_calm_get|].
    intros [[[stack pid] code]|]; [|apply keeps_ret]. apply keeps_bind0.
    + pose proof (keeps_op (ORelease pid)) as Ho. intros n x Hn Hx. specialize (Ho n x Hn Hx). exact Ho.
    + intros []. apply keeps_bind0; [auto with cyanos|intros _].
      apply keeps_bind0; [auto with cyanos|intros []].
      apply keeps_sched. intros s. by apply calm_same_tasks.
Qed.

Lemma run_event_keeps e : not_block e = true → keeps_inv 0 (run_event e).
Proof.
  intros Hb n x Hn Hx. unfold run_event, st_of, wlp.
  assert (ipc_inv (n + 0) x) as Hx0 by (by rewrite Nat.add_0_r).
  assert (∀ A (c : st Sched A), is_calm c → wlp (on_sched c) (λ _, ipc_inv (n + 0)) x) as Hsched.
  { intros A c Hc. by apply keeps_sched. }
  destruct e as [| | | |c]; [destruct (sc_ctx x.2) as [i|]; [done|]|destruct (sc_ctx x.2) as [i|]; [|done]|..].
  - apply Hsched. apply is_calm_bind; [|intros; apply is_calm_ret]. apply is_calm_lift. intros s.
    unfold dispatch. destruct (pick_next (sc_rq s)) as [o rq'] eqn:Hp.
    assert (tasks rq' = tasks (sc_rq s)) as Ht.
    { unfold pick_next in Hp. repeat case_match; by simplify_eq. }
    assert (∀ p c', calm s (set_current p c' (on_rq (λ _, rq') s))) as Hc by (intros; by apply calm_same_tasks).
    destruct o as [idx|]; [|by apply calm_same_tasks].
    destruct (tasks rq' !! idx) as [[t|]|]; [|by apply calm_same_tasks..].
    etrans; [apply (Hc (t_pid t) (Some idx))|]. by apply calm_at_idx.
  - by apply switch_back_keeps.
  - apply Hsched. intros s. by apply calm_same_tasks.
  - apply Hsched. apply is_calm_bind; [|intros; apply is_calm_ret]. apply is_calm_lift.
    intros s. by apply calm_same_tasks.
  - destruct (alive x.2); [|done]. apply Hsched. by apply run_call_calm.
Qed.

(** *** The system calls *)

Lemma block_tasks port s i t' : task_at (sched_block_on_port port s) i t' →
  t_blocked_on t' = Some port ∨ task_at s i t'.
Proof.
  rewrite block_update. unfold update_current. rewrite update_pid_idx.
  destruct (find_pid_idx _ _) as [idx|]; [|by right].
  intros (o & Ho & Heq)%at_idx_lookup. destruct (Nat.eqb_spec i idx) as [->|Hne].
  - destruct o as [t|]; [|done]. injection Heq as ->. by left.
  - subst o. by right.
Qed.

Lemma recv_loop_keeps port caller : keeps_inv 0 (sys_recv_loop port caller).
Proof.
  intros n [t s] Hn (m & k & Hk & Hh & Hl). unfold sys_recv_loop. apply wlp_bind. unfold wlp at 1, st_lift.
  destruct (recv_as port caller t) as [r t'] eqn:Hr.
  assert (impl_step (ORecvAs port caller) (t, s) = (RMsg r, (t', s))) as Hi by (simpl; by rewrite Hr).
  destruct (impl_step_inv (ORecvAs port caller) n _ _ _ _ _ Hn Hi m k Hk Hh Hl) as (m' & Hs & Hh' & Hl').
  change (creates (ORecvAs port caller)) with 0%nat in Hh'.
  assert (ipc_inv (n + 0) (t', s)) as Hx by (exists m', (k + 0)%nat; split_and!; [lia|done|done]).
  destruct r as [msg|]; [done|]. apply wlp_bind. unfold wlp at 1, st_get.
  destruct (is_owner t' port caller) eqn:How; [|done]. cbn [negb].
  exists m', (k + 0)%nat. split_and!; [lia|done|].
  intros i task p o q Ht Hb Hp Hm. destruct (block_tasks port s i task Ht) as [He|Ht']; [|by eapply Hl'].
  rewrite Hp in He. injection He as ->.
  apply (is_owner_refines t' m') in How as [q' Hq']; [|by apply (h_refines _ _ _ Hh')].
  rewrite Hq' in Hm. injection Hm as <- ->. inversion Hs; simplify_eq.
  - rewrite lookup_insert_eq in Hq'. injection Hq' as <-. by destruct q0.
  - naive_solver.
Qed.

Lemma recv_keeps port ptr : keeps_inv 0 (sys_recv port ptr).
Proof.
  unfold sys_recv. destruct (negb _); [auto with cyanos|].
  apply keeps_bind0; [auto with cyanos|]. intros caller. apply keeps_bind0; [auto with cyanos|].
  intros []; [apply recv_loop_keeps|apply keeps_ret].
Qed.

Lemma send_keeps port msg : keeps_inv 0 (st_lift (send (S:=Sched) port msg)).
Proof.
  intros n x Hn Hx. pose proof (keeps_op (OSend port msg) n x Hn Hx) as Ho.
  unfold wlp, st_lift in *. simpl in Ho. by destruct (send port msg x).
Qed.

Lemma reply_port_keeps : keeps_inv 1 call_reply_port.
Proof.
  apply (keeps_bind 0 1); [auto with cyanos|]. intros rp. destruct (negb _).
  - apply (keeps_more 0); [auto with cyanos|lia].
  - apply (keeps_bind 1 0).
    + intros n [t s] Hn Hx. pose proof (keeps_op (OCreate (current_pid s)) n (t, s) Hn Hx) as Ho.
      unfold wlp, st_lift in *. simpl in Ho. by destruct (create (current_pid s) t).
    + intros [p|]; [|auto with cyanos]. apply keeps_bind0; [|auto with cyanos].
      apply keeps_modify. intros [t s]. split; [done|]. by apply calm_update_pid.
Qed.

Lemma run_kevent_keeps e : keeps_inv (kcreates e) (run_kevent e).
Proof.
  destruct e as [e|o|port ptr msg|port ptr|port|port ptr msg]; simpl.
  - destruct (not_block e) eqn:Hb; [by apply run_event_keeps|auto with cyanos].
  - rewrite <- (Nat.add_0_r (creates o)). apply keeps_bind; auto with cyanos.
  - apply keeps_bind0; [|auto with cyanos]. unfold sys_send. destruct (negb _); [auto with cyanos|].
    apply keeps_bind0; [apply send_keeps|auto with cyanos].
  - apply keeps_bind0; [apply recv_keeps|auto with cyanos].
  - apply keeps_bind0; [|auto with cyanos]. apply keeps_bind0; [auto with cyanos|].
    intros caller. apply keeps_bind0; [auto with cyanos|]. intros []; [apply recv_loop_keeps|apply keeps_ret].
  - apply (keeps_bind 1 0); [|auto with cyanos]. unfold sys_call. destruct (negb _).
    { apply (keeps_more 0); [auto with cyanos|lia]. }
    apply (keeps_bind 1 0); [apply reply_port_keeps|]. intros [rp|]; [|auto with cyanos].
    apply keeps_bind0; [apply send_keeps|]. intros [[]|[]]; [apply recv_keeps|auto with cyanos..].
Qed.

Lemma run_kevents_keep es : keeps_inv (sum_list_with kcreates es) (for_each es run_kevent).
Proof.
  induction es as [|e es IH]; simpl; [auto with cyanos|]. apply keeps_bind; [apply run_kevent_keeps|done].
Qed.


Definition sleeping_on (port : Z) (o : option (option Task)) : bool :=
  match o with Some (Some t) => waits_on port t | _ => false end.

