(* ===== verification/Futex.v ===== *)
(** * Futexes (src/sched/src/futex.rs)

    The table of waiters and the scheduler.  [futex_wait] is cut where it
    switches to the scheduler: [futex_wait_begin] and [futex_wait_end]. *)

From stdpp Require Import base list option numbers sets.
From Stdlib Require Import ZArith Lia.
From S2P Require Import Prelude Words Buddy Memory Slab Paging Vmm IpcPort Task RunQueue Sched SchedInv.

Local Open Scope Z_scope.

Record FutexWaiter := mkWaiter { w_pid : Z; w_uaddr : Z }.

Definition MAX_FUTEX_WAITERS : nat := 256.

Abbreviation FutexTable := (list (option FutexWaiter)).

Definition FutexTable_init : FutexTable := replicate MAX_FUTEX_WAITERS None.

Definition slot_empty (o : option FutexWaiter) : bool := match o with None => true | Some _ => false end.

Definition register (pid uaddr : Z) (tbl : FutexTable) : FutexTable :=
  match position slot_empty tbl with
  | Some i => <[i := Some (mkWaiter pid uaddr)]> tbl
  | None => tbl
  end.

(** Up to the switch to the scheduler. *)
Definition futex_wait_begin (uaddr : Z) (x : FutexTable * Sched) : FutexTable * Sched :=
  let '(tbl, s) := x in
  (register (current_pid s) uaddr tbl,
   update_current (λ t, with_blocked_futex uaddr (with_state Blocked t)) s).

Definition waiter_of (pid : Z) (o : option FutexWaiter) : bool :=
  match o with Some w => w_pid w =? pid | None => false end.

(** After the task was woken. *)
Definition futex_wait_end (x : FutexTable * Sched) : Z * (FutexTable * Sched) :=
  let '(tbl, s) := x in
  let tbl := match position (waiter_of (current_pid s)) tbl with
             | Some i => <[i := None]> tbl
             | None => tbl
             end in
  (0, (tbl, update_current (with_blocked_futex 0) s)).

(** The loop over the table: the identifiers collected so far are [count]. *)
Fixpoint collect (uaddr n : Z) (count : nat) (tbl : FutexTable) : list Z * FutexTable :=
  match tbl with
  | [] => ([], [])
  | slot :: tbl' =>
      if n <=? Z.of_nat count then ([], tbl)
      else match slot with
           | Some w =>
               if (w_uaddr w =? uaddr) && (count <? 32)%nat then
                 let '(pids, rest) := collect uaddr n (count + 1) tbl' in
                 (w_pid w :: pids, None :: rest)
               else let '(pids, rest) := collect uaddr n count tbl' in (pids, slot :: rest)
           | None => let '(pids, rest) := collect uaddr n count tbl' in (pids, slot :: rest)
           end
  end.

Definition wake_waiter (t : Task) : Task := with_blocked_futex 0 (with_state Ready t).

(** The loop over the collected identifiers. *)
Fixpoint wake_pids (pids : list Z) (woken : Z) (s : Sched) : Z * Sched :=
  match pids with
  | [] => (woken, s)
  | pid :: pids' =>
      match find_pid pid (sc_rq s) with
      | Some t =>
          if bool_decide (t_state t = Blocked)
          then wake_pids pids' (woken + 1) (update_pid pid wake_waiter s)
          else wake_pids pids' woken s
      | None => wake_pids pids' woken s
      end
  end.

Definition futex_wake (uaddr n : Z) (x : FutexTable * Sched) : Z * (FutexTable * Sched) :=
  let '(tbl, s) := x in
  let '(pids, tbl') := collect uaddr n 0 tbl in
  let '(woken, s') := wake_pids pids 0 s in
  (woken, (tbl', s')).

(** ** The waiters of an address *)

Definition waits_at (uaddr : Z) (o : option FutexWaiter) : option Z :=
  match o with Some w => if w_uaddr w =? uaddr then Some (w_pid w) else None | None => None end.

(** Their identifiers, in the order of the table. *)
Definition waiters (uaddr : Z) (tbl : FutexTable) : list Z := omap (waits_at uaddr) tbl.

#[local] Arguments waiters : simpl never.

(** How many waiters [futex_wake] takes. *)
Definition wake_limit (n : Z) (count : nat) : nat := Nat.min (Z.to_nat n) 32 - count.

Lemma waiters_nil u : waiters u [] = [].
Proof. done. Qed.

Lemma waiters_cons u o tbl : waiters u (o :: tbl) =
  match waits_at u o with Some p => p :: waiters u tbl | None => waiters u tbl end.
Proof. done. Qed.

Lemma collect_spec uaddr n count tbl pids tbl' : (count ≤ 32)%nat →
  collect uaddr n count tbl = (pids, tbl') →
  pids = take (wake_limit n count) (waiters uaddr tbl) ∧
  waiters uaddr tbl' = drop (wake_limit n count) (waiters uaddr tbl) ∧
  ∀ u, u ≠ uaddr → waiters u tbl' = waiters u tbl.
Proof.
  revert count pids tbl'. induction tbl as [|slot tbl IH]; intros count pids tbl' Hc; simpl.
  { intros [= <- <-]. rewrite !waiters_nil. by rewrite take_nil, drop_nil. }
  destruct (Z.leb_spec n (Z.of_nat count)) as [Hle|Hlt].
  { intros [= <- <-]. replace (wake_limit n count) with 0%nat by (unfold wake_limit; lia).
    by rewrite take_0, drop_0. }
  assert (∀ count', (count' ≤ 32)%nat → ∃ p r, collect uaddr n count' tbl = (p, r) ∧
    p = take (wake_limit n count') (waiters uaddr tbl) ∧
    waiters uaddr r = drop (wake_limit n count') (waiters uaddr tbl) ∧
    ∀ u, u ≠ uaddr → waiters u r = waiters u tbl) as Hrec.
  { intros count' Hc'. destruct (collect uaddr n count' tbl) as [p r] eqn:Hcol. exists p, r.
    by destruct (IH _ _ _ Hc' Hcol). }
  destruct slot as [[p u]|]; simpl.
  - destruct (Z.eqb_spec u uaddr) as [->|Hne]; simpl.
    + destruct (Nat.ltb_spec count 32).
      * destruct (Hrec (count + 1)%nat ltac:(lia)) as (ps & r & -> & -> & Hr & Ho). intros [= <- <-].
        replace (wake_limit n count) with (S (wake_limit n (count + 1))) by (unfold wake_limit; lia).
        rewrite !waiters_cons. simpl. rewrite Z.eqb_refl. split_and!; [done|done|].
        intros u Hu. rewrite !waiters_cons. simpl. rewrite (proj2 (Z.eqb_neq uaddr u)) by done. by apply Ho.
      * destruct (Hrec count ltac:(lia)) as (ps & r & -> & -> & Hr & Ho). intros [= <- <-].
        replace (wake_limit n count) with 0%nat in * by (unfold wake_limit; lia).
        rewrite !waiters_cons. simpl. rewrite Z.eqb_refl, Hr, drop_0. split_and!; [done|done|].
        intros u Hu. rewrite !waiters_cons. simpl. rewrite (proj2 (Z.eqb_neq uaddr u)) by done. by apply Ho.
    + destruct (Hrec count ltac:(lia)) as (ps & r & -> & -> & Hr & Ho). intros [= <- <-].
      rewrite !waiters_cons. simpl. rewrite (proj2 (Z.eqb_neq u uaddr)) by done. split_and!; [done|done|].
      intros u' Hu. rewrite !waiters_cons. simpl. rewrite Ho by done. done.
  - destruct (Hrec count ltac:(lia)) as (ps & r & -> & -> & Hr & Ho). intros [= <- <-].
    rewrite !waiters_cons. done.
Qed.

(** ** Waking the waiters *)

Lemma find_pid_task ex s pid t : sched_ok ex s →
  find_pid pid (sc_rq s) = Some t ↔ ∃ i, task_at s i t ∧ t_pid t = pid.
Proof.
  intros Hok. unfold find_pid, find_first. fold (find_pid_idx pid (sc_rq s)). split.
  - destruct (find_pid_idx pid (sc_rq s)) as [i|] eqn:Hi; [|done]. simpl.
    apply find_pid_idx_Some in Hi as (t' & Ht' & Hp). rewrite Ht'. simpl. intros [= <-]. by exists i.
  - intros (i & Ht & Hp). destruct (find_pid_idx pid (sc_rq s)) as [j|] eqn:Hj.
    + apply find_pid_idx_Some in Hj as (t' & Ht' & Hp').
      assert (j = i) as -> by (eapply (so_unique _ _ Hok); [done..|congruence]).
      simpl. unfold task_at in Ht. rewrite Ht. done.
    + pose proof (proj1 (position_None _ _) Hj i _ Ht) as Hno. simpl in Hno. lia.
Qed.

Lemma find_pid_same ex s pid i t t0 : sched_ok ex s → task_at s i t → t_pid t = pid →
  find_pid pid (sc_rq s) = Some t0 → t = t0.
Proof.
  intros Hok Ht Hp Hf. rewrite (proj2 (find_pid_task _ _ pid t Hok)) in Hf by eauto. congruence.
Qed.

Lemma update_pid_at ex s pid f i t : sched_ok ex s → task_at s i t →
  task_at (update_pid pid f s) i (if t_pid t =? pid then f t else t).
Proof.
  intros Hok Ht. rewrite update_pid_idx. destruct (find_pid_idx pid (sc_rq s)) as [j|] eqn:Hj.
  - apply find_pid_idx_Some in Hj as (t' & Ht' & Hp'). unfold task_at. cbn [sc_rq on_rq].
    rewrite (at_idx_lookup_task _ _ _ i t) by done. f_equal. f_equal.
    destruct (Nat.eqb_spec i j) as [->|Hne], (Z.eqb_spec (t_pid t) pid); [done| |exfalso|done].
    + unfold task_at in *. congruence.
    + apply Hne. eapply (so_unique _ _ Hok); [done..|congruence].
  - pose proof (proj1 (position_None _ _) Hj i _ Ht) as Hno. simpl in Hno. by rewrite Hno.
Qed.

(** The identifier names a blocked task. *)
Definition blocked_pid (s : Sched) (pid : Z) : bool :=
  match find_pid pid (sc_rq s) with Some t => bool_decide (t_state t = Blocked) | None => false end.

Lemma blocked_pid_other ex ex' s pid f p : sched_ok ex s → sched_ok ex' (update_pid pid f s) →
  (∀ t, t_pid (f t) = t_pid t) → p ≠ pid → blocked_pid (update_pid pid f s) p = blocked_pid s p.
Proof.
  intros Hok Hok' Hf Hne. unfold blocked_pid.
  destruct (find_pid p (sc_rq s)) as [t|] eqn:Ht.
  - apply (find_pid_task _ _ _ _ Hok) in Ht as (i & Hi & Hp).
    pose proof (update_pid_at ex _ pid f i t Hok Hi) as Hi'. rewrite (proj2 (Z.eqb_neq _ _)) in Hi' by congruence.
    by rewrite (proj2 (find_pid_task _ _ p t Hok')) by eauto.
  - destruct (find_pid p (sc_rq (update_pid pid f s))) as [t'|] eqn:Ht'; [exfalso|done].
    apply (find_pid_task _ _ _ _ Hok') in Ht' as (i & Hi & Hp).
    destruct (update_pid_back pid f s i t' Hf Hi) as (t & Hit & Hpt).
    rewrite (proj2 (find_pid_task _ _ p t Hok)) in Ht; [done|]. exists i. split; [done|congruence].
Qed.

Lemma wake_pids_spec pids woken s : sched_wf s → NoDup pids →
  ∃ s', wake_pids pids woken s = (woken + Z.of_nat (countb (blocked_pid s) pids), s') ∧ sched_wf s' ∧
    ∀ i t, task_at s i t → task_at s' i
      (if bool_decide (t_pid t ∈ pids) && bool_decide (t_state t = Blocked) then wake_waiter t else t).
Proof.
  intros Hwf Hnd. revert woken s Hwf. induction Hnd as [|pid pids Hnin Hnd IH]; intros woken s Hwf.
  { exists s. simpl. rewrite Z.add_0_r. done. }
  simpl. rewrite countb_cons. unfold blocked_pid at 1.
  destruct (find_pid pid (sc_rq s)) as [t0|] eqn:Hf.
  1: destruct (bool_decide_reflect (t_state t0 = Blocked)) as [Hb0|Hb0].
  - assert (sched_wf (update_pid pid wake_waiter s)) as Hwf1 by (apply update_pid_wf; auto).
    destruct (IH (woken + 1) _ Hwf1) as (s' & Hw & Hwf' & Hat). exists s'. split; [|split; [done|]].
    + rewrite Hw. f_equal. assert (countb (blocked_pid (update_pid pid wake_waiter s)) pids =
        countb (blocked_pid s) pids) as ->; [|lia]. apply countb_ext. intros p Hp.
      eapply blocked_pid_other; [apply Hwf|apply Hwf1|done|set_solver].
    + intros i t Ht. pose proof (update_pid_at _ _ pid wake_waiter i t (proj1 Hwf) Ht) as Ht1.
      apply Hat in Ht1. destruct (Z.eqb_spec (t_pid t) pid) as [Hp|Hne].
      * assert (t = t0) as ->.
        { by apply (find_pid_same (sc_ctx s) s pid i); [apply Hwf|..]. }
        rewrite (bool_decide_true (t_pid t0 ∈ pid :: pids)), (bool_decide_true (t_state t0 = Blocked)) by set_solver.
        rewrite (bool_decide_false (t_state (wake_waiter t0) = Blocked)), andb_false_r in Ht1 by done. done.
      * replace (bool_decide (t_pid t ∈ pid :: pids)) with (bool_decide (t_pid t ∈ pids)); [done|].
        apply bool_decide_ext. set_solver.
  - destruct (IH woken _ Hwf) as (s' & Hw & Hwf' & Hat). exists s'. split; [done|]. split; [done|].
    intros i t Ht. apply Hat in Ht as Ht'. destruct (decide (t_pid t = pid)) as [Hp|Hne].
    + assert (t = t0) as ->.
      { by apply (find_pid_same (sc_ctx s) s pid i); [apply Hwf|..]. }
      rewrite (bool_decide_false (t_state t0 = Blocked)), andb_false_r in * by done. done.
    + replace (bool_decide (t_pid t ∈ pid :: pids)) with (bool_decide (t_pid t ∈ pids)); [done|].
      apply bool_decide_ext. set_solver.
  - destruct (IH woken _ Hwf) as (s' & Hw & Hwf' & Hat). exists s'. split; [done|]. split; [done|].
    intros i t Ht. apply Hat in Ht as Ht'. assert (t_pid t ≠ pid).
    { intros Hp. rewrite (proj2 (find_pid_task _ _ pid t (proj1 Hwf))) in Hf; [done|eauto]. }
    replace (bool_decide (t_pid t ∈ pid :: pids)) with (bool_decide (t_pid t ∈ pids)); [done|].
    apply bool_decide_ext. set_solver.
Qed.

(** What [futex_wake] does.  It takes the first [n] waiters of the address,
    at most 32, off the table, and leaves the waiters of other addresses; of
    the tasks, exactly those taken that are blocked become ready, and their
    number is returned. *)
Theorem futex_wake_spec uaddr n tbl s :
  sched_wf s → NoDup (waiters uaddr tbl) →
  let chosen := take (Nat.min (Z.to_nat n) 32) (waiters uaddr tbl) in
  ∃ tbl' s', futex_wake uaddr n (tbl, s) =
      (Z.of_nat (countb (blocked_pid s) chosen), (tbl', s')) ∧
    waiters uaddr tbl' = drop (Nat.min (Z.to_nat n) 32) (waiters uaddr tbl) ∧
    (∀ u, u ≠ uaddr → waiters u tbl' = waiters u tbl) ∧
    sched_wf s' ∧
    ∀ i t, task_at s i t → task_at s' i
      (if bool_decide (t_pid t ∈ chosen) && bool_decide (t_state t = Blocked) then wake_waiter t else t).
Proof.
  intros Hwf Hnd chosen. unfold futex_wake. destruct (collect uaddr n 0 tbl) as [pids tbl'] eqn:Hc.
  destruct (collect_spec uaddr n 0 tbl pids tbl' ltac:(lia) Hc) as (Hp & Hd & Ho).
  unfold wake_limit in Hp, Hd. rewrite Nat.sub_0_r in Hp, Hd. fold chosen in Hp. subst pids.
  destruct (wake_pids_spec chosen 0 s Hwf) as (s' & Hw & Hwf' & Hat).
  { unfold chosen. by eapply sublist_NoDup, sublist_take. }
  rewrite Hw, Z.add_0_l. by exists tbl', s'.
Qed.

(** ** Three tasks

    Tasks 1 and 2 wait at the same address; task 1 runs in the address space
    with the tables at 4096, task 2 and the running task 3 in the one at 8192. *)

Definition waiting_task (pid page_table uaddr : Z) : Task :=
  with_blocked_futex uaddr (with_state Blocked (with_page_table page_table (new_kernel pid 0 0 0 0))).

Definition three_tasks (uaddr : Z) : Sched :=
  let rq := mkRQ (Some (waiting_task 1 4096 uaddr) :: Some (waiting_task 2 8192 uaddr) ::
                  Some (with_state Running (with_page_table 8192 (new_kernel 3 0 0 0 0))) ::
                  replicate 253 None) 3 3 in
  mkSched rq 4 0 false (replicate EXIT_LOG_LEN None) 0 3 (Some 2%nat)
    (mkKmem Buddy_init 0 (λ _, 0) 0).

Definition two_waiters (uaddr : Z) : FutexTable :=
  Some (mkWaiter 1 uaddr) :: Some (mkWaiter 2 uaddr) :: replicate 254 None.

Lemma three_tasks_wf uaddr : sched_wf (three_tasks uaddr).
Proof.
  assert (∀ i t, task_at (three_tasks uaddr) i t →
    (i < 3)%nat ∧ t_pid t = Z.of_nat i + 1 ∧ (i = 2%nat ∨ t_state t = Blocked)) as Hat.
  { intros i t Ht. unfold task_at in Ht. do 3 (destruct i as [|i]; [injection Ht as <-; cbn; lia || (split_and!; auto; lia)|]).
    change (replicate 253 (@None Task) !! i = Some (Some t)) in Ht. by apply lookup_replicate_Some in Ht. }
  split; [|by eexists]. split.
  - split; [done|unfold MAX_TASKS; simpl; lia|done].
  - simpl. lia.
  - intros i j t t' (_ & Hi & _)%Hat (_ & Hj & _)%Hat Heq. lia.
  - intros i t (? & Hi & _)%Hat. simpl. lia.
  - exists []. split; [|split_and!; [constructor|set_solver|set_solver]].
    destruct (log_holds_init (mkKmem Buddy_init 0 (λ _, 0) 0)) as [? ? ?]. by split.
  - intros i t (? & _ & [->|Hb])%Hat; [by left|right; by right].
Qed.

Lemma futex_wake_spec_witness :
  ∃ tbl' s', futex_wake 0x5000 8 (two_waiters 0x5000, three_tasks 0x5000) = (2, (tbl', s')) ∧
    sched_wf s' ∧ waiters 0x5000 tbl' = [].
Proof.
  destruct (futex_wake_spec 0x5000 8 (two_waiters 0x5000) (three_tasks 0x5000))
    as (tbl' & s' & Hw & Hd & _ & Hwf & _).
  - apply three_tasks_wf.
  - change (waiters 0x5000 (two_waiters 0x5000)) with [1; 2]. repeat constructor; set_solver.
  - exists tbl', s'. split; [exact Hw|]. split; [exact Hwf|exact Hd].
Defined.

(** Futexes of different processes are not told apart.  Task 3 wakes one
    waiter at its address [0x5000]: the task that becomes ready is task 1, which
    runs in another address space, and task 2, which shares the address space of
    the waker, stays blocked. *)
Theorem futex_wake_other_process :
  ∃ tbl' s', futex_wake 0x5000 1 (two_waiters 0x5000, three_tasks 0x5000) = (1, (tbl', s')) ∧
    (λ t, (t_state t, t_page_table t)) <$> find_pid 1 (sc_rq s') = Some (Ready, 4096) ∧
    (λ t, (t_state t, t_page_table t)) <$> find_pid 2 (sc_rq s') = Some (Blocked, 8192) ∧
    t_page_table <$> current_task s' = Some 8192.
Proof. eexists _, _. split; [vm_compute; reflexivity|]. split_and!; vm_compute; reflexivity. Qed.
