(* ===== verification/Signal.v ===== *)
(** * Signals (src/sched/src/signal.rs)

    Delivery of signals on the return to user space, the signal frame on the
    user stack, and the system calls that set actions and masks.  The user's
    registers saved on the kernel stack are a value of type [UserFrame]. *)

From stdpp Require Import base list option numbers.
From Stdlib Require Import ZArith Lia.
From S2P Require Import Prelude Words Buddy Memory Slab Paging Vmm IpcPort Task RunQueue Sched SchedInv Futex.

Local Open Scope Z_scope.

Definition SA_RESTORER : Z := 0x04000000.
Definition SA_NODEFER : Z := 0x40000000.
Definition SA_RESETHAND : Z := 0x80000000.
Definition SIGDFL_IGNORE : Z := Z.lor (Z.lor (Z.shiftl 1 16) (Z.shiftl 1 22)) (Z.shiftl 1 27).
Definition SIGSEGV : Z := 11.

Record UserFrame := mkUserFrame {
  uf_x : list Z;
  uf_sp_el0 : Z;
  uf_elr_el1 : Z;
  uf_spsr_el1 : Z
}.

(** ** The signal frame *)

Definition SIGINFO_SIZE : Z := 128.
Definition UC_OFFSET : Z := SIGINFO_SIZE.
Definition SIGMASK_OFFSET : Z := UC_OFFSET + 8 + 8 + 24.
Definition MCONTEXT_OFFSET : Z := SIGMASK_OFFSET + 128.
Definition FAULT_ADDR_OFFSET : Z := MCONTEXT_OFFSET.
Definition REGS_OFFSET : Z := MCONTEXT_OFFSET + 8.
Definition SP_OFFSET : Z := REGS_OFFSET + 31 * 8.
Definition PC_OFFSET : Z := SP_OFFSET + 8.
Definition PSTATE_OFFSET : Z := PC_OFFSET + 8.
Definition RESERVED_OFFSET : Z := PSTATE_OFFSET + 8.
Definition SIGFRAME_SIZE : Z := RESERVED_OFFSET + 4096.

(** Where the frame goes: below the user's stack pointer, aligned. *)
Definition frame_sp (old_sp : Z) : option Z :=
  p ← checked_sub old_sp SIGFRAME_SIZE;
  let new_sp := Z.land p (wnot 15) in
  if (new_sp =? 0) || (0x0000800000000000 <=? new_sp) then None else Some new_sp.

(** [virt_to_phys] in the address space of task [pid]. *)
Definition task_virt_to_phys (pid va : Z) (s : Sched) : option Z :=
  t ← find_pid pid (sc_rq s);
  a ← t_address_space t;
  as_virt_to_phys a va.

(** The loop that saves [x0] to [x30]: the rest of the registers from number [i]. *)
Fixpoint save_regs (base : Z) (i : Z) (xs : list Z) (m : mem) : mem :=
  match xs with
  | [] => m
  | x :: xs' => save_regs base (i + 1) xs' (write_u64 (base + REGS_OFFSET + i * 8) x m)
  end.

(** The writes to the frame at physical address [base]. *)
Definition write_frame (base sig old_mask : Z) (uf : UserFrame) (m : mem) : mem :=
  let m := mem_fill base 0 SIGFRAME_SIZE m in
  let m := mem_write base (le_encode 4 sig) m in
  let m := write_u64 (base + SIGMASK_OFFSET) old_mask m in
  let m := write_u64 (base + FAULT_ADDR_OFFSET) 0 m in
  let m := save_regs base 0 (uf_x uf) m in
  let m := write_u64 (base + SP_OFFSET) (uf_sp_el0 uf) m in
  let m := write_u64 (base + PC_OFFSET) (uf_elr_el1 uf) m in
  write_u64 (base + PSTATE_OFFSET) (uf_spsr_el1 uf) m.

(** The registers with which the handler starts. *)
Definition handler_frame (new_sp sig handler restorer : Z) (uf : UserFrame) : UserFrame :=
  mkUserFrame
    (<[30%nat := restorer]> (<[2%nat := new_sp + UC_OFFSET]> (<[1%nat := new_sp]> (<[0%nat := sig]> (uf_x uf)))))
    new_sp handler (uf_spsr_el1 uf).

Definition prepare (sig handler restorer old_mask : Z) (x : UserFrame * Sched)
    : bool * (UserFrame * Sched) :=
  let '(uf, s) := x in
  match frame_sp (uf_sp_el0 uf) with
  | None => (false, x)
  | Some new_sp =>
      match task_virt_to_phys (current_pid s) new_sp s with
      | None => (false, x)
      | Some frame_phys =>
          (true, (handler_frame new_sp sig handler restorer uf,
                  set_kmem (on_mem (write_frame frame_phys sig old_mask uf) (sc_kmem s)) s))
      end
  end.

(** The registers read back from the frame at [base]. *)
Definition read_frame (base : Z) (m : mem) : UserFrame :=
  mkUserFrame ((λ i, read_u64 m (base + REGS_OFFSET + i * 8)) <$> seqZ 0 31)
    (read_u64 m (base + SP_OFFSET)) (read_u64 m (base + PC_OFFSET)) (read_u64 m (base + PSTATE_OFFSET)).

(** [restore]: [None] when the frame is not mapped and the task exits. *)
Definition restore (pid : Z) (x : UserFrame * Sched) : option (UserFrame * Sched) :=
  let '(uf, s) := x in
  frame_phys ← task_virt_to_phys pid (uf_sp_el0 uf) s;
  let m := k_mem (sc_kmem s) in
  Some (read_frame frame_phys m,
        update_pid pid (with_signal_mask (read_u64 m (frame_phys + SIGMASK_OFFSET))) s).

(** ** Delivery *)

(** How a call ends: it returns to the caller, or the task exits. *)
Inductive sigres := SigReturn | SigExit | SigFuel.

(** The bookkeeping for a delivered signal. *)
Definition take_signal (sig : Z) (action : SigAction) (t : Task) : Task :=
  let bit := Z.shiftl 1 (sig - 1) in
  let t := with_signal_pending (Z.land (t_signal_pending t) (wnot bit)) t in
  let t := if Z.land (sa_flags action) SA_NODEFER =? 0
           then with_signal_mask (Z.lor (t_signal_mask t) (Z.lor bit (sa_mask action))) t else t in
  if negb (Z.land (sa_flags action) SA_RESETHAND =? 0)
  then with_signal_actions (alter (λ a, mkSigAction 0 (sa_flags a) (sa_mask a) (sa_restorer a))
         (Z.to_nat (sig - 1)) (t_signal_actions t)) t
  else t.

Definition sig_exit (code : Z) : st (UserFrame * Sched) sigres :=
  st_modify (λ '(uf, s), (uf, exit code s)) ≫= λ _, mret SigExit.

(** The loop of [check_and_deliver_signals]. *)
Fixpoint check_loop (fuel : nat) (pid : Z) : st (UserFrame * Sched) sigres :=
  match fuel with
  | O => mret SigFuel
  | S fuel' =>
      o ← st_get (λ '(_, s), find_pid pid (sc_rq s));
      match o with
      | None => mret SigReturn
      | Some t =>
          let unmasked := Z.land (t_signal_pending t) (wnot (t_signal_mask t)) in
          if unmasked =? 0 then mret SigReturn
          else
            let bit := trailing_zeros unmasked in
            let sig := Z.of_nat bit + 1 in
            action ← st_index (t_signal_actions t) bit;
            st_modify (λ '(uf, s), (uf, update_pid pid (take_signal sig action) s)) ≫= λ _,
            if sa_handler action =? 0 then
              if negb (Z.land SIGDFL_IGNORE (Z.shiftl 1 (sig - 1)) =? 0) then check_loop fuel' pid
              else sig_exit (128 + sig)
            else if sa_handler action =? 1 then check_loop fuel' pid
            else
              let restorer := if negb (Z.land (sa_flags action) SA_RESTORER =? 0)
                              then sa_restorer action else 0 in
              ok ← st_lift (prepare sig (sa_handler action) restorer (t_signal_mask t));
              if (ok : bool) then mret SigReturn else sig_exit (128 + SIGSEGV)
      end
  end.

(** With [frame_ptr] not null.  64 turns clear all signals. *)
Definition check_and_deliver_signals : st (UserFrame * Sched) sigres :=
  pid ← st_get (λ '(_, s), current_pid s);
  if pid =? 0 then mret SigReturn else check_loop 65 pid.

Definition restore_signal_frame : st (UserFrame * Sched) sigres :=
  pid ← st_get (λ '(_, s), current_pid s);
  if pid =? 0 then mret SigReturn
  else
    o ← st_get (restore pid);
    match o with
    | Some x => st_modify (λ _, x) ≫= λ _, mret SigReturn
    | None => sig_exit (128 + 11)
    end.

(** ** System calls *)

(** [new] is the action at [act_ptr] unless that is null; the old action is
    returned if [want_old], that is, [oldact_ptr] is not null. *)
Definition sys_sigaction (signum : Z) (new : option SigAction) (want_old : bool)
    : st Sched (Z * option SigAction) :=
  o ← st_get current_task;
  match o with
  | None => mret (-3, None)
  | Some t =>
      let i := Z.to_nat (u32 (signum - 1)) in
      old ← (if want_old then a ← st_index (t_signal_actions t) i; mret (Some a) else mret None);
      match new with
      | None => mret (0, old)
      | Some a =>
          st_assert (i <? length (t_signal_actions t))%nat ≫= λ _,
          st_modify (update_current (λ t, with_signal_actions (<[i := a]> (t_signal_actions t)) t)) ≫= λ _,
          mret (0, old)
      end
  end.

Definition sys_rt_sigaction (signum : Z) (new : option SigAction) (want_old : bool)
    : st Sched (Z * option SigAction) :=
  if (signum =? 0) || (64 <=? signum) then mret (-22, None)
  else sys_sigaction (u32 signum) new want_old.

Definition sys_sigprocmask (how : Z) (set : option Z) (s : Sched) : Z * option Z * Sched :=
  match current_task s with
  | None => (-3, None, s)
  | Some t =>
      let old := t_signal_mask t in
      match set with
      | None => (0, Some old, s)
      | Some set =>
          if how =? 0 then (0, Some old, update_current (with_signal_mask (Z.lor old set)) s)
          else if how =? 1 then (0, Some old, update_current (with_signal_mask (Z.land old (wnot set))) s)
          else if how =? 2 then (0, Some old, update_current (with_signal_mask set) s)
          else (-22, Some old, s)
      end
  end.
