(* ===== verification/SignalSpec.v ===== *)
(** * Properties of signal delivery *)

From stdpp Require Import base list option numbers.
From Stdlib Require Import ZArith Lia.
From S2P Require Import Prelude Words Buddy Memory Slab Paging Vmm IpcPort Task RunQueue Sched SchedInv Futex Signal.

Local Open Scope Z_scope.

(** ** The signal frame *)

Definition is_u64 (z : Z) : Prop := 0 ≤ z < 2^64.

(** All registers hold 64-bit values. *)
Record frame_ok (uf : UserFrame) : Prop := {
  fo_len : length (uf_x uf) = 31%nat;
  fo_x : Forall is_u64 (uf_x uf);
  fo_sp : is_u64 (uf_sp_el0 uf);
  fo_elr : is_u64 (uf_elr_el1 uf);
  fo_spsr : is_u64 (uf_spsr_el1 uf)
}.

Lemma save_regs_other base i xs m a : 0 ≤ i →
  a + 8 ≤ base + REGS_OFFSET + i * 8 ∨ base + REGS_OFFSET + (i + Z.of_nat (length xs)) * 8 ≤ a →
  read_u64 (save_regs base i xs m) a = read_u64 m a.
Proof.
  revert i m. induction xs as [|x xs IH]; intros i m Hi Ha; simpl in *; [done|].
  rewrite IH by lia. apply read_write_u64_ne. lia.
Qed.

Lemma save_regs_read base i xs m j x : 0 ≤ i → Forall is_u64 xs → xs !! j = Some x →
  read_u64 (save_regs base i xs m) (base + REGS_OFFSET + (i + Z.of_nat j) * 8) = x.
Proof.
  revert i m j. induction xs as [|y xs IH]; intros i m j Hi Hxs Hj; [done|].
  apply Forall_cons_1 in Hxs as [Hy Hxs]. destruct j as [|j]; simpl in Hj.
  - injection Hj as ->. rewrite Z.add_0_r. simpl. rewrite save_regs_other by lia. by apply read_write_u64.
  - simpl. replace (i + Z.of_nat (S j)) with (i + 1 + Z.of_nat j) by lia. apply IH; [lia|done|done].
Qed.

Ltac frame_offsets :=
  unfold RESERVED_OFFSET, PSTATE_OFFSET, PC_OFFSET, SP_OFFSET, REGS_OFFSET, FAULT_ADDR_OFFSET,
    MCONTEXT_OFFSET, SIGMASK_OFFSET, UC_OFFSET, SIGINFO_SIZE in *; lia.

(** A word of the frame that is written last and not touched after. *)
Ltac skip_writes := repeat rewrite read_write_u64_ne by frame_offsets.

(** What is written to the frame is read back. *)
Lemma read_write_frame base sig mask uf m : frame_ok uf → is_u64 mask →
  read_frame base (write_frame base sig mask uf m) = uf ∧
  read_u64 (write_frame base sig mask uf m) (base + SIGMASK_OFFSET) = mask.
Proof.
  intros [Hlen Hx Hsp Helr Hspsr] Hmask. unfold write_frame. cbn zeta. split.
  - destruct uf as [xs sp elr spsr]. unfold read_frame. cbn [uf_x uf_sp_el0 uf_elr_el1 uf_spsr_el1] in *.
    f_equal.
    + apply list_eq. intros j. rewrite list_lookup_fmap. destruct (decide (j < 31)%nat) as [Hj|Hj].
      * destruct (lookup_lt_is_Some_2 xs j ltac:(lia)) as [x Hxj]. rewrite lookup_seqZ_lt by lia. simpl.
        rewrite Hxj. f_equal. change (0 + Z.of_nat j) with (Z.of_nat j). skip_writes.
        apply (save_regs_read base 0 xs _ j x); [lia|done|done].
      * rewrite lookup_seqZ_ge by lia. symmetry. apply lookup_ge_None_2. lia.
    + skip_writes. by apply read_write_u64.
    + skip_writes. by apply read_write_u64.
    + by apply read_write_u64.
  - skip_writes. rewrite save_regs_other by (lia || (rewrite Hlen; frame_offsets)). skip_writes.
    by apply read_write_u64.
Qed.


(** A running task with four pages of stack. *)
Definition user_task (actions : list SigAction) (pending mask : Z) : Task :=
  let a := mkAS 4096 (Some (new_vma 0x400000 0x404000 0x80000 0 false) :: replicate 7 None) 0 0 in
  with_signal_actions actions (with_signal_pending pending (with_signal_mask mask
    (with_address_space (Some a) (with_state Running (new_kernel 1 0 0 0 0))))).

Definition user_sched (actions : list SigAction) (pending mask : Z) : Sched :=
  mkSched (mkRQ (Some (user_task actions pending mask) :: replicate 255 None) 1 1) 2 0 false (replicate EXIT_LOG_LEN None) 0 1 (Some 0%nat)
    (mkKmem Buddy_init 0 (λ _, 0) 0).

Definition some_regs : UserFrame := mkUserFrame (seqZ 100 31) 0x403000 0x1000 0.

Lemma some_regs_ok : frame_ok some_regs.
Proof.
  split; [reflexivity| |simpl; unfold is_u64; lia..].
  apply Forall_lookup. intros i x [-> Hi]%lookup_seqZ. unfold is_u64. lia.
Qed.

Definition sig2_frame : UserFrame := handler_frame 0x401dc0 2 0x2000 0x3000 some_regs.
Definition sig2_sched : Sched :=
  set_kmem (on_mem (write_frame 0x81dc0 2 5 some_regs) (sc_kmem (user_sched [] 0 5))) (user_sched [] 0 5).

Lemma prepare_sig2 : prepare 2 0x2000 0x3000 5 (some_regs, user_sched [] 0 5) = (true, (sig2_frame, sig2_sched)).
Proof.
  unfold prepare. replace (frame_sp (uf_sp_el0 some_regs)) with (Some 0x401dc0) by (vm_compute; reflexivity).
  replace (task_virt_to_phys _ _ _) with (Some 0x81dc0) by (vm_compute; reflexivity). reflexivity.
Qed.


(** ** Delivery ends *)

Definition signals_ok (t : Task) : Prop :=
  is_u64 (t_signal_pending t) ∧ is_u64 (t_signal_mask t) ∧
  Forall (λ a, is_u64 (sa_mask a)) (t_signal_actions t).

(** The signals that can be delivered. *)
Definition unmasked (t : Task) : Z := Z.land (t_signal_pending t) (wnot (t_signal_mask t)).

(** No deliverable signal below bit [k]. *)
Definition clear_below (k : nat) (t : Task) : Prop :=
  ∀ i, 0 ≤ i < Z.of_nat k → Z.testbit (unmasked t) i = false.

Lemma unmasked_bits t i : is_u64 (t_signal_pending t) → 0 ≤ i →
  Z.testbit (unmasked t) i = Z.testbit (t_signal_pending t) i && negb (Z.testbit (t_signal_mask t) i).
Proof. intros Hp Hi. unfold unmasked. rewrite land_wnot, Z.ldiff_spec by done. done. Qed.

Lemma unmasked_range t : is_u64 (t_signal_pending t) → is_u64 (unmasked t).
Proof. intros Hp. unfold unmasked. rewrite land_wnot by done. apply (fits_ldiff 64); [lia|done]. Qed.

(** Taking the lowest deliverable signal leaves only higher ones. *)
Lemma take_signal_clears t k action : signals_ok t → clear_below k t → unmasked t ≠ 0 →
  let bit := trailing_zeros (unmasked t) in
  is_u64 (sa_mask action) →
  (k ≤ bit < 64)%nat ∧ signals_ok (take_signal (Z.of_nat bit + 1) action t) ∧
  clear_below (S bit) (take_signal (Z.of_nat bit + 1) action t).
Proof.
  intros (Hp & Hm & Ha) Hk Hne bit Hma. pose proof (unmasked_range t Hp) as Hr.
  assert (0 < unmasked t) as Hpos by (unfold is_u64 in Hr; lia).
  destruct (trailing_zeros_spec _ Hpos) as [Hset Hlow]. fold bit in Hset, Hlow.
  assert (bit < 64)%nat as Hlt by (apply trailing_zeros_lt64; unfold is_u64 in Hr; lia).
  assert (is_u64 (Z.shiftl 1 (Z.of_nat bit))) as Hb64.
  { unfold is_u64. rewrite Z.shiftl_1_l. split; [lia|]. apply Z.pow_lt_mono_r; lia. }
  set (t' := take_signal (Z.of_nat bit + 1) action t).
  assert (t_signal_pending t' = Z.ldiff (t_signal_pending t) (Z.shiftl 1 (Z.of_nat bit))) as Hp'.
  { unfold t', take_signal. rewrite Z.add_simpl_r. cbn zeta. rewrite land_wnot by done.
    by destruct (negb _), (_ =? 0). }
  assert (t_signal_mask t' = t_signal_mask t ∨
    t_signal_mask t' = Z.lor (t_signal_mask t) (Z.lor (Z.shiftl 1 (Z.of_nat bit)) (sa_mask action))) as Hm'.
  { unfold t', take_signal. rewrite Z.add_simpl_r. cbn zeta. destruct (negb _), (_ =? 0); auto. }
  assert (is_u64 (t_signal_pending t')) as Hpr by (rewrite Hp'; apply (fits_ldiff 64); [lia|done]).
  split; [split; [|done]|split; [split; [exact Hpr|split]|]].
  - destruct (decide (k ≤ bit)%nat); [done|]. rewrite Hk in Hset by lia. done.
  - destruct Hm' as [->| ->]; [done|]. apply (fits_lor 64); [lia|done|]. apply (fits_lor 64); [lia|done|done].
  - unfold t', take_signal. cbn zeta. destruct (negb _), (_ =? 0); try done.
    all: apply Forall_alter; [done|]. all: by intros.
  - intros i Hi. rewrite unmasked_bits, Hp', Z.ldiff_spec, Z.shiftl_1_l by (done || lia).
    destruct (decide (i = Z.of_nat bit)) as [->|Hne'].
    { by rewrite Z.pow2_bits_true, andb_false_r by lia. }
    rewrite Z.pow2_bits_false, andb_true_r by lia.
    assert (Z.testbit (unmasked t) i = false) as Hi0 by (apply Hlow; lia).
    rewrite unmasked_bits in Hi0 by (done || lia).
    destruct (Z.testbit (t_signal_pending t) i); [|done]. simpl in *.
    destruct Hm' as [->| ->]; [done|]. rewrite Z.lor_spec. apply negb_false_iff in Hi0. by rewrite Hi0.
Qed.

Lemma take_signal_pid sig action t :
  t_pid (take_signal sig action t) = t_pid t ∧ t_state (take_signal sig action t) = t_state t.
Proof. unfold take_signal. by destruct (negb _), (_ =? 0). Qed.

Lemma take_signal_handlers sig action t h : h ≠ 0 →
  h ∈ sa_handler <$> t_signal_actions (take_signal sig action t) → h ∈ sa_handler <$> t_signal_actions t.
Proof.
  intros Hh. set (i := Z.to_nat (sig - 1)).
  set (reset := λ a, mkSigAction 0 (sa_flags a) (sa_mask a) (sa_restorer a)).
  assert (t_signal_actions (take_signal sig action t) = t_signal_actions t ∨
    t_signal_actions (take_signal sig action t) = alter reset i (t_signal_actions t)) as [-> | ->]; [|done|].
  { unfold take_signal. destruct (negb _), (_ =? 0); auto. }
  rewrite !list_elem_of_fmap. intros (a & -> & (j & Hj)%list_elem_of_lookup).
  destruct (decide (j = i)) as [->|Hne].
  - rewrite list_lookup_alter_eq in Hj. destruct (t_signal_actions t !! i); [|done]. by injection Hj as <-.
  - rewrite list_lookup_alter_ne in Hj by done. exists a. split; [done|]. by eapply list_elem_of_lookup_2.
Qed.

(** The end of a delivery: the task exits, or nothing is left to deliver and the
    registers are as before, or the task continues in one of its handlers. *)
Definition delivered (pid : Z) (uf : UserFrame) (t : Task) (r : sigres) (x : UserFrame * Sched) : Prop :=
  match r with
  | SigFuel => False
  | SigExit => ∃ t', find_pid (current_pid x.2) (sc_rq x.2) = Some t' ∧ t_state t' = Zombie
  | SigReturn =>
      (x.1 = uf ∧ ∃ t', find_pid pid (sc_rq x.2) = Some t' ∧ unmasked t' = 0) ∨
      (uf_elr_el1 x.1 ∈ sa_handler <$> t_signal_actions t ∧ uf_elr_el1 x.1 ≠ 0 ∧ uf_elr_el1 x.1 ≠ 1)
  end.

Lemma update_pid_find s pid f t : sched_wf s → sched_wf (update_pid pid f s) →
  (∀ t, t_pid (f t) = t_pid t) → find_pid pid (sc_rq s) = Some t →
  find_pid pid (sc_rq (update_pid pid f s)) = Some (f t).
Proof.
  intros [Hok _] [Hok' _] Hf (i & Hi & Hp)%(find_pid_task _ _ _ _ Hok).
  apply (find_pid_task _ _ _ _ Hok'). exists i. split; [|by rewrite Hf].
  pose proof (update_pid_at _ _ pid f i t Hok Hi) as Hu. by rewrite Hp, Z.eqb_refl in Hu.
Qed.

Lemma sig_exit_delivered code pid uf uf' s t t0 : sched_wf s → find_pid (current_pid s) (sc_rq s) = Some t →
  wlp (sig_exit code) (delivered pid uf t0) (uf', s).
Proof.
  intros Hwf Hf. unfold wlp, sig_exit. simpl. eexists. split.
  - apply update_pid_find; [done|by apply update_current_wf|done|exact Hf].
  - done.
Qed.

Lemma check_loop_delivers fuel k pid uf s t : sched_wf s → pid = current_pid s →
  find_pid pid (sc_rq s) = Some t → signals_ok t → clear_below k t → (k ≤ 64)%nat → (65 ≤ fuel + k)%nat →
  wlp (check_loop fuel pid) (delivered pid uf t) (uf, s).
Proof.
  revert k s t. induction fuel as [|fuel IH]; intros k s t Hwf Hpid Hf Ht Hk Hle Hfuel; [lia|].
  cbn [check_loop]. apply wlp_bind. unfold wlp at 1, st_get. rewrite Hf. fold (unmasked t).
  destruct (Z.eqb_spec (unmasked t) 0) as [Hz|Hnz]; [left; eauto|].
  set (bit := trailing_zeros (unmasked t)). apply wlp_bind. unfold wlp at 1, st_index.
  destruct (t_signal_actions t !! bit) as [action|] eqn:Ha; [|done]. cbn [mret st_ret].
  assert (is_u64 (sa_mask action)) as Hma.
  { destruct Ht as (_ & _ & Hall). by eapply (Forall_lookup_1 _ _ _ _ Hall). }
  destruct (take_signal_clears t k action Ht Hk Hnz Hma) as ((Hkb & Hb) & Ht' & Hk'). fold bit in Hkb, Hb, Ht', Hk'.
  set (f := take_signal (Z.of_nat bit + 1) action). set (s' := update_pid pid f s).
  assert (∀ t, t_pid (f t) = t_pid t) as Hfp by (intros; apply take_signal_pid).
  assert (sched_wf s') as Hwf'.
  { apply update_pid_wf; [done|done|]. intros t0. left. apply take_signal_pid. }
  assert (find_pid pid (sc_rq s') = Some (f t)) as Hf' by (by apply update_pid_find).
  assert (wlp (check_loop fuel pid) (delivered pid uf t) (uf, s')) as Hrec.
  { eapply wlp_mono; [by apply (IH (S bit) s' (f t)); [..|lia|lia]|].
    intros [] x; [|done..]. intros [?|(Hin & Hn0 & Hn1)]; [by left|right].
    split_and!; [|done..]. by eapply take_signal_handlers. }
  apply wlp_bind. unfold wlp at 1, st_modify. fold s'.
  destruct (Z.eqb_spec (sa_handler action) 0) as [|Hh0].
  { destruct (negb _); [done|]. subst pid. by eapply sig_exit_delivered. }
  destruct (Z.eqb_spec (sa_handler action) 1) as [|Hh1]; [done|].
  apply wlp_bind. unfold wlp at 1, st_lift, prepare.
  destruct (frame_sp (uf_sp_el0 uf)) as [sp|]; [|subst pid; by eapply sig_exit_delivered].
  destruct (task_virt_to_phys _ _ _) as [base|]; [|subst pid; by eapply sig_exit_delivered].
  right. cbn. split_and!; [|done..]. apply list_elem_of_fmap. exists action. split; [done|].
  by eapply list_elem_of_lookup_2.
Qed.


Lemma user_sched_wf actions pending mask : sched_wf (user_sched actions pending mask).
Proof.
  assert (∀ i t, task_at (user_sched actions pending mask) i t → i = 0%nat ∧ t_pid t = 1) as Hat.
  { intros [|i] t Ht; [by injection Ht as <-|].
    change (replicate 255 (@None Task) !! i = Some (Some t)) in Ht. by apply lookup_replicate_Some in Ht. }
  split; [|by eexists]. split.
  - split; [done|unfold MAX_TASKS; simpl; lia|done].
  - simpl. lia.
  - intros i j t t' [-> _]%Hat [-> _]%Hat. done.
  - intros i t [_ ->]%Hat. simpl. lia.
  - exists []. split; [|split_and!; [constructor|intros p Hp; inversion Hp|intros i t _ Hp; inversion Hp]].
    destruct (log_holds_init (mkKmem Buddy_init 0 (λ _, 0) 0)) as [? ? ?]. by split.
  - intros i t [-> _]%Hat. by left.
Qed.

Definition handle_two : list SigAction :=
  [DEFAULT_SIGACTION; mkSigAction 0x2000 SA_RESTORER 0 0x3000; DEFAULT_SIGACTION; DEFAULT_SIGACTION].

Lemma current_user actions pending mask :
  current_task (user_sched actions pending mask) = Some (user_task actions pending mask).
Proof. vm_compute. reflexivity. Qed.


(** ** What goes wrong *)

(** A user program can stop the kernel with [sigaction].  The table of
    actions has four entries, but the system call accepts all signals up to 63:
    setting an action for a signal from 5 to 63 panics. *)
Theorem sigaction_panics signum new s t :
  5 ≤ signum < 64 → current_task s = Some t → length (t_signal_actions t) = 4%nat →
  sys_rt_sigaction signum (Some new) false s = Panic.
Proof.
  intros Hs Ht Hlen. unfold sys_rt_sigaction.
  rewrite (proj2 (Z.eqb_neq _ _)), (proj2 (Z.leb_gt _ _)) by lia. simpl.
  unfold sys_sigaction, mbind, st_bind, st_get. rewrite Ht. cbn [mret st_ret].
  assert (u32 (u32 signum - 1) = signum - 1) as ->.
  { unfold u32. rewrite (Z.mod_small signum), Z.mod_small by lia. done. }
  unfold st_assert. rewrite Hlen, (proj2 (Nat.ltb_ge _ _)) by lia. done.
Qed.

Lemma sigaction_panics_witness :
  sys_rt_sigaction 15 (Some DEFAULT_SIGACTION) false (user_sched handle_two 0 0) = Panic.
Proof.
  apply (sigaction_panics 15 DEFAULT_SIGACTION (user_sched handle_two 0 0) (user_task handle_two 0 0));
    [lia|apply current_user|reflexivity].
Defined.

(** [sigreturn] takes the processor state from user memory.  Whatever value
    the user has stored in the frame, an exception level other than EL0
    included, is what the kernel will return with. *)
Theorem sigreturn_pstate_unchecked pid uf s base v :
  task_virt_to_phys pid (uf_sp_el0 uf) s = Some base → 0 ≤ v < 2^64 →
  ∃ uf' s', restore pid
      (uf, set_kmem (on_mem (write_u64 (base + PSTATE_OFFSET) v) (sc_kmem s)) s) = Some (uf', s') ∧
    uf_spsr_el1 uf' = v.
Proof.
  intros Hb Hv. unfold restore. set (s1 := set_kmem _ s).
  replace (task_virt_to_phys pid (uf_sp_el0 uf) s1) with (Some base) by (symmetry; exact Hb).
  eexists _, _. split; [reflexivity|]. by apply read_write_u64.
Qed.

Lemma sigreturn_pstate_unchecked_witness :
  ∃ uf' s', restore 1 (some_regs, set_kmem (on_mem (write_u64 (0x83000 + PSTATE_OFFSET) 5)
      (sc_kmem (user_sched [] 0 0))) (user_sched [] 0 0)) = Some (uf', s') ∧ uf_spsr_el1 uf' = 5.
Proof. apply (sigreturn_pstate_unchecked 1 some_regs (user_sched [] 0 0)); [vm_compute; reflexivity|lia]. Defined.

(** An ignored signal stays blocked.  A task ignores signal 1 and has it
    pending: the delivery skips it, as it should, but leaves it in the mask, so
    that a handler installed later is never called. *)
Theorem ignored_signal_stays_blocked :
  let ignore_one := mkSigAction 1 0 0 0 :: replicate 3 DEFAULT_SIGACTION in
  ∃ s', check_and_deliver_signals (some_regs, user_sched ignore_one 1 0) = Ret (SigReturn, (some_regs, s')) ∧
    t_signal_mask <$> current_task (user_sched ignore_one 1 0) = Some 0 ∧
    t_signal_mask <$> current_task s' = Some 1.
Proof. eexists. split; [vm_compute; reflexivity|]. split; vm_compute; reflexivity. Qed.
