(* ===== verification/Clone.v ===== *)
(** * Fork and threads (src/sched/src/clone.rs)

    The user registers of the caller lie on its kernel stack, at [frame_ptr];
    the child gets a copy on a stack of its own.  [ret_to_user_fork] is the
    address of the label where the child starts. *)

From stdpp Require Import base list option numbers.
From Stdlib Require Import ZArith Lia.
From S2P Require Import Prelude Words Buddy Memory Slab Paging Vmm IpcPort Task RunQueue Sched SchedInv Futex.

Local Open Scope Z_scope.

(** [size_of::<UserFrame>()] *)
Definition FRAME_SIZE : Z := 272.
Definition STACK_ORDER : nat := 4.
Definition STACK_SIZE : Z := PAGE_SIZE * Z.shiftl 1 4.

(** Allocate and clear a kernel stack. *)
Definition alloc_stack : st Sched (option Z) :=
  o ← with_kmem (k_alloc STACK_ORDER);
  match o with
  | None => mret None
  | Some base =>
      with_kmem (st_modify (λ k, on_mem (mem_fill (phys_to_virt base k) 0 STACK_SIZE) k)) ≫= λ _,
      mret (Some base)
  end.

(** The user frame at the top of a stack. *)
Definition child_frame (stack_virt : Z) : Z := wadd stack_virt (STACK_SIZE - FRAME_SIZE).

(** Copy the frame and set the child's [x0] to 0. *)
Definition copy_frame (frame_ptr dst : Z) (m : mem) : mem :=
  write_u64 dst 0 (mem_copy frame_ptr dst FRAME_SIZE m).

Definition heap_bounds (t : Task) : Z * Z :=
  match t_address_space t with Some a => (heap_start a, heap_end a) | None => (0, 0) end.

Definition with_ids (t : Task) (ppid tgid : Z) (child : Task) : Task :=
  mkTask (t_pid child) (t_state child) (t_priority child) (t_ctx child) (t_page_table child)
    (t_kernel_stack child) (t_blocked_on child) (t_blocked_futex child) (t_address_space child)
    (t_exit_code child) (t_reply_port child) ppid tgid (t_pgid t) (t_sid t) (t_uid t) (t_gid t)
    (t_euid t) (t_egid t) (t_signal_pending child) (t_signal_mask child)
    (replicate 4 DEFAULT_SIGACTION) (t_clear_child_tid child) (fst (heap_bounds t))
    (snd (heap_bounds t)) (t_tls_base child) (t_cwd t) (t_cwd_len child) (t_umask child).

(** The child of [fork]; [t] is the parent. *)
Definition fork_child (t : Task) (child_pid stack_phys child_pt : Z) (ctx : CpuContext)
    (child_as : AddressSpace) : Task :=
  with_ids t (t_pid t) (t_tgid t)
    (with_address_space (Some child_as)
      (with_ctx ctx (new_kernel child_pid 0 stack_phys STACK_SIZE child_pt))).

(** Give back the stack and the root of the page tables. *)
Definition fork_undo (stack : Z) (order : nat) (child_pt err : Z) : st Sched Z :=
  with_kmem (k_free stack order) ≫= λ _,
  with_kmem (k_free child_pt 0) ≫= λ _,
  mret err.

(** From step 4 on: the address space of the child is ready. *)
Definition fork_finish (ret_to_user_fork frame_ptr parent_pid stack_phys child_pt : Z)
    (child_as : AddressSpace) : st Sched Z :=
  stack_virt ← st_get (λ s, phys_to_virt stack_phys (sc_kmem s));
  let frame := child_frame stack_virt in
  with_kmem (st_modify (on_mem (copy_frame frame_ptr frame))) ≫= λ _,
  let ctx := with_lr_sp ret_to_user_fork frame CpuContext_zeroed in
  o ← st_get (λ s, find_pid parent_pid (sc_rq s));
  match o with
  | None =>
      r ← fork_undo stack_phys STACK_ORDER child_pt (-3);
      with_kmem (drop_as child_as) ≫= λ _, mret r
  | Some t =>
      child_pid ← st_lift alloc_pid;
      let child := fork_child t child_pid stack_phys child_pt ctx child_as in
      ok ← st_lift (λ s, let '(ok, rq) := enqueue child (sc_rq s) in (ok, on_rq (λ _, rq) s));
      if (ok : bool) then mret child_pid
      else with_kmem (drop_task child) ≫= λ _, fork_undo stack_phys STACK_ORDER child_pt (-12)
  end.

Definition fork_current (ret_to_user_fork frame_ptr : Z) : st Sched Z :=
  parent_pid ← st_get current_pid;
  if (frame_ptr =? 0) || (parent_pid =? 0) then mret (-38)
  else
    o ← alloc_stack;
    match o with
    | None => mret (-12)
    | Some stack_phys =>
        child_pt ← with_kmem arch_alloc_page_table_root;
        if child_pt =? 0 then with_kmem (k_free stack_phys STACK_ORDER) ≫= λ _, mret (-12)
        else
          o ← st_get (λ s, find_pid parent_pid (sc_rq s));
          match o with
          | None => fork_undo stack_phys 3 child_pt (-3)
          | Some t =>
              match t_address_space t with
              | None => fork_undo stack_phys 3 child_pt (-38)
              | Some a =>
                  c ← with_kmem (clone_as a child_pt);
                  match c with
                  | None => fork_undo stack_phys STACK_ORDER child_pt (-12)
                  | Some child_as =>
                      fork_finish ret_to_user_fork frame_ptr parent_pid stack_phys child_pt child_as
                  end
              end
          end
    end.

(** ** Threads *)

Definition CLONE_SETTLS : Z := 0x00080000.
Definition CLONE_THREAD : Z := 0x00010000.
Definition CLONE_CHILD_SETTID : Z := 0x01000000.
Definition CLONE_CHILD_CLEARTID : Z := 0x00200000.

Definition has_flag (flags f : Z) : bool := negb (Z.land flags f =? 0).

(** Where the child's identifier is to be written. *)
Definition ctid_phys (flags ctid : Z) (t : Task) : option Z :=
  if has_flag flags CLONE_CHILD_SETTID && negb (ctid =? 0)
  then a ← t_address_space t; as_virt_to_phys a ctid
  else None.

Definition thread_child (t : Task) (flags ctid child_pid stack_phys : Z) (ctx : CpuContext) : Task :=
  let child := with_ids t (t_pid t) (if has_flag flags CLONE_THREAD then t_tgid t else child_pid)
                 (with_ctx ctx (new_kernel child_pid 0 stack_phys STACK_SIZE (t_page_table t))) in
  if has_flag flags CLONE_CHILD_CLEARTID then with_clear_child_tid ctid child else child.

Definition clone_thread (ret_to_user_fork flags child_stack tls ctid frame_ptr : Z) : st Sched Z :=
  parent_pid ← st_get current_pid;
  if (frame_ptr =? 0) || (parent_pid =? 0) then mret (-38)
  else
    o ← alloc_stack;
    match o with
    | None => mret (-12)
    | Some stack_phys =>
        stack_virt ← st_get (λ s, phys_to_virt stack_phys (sc_kmem s));
        let frame := child_frame stack_virt in
        with_kmem (st_modify (on_mem (λ m,
          let m := copy_frame frame_ptr frame m in
          if negb (child_stack =? 0) then write_u64 (frame + 248) child_stack m else m))) ≫= λ _,
        let ctx := with_tpidr (if has_flag flags CLONE_SETTLS then tls else 0)
                     (with_lr_sp ret_to_user_fork frame CpuContext_zeroed) in
        o ← st_get (λ s, find_pid parent_pid (sc_rq s));
        match o with
        | None => with_kmem (k_free stack_phys STACK_ORDER) ≫= λ _, mret (-3)
        | Some t =>
            child_pid ← st_lift alloc_pid;
            match ctid_phys flags ctid t with
            | Some phys =>
                with_kmem (st_modify (λ k, on_mem (mem_write (phys_to_virt phys k) (le_encode 4 child_pid)) k))
            | None => mret tt
            end ≫= λ _,
            r ← enqueue_or_free (thread_child t flags ctid child_pid stack_phys ctx) stack_phys STACK_ORDER;
            mret (default (-12) r)
        end
    end.

(** ** What a fork gives the child *)

Lemma with_kmem_Ret {A} (c : st kmem A) s a s' : with_kmem c s = Ret (a, s') →
  ∃ k, c (sc_kmem s) = Ret (a, k) ∧ s' = set_kmem k s.
Proof.
  unfold with_kmem. destruct (c (sc_kmem s)) as [[a' k]|]; [|done]. intros [= -> <-]. eauto.
Qed.

(** Only the memory changed. *)
Definition mem_only (s s' : Sched) : Prop := ∃ k, s' = set_kmem k s.

#[export] Instance mem_only_refl : Reflexive mem_only.
Proof. intros s. exists (sc_kmem s). by destruct s. Qed.

#[export] Instance mem_only_trans : Transitive mem_only.
Proof. intros s1 s2 s3 [k2 ->] [k3 ->]. by exists k3. Qed.

Lemma mem_only_with_kmem {A} (c : st kmem A) s : wlp (with_kmem c) (λ _, mem_only s) s.
Proof.
  unfold wlp, with_kmem. destruct (c (sc_kmem s)) as [[a k]|]; [by exists k|done].
Qed.

Lemma mem_only_bind {A B} (c : st Sched A) (f : A → st Sched B) :
  (∀ s, wlp c (λ _, mem_only s) s) → (∀ a s, wlp (f a) (λ _, mem_only s) s) →
  ∀ s, wlp (c ≫= f) (λ _, mem_only s) s.
Proof.
  intros Hc Hf s. apply wlp_bind. eapply wlp_mono; [apply Hc|]. intros a s1 H1. cbn beta.
  eapply wlp_mono; [apply Hf|]. intros b s2 H2. exact (transitivity H1 H2).
Qed.

Lemma mem_only_ret {A} (a : A) s : wlp (mret a) (λ _, mem_only s) s.
Proof. exact (reflexivity s). Qed.

#[local] Hint Resolve mem_only_with_kmem mem_only_ret : cyanos.

Lemma alloc_stack_mem s : wlp alloc_stack (λ _, mem_only s) s.
Proof.
  apply mem_only_bind; [auto with cyanos|]. intros [base|] s1; [|auto with cyanos].
  apply mem_only_bind; auto with cyanos.
Qed.

Lemma fork_undo_mem stack order pt err s : wlp (fork_undo stack order pt err) (λ r s', mem_only s s' ∧ r = err) s.
Proof.
  unfold fork_undo, wlp, mbind, st_bind, with_kmem. destruct (k_free stack order _) as [[[] k]|]; [|done].
  destruct (k_free pt 0 _) as [[[] k']|]; [|done]. split; [by exists k'|done].
Qed.

(** The result of a successful fork. *)
Record forked (ret fp : Z) (s : Sched) (parent : Task) (r : Z) (s' : Sched) : Prop := {
  fk_pid : r = sc_next_pid s;
  fk_old : ∀ i t, task_at s i t → task_at s' i t;
  fk_child : ∃ i child frame child_as, task_at s' i child ∧ (∀ t, ¬ task_at s i t) ∧
    t_pid child = r ∧ t_ppid child = t_pid parent ∧ t_state child = Ready ∧
    t_address_space child = Some child_as ∧ t_page_table child = page_table_root child_as ∧
    t_ctx child = with_lr_sp ret frame CpuContext_zeroed ∧
    (fp + FRAME_SIZE ≤ frame ∨ frame + FRAME_SIZE ≤ fp →
       read_u64 (k_mem (sc_kmem s')) frame = 0 ∧
       ∀ j, 8 ≤ j < FRAME_SIZE → k_mem (sc_kmem s') (frame + j) = k_mem (sc_kmem s') (fp + j))
}.

Lemma enqueue_Some task rq rq' : enqueue task rq = (true, rq') →
  ∃ i, tasks rq !! i = Some None ∧ tasks rq' !! i = Some (Some task).
Proof.
  unfold enqueue. destruct (position is_none (tasks rq)) as [i|] eqn:Hp; [|done]. intros [= <-].
  apply position_Some in Hp as (o & Ho & Hnone & _). destruct o; [done|]. exists i. split; [done|].
  simpl. apply list_lookup_insert_eq. by eapply lookup_lt_Some.
Qed.

Lemma copy_frame_spec fp frame m : fp + FRAME_SIZE ≤ frame ∨ frame + FRAME_SIZE ≤ fp →
  let m' := copy_frame fp frame m in
  read_u64 m' frame = 0 ∧ ∀ j, 8 ≤ j < FRAME_SIZE → m' (frame + j) = m' (fp + j).
Proof.
  intros Hd m'. unfold m', copy_frame. split; [by apply read_write_u64|]. unfold FRAME_SIZE in *.
  intros j Hj. rewrite !write_u64_out by lia. rewrite mem_copy_in, mem_copy_out by lia. f_equal. lia.
Qed.

Lemma fork_finish_spec ret fp pid stack pt a s parent : find_pid pid (sc_rq s) = Some parent →
  page_table_root a = pt → sched_wf s → sc_next_pid s + 1 < 2^32 →
  wlp (fork_finish ret fp pid stack pt a)
    (λ r s', sched_wf s' ∧ (0 < r → forked ret fp s parent r s')) s.
Proof.
  intros Hf Hpt Hwf Hlt. unfold fork_finish. apply wlp_bind. unfold wlp at 1, st_get.
  set (frame := child_frame _). apply wlp_bind. unfold wlp at 1, with_kmem, st_modify.
  set (s1 := set_kmem _ s). apply wlp_bind. unfold wlp at 1.
  replace (find_pid pid (sc_rq s1)) with (Some parent) by (symmetry; exact Hf).
  apply wlp_bind. unfold wlp at 1, st_lift. destruct (alloc_pid s1) as [child_pid s2] eqn:Ha.
  assert (sched_wf s1) as Hwf1 by exact (quiet_wf s s1 (quiet_kmem _ _ _) Hwf).
  destruct (alloc_pid_wf _ _ _ Hwf1 Hlt Ha) as (Hwf2 & Hfr & _).
  injection Ha as <- <-. set (s2 := mkSched _ _ _ _ _ _ _ _ _) in *.
  apply wlp_bind. unfold wlp at 1. set (child := fork_child _ _ _ _ _ _).
  destruct (enqueue child (sc_rq s2)) as [ok rq'] eqn:He.
  assert (sched_wf (on_rq (λ _, rq') s2)) as Hwf3 by (by eapply (enqueue_sched_wf child)).
  destruct ok.
  - split; [done|]. intros Hpos. split; [done| |].
    + intros i t Ht. by eapply (enqueue_keeps child (sc_rq s2)).
    + destruct (enqueue_Some _ _ _ He) as (i & Hnone & Hchild). exists i, child, frame, a.
      split; [exact Hchild|]. split; [intros t Ht; unfold task_at in Ht; cbn in Hnone; congruence|].
      split_and!; [done..|]. apply copy_frame_spec.
  - apply wlp_bind. eapply wlp_mono; [apply mem_only_with_kmem|]. intros [] s4 [k4 ->]. cbn beta.
    eapply wlp_mono; [apply fork_undo_mem|]. intros r s5 [[k5 ->] ->]. split; [|lia].
    exact (quiet_wf _ _ (quiet_kmem _ _ _) Hwf3).
Qed.

Lemma clone_as_root a pt k : wlp (clone_as a pt) (λ o _, ∀ c, o = Some c → page_table_root c = pt) k.
Proof.
  unfold clone_as. apply wlp_bind. eapply wlp_mono; [apply wlp_true|]. intros [ok rs] k1 _. cbn.
  destruct ok; [by intros c [= <-]|]. apply wlp_bind. eapply wlp_mono; [apply wlp_true|]. by intros [] k2 _ c.
Qed.

Lemma forked_mem ret fp s k parent r s' : forked ret fp (set_kmem k s) parent r s' → forked ret fp s parent r s'.
Proof. intros [Hp Ho Hc]. by split. Qed.


(** A parent with a working directory and a thread pointer. *)
Definition fork_parent : Task :=
  let a := mkAS 4096 (replicate 8 None) 0x500000 0x502000 in
  with_signal_mask 6 (with_cwd (47 :: 116 :: 109 :: 112 :: replicate 124 0) 4
    (with_ctx (with_tpidr 0x7000 CpuContext_zeroed)
      (with_address_space (Some a) (with_state Running (new_kernel 1 0 0 0 4096))))).

Definition fork_sched : Sched :=
  mkSched (mkRQ (Some fork_parent :: replicate 255 None) 1 1) 2 0 false (replicate EXIT_LOG_LEN None) 0 1
    (Some 0%nat) (mkKmem Buddy_init 0 (λ _, 0) 0).

Lemma fork_sched_wf : sched_wf fork_sched.
Proof.
  assert (∀ i t, task_at fork_sched i t → i = 0%nat ∧ t_pid t = 1) as Hat.
  { intros [|i] t Ht; [by injection Ht as <-|].
    change (replicate 255 (@None Task) !! i = Some (Some t)) in Ht. by apply lookup_replicate_Some in Ht. }
  split; [|by eexists]. split.
  - split; [done|unfold MAX_TASKS; simpl; lia|done].
  - simpl. lia.
  - intros i j t t' [-> _]%Hat [-> _]%Hat. done.
  - intros i t [_ ->]%Hat. simpl. lia.
  - exists []. split; [|split_and!; [constructor|intros p Hp; inversion Hp|intros i t _ Hp; inversion Hp]].
    destruct (log_holds_init (mkKmem Buddy_init 0 (λ _, 0) 0)) as [? ? ?]. by split.
  - intros i t [-> _]%Hat. by left.
Qed.


(** The number a fork returned and the task that has it. *)
Definition child_of (o : outcome (Z * Sched)) : option (Z * Task) :=
  match o with
  | Ret (r, s) => (λ t, (r, t)) <$> find_pid r (sc_rq s)
  | Panic => None
  end.

(** What [fork] forgets.  The parent works in [/tmp], has a thread pointer
    and two blocked signals.  The child gets the bytes of the working directory
    but the length 1, so it works in [/]; its thread pointer is 0 and no signal
    is blocked; and it is in the thread group of its parent. *)
Theorem fork_child_forgets :
  ∃ child, child_of (fork_finish 0x9000 0x8000 1 0x20000 8192
      (mkAS 8192 (replicate 8 None) 0x500000 0x502000) fork_sched) = Some (2, child) ∧
    take 4 (t_cwd child) = [47; 116; 109; 112] ∧ t_cwd_len fork_parent = 4 ∧ t_cwd_len child = 1 ∧
    c_tpidr_el0 (t_ctx fork_parent) = 0x7000 ∧ c_tpidr_el0 (t_ctx child) = 0 ∧
    t_signal_mask fork_parent = 6 ∧ t_signal_mask child = 0 ∧
    t_pid child = 2 ∧ t_tgid child = t_tgid fork_parent.
Proof. eexists. split; [vm_compute; reflexivity|]. repeat split; vm_compute; reflexivity. Qed.
