(* ===== verification/Switch.v ===== *)
(** * The context switch (src/sched/src/context.rs)

    The AArch64 assembly of [cpu_switch_to] and [cpu_switch_to_with_pt], as
    programs of the instructions it uses.  The theorem: a task that is switched
    away and back finds all its callee-saved, floating-point and thread-pointer
    registers as they were. *)

From stdpp Require Import base list option numbers.
From Stdlib Require Import ZArith Lia.
From S2P Require Import Prelude Words Buddy Memory.

Local Open Scope Z_scope.

(** ** Machine states *)

Inductive reg := X (n : nat) | Q (n : nat) | SP | FPCR | FPSR | TPIDR_EL0 | TTBR0_EL1.

#[export] Instance reg_eq_dec : EqDecision reg.
Proof. solve_decision. Defined.

(** The width of a register in bytes. *)
Definition width (r : reg) : nat := match r with Q _ => 16 | _ => 8 end.

Definition store (w : nat) (a v : Z) (m : mem) : mem := mem_write a (le_encode w v) m.
Definition load (w : nat) (a : Z) (m : mem) : Z := le_decode (mem_read m a (Z.of_nat w)).

(** Registers, memory and what was written to the serial port. *)
Record mstate := mkM { m_regs : reg → Z; m_mem : mem; m_out : list Z }.

Definition set_reg (r : reg) (v : Z) (s : mstate) : mstate :=
  mkM (λ r', if decide (r' = r) then v else m_regs s r') (m_mem s) (m_out s).
Definition set_mem (m : mem) (s : mstate) : mstate := mkM (m_regs s) m (m_out s).

Inductive instr :=
  | Stp (r1 r2 base : reg) (off : Z)
  | StpPre (r1 r2 : reg)                 (* stp r1, r2, [sp, #-16]! *)
  | LdpPost (r1 r2 : reg)                (* ldp r1, r2, [sp], #16 *)
  | Str (r base : reg) (off : Z)
  | StrW (r base : reg)                  (* 32-bit store to the serial port *)
  | Ldp (r1 r2 base : reg) (off : Z)
  | Ldr (r base : reg) (off : Z)
  | Mov (rd rs : reg)                    (* mov, mrs and msr *)
  | MovImm (rd : reg) (v : Z)
  | CbzSkip (r : reg) (n : nat)          (* cbz over n instructions *)
  | Isb
  | RetLr.

Definition step (i : instr) (s : mstate) : mstate :=
  let R := m_regs s in
  match i with
  | Stp r1 r2 base off =>
      let w := width r1 in
      set_mem (store w (wadd (R base) (off + Z.of_nat w)) (R r2)
                (store w (wadd (R base) off) (R r1) (m_mem s))) s
  | StpPre r1 r2 =>
      let sp := wsub (R SP) 16 in
      set_reg SP sp (set_mem (store 8 (wadd sp 8) (R r2) (store 8 sp (R r1) (m_mem s))) s)
  | LdpPost r1 r2 =>
      let sp := R SP in
      set_reg SP (wadd sp 16)
        (set_reg r2 (load 8 (wadd sp 8) (m_mem s)) (set_reg r1 (load 8 sp (m_mem s)) s))
  | Str r base off => set_mem (store (width r) (wadd (R base) off) (R r) (m_mem s)) s
  | StrW r base => mkM R (m_mem s) (m_out s ++ [u32 (R r)])
  | Ldp r1 r2 base off =>
      let w := width r1 in
      set_reg r2 (load w (wadd (R base) (off + Z.of_nat w)) (m_mem s))
        (set_reg r1 (load w (wadd (R base) off) (m_mem s)) s)
  | Ldr r base off => set_reg r (load (width r) (wadd (R base) off) (m_mem s)) s
  | Mov rd rs => set_reg rd (R rs) s
  | MovImm rd v => set_reg rd v s
  | CbzSkip _ _ | Isb | RetLr => s
  end.

(** Straight-line code with forward skips; [RetLr] ends at the address in [x30]. *)
Fixpoint exec (p : list instr) (skip : nat) (s : mstate) : mstate :=
  match p with
  | [] => s
  | i :: p' =>
      match skip with
      | S skip' => exec p' skip' s
      | O => match i with
             | CbzSkip r n => exec p' (if m_regs s r =? 0 then n else 0) s
             | RetLr => s
             | _ => exec p' 0 (step i s)
             end
      end
  end.

(** ** The programs *)

(** Write the character [c] to the serial port. *)
Definition trace (c : Z) : list instr := [
  StpPre (X 0) (X 1); MovImm (X 0) c; MovImm (X 1) 0x09000000; StrW (X 0) (X 1);
  LdpPost (X 0) (X 1)].

(** Save the outgoing registers. *)
Definition switch_save : list instr := [
  Stp (X 19) (X 20) (X 0) 0; Stp (X 21) (X 22) (X 0) 16; Stp (X 23) (X 24) (X 0) 32;
  Stp (X 25) (X 26) (X 0) 48; Stp (X 27) (X 28) (X 0) 64; Stp (X 29) (X 30) (X 0) 80;
  Mov (X 9) SP; Str (X 9) (X 0) 96; Mov (X 9) FPCR; Mov (X 10) FPSR; Str (X 9) (X 0) 624;
  Str (X 10) (X 0) 632; Stp (Q 0) (Q 1) (X 0) 112; Stp (Q 2) (Q 3) (X 0) 144;
  Stp (Q 4) (Q 5) (X 0) 176; Stp (Q 6) (Q 7) (X 0) 208; Stp (Q 8) (Q 9) (X 0) 240;
  Stp (Q 10) (Q 11) (X 0) 272; Stp (Q 12) (Q 13) (X 0) 304; Stp (Q 14) (Q 15) (X 0) 336;
  Stp (Q 16) (Q 17) (X 0) 368; Stp (Q 18) (Q 19) (X 0) 400; Stp (Q 20) (Q 21) (X 0) 432;
  Stp (Q 22) (Q 23) (X 0) 464; Stp (Q 24) (Q 25) (X 0) 496; Stp (Q 26) (Q 27) (X 0) 528;
  Stp (Q 28) (Q 29) (X 0) 560; Stp (Q 30) (Q 31) (X 0) 592; Mov (X 10) TPIDR_EL0;
  Str (X 10) (X 0) 640].

(** Restore the incoming registers. *)
Definition switch_load : list instr := [
  Ldp (X 19) (X 20) (X 1) 0; Ldp (X 21) (X 22) (X 1) 16; Ldp (X 23) (X 24) (X 1) 32;
  Ldp (X 25) (X 26) (X 1) 48; Ldp (X 27) (X 28) (X 1) 64; Ldp (X 29) (X 30) (X 1) 80;
  Ldr (X 9) (X 1) 96; Mov SP (X 9); Ldr (X 9) (X 1) 624; Ldr (X 10) (X 1) 632; Mov FPCR (X 9);
  Mov FPSR (X 10); Ldp (Q 0) (Q 1) (X 1) 112; Ldp (Q 2) (Q 3) (X 1) 144;
  Ldp (Q 4) (Q 5) (X 1) 176; Ldp (Q 6) (Q 7) (X 1) 208; Ldp (Q 8) (Q 9) (X 1) 240;
  Ldp (Q 10) (Q 11) (X 1) 272; Ldp (Q 12) (Q 13) (X 1) 304; Ldp (Q 14) (Q 15) (X 1) 336;
  Ldp (Q 16) (Q 17) (X 1) 368; Ldp (Q 18) (Q 19) (X 1) 400; Ldp (Q 20) (Q 21) (X 1) 432;
  Ldp (Q 22) (Q 23) (X 1) 464; Ldp (Q 24) (Q 25) (X 1) 496; Ldp (Q 26) (Q 27) (X 1) 528;
  Ldp (Q 28) (Q 29) (X 1) 560; Ldp (Q 30) (Q 31) (X 1) 592; Ldr (X 10) (X 1) 640;
  Mov TPIDR_EL0 (X 10)].

(** Switch to the page tables in [x2] unless that is 0. *)
Definition switch_pt : list instr := [CbzSkip (X 2) 2; Mov TTBR0_EL1 (X 2); Isb].

Definition cpu_switch_to : list instr :=
  trace 65 ++ switch_save ++ trace 66 ++ switch_load ++ trace 67 ++ [RetLr].

Definition cpu_switch_to_with_pt : list instr :=
  trace 68 ++ switch_save ++ trace 80 ++ switch_pt ++ switch_load ++ trace 82 ++ [RetLr].

(** Where the registers lie in a [CpuContext]. *)
Definition q_layout : list (reg * Z) := (λ n, (Q n, 112 + 16 * Z.of_nat n)) <$> seq 0 32.
Definition x_layout : list (reg * Z) := (λ n, (X (19 + n), 8 * Z.of_nat n)) <$> seq 0 12.
Definition layout : list (reg * Z) :=
  x_layout ++ [(SP, 96); (FPCR, 624); (FPSR, 632)] ++ q_layout ++ [(TPIDR_EL0, 640)].

Definition CTX_SIZE : Z := 656.

(** ** Straight-line code *)

Definition run (p : list instr) (s : mstate) : mstate := foldl (λ s i, step i s) s p.

Definition straight (i : instr) : bool := match i with CbzSkip _ _ | RetLr => false | _ => true end.

Lemma exec_straight p q s : forallb straight p = true → exec (p ++ q) 0 s = exec q 0 (run p s).
Proof.
  revert s. induction p as [|i p IH]; intros s Hp; [done|]. simpl in Hp.
  apply andb_true_iff in Hp as [Hi Hp]. simpl. destruct i; try done; by rewrite IH.
Qed.

(** ** Loads and stores *)

Lemma load_store w a v m : 0 ≤ v < 2 ^ (8 * Z.of_nat w) → load w a (store w a v m) = v.
Proof.
  intros Hv. unfold load, store. pose proof (mem_read_write a (le_encode w v) m) as Hr.
  rewrite length_le_encode in Hr. rewrite Hr. apply le_decode_encode. exact Hv.
Qed.

Lemma load_store_ne w a w' a' v m :
  a + Z.of_nat w ≤ a' ∨ a' + Z.of_nat w' ≤ a → load w a (store w' a' v m) = load w a m.
Proof.
  intros Hd. unfold load, store. f_equal. apply mem_read_ext. intros x Hx.
  apply mem_write_out. rewrite length_le_encode. lia.
Qed.

Lemma load_ext w a m m' : (∀ x, a ≤ x < a + Z.of_nat w → m x = m' x) → load w a m = load w a m'.
Proof. intros Hx. unfold load. f_equal. by apply mem_read_ext. Qed.

Definition apply_stores (l : list (nat * Z * Z)) (m : mem) : mem :=
  foldl (λ m '(w, a, v), store w a v m) m l.

Lemma load_apply_other l m w a :
  Forall (λ '(w', a', _), a + Z.of_nat w ≤ a' ∨ a' + Z.of_nat w' ≤ a) l →
  load w a (apply_stores l m) = load w a m.
Proof.
  revert m. induction l as [|[[w' a'] v] l IH]; intros m Hl; [done|].
  apply Forall_cons_1 in Hl as [H1 Hl].
  change (apply_stores ((w', a', v) :: l) m) with (apply_stores l (store w' a' v m)).
  rewrite IH by done. by apply load_store_ne.
Qed.

(** *** The registers of a context *)

Definition slot_sep (x y : reg * Z) : bool :=
  (x.2 + Z.of_nat (width x.1) <=? y.2) || (y.2 + Z.of_nat (width y.1) <=? x.2).

(** No two registers share a byte, and all lie in the context. *)
Fixpoint separated (L : list (reg * Z)) : bool :=
  match L with
  | [] => true
  | x :: L' =>
      (0 <=? x.2) && (x.2 + Z.of_nat (width x.1) <=? CTX_SIZE) && forallb (slot_sep x) L' && separated L'
  end.

Definition reg_range (r : reg) (v : Z) : Prop := 0 ≤ v < 2 ^ (8 * Z.of_nat (width r)).

Definition ctx_stores (A : Z) (R : reg → Z) (L : list (reg * Z)) : list (nat * Z * Z) :=
  (λ '(r, off), (width r, wadd A off, R r)) <$> L.

Section ctx.
Context (A : Z) (R : reg → Z) (HA : 0 ≤ A ∧ A + CTX_SIZE ≤ 2^64) (HR : ∀ r, reg_range r (R r)).

Lemma ctx_addr off : 0 ≤ off < CTX_SIZE → wadd A off = A + off.
Proof. intros Ho. apply wadd_small; lia. Qed.

Lemma separated_in L x : separated L = true → x ∈ L → 0 ≤ x.2 ∧ x.2 + Z.of_nat (width x.1) ≤ CTX_SIZE.
Proof.
  induction L as [|y L IH]; intros Hs Hx; [by apply not_elem_of_nil in Hx|]. simpl in Hs.
  rewrite !andb_true_iff in Hs. destruct Hs as [[[H1 H2] _] Hs].
  apply elem_of_cons in Hx as [->|Hx]; [split; lia|by apply IH].
Qed.

Lemma width_pos r : (0 < width r)%nat.
Proof. destruct r; simpl; lia. Qed.

Lemma ctx_stores_read L m r off : separated L = true → (r, off) ∈ L →
  load (width r) (A + off) (apply_stores (ctx_stores A R L) m) = R r.
Proof.
  revert m. induction L as [|[r0 off0] L IH]; intros m Hs Hin; [by apply not_elem_of_nil in Hin|].
  pose proof (separated_in _ _ Hs (list_elem_of_here _ _)) as Hin0. pose proof Hs as Hs'. simpl in Hs.
  rewrite !andb_true_iff in Hs. destruct Hs as [[_ Hsep] Hs].
  apply elem_of_cons in Hin as [[= -> ->]|Hin]; [|by apply IH].
  simpl. rewrite ctx_addr by (pose proof (width_pos r0); simpl in Hin0; lia).
  change (load (width r0) (A + off0)
    (apply_stores (ctx_stores A R L) (store (width r0) (A + off0) (R r0) m)) = R r0).
  rewrite load_apply_other; [by apply load_store, HR|].
  apply Forall_lookup. intros i [[w a] v] Hi. unfold ctx_stores in Hi. rewrite list_lookup_fmap in Hi.
  destruct (L !! i) as [[r off]|] eqn:HL; [|done]. injection Hi as <- <- <-.
  pose proof (list_elem_of_lookup_2 _ _ _ HL) as Hel.
  pose proof (separated_in _ _ Hs Hel) as Hr. pose proof (width_pos r). simpl in Hr, Hin0.
  rewrite ctx_addr by lia. rewrite forallb_forall in Hsep.
  specialize (Hsep (r, off)). unfold slot_sep in Hsep. simpl in Hsep.
  rewrite list_elem_of_In in Hel. specialize (Hsep Hel). lia.
Qed.

Lemma ctx_stores_other L m w a : separated L = true →
  a + Z.of_nat w ≤ A ∨ A + CTX_SIZE ≤ a → load w a (apply_stores (ctx_stores A R L) m) = load w a m.
Proof.
  intros Hs Ha. apply load_apply_other. apply Forall_lookup. intros i [[w' a'] v] Hi.
  unfold ctx_stores in Hi. rewrite list_lookup_fmap in Hi.
  destruct (L !! i) as [[r off]|] eqn:HL; [|done]. injection Hi as <- <- <-.
  pose proof (separated_in _ _ Hs (list_elem_of_lookup_2 _ _ _ HL)) as Hr. pose proof (width_pos r).
  simpl in Hr. rewrite ctx_addr by lia. lia.
Qed.
End ctx.

Lemma layout_separated : separated layout = true.
Proof. vm_compute. reflexivity. Qed.

(** ** The parts of the switch *)

Lemma run_save_mem s :
  m_mem (run switch_save s) = apply_stores (ctx_stores (m_regs s (X 0)) (m_regs s) layout) (m_mem s).
Proof. reflexivity. Qed.

Lemma run_save_regs s r : r = SP ∨ r = X 0 ∨ r = X 1 ∨ r = X 2 → m_regs (run switch_save s) r = m_regs s r.
Proof. intros [->|[->|[->| ->]]]; reflexivity. Qed.

Lemma run_load_mem s : m_mem (run switch_load s) = m_mem s.
Proof. reflexivity. Qed.

Lemma run_load_regs s r off : (r, off) ∈ layout →
  m_regs (run switch_load s) r = load (width r) (wadd (m_regs s (X 1)) off) (m_mem s).
Proof.
  assert (Forall (λ '(r, off), m_regs (run switch_load s) r =
    load (width r) (wadd (m_regs s (X 1)) off) (m_mem s)) layout) as Hall.
  { unfold layout, x_layout, q_layout. repeat (apply Forall_cons_2; [reflexivity|]). apply Forall_nil_2. }
  intros (i & Hi)%list_elem_of_lookup. exact (Forall_lookup_1 _ _ _ _ Hall Hi).
Qed.

(** The debugging output leaves all registers as they are and uses 16 bytes
    below the stack pointer. *)
Lemma run_trace c s : 16 ≤ m_regs s SP < 2^64 → reg_range (X 0) (m_regs s (X 0)) →
  reg_range (X 1) (m_regs s (X 1)) →
  (∀ r, m_regs (run (trace c) s) r = m_regs s r) ∧
  ∀ w a, a + Z.of_nat w ≤ m_regs s SP - 16 ∨ m_regs s SP ≤ a →
    load w a (m_mem (run (trace c) s)) = load w a (m_mem s).
Proof.
  intros Hsp H0 H1. set (sp := m_regs s SP) in *.
  assert (wsub sp 16 = sp - 16) as Hs by (apply wsub_small; lia).
  assert (wadd (wsub sp 16) 8 = sp - 8) as H8 by (rewrite Hs, wadd_small by lia; lia).
  assert (m_mem (run (trace c) s) = store 8 (sp - 8) (m_regs s (X 1)) (store 8 (sp - 16) (m_regs s (X 0)) (m_mem s)))
    as Hmem by (rewrite <- H8, <- Hs; reflexivity).
  split.
  - intros r. destruct (decide (r = SP)) as [->|Hnsp].
    { transitivity (wadd (wsub sp 16) 16); [reflexivity|]. rewrite Hs, wadd_small by lia. fold sp. lia. }
    destruct (decide (r = X 1)) as [->|Hn1].
    { transitivity (load 8 (sp - 8) (m_mem (run (trace c) s))); [rewrite <- H8; reflexivity|].
      rewrite Hmem. by apply load_store. }
    destruct (decide (r = X 0)) as [->|Hn0].
    { transitivity (load 8 (sp - 16) (m_mem (run (trace c) s))); [rewrite <- Hs; reflexivity|].
      rewrite Hmem, load_store_ne by lia. by apply load_store. }
    simpl. by rewrite !decide_False by done.
  - intros w a Ha. rewrite Hmem. by rewrite !load_store_ne by lia.
Qed.

Lemma run_load_args s r : r = X 0 ∨ r = X 1 → m_regs (run switch_load s) r = m_regs s r.
Proof. intros [->| ->]; reflexivity. Qed.

Lemma exec_ret s : exec [RetLr] 0 s = s.
Proof. reflexivity. Qed.

Lemma exec_switch_pt q s : ∃ s', exec (switch_pt ++ q) 0 s = exec q 0 s' ∧
  m_mem s' = m_mem s ∧ ∀ r, r ≠ TTBR0_EL1 → m_regs s' r = m_regs s r.
Proof.
  simpl. destruct (m_regs s (X 2) =? 0); simpl; eexists; (split; [reflexivity|split; [reflexivity|]]); [done|].
  intros r Hne. simpl. by rewrite decide_False.
Qed.

#[local] Opaque run.

(** ** A switch *)

Definition disjoint (a n b m : Z) : Prop := a + n ≤ b ∨ b + m ≤ a.

(** A call of the switch: [x0] points to the old context, [x1] to the new one;
    neither is in the part of a stack that the switch writes to. *)
Record switch_ok (s : mstate) : Prop := {
  sk_regs : ∀ r, reg_range r (m_regs s r);
  sk_old : 0 ≤ m_regs s (X 0) ∧ m_regs s (X 0) + CTX_SIZE ≤ 2^64;
  sk_new : 0 ≤ m_regs s (X 1) ∧ m_regs s (X 1) + CTX_SIZE ≤ 2^64;
  sk_apart : disjoint (m_regs s (X 0)) CTX_SIZE (m_regs s (X 1)) CTX_SIZE;
  sk_sp : 16 ≤ m_regs s SP;
  sk_sp_old : disjoint (m_regs s SP - 16) 16 (m_regs s (X 0)) CTX_SIZE;
  sk_sp_new : disjoint (m_regs s SP - 16) 16 (m_regs s (X 1)) CTX_SIZE;
  sk_sp' : 16 ≤ load 8 (m_regs s (X 1) + 96) (m_mem s) < 2^64;
  sk_sp'_old : disjoint (load 8 (m_regs s (X 1) + 96) (m_mem s) - 16) 16 (m_regs s (X 0)) CTX_SIZE
}.

(** The outgoing registers are in the old context, and the registers are those
    of the new one. *)
Definition switched (s s' : mstate) : Prop := ∀ r off, (r, off) ∈ layout →
  load (width r) (m_regs s (X 0) + off) (m_mem s') = m_regs s r ∧
  m_regs s' r = load (width r) (m_regs s (X 1) + off) (m_mem s).

Lemma layout_in r off : (r, off) ∈ layout → 0 ≤ off ∧ off + Z.of_nat (width r) ≤ CTX_SIZE.
Proof. intros Hin. exact (separated_in layout (r, off) layout_separated Hin). Qed.

Section parts.
Context (s : mstate) (Hok : switch_ok s) (c1 c2 c3 : Z) (s3 : mstate).
Let s1 := run (trace c1) s.
Let s2 := run (trace c2) (run switch_save s1).
Context (Hmem3 : m_mem s3 = m_mem s2) (Hregs3 : ∀ r, r ≠ TTBR0_EL1 → m_regs s3 r = m_regs s2 r).

Lemma parts_enter : (∀ r, m_regs s1 r = m_regs s r) ∧
  ∀ w a, a + Z.of_nat w ≤ m_regs s SP - 16 ∨ m_regs s SP ≤ a → load w a (m_mem s1) = load w a (m_mem s).
Proof.
  apply run_trace; [|apply (sk_regs _ Hok)..].
  pose proof (sk_sp _ Hok). pose proof (sk_regs _ Hok SP). unfold reg_range in *. simpl in *. lia.
Qed.

(** After saving and the second trace. *)
Lemma parts_saved : (∀ r, r = SP ∨ r = X 0 ∨ r = X 1 → m_regs s3 r = m_regs s r) ∧
  (∀ r off, (r, off) ∈ layout → load (width r) (m_regs s (X 0) + off) (m_mem s3) = m_regs s r) ∧
  (∀ r off, (r, off) ∈ layout → load (width r) (m_regs s (X 1) + off) (m_mem s3) =
                                 load (width r) (m_regs s (X 1) + off) (m_mem s)).
Proof.
  destruct parts_enter as [Hr1 Hm1]. destruct Hok as [Hregs Hold Hnew Hap Hsp Hspo Hspn _ _].
  assert (∀ r, r = SP ∨ r = X 0 ∨ r = X 1 ∨ r = X 2 → m_regs (run switch_save s1) r = m_regs s r) as Hrs.
  { intros r Hr. by rewrite run_save_regs, Hr1. }
  assert (16 ≤ m_regs s SP < 2^64) as Hspr by (specialize (Hregs SP); unfold reg_range in *; simpl in *; lia).
  destruct (run_trace c2 (run switch_save s1)) as [Hr2 Hm2].
  { by rewrite Hrs by auto. } { rewrite Hrs by auto. apply Hregs. } { rewrite Hrs by auto. apply Hregs. }
  rewrite Hrs in Hm2 by auto.
  assert (ctx_stores (m_regs s1 (X 0)) (m_regs s1) layout = ctx_stores (m_regs s (X 0)) (m_regs s) layout) as Hcs.
  { unfold ctx_stores. apply list_fmap_ext. intros i [r off] _. by rewrite !Hr1. }
  unfold disjoint in *. split_and!.
  - intros r Hr. rewrite Hregs3 by (by destruct Hr as [->|[->| ->]]). unfold s2. rewrite Hr2.
    apply Hrs. tauto.
  - intros r off Hin. pose proof (layout_in r off Hin). rewrite Hmem3. unfold s2.
    rewrite Hm2, run_save_mem, Hcs by lia. by apply ctx_stores_read.
  - intros r off Hin. pose proof (layout_in r off Hin). rewrite Hmem3. unfold s2.
    rewrite Hm2, run_save_mem, Hcs by lia.
    rewrite ctx_stores_other; [|done|done|lia]. apply Hm1. lia.
Qed.

Lemma parts_switched : switched s (run (trace c3) (run switch_load s3)).
Proof.
  destruct parts_saved as (Hr3 & Hold3 & Hnew3).
  destruct Hok as [Hregs Hold Hnew Hap Hsp Hspo Hspn Hsp' Hsp'o].
  assert (∀ r off, (r, off) ∈ layout →
    m_regs (run switch_load s3) r = load (width r) (m_regs s (X 1) + off) (m_mem s)) as Hr4.
  { intros r off Hin. rewrite (run_load_regs s3 r off Hin), Hr3 by auto. pose proof (layout_in r off Hin).
    pose proof (width_pos r). rewrite wadd_small by lia. by apply Hnew3. }
  assert (∀ r, r = X 0 ∨ r = X 1 → m_regs (run switch_load s3) r = m_regs s r) as Hx.
  { intros r Hr. rewrite run_load_args by done. apply Hr3. by right. }
  assert ((SP, 96) ∈ layout) as HSP by (apply list_elem_of_lookup; by exists 12%nat).
  destruct (run_trace c3 (run switch_load s3)) as [Hr5 Hm5].
  { by rewrite (Hr4 SP 96 HSP). } { rewrite Hx by auto. apply Hregs. } { rewrite Hx by auto. apply Hregs. }
  rewrite (Hr4 SP 96 HSP) in Hm5. cbn [width] in Hm5. unfold disjoint in *.
  intros r off Hin. pose proof (layout_in r off Hin). split.
  - rewrite Hm5, run_load_mem by lia. by apply Hold3.
  - rewrite Hr5. by apply Hr4.
Qed.
End parts.

Lemma cpu_switch_to_switched s : switch_ok s → switched s (exec cpu_switch_to 0 s).
Proof.
  intros Hok. unfold cpu_switch_to. rewrite !exec_straight by reflexivity. rewrite exec_ret.
  by eapply (parts_switched s Hok 65 66 67).
Qed.

Lemma cpu_switch_to_with_pt_switched s : switch_ok s → switched s (exec cpu_switch_to_with_pt 0 s).
Proof.
  intros Hok. unfold cpu_switch_to_with_pt. rewrite !exec_straight by reflexivity.
  destruct (exec_switch_pt (switch_load ++ trace 82 ++ [RetLr])
    (run (trace 80) (run switch_save (run (trace 68) s)))) as (s3 & -> & Hm & Hr).
  rewrite !exec_straight by reflexivity. rewrite exec_ret. by eapply (parts_switched s Hok 68 80 82).
Qed.

(** The program that switches, with or without page tables. *)
Definition switch_prog (pt : bool) : list instr := if pt then cpu_switch_to_with_pt else cpu_switch_to.

Lemma switch_prog_switched pt s : switch_ok s → switched s (exec (switch_prog pt) 0 s).
Proof. destruct pt; [apply cpu_switch_to_with_pt_switched|apply cpu_switch_to_switched]. Qed.

(** A task that is switched away from (state [s0], its context at [x0]) and
    later switched to again (state [s2], its context at [x1] with the bytes the
    first switch left there) continues with all of x19-x30, SP, FPCR, FPSR,
    q0-q31 and TPIDR_EL0 as they were, with either of the two switch routines
    both times; at the first switch the other task continues with the registers
    of its own context. *)
Theorem context_switch_roundtrip pt pt' s0 s2 :
  switch_ok s0 → switch_ok s2 → m_regs s2 (X 1) = m_regs s0 (X 0) →
  (∀ a, m_regs s0 (X 0) ≤ a < m_regs s0 (X 0) + CTX_SIZE → m_mem s2 a = m_mem (exec (switch_prog pt) 0 s0) a) →
  ∀ r off, (r, off) ∈ layout →
    m_regs (exec (switch_prog pt') 0 s2) r = m_regs s0 r ∧
    m_regs (exec (switch_prog pt) 0 s0) r = load (width r) (m_regs s0 (X 1) + off) (m_mem s0).
Proof.
  intros H0 H2 Hctx Hmem r off Hin.
  destruct (switch_prog_switched pt s0 H0 r off Hin) as [Hsaved Hnew].
  destruct (switch_prog_switched pt' s2 H2 r off Hin) as [_ Hback]. split; [|done].
  rewrite Hback, Hctx, <- Hsaved. apply load_ext. intros a Ha. apply Hmem.
  pose proof (layout_in r off Hin). lia.
Qed.

(** Task A at 0x1000 with its stack below 0x9000 switches to task B, whose
    context at 0x2000 holds the stack pointer 0xa000; later B switches back. *)
Definition demo_mem : mem := store 8 (0x2000 + 96) 0xa000 (λ _, 0).
Definition demo_s0 : mstate :=
  mkM (λ r, match r with X 0 => 0x1000 | X 1 => 0x2000 | SP => 0x9000 | X 19 => 77 | Q 3 => 2^100 | _ => 0 end)
    demo_mem [].
Definition demo_s2 : mstate :=
  mkM (λ r, match r with X 0 => 0x2000 | X 1 => 0x1000 | SP => 0xa000 | X 2 => 0x5000 | _ => 5 end)
    (m_mem (exec (switch_prog false) 0 demo_s0)) [].

Lemma m_mem_mkM R m o : m_mem (mkM R m o) = m.
Proof. reflexivity. Qed.

Lemma demo_s2_mem a : m_mem demo_s2 a = m_mem (exec (switch_prog false) 0 demo_s0) a.
Proof. unfold demo_s2. rewrite m_mem_mkM. reflexivity. Qed.

Lemma demo_s0_ok : switch_ok demo_s0.
Proof.
  split; unfold disjoint; [|vm_compute; repeat split; try discriminate; (left + right); discriminate..].
  intros r. unfold reg_range. destruct r as [n|n| | | | |]; simpl; [| |lia..];
    (do 20 (destruct n as [|n]; [simpl; lia|])); simpl; lia.
Qed.

Lemma context_switch_roundtrip_witness :
  m_regs (exec (switch_prog true) 0 demo_s2) (X 19) = 77 ∧ m_regs (exec (switch_prog true) 0 demo_s2) (Q 3) = 2^100.
Proof.
  assert (switch_ok demo_s2) as H2.
  { split; unfold disjoint; [|vm_compute; repeat split; try discriminate; (left + right); discriminate..].
    intros r. unfold reg_range. destruct r as [n|n| | | | |]; simpl; [|lia..];
    (do 3 (destruct n as [|n]; [simpl; lia|])); simpl; lia. }
  assert (∀ r off, (r, off) ∈ layout →
    m_regs (exec (switch_prog true) 0 demo_s2) r = m_regs demo_s0 r) as Hall.
  { intros r off Hin. exact (proj1 (context_switch_roundtrip false true demo_s0 demo_s2 demo_s0_ok H2 eq_refl
      (λ a _, demo_s2_mem a) r off Hin)). }
  rewrite (Hall (X 19) 0), (Hall (Q 3) 160); [done|apply list_elem_of_lookup..]; [by exists 18%nat|by exists 0%nat].
Defined.
