(* ===== verification/Cpio.v ===== *)
(** * Byte strings and the initial RAM disk (src/servers/vfs/src/lib.rs)

    Byte-string literals and the operations of Rust's slices on them, and the
    search of the VFS server in a CPIO archive.  The theorems: the search ends
    on every image, and on an archive it returns the contents of the first file
    of that name. *)

From Stdlib Require Import ZArith Lia Ascii.
From stdpp Require Import base list option numbers strings.
From S2P Require Import Prelude Words.

Local Open Scope Z_scope.

(** ** Byte strings *)

(** [b"..."]: the escapes are [\n], [\t], [\0] and [\q] for a quote. *)
Fixpoint bytes (s : string) : list Z :=
  match s with
  | EmptyString => []
  | String "\"%char (String "n"%char s') => 10 :: bytes s'
  | String "\"%char (String "t"%char s') => 9 :: bytes s'
  | String "\"%char (String "0"%char s') => 0 :: bytes s'
  | String "\"%char (String "q"%char s') => 34 :: bytes s'
  | String c s' => Z.of_nat (Ascii.nat_of_ascii c) :: bytes s'
  end.

Definition bytes_eq (x y : list Z) : bool := bool_decide (x = y).

(** [x.starts_with(p)] and [x.ends_with(p)] *)
Definition starts_with (p x : list Z) : bool := bytes_eq (take (length p) x) p.
Definition ends_with (p x : list Z) : bool :=
  (length p <=? length x)%nat && bytes_eq (drop (length x - length p) x) p.

Definition contains_byte (c : Z) (x : list Z) : bool := existsb (λ y, y =? c) x.

(** [&x[a..b]] of a range that was checked. *)
Definition slice (x : list Z) (a b : Z) : list Z := take (Z.to_nat (b - a)) (drop (Z.to_nat a) x).

(** ** The archive *)

Definition hex_digit (b : Z) : option Z :=
  if (48 <=? b) && (b <=? 57) then Some (b - 48)
  else if (97 <=? b) && (b <=? 102) then Some (b - 97 + 10)
  else if (65 <=? b) && (b <=? 70) then Some (b - 65 + 10)
  else None.

Fixpoint parse_hex_loop (s : list Z) (val : Z) : Z :=
  match s with
  | [] => val
  | b :: s' =>
      match hex_digit b with
      | Some d => parse_hex_loop s' (u64 (Z.lor (Z.shiftl val 4) d))
      | None => 0
      end
  end.

Definition parse_cpio_hex (s : list Z) : Z := parse_hex_loop s 0.

Definition MAGIC : list Z := bytes "070701".
Definition TRAILER : list Z := bytes "TRAILER!!!".
Definition HEADER_SIZE : Z := 110.

(** The header at [offset]: the sizes of the name and of the file, and the mode.
    [None] is the end of the loop: no room for a header, or no magic. *)
Definition cpio_header (data : list Z) (offset : Z) : option (Z * Z * Z) :=
  if len data <? offset + HEADER_SIZE then None
  else let header := slice data offset (offset + HEADER_SIZE) in
       if negb (bytes_eq (slice header 0 6) MAGIC) then None
       else Some (parse_cpio_hex (slice header 94 102), parse_cpio_hex (slice header 54 62),
                  parse_cpio_hex (slice header 14 22)).

(** The name without a leading ["./"] or ["/"]. *)
Definition strip_name (name : list Z) : list Z :=
  let n := if starts_with (bytes "./") name then drop 2 name else name in
  if starts_with (bytes "/") n then drop 1 n else n.

(** [(x + 3) & !3] *)
Definition align4 (x : Z) : Z := Z.ldiff (x + 3) 3.

(** The loop of [find_in_initrd]: the position and the size of the file. *)
Fixpoint find_loop (fuel : nat) (data query : list Z) (offset : Z) : option (option (Z * Z)) :=
  match fuel with
  | O => None
  | S fuel' =>
      match cpio_header data offset with
      | None => Some None
      | Some (namesize, filesize, _) =>
          let name_off := offset + HEADER_SIZE in
          if len data <? name_off + namesize then Some None
          else
            let name := slice data name_off (name_off + saturating_sub namesize 1) in
            if bytes_eq name TRAILER then Some None
            else
              let file_off := align4 (name_off + namesize) in
              let next_off := align4 (file_off + filesize) in
              if bytes_eq (strip_name name) query && (file_off + filesize <=? len data)
              then Some (Some (file_off, filesize))
              else if next_off <=? offset then Some None
              else find_loop fuel' data query next_off
      end
  end.

(** One more iteration than there are bytes. *)
Definition cpio_fuel (data : list Z) : nat := S (length data).

Definition strip_slash (path : list Z) : list Z :=
  if starts_with (bytes "/") path then drop 1 path else path.

(** [find_in_initrd] on the bytes of the image. *)
Definition find_in_initrd (data path : list Z) : option (option (Z * Z)) :=
  if (len data <? 6) || negb (bytes_eq (slice data 0 6) MAGIC) then Some None
  else find_loop (cpio_fuel data) data (strip_slash path) 0.

(** ** The search ends *)

Lemma align4_spec x : align4 x = 4 * ((x + 3) / 4).
Proof.
  unfold align4. generalize (x + 3). intros y. change 3 with (Z.ones 2). rewrite Z.ldiff_ones_r by lia.
  rewrite Z.shiftr_div_pow2, Z.shiftl_mul_pow2 by lia. change (2 ^ 2) with 4. lia.
Qed.

Lemma align4_ge x : x ≤ align4 x < x + 4.
Proof.
  rewrite align4_spec. pose proof (Z.div_mod (x + 3) 4). pose proof (Z.mod_pos_bound (x + 3) 4). lia.
Qed.

Lemma align4_multiple x y : align4 (4 * x + y) = 4 * x + align4 y.
Proof.
  rewrite !align4_spec. replace (4 * x + y + 3) with (x * 4 + (y + 3)) by lia.
  rewrite Z.div_add_l by lia. lia.
Qed.

Lemma find_loop_ends fuel data query offset :
  0 ≤ offset → len data < Z.of_nat fuel + offset → (0 < fuel)%nat →
  ∃ r, find_loop fuel data query offset = Some r.
Proof.
  revert offset. induction fuel as [|fuel IH]; intros offset Ho Hf Hp; [lia|]. simpl.
  destruct (cpio_header data offset) as [[[namesize filesize] mode]|] eqn:Hh; [|eauto].
  unfold cpio_header in Hh. repeat (case_bool; simplify_eq/=; eauto).
  apply IH; unfold HEADER_SIZE in *; lia.
Qed.

(** The search in the RAM disk ends on every image, also on a damaged one. *)
Theorem find_in_initrd_ends data path : ∃ r, find_in_initrd data path = Some r.
Proof.
  unfold find_in_initrd. case_bool; [eauto|]. apply find_loop_ends; unfold cpio_fuel, len; lia.
Qed.

(** ** Archives *)

Definition hex_char (d : Z) : Z := if d <? 10 then 48 + d else 55 + d.

(** [n] hexadecimal digits of [v]. *)
Fixpoint hex_encode (n : nat) (v : Z) : list Z :=
  match n with
  | O => []
  | S n' => hex_encode n' (v / 16) ++ [hex_char (v mod 16)]
  end.

(** A file of an archive in the "newc" format: the fields the server does not
    read are any bytes. *)
Record cpio_file := mkFile {
  f_ino : list Z;
  f_mode : Z;
  f_ids : list Z;         (* uid, gid, nlink, mtime *)
  f_devs : list Z;        (* devmajor, devminor, rdevmajor, rdevminor *)
  f_check : list Z;
  f_name : list Z;
  f_contents : list Z
}.

Definition file_header (f : cpio_file) : list Z :=
  MAGIC ++ f_ino f ++ hex_encode 8 (f_mode f) ++ f_ids f ++ hex_encode 8 (len (f_contents f)) ++
  f_devs f ++ hex_encode 8 (len (f_name f) + 1) ++ f_check f.

Definition padding (n : Z) : list Z := replicate (Z.to_nat (align4 n - n)) 0.

Definition encode (f : cpio_file) : list Z :=
  (file_header f ++ f_name f ++ [0] ++ padding (HEADER_SIZE + len (f_name f) + 1)) ++
  f_contents f ++ padding (len (f_contents f)).

Definition trailer : cpio_file :=
  mkFile (hex_encode 8 0) 0 (hex_encode 32 0) (hex_encode 32 0) (hex_encode 8 0) TRAILER [].

Definition archive (fs : list cpio_file) : list Z := List.concat (List.map encode fs) ++ encode trailer.

Record file_fields_ok (f : cpio_file) : Prop := {
  fo_ino : length (f_ino f) = 8%nat;
  fo_ids : length (f_ids f) = 32%nat;
  fo_devs : length (f_devs f) = 32%nat;
  fo_check : length (f_check f) = 8%nat;
  fo_mode : 0 ≤ f_mode f < 2^32;
  fo_contents : len (f_contents f) < 2^32;
  fo_name : len (f_name f) + 1 < 2^32
}.

Definition file_ok (f : cpio_file) : Prop := file_fields_ok f ∧ f_name f ≠ TRAILER.

Lemma length_hex_encode n v : length (hex_encode n v) = n.
Proof. revert v. induction n as [|n IH]; intros v; [done|]. simpl. rewrite length_app, IH. simpl. lia. Qed.

Lemma hex_digit_char d : 0 ≤ d < 16 → hex_digit (hex_char d) = Some d.
Proof.
  intros Hd. assert (Forall (λ d, hex_digit (hex_char d) = Some d) (seqZ 0 16)) as Hall
    by (repeat (apply Forall_cons; split; [reflexivity|]); apply Forall_nil; exact I).
  rewrite Forall_forall in Hall. apply Hall, elem_of_seqZ. lia.
Qed.

Lemma parse_hex_encode n v s acc : 0 ≤ acc → 0 ≤ v < 16 ^ Z.of_nat n → acc * 16 ^ Z.of_nat n + v < 2^64 →
  parse_hex_loop (hex_encode n v ++ s) acc = parse_hex_loop s (acc * 16 ^ Z.of_nat n + v).
Proof.
  revert v s. induction n as [|n IH]; intros v s Ha Hv Hm; simpl hex_encode.
  - change (16 ^ Z.of_nat 0) with 1 in *. simpl. f_equal. lia.
  - rewrite Nat2Z.inj_succ, Z.pow_succ_r in * by lia.
    pose proof (Z.div_mod v 16 ltac:(lia)). pose proof (Z.mod_pos_bound v 16 ltac:(lia)).
    assert (0 ≤ v / 16 < 16 ^ Z.of_nat n) as Hq by (split; [apply Z.div_pos; lia|apply Z.div_lt_upper_bound; lia]).
    rewrite <- app_assoc, IH by lia. simpl. rewrite hex_digit_char by lia. f_equal.
    rewrite Z.shiftl_mul_pow2 by lia. rewrite (lor_add _ _ 4) by (rewrite ?Z.mod_mul by lia; lia).
    change (2 ^ 4) with 16.
    rewrite u64_small; [lia|]. nia.
Qed.

Lemma parse_hex8 v : 0 ≤ v < 2^32 → parse_cpio_hex (hex_encode 8 v) = v.
Proof.
  intros Hv. unfold parse_cpio_hex. rewrite <- (app_nil_r (hex_encode 8 v)).
  rewrite parse_hex_encode by (change (16 ^ Z.of_nat 8) with (2^32); lia). simpl. lia.
Qed.

(** *** Slices of an archive *)

Lemma slice_mid x y z a b : a = len x → b = len x + len y → slice (x ++ y ++ z) a b = y.
Proof.
  intros -> ->. unfold slice, len.
  replace (Z.to_nat (Z.of_nat (length x) + Z.of_nat (length y) - Z.of_nat (length x))) with (length y) by lia.
  by rewrite Nat2Z.id, drop_app_length, take_app_length.
Qed.

Lemma len_padding n : len (padding n) = align4 n - n.
Proof. unfold len, padding. rewrite length_replicate. pose proof (align4_ge n). lia. Qed.

Section file.
Context (f : cpio_file) (Hf : file_fields_ok f).

Lemma len_file_header : len (file_header f) = HEADER_SIZE.
Proof.
  destruct Hf. unfold len, file_header. rewrite !length_app, !length_hex_encode.
  rewrite fo_ino0, fo_ids0, fo_devs0, fo_check0. reflexivity.
Qed.

(** The fields of the header where the server looks for them. *)
Lemma file_header_fields :
  slice (file_header f) 0 6 = MAGIC ∧
  slice (file_header f) 14 22 = hex_encode 8 (f_mode f) ∧
  slice (file_header f) 54 62 = hex_encode 8 (len (f_contents f)) ∧
  slice (file_header f) 94 102 = hex_encode 8 (len (f_name f) + 1).
Proof.
  destruct Hf. unfold file_header.
  set (h1 := hex_encode 8 (f_mode f)). set (h2 := hex_encode 8 (len (f_contents f))).
  set (h3 := hex_encode 8 (len (f_name f) + 1)).
  assert (length h1 = 8%nat ∧ length h2 = 8%nat ∧ length h3 = 8%nat) as (H1 & H2 & H3)
    by (split_and!; apply length_hex_encode).
  split_and!.
  - apply (slice_mid []); reflexivity.
  - rewrite (assoc app MAGIC). apply slice_mid; unfold len; rewrite !length_app; simpl; lia.
  - replace (MAGIC ++ f_ino f ++ h1 ++ f_ids f ++ h2 ++ f_devs f ++ h3 ++ f_check f)
      with ((MAGIC ++ f_ino f ++ h1 ++ f_ids f) ++ h2 ++ (f_devs f ++ h3 ++ f_check f))
      by (by rewrite <- !app_assoc).
    apply slice_mid; unfold len; rewrite !length_app; simpl; lia.
  - replace (MAGIC ++ f_ino f ++ h1 ++ f_ids f ++ h2 ++ f_devs f ++ h3 ++ f_check f)
      with ((MAGIC ++ f_ino f ++ h1 ++ f_ids f ++ h2 ++ f_devs f) ++ h3 ++ f_check f)
      by (by rewrite <- !app_assoc).
    apply slice_mid; unfold len; rewrite !length_app; simpl; lia.
Qed.

(** Where the contents begin, relative to the header. *)
Definition contents_off : Z := align4 (HEADER_SIZE + len (f_name f) + 1).

Lemma len_encode : len (encode f) = contents_off + align4 (len (f_contents f)).
Proof.
  unfold encode, contents_off. rewrite !len_app, !len_padding, len_file_header. change (len [0]) with 1. lia.
Qed.

Section at_offset.
Context (pre rest : list Z) (k : Z) (Hk : len pre = 4 * k).
Notation img := (pre ++ encode f ++ rest).

Lemma len_img : len img = len pre + len (encode f) + len rest.
Proof. rewrite !len_app. lia. Qed.

Lemma header_at : cpio_header img (len pre) = Some (len (f_name f) + 1, len (f_contents f), f_mode f).
Proof.
  pose proof len_img as Hlen. rewrite len_encode in Hlen. unfold contents_off in Hlen.
  pose proof (align4_ge (HEADER_SIZE + len (f_name f) + 1)). pose proof (align4_ge (len (f_contents f))).
  pose proof (len_nonneg (f_name f)). pose proof (len_nonneg (f_contents f)). pose proof (len_nonneg rest).
  unfold cpio_header. rewrite (proj2 (Z.ltb_ge _ _)) by lia.
  replace (slice img (len pre) (len pre + HEADER_SIZE)) with (file_header f).
  2:{ unfold encode. rewrite <- !app_assoc. symmetry. apply slice_mid; [done|]. by rewrite len_file_header. }
  destruct file_header_fields as (-> & -> & -> & ->).
  unfold bytes_eq. rewrite bool_decide_true by done. simpl negb. cbv iota.
  destruct Hf. rewrite !parse_hex8 by lia. done.
Qed.

Lemma name_at : slice img (len pre + HEADER_SIZE) (len pre + HEADER_SIZE + len (f_name f)) = f_name f.
Proof.
  unfold encode. rewrite <- !app_assoc, (assoc app pre (file_header f)).
  apply slice_mid; rewrite len_app, len_file_header; lia.
Qed.

Lemma contents_at :
  slice img (len pre + contents_off) (len pre + contents_off + len (f_contents f)) = f_contents f.
Proof.
  unfold encode.
  set (hd := file_header f ++ f_name f ++ [0] ++ padding (HEADER_SIZE + len (f_name f) + 1)).
  replace (pre ++ (hd ++ f_contents f ++ padding (len (f_contents f))) ++ rest) with
    ((pre ++ hd) ++ f_contents f ++ (padding (len (f_contents f)) ++ rest)) by (by rewrite <- !app_assoc).
  assert (len (pre ++ hd) = len pre + contents_off) as Hl.
  { unfold hd. rewrite !len_app, len_padding, len_file_header. change (len [0]) with 1. unfold contents_off. lia. }
  apply slice_mid; rewrite Hl; done.
Qed.

(** One iteration of the search. *)
Lemma find_loop_step fuel query : f_name f ≠ TRAILER →
  find_loop (S fuel) img query (len pre) =
  if bytes_eq (strip_name (f_name f)) query then Some (Some (len pre + contents_off, len (f_contents f)))
  else find_loop fuel img query (len (pre ++ encode f)).
Proof.
  intros Hn. pose proof len_img as Hlen. rewrite len_encode in Hlen. unfold contents_off in *.
  pose proof (align4_ge (HEADER_SIZE + len (f_name f) + 1)). pose proof (align4_ge (len (f_contents f))).
  pose proof (len_nonneg (f_name f)). pose proof (len_nonneg (f_contents f)). pose proof (len_nonneg rest).
  cbn [find_loop]. rewrite header_at. cbv beta iota zeta.
  rewrite (proj2 (Z.ltb_ge _ _)) by lia. unfold saturating_sub. rewrite Z.max_r by lia.
  replace (len pre + HEADER_SIZE + (len (f_name f) + 1 - 1)) with (len pre + HEADER_SIZE + len (f_name f)) by lia.
  rewrite name_at.
  assert (bytes_eq (f_name f) TRAILER = false) as -> by (by apply bool_decide_false).
  replace (len pre + HEADER_SIZE + (len (f_name f) + 1)) with (4 * k + (HEADER_SIZE + len (f_name f) + 1)) by lia.
  rewrite align4_multiple, <- Hk. rewrite (proj2 (Z.leb_le _ (len img))) by lia. rewrite andb_true_r.
  case_bool; [done|]. rewrite len_app, len_encode. unfold contents_off.
  replace (len pre + align4 (HEADER_SIZE + len (f_name f) + 1) + len (f_contents f)) with
    (4 * (k + (HEADER_SIZE + len (f_name f) + 1 + 3) / 4) + len (f_contents f))
    by (rewrite (align4_spec (HEADER_SIZE + len (f_name f) + 1)); lia).
  rewrite align4_multiple. pose proof (align4_spec (HEADER_SIZE + len (f_name f) + 1)) as Hs.
  rewrite (proj2 (Z.leb_gt _ _)) by (unfold HEADER_SIZE in *; lia). f_equal. lia.
Qed.
End at_offset.
End file.

(** *** The search in an archive *)

#[local] Arguments encode : simpl never.

Lemma trailer_ok : file_fields_ok trailer.
Proof. split; try reflexivity; vm_compute; split; congruence. Qed.

Definition named (query : list Z) (f : cpio_file) : bool := bytes_eq (strip_name (f_name f)) query.

(** What the search returns on [img] for the files [fs]. *)
Definition finds (img query : list Z) (fs : list cpio_file) (r : option (option (Z * Z))) : Prop :=
  match find_first (named query) fs with
  | Some f => ∃ off, r = Some (Some (off, len (f_contents f))) ∧
                     slice img off (off + len (f_contents f)) = f_contents f
  | None => r = Some None
  end.

Lemma find_loop_trailer fuel pre query k : len pre = 4 * k →
  find_loop (S fuel) (pre ++ encode trailer) query (len pre) = Some None.
Proof.
  intros Hk. replace (pre ++ encode trailer) with (pre ++ encode trailer ++ []) by (by rewrite app_nil_r).
  pose proof (len_img trailer pre []) as Hlen. cbn [find_loop]. rewrite (header_at trailer trailer_ok). cbv beta iota zeta.
  rewrite (proj2 (Z.ltb_ge _ _)).
  2:{ rewrite Hlen, (len_encode trailer trailer_ok). unfold HEADER_SIZE. vm_compute (len (f_name trailer)).
      vm_compute (contents_off trailer). vm_compute (align4 _). change (len []) with 0. lia. }
  pose proof (name_at trailer trailer_ok pre []) as Hn.
  replace (len pre + HEADER_SIZE + saturating_sub (len (f_name trailer) + 1) 1) with
    (len pre + HEADER_SIZE + len (f_name trailer)) by (by f_equal).
  rewrite Hn. reflexivity.
Qed.

Lemma find_loop_archive fs fuel pre query k : Forall file_ok fs → len pre = 4 * k → (length fs < fuel)%nat →
  finds (pre ++ archive fs) query fs (find_loop fuel (pre ++ archive fs) query (len pre)).
Proof.
  revert fuel pre k. induction fs as [|f fs IH]; intros fuel pre k Hok Hk Hfuel;
    (destruct fuel as [|fuel]; [simpl in Hfuel; lia|]).
  - by apply (find_loop_trailer _ _ _ k).
  - apply Forall_cons in Hok as [[Hf Hn] Hok]. simpl in Hfuel.
    replace (pre ++ archive (f :: fs)) with (pre ++ encode f ++ archive fs)
      by (unfold archive; simpl; by rewrite <- !app_assoc).
    rewrite (find_loop_step f Hf pre (archive fs) k Hk fuel query Hn).
    unfold finds, find_first. cbn [position]. fold (named query f). destruct (named query f).
    + eexists. split; [done|]. apply (contents_at f Hf).
    + rewrite (app_assoc pre (encode f) (archive fs)). specialize (IH fuel (pre ++ encode f)
        (k + (HEADER_SIZE + len (f_name f) + 1 + 3) / 4 + (len (f_contents f) + 3) / 4) Hok).
      unfold finds, find_first in IH. destruct (position (named query) fs); cbn; apply IH; try lia;
        rewrite len_app, (len_encode f Hf); unfold contents_off; rewrite !align4_spec; lia.
Qed.

Lemma archive_start fs : Forall file_ok fs → 6 ≤ len (archive fs) ∧ slice (archive fs) 0 6 = MAGIC.
Proof.
  intros Hok. assert (∃ f rest, file_fields_ok f ∧ archive fs = file_header f ++ rest) as (f & rest & Hf & ->).
  { destruct fs as [|f fs]; [exists trailer|exists f]; unfold archive; cbn [List.map List.concat app]; unfold encode at 1.
    - eexists. split; [apply trailer_ok|]. by rewrite <- (app_assoc (file_header trailer)).
    - apply Forall_cons in Hok as [[Hf _] _]. eexists. split; [done|]. by rewrite <- !(app_assoc (file_header f)), <- app_assoc. }
  pose proof (len_nonneg rest). rewrite len_app, (len_file_header f Hf). split; [unfold HEADER_SIZE; lia|].
  unfold file_header. rewrite <- app_assoc. by apply (slice_mid []).
Qed.

(** The number of files is below the number of bytes. *)
Lemma archive_length fs : (length fs ≤ length (archive fs))%nat.
Proof.
  unfold archive. rewrite length_app. induction fs as [|f fs IH]; [simpl; lia|].
  cbn [List.map List.concat length]. rewrite length_app. unfold encode at 1, file_header. rewrite !length_app.
  change (length MAGIC) with 6%nat. lia.
Qed.

(** On every archive, whatever the fields the server does not read, the
    search for a path finds exactly the contents of the first file with that
    name (without a leading ["./"] or ["/"]), and nothing when there is none. *)
Theorem find_in_initrd_spec fs path : Forall file_ok fs →
  match find_first (named (strip_slash path)) fs with
  | Some f => ∃ off, find_in_initrd (archive fs) path = Some (Some (off, len (f_contents f))) ∧
                     slice (archive fs) off (off + len (f_contents f)) = f_contents f
  | None => find_in_initrd (archive fs) path = Some None
  end.
Proof.
  intros Hok. destruct (archive_start fs Hok) as [Hl Hm]. unfold find_in_initrd.
  rewrite (proj2 (Z.ltb_ge _ _)) by done. rewrite Hm. change (false || negb (bytes_eq MAGIC MAGIC)) with false. cbv iota.
  apply (find_loop_archive fs (cpio_fuel (archive fs)) [] (strip_slash path) 0 Hok eq_refl).
  unfold cpio_fuel. pose proof (archive_length fs). lia.
Qed.

Definition demo_file (name contents : list Z) : cpio_file :=
  mkFile (hex_encode 8 1) 33188 (hex_encode 32 0) (hex_encode 32 0) (hex_encode 8 0) name contents.

Lemma find_in_initrd_spec_witness :
  find_in_initrd (archive [demo_file (bytes "init") [1; 2; 3]; demo_file (bytes "./bin/sh") [7; 8]])
    (bytes "/bin/sh") = Some (Some (240, 2)).
Proof.
  assert (Forall file_ok [demo_file (bytes "init") [1; 2; 3]; demo_file (bytes "./bin/sh") [7; 8]]) as Hok.
  { repeat (apply Forall_cons; split); [..|by apply Forall_nil]; (split; [split; try reflexivity; vm_compute; repeat split; congruence|done]). }
  destruct (find_in_initrd_spec _ (bytes "/bin/sh") Hok) as (off & Hoff & _).
  rewrite Hoff. vm_compute in Hoff. injection Hoff as <-. reflexivity.
Defined.
