(* ===== verification/VfsData.v ===== *)
(** * The data of the VFS server (src/servers/vfs/src/lib.rs)

    File descriptor tables, the /tmp pool, pipes, eventfds and timerfds, the
    static files, and the server's state as a whole. *)

From stdpp Require Import base list option numbers strings.
From Stdlib Require Import ZArith Lia.
From S2P Require Import Prelude Words Memory IpcPort Cpio.

Local Open Scope Z_scope.

(** ** Messages *)

Definition VFS_OPEN : Z := 0x10.
Definition VFS_READ : Z := 0x11.
Definition VFS_WRITE : Z := 0x12.
Definition VFS_CLOSE : Z := 0x13.
Definition VFS_LSEEK : Z := 0x15.
Definition VFS_PIPE : Z := 0x17.
Definition VFS_DUP2 : Z := 0x18.
Definition VFS_FCNTL : Z := 0x19.
Definition VFS_FORK_DUP : Z := 0x1A.
Definition VFS_EXEC_CLOEXEC : Z := 0x1B.
Definition VFS_CLOSE_ALL : Z := 0x1C.
Definition VFS_GETDENTS64 : Z := 0x1D.
Definition VFS_ALLOC_FD : Z := 0x1E.
Definition VFS_UNLINK : Z := 0x1F.
Definition VFS_MKDIR : Z := 0x20.
Definition VFS_FTRUNCATE : Z := 0x21.
Definition VFS_RENAME : Z := 0x22.
Definition VFS_FD_PATH : Z := 0x23.
Definition VFS_EVENTFD : Z := 0x24.
Definition VFS_TIMERFD_CREATE : Z := 0x25.
Definition VFS_TIMERFD_SETTIME : Z := 0x26.
Definition VFS_TIMERFD_GETTIME : Z := 0x27.
Definition VFS_IOCTL : Z := 0x28.

Definition arg (msg : Message) (n : nat) : Z := le_decode (take 8 (drop (n * 8) (data msg))).

Definition make_reply (v : Z) : Message :=
  let m := Message_empty in
  mkMessage (tag m) (reply_port m) (le_encode 8 (u64 v) ++ drop 8 (data m)) (cap m).
Definition ok_reply : Message := make_reply 0.
Definition err_reply (e : Z) : Message := make_reply e.
Definition val_reply (v : Z) : Message := make_reply (to_i64 v).

(** ** Arrays of bytes *)

(** [a[off..off+n].copy_from_slice(src)], and the unchecked copy of the same
    bytes. *)
Definition splice (off : Z) (src a : list Z) : list Z :=
  take (Z.to_nat off) a ++ src ++ drop (Z.to_nat off + length src) a.

(** ** The /tmp pool *)

Definition MAX_TMP_FILES : nat := 32.
Definition MAX_TMP_SIZE : Z := 4096.
Definition MAX_TMP_PATH : Z := 64.

Record TmpFileEntry := mkTmp {
  t_path : list Z;
  t_path_len : Z;
  t_data : list Z;
  t_len : Z;
  t_in_use : bool;
  t_is_dir : bool
}.

Definition TmpFileEntry_empty : TmpFileEntry :=
  mkTmp (replicate (Z.to_nat MAX_TMP_PATH) 0) 0 (replicate (Z.to_nat MAX_TMP_SIZE) 0) 0 false false.

(** ** Vnodes *)

(** A [&'static [u8]]: the data of an entry of [RAMFS], a name of
    [RAMFS_DIRS], the literal ["/tmp"], or bytes of the RAM disk. *)
Inductive static_slice := RamData (i : nat) | DirName (i : nat) | TmpName | Initrd (ptr n : Z).

Inductive VnodeKind :=
  | KNone
  | RamFile (data : static_slice) (pos : Z)
  | DevNull
  | DevZero
  | Pipe (ring : nat) (is_write : bool)
  | TmpFile (idx : nat) (pos : Z) (writable : bool)
  | EventFd (slot : nat)
  | TimerFd (slot : nat)
  | DevUrandom
  | DevStdio (target_fd : Z)
  | DevFb (pos : Z).

#[export] Instance static_slice_eq_dec : EqDecision static_slice.
Proof. solve_decision. Defined.
#[export] Instance VnodeKind_eq_dec : EqDecision VnodeKind.
Proof. solve_decision. Defined.

(** ** Pipes *)

Definition PIPE_RING_SIZE : nat := Z.to_nat 4096.
Definition MAX_PIPES : nat := 16.

Record PipeRing := mkRing {
  r_buf : list Z;
  r_read_pos : nat;
  r_write_pos : nat;
  r_count : nat;
  r_read_open : bool;
  r_write_open : bool
}.

Definition PipeRing_new : PipeRing := mkRing (replicate PIPE_RING_SIZE 0) 0 0 0 false false.

Definition put (b : Z) (r : PipeRing) : bool * PipeRing :=
  if (PIPE_RING_SIZE <=? r_count r)%nat then (false, r)
  else (true, mkRing (<[r_write_pos r := b]> (r_buf r)) (r_read_pos r)
                ((r_write_pos r + 1) mod PIPE_RING_SIZE) (r_count r + 1) (r_read_open r) (r_write_open r)).

Definition get (r : PipeRing) : option Z * PipeRing :=
  if (r_count r =? 0)%nat then (None, r)
  else (r_buf r !! r_read_pos r,
        mkRing (r_buf r) ((r_read_pos r + 1) mod PIPE_RING_SIZE) (r_write_pos r) (r_count r - 1)
          (r_read_open r) (r_write_open r)).

Definition set_open (is_write v : bool) (r : PipeRing) : PipeRing :=
  mkRing (r_buf r) (r_read_pos r) (r_write_pos r) (r_count r)
    (if is_write then r_read_open r else v) (if is_write then v else r_write_open r).

(** ** eventfds and timerfds *)

Definition MAX_EVENTFDS : nat := 16.
Definition MAX_TIMERFDS : nat := 16.

Record TimerFdEntry := mkTimer {
  tf_armed : bool;
  tf_deadline_ticks : Z;
  tf_interval_ticks : Z;
  tf_expirations : Z
}.

Definition TimerFdEntry_free : TimerFdEntry := mkTimer false 0 0 0.
Definition timer_is_free (e : TimerFdEntry) : bool :=
  negb (tf_armed e) && (tf_deadline_ticks e =? 0) && (tf_expirations e =? 0).

(** ** File descriptor tables *)

Definition MAX_PROCS : nat := 64.
Definition MAX_FDS : Z := 64.
Definition O_CLOEXEC : Z := 0x80000.

Record FdEntry := mkFd { fd_kind : VnodeKind; fd_flags : Z; fd_in_use : bool }.
Definition FdEntry_empty : FdEntry := mkFd KNone 0 false.

Record ProcFdTable := mkTbl { p_pid : Z; p_fds : list FdEntry; p_in_use : bool }.
Definition ProcFdTable_empty : ProcFdTable := mkTbl 0 (replicate (Z.to_nat MAX_FDS) FdEntry_empty) false.

Definition alloc_fd (t : ProcFdTable) : option nat := position (λ f, negb (fd_in_use f)) (p_fds t).

(** ** Static files *)

Definition RAMFS : list (list Z * list Z) := [
  (bytes "/dev/null", bytes "");
  (bytes "/dev/zero", bytes "");
  (bytes "/dev/urandom", bytes "");
  (bytes "/dev/random", bytes "");
  (bytes "/dev/stdin", bytes "");
  (bytes "/dev/stdout", bytes "");
  (bytes "/dev/stderr", bytes "");
  (bytes "/dev/tty", bytes "");
  (bytes "/etc/motd", bytes "Welcome to Cyanos!\nType 'help' for available commands.\n");
  (bytes "/etc/passwd", bytes "root:x:0:0:root:/root:/bin/sh\ndaemon:x:1:1:daemon:/:/bin/false\n");
  (bytes "/etc/group", bytes "root:x:0:root\ndaemon:x:1:\n");
  (bytes "/etc/hostname", bytes "cyanos\n");
  (bytes "/etc/hosts", bytes "127.0.0.1\tlocalhost\n::1\t\tlocalhost\n127.0.0.1\tcyanos\n");
  (bytes "/etc/resolv.conf", bytes "nameserver 8.8.8.8\nnameserver 8.8.4.4\n");
  (bytes "/etc/services", bytes "http\t80/tcp\nhttps\t443/tcp\nssh\t22/tcp\nftp\t21/tcp\n");
  (bytes "/etc/protocols", bytes "ip\t0\tIP\ntcp\t6\tTCP\nudp\t17\tUDP\nicmp\t1\tICMP\n");
  (bytes "/etc/nsswitch.conf", bytes "hosts: files dns\npasswd: files\ngroup: files\n");
  (bytes "/etc/os-release",
   bytes "NAME=\qCyanos\q\nVERSION=\q1.0\q\nID=cyanos\nPRETTY_NAME=\qCyanos 1.0\q\n");
  (bytes "/proc/version", bytes "Linux version 6.0.0-cyanos (Cyanos Project) (gcc 13.0)\n");
  (bytes "/proc/cpuinfo",
   bytes "processor\t: 0\nmodel name\t: Cyanos Virtual CPU\ncpu MHz\t\t: 1000.000\n" ++
   bytes "cache size\t: 4096 KB\nflags\t\t: fpu vme de pse tsc msr pae mce\n");
  (bytes "/proc/filesystems", bytes "nodev\ttmpfs\nnodev\tramfs\nnodev\tprocfs\n\text2\n");
  (bytes "/proc/mounts", bytes "proc /proc procfs rw 0 0\ntmpfs /tmp tmpfs rw 0 0\n");
  (bytes "/proc/net/dev",
   bytes "Inter-|   Receive                                       |  Transmit\n" ++
   bytes "face |bytes packets errs drop fifo frame compressed multicast" ++
   bytes "|bytes packets errs drop fifo colls carrier compressed\n" ++
   bytes "lo:      0       0    0    0    0     0          0         0       0       0    0    0    0     0       0          0\n");
  (bytes "/proc/net/if_inet6", bytes "");
  (bytes "/proc/net/fib_trie", bytes "Main:\n  +-- 0.0.0.0/0\n");
  (bytes "/proc/sys/kernel/hostname", bytes "cyanos\n");
  (bytes "/proc/sys/kernel/ostype", bytes "Linux\n");
  (bytes "/proc/sys/kernel/osrelease", bytes "6.0.0-cyanos\n");
  (bytes "/proc/sys/vm/overcommit_memory", bytes "0\n")].

Definition RAMFS_DIRS : list (list Z) := [
  bytes "/"; bytes "/etc"; bytes "/dev"; bytes "/proc"; bytes "/bin"; bytes "/tmp"; bytes "/home";
  bytes "/root"; bytes "/proc/net"; bytes "/proc/sys"; bytes "/proc/sys/kernel"; bytes "/proc/sys/vm"].

(** ** The server *)

(** What the server sees of the kernel: the memory the caller's pointers refer
    to, the direct map, the clock, the scheduler's answers about the current
    process, the page counts, and where the static data were placed. *)
Record Sys := mkSys {
  y_mem : mem;
  y_hhdm : Z;
  y_ticks : Z;
  y_current_pid : Z;
  y_current_ppid : Z;
  y_current_pgid : Z;
  y_total_pages : Z;
  y_free_pages : Z;
  y_static : static_slice → Z
}.

Record Framebuffer := mkFb { fb_base : Z; fb_width : Z; fb_height : Z; fb_pitch : Z }.

Record Vfs := mkVfs {
  v_tmp : list TmpFileEntry;
  v_pipes : list PipeRing;
  v_events : list Z;
  v_lfsr : Z;
  v_timers : list TimerFdEntry;
  v_tables : list ProcFdTable;
  v_initrd : Z * Z;                 (* base and size *)
  v_fb : Framebuffer;
  v_port : Z;                       (* SERVER_PORT *)
  v_sys : Sys
}.

Definition Vfs_init (y : Sys) : Vfs :=
  mkVfs (replicate MAX_TMP_FILES TmpFileEntry_empty) (replicate MAX_PIPES PipeRing_new)
    (replicate MAX_EVENTFDS U64_MAX) 0xdeadbeefcafebabe (replicate MAX_TIMERFDS TimerFdEntry_free)
    (replicate MAX_PROCS ProcFdTable_empty) (0, 0) (mkFb 0 0 0 0) U32_MAX y.

Definition set_tmp x (s : Vfs) : Vfs :=
  mkVfs x (v_pipes s) (v_events s) (v_lfsr s) (v_timers s) (v_tables s) (v_initrd s) (v_fb s) (v_port s) (v_sys s).
Definition set_pipes x (s : Vfs) : Vfs :=
  mkVfs (v_tmp s) x (v_events s) (v_lfsr s) (v_timers s) (v_tables s) (v_initrd s) (v_fb s) (v_port s) (v_sys s).
Definition set_events x (s : Vfs) : Vfs :=
  mkVfs (v_tmp s) (v_pipes s) x (v_lfsr s) (v_timers s) (v_tables s) (v_initrd s) (v_fb s) (v_port s) (v_sys s).
Definition set_lfsr x (s : Vfs) : Vfs :=
  mkVfs (v_tmp s) (v_pipes s) (v_events s) x (v_timers s) (v_tables s) (v_initrd s) (v_fb s) (v_port s) (v_sys s).
Definition set_timers x (s : Vfs) : Vfs :=
  mkVfs (v_tmp s) (v_pipes s) (v_events s) (v_lfsr s) x (v_tables s) (v_initrd s) (v_fb s) (v_port s) (v_sys s).
Definition set_tables x (s : Vfs) : Vfs :=
  mkVfs (v_tmp s) (v_pipes s) (v_events s) (v_lfsr s) (v_timers s) x (v_initrd s) (v_fb s) (v_port s) (v_sys s).
Definition set_port x (s : Vfs) : Vfs :=
  mkVfs (v_tmp s) (v_pipes s) (v_events s) (v_lfsr s) (v_timers s) (v_tables s) (v_initrd s) (v_fb s) x (v_sys s).
Definition set_sys x (s : Vfs) : Vfs :=
  mkVfs (v_tmp s) (v_pipes s) (v_events s) (v_lfsr s) (v_timers s) (v_tables s) (v_initrd s) (v_fb s) (v_port s) x.

Definition set_initrd (base size : Z) (s : Vfs) : Vfs :=
  mkVfs (v_tmp s) (v_pipes s) (v_events s) (v_lfsr s) (v_timers s) (v_tables s) (base, size) (v_fb s) (v_port s) (v_sys s).
Definition set_framebuffer (base width height pitch : Z) (s : Vfs) : Vfs :=
  mkVfs (v_tmp s) (v_pipes s) (v_events s) (v_lfsr s) (v_timers s) (v_tables s) (v_initrd s)
    (mkFb base width height pitch) (v_port s) (v_sys s).

Definition server_port (s : Vfs) : Z := v_port s.

Definition v_mem (s : Vfs) : mem := y_mem (v_sys s).
Definition v_ticks (s : Vfs) : Z := y_ticks (v_sys s).

(** Writes through the caller's pointers. *)
Definition poke (f : mem → mem) (s : Vfs) : Vfs :=
  let y := v_sys s in
  set_sys (mkSys (f (y_mem y)) (y_hhdm y) (y_ticks y) (y_current_pid y) (y_current_ppid y)
             (y_current_pgid y) (y_total_pages y) (y_free_pages y) (y_static y)) s.

Definition ramfs_data (i : nat) : list Z := default [] (snd <$> RAMFS !! i).
Definition ramfs_dir (i : nat) : list Z := default [] (RAMFS_DIRS !! i).

Definition static_bytes (s : Vfs) (x : static_slice) : list Z :=
  match x with
  | RamData i => ramfs_data i
  | DirName i => ramfs_dir i
  | TmpName => bytes "/tmp"
  | Initrd ptr n => mem_read (v_mem s) ptr n
  end.

Definition static_len (x : static_slice) : Z :=
  match x with
  | RamData i => len (ramfs_data i)
  | DirName i => len (ramfs_dir i)
  | TmpName => 4
  | Initrd _ n => n
  end.

(** [data.as_ptr()] *)
Definition static_ptr (s : Vfs) (x : static_slice) : Z :=
  match x with Initrd ptr _ => ptr | _ => y_static (v_sys s) x end.
