(* ===== verification/Vfs.v ===== *)
(** * The VFS server (src/servers/vfs/src/lib.rs)

    Every handler of the server, and the dispatch of messages.  A handler holds
    the locks of what it uses; it runs as one step.  [Panic] is an index out of
    bounds, or a recursion that does not end. *)

From stdpp Require Import base list option numbers strings.
From Stdlib Require Import ZArith Lia.
From S2P Require Import Prelude Words Memory IpcPort Cpio VfsData.

Local Open Scope Z_scope.

(** ** Lookups *)

Definition tbl_of (pid : Z) (t : ProcFdTable) : bool := p_in_use t && (p_pid t =? pid).

(** The index of the table of [pid]. *)
Definition find_tbl (pid : Z) (tbls : list ProcFdTable) : option nat := position (tbl_of pid) tbls.

Definition get_or_create (pid : Z) (tbls : list ProcFdTable) : option (nat * list ProcFdTable) :=
  match position (tbl_of pid) tbls with
  | Some i => Some (i, tbls)
  | None =>
      i ← position (λ t, negb (p_in_use t)) tbls;
      Some (i, <[i := mkTbl pid (p_fds ProcFdTable_empty) true]> tbls)
  end.

Definition set_entry (t : nat) (fd : nat) (e : FdEntry) (s : Vfs) : Vfs :=
  set_tables (alter (λ tbl, mkTbl (p_pid tbl) (<[fd := e]> (p_fds tbl)) (p_in_use tbl)) t (v_tables s)) s.

(** The entry of an open descriptor, with the index of its table:
    [find_tbl], then [fd >= MAX_FDS || !tbl.fds[fd].in_use]. *)
Definition open_fd (pid fd : Z) (s : Vfs) : option (nat * FdEntry) :=
  t ← find_tbl pid (v_tables s);
  tbl ← v_tables s !! t;
  if (MAX_FDS <=? fd) then None
  else e ← p_fds tbl !! Z.to_nat fd;
       if fd_in_use e then Some (t, e) else None.

Definition set_kind (k : VnodeKind) (e : FdEntry) : FdEntry := mkFd k (fd_flags e) (fd_in_use e).

(** Update the kind of an open descriptor. *)
Definition put_kind (t : nat) (fd : Z) (e : FdEntry) (k : VnodeKind) (s : Vfs) : Vfs :=
  set_entry t (Z.to_nat fd) (set_kind k e) s.

(** [read_cstr_raw]: the bytes before the first NUL of at most 256. *)
Fixpoint cstr_loop (m : mem) (n : nat) (p : Z) : option (list Z) :=
  match n with
  | O => None
  | S n' => if m p =? 0 then Some [] else (λ r, m p :: r) <$> cstr_loop m n' (p + 1)
  end.

Definition read_cstr_raw (ptr : Z) (s : Vfs) : option (list Z) :=
  if ptr =? 0 then None else cstr_loop (v_mem s) 256 ptr.

(** [path_eq]: equal lengths and equal bytes. *)
Definition path_eq (buf path : list Z) : bool := bytes_eq buf path.

Definition is_tmp_path (path : list Z) : bool :=
  bytes_eq path (bytes "/tmp") || starts_with (bytes "/tmp/") path.

(** [e.path_len == path.len() && &e.path[..path.len()] == path] *)
Definition tmp_named (path : list Z) (e : TmpFileEntry) : bool :=
  (t_path_len e =? len path) && bytes_eq (take (length path) (t_path e)) path.

Definition tmp_file_named (path : list Z) (e : TmpFileEntry) : bool :=
  t_in_use e && negb (t_is_dir e) && tmp_named path e.
Definition tmp_dir_named (path : list Z) (e : TmpFileEntry) : bool :=
  t_in_use e && t_is_dir e && tmp_named path e.
Definition tmp_free (e : TmpFileEntry) : bool := negb (t_in_use e).

(** A fresh entry: the path is cut to 63 bytes. *)
Definition new_tmp (path : list Z) (is_dir : bool) : TmpFileEntry :=
  let e := TmpFileEntry_empty in
  let copy_len := Z.min (len path) (MAX_TMP_PATH - 1) in
  mkTmp (splice 0 (take (Z.to_nat copy_len) path) (t_path e)) copy_len (t_data e) 0 true is_dir.

Definition get_file_data_by_path (path : list Z) : option static_slice :=
  RamData <$> position (λ e, bytes_eq (fst e) path) RAMFS.

Definition get_file_data (path_ptr : Z) (s : Vfs) : option static_slice :=
  path ← read_cstr_raw path_ptr s;
  RamData <$> position (λ e, path_eq path (fst e)) RAMFS.

Definition is_directory (path_ptr : Z) (s : Vfs) : bool :=
  match read_cstr_raw path_ptr s with
  | None => false
  | Some path =>
      if existsb (path_eq path) RAMFS_DIRS then true
      else existsb (tmp_dir_named path) (v_tmp s)
  end.

(** ** Generated files *)

Definition TMP_BUF_SIZE : nat := 512.

(** The bytes written so far stand for the buffer and the position. *)
Definition write_lit (out lit : list Z) : list Z := out ++ take (TMP_BUF_SIZE - length out) lit.

(** Decimal digits. *)
Fixpoint digits_loop (fuel : nat) (v : Z) (acc : list Z) : list Z :=
  match fuel with
  | O => acc
  | S fuel' => if v =? 0 then acc else digits_loop fuel' (v / 10) (48 + v mod 10 :: acc)
  end.
Definition digits (v : Z) : list Z := if v =? 0 then [48] else digits_loop 20 v [].

Definition write_u32 (out : list Z) (v : Z) : list Z := write_lit out (digits v).

Definition gen_proc_system_content (path : list Z) (y : Sys) : option (list Z) :=
  let ticks := y_ticks y in
  let uptime_sec := ticks / 100 in
  let uptime_frac := (ticks mod 100) / 10 in
  if bytes_eq path (bytes "/proc/uptime") then
    let p := write_u32 [] (u32 uptime_sec) in
    let p := write_lit p (bytes ".") in
    let p := write_u32 p (u32 uptime_frac) in
    let p := write_lit p (bytes " ") in
    let p := write_u32 p (u32 uptime_sec) in
    Some (write_lit p (bytes ".0\n"))
  else if bytes_eq path (bytes "/proc/loadavg") then
    let p := write_lit [] (bytes "0.00 0.00 0.00 1/1 ") in
    let p := write_u32 p (y_current_pid y) in
    Some (write_lit p (bytes "\n"))
  else if bytes_eq path (bytes "/proc/meminfo") then
    let total := wmul (y_total_pages y) 4 in
    let free := wmul (y_free_pages y) 4 in
    let used := saturating_sub total free in
    let p := write_lit [] (bytes "MemTotal:       ") in
    let p := write_u32 p (u32 total) in
    let p := write_lit p (bytes " kB\nMemFree:        ") in
    let p := write_u32 p (u32 free) in
    let p := write_lit p (bytes " kB\nMemAvailable:   ") in
    let p := write_u32 p (u32 free) in
    let p := write_lit p (bytes " kB\nBuffers:        0 kB\nCached:         ") in
    let p := write_u32 p (u32 used) in
    Some (write_lit p (bytes " kB\nSwapTotal:      0 kB\nSwapFree:       0 kB\n"))
  else if bytes_eq path (bytes "/proc/stat") then
    let p := write_lit [] (bytes "cpu  0 0 0 ") in
    let p := write_u32 p (u32 (wmul uptime_sec 100)) in
    let p := write_lit p (bytes " 0 0 0 0 0 0\ncpu0 0 0 0 ") in
    let p := write_u32 p (u32 (wmul uptime_sec 100)) in
    let p := write_lit p (bytes " 0 0 0 0 0 0\nbtime ") in
    Some (write_lit p (bytes "0\nprocesses 1\nprocs_running 1\n"))
  else if bytes_eq path (bytes "/proc/self") then
    Some (write_u32 [] (y_current_pid y))
  else None.

Definition gen_proc_self_content (pid : Z) (path : list Z) (y : Sys) : option (list Z) :=
  let ppid := y_current_ppid y in
  let pgid := y_current_pgid y in
  let uptime_sec := y_ticks y / 100 in
  if bytes_eq path (bytes "/proc/self/status") || ends_with (bytes "/status") path then
    let p := write_lit [] (bytes "Name:\tcyanos\nState:\tR (running)\nPid:\t") in
    let p := write_u32 p pid in
    let p := write_lit p (bytes "\nPPid:\t") in
    let p := write_u32 p ppid in
    let p := write_lit p (bytes "\nPGid:\t") in
    let p := write_u32 p pgid in
    let p := write_lit p (bytes "\nUid:\t0\t0\t0\t0\nGid:\t0\t0\t0\t0\n") in
    Some (write_lit p (bytes "VmRSS:\t4096 kB\nVmSize:\t8192 kB\nThreads:\t1\n"))
  else if bytes_eq path (bytes "/proc/self/stat") || ends_with (bytes "/stat") path then
    let p := write_u32 [] pid in
    let p := write_lit p (bytes " (cyanos) R ") in
    let p := write_u32 p ppid in
    let p := write_lit p (bytes " ") in
    let p := write_u32 p pgid in
    let p := write_lit p (bytes " 0 0 0 0 0 0 0 0 0 0 0 0 0 0 20 0 1 0 ") in
    let p := write_u32 p (u32 uptime_sec) in
    Some (write_lit p (bytes " 8388608 2048 18446744073709551615 0 0 0 0 0 0 0 0 0 0 0 0 0\n"))
  else if bytes_eq path (bytes "/proc/self/cmdline") || ends_with (bytes "/cmdline") path then
    Some (bytes "cyanos\0")
  else if bytes_eq path (bytes "/proc/self/maps") || ends_with (bytes "/maps") path then Some []
  else if bytes_eq path (bytes "/proc/self/fd") then Some []
  else None.

(** The common end of [gen_proc_system] and [gen_proc_self]: a slot of the /tmp
    pool under a synthetic path gets the contents. *)
Definition gen_slot (base content : list Z) (s : Vfs) : option (VnodeKind * Vfs) :=
  idx ← position tmp_free (v_tmp s);
  let e := new_tmp (base ++ digits (Z.of_nat idx)) false in
  let e := mkTmp (t_path e) (t_path_len e) (splice 0 content (t_data e)) (len content) true false in
  Some (TmpFile idx 0 false, set_tmp (<[idx := e]> (v_tmp s)) s).

Definition gen_proc_system (path : list Z) (s : Vfs) : option (VnodeKind * Vfs) :=
  content ← gen_proc_system_content path (v_sys s);
  gen_slot (bytes "/tmp/.psys_") content s.

Definition gen_proc_self (pid : Z) (path : list Z) (s : Vfs) : option (VnodeKind * Vfs) :=
  content ← gen_proc_self_content pid path (v_sys s);
  gen_slot (bytes "/tmp/.proc_") content s.

(** ** open *)

Definition O_WRONLY : Z := 0x01.
Definition O_RDWR : Z := 0x02.
Definition O_CREAT : Z := 0x40.
Definition O_TRUNC : Z := 0x200.
Definition O_APPEND : Z := 0x400.

Definition flag (flags f : Z) : bool := negb (Z.land flags f =? 0).

(** [.] becomes [/], and a trailing slash goes. *)
Definition normalize (path : list Z) : list Z :=
  if bytes_eq path (bytes ".") then bytes "/"
  else if (1 <? length path)%nat && ends_with (bytes "/") path then take (length path - 1) path
  else path.

Definition set_len (n : Z) (e : TmpFileEntry) : TmpFileEntry :=
  mkTmp (t_path e) (t_path_len e) (t_data e) n (t_in_use e) (t_is_dir e).

(** A file under /tmp. *)
Definition open_tmp (path : list Z) (flags : Z) (s : Vfs) : result VnodeKind Z * Vfs :=
  let writable := flag flags (Z.lor O_WRONLY O_RDWR) in
  let create := flag flags O_CREAT in
  let trunc := flag flags O_TRUNC in
  match position (tmp_file_named path) (v_tmp s) with
  | Some idx =>
      let tmp := if trunc then alter (set_len 0) idx (v_tmp s) else v_tmp s in
      let cur_len := default 0 (t_len <$> tmp !! idx) in
      let pos := if writable && flag flags O_WRONLY && trunc then 0
                 else if flag flags O_WRONLY then cur_len else 0 in
      (Ok (TmpFile idx pos writable), set_tmp tmp s)
  | None =>
      if create then
        match position tmp_free (v_tmp s) with
        | Some idx =>
            (Ok (TmpFile idx 0 writable), set_tmp (<[idx := new_tmp path false]> (v_tmp s)) s)
        | None => (Err (-28), s)
        end
      else (Err (-2), s)
  end.

(** The bytes of the RAM disk. *)
Definition initrd_ptr (s : Vfs) : Z := wadd (fst (v_initrd s)) (y_hhdm (v_sys s)).
Definition initrd_data (s : Vfs) : option (list Z) :=
  if (fst (v_initrd s) =? 0) || (snd (v_initrd s) =? 0) then None
  else Some (mem_read (v_mem s) (initrd_ptr s) (snd (v_initrd s))).

Definition find_in_initrd_file (path : list Z) (s : Vfs) : option static_slice :=
  img ← initrd_data s;
  r ← find_in_initrd img path;
  r' ← r;
  Some (Initrd (initrd_ptr s + fst r') (snd r')).

(** Static files, directories and the RAM disk. *)
Definition open_static (path : list Z) (s : Vfs) : option VnodeKind :=
  match position (λ e, bytes_eq path (fst e)) RAMFS with
  | Some i => Some (RamFile (RamData i) 0)
  | None =>
      match position (bytes_eq path) RAMFS_DIRS with
      | Some i => Some (RamFile (DirName i) 0)
      | None =>
          if is_tmp_path path then Some (RamFile TmpName 0)
          else if existsb (tmp_dir_named path) (v_tmp s) then Some DevNull
          else (λ d, RamFile d 0) <$> find_in_initrd_file path s
      end
  end.

Definition is_proc_system (path : list Z) : bool :=
  bytes_eq path (bytes "/proc/meminfo") || bytes_eq path (bytes "/proc/uptime") ||
  bytes_eq path (bytes "/proc/loadavg") || bytes_eq path (bytes "/proc/stat") ||
  bytes_eq path (bytes "/proc/self").

(** The vnode of a path; opening may change the /tmp pool. *)
Definition open_kind (pid : Z) (path : list Z) (flags : Z) (s : Vfs) : result VnodeKind Z * Vfs :=
  let or_enoent (r : option (VnodeKind * Vfs)) :=
    match r with Some (k, s') => (Ok k, s') | None => (Err (-2), s) end in
  if bytes_eq path (bytes "/dev/null") then (Ok DevNull, s)
  else if bytes_eq path (bytes "/dev/zero") then (Ok DevZero, s)
  else if bytes_eq path (bytes "/dev/urandom") || bytes_eq path (bytes "/dev/random") then (Ok DevUrandom, s)
  else if bytes_eq path (bytes "/dev/stdin") then (Ok (DevStdio 0), s)
  else if bytes_eq path (bytes "/dev/stdout") then (Ok (DevStdio 1), s)
  else if bytes_eq path (bytes "/dev/stderr") then (Ok (DevStdio 2), s)
  else if bytes_eq path (bytes "/dev/fb0") then (Ok (DevFb 0), s)
  else if is_tmp_path path && negb (bytes_eq path (bytes "/tmp")) then open_tmp path flags s
  else if starts_with (bytes "/proc/self/") path && negb (bytes_eq path (bytes "/proc/self/"))
  then or_enoent (gen_proc_self pid path s)
  else if is_proc_system path then or_enoent (gen_proc_system path s)
  else or_enoent ((λ k, (k, s)) <$> open_static path s).

(** Install an entry at the lowest free descriptor of [pid]. *)
Definition install (pid : Z) (e : FdEntry) (no_table no_fd : Z) (s : Vfs) : result nat Z * Vfs :=
  match get_or_create pid (v_tables s) with
  | None => (Err no_table, s)
  | Some (t, tbls) =>
      let s := set_tables tbls s in
      match (tbl ← tbls !! t; alloc_fd tbl) with
      | None => (Err no_fd, s)
      | Some fd => (Ok fd, set_entry t fd e s)
      end
  end.

Definition handle_open (pid path_ptr flags : Z) (s : Vfs) : outcome (Message * Vfs) :=
  match read_cstr_raw path_ptr s with
  | None => Ret (err_reply (-14), s)
  | Some pbuf =>
      match open_kind pid (normalize pbuf) flags s with
      | (Err e, s) => Ret (err_reply e, s)
      | (Ok kind, s) =>
          match install pid (mkFd kind flags true) (-12) (-24) s with
          | (Err e, s) => Ret (err_reply e, s)
          | (Ok fd, s) => Ret (val_reply (Z.of_nat fd), s)
          end
      end
  end.

(** ** read *)

Definition lfsr_next (s : Vfs) : Z * Vfs :=
  let state := Z.lxor (v_lfsr s) (wmul (v_ticks s) 0x9e3779b97f4a7c15) in
  let lsb := Z.land state 1 in
  let state := Z.shiftr state 1 in
  let state := if lsb =? 0 then state else Z.lxor state 0xB400000000000000 in
  (Z.land state 0xFF, set_lfsr state s).

Fixpoint urandom_loop (n : nat) (buf : Z) (s : Vfs) : Vfs :=
  match n with
  | O => s
  | S n' => let '(b, s') := lfsr_next s in urandom_loop n' (buf + 1) (poke (mem_write buf [b]) s')
  end.

(** [while n < limit { match r.get() ... }]: the bytes in order. *)
Fixpoint get_loop (limit : nat) (r : PipeRing) : list Z * PipeRing :=
  match limit with
  | O => ([], r)
  | S limit' =>
      match get r with
      | (Some b, r') => let '(bs, r'') := get_loop limit' r' in (b :: bs, r'')
      | (None, r') => ([], r')
      end
  end.

(** A read on a timer: count the expirations up to [now]. *)
Definition timer_update (now : Z) (e : TimerFdEntry) : TimerFdEntry :=
  if tf_armed e && (tf_deadline_ticks e <=? now) then
    let elapsed := now - tf_deadline_ticks e in
    let extra := if 0 <? tf_interval_ticks e then wadd (elapsed / tf_interval_ticks e) 1 else 1 in
    if 0 <? tf_interval_ticks e then
      mkTimer true (wadd (tf_deadline_ticks e) (wmul extra (tf_interval_ticks e))) (tf_interval_ticks e)
        (wadd (tf_expirations e) extra)
    else mkTimer false (tf_deadline_ticks e) (tf_interval_ticks e) (wadd (tf_expirations e) extra)
  else e.

Definition clear_expirations (e : TimerFdEntry) : TimerFdEntry :=
  mkTimer (tf_armed e) (tf_deadline_ticks e) (tf_interval_ticks e) 0.

(** The address of the framebuffer's byte [cur]. *)
Definition fb_virt (cur : Z) (s : Vfs) : Z :=
  let base := fb_base (v_fb s) in
  if 0xFFFF000000000000 <=? base then wadd base cur
  else wadd (wadd base cur) (y_hhdm (v_sys s)).
Definition fb_size (s : Vfs) : Z := wmul (fb_height (v_fb s)) (fb_pitch (v_fb s)).

(** [if let VnodeKind::TmpFile { pos: p, .. } = ... { *p = pos; }] on the
    descriptor, looked up again. *)
Definition set_tmp_pos (pid fd pos : Z) (s : Vfs) : Vfs :=
  match (t ← find_tbl pid (v_tables s); tbl ← v_tables s !! t; e ← p_fds tbl !! Z.to_nat fd; Some (t, e)) with
  | Some (t, e) =>
      match fd_kind e with
      | TmpFile idx _ w => if fd <? MAX_FDS then put_kind t fd e (TmpFile idx pos w) s else s
      | _ => s
      end
  | None => s
  end.

Fixpoint handle_read_loop (fuel : nat) (pid fd buf count : Z) (s : Vfs) : outcome (Message * Vfs) :=
  match fuel with
  | O => Panic
  | S fuel' =>
    if count =? 0 then Ret (val_reply 0, s)
    else
      match open_fd pid fd s with
      | None => Ret (err_reply (-9), s)
      | Some (t, e) =>
          match fd_kind e with
          | DevNull => Ret (val_reply 0, s)
          | DevZero =>
              let n := Z.min count 4096 in
              Ret (val_reply n, poke (mem_fill buf 0 n) s)
          | DevUrandom =>
              let n := Z.min count 4096 in
              Ret (val_reply n, urandom_loop (Z.to_nat n) buf s)
          | DevStdio target_fd => handle_read_loop fuel' pid target_fd buf count s
          | DevFb cur =>
              if fb_base (v_fb s) =? 0 then Ret (err_reply (-19), s)
              else if fb_size s <=? cur then Ret (val_reply 0, s)
              else
                let n := Z.min count (fb_size s - cur) in
                Ret (val_reply n, put_kind t fd e (DevFb (wadd cur n)) (poke (mem_copy (fb_virt cur s) buf n) s))
          | RamFile d pos =>
              let n := Z.min count (saturating_sub (static_len d) pos) in
              if n =? 0 then Ret (val_reply 0, s)
              else Ret (val_reply n, put_kind t fd e (RamFile d (wadd pos n))
                                       (poke (mem_write buf (slice (static_bytes s d) pos (pos + n))) s))
          | Pipe ring false =>
              match v_pipes s !! ring with
              | None => Panic
              | Some r =>
                  if (r_count r =? 0)%nat then
                    Ret (if r_write_open r then err_reply (-11) else val_reply 0, s)
                  else
                    let '(bs, r') := get_loop (Z.to_nat (Z.min count 4096)) r in
                    Ret (val_reply (len bs), set_pipes (<[ring := r']> (v_pipes s)) (poke (mem_write buf bs) s))
              end
          | TmpFile idx cur _ =>
              match v_tmp s !! idx with
              | None => Panic
              | Some entry =>
                  let n := Z.min (Z.min count (saturating_sub (t_len entry) cur)) 4096 in
                  if n =? 0 then Ret (val_reply 0, s)
                  else Ret (val_reply n, set_tmp_pos pid fd (wadd cur n)
                              (poke (mem_write buf (slice (t_data entry) cur (cur + n))) s))
              end
          | EventFd slot =>
              if count <? 8 then Ret (err_reply (-22), s)
              else match v_events s !! slot with
                   | None => Panic
                   | Some val =>
                       if val =? 0 then Ret (err_reply (-11), s)
                       else Ret (val_reply 8, poke (write_u64 buf val) (set_events (<[slot := 0]> (v_events s)) s))
                   end
          | TimerFd slot =>
              if count <? 8 then Ret (err_reply (-22), s)
              else match v_timers s !! slot with
                   | None => Panic
                   | Some e0 =>
                       let e1 := timer_update (v_ticks s) e0 in
                       let s := set_timers (<[slot := e1]> (v_timers s)) s in
                       if tf_expirations e1 =? 0 then Ret (err_reply (-11), s)
                       else Ret (val_reply 8, poke (write_u64 buf (tf_expirations e1))
                                   (set_timers (<[slot := clear_expirations e1]> (v_timers s)) s))
                   end
          | KNone | Pipe _ true => Ret (err_reply (-9), s)
          end
      end
  end.

(** The three descriptors that [DevStdio] refers to, and one more. *)
Definition stdio_fuel : nat := 4.

Definition handle_read (pid fd buf count : Z) (s : Vfs) : outcome (Message * Vfs) :=
  handle_read_loop stdio_fuel pid fd buf count s.

(** ** write *)

(** [while n < count { if !r.put(..) { break; } n += 1; }] *)
Fixpoint put_loop (bs : list Z) (r : PipeRing) : nat * PipeRing :=
  match bs with
  | [] => (0%nat, r)
  | b :: bs' =>
      match put b r with
      | (true, r') => let '(n, r'') := put_loop bs' r' in (S n, r'')
      | (false, r') => (0%nat, r')
      end
  end.

(** The bytes of a pipe write: [put_loop] stops at the ring's capacity, so only
    that many bytes of the caller's buffer are read. *)
Definition pipe_source (buf count : Z) (s : Vfs) : list Z :=
  mem_read (v_mem s) buf (Z.min count (Z.of_nat PIPE_RING_SIZE)).

Definition set_data (d : list Z) (n : Z) (e : TmpFileEntry) : TmpFileEntry :=
  mkTmp (t_path e) (t_path_len e) d n (t_in_use e) (t_is_dir e).

Fixpoint handle_write_loop (fuel : nat) (pid fd buf count : Z) (s : Vfs) : outcome (Message * Vfs) :=
  match fuel with
  | O => Panic
  | S fuel' =>
    if count =? 0 then Ret (val_reply 0, s)
    else
      match open_fd pid fd s with
      | None => Ret (err_reply (-9), s)
      | Some (t, e) =>
          match fd_kind e with
          | DevUrandom | DevNull | DevZero => Ret (val_reply count, s)
          | Pipe ring true =>
              match v_pipes s !! ring with
              | None => Panic
              | Some r =>
                  if negb (r_read_open r) then Ret (err_reply (-32), s)
                  else
                    let '(n, r') := put_loop (pipe_source buf count s) r in
                    Ret (val_reply (Z.of_nat n), set_pipes (<[ring := r']> (v_pipes s)) s)
              end
          | TmpFile idx pos writable =>
              if negb writable then Ret (err_reply (-9), s)
              else match v_tmp s !! idx with
                   | None => Panic
                   | Some entry =>
                       let cur := if flag (fd_flags e) O_APPEND then t_len entry else pos in
                       let n := Z.min count (saturating_sub MAX_TMP_SIZE cur) in
                       if n =? 0 then Ret (err_reply (-28), s)
                       else
                         let new_pos := wadd cur n in
                         let d := splice cur (mem_read (v_mem s) buf n) (t_data entry) in
                         let entry' := set_data d (if t_len entry <? new_pos then new_pos else t_len entry) entry in
                         Ret (val_reply n, set_tmp_pos pid fd new_pos (set_tmp (<[idx := entry']> (v_tmp s)) s))
                   end
          | EventFd slot =>
              if count <? 8 then Ret (err_reply (-22), s)
              else
                let addval := read_u64 (v_mem s) buf in
                if addval =? U64_MAX then Ret (err_reply (-22), s)
                else match v_events s !! slot with
                     | None => Panic
                     | Some v => Ret (val_reply 8, set_events (<[slot := saturating_add64 v addval]> (v_events s)) s)
                     end
          | DevStdio target_fd => handle_write_loop fuel' pid target_fd buf count s
          | DevFb cur =>
              if fb_base (v_fb s) =? 0 then Ret (err_reply (-19), s)
              else if fb_size s <=? cur then Ret (val_reply 0, s)
              else
                let n := Z.min count (fb_size s - cur) in
                Ret (val_reply n, put_kind t fd e (DevFb (wadd cur n)) (poke (mem_copy buf (fb_virt cur s) n) s))
          | KNone | RamFile _ _ | Pipe _ false | TimerFd _ => Ret (err_reply (-9), s)
          end
      end
  end.

Definition handle_write (pid fd buf count : Z) (s : Vfs) : outcome (Message * Vfs) :=
  handle_write_loop stdio_fuel pid fd buf count s.

(** ** close, lseek *)

Definition handle_close (pid fd : Z) (s : Vfs) : outcome (Message * Vfs) :=
  match open_fd pid fd s with
  | None => Ret (err_reply (-9), s)
  | Some (t, e) =>
      let s' := set_entry t (Z.to_nat fd) FdEntry_empty s in
      match fd_kind e with
      | Pipe ring is_write =>
          match v_pipes s !! ring with
          | None => Panic
          | Some r => Ret (ok_reply, set_pipes (<[ring := set_open is_write false r]> (v_pipes s)) s)
          end
      | EventFd slot =>
          if (slot <? length (v_events s))%nat
          then Ret (ok_reply, set_events (<[slot := U64_MAX]> (v_events s)) s')
          else Panic
      | TimerFd slot =>
          if (slot <? length (v_timers s))%nat
          then Ret (ok_reply, set_timers (<[slot := TimerFdEntry_free]> (v_timers s)) s')
          else Panic
      | _ => Ret (ok_reply, s')
      end
  end.

(** The new position from the current one, the length and [whence]. *)
Definition seek_to (pos n offset whence : Z) : option Z :=
  if whence =? 0 then Some offset
  else if whence =? 1 then Some (to_i64 (to_i64 pos + offset))
  else if whence =? 2 then Some (to_i64 (to_i64 n + offset))
  else None.

(** The end of each branch of [handle_lseek]: set the position. *)
Definition finish_seek (t : nat) (fd : Z) (e : FdEntry) (mk : Z → VnodeKind) (new_pos : option Z) (s : Vfs)
    : outcome (Message * Vfs) :=
  match new_pos with
  | None => Ret (err_reply (-22), s)
  | Some p => if p <? 0 then Ret (err_reply (-22), s) else Ret (val_reply p, put_kind t fd e (mk p) s)
  end.

Definition handle_lseek (pid fd offset whence : Z) (s : Vfs) : outcome (Message * Vfs) :=
  match open_fd pid fd s with
  | None => Ret (err_reply (-9), s)
  | Some (t, e) =>
      match fd_kind e with
      | RamFile d pos => finish_seek t fd e (RamFile d) (seek_to pos (static_len d) offset whence) s
      | DevFb pos => finish_seek t fd e DevFb (seek_to pos (fb_size s) offset whence) s
      | TmpFile idx pos w =>
          match v_tmp s !! idx with
          | None => Panic
          | Some entry => finish_seek t fd e (λ p, TmpFile idx p w) (seek_to pos (t_len entry) offset whence) s
          end
      | _ => Ret (err_reply (-29), s)
      end
  end.

(** ** pipe, dup, fork, exec, exit *)

Definition ring_free (r : PipeRing) : bool :=
  negb (r_read_open r) && negb (r_write_open r) && (r_count r =? 0)%nat.

Definition write_u32_at (p v : Z) : mem → mem := mem_write p (le_encode 4 (u32 v)).

Definition handle_pipe (pid rfd_ptr wfd_ptr : Z) (s : Vfs) : outcome (Message * Vfs) :=
  match position ring_free (v_pipes s) with
  | None => Ret (err_reply (-23), s)
  | Some i =>
      let s := set_pipes (alter (λ r, set_open true true (set_open false true r)) i (v_pipes s)) s in
      match get_or_create pid (v_tables s) with
      | None => Ret (err_reply (-12), s)
      | Some (t, tbls) =>
          let s := set_tables tbls s in
          match (tbl ← v_tables s !! t; alloc_fd tbl) with
          | None => Ret (err_reply (-24), s)
          | Some rfd =>
              let s := set_entry t rfd (mkFd (Pipe i false) 0 true) s in
              match (tbl ← v_tables s !! t; alloc_fd tbl) with
              | None => Ret (err_reply (-24), set_entry t rfd FdEntry_empty s)
              | Some wfd =>
                  let s := set_entry t wfd (mkFd (Pipe i true) 0 true) s in
                  Ret (ok_reply, poke (λ m, write_u32_at wfd_ptr (Z.of_nat wfd)
                                              (write_u32_at rfd_ptr (Z.of_nat rfd) m)) s)
              end
          end
      end
  end.

Definition handle_dup2 (pid oldfd newfd : Z) (s : Vfs) : outcome (Message * Vfs) :=
  if (MAX_FDS <=? oldfd) || (MAX_FDS <=? newfd) then Ret (err_reply (-9), s)
  else match open_fd pid oldfd s with
       | None => Ret (err_reply (-9), s)
       | Some (t, e) => Ret (val_reply newfd, set_entry t (Z.to_nat newfd) e s)
       end.

Definition handle_fork_dup (parent_pid child_pid : Z) (s : Vfs) : outcome (Message * Vfs) :=
  match (t ← find_tbl parent_pid (v_tables s); v_tables s !! t) with
  | None => Ret (ok_reply, s)
  | Some parent =>
      match position (λ t, negb (p_in_use t)) (v_tables s) with
      | None => Ret (ok_reply, s)
      | Some i => Ret (ok_reply, set_tables (<[i := mkTbl child_pid (p_fds parent) true]> (v_tables s)) s)
      end
  end.

Definition cloexec (e : FdEntry) : FdEntry :=
  if fd_in_use e && flag (fd_flags e) O_CLOEXEC then FdEntry_empty else e.

Definition handle_exec_cloexec (pid : Z) (s : Vfs) : outcome (Message * Vfs) :=
  match find_tbl pid (v_tables s) with
  | None => Ret (ok_reply, s)
  | Some t =>
      Ret (ok_reply,
           set_tables (alter (λ tbl, mkTbl (p_pid tbl) (cloexec <$> p_fds tbl) (p_in_use tbl)) t (v_tables s)) s)
  end.

Definition handle_close_all (pid : Z) (s : Vfs) : outcome (Message * Vfs) :=
  match find_tbl pid (v_tables s) with
  | None => Ret (ok_reply, s)
  | Some t => Ret (ok_reply, set_tables (<[t := ProcFdTable_empty]> (v_tables s)) s)
  end.

Definition set_flags (f : Z) (e : FdEntry) : FdEntry := mkFd (fd_kind e) f (fd_in_use e).

Definition handle_fcntl (pid fd cmd a : Z) (s : Vfs) : outcome (Message * Vfs) :=
  match open_fd pid fd s with
  | None => Ret (err_reply (-9), s)
  | Some (t, e) =>
      if cmd =? 1 then Ret (val_reply (if flag (fd_flags e) O_CLOEXEC then 1 else 0), s)
      else if cmd =? 2 then Ret (ok_reply, set_entry t (Z.to_nat fd) (set_flags (u32 a) e) s)
      else if cmd =? 3 then Ret (val_reply (fd_flags e), s)
      else if cmd =? 4 then
        Ret (ok_reply, set_entry t (Z.to_nat fd)
                         (set_flags (Z.lor (Z.land (fd_flags e) O_CLOEXEC) (u32 a)) e) s)
      else Ret (ok_reply, s)
  end.

(** The lowest free descriptor other than [oldfd]. *)
Fixpoint free_fd_except (oldfd i : nat) (fds : list FdEntry) : option nat :=
  match fds with
  | [] => None
  | f :: fds' =>
      if negb (i =? oldfd)%nat && negb (fd_in_use f) then Some i else free_fd_except oldfd (S i) fds'
  end.

Definition handle_alloc_fd (pid oldfd : Z) (s : Vfs) : outcome (Message * Vfs) :=
  if MAX_FDS <=? oldfd then Ret (err_reply (-9), s)
  else
    match get_or_create pid (v_tables s) with
    | None => Ret (err_reply (-12), s)
    | Some (t, tbls) =>
        let s := set_tables tbls s in
        match (tbl ← tbls !! t; e ← p_fds tbl !! Z.to_nat oldfd; Some (tbl, e)) with
        | None => Panic
        | Some (tbl, e) =>
            if negb (fd_in_use e) then Ret (err_reply (-9), s)
            else match free_fd_except (Z.to_nat oldfd) 0 (p_fds tbl) with
                 | None => Ret (err_reply (-24), s)
                 | Some newfd =>
                     Ret (val_reply (Z.of_nat newfd),
                          set_entry t newfd (set_flags (Z.ldiff (fd_flags e) O_CLOEXEC) e) s)
                 end
        end
    end.

(** ** getdents64 *)

(** The buffer position, the directory position and the memory. *)
Record dents := mkDents { d_off : Z; d_pos : Z; d_mem : mem }.

Definition reclen (name : list Z) : Z := Z.ldiff (8 + 8 + 2 + 1 + len name + 1 + 7) 7.

(** The bytes of a [linux_dirent64] that are written. *)
Definition dirent_bytes (ino : Z) (name : list Z) (d_type : Z) : list Z :=
  le_encode 8 (u64 ino) ++ le_encode 8 0 ++ le_encode 2 (u16 (reclen name)) ++ [d_type] ++ name ++ [0].

Definition write_dirent (buf count ino : Z) (name : list Z) (d_type : Z) (d : dents) : option dents :=
  if count <? d_off d + reclen name then None
  else Some (mkDents (d_off d + reclen name) (d_pos d + 1)
               (mem_write (buf + d_off d) (dirent_bytes ino name d_type) (d_mem d))).

(** A child of the directory: the number from its position in the listing, the
    name and the type. *)
Definition item : Type := (Z → Z) * list Z * Z.

(** The body of the three loops: an entry before [pos] was returned by an
    earlier call.  [inr] is the early return. *)
Definition emit (buf count : Z) (it : item) (vd : Z * dents) : (Z * dents) + dents :=
  let '(ino, name, d_type) := it in
  let '(virtual_idx, d) := vd in
  if d_pos d <=? virtual_idx then
    match write_dirent buf count (ino virtual_idx) name d_type d with
    | Some d' => inl (virtual_idx + 1, d')
    | None => inr d
    end
  else inl (virtual_idx + 1, d).

(** [for x in l { if is_child { ... } }] *)
Fixpoint emit_loop {A} (buf count : Z) (child : A → option item) (l : list A) (vd : Z * dents)
    : (Z * dents) + dents :=
  match l with
  | [] => inl vd
  | x :: l' =>
      match child x with
      | None => emit_loop buf count child l' vd
      | Some it =>
          match emit buf count it vd with
          | inl vd' => emit_loop buf count child l' vd'
          | inr d => inr d
          end
      end
  end.

(** The name of [path] below the directory [dir], when it is a direct child. *)
Definition child_name (dir path : list Z) : option (list Z) :=
  if bytes_eq dir (bytes "/") then
    if (1 <? length path)%nat && bytes_eq (take 1 path) (bytes "/") && negb (contains_byte 47 (drop 1 path))
    then Some (drop 1 path) else None
  else
    if (length dir + 1 <? length path)%nat && starts_with dir path &&
       bytes_eq (take 1 (drop (length dir) path)) (bytes "/") &&
       negb (contains_byte 47 (drop (length dir + 1) path))
    then Some (drop (length dir + 1) path) else None.

Definition dir_item (dir child_dir : list Z) : option item :=
  if bytes_eq child_dir dir then None
  else (λ name, (λ vi, vi + 100, name, 4)) <$> child_name dir child_dir.

Definition file_item (dir : list Z) (entry : list Z * list Z) : option item :=
  (λ name, (λ vi, vi + 200, name, 8)) <$> child_name dir (fst entry).

Definition is_duplicated (path : list Z) : bool :=
  let p := 47 :: take 254 (strip_name path) in
  existsb (λ e, bytes_eq (fst e) p) RAMFS || existsb (λ dir, bytes_eq dir p) RAMFS_DIRS.

(** The name of an archive member below [dir], when it is a direct child. *)
Definition initrd_child (dir name : list Z) : option (list Z) :=
  let match_name := strip_name name in
  if bytes_eq dir (bytes "/") then
    if negb (bytes_eq match_name []) && negb (contains_byte 47 match_name) &&
       negb (bytes_eq match_name (bytes "."))
    then Some match_name else None
  else
    let match_dir := if starts_with (bytes "/") dir then drop 1 dir else dir in
    let match_dir := if ends_with (bytes "/") match_dir then take (length match_dir - 1) match_dir else match_dir in
    if negb (bytes_eq match_dir []) && starts_with match_dir match_name &&
       (length match_dir <? length match_name)%nat &&
       bytes_eq (take 1 (drop (length match_dir) match_name)) (bytes "/")
    then let r := drop (length match_dir + 1) match_name in
         if negb (bytes_eq r []) && negb (contains_byte 47 r) then Some r else None
    else None.

(** The loop over the archive.  [Panic]: a name size of 0 makes the slice of the
    name start after its end. *)
Fixpoint initrd_loop (fuel : nat) (img dir : list Z) (buf count offset : Z) (vd : Z * dents)
    : outcome ((Z * dents) + dents) :=
  match fuel with
  | O => Panic
  | S fuel' =>
      match cpio_header img offset with
      | None => Ret (inl vd)
      | Some (namesize, filesize, mode) =>
          let name_offset := offset + HEADER_SIZE in
          if len img <? name_offset + namesize then Ret (inl vd)
          else if namesize =? 0 then Panic
          else
            let name_bytes := slice img name_offset (name_offset + namesize - 1) in
            if bytes_eq name_bytes TRAILER then Ret (inl vd)
            else
              let r :=
                match initrd_child dir name_bytes with
                | Some name =>
                    if is_duplicated name_bytes then inl vd
                    else emit buf count
                           (λ _, 1000 + offset, name,
                            if Z.land mode 0xF000 =? 0x4000 then 4 else 8) vd
                | None => inl vd
                end in
              match r with
              | inr d => Ret (inr d)
              | inl vd' =>
                  let next_offset := align4 (align4 (name_offset + namesize) + filesize) in
                  if next_offset <=? offset then Ret (inl vd')
                  else initrd_loop fuel' img dir buf count next_offset vd'
              end
      end
  end.

Definition initrd_items (s : Vfs) (dir : list Z) (buf count : Z) (vd : Z * dents) : outcome ((Z * dents) + dents) :=
  match initrd_data s with
  | Some img =>
      if (6 <? len img) && bytes_eq (slice img 0 6) MAGIC
      then initrd_loop (cpio_fuel img) img dir buf count 0 vd
      else Ret (inl vd)
  | None => Ret (inl vd)
  end.

(** [.] and [..]; [inr] is the early return. *)
Definition dot_items (buf count : Z) (d : dents) : dents + dents :=
  let first :=
    if d_pos d =? 0 then
      match write_dirent buf count 1 (bytes ".") 4 d with Some d' => inl d' | None => inr d end
    else inl d in
  match first with
  | inr d => inr d
  | inl d =>
      if d_pos d =? 1 then
        match write_dirent buf count 1 (bytes "..") 4 d with Some d' => inl d' | None => inr d end
      else inl d
  end.

Definition list_dir (s : Vfs) (dir : list Z) (buf count pos : Z) : outcome dents :=
  let stop (r : (Z * dents) + dents) (k : Z * dents → outcome dents) :=
    match r with inl vd => k vd | inr d => Ret d end in
  match dot_items buf count (mkDents 0 pos (v_mem s)) with
  | inr d => Ret d
  | inl d =>
      stop (emit_loop buf count (dir_item dir) RAMFS_DIRS (2, d)) (λ vd,
      stop (emit_loop buf count (file_item dir) RAMFS vd) (λ vd,
      match initrd_items s dir buf count vd with
      | Panic => Panic
      | Ret r => stop r (λ vd, Ret (snd vd))
      end))
  end.

Definition handle_getdents64 (pid fd buf count : Z) (s : Vfs) : outcome (Message * Vfs) :=
  if count <? 64 then Ret (err_reply (-22), s)
  else
    match open_fd pid fd s with
    | None => Ret (err_reply (-9), s)
    | Some (t, e) =>
        match fd_kind e with
        | RamFile d pos =>
            match list_dir s (static_bytes s d) buf count pos with
            | Panic => Panic
            | Ret r => Ret (val_reply (d_off r), put_kind t fd e (RamFile d (d_pos r)) (poke (λ _, d_mem r) s))
            end
        | _ => Ret (err_reply (-20), s)
        end
    end.

(** ** eventfd and timerfd *)

Definition handle_eventfd (pid initval : Z) (s : Vfs) : outcome (Message * Vfs) :=
  match position (λ v, v =? U64_MAX) (v_events s) with
  | None => Ret (err_reply (-24), s)
  | Some slot =>
      let s := set_events (<[slot := if initval =? U64_MAX then U64_MAX - 1 else initval]> (v_events s)) s in
      match install pid (mkFd (EventFd slot) 0 true) (-24) (-24) s with
      | (Err e, s) => Ret (err_reply e, set_events (<[slot := U64_MAX]> (v_events s)) s)
      | (Ok fd, s) => Ret (val_reply (Z.of_nat fd), s)
      end
  end.

Definition handle_timerfd_create (pid : Z) (s : Vfs) : outcome (Message * Vfs) :=
  match position timer_is_free (v_timers s) with
  | None => Ret (err_reply (-24), s)
  | Some slot =>
      let s := set_timers (<[slot := mkTimer false 1 0 0]> (v_timers s)) s in
      match install pid (mkFd (TimerFd slot) 0 true) (-24) (-24) s with
      | (Err e, s) => Ret (err_reply e, set_timers (<[slot := TimerFdEntry_free]> (v_timers s)) s)
      | (Ok fd, s) => Ret (val_reply (Z.of_nat fd), s)
      end
  end.

Definition NS_PER_TICK : Z := 10000000.

Definition handle_timerfd_settime (pid fd value_ns interval_ns : Z) (s : Vfs) : outcome (Message * Vfs) :=
  match open_fd pid fd s with
  | None => Ret (err_reply (-9), s)
  | Some (_, e) =>
      match fd_kind e with
      | TimerFd slot =>
          match v_timers s !! slot with
          | None => Panic
          | Some tm =>
              let tm' :=
                if value_ns =? 0 then mkTimer false (tf_deadline_ticks tm) (tf_interval_ticks tm) 0
                else mkTimer true (wadd (v_ticks s) (Z.max (value_ns / NS_PER_TICK) 1))
                       (interval_ns / NS_PER_TICK) 0 in
              Ret (ok_reply, set_timers (<[slot := tm']> (v_timers s)) s)
          end
      | _ => Ret (err_reply (-22), s)
      end
  end.

Definition handle_timerfd_gettime (pid fd out_ptr : Z) (s : Vfs) : outcome (Message * Vfs) :=
  if out_ptr =? 0 then Ret (err_reply (-14), s)
  else
    match open_fd pid fd s with
    | None => Ret (err_reply (-9), s)
    | Some (_, e) =>
        match fd_kind e with
        | TimerFd slot =>
            match v_timers s !! slot with
            | None => Panic
            | Some tm =>
                let remaining_ns :=
                  if tf_armed tm && (v_ticks s <? tf_deadline_ticks tm)
                  then wmul (tf_deadline_ticks tm - v_ticks s) NS_PER_TICK else 0 in
                let interval_ns := wmul (tf_interval_ticks tm) NS_PER_TICK in
                Ret (ok_reply, poke (λ m,
                  write_u64 (out_ptr + 24) (remaining_ns mod 1000000000)
                    (write_u64 (out_ptr + 16) (remaining_ns / 1000000000)
                      (write_u64 (out_ptr + 8) (interval_ns mod 1000000000)
                        (write_u64 out_ptr (interval_ns / 1000000000) m)))) s)
            end
        | _ => Ret (err_reply (-22), s)
        end
    end.

(** ** ioctl *)

Definition FIONREAD : Z := 0x541B.
Definition FBIOGET_VSCREENINFO : Z := 0x4600.

Definition screeninfo (p : Z) (fb : Framebuffer) (m : mem) : mem :=
  mem_write p (le_encode 4 (fb_width fb) ++ le_encode 4 (fb_height fb) ++ le_encode 4 (fb_width fb) ++
    le_encode 4 (fb_height fb) ++ le_encode 4 0 ++ le_encode 4 0 ++ le_encode 4 32 ++
    le_encode 4 (fb_pitch fb)) m.

(** The bytes that a read would return at once. *)
Definition bytes_avail (k : VnodeKind) (s : Vfs) : outcome (option Z) :=
  match k with
  | Pipe ring false =>
      match v_pipes s !! ring with Some r => Ret (Some (Z.of_nat (r_count r))) | None => Panic end
  | RamFile d pos => Ret (Some (saturating_sub (static_len d) pos))
  | TmpFile idx pos _ =>
      match v_tmp s !! idx with Some e => Ret (Some (saturating_sub (t_len e) pos)) | None => Panic end
  | EventFd slot =>
      match v_events s !! slot with Some v => Ret (Some (if 0 <? v then 8 else 0)) | None => Panic end
  | TimerFd slot =>
      match v_timers s !! slot with Some e => Ret (Some (if 0 <? tf_expirations e then 8 else 0)) | None => Panic end
  | _ => Ret None
  end.

Definition ioctl_fionread (pid fd a : Z) (s : Vfs) : outcome (Message * Vfs) :=
  if a =? 0 then Ret (err_reply (-14), s)
  else
    match open_fd pid fd s with
    | None => Ret (err_reply (-9), s)
    | Some (_, e) =>
        match bytes_avail (fd_kind e) s with
        | Panic => Panic
        | Ret None => Ret (err_reply (-25), s)
        | Ret (Some n) => Ret (val_reply 0, poke (write_u32_at a n) s)
        end
    end.

Definition handle_ioctl (pid fd cmd a : Z) (s : Vfs) : outcome (Message * Vfs) :=
  if cmd =? FBIOGET_VSCREENINFO then
    match open_fd pid fd s with
    | None => Ret (err_reply (-9), s)
    | Some (_, e) =>
        match fd_kind e with
        | DevFb _ => Ret (ok_reply, poke (screeninfo a (v_fb s)) s)
        | _ => Ret (err_reply (-25), s)
        end
    end
  else if cmd =? FIONREAD then ioctl_fionread pid fd a s
  else Ret (err_reply (-25), s).

(** ** Names *)

Definition handle_ftruncate (pid fd new_len : Z) (s : Vfs) : outcome (Message * Vfs) :=
  match open_fd pid fd s with
  | None => Ret (err_reply (-9), s)
  | Some (_, e) =>
      match fd_kind e with
      | TmpFile idx _ _ =>
          match v_tmp s !! idx with
          | None => Panic
          | Some entry =>
              if MAX_TMP_SIZE <? new_len then Ret (err_reply (-28), s)
              else
                let d := if t_len entry <? new_len
                         then splice (t_len entry) (replicate (Z.to_nat (new_len - t_len entry)) 0) (t_data entry)
                         else t_data entry in
                Ret (ok_reply, set_tmp (<[idx := set_data d new_len entry]> (v_tmp s)) s)
          end
      | _ => Ret (err_reply (-22), s)
      end
  end.

Definition set_path (new : list Z) (e : TmpFileEntry) : TmpFileEntry :=
  let copy_len := Z.min (len new) (MAX_TMP_PATH - 1) in
  mkTmp (splice 0 (take (Z.to_nat copy_len) new) (t_path e)) copy_len (t_data e) (t_len e) (t_in_use e) (t_is_dir e).

Definition handle_rename (old_ptr new_ptr : Z) (s : Vfs) : outcome (Message * Vfs) :=
  match read_cstr_raw old_ptr s, read_cstr_raw new_ptr s with
  | Some old, Some new =>
      if negb (is_tmp_path old) || negb (is_tmp_path new) then Ret (err_reply (-30), s)
      else match position (tmp_file_named old) (v_tmp s) with
           | Some idx => Ret (ok_reply, set_tmp (alter (set_path new) idx (v_tmp s)) s)
           | None => Ret (err_reply (-2), s)
           end
  | _, _ => Ret (err_reply (-14), s)
  end.

Definition handle_unlink (path_ptr : Z) (s : Vfs) : outcome (Message * Vfs) :=
  match read_cstr_raw path_ptr s with
  | None => Ret (err_reply (-14), s)
  | Some path =>
      if negb (is_tmp_path path) then Ret (err_reply (-30), s)
      else match position (tmp_file_named path) (v_tmp s) with
           | Some idx => Ret (ok_reply, set_tmp (<[idx := TmpFileEntry_empty]> (v_tmp s)) s)
           | None => Ret (err_reply (-2), s)
           end
  end.

Definition handle_mkdir (path_ptr : Z) (s : Vfs) : outcome (Message * Vfs) :=
  match read_cstr_raw path_ptr s with
  | None => Ret (err_reply (-14), s)
  | Some path =>
      if negb (is_tmp_path path) then Ret (err_reply (-30), s)
      else if existsb (bytes_eq path) RAMFS_DIRS then Ret (err_reply (-17), s)
      else if existsb (λ e, t_in_use e && tmp_named path e) (v_tmp s) then Ret (err_reply (-17), s)
      else match position tmp_free (v_tmp s) with
           | Some idx => Ret (ok_reply, set_tmp (<[idx := new_tmp path true]> (v_tmp s)) s)
           | None => Ret (err_reply (-28), s)
           end
  end.

(** [enum FdInfo] *)
Inductive FdInfo := InfoStatic (p : list Z) | InfoPipe (ring : nat) | InfoRam (ptr : Z) | InfoTmp (idx : nat) | InfoBad.

Definition fd_info (k : VnodeKind) (s : Vfs) : FdInfo :=
  match k with
  | DevNull => InfoStatic (bytes "/dev/null")
  | DevZero => InfoStatic (bytes "/dev/zero")
  | Pipe ring _ => InfoPipe ring
  | RamFile d _ => InfoRam (static_ptr s d)
  | TmpFile idx _ _ => InfoTmp idx
  | EventFd _ => InfoStatic (bytes "eventfd")
  | TimerFd _ => InfoStatic (bytes "timerfd")
  | DevUrandom => InfoStatic (bytes "/dev/urandom")
  | DevStdio t => if t =? 0 then InfoStatic (bytes "/dev/stdin")
                  else if t =? 1 then InfoStatic (bytes "/dev/stdout") else InfoStatic (bytes "/dev/stderr")
  | KNone | DevFb _ => InfoBad
  end.

(** Copy the first [min(len, buf_len)] bytes to the caller. *)
Definition copy_path (p : list Z) (buf_ptr buf_len : Z) (s : Vfs) : outcome (Message * Vfs) :=
  let c := Z.min (len p) buf_len in
  Ret (val_reply c, poke (mem_write buf_ptr (take (Z.to_nat c) p)) s).

Definition handle_fd_path (pid fd buf_ptr buf_len : Z) (s : Vfs) : outcome (Message * Vfs) :=
  if (buf_ptr =? 0) || (buf_len =? 0) then Ret (err_reply (-14), s)
  else
    match open_fd pid fd s with
    | None => Ret (err_reply (-9), s)
    | Some (_, e) =>
        match fd_info (fd_kind e) s with
        | InfoBad => Ret (err_reply (-9), s)
        | InfoStatic p => copy_path p buf_ptr buf_len s
        | InfoPipe r => copy_path (bytes "pipe:[" ++ digits (Z.of_nat r) ++ bytes "]") buf_ptr buf_len s
        | InfoRam ptr =>
            match find_first (λ i, static_ptr s (RamData i) =? ptr) (seq 0 (length RAMFS)) with
            | Some i => copy_path (default [] (fst <$> RAMFS !! i)) buf_ptr buf_len s
            | None => Ret (err_reply (-2), s)
            end
        | InfoTmp i =>
            match v_tmp s !! i with
            | Some e => if t_in_use e then copy_path (take (Z.to_nat (t_path_len e)) (t_path e)) buf_ptr buf_len s
                        else Ret (err_reply (-9), s)
            | None => Ret (err_reply (-9), s)
            end
        end
    end.

(** ** Dispatch *)

Definition handle (msg : Message) (caller_pid : Z) (s : Vfs) : outcome (Message * Vfs) :=
  let a0 := arg msg 0 in
  let a1 := arg msg 1 in
  let a2 := arg msg 2 in
  let t := tag msg in
  if t =? VFS_OPEN then handle_open caller_pid a0 (u32 a1) s
  else if t =? VFS_READ then handle_read caller_pid a0 a1 a2 s
  else if t =? VFS_WRITE then handle_write caller_pid a0 a1 a2 s
  else if t =? VFS_CLOSE then handle_close caller_pid a0 s
  else if t =? VFS_LSEEK then handle_lseek caller_pid a0 (to_i64 a1) (u32 a2) s
  else if t =? VFS_PIPE then handle_pipe caller_pid a0 a1 s
  else if t =? VFS_DUP2 then handle_dup2 caller_pid a0 a1 s
  else if t =? VFS_FCNTL then handle_fcntl caller_pid a0 a1 a2 s
  else if t =? VFS_FORK_DUP then handle_fork_dup (u32 a0) (u32 a1) s
  else if t =? VFS_EXEC_CLOEXEC then handle_exec_cloexec (u32 a0) s
  else if t =? VFS_CLOSE_ALL then handle_close_all (u32 a0) s
  else if t =? VFS_GETDENTS64 then handle_getdents64 caller_pid a0 a1 a2 s
  else if t =? VFS_ALLOC_FD then handle_alloc_fd caller_pid a0 s
  else if t =? VFS_UNLINK then handle_unlink a0 s
  else if t =? VFS_MKDIR then handle_mkdir a0 s
  else if t =? VFS_FTRUNCATE then handle_ftruncate caller_pid a0 a1 s
  else if t =? VFS_RENAME then handle_rename a0 a1 s
  else if t =? VFS_FD_PATH then handle_fd_path caller_pid a0 a1 a2 s
  else if t =? VFS_EVENTFD then handle_eventfd caller_pid a0 s
  else if t =? VFS_TIMERFD_CREATE then handle_timerfd_create caller_pid s
  else if t =? VFS_TIMERFD_SETTIME then handle_timerfd_settime caller_pid a0 a1 a2 s
  else if t =? VFS_TIMERFD_GETTIME then handle_timerfd_gettime caller_pid a0 a1 s
  else if t =? VFS_IOCTL then handle_ioctl caller_pid a0 a1 a2 s
  else Ret (err_reply (-38), s).

(** [init]: the descriptors 0 to 2 of process 1 are /dev/null. *)
Definition stdio_entry : FdEntry := mkFd DevNull 0 true.

Definition init (owner_pid : Z) (x : PortTable * Vfs) : option Z * (PortTable * Vfs) :=
  let '(pt, s) := x in
  match create owner_pid pt with
  | (None, pt') => (None, (pt', s))
  | (Some port_id, pt') =>
      let s := set_port port_id s in
      match position (λ t, negb (p_in_use t)) (v_tables s) with
      | Some i =>
          let tbls := alter (λ t, mkTbl 1 (<[2%nat := stdio_entry]> (<[1%nat := stdio_entry]>
                                     (<[0%nat := stdio_entry]> (p_fds t)))) true) i (v_tables s) in
          (Some port_id, (pt', set_tables tbls s))
      | None => (Some port_id, (pt', s))
      end
  end.
