(* ===== verification/VfsInv.v ===== *)
(** * Well-formedness of the VFS server

    All arrays keep their sizes and every descriptor refers to a slot that
    exists; so no request makes the server index out of bounds. *)

From stdpp Require Import base list option numbers strings.
From Stdlib Require Import ZArith Lia.
From S2P Require Import Prelude Words Rings Memory IpcPort Cpio VfsData Vfs.

Local Open Scope Z_scope.

(** ** The invariant *)

Record tmp_ok (e : TmpFileEntry) : Prop := {
  to_path : length (t_path e) = Z.to_nat MAX_TMP_PATH;
  to_path_len : 0 ≤ t_path_len e < MAX_TMP_PATH;
  to_data : length (t_data e) = Z.to_nat MAX_TMP_SIZE;
  to_len : 0 ≤ t_len e ≤ MAX_TMP_SIZE
}.

Record ring_ok (r : PipeRing) : Prop := {
  ro_buf : length (r_buf r) = PIPE_RING_SIZE;
  ro_read : (r_read_pos r < PIPE_RING_SIZE)%nat;
  ro_count : (r_count r ≤ PIPE_RING_SIZE)%nat;
  ro_write : r_write_pos r = ((r_read_pos r + r_count r) mod PIPE_RING_SIZE)%nat
}.

(** The slots a vnode refers to exist. *)
Definition kind_ok (k : VnodeKind) : Prop :=
  match k with
  | Pipe ring _ => (ring < MAX_PIPES)%nat
  | TmpFile idx pos _ => (idx < MAX_TMP_FILES)%nat ∧ 0 ≤ pos < 2^64
  | EventFd slot => (slot < MAX_EVENTFDS)%nat
  | TimerFd slot => (slot < MAX_TIMERFDS)%nat
  | RamFile _ pos => 0 ≤ pos
  | DevFb pos => 0 ≤ pos < 2^64
  | DevStdio target => 0 ≤ target < 3
  | KNone | DevNull | DevZero | DevUrandom => True
  end.

Definition table_ok (t : ProcFdTable) : Prop :=
  length (p_fds t) = Z.to_nat MAX_FDS ∧ Forall (λ e, kind_ok (fd_kind e)) (p_fds t).

Record vfs_wf (s : Vfs) : Prop := {
  vw_tmp_len : length (v_tmp s) = MAX_TMP_FILES;
  vw_tmp : Forall tmp_ok (v_tmp s);
  vw_pipes_len : length (v_pipes s) = MAX_PIPES;
  vw_pipes : Forall ring_ok (v_pipes s);
  vw_events : length (v_events s) = MAX_EVENTFDS;
  vw_timers : length (v_timers s) = MAX_TIMERFDS;
  vw_tables_len : length (v_tables s) = MAX_PROCS;
  vw_tables : Forall table_ok (v_tables s)
}.

(** ** The parts *)

Lemma length_splice off src a : 0 ≤ off → off + len src ≤ len a → length (splice off src a) = length a.
Proof.
  unfold splice, len. intros Ho Hl. rewrite !length_app, length_take, length_drop. lia.
Qed.

Lemma empty_tmp_ok : tmp_ok TmpFileEntry_empty.
Proof. split; unfold TmpFileEntry_empty; simpl; rewrite ?length_replicate; unfold MAX_TMP_PATH, MAX_TMP_SIZE; lia. Qed.

Lemma new_tmp_ok path d : tmp_ok (new_tmp path d).
Proof.
  pose proof empty_tmp_ok as [Hp _ Hd _]. pose proof (len_nonneg path).
  split; unfold new_tmp; cbn [t_path t_path_len t_data t_len]; unfold MAX_TMP_PATH, MAX_TMP_SIZE in *; try lia.
  rewrite length_splice; [done|lia|]. unfold len in *. rewrite length_take. lia.
Qed.

Lemma set_len_ok n e : 0 ≤ n ≤ MAX_TMP_SIZE → tmp_ok e → tmp_ok (set_len n e).
Proof. intros Hn [? ? ? ?]. split; done. Qed.

Lemma set_data_ok d n e : length d = length (t_data e) → 0 ≤ n ≤ MAX_TMP_SIZE → tmp_ok e → tmp_ok (set_data d n e).
Proof. intros Hd Hn [? ? ? ?]. split; simpl; [done|done|congruence|done]. Qed.

Lemma set_path_ok new e : tmp_ok e → tmp_ok (set_path new e).
Proof.
  intros [Hp _ ? ?]. pose proof (len_nonneg new).
  split; unfold set_path; cbn [t_path t_path_len t_data t_len]; try done; unfold MAX_TMP_PATH in *; try lia.
  rewrite length_splice; [done|lia|]. unfold len in *. rewrite length_take. lia.
Qed.

Lemma PIPE_RING_SIZE_pos : (0 < PIPE_RING_SIZE)%nat.
Proof. unfold PIPE_RING_SIZE. lia. Qed.
Lemma PIPE_RING_SIZE_Z : Z.of_nat PIPE_RING_SIZE = 4096.
Proof. apply Z2Nat.id. lia. Qed.

#[export] Hint Resolve PIPE_RING_SIZE_pos : cyanos.
#[global] Opaque PIPE_RING_SIZE.

Lemma put_ok b r : ring_ok r → ring_ok (snd (put b r)).
Proof.
  intros [Hb Hr Hc Hw]. pose proof PIPE_RING_SIZE_pos. unfold put. case_bool; [done|]. split; simpl.
  - by rewrite length_insert.
  - done.
  - lia.
  - rewrite Hw, Nat.Div0.add_mod_idemp_l. f_equal. lia.
Qed.

Lemma get_ok r : ring_ok r → ring_ok (snd (get r)).
Proof.
  intros [Hb Hr Hc Hw]. pose proof PIPE_RING_SIZE_pos. unfold get. case_bool; [done|]. split; simpl.
  - done.
  - by apply Nat.mod_upper_bound; lia.
  - lia.
  - rewrite Hw, Nat.Div0.add_mod_idemp_l. f_equal. lia.
Qed.

Lemma set_open_ok w v r : ring_ok r → ring_ok (set_open w v r).
Proof. intros [? ? ? ?]. split; done. Qed.

Lemma put_loop_ok bs r : ring_ok r → ring_ok (snd (put_loop bs r)).
Proof.
  revert r. induction bs as [|b bs IH]; intros r Hr; [done|]. simpl. pose proof (put_ok b r Hr) as Hp.
  destruct (put b r) as [[] r']; [|done]. simpl in Hp. specialize (IH r' Hp).
  by destruct (put_loop bs r').
Qed.

Lemma get_loop_ok n r : ring_ok r → ring_ok (snd (get_loop n r)).
Proof.
  revert r. induction n as [|n IH]; intros r Hr; [done|]. simpl. pose proof (get_ok r Hr) as Hp.
  destruct (get r) as [[b|] r']; [|done]. simpl in Hp. specialize (IH r' Hp).
  by destruct (get_loop n r').
Qed.

Lemma empty_kind_ok : kind_ok (fd_kind FdEntry_empty).
Proof. exact I. Qed.

Lemma empty_table_ok : table_ok ProcFdTable_empty.
Proof.
  split; [done|]. apply Forall_lookup. intros i e He. by apply lookup_replicate_Some in He as ->.
Qed.

Lemma new_table_ok pid : table_ok (mkTbl pid (p_fds ProcFdTable_empty) true).
Proof. exact empty_table_ok. Qed.

Lemma insert_fd_ok t fd e : table_ok t → kind_ok (fd_kind e) →
  table_ok (mkTbl (p_pid t) (<[fd := e]> (p_fds t)) (p_in_use t)).
Proof. intros [Hl Hf] He. split; simpl; [by rewrite length_insert|]. by apply Forall_insert_1. Qed.

(** ** The state *)

Section wf.
Context (s : Vfs) (Hwf : vfs_wf s).

Lemma set_tmp_wf x : length x = MAX_TMP_FILES → Forall tmp_ok x → vfs_wf (set_tmp x s).
Proof. destruct Hwf. by split. Qed.
Lemma set_pipes_wf x : length x = MAX_PIPES → Forall ring_ok x → vfs_wf (set_pipes x s).
Proof. destruct Hwf. by split. Qed.
Lemma set_events_wf x : length x = MAX_EVENTFDS → vfs_wf (set_events x s).
Proof. destruct Hwf. by split. Qed.
Lemma set_timers_wf x : length x = MAX_TIMERFDS → vfs_wf (set_timers x s).
Proof. destruct Hwf. by split. Qed.
Lemma set_tables_wf x : length x = MAX_PROCS → Forall table_ok x → vfs_wf (set_tables x s).
Proof. destruct Hwf. by split. Qed.
Lemma poke_wf f : vfs_wf (poke f s).
Proof. destruct Hwf. by split. Qed.
Lemma set_lfsr_wf x : vfs_wf (set_lfsr x s).
Proof. destruct Hwf. by split. Qed.

Lemma insert_tmp_wf i e : tmp_ok e → vfs_wf (set_tmp (<[i := e]> (v_tmp s)) s).
Proof. intros He. destruct Hwf. apply set_tmp_wf; [by rewrite length_insert|by apply Forall_insert_1]. Qed.
Lemma insert_pipe_wf i r : ring_ok r → vfs_wf (set_pipes (<[i := r]> (v_pipes s)) s).
Proof. intros He. destruct Hwf. apply set_pipes_wf; [by rewrite length_insert|by apply Forall_insert_1]. Qed.
Lemma insert_event_wf i v : vfs_wf (set_events (<[i := v]> (v_events s)) s).
Proof. destruct Hwf. apply set_events_wf. by rewrite length_insert. Qed.
Lemma insert_timer_wf i v : vfs_wf (set_timers (<[i := v]> (v_timers s)) s).
Proof. destruct Hwf. apply set_timers_wf. by rewrite length_insert. Qed.
Lemma insert_table_wf i t : table_ok t → vfs_wf (set_tables (<[i := t]> (v_tables s)) s).
Proof. intros He. destruct Hwf. apply set_tables_wf; [by rewrite length_insert|by apply Forall_insert_1]. Qed.

Lemma alter_tmp_wf f i : (∀ e, tmp_ok e → tmp_ok (f e)) → vfs_wf (set_tmp (alter f i (v_tmp s)) s).
Proof. intros Hf. destruct Hwf. apply set_tmp_wf; [by rewrite length_alter|]. apply Forall_alter; [done|]. intros e He _. by eapply Hf, Forall_lookup_1. Qed.
Lemma alter_pipe_wf f i : (∀ e, ring_ok e → ring_ok (f e)) → vfs_wf (set_pipes (alter f i (v_pipes s)) s).
Proof. intros Hf. destruct Hwf. apply set_pipes_wf; [by rewrite length_alter|]. apply Forall_alter; [done|]. intros e He _. by eapply Hf, Forall_lookup_1. Qed.
Lemma alter_table_wf f i : (∀ e, table_ok e → table_ok (f e)) → vfs_wf (set_tables (alter f i (v_tables s)) s).
Proof. intros Hf. destruct Hwf. apply set_tables_wf; [by rewrite length_alter|]. apply Forall_alter; [done|]. intros e He _. by eapply Hf, Forall_lookup_1. Qed.

Lemma set_entry_wf t fd e : kind_ok (fd_kind e) → vfs_wf (set_entry t fd e s).
Proof. intros He. apply alter_table_wf. intros tbl Ht. by apply insert_fd_ok. Qed.

Lemma get_or_create_wf pid i tbls : get_or_create pid (v_tables s) = Some (i, tbls) →
  vfs_wf (set_tables tbls s) ∧ (i < MAX_PROCS)%nat.
Proof.
  destruct Hwf. unfold get_or_create. destruct (position (tbl_of pid) _) as [j|] eqn:Hj.
  - intros [= <- <-]. apply position_lt in Hj. split; [by apply set_tables_wf|lia].
  - destruct (position (λ t, negb (p_in_use t)) (v_tables s)) as [j'|] eqn:Hj'; simpl; [|done]. intros [= <- <-].
    apply position_lt in Hj'. split; [apply insert_table_wf, new_table_ok|lia].
Qed.

Lemma open_fd_ok pid fd t e : open_fd pid fd s = Some (t, e) → kind_ok (fd_kind e) ∧ fd < MAX_FDS.
Proof.
  destruct Hwf. unfold open_fd. destruct (find_tbl pid (v_tables s)) as [i|]; [|done]. simpl.
  destruct (v_tables s !! i) as [tbl|] eqn:Ht; [|done]. simpl. case_bool; [done|].
  destruct (p_fds tbl !! Z.to_nat fd) as [e'|] eqn:He; [|done]. simpl. case_bool; [|done].
  intros [= <- <-]. split; [|done].
  destruct (Forall_lookup_1 _ _ _ _ vw_tables0 Ht) as [_ Hf]. exact (Forall_lookup_1 _ _ _ _ Hf He).
Qed.

Lemma tmp_slot idx : (idx < MAX_TMP_FILES)%nat → ∃ e, v_tmp s !! idx = Some e ∧ tmp_ok e.
Proof.
  destruct Hwf. intros Hi. destruct (lookup_lt_is_Some_2 (v_tmp s) idx) as [e He]; [lia|].
  exists e. split; [done|]. by eapply Forall_lookup_1.
Qed.

Lemma pipe_slot i : (i < MAX_PIPES)%nat → ∃ r, v_pipes s !! i = Some r ∧ ring_ok r.
Proof.
  destruct Hwf. intros Hi. destruct (lookup_lt_is_Some_2 (v_pipes s) i) as [r Hr]; [lia|].
  exists r. split; [done|]. by eapply Forall_lookup_1.
Qed.

Lemma event_slot i : (i < MAX_EVENTFDS)%nat → ∃ v, v_events s !! i = Some v.
Proof. destruct Hwf. intros Hi. apply lookup_lt_is_Some_2. lia. Qed.

Lemma timer_slot i : (i < MAX_TIMERFDS)%nat → ∃ v, v_timers s !! i = Some v.
Proof. destruct Hwf. intros Hi. apply lookup_lt_is_Some_2. lia. Qed.
End wf.

#[export] Hint Resolve poke_wf set_lfsr_wf insert_event_wf insert_timer_wf set_entry_wf insert_tmp_wf
  insert_pipe_wf new_tmp_ok empty_tmp_ok set_open_ok empty_table_ok empty_kind_ok : cyanos.

Lemma Vfs_init_wf y : vfs_wf (Vfs_init y).
Proof.
  split; unfold Vfs_init; cbn [v_tmp v_pipes v_events v_timers v_tables]; try (by rewrite length_replicate);
    apply Forall_lookup; intros i x Hx; apply lookup_replicate_Some in Hx as ->;
    [apply empty_tmp_ok| |apply empty_table_ok].
  pose proof PIPE_RING_SIZE_pos. split; simpl; [by rewrite length_replicate|done|lia|].
  by rewrite Nat.mod_0_l by lia.
Qed.

(** ** What one process can change *)

Lemma find_first_insert_other {A} (p : A → bool) l i x y :
  l !! i = Some x → p x = false → p y = false → find_first p (<[i := y]> l) = find_first p l.
Proof.
  unfold find_first. revert i. induction l as [|z l IH]; intros [|i] Hi Hx Hy; simplify_eq/=.
  - rewrite Hx, Hy. by destruct (position p l).
  - destruct (p z); [done|]. specialize (IH i Hi Hx Hy).
    destruct (position p (<[i:=y]> l)), (position p l); done.
Qed.

Lemma alter_insert {A} (f : A → A) (l : list A) i x : l !! i = Some x → alter f i l = <[i := f x]> l.
Proof.
  intros Hi. apply list_eq. intros j. destruct (decide (i = j)) as [<-|Hne].
  - rewrite list_lookup_alter_eq, Hi, list_lookup_insert_eq; [done|]. by eapply lookup_lt_Some.
  - by rewrite list_lookup_alter_ne, list_lookup_insert_ne.
Qed.

(** The table of a process. *)
Definition table_of (q : Z) (s : Vfs) : option ProcFdTable := find_first (tbl_of q) (v_tables s).

(** From [s0] to [s], the server stays well formed and the tables of processes
    other than [pid] stay as they are. *)
Definition mine (pid : Z) (s0 s : Vfs) : Prop :=
  vfs_wf s ∧ ∀ q, q ≠ pid → table_of q s = table_of q s0.

(** The table at [t] is that of [pid]. *)
Definition pid_at (pid : Z) (t : nat) (s : Vfs) : Prop :=
  ∃ tbl, v_tables s !! t = Some tbl ∧ p_pid tbl = pid.

Lemma tbl_of_pid_ne q t : q ≠ p_pid t → tbl_of q t = false.
Proof. intros Hne. unfold tbl_of. rewrite (proj2 (Z.eqb_neq _ _)) by done. apply andb_false_r. Qed.

Section mine.
Context (pid : Z) (s0 s : Vfs) (Hm : mine pid s0 s).

Lemma mine_same_tables s' : vfs_wf s' → v_tables s' = v_tables s → mine pid s0 s'.
Proof. intros Hwf Ht. split; [done|]. intros q Hq. unfold table_of. rewrite Ht. by apply Hm. Qed.

Lemma mine_poke f : mine pid s0 (poke f s).
Proof. destruct Hm. apply mine_same_tables; [auto with cyanos|done]. Qed.
Lemma mine_lfsr x : mine pid s0 (set_lfsr x s).
Proof. destruct Hm. apply mine_same_tables; [auto with cyanos|done]. Qed.
Lemma mine_tmp i e : tmp_ok e → mine pid s0 (set_tmp (<[i := e]> (v_tmp s)) s).
Proof. intros He. destruct Hm. apply mine_same_tables; [auto with cyanos|done]. Qed.
Lemma mine_alter_tmp f i : (∀ e, tmp_ok e → tmp_ok (f e)) → mine pid s0 (set_tmp (alter f i (v_tmp s)) s).
Proof. intros He. destruct Hm. apply mine_same_tables; [by apply alter_tmp_wf|done]. Qed.
Lemma mine_pipe i r : ring_ok r → mine pid s0 (set_pipes (<[i := r]> (v_pipes s)) s).
Proof. intros He. destruct Hm. apply mine_same_tables; [auto with cyanos|done]. Qed.
Lemma mine_alter_pipe f i : (∀ e, ring_ok e → ring_ok (f e)) → mine pid s0 (set_pipes (alter f i (v_pipes s)) s).
Proof. intros He. destruct Hm. apply mine_same_tables; [by apply alter_pipe_wf|done]. Qed.
Lemma mine_event i v : mine pid s0 (set_events (<[i := v]> (v_events s)) s).
Proof. destruct Hm. apply mine_same_tables; [auto with cyanos|done]. Qed.
Lemma mine_timer i v : mine pid s0 (set_timers (<[i := v]> (v_timers s)) s).
Proof. destruct Hm. apply mine_same_tables; [auto with cyanos|done]. Qed.

Lemma mine_table t f : pid_at pid t s → (∀ tbl, table_ok tbl → table_ok (f tbl)) →
  (∀ tbl, p_pid (f tbl) = p_pid tbl) → mine pid s0 (set_tables (alter f t (v_tables s)) s).
Proof.
  intros (tbl & Ht & <-) Hf Hp. destruct Hm as [Hwf Ho]. split; [by apply alter_table_wf|].
  intros q Hq. rewrite <- Ho by done. unfold table_of. simpl. rewrite (alter_insert _ _ _ tbl) by done.
  apply (find_first_insert_other _ _ _ tbl); [done| |]; apply tbl_of_pid_ne; [done|by rewrite Hp].
Qed.

Lemma mine_entry t fd e : pid_at pid t s → kind_ok (fd_kind e) → mine pid s0 (set_entry t fd e s).
Proof. intros Ht He. apply mine_table; [done| |done]. intros tbl Htbl. by apply insert_fd_ok. Qed.

Lemma mine_get_or_create t tbls : get_or_create pid (v_tables s) = Some (t, tbls) →
  mine pid s0 (set_tables tbls s) ∧ pid_at pid t (set_tables tbls s).
Proof.
  destruct Hm as [Hwf Ho]. intros Hg. destruct (get_or_create_wf s Hwf _ _ _ Hg) as [Hwf' _].
  unfold get_or_create in Hg. destruct (position (tbl_of pid) (v_tables s)) as [i|] eqn:Hi.
  - injection Hg as <- <-. split; [by split|]. apply position_Some in Hi as (x & Hx & Hp & _).
    exists x. split; [done|]. unfold tbl_of in Hp. to_prop. lia.
  - destruct (position (λ t, negb (p_in_use t)) (v_tables s)) as [j|] eqn:Hj; simplify_eq/=.
    apply position_Some in Hj as (x & Hx & Hp & _). to_prop. split.
    + split; [done|]. intros q Hq. rewrite <- Ho by done. unfold table_of. simpl.
      apply (find_first_insert_other _ _ _ x); [done| |by apply tbl_of_pid_ne].
      unfold tbl_of. by rewrite Hp.
    + eexists. split; [simpl; apply list_lookup_insert_eq; by eapply lookup_lt_Some|done].
Qed.
End mine.

Lemma mine_refl pid s : vfs_wf s → mine pid s s.
Proof. intros Hwf. by split. Qed.

Lemma pid_at_set_entry pid t t' fd e s : pid_at pid t s → pid_at pid t (set_entry t' fd e s).
Proof.
  intros (tbl & Ht & Hp). unfold pid_at, set_entry. simpl. destruct (decide (t' = t)) as [->|Hne].
  - rewrite list_lookup_alter_eq, Ht. by eexists.
  - rewrite list_lookup_alter_ne by done. by eexists.
Qed.

Lemma open_fd_at pid fd t e s : open_fd pid fd s = Some (t, e) → pid_at pid t s.
Proof.
  unfold open_fd. destruct (find_tbl pid (v_tables s)) as [i|] eqn:Hi; simpl; [|done].
  destruct (v_tables s !! i) as [tbl|] eqn:Ht; simpl; [|done]. case_bool; [done|].
  destruct (p_fds tbl !! Z.to_nat fd) as [e'|]; simpl; [|done]. case_bool; [|done].
  intros [= <- <-]. exists tbl. split; [done|]. pose proof (position_holds _ _ _ _ Hi Ht) as Hp.
  unfold tbl_of in Hp. to_prop. lia.
Qed.

#[export] Hint Resolve mine_refl mine_poke mine_lfsr mine_tmp mine_pipe mine_event mine_timer mine_entry
  mine_alter_tmp mine_alter_pipe pid_at_set_entry : cyanos.
