(* ===== verification/VfsTotal.v ===== *)
(** * The VFS server serves every request

    No request makes the server index out of bounds, the server stays well
    formed, and what a process asks for changes no other process's
    descriptors. *)

From stdpp Require Import base list option numbers strings.
From Stdlib Require Import ZArith Lia.
From S2P Require Import Prelude Words Rings Memory IpcPort Cpio VfsData Vfs VfsInv.

Local Open Scope Z_scope.

(** The request returns, in a state that [pid] may reach. *)
Definition served (pid : Z) (s : Vfs) (r : outcome (Message * Vfs)) : Prop :=
  match r with Ret (_, s') => mine pid s s' | Panic => False end.

Definition is_stdio (k : VnodeKind) : bool := match k with DevStdio _ => true | _ => false end.

(** None of the descriptors 0 to 2 of [pid] is /dev/stdin, /dev/stdout or
    /dev/stderr, which stand for those descriptors. *)
Definition stdio_ok (pid : Z) (s : Vfs) : Prop :=
  ∀ fd t e, 0 ≤ fd < 3 → open_fd pid fd s = Some (t, e) → is_stdio (fd_kind e) = false.

(** No header of the RAM disk has a name without its final NUL. *)
Definition initrd_ok (s : Vfs) : Prop :=
  ∀ img, initrd_data s = Some img → ∀ off ns fs mode, cpio_header img off = Some (ns, fs, mode) → ns ≠ 0.

Ltac open_case :=
  match goal with
  | |- context [open_fd ?pid ?fd ?s] =>
      let t := fresh "t" in let e := fresh "e" in let H := fresh "Hfd" in
      destruct (open_fd pid fd s) as [[t e]|] eqn:H;
      [let K := fresh "Hkind" in let L := fresh "Hlt" in let A := fresh "Hat" in
       destruct (open_fd_ok s ltac:(done) _ _ _ _ H) as [K L]; pose proof (open_fd_at _ _ _ _ _ H) as A
      |simpl; auto with cyanos]
  end.

Lemma wadd_pos_ok pos n : 0 ≤ wadd pos n < 2^64.
Proof. apply wadd_range. Qed.

Lemma wadd_nonneg pos n : 0 ≤ wadd pos n.
Proof. apply wadd_range. Qed.

Lemma position_slot {A} (p : A → bool) l i : position p l = Some i → ∃ x, l !! i = Some x.
Proof. intros (x & Hx & _)%position_Some. by exists x. Qed.

Section serve.
Context (pid : Z) (s : Vfs) (Hwf : vfs_wf s).

Lemma put_kind_mine s1 t fd e k : mine pid s s1 → pid_at pid t s1 → kind_ok k → mine pid s (put_kind t fd e k s1).
Proof. intros Hm Ht Hk. by apply mine_entry. Qed.

Lemma set_tmp_pos_mine s1 fd p : mine pid s s1 → 0 ≤ p < 2^64 → mine pid s (set_tmp_pos pid fd p s1).
Proof.
  intros Hm Hp. unfold set_tmp_pos. destruct (find_tbl pid (v_tables s1)) as [t|] eqn:Ht; simpl; [|done].
  destruct (v_tables s1 !! t) as [tbl|] eqn:Htbl; simpl; [|done].
  destruct (p_fds tbl !! Z.to_nat fd) as [e|] eqn:He; simpl; [|done].
  destruct (fd_kind e) eqn:Hk; try done. case_bool; [|done].
  pose proof (position_holds _ _ _ _ Ht Htbl) as Hpid. unfold tbl_of in Hpid. to_prop.
  apply put_kind_mine; [done|exists tbl; split; [done|lia]|].
  destruct Hm as [Hw _]. pose proof (vw_tables _ Hw) as Hall.
  destruct (Forall_lookup_1 _ _ _ _ Hall Htbl) as [_ Hf]. pose proof (Forall_lookup_1 _ _ _ _ Hf He) as Hok.
  simpl in Hok. rewrite Hk in Hok. simpl in *. lia.
Qed.

Lemma urandom_mine n buf s1 : mine pid s s1 → mine pid s (urandom_loop n buf s1).
Proof.
  revert buf s1. induction n as [|n IH]; intros buf s1 Hm; [done|]. simpl. apply IH. auto with cyanos.
Qed.

(** Reading a descriptor that does not stand for another one. *)
Lemma read_direct fuel fd buf count : 0 ≤ count →
  (∀ t e, open_fd pid fd s = Some (t, e) → is_stdio (fd_kind e) = false) →
  served pid s (handle_read_loop (S fuel) pid fd buf count s).
Proof.
  intros Hc Hns. simpl. case_bool; [simpl; auto with cyanos|]. open_case. specialize (Hns _ _ eq_refl).
  destruct (fd_kind e) as [|d pos| | |ring w|idx pos w|slot|slot| | |pos] eqn:Hk; simpl in Hkind, Hns; try done;
    try (simpl; by auto with cyanos).
  - case_bool; simpl; [by auto with cyanos|]. apply put_kind_mine; [by auto with cyanos|done|apply wadd_nonneg].
  - destruct w; [simpl; by auto with cyanos|]. destruct (pipe_slot s Hwf ring Hkind) as (r & -> & Hr).
    case_bool; [simpl; by auto with cyanos|]. pose proof (get_loop_ok (Z.to_nat (Z.min count 4096)) r Hr) as Hg.
    destruct (get_loop _ r) as [bs r']. simpl.
    apply mine_same_tables with s; [by auto with cyanos| |done].
    apply (insert_pipe_wf (poke (mem_write buf bs) s)); [by apply poke_wf|done].
  - destruct Hkind as [Hi Hp]. destruct (tmp_slot s Hwf idx Hi) as (x & -> & Hx).
    case_bool; simpl; [by auto with cyanos|]. apply set_tmp_pos_mine; [by auto with cyanos|apply wadd_pos_ok].
  - destruct (event_slot s Hwf slot Hkind) as (v & ->). repeat case_bool; simpl; by auto with cyanos.
  - destruct (timer_slot s Hwf slot Hkind) as (v & ->). case_bool; [simpl; by auto with cyanos|].
    cbv zeta. case_bool; simpl; [by auto with cyanos|].
    apply mine_poke. apply mine_same_tables with s; [by auto with cyanos| |done].
    apply set_timers_wf; [apply set_timers_wf; [done|]|]; rewrite !length_insert; by destruct Hwf.
  - simpl. apply urandom_mine. auto with cyanos.
  - repeat case_bool; simpl; try by auto with cyanos.
    apply put_kind_mine; [by auto with cyanos|done|apply wadd_pos_ok].
Qed.

Lemma write_direct fuel fd buf count : 0 ≤ count →
  (∀ t e, open_fd pid fd s = Some (t, e) → is_stdio (fd_kind e) = false) →
  served pid s (handle_write_loop (S fuel) pid fd buf count s).
Proof.
  intros Hc Hns. simpl. case_bool; [simpl; auto with cyanos|]. open_case. specialize (Hns _ _ eq_refl).
  destruct (fd_kind e) as [|d pos| | |ring w|idx pos w|slot|slot| | |pos] eqn:Hk; simpl in Hkind, Hns; try done;
    try (simpl; by auto with cyanos).
  - destruct w; [|simpl; by auto with cyanos]. destruct (pipe_slot s Hwf ring Hkind) as (r & -> & Hr).
    case_bool; [simpl; by auto with cyanos|]. pose proof (put_loop_ok (pipe_source buf count s) r Hr) as Hg.
    destruct (put_loop _ r) as [n r']. simpl. auto with cyanos.
  - case_bool; [simpl; by auto with cyanos|].
    destruct Hkind as [Hi Hp]. destruct (tmp_slot s Hwf idx Hi) as (x & -> & Hx). cbv zeta.
    set (cur := if flag (fd_flags e) O_APPEND then t_len x else pos).
    assert (0 ≤ cur) by (subst cur; destruct Hx; case_bool; lia).
    case_bool; [simpl; by auto with cyanos|]. unfold saturating_sub, MAX_TMP_SIZE in *.
    assert (wadd cur (Z.min count (Z.max 0 (4096 - cur))) = cur + Z.min count (Z.max 0 (4096 - cur))) as Hw
      by (apply wadd_small; lia).
    simpl. apply set_tmp_pos_mine; [|rewrite Hw; lia]. apply mine_tmp; [by auto with cyanos|].
    apply set_data_ok; [|destruct Hx as [_ _ _ Hl]; unfold MAX_TMP_SIZE in *; rewrite Hw; case_bool; lia|done].
    apply length_splice; [done|]. destruct Hx as [_ _ Hd _]. unfold len. rewrite length_mem_read, Hd.
    unfold MAX_TMP_SIZE. lia.
  - destruct (event_slot s Hwf slot Hkind) as (v & ->). repeat case_bool; simpl; by auto with cyanos.
  - repeat case_bool; simpl; try by auto with cyanos.
    apply put_kind_mine; [by auto with cyanos|done|apply wadd_pos_ok].
Qed.

(** Through at most one stand-in. *)
Lemma read_served fd buf count : 0 ≤ count → stdio_ok pid s → served pid s (handle_read pid fd buf count s).
Proof.
  intros Hc Hio. unfold handle_read, stdio_fuel. destruct (open_fd pid fd s) as [[t e]|] eqn:Hfd.
  - destruct (fd_kind e) eqn:Hk; try (apply read_direct; [done|]; intros t' e' He; simplify_eq; by rewrite Hk).
    destruct (open_fd_ok s Hwf _ _ _ _ Hfd) as [Hok _]. rewrite Hk in Hok.
    assert (served pid s (handle_read_loop 3 pid target_fd buf count s)) as Hr
      by (apply read_direct; [done|]; intros; by eapply Hio).
    simpl in Hr |- *. rewrite Hfd, Hk. case_bool; [auto with cyanos|]. exact Hr.
  - apply read_direct; [done|]. intros; congruence.
Qed.

Lemma write_served fd buf count : 0 ≤ count → stdio_ok pid s → served pid s (handle_write pid fd buf count s).
Proof.
  intros Hc Hio. unfold handle_write, stdio_fuel. destruct (open_fd pid fd s) as [[t e]|] eqn:Hfd.
  - destruct (fd_kind e) eqn:Hk; try (apply write_direct; [done|]; intros t' e' He; simplify_eq; by rewrite Hk).
    destruct (open_fd_ok s Hwf _ _ _ _ Hfd) as [Hok _]. rewrite Hk in Hok.
    assert (served pid s (handle_write_loop 3 pid target_fd buf count s)) as Hr
      by (apply write_direct; [done|]; intros; by eapply Hio).
    simpl in Hr |- *. rewrite Hfd, Hk. case_bool; [auto with cyanos|]. exact Hr.
  - apply write_direct; [done|]. intros; congruence.
Qed.

Lemma close_served fd : served pid s (handle_close pid fd s).
Proof.
  unfold handle_close. open_case.
  destruct (fd_kind e) as [|d pos| | |ring w|idx pos w|slot|slot| | |pos] eqn:Hk; simpl in Hkind;
    try (simpl; by auto with cyanos).
  - destruct (pipe_slot s Hwf ring Hkind) as (r & -> & Hr). simpl. auto with cyanos.
  - rewrite (proj2 (Nat.ltb_lt _ _)) by (destruct Hwf; lia). simpl.
    apply (mine_event pid s (set_entry t (Z.to_nat fd) FdEntry_empty s)). by auto with cyanos.
  - rewrite (proj2 (Nat.ltb_lt _ _)) by (destruct Hwf; lia). simpl.
    apply (mine_timer pid s (set_entry t (Z.to_nat fd) FdEntry_empty s)). by auto with cyanos.
Qed.

Lemma to_i64_pos z : 0 ≤ to_i64 z → 0 ≤ to_i64 z < 2^64.
Proof. unfold to_i64. pose proof (u64_range z). case_bool; lia. Qed.

Lemma finish_seek_served t fd e mk p : pid_at pid t s → (∀ x, 0 ≤ x < 2^64 → kind_ok (mk x)) →
  (∀ x, p = Some x → 0 ≤ x → x < 2^64) → served pid s (finish_seek t fd e mk p s).
Proof.
  intros Ht Hk Hp. unfold finish_seek. destruct p as [x|]; [|simpl; auto with cyanos].
  case_bool; simpl; [auto with cyanos|]. apply put_kind_mine; [auto with cyanos|done|]. apply Hk.
  split; [done|]. by apply Hp.
Qed.

Lemma seek_to_range pos n offset whence x : -2^63 ≤ offset < 2^63 →
  seek_to pos n offset whence = Some x → 0 ≤ x → x < 2^64.
Proof.
  intros Ho. unfold seek_to. pose proof (to_i64_pos (to_i64 pos + offset)). pose proof (to_i64_pos (to_i64 n + offset)).
  repeat case_bool; intros; simplify_eq; lia.
Qed.

Lemma lseek_served fd offset whence : -2^63 ≤ offset < 2^63 → served pid s (handle_lseek pid fd offset whence s).
Proof.
  intros Ho. unfold handle_lseek. open_case.
  destruct (fd_kind e) as [|d pos| | |ring w|idx pos w|slot|slot| | |pos] eqn:Hk; simpl in Hkind;
    try (simpl; by auto with cyanos).
  - apply finish_seek_served; [done|by intros x [? _]|]. intros x. by apply seek_to_range.
  - destruct Hkind as [Hi _]. destruct (tmp_slot s Hwf idx Hi) as (y & -> & Hy).
    apply finish_seek_served; [done|done|]. intros x. by apply seek_to_range.
  - apply finish_seek_served; [done|done|]. intros x. by apply seek_to_range.
Qed.

Lemma install_mine s1 e n1 n2 : mine pid s s1 → kind_ok (fd_kind e) → mine pid s (snd (install pid e n1 n2 s1)).
Proof.
  intros Hm He. unfold install. destruct (get_or_create pid (v_tables s1)) as [[t tbls]|] eqn:Hg; [|done].
  destruct (mine_get_or_create _ _ _ Hm _ _ Hg) as [Hm' Ht].
  destruct (tbls !! t ≫= alloc_fd); simpl; [|done]. by apply mine_entry.
Qed.

Lemma pipe_served p1 p2 : served pid s (handle_pipe pid p1 p2 s).
Proof.
  unfold handle_pipe. destruct (position ring_free (v_pipes s)) as [i|] eqn:Hi; [|simpl; auto with cyanos].
  cbv zeta. set (s1 := set_pipes _ s).
  assert (mine pid s s1) as Hm1 by (apply mine_alter_pipe; auto with cyanos).
  destruct (get_or_create pid (v_tables s1)) as [[t tbls]|] eqn:Hg; [|done].
  destruct (mine_get_or_create _ _ _ Hm1 _ _ Hg) as [Hm2 Ht]. set (s2 := set_tables tbls s1) in *.
  assert (i < MAX_PIPES)%nat as Hlt by (apply position_lt in Hi; destruct Hwf; lia).
  destruct (v_tables s2 !! t ≫= alloc_fd) as [rfd|]; [|done].
  assert (mine pid s (set_entry t rfd (mkFd (Pipe i false) 0 true) s2)) as Hm3 by (by apply mine_entry).
  destruct (v_tables (set_entry _ _ _ _) !! t ≫= alloc_fd) as [wfd|]; simpl.
  - apply mine_poke, mine_entry; [done|auto with cyanos|done].
  - apply mine_entry; [done|auto with cyanos|done].
Qed.

Lemma dup2_served oldfd newfd : served pid s (handle_dup2 pid oldfd newfd s).
Proof. unfold handle_dup2. case_bool; [simpl; auto with cyanos|]. open_case. simpl. auto with cyanos. Qed.

Lemma fcntl_served fd cmd a : served pid s (handle_fcntl pid fd cmd a s).
Proof. unfold handle_fcntl. open_case. repeat case_bool; simpl; auto with cyanos. Qed.

Lemma alloc_fd_served oldfd : 0 ≤ oldfd → served pid s (handle_alloc_fd pid oldfd s).
Proof.
  intros Ho. unfold handle_alloc_fd. case_bool; [simpl; auto with cyanos|].
  destruct (get_or_create pid (v_tables s)) as [[t tbls]|] eqn:Hg; [|simpl; auto with cyanos].
  destruct (mine_get_or_create _ _ _ (mine_refl pid s Hwf) _ _ Hg) as [Hm Ht].
  cbv zeta. destruct Ht as (tbl & Htbl & Hp). simpl in Htbl. rewrite Htbl. simpl.
  destruct (Forall_lookup_1 _ _ _ _ (vw_tables _ (proj1 Hm)) Htbl) as [Hl Hf]. unfold MAX_FDS in *.
  destruct (lookup_lt_is_Some_2 (p_fds tbl) (Z.to_nat oldfd)) as [e He]; [lia|]. rewrite He. simpl.
  case_bool; simpl; [done|]. destruct (free_fd_except _ _ _); simpl; [|done].
  apply mine_entry; [done|by exists tbl|]. exact (Forall_lookup_1 _ _ _ _ Hf He).
Qed.

Lemma eventfd_served initval : served pid s (handle_eventfd pid initval s).
Proof.
  unfold handle_eventfd. destruct (position _ (v_events s)) as [slot|] eqn:Hs; [|simpl; auto with cyanos].
  cbv zeta. set (s1 := set_events _ s). assert (mine pid s s1) as Hm by (apply mine_event; auto with cyanos).
  assert (kind_ok (EventFd slot)) as Hk by (apply position_lt in Hs; simpl; destruct Hwf; lia).
  pose proof (install_mine s1 (mkFd (EventFd slot) 0 true) (-24) (-24) Hm Hk) as Hi.
  destruct (install _ _ _ _ s1) as [[fd|e] s2]; simpl in *; auto with cyanos.
Qed.

Lemma timerfd_create_served : served pid s (handle_timerfd_create pid s).
Proof.
  unfold handle_timerfd_create. destruct (position timer_is_free (v_timers s)) as [slot|] eqn:Hs; [|simpl; auto with cyanos].
  cbv zeta. set (s1 := set_timers _ s). assert (mine pid s s1) as Hm by (apply mine_timer; auto with cyanos).
  assert (kind_ok (TimerFd slot)) as Hk by (apply position_lt in Hs; simpl; destruct Hwf; lia).
  pose proof (install_mine s1 (mkFd (TimerFd slot) 0 true) (-24) (-24) Hm Hk) as Hi.
  destruct (install _ _ _ _ s1) as [[fd|e] s2]; simpl in *; auto with cyanos.
Qed.

Lemma timerfd_settime_served fd v i : served pid s (handle_timerfd_settime pid fd v i s).
Proof.
  unfold handle_timerfd_settime. open_case. destruct (fd_kind e) eqn:Hk; try (simpl; by auto with cyanos).
  destruct (timer_slot s Hwf slot Hkind) as (x & ->). simpl. auto with cyanos.
Qed.

Lemma timerfd_gettime_served fd p : served pid s (handle_timerfd_gettime pid fd p s).
Proof.
  unfold handle_timerfd_gettime. case_bool; [simpl; auto with cyanos|]. open_case.
  destruct (fd_kind e) eqn:Hk; try (simpl; by auto with cyanos).
  destruct (timer_slot s Hwf slot Hkind) as (x & ->). simpl. auto with cyanos.
Qed.

Lemma bytes_avail_ret k : kind_ok k → ∃ r, bytes_avail k s = Ret r.
Proof.
  intros Hk. unfold bytes_avail. destruct k as [|d pos| | |ring []|idx pos w|slot|slot| | |pos]; eauto; simpl in Hk.
  - destruct (pipe_slot s Hwf ring Hk) as (r & -> & _). eauto.
  - destruct (tmp_slot s Hwf idx (proj1 Hk)) as (e & -> & _). eauto.
  - destruct (event_slot s Hwf slot Hk) as (v & ->). eauto.
  - destruct (timer_slot s Hwf slot Hk) as (v & ->). eauto.
Qed.

Lemma ioctl_served fd cmd a : served pid s (handle_ioctl pid fd cmd a s).
Proof.
  unfold handle_ioctl, ioctl_fionread. case_bool.
  - open_case. destruct (fd_kind e); simpl; auto with cyanos.
  - case_bool; [|simpl; auto with cyanos]. case_bool; [simpl; auto with cyanos|]. open_case.
    destruct (bytes_avail_ret _ Hkind) as [[n|] ->]; simpl; auto with cyanos.
Qed.

Lemma ftruncate_served fd n : 0 ≤ n → served pid s (handle_ftruncate pid fd n s).
Proof.
  intros Hn. unfold handle_ftruncate. open_case. destruct (fd_kind e) eqn:Hk; try (simpl; by auto with cyanos).
  destruct (tmp_slot s Hwf idx (proj1 Hkind)) as (x & -> & Hx). case_bool; simpl; [auto with cyanos|].
  apply mine_tmp; [auto with cyanos|]. apply set_data_ok; [|done|done]. destruct Hx as [_ _ Hd Hl].
  case_bool; [|done]. apply length_splice; [lia|]. unfold len. rewrite length_replicate, Hd. lia.
Qed.

Lemma rename_served p q : served pid s (handle_rename p q s).
Proof.
  unfold handle_rename. destruct (read_cstr_raw p s), (read_cstr_raw q s); try (simpl; by auto with cyanos).
  case_bool; [simpl; auto with cyanos|]. destruct (position _ _); simpl; [|auto with cyanos].
  apply mine_alter_tmp; [auto with cyanos|]. apply set_path_ok.
Qed.

Lemma unlink_served p : served pid s (handle_unlink p s).
Proof.
  unfold handle_unlink. destruct (read_cstr_raw p s); [|simpl; by auto with cyanos].
  case_bool; [simpl; auto with cyanos|]. destruct (position _ _); simpl; auto with cyanos.
Qed.

Lemma mkdir_served p : served pid s (handle_mkdir p s).
Proof.
  unfold handle_mkdir. destruct (read_cstr_raw p s); [|simpl; by auto with cyanos].
  repeat (case_bool; [simpl; auto with cyanos|]). destruct (position _ _); simpl; auto with cyanos.
Qed.

Lemma fd_path_served fd p n : served pid s (handle_fd_path pid fd p n s).
Proof.
  unfold handle_fd_path. case_bool; [simpl; auto with cyanos|]. open_case.
  destruct (fd_info (fd_kind e) s); unfold copy_path; try (simpl; by auto with cyanos).
  - destruct (find_first _ _); simpl; auto with cyanos.
  - destruct (v_tmp s !! idx) as [x|]; [destruct (t_in_use x)|]; simpl; auto with cyanos.
Qed.

(** *** getdents64 *)

Lemma write_dirent_pos buf count ino name d_type d d' :
  write_dirent buf count ino name d_type d = Some d' → 0 ≤ d_pos d → 0 ≤ d_pos d'.
Proof. unfold write_dirent. case_bool; intros; simplify_eq/=; lia. Qed.

Definition dents_of (r : (Z * dents) + dents) : dents := match r with inl vd => snd vd | inr d => d end.

Lemma emit_pos buf count it vd : 0 ≤ d_pos (snd vd) → 0 ≤ d_pos (dents_of (emit buf count it vd)).
Proof.
  intros Hp. destruct it as [[ino name] ty], vd as [vi d]. simpl in *. case_bool; [|done].
  destruct (write_dirent _ _ _ _ _ d) eqn:Hw; [|done]. by eapply write_dirent_pos.
Qed.

Lemma emit_loop_pos {A} buf count (child : A → option item) l vd :
  0 ≤ d_pos (snd vd) → 0 ≤ d_pos (dents_of (emit_loop buf count child l vd)).
Proof.
  revert vd. induction l as [|x l IH]; intros vd Hp; [done|]. simpl. destruct (child x) as [it|]; [|by apply IH].
  pose proof (emit_pos buf count it vd Hp). destruct (emit buf count it vd); [by apply IH|done].
Qed.

Lemma dot_items_pos buf count d : 0 ≤ d_pos d →
  match dot_items buf count d with inl d' | inr d' => 0 ≤ d_pos d' end.
Proof.
  intros Hp. unfold dot_items.
  assert (∀ n name d1, 0 ≤ d_pos d1 → match (if d_pos d1 =? n then
    match write_dirent buf count 1 name 4 d1 with Some d' => inl d' | None => inr d1 end else inl d1)
    with inl d' | inr d' => 0 ≤ d_pos d' end) as Hstep.
  { intros n name d1 H1. case_bool; [|done]. destruct (write_dirent _ _ _ _ _ d1) eqn:Hw; [|done].
    by eapply write_dirent_pos. }
  pose proof (Hstep 0 (bytes ".") d Hp) as H1. destruct (if d_pos d =? 0 then _ else _) as [d1|d1]; [|done].
  by apply Hstep.
Qed.

Lemma initrd_loop_ret fuel img dir buf count offset vd :
  (∀ off ns fs mode, cpio_header img off = Some (ns, fs, mode) → ns ≠ 0) →
  0 ≤ offset → len img < Z.of_nat fuel + offset → (0 < fuel)%nat → 0 ≤ d_pos (snd vd) →
  ∃ r, initrd_loop fuel img dir buf count offset vd = Ret r ∧ 0 ≤ d_pos (dents_of r).
Proof.
  intros Hns. revert offset vd. induction fuel as [|fuel IH]; intros offset vd Ho Hf Hfp Hp; [lia|].
  cbn [initrd_loop]. destruct (cpio_header img offset) as [[[ns fs] mode]|] eqn:Hh; [|eauto].
  pose proof (Hns _ _ _ _ Hh) as Hn0. rewrite (proj2 (Z.eqb_neq ns 0)) by done.
  case_bool; [eauto|]. cbv zeta. case_bool; [eauto|].
  set (r := match initrd_child dir _ with Some _ => _ | None => _ end).
  assert (0 ≤ d_pos (dents_of r)) as Hr.
  { subst r. destruct (initrd_child dir _); [|done]. case_bool; [done|]. by apply emit_pos. }
  destruct r as [vd'|d]; [|eauto]. case_bool; [eauto|].
  unfold cpio_header in Hh. destruct (len img <? offset + HEADER_SIZE) eqn:He; [done|]. to_prop.
  unfold HEADER_SIZE in *. apply IH; [lia|lia|lia|done].
Qed.

Lemma list_dir_ret dir buf count pos : initrd_ok s → 0 ≤ pos →
  ∃ d, list_dir s dir buf count pos = Ret d ∧ 0 ≤ d_pos d.
Proof.
  intros Hi Hp. unfold list_dir. pose proof (dot_items_pos buf count (mkDents 0 pos (v_mem s)) Hp) as Hd.
  destruct (dot_items _ _ _) as [d|d]; [|eauto].
  pose proof (emit_loop_pos buf count (dir_item dir) RAMFS_DIRS (2, d) Hd) as H1.
  destruct (emit_loop _ _ (dir_item dir) _ _) as [vd1|d1]; [|eauto].
  pose proof (emit_loop_pos buf count (file_item dir) RAMFS vd1 H1) as H2.
  destruct (emit_loop _ _ (file_item dir) _ _) as [vd2|d2]; [|eauto].
  assert (∃ r, initrd_items s dir buf count vd2 = Ret r ∧ 0 ≤ d_pos (dents_of r)) as (r & -> & Hr).
  { unfold initrd_items. destruct (initrd_data s) as [img|] eqn:Himg; [|eauto]. case_bool; [|eauto].
    apply initrd_loop_ret; [by apply Hi|lia|unfold cpio_fuel, len; lia|unfold cpio_fuel; lia|done]. }
  destruct r; eauto.
Qed.

Lemma getdents_served fd buf count : initrd_ok s → served pid s (handle_getdents64 pid fd buf count s).
Proof.
  intros Hi. unfold handle_getdents64. case_bool; [simpl; auto with cyanos|]. open_case.
  destruct (fd_kind e) as [|d pos| | |ring w|idx pos w|slot|slot| | |pos] eqn:Hk; try (simpl; by auto with cyanos).
  destruct (list_dir_ret (static_bytes s d) buf count pos Hi Hkind) as (r & -> & Hr). simpl.
  apply put_kind_mine; [auto with cyanos|done|done].
Qed.

(** *** open *)

Definition opened (r : result VnodeKind Z * Vfs) : Prop :=
  mine pid s (snd r) ∧ match fst r with Ok k => kind_ok k | Err _ => True end.

Lemma opened_ok k : kind_ok k → opened (Ok k, s).
Proof. intros Hk. split; [simpl; auto with cyanos|done]. Qed.

Lemma open_tmp_opened path flags : opened (open_tmp path flags s).
Proof.
  unfold open_tmp. destruct (position (tmp_file_named path) (v_tmp s)) as [idx|] eqn:Hp.
  - apply position_lt in Hp. set (tmp := if flag flags O_TRUNC then _ else _).
    assert (mine pid s (set_tmp tmp s)) as Hm.
    { subst tmp. case_bool; [apply mine_alter_tmp; [auto with cyanos|]|].
      - intros e He. apply set_len_ok; [unfold MAX_TMP_SIZE; lia|done].
      - apply mine_same_tables with s; [auto with cyanos| |done]. by destruct Hwf; apply set_tmp_wf. }
    split; [done|]. simpl. split; [destruct Hwf; lia|].
    assert (0 ≤ default 0 (t_len <$> tmp !! idx) ≤ MAX_TMP_SIZE) as Hl.
    { destruct (tmp !! idx) as [e|] eqn:He; simpl; [|unfold MAX_TMP_SIZE; lia].
      exact (to_len _ (Forall_lookup_1 _ _ _ _ (vw_tmp _ (proj1 Hm)) He)). }
    unfold MAX_TMP_SIZE in Hl. repeat case_bool; lia.
  - case_bool; [|split; [simpl; auto with cyanos|done]].
    destruct (position tmp_free (v_tmp s)) as [idx|] eqn:Hf; [|split; [simpl; auto with cyanos|done]].
    apply position_lt in Hf. split; simpl; [auto with cyanos|]. split; [destruct Hwf; lia|lia].
Qed.

Lemma gen_slot_opened base content r : (length content ≤ TMP_BUF_SIZE)%nat → gen_slot base content s = Some r →
  opened (Ok (fst r), snd r).
Proof.
  intros Hc. unfold gen_slot. destruct (position tmp_free (v_tmp s)) as [idx|] eqn:Hf; [|done]. simpl.
  intros [= <-]. apply position_lt in Hf. split; simpl; [|split; [destruct Hwf; lia|lia]].
  apply mine_tmp; [auto with cyanos|]. destruct (new_tmp_ok (base ++ digits (Z.of_nat idx)) false) as [H1 H2 H3 H4].
  split; cbn [t_path t_path_len t_data t_len]; [done|done| |].
  - rewrite length_splice; [done|lia|]. change (len content ≤ Z.of_nat (length (t_data TmpFileEntry_empty))).
    rewrite (to_data _ empty_tmp_ok). unfold len, TMP_BUF_SIZE, MAX_TMP_SIZE in *. lia.
  - unfold len, TMP_BUF_SIZE, MAX_TMP_SIZE in *. lia.
Qed.

Lemma length_write_lit out lit : (length out ≤ TMP_BUF_SIZE → length (write_lit out lit) ≤ TMP_BUF_SIZE)%nat.
Proof. intros Ho. unfold write_lit. rewrite length_app, length_take. lia. Qed.

Lemma length_write_u32 out v : (length out ≤ TMP_BUF_SIZE → length (write_u32 out v) ≤ TMP_BUF_SIZE)%nat.
Proof. apply length_write_lit. Qed.

Lemma proc_system_length path y c : gen_proc_system_content path y = Some c → (length c ≤ TMP_BUF_SIZE)%nat.
Proof.
  unfold gen_proc_system_content. cbv zeta.
  repeat (case_bool; [intros [= <-]; repeat first [apply length_write_lit|apply length_write_u32]; simpl; lia|]). done.
Qed.

Lemma proc_self_length p path y c : gen_proc_self_content p path y = Some c → (length c ≤ TMP_BUF_SIZE)%nat.
Proof.
  unfold gen_proc_self_content. cbv zeta.
  repeat (case_bool; [intros [= <-]; repeat first [apply length_write_lit|apply length_write_u32];
    unfold TMP_BUF_SIZE; simpl; lia|]). done.
Qed.

Lemma open_static_ok path k : open_static path s = Some k → kind_ok k.
Proof.
  unfold open_static. destruct (position _ RAMFS); [by intros [= <-]|].
  destruct (position _ RAMFS_DIRS); [by intros [= <-]|].
  case_bool; [by intros [= <-]|]. case_bool; [by intros [= <-]|].
  destruct (find_in_initrd_file path s); simpl; [by intros [= <-]|done].
Qed.

Lemma open_kind_opened path flags : opened (open_kind pid path flags s).
Proof.
  assert (opened (Err (-2), s)) as Herr by (split; [simpl; auto with cyanos|done]).
  unfold open_kind. repeat (case_bool; [by apply opened_ok|]).
  case_bool; [apply open_tmp_opened|]. case_bool.
  { unfold gen_proc_self. destruct (gen_proc_self_content pid path (v_sys s)) as [c|] eqn:Hc; simpl; [|done].
    destruct (gen_slot _ c s) as [[k s']|] eqn:Hg; [|done].
    exact (gen_slot_opened _ _ _ (proc_self_length _ _ _ _ Hc) Hg). }
  case_bool.
  { unfold gen_proc_system. destruct (gen_proc_system_content path (v_sys s)) as [c|] eqn:Hc; simpl; [|done].
    destruct (gen_slot _ c s) as [[k s']|] eqn:Hg; [|done].
    exact (gen_slot_opened _ _ _ (proc_system_length _ _ _ Hc) Hg). }
  destruct (open_static path s) as [k|] eqn:Hs; simpl; [|done]. apply opened_ok. by eapply open_static_ok.
Qed.

Lemma open_served path_ptr flags : served pid s (handle_open pid path_ptr flags s).
Proof.
  unfold handle_open. destruct (read_cstr_raw path_ptr s) as [path|]; [|simpl; auto with cyanos].
  destruct (open_kind_opened (normalize path) flags) as [Hm Hk].
  destruct (open_kind pid (normalize path) flags s) as [[k|e] s1]; simpl in Hm, Hk |- *; [|done].
  pose proof (install_mine s1 (mkFd k flags true) (-12) (-24) Hm Hk) as Hi.
  destruct (install _ _ _ _ s1) as [[fd|e] s2]; done.
Qed.
End serve.

(** ** Requests about another process: fork, exec and exit *)

Section admin.
Context (s : Vfs) (Hwf : vfs_wf s).

(** The table of [pid] aside, nothing changes. *)
Lemma fork_dup_mine parent child : ∃ m s', handle_fork_dup parent child s = Ret (m, s') ∧ mine child s s'.
Proof.
  unfold handle_fork_dup. destruct (find_tbl parent (v_tables s)) as [t|] eqn:Ht; simpl; [|eauto using mine_refl].
  destruct (v_tables s !! t) as [tbl|] eqn:Htbl; [|eauto using mine_refl].
  destruct (position _ _) as [i|] eqn:Hi; [|eauto using mine_refl].
  eexists _, _. split; [done|]. apply position_Some in Hi as (x & Hx & Hp & _). to_prop. split.
  - apply insert_table_wf; [done|]. exact (Forall_lookup_1 _ _ _ _ (vw_tables _ Hwf) Htbl).
  - intros q Hq. apply (find_first_insert_other _ _ _ x); [done| |by apply tbl_of_pid_ne].
    unfold tbl_of. by rewrite Hp.
Qed.

Lemma find_tbl_at pid t : find_tbl pid (v_tables s) = Some t → pid_at pid t s.
Proof.
  intros (x & Hx & Hp & _)%position_Some. exists x. split; [done|]. unfold tbl_of in Hp. to_prop. lia.
Qed.

Lemma exec_cloexec_mine pid : ∃ m s', handle_exec_cloexec pid s = Ret (m, s') ∧ mine pid s s'.
Proof.
  unfold handle_exec_cloexec. destruct (find_tbl pid (v_tables s)) as [t|] eqn:Ht; [|eauto using mine_refl].
  eexists _, _. split; [done|]. apply mine_table; [by apply mine_refl|by apply find_tbl_at| |done].
  intros tbl [Hl Hf]. split; simpl; [by rewrite length_fmap|]. apply Forall_fmap. eapply Forall_impl; [exact Hf|].
  intros e He. simpl. unfold cloexec. by case_bool.
Qed.

Lemma close_all_mine pid : ∃ m s', handle_close_all pid s = Ret (m, s') ∧ mine pid s s'.
Proof.
  unfold handle_close_all. destruct (find_tbl pid (v_tables s)) as [t|] eqn:Ht; [|eauto using mine_refl].
  eexists _, _. split; [done|]. destruct (find_tbl_at _ _ Ht) as (tbl & Htbl & <-). split.
  - apply insert_table_wf; [done|apply empty_table_ok].
  - intros q Hq. apply (find_first_insert_other _ _ _ tbl); [done|by apply tbl_of_pid_ne|done].
Qed.
End admin.

(** ** Any request *)

(** The bytes of a message are bytes. *)
Definition msg_ok (msg : Message) : Prop := Forall is_byte (data msg).

Lemma arg_range msg n : msg_ok msg → 0 ≤ arg msg n < 2^64.
Proof.
  intros Hm. unfold arg. assert (Forall is_byte (take 8 (drop (n * 8) (data msg)))) as Hb
    by (by apply Forall_take, Forall_drop).
  pose proof (le_decode_range _ Hb) as Hr. split; [lia|]. eapply Z.lt_le_trans; [apply Hr|].
  apply Z.pow_le_mono_r; [lia|]. rewrite length_take. lia.
Qed.

(** The process whose descriptors a request is about. *)
Definition subject (msg : Message) (caller : Z) : Z :=
  if tag msg =? VFS_FORK_DUP then u32 (arg msg 1)
  else if (tag msg =? VFS_EXEC_CLOEXEC) || (tag msg =? VFS_CLOSE_ALL) then u32 (arg msg 0)
  else caller.

Definition answered (pid : Z) (s : Vfs) (r : outcome (Message * Vfs)) : Prop :=
  match r with Ret (_, s') => mine pid s s' | Panic => True end.

Lemma served_answered pid s r : served pid s r → answered pid s r.
Proof. by destruct r as [[m s']|]. Qed.

Lemma read_answered pid s fuel fd buf count : vfs_wf s → 0 ≤ count →
  answered pid s (handle_read_loop fuel pid fd buf count s).
Proof.
  intros Hwf Hc. revert fd. induction fuel as [|fuel IH]; intros fd; [done|].
  destruct (open_fd pid fd s) as [[t e]|] eqn:Hfd.
  - destruct (is_stdio (fd_kind e)) eqn:Hk.
    + destruct (fd_kind e) eqn:Hk'; try done. simpl. rewrite Hfd, Hk'. case_bool; [simpl; auto with cyanos|apply IH].
    + apply served_answered, read_direct; [done|done|]. intros t' e' He. by simplify_eq.
  - apply served_answered, read_direct; [done|done|]. intros; congruence.
Qed.

Lemma write_answered pid s fuel fd buf count : vfs_wf s → 0 ≤ count →
  answered pid s (handle_write_loop fuel pid fd buf count s).
Proof.
  intros Hwf Hc. revert fd. induction fuel as [|fuel IH]; intros fd; [done|].
  destruct (open_fd pid fd s) as [[t e]|] eqn:Hfd.
  - destruct (is_stdio (fd_kind e)) eqn:Hk.
    + destruct (fd_kind e) eqn:Hk'; try done. simpl. rewrite Hfd, Hk'. case_bool; [simpl; auto with cyanos|apply IH].
    + apply served_answered, write_direct; [done|done|]. intros t' e' He. by simplify_eq.
  - apply served_answered, write_direct; [done|done|]. intros; congruence.
Qed.

Lemma initrd_loop_pos fuel img dir buf count offset vd : 0 ≤ d_pos (snd vd) →
  match initrd_loop fuel img dir buf count offset vd with Ret r => 0 ≤ d_pos (dents_of r) | Panic => True end.
Proof.
  revert offset vd. induction fuel as [|fuel IH]; intros offset vd Hp; [done|]. cbn [initrd_loop].
  destruct (cpio_header img offset) as [[[ns fs] mode]|]; [|done]. do 3 (case_bool; [done|]; cbv zeta).
  set (r := match initrd_child dir _ with Some _ => _ | None => _ end).
  assert (0 ≤ d_pos (dents_of r)) as Hr.
  { subst r. destruct (initrd_child dir _); [|done]. case_bool; [done|]. by apply emit_pos. }
  destruct r as [vd'|d]; [|done]. case_bool; [done|]. by apply IH.
Qed.

Lemma list_dir_pos s dir buf count pos : 0 ≤ pos →
  match list_dir s dir buf count pos with Ret d => 0 ≤ d_pos d | Panic => True end.
Proof.
  intros Hp. unfold list_dir. pose proof (dot_items_pos buf count (mkDents 0 pos (v_mem s)) Hp) as Hd.
  destruct (dot_items _ _ _) as [d|d]; [|done].
  pose proof (emit_loop_pos buf count (dir_item dir) RAMFS_DIRS (2, d) Hd) as H1.
  destruct (emit_loop _ _ (dir_item dir) _ _) as [vd1|d1]; [|done].
  pose proof (emit_loop_pos buf count (file_item dir) RAMFS vd1 H1) as H2.
  destruct (emit_loop _ _ (file_item dir) _ _) as [vd2|d2]; [|done].
  unfold initrd_items. destruct (initrd_data s) as [img|]; [|done]. case_bool; [|done].
  pose proof (initrd_loop_pos (cpio_fuel img) img dir buf count 0 vd2 H2) as H3.
  destruct (initrd_loop _ _ _ _ _ _ _) as [[vd3|d3]|]; done.
Qed.

Lemma getdents_answered pid s fd buf count : vfs_wf s → answered pid s (handle_getdents64 pid fd buf count s).
Proof.
  intros Hwf. unfold handle_getdents64. case_bool; [simpl; auto with cyanos|]. open_case.
  destruct (fd_kind e) as [|d pos| | |ring w|idx pos w|slot|slot| | |pos] eqn:Hk; try (simpl; by auto with cyanos).
  pose proof (list_dir_pos s (static_bytes s d) buf count pos Hkind) as Hr.
  destruct (list_dir _ _ _ _ _) as [r|]; [|done]. simpl. apply put_kind_mine; [auto with cyanos|done|done].
Qed.

(** A property of the outcome of a request, from the handlers. *)
Section rule.
Context (msg : Message) (caller : Z) (s : Vfs) (P : outcome (Message * Vfs) → Prop).
Context (Hwf : vfs_wf s) (Hmsg : msg_ok msg) (Hserved : ∀ r, served (subject msg caller) s r → P r).
Context (Hread : ∀ fd buf count, 0 ≤ count → P (handle_read caller fd buf count s)).
Context (Hwrite : ∀ fd buf count, 0 ≤ count → P (handle_write caller fd buf count s)).
Context (Hdents : ∀ fd buf count, P (handle_getdents64 caller fd buf count s)).

Lemma by_caller t r : tag msg = t → (t =? VFS_FORK_DUP) || (t =? VFS_EXEC_CLOEXEC) || (t =? VFS_CLOSE_ALL) = false →
  served caller s r → P r.
Proof.
  intros Ht Hn Hr. apply Hserved. unfold subject. rewrite Ht. apply orb_false_iff in Hn as [[-> ->]%orb_false_iff ->].
  done.
Qed.

Lemma by_subject pid r : pid = subject msg caller → (∃ m s', r = Ret (m, s') ∧ mine pid s s') → P r.
Proof. intros -> (m & s' & -> & Hm). by apply Hserved. Qed.

Ltac tag_subject := match goal with H : tag msg = _ |- _ => unfold subject; by rewrite H end.

Lemma handle_rule : P (handle msg caller s).
Proof.
  destruct (arg_range msg 0 Hmsg), (arg_range msg 1 Hmsg), (arg_range msg 2 Hmsg).
  unfold handle. cbv zeta.
  case_bool; [by eapply by_caller, open_served|]. case_bool; [by apply Hread|]. case_bool; [by apply Hwrite|].
  case_bool; [by eapply by_caller, close_served|].
  case_bool; [eapply by_caller, lseek_served; [done|done|done|apply to_i64_range]|].
  case_bool; [by eapply by_caller, pipe_served|]. case_bool; [by eapply by_caller, dup2_served|].
  case_bool; [by eapply by_caller, fcntl_served|].
  case_bool; [eapply by_subject, fork_dup_mine; [|done]; tag_subject|].
  case_bool; [eapply by_subject, exec_cloexec_mine; [|done]; tag_subject|].
  case_bool; [eapply by_subject, close_all_mine; [|done]; tag_subject|].
  case_bool; [by apply Hdents|]. case_bool; [by eapply by_caller, alloc_fd_served|].
  case_bool; [by eapply by_caller, unlink_served|]. case_bool; [by eapply by_caller, mkdir_served|].
  case_bool; [by eapply by_caller, ftruncate_served|]. case_bool; [by eapply by_caller, rename_served|].
  case_bool; [by eapply by_caller, fd_path_served|]. case_bool; [by eapply by_caller, eventfd_served|].
  case_bool; [by eapply by_caller, timerfd_create_served|]. case_bool; [by eapply by_caller, timerfd_settime_served|].
  case_bool; [by eapply by_caller, timerfd_gettime_served|]. case_bool; [by eapply by_caller, ioctl_served|].
  apply Hserved. simpl. auto with cyanos.
Qed.
End rule.

(** ** Stand-ins for descriptors 0 to 2 *)

Definition target (pid fd : Z) (s : Vfs) : option Z :=
  match open_fd pid fd s with
  | Some (_, e) => match fd_kind e with DevStdio t => Some t | _ => None end
  | None => None
  end.

Section chain.
Context (pid buf count : Z) (s : Vfs) (Hwf : vfs_wf s) (Hc : 0 < count).

Lemma read_step fuel fd t : target pid fd s = Some t →
  handle_read_loop (S fuel) pid fd buf count s = handle_read_loop fuel pid t buf count s ∧ 0 ≤ t < 3.
Proof.
  unfold target. intros Ht. destruct (open_fd pid fd s) as [[i e]|] eqn:Hfd; [|done].
  destruct (open_fd_ok s Hwf _ _ _ _ Hfd) as [Hk _].
  destruct (fd_kind e) eqn:He; simplify_eq. split; [|done]. simpl. rewrite Hfd, He.
  by rewrite (proj2 (Z.eqb_neq _ _)) by lia.
Qed.

Lemma read_panic_target fuel fd : handle_read_loop (S fuel) pid fd buf count s = Panic →
  ∃ t, target pid fd s = Some t.
Proof.
  intros Hp. destruct (target pid fd s) as [t|] eqn:Ht; [eauto|]. exfalso.
  assert (served pid s (handle_read_loop (S fuel) pid fd buf count s)) as Hs; [|by rewrite Hp in Hs].
  apply read_direct; [done|lia|]. intros i e He. unfold target in Ht. rewrite He in Ht. by destruct (fd_kind e).
Qed.

(** A read that follows four stand-ins never returns: three of them are on a
    cycle.  So [stdio_fuel] is enough. *)
Lemma read_fuel_enough fd : handle_read pid fd buf count s = Panic →
  ∀ fuel, handle_read_loop fuel pid fd buf count s = Panic.
Proof.
  unfold handle_read, stdio_fuel. intros H0.
  destruct (read_panic_target _ _ H0) as [t1 Ht1]. destruct (read_step 3 fd t1 Ht1) as [E1 R1]. rewrite E1 in H0.
  destruct (read_panic_target _ _ H0) as [t2 Ht2]. destruct (read_step 2 t1 t2 Ht2) as [E2 R2]. rewrite E2 in H0.
  destruct (read_panic_target _ _ H0) as [t3 Ht3]. destruct (read_step 1 t2 t3 Ht3) as [E3 R3]. rewrite E3 in H0.
  destruct (read_panic_target _ _ H0) as [t4 Ht4]. destruct (read_step 0 t3 t4 Ht4) as [_ R4].
  assert (t4 = t1 ∨ t4 = t2 ∨ t4 = t3) as Hcycle.
  { destruct (decide (t1 = t2)) as [->|]; [rewrite Ht2 in Ht3; simplify_eq; auto|].
    destruct (decide (t1 = t3)) as [->|]; [rewrite Ht2 in Ht4; simplify_eq; auto|].
    destruct (decide (t2 = t3)) as [->|]; [rewrite Ht3 in Ht4; simplify_eq; auto|]. lia. }
  assert (∀ fuel t, t = t1 ∨ t = t2 ∨ t = t3 → handle_read_loop fuel pid t buf count s = Panic) as Hall.
  { induction fuel as [|fuel IH]; intros t Ht; [done|]. destruct Ht as [->|[->| ->]].
    - rewrite (proj1 (read_step fuel t1 t2 Ht2)). auto.
    - rewrite (proj1 (read_step fuel t2 t3 Ht3)). auto.
    - rewrite (proj1 (read_step fuel t3 t4 Ht4)). auto. }
  intros [|fuel]; [done|]. rewrite (proj1 (read_step fuel fd t1 Ht1)). auto.
Qed.
End chain.

(** Descriptor 0 opened on /dev/stdin: a read of it calls itself for ever. *)
Lemma stdin_on_fd0_diverges pid buf count s t e : 0 < count → open_fd pid 0 s = Some (t, e) →
  fd_kind e = DevStdio 0 → ∀ fuel, handle_read_loop fuel pid 0 buf count s = Panic.
Proof.
  intros Hc Hfd Hk. induction fuel as [|fuel IH]; [done|]. simpl. rewrite Hfd, Hk.
  by rewrite (proj2 (Z.eqb_neq _ _)) by lia.
Qed.

(** ** The theorems *)

(** A request: the state of the kernel as the server sees it, the message and
    the caller. *)
Definition request : Type := Sys * Message * Z.

Fixpoint serve (rs : list request) (s : Vfs) : outcome Vfs :=
  match rs with
  | [] => Ret s
  | (y, msg, caller) :: rs' =>
      match handle msg caller (set_sys y s) with
      | Ret (_, s') => serve rs' s'
      | Panic => Panic
      end
  end.

Lemma handle_wf msg caller s m s' : vfs_wf s → msg_ok msg → handle msg caller s = Ret (m, s') → vfs_wf s'.
Proof.
  intros Hwf Hm Hh. assert (answered (subject msg caller) s (handle msg caller s) ∨
    answered caller s (handle msg caller s)) as Hs.
  { apply handle_rule; [done|done|intros; left; by apply served_answered|..]; intros; right;
      [by apply read_answered|by apply write_answered|by apply getdents_answered]. }
  rewrite Hh in Hs. by destruct Hs as [[? _]|[? _]].
Qed.

(** After any sequence of requests, of any processes and with any memory
    and clock values, all tables of the VFS server have their sizes, every
    descriptor refers to a pipe, file, eventfd or timerfd slot that exists,
    every /tmp file is within its 4096 bytes and every pipe's positions agree
    with the number of bytes it holds. *)
Theorem vfs_stays_well_formed y rs s :
  Forall (λ r, msg_ok (snd (fst r))) rs → serve rs (Vfs_init y) = Ret s → vfs_wf s.
Proof.
  generalize (Vfs_init_wf y). generalize (Vfs_init y). induction rs as [|[[y' msg] caller] rs IH]; intros s0 Hwf Hms Hs.
  - by injection Hs as <-.
  - apply Forall_cons in Hms as [Hm Hms]. simpl in Hs.
    destruct (handle msg caller (set_sys y' s0)) as [[m s1]|] eqn:Hh; [|done].
    apply (IH s1); [|done|done]. eapply handle_wf; [|exact Hm|exact Hh]. destruct Hwf. by split.
Qed.


(** *** Witnesses *)

(** The caller's memory has the path /tmp/a at 0x1000. *)
Definition demo_sys : Sys :=
  mkSys (mem_write 0x1000 (bytes "/tmp/a" ++ [0]) (λ _, 0)) 0 5 7 1 1 1024 512 (λ _, 0).

Definition request_msg (t : Z) (args : list Z) : Message :=
  mkMessage t 0 (take 56 (mjoin (le_encode 8 <$> args) ++ replicate 56 0)) None.

Lemma request_msg_ok t args : msg_ok (request_msg t args).
Proof.
  unfold msg_ok, request_msg. cbn [data]. apply Forall_take, Forall_app. split.
  - induction args as [|a args IH]; [by apply Forall_nil|]. cbn [fmap list_fmap mjoin list_join].
    apply Forall_app. split; [apply (le_encode_bytes 8 a)|exact IH].
  - apply Forall_lookup. intros i x Hx. apply lookup_replicate_Some in Hx as ->. unfold is_byte. lia.
Qed.

(** Open /tmp/a for writing with O_CREAT, write 4 bytes, make a pipe. *)
Definition demo_requests : list request := [
  (demo_sys, request_msg VFS_OPEN [0x1000; 0x42], 7);
  (demo_sys, request_msg VFS_WRITE [0; 0x1000; 4], 7);
  (demo_sys, request_msg VFS_PIPE [0x2000; 0x2004], 7)].

Lemma vfs_stays_well_formed_witness :
  match serve demo_requests (Vfs_init demo_sys) with
  | Ret s => vfs_wf s ∧ (fd_in_use <$> take 4 (default [] (p_fds <$> table_of 7 s))) = [true; true; true; false]
  | Panic => False
  end.
Proof.
  assert (match serve demo_requests (Vfs_init demo_sys) with
    | Ret s => fd_in_use <$> take 4 (default [] (p_fds <$> table_of 7 s)) | Panic => [] end =
    [true; true; true; false]) as Hv by (vm_compute; reflexivity).
  destruct (serve demo_requests (Vfs_init demo_sys)) as [s|] eqn:Hs; [|discriminate Hv]. split; [|exact Hv].
  apply (vfs_stays_well_formed demo_sys demo_requests s); [|exact Hs].
  unfold demo_requests. repeat (apply Forall_cons; split; [apply request_msg_ok|]). by apply Forall_nil.
Defined.


(** ** Generated files *)

Definition proc_sys : Sys := mkSys (mem_write 0x1000 (bytes "/proc/self/stat" ++ [0]) (λ _, 0)) 0 5 7 1 1 1024 512 (λ _, 0).

(** Open and close a file under /proc/self, [n] times. *)
Definition open_close (n : nat) : list request :=
  mjoin (replicate n [(proc_sys, request_msg VFS_OPEN [0x1000; 0], 7); (proc_sys, request_msg VFS_CLOSE [0], 7)]).

(** The slot of a generated file is not released by close: after 32 times no
    slot is left, and neither /proc nor /tmp files can be created. *)
Lemma generated_files_leak :
  match serve (open_close 32) (Vfs_init proc_sys) with
  | Ret s => existsb tmp_free (v_tmp s) = false ∧ table_of 7 s = Some (mkTbl 7 (p_fds ProcFdTable_empty) true)
  | Panic => False
  end.
Proof.
  assert (match serve (open_close 32) (Vfs_init proc_sys) with
    | Ret s => (existsb tmp_free (v_tmp s), table_of 7 s) | Panic => (true, None) end =
    (false, Some (mkTbl 7 (p_fds ProcFdTable_empty) true))) as Hv by (vm_compute; reflexivity).
  destruct (serve _ _); [by injection Hv|discriminate].
Qed.
