(* ===== verification/VfsPipe.v ===== *)
(** * Pipes of the VFS server

    A pipe is a first-in first-out queue of at most 4096 bytes: what its readers
    get is what its writers put in, in order, without loss. *)

From stdpp Require Import base list option numbers strings.
From Stdlib Require Import ZArith Lia.
From S2P Require Import Prelude Words Rings Memory IpcPort Cpio VfsData Vfs VfsInv.

Local Open Scope Z_scope.

(** ** The ring as a queue *)

(** The bytes in a pipe, oldest first. *)
Definition ring_bytes (r : PipeRing) : list Z := cslice (r_buf r) (r_read_pos r) (r_count r).

Lemma length_ring_bytes r : ring_ok r → length (ring_bytes r) = r_count r.
Proof. intros [Hb _ _ _]. unfold ring_bytes. apply length_cslice. rewrite Hb. apply PIPE_RING_SIZE_pos. Qed.

Lemma put_spec b r : ring_ok r →
  match put b r with
  | (true, r') => (r_count r < PIPE_RING_SIZE)%nat ∧ ring_bytes r' = ring_bytes r ++ [b] ∧ r_count r' = S (r_count r)
  | (false, r') => r' = r ∧ r_count r = PIPE_RING_SIZE
  end.
Proof.
  intros [Hb Hr Hc Hw]. unfold put. case_bool; [split; [done|lia]|]. split_and!; [done| |simpl; lia].
  unfold ring_bytes. cbn [r_buf r_read_pos r_count]. rewrite Hw, Nat.add_1_r, <- Hb. apply cslice_push. lia.
Qed.

Lemma get_spec r : ring_ok r →
  match get r with
  | (Some b, r') => ring_bytes r = b :: ring_bytes r'
  | (None, r') => r' = r ∧ ring_bytes r = []
  end.
Proof.
  intros [Hb Hr Hc Hw]. unfold get. pose proof PIPE_RING_SIZE_pos. unfold ring_bytes. case_bool.
  - split; [done|]. by rewrite Heqb.
  - destruct (lookup_lt_is_Some_2 (r_buf r) (r_read_pos r)) as [b Hx]; [lia|]. rewrite Hx.
    cbn [r_buf r_read_pos r_count]. destruct (r_count r) as [|n] eqn:Hn; [lia|].
    rewrite (cslice_pop _ _ _ b); [|lia|by rewrite Hb, Nat.mod_small by lia].
    rewrite <- Hb, cslice_mod, Nat.add_1_r by lia. by rewrite Nat.sub_succ, Nat.sub_0_r.
Qed.

Lemma put_loop_spec bs r n r' : ring_ok r → put_loop bs r = (n, r') →
  n = Nat.min (length bs) (PIPE_RING_SIZE - r_count r) ∧ ring_bytes r' = ring_bytes r ++ take n bs.
Proof.
  revert r n r'. induction bs as [|b bs IH]; intros r n r' Hr Hp; simpl in Hp.
  { simplify_eq. simpl. by rewrite app_nil_r. }
  pose proof (put_spec b r Hr) as Hs. pose proof (put_ok b r Hr) as Hr1.
  destruct (put b r) as [[] r1]; simpl in Hr1.
  - destruct Hs as (Hc & Hb & Hc'). destruct (put_loop bs r1) as [k r2] eqn:Hl. simplify_eq.
    destruct (IH r1 k r' Hr1 Hl) as [-> Hbs]. split; [cbn [length]; lia|]. rewrite Hbs, Hb, <- app_assoc. done.
  - destruct Hs as [-> Hc]. simplify_eq. split; [lia|]. by rewrite take_0, app_nil_r.
Qed.

Lemma get_loop_spec k r bs r' : ring_ok r → get_loop k r = (bs, r') →
  bs = take k (ring_bytes r) ∧ ring_bytes r' = drop k (ring_bytes r).
Proof.
  revert r bs r'. induction k as [|k IH]; intros r bs r' Hr Hg; simpl in Hg.
  { simplify_eq. by rewrite take_0, drop_0. }
  pose proof (get_spec r Hr) as Hs. pose proof (get_ok r Hr) as Hr1.
  destruct (get r) as [[b|] r1]; simpl in Hr1.
  - destruct (get_loop k r1) as [bs1 r2] eqn:Hl. simplify_eq. rewrite Hs.
    destruct (IH r1 bs1 r' Hr1 Hl) as [-> ->]. done.
  - destruct Hs as [-> Hb]. simplify_eq. rewrite Hb. by rewrite take_nil, drop_nil.
Qed.

(** The open flags do not change. *)
Lemma put_loop_open bs r : r_read_open (snd (put_loop bs r)) = r_read_open r ∧
  r_write_open (snd (put_loop bs r)) = r_write_open r.
Proof.
  revert r. induction bs as [|b bs IH]; intros r; [done|]. simpl. unfold put. case_bool; [done|].
  match goal with |- context [put_loop bs ?r1] => specialize (IH r1); destruct (put_loop bs r1) end. exact IH.
Qed.

Lemma get_loop_open n r : r_read_open (snd (get_loop n r)) = r_read_open r ∧
  r_write_open (snd (get_loop n r)) = r_write_open r.
Proof.
  revert r. induction n as [|n IH]; intros r; [done|]. simpl. unfold get. case_bool; [done|].
  destruct (r_buf r !! r_read_pos r); [|done].
  match goal with |- context [get_loop n ?r1] => specialize (IH r1); destruct (get_loop n r1) end. exact IH.
Qed.

(** ** Requests on the two ends *)

(** The value of a reply, as the kernel takes it. *)
Definition vfs_reply_val (m : Message) : Z := to_i64 (le_decode (take 8 (data m))).

Lemma vfs_reply_make v : -2^63 ≤ v < 2^63 → vfs_reply_val (make_reply v) = v.
Proof.
  intros Hv. unfold vfs_reply_val, make_reply. cbn [data].
  rewrite take_app_le by (rewrite length_le_encode; lia). rewrite take_ge by (rewrite length_le_encode; lia).
  rewrite le_decode_encode by (pose proof (u64_range v); simpl; lia).
  unfold to_i64, u64. rewrite Z.mod_mod by lia. case_bool.
  - destruct (Z.lt_ge_cases v 0); [|by rewrite Z.mod_small by lia].
    rewrite <- (Z.mod_add v 1), Z.mod_small in Heqb by lia. lia.
  - destruct (Z.lt_ge_cases v 0).
    + rewrite <- (Z.mod_add v 1), Z.mod_small by lia. lia.
    + rewrite Z.mod_small in Heqb by lia. lia.
Qed.

Lemma vfs_reply_small v : 0 ≤ v < 2^63 → vfs_reply_val (val_reply v) = v.
Proof.
  intros Hv. unfold val_reply, to_i64. rewrite u64_small by lia. rewrite (proj2 (Z.ltb_lt _ _)) by lia.
  apply vfs_reply_make. lia.
Qed.

(** The descriptor [fd] of [pid] is an end of pipe [i]. *)
Definition pipe_end (pid fd : Z) (i : nat) (is_write : bool) (s : Vfs) : Prop :=
  ∃ t e, open_fd pid fd s = Some (t, e) ∧ fd_kind e = Pipe i is_write.

Lemma write_pipe pid fd i r buf count s : pipe_end pid fd i true s → v_pipes s !! i = Some r →
  ring_ok r → r_read_open r = true → 0 < count →
  ∃ r', let n := Z.min count (4096 - Z.of_nat (r_count r)) in
    handle_write pid fd buf count s = Ret (val_reply n, set_pipes (<[i := r']> (v_pipes s)) s) ∧
    ring_ok r' ∧ r_read_open r' = true ∧ r_write_open r' = r_write_open r ∧
    ring_bytes r' = ring_bytes r ++ mem_read (v_mem s) buf n.
Proof.
  intros (t & e & Hfd & Hk) Hr Hok Ho Hc. destruct (put_loop (pipe_source buf count s) r) as [n r'] eqn:Hp.
  pose proof (put_loop_ok (pipe_source buf count s) r Hok) as Hok'.
  pose proof (put_loop_open (pipe_source buf count s) r) as [Ho' Ho2].
  destruct (put_loop_spec _ _ _ _ Hok Hp) as [Hn Hb]. rewrite Hp in Hok', Ho', Ho2.
  simpl in Hok', Ho', Ho2.
  pose proof PIPE_RING_SIZE_Z as HS. destruct Hok as [_ _ Hcnt _].
  unfold pipe_source in Hn, Hb. rewrite length_mem_read in Hn. rewrite HS in Hn.
  exists r'. cbv zeta. split_and!; [|done|congruence|done|].
  - unfold handle_write, stdio_fuel. cbn [handle_write_loop]. rewrite (proj2 (Z.eqb_neq _ _)), Hfd, Hk, Hr, Ho by lia.
    cbn [negb]. rewrite Hp. repeat f_equal. lia.
  - rewrite Hb. f_equal. apply list_eq. intros j. destruct (decide (j < n)%nat) as [Hj|Hj].
    + rewrite lookup_take_lt by done. rewrite HS. rewrite !lookup_mem_read. by rewrite !decide_True by lia.
    + rewrite !lookup_ge_None_2; [done|rewrite length_mem_read; lia|rewrite length_take, length_mem_read; lia].
Qed.

Lemma read_pipe pid fd i r buf count s : pipe_end pid fd i false s → v_pipes s !! i = Some r →
  ring_ok r → r_write_open r = true → 0 < count →
  (r_count r = 0%nat ∧ handle_read pid fd buf count s = Ret (err_reply (-11), s)) ∨
  ∃ r', let bs := take (Z.to_nat (Z.min count 4096)) (ring_bytes r) in
    handle_read pid fd buf count s =
      Ret (val_reply (len bs), set_pipes (<[i := r']> (v_pipes s)) (poke (mem_write buf bs) s)) ∧
    ring_ok r' ∧ r_read_open r' = r_read_open r ∧ r_write_open r' = true ∧
    ring_bytes r = bs ++ ring_bytes r'.
Proof.
  intros (t & e & Hfd & Hk) Hr Hok Ho Hc.
  destruct (get_loop (Z.to_nat (Z.min count 4096)) r) as [bs r'] eqn:Hg.
  pose proof (get_loop_ok (Z.to_nat (Z.min count 4096)) r Hok) as Hok'.
  pose proof (get_loop_open (Z.to_nat (Z.min count 4096)) r) as [Ho1 Ho2].
  destruct (get_loop_spec _ _ _ _ Hok Hg) as [Hbs Hb]. rewrite Hg in Hok', Ho1, Ho2. simpl in Hok', Ho1, Ho2.
  unfold handle_read, stdio_fuel. cbn [handle_read_loop].
  rewrite (proj2 (Z.eqb_neq count 0)), Hfd, Hk, Hr, Ho by lia.
  case_bool; [by left|]. right. exists r'. cbv zeta. rewrite Hg, <- Hbs. split_and!; [done|done|done|congruence|].
  rewrite Hb, Hbs. by rewrite take_drop.
Qed.

(** ** Histories *)

(** A write or a read, with the kernel state at that time, the buffer and the
    number of bytes asked for. *)
Inductive pipe_op := PipeWrite (y : Sys) (buf count : Z) | PipeRead (y : Sys) (buf count : Z).

Definition op_count (op : pipe_op) : Z := match op with PipeWrite _ _ n | PipeRead _ _ n => n end.

Section history.
Context (pw fw pr fr : Z) (i : nat).

(** The bytes that a write says it took from the writer's buffer, and the bytes
    that a read says it put into the reader's. *)
Definition pipe_step (op : pipe_op) (s : Vfs) : outcome (list Z * list Z * Vfs) :=
  match op with
  | PipeWrite y buf count =>
      match handle_write pw fw buf count (set_sys y s) with
      | Ret (m, s') => Ret (mem_read (y_mem y) buf (vfs_reply_val m), [], s')
      | Panic => Panic
      end
  | PipeRead y buf count =>
      match handle_read pr fr buf count (set_sys y s) with
      | Ret (m, s') => Ret ([], mem_read (v_mem s') buf (vfs_reply_val m), s')
      | Panic => Panic
      end
  end.

Fixpoint pipe_run (ops : list pipe_op) (s : Vfs) : outcome (list Z * list Z * Vfs) :=
  match ops with
  | [] => Ret ([], [], s)
  | op :: ops' =>
      match pipe_step op s with
      | Panic => Panic
      | Ret (w, d, s') =>
          match pipe_run ops' s' with
          | Panic => Panic
          | Ret (ws, ds, s'') => Ret (w ++ ws, d ++ ds, s'')
          end
      end
  end.

(** Both ends of pipe [i] are open and it holds [q]. *)
Record pipe_state (s : Vfs) (q : list Z) : Prop := {
  ps_write : pipe_end pw fw i true s;
  ps_read : pipe_end pr fr i false s;
  ps_ring : ∃ r, v_pipes s !! i = Some r ∧ ring_ok r ∧ r_read_open r = true ∧ r_write_open r = true ∧ ring_bytes r = q
}.

Lemma pipe_state_update s s' r q : v_tables s' = v_tables s → v_pipes s' = <[i := r]> (v_pipes s) →
  ring_ok r → r_read_open r = true → r_write_open r = true → ring_bytes r = q →
  ∀ q0, pipe_state s q0 → pipe_state s' q.
Proof.
  intros Ht Hp Hok H1 H2 Hq q0 [(t & e & Hfd & Hk) (t' & e' & Hfd' & Hk') (r0 & Hr0 & _)].
  assert (∀ pid fd, open_fd pid fd s' = open_fd pid fd s) as Ho by (intros; unfold open_fd; by rewrite Ht).
  split; [exists t, e; by rewrite Ho|exists t', e'; by rewrite Ho|].
  exists r. rewrite Hp, list_lookup_insert_eq by (by eapply lookup_lt_Some). done.
Qed.

Lemma pipe_step_spec op s q : pipe_state s q → 0 < op_count op →
  ∃ w d s' q', pipe_step op s = Ret (w, d, s') ∧ pipe_state s' q' ∧ q ++ w = d ++ q'.
Proof.
  intros Hs Hc. pose proof Hs as [Hw Hr (r & Hri & Hok & Hro & Hwo & Hq)].
  pose proof PIPE_RING_SIZE_Z. pose proof (ro_count _ Hok).
  destruct op as [y buf count|y buf count]; simpl in Hc; unfold pipe_step.
  - destruct (write_pipe pw fw i r buf count (set_sys y s) Hw Hri Hok Hro Hc) as (r' & Heq & Hok' & Ho1 & Ho2 & Hb).
    rewrite Heq, vfs_reply_small by lia. eexists _, _, _, (ring_bytes r'). split; [done|].
    split; [|rewrite Hb, Hq; done].
    apply (pipe_state_update s _ r') with q; [done|done|done|done|congruence|done|done].
  - destruct (read_pipe pr fr i r buf count (set_sys y s) Hr Hri Hok Hwo Hc)
      as [[_ Heq]|(r' & Heq & Hok' & Ho1 & Ho2 & Hb)]; rewrite Heq.
    + unfold err_reply. rewrite vfs_reply_make by lia. eexists _, _, _, q. split; [done|].
      split; [|by rewrite app_nil_r]. split; [exact Hw|exact Hr|]. by exists r.
    + set (bs := take _ _) in *. pose proof (length_ring_bytes r Hok) as Hlen.
      assert (length bs ≤ r_count r)%nat by (subst bs; rewrite length_take; lia).
      rewrite vfs_reply_small by (unfold len; lia). eexists _, _, _, (ring_bytes r'). split; [done|]. split.
      * apply (pipe_state_update s _ r') with q; [done|done|done|congruence|done|done|done].
      * rewrite app_nil_r, <- Hq, Hb. f_equal. symmetry. apply mem_read_write.
Qed.

(** C7: Over any sequence of writes and reads on the two ends of a pipe, by any
    processes, with any buffers and sizes, each request returns, and what the
    readers have been given followed by what the pipe still holds is exactly
    what the writers were told was taken: no byte is lost, repeated or
    reordered. *)
Theorem pipe_fifo ops s q : pipe_state s q → Forall (λ op, 0 < op_count op) ops →
  ∃ written delivered s' rest, pipe_run ops s = Ret (written, delivered, s') ∧
    pipe_state s' rest ∧ q ++ written = delivered ++ rest.
Proof.
  revert s q. induction ops as [|op ops IH]; intros s q Hs Hops.
  { exists [], [], s, q. by rewrite app_nil_r. }
  apply Forall_cons in Hops as [Hop Hops]. simpl.
  destruct (pipe_step_spec op s q Hs Hop) as (w & d & s1 & q1 & -> & Hs1 & E1).
  destruct (IH s1 q1 Hs1 Hops) as (ws & ds & s2 & q2 & -> & Hs2 & E2).
  eexists _, _, _, q2. split; [done|]. split; [done|]. by rewrite app_assoc, E1, <- !app_assoc, E2.
Qed.
End history.

(** *** Witness: a pipe in process 7, descriptors 0 and 1 *)

Definition pipe_sys : Sys := mkSys (λ a, a mod 256) 0 0 7 1 1 0 0 (λ _, 0).

Definition pipe_demo : Vfs :=
  set_pipes (<[0%nat := mkRing (replicate PIPE_RING_SIZE 0) 0 0 0 true true]> (v_pipes (Vfs_init pipe_sys)))
    (set_tables [mkTbl 7 [mkFd (Pipe 0 false) 0 true; mkFd (Pipe 0 true) 0 true] true] (Vfs_init pipe_sys)).

Lemma pipe_fifo_witness : ∃ s' rest,
  pipe_run 7 1 7 0 [PipeWrite pipe_sys 10 5; PipeRead pipe_sys 100 3] pipe_demo =
    Ret ([10; 11; 12; 13; 14], [10; 11; 12], s') ∧ rest = [13; 14].
Proof.
  assert (pipe_state 7 1 7 0 0 pipe_demo []) as Hs.
  { split; [by eexists _, _|by eexists _, _|]. eexists. split; [reflexivity|]. pose proof PIPE_RING_SIZE_pos.
    split_and!; [|done|done|done]. split; simpl; [by rewrite length_replicate|done|lia|by rewrite Nat.mod_0_l by lia]. }
  destruct (pipe_fifo 7 1 7 0 0 [PipeWrite pipe_sys 10 5; PipeRead pipe_sys 100 3] pipe_demo [] Hs)
    as (w & d & s' & rest & Hrun & _ & E).
  { repeat (apply Forall_cons; split; [reflexivity|]). by apply Forall_nil. }
  assert (match pipe_run 7 1 7 0 [PipeWrite pipe_sys 10 5; PipeRead pipe_sys 100 3] pipe_demo with
    | Ret (w, d, _) => (w, d) | Panic => ([], []) end = ([10; 11; 12; 13; 14], [10; 11; 12])) as Hv
    by (vm_compute; reflexivity).
  rewrite Hrun in Hv. injection Hv as -> ->. exists s', rest. split; [exact Hrun|].
  simpl in E. by injection E.
Defined.

(** ** Closing an end *)

(** Closing an end of a pipe marks it closed in the ring, but the descriptor
    stays in use: its number is not free again. *)
Lemma close_pipe_keeps_descriptor pid fd i w r s : pipe_end pid fd i w s → v_pipes s !! i = Some r →
  ∃ s', handle_close pid fd s = Ret (ok_reply, s') ∧ pipe_end pid fd i w s' ∧
    v_pipes s' !! i = Some (set_open w false r).
Proof.
  intros (t & e & Hfd & Hk) Hr. unfold handle_close. rewrite Hfd, Hk, Hr. eexists. split; [done|]. split.
  - by exists t, e.
  - apply list_lookup_insert_eq. by eapply lookup_lt_Some.
Qed.
