(* ===== verification/VfsSpec.v ===== *)
(** * Files and descriptors of the VFS server

    What is written to a file under /tmp is read back, and the rest of the file
    and the other files stay as they are. *)

From stdpp Require Import base list option numbers strings.
From Stdlib Require Import ZArith Lia.
From S2P Require Import Prelude Words Rings Memory IpcPort Cpio VfsData Vfs VfsInv.

Local Open Scope Z_scope.

(** ** Updating a descriptor *)

Lemma position_alter {A} (p : A → bool) (f : A → A) i l : (∀ x, p (f x) = p x) →
  position p (alter f i l) = position p l.
Proof.
  intros Hf. revert i. induction l as [|x l IH]; intros [|i]; simpl; rewrite ?Hf; [done..|].
  destruct (p x); [done|]. f_equal. apply (IH i).
Qed.

Lemma find_tbl_set_entry pid t fd e s : find_tbl pid (v_tables (set_entry t fd e s)) = find_tbl pid (v_tables s).
Proof. apply position_alter. done. Qed.

Lemma open_fd_spec pid fd s t e : open_fd pid fd s = Some (t, e) ↔
  find_tbl pid (v_tables s) = Some t ∧ fd < MAX_FDS ∧ fd_in_use e = true ∧
  ∃ tbl, v_tables s !! t = Some tbl ∧ p_fds tbl !! Z.to_nat fd = Some e.
Proof.
  unfold open_fd. split.
  - destruct (find_tbl pid (v_tables s)) as [i|]; simpl; [|done].
    destruct (v_tables s !! i) as [tbl|] eqn:Ht; simpl; [|done]. case_bool; [done|].
    destruct (p_fds tbl !! Z.to_nat fd) as [e'|] eqn:He; simpl; [|done]. case_bool; [|done].
    intros [= <- <-]. split_and!; [done|done|done|]. by exists tbl.
  - intros (-> & Hlt & Hu & tbl & Ht & He). simpl. rewrite Ht. simpl.
    rewrite (proj2 (Z.leb_gt _ _)) by done. rewrite He. simpl. by rewrite Hu.
Qed.

(** The same descriptor after its entry was replaced. *)
Lemma open_fd_set_entry pid fd s t e e' : open_fd pid fd s = Some (t, e) → fd_in_use e' = true →
  open_fd pid fd (set_entry t (Z.to_nat fd) e' s) = Some (t, e').
Proof.
  intros (Hf & Hlt & Hu & tbl & Ht & He)%open_fd_spec Hu'. apply open_fd_spec.
  rewrite find_tbl_set_entry. split_and!; [done|done|done|].
  unfold set_entry. simpl. rewrite list_lookup_alter_eq, Ht. eexists. split; [done|]. simpl.
  apply list_lookup_insert_eq. by eapply lookup_lt_Some.
Qed.

Lemma open_fd_put_kind pid fd s t e k : open_fd pid fd s = Some (t, e) →
  open_fd pid fd (put_kind t fd e k s) = Some (t, set_kind k e).
Proof.
  intros Hfd. apply open_fd_set_entry with e; [done|]. apply open_fd_spec in Hfd. by destruct Hfd as (_ & _ & Hu & _).
Qed.

Lemma set_tmp_pos_open pid fd s t e idx p w q : open_fd pid fd s = Some (t, e) → fd_kind e = TmpFile idx p w →
  set_tmp_pos pid fd q s = put_kind t fd e (TmpFile idx q w) s.
Proof.
  intros (Hf & Hlt & Hu & tbl & Ht & He)%open_fd_spec Hk. unfold set_tmp_pos. rewrite Hf. simpl. rewrite Ht. simpl.
  rewrite He. simpl. rewrite Hk. by rewrite (proj2 (Z.ltb_lt _ _)).
Qed.

(** ** Files under /tmp *)

Lemma slice_splice_in off src a : 0 ≤ off → off + len src ≤ len a → slice (splice off src a) off (off + len src) = src.
Proof.
  intros Ho Hl. unfold slice, splice, len in *.
  rewrite drop_app_length' by (rewrite length_take; lia). apply take_app_length'. lia.
Qed.

Lemma lookup_splice_out off src a i : 0 ≤ off → off + len src ≤ len a →
  Z.of_nat i < off ∨ off + len src ≤ Z.of_nat i → splice off src a !! i = a !! i.
Proof.
  intros Ho Hl Hi. unfold splice, len in *. destruct (decide (i < Z.to_nat off)%nat) as [Hlt|Hge].
  - rewrite lookup_app_l by (rewrite length_take; lia). by rewrite lookup_take_lt.
  - rewrite lookup_app_r by (rewrite length_take; lia). rewrite length_take.
    rewrite lookup_app_r by lia. rewrite lookup_drop. f_equal. lia.
Qed.

Section tmp.
Context (pid fd : Z) (s : Vfs) (t : nat) (e : FdEntry) (idx : nat) (pos : Z) (entry : TmpFileEntry).
Context (Hwf : vfs_wf s) (Hfd : open_fd pid fd s = Some (t, e)) (Hentry : v_tmp s !! idx = Some entry).

(** The entry after [bs] was written at [pos]. *)
Definition written (bs : list Z) : TmpFileEntry :=
  set_data (splice pos bs (t_data entry)) (Z.max (t_len entry) (pos + len bs)) entry.

Lemma write_tmp buf count : fd_kind e = TmpFile idx pos true → flag (fd_flags e) O_APPEND = false →
  0 < count → pos + count ≤ MAX_TMP_SIZE →
  handle_write pid fd buf count s = Ret (val_reply count,
    put_kind t fd e (TmpFile idx (pos + count) true)
      (set_tmp (<[idx := written (mem_read (v_mem s) buf count)]> (v_tmp s)) s)).
Proof.
  intros Hk Ha Hc Hp. destruct (open_fd_ok s Hwf _ _ _ _ Hfd) as [Hkind _]. rewrite Hk in Hkind.
  destruct Hkind as [_ Hpos]. unfold MAX_TMP_SIZE in *.
  unfold handle_write, stdio_fuel. cbn [handle_write_loop]. rewrite (proj2 (Z.eqb_neq _ _)), Hfd, Hk by lia.
  cbn [negb]. rewrite Hentry, Ha. cbv zeta. unfold saturating_sub, MAX_TMP_SIZE.
  rewrite (Z.min_l count) by lia. rewrite (proj2 (Z.eqb_neq _ _)) by lia. rewrite wadd_small by lia.
  set (s1 := set_tmp _ s). assert (open_fd pid fd s1 = Some (t, e)) as Hfd1 by done.
  rewrite (set_tmp_pos_open _ _ _ _ _ _ _ _ _ Hfd1 Hk). do 4 f_equal. unfold s1. do 2 f_equal.
  unfold written, len. rewrite length_mem_read. f_equal. case_bool; lia.
Qed.

Lemma read_tmp buf count : fd_kind e = TmpFile idx pos true → tmp_ok entry → 0 ≤ pos →
  0 < count → pos + count ≤ t_len entry →
  handle_read pid fd buf count s = Ret (val_reply count,
    put_kind t fd e (TmpFile idx (pos + count) true)
      (poke (mem_write buf (slice (t_data entry) pos (pos + count))) s)).
Proof.
  intros Hk Hok Hpos Hc Hp. destruct Hok as [_ _ _ Hl]. unfold MAX_TMP_SIZE in *.
  unfold handle_read, stdio_fuel. cbn [handle_read_loop]. rewrite (proj2 (Z.eqb_neq count 0)), Hfd, Hk by lia.
  rewrite Hentry. cbv zeta. unfold saturating_sub. rewrite (Z.min_l count) by lia. rewrite (Z.min_l count) by lia.
  rewrite (proj2 (Z.eqb_neq _ _)) by lia. rewrite wadd_small by lia.
  set (s1 := poke _ s). assert (open_fd pid fd s1 = Some (t, e)) as Hfd1 by done.
  by rewrite (set_tmp_pos_open _ _ _ _ _ _ _ _ _ Hfd1 Hk).
Qed.

Lemma seek_tmp p : fd_kind e = TmpFile idx pos true → 0 ≤ p →
  handle_lseek pid fd p 0 s = Ret (val_reply p, put_kind t fd e (TmpFile idx p true) s).
Proof.
  intros Hk Hp. unfold handle_lseek. rewrite Hfd, Hk, Hentry. unfold seek_to, finish_seek. simpl.
  by rewrite (proj2 (Z.ltb_ge _ _)).
Qed.
End tmp.

Lemma written_ok pos entry bs : tmp_ok entry → 0 ≤ pos → pos + len bs ≤ MAX_TMP_SIZE → tmp_ok (written pos entry bs).
Proof.
  intros Hok Hp Hb. pose proof Hok as [_ _ Hd Hl]. pose proof (len_nonneg bs).
  apply set_data_ok; [|lia|done]. apply length_splice; [done|]. unfold len in *. rewrite Hd.
  unfold MAX_TMP_SIZE in *. lia.
Qed.


Definition tmp_sys (m : mem) : Sys := mkSys m 0 0 7 1 1 0 0 (λ _, 0).

Definition tmp_demo : Vfs :=
  set_tmp (<[0%nat := new_tmp (bytes "/tmp/a") false]> (replicate MAX_TMP_FILES TmpFileEntry_empty))
    (set_tables (<[0%nat := mkTbl 7 (<[0%nat := mkFd (TmpFile 0 10 true) 2 true]> (p_fds ProcFdTable_empty)) true]>
                   (replicate MAX_PROCS ProcFdTable_empty)) (Vfs_init (tmp_sys (λ a, a mod 256)))).

Lemma tmp_demo_wf : vfs_wf tmp_demo.
Proof.
  destruct (Vfs_init_wf (tmp_sys (λ a, a mod 256))). split; simpl; try done.
  - apply (Forall_insert_1 tmp_ok (replicate MAX_TMP_FILES TmpFileEntry_empty) 0%nat); [done|apply new_tmp_ok].
  - apply (Forall_insert_1 table_ok (replicate MAX_PROCS ProcFdTable_empty) 0%nat); [done|].
    apply (insert_fd_ok ProcFdTable_empty 0 (mkFd (TmpFile 0 10 true) 2 true)); [apply empty_table_ok|].
    simpl. unfold MAX_TMP_FILES. lia.
Qed.

