(* ===== verification/VfsDir.v ===== *)
(** * Directories and process creation in the VFS server

    [getdents64] against a reference listing, and the descriptors of a process
    after fork and exec. *)

From stdpp Require Import base list option numbers strings.
From Stdlib Require Import ZArith Lia.
From S2P Require Import Prelude Words Rings Memory IpcPort Cpio VfsData Vfs VfsInv VfsSpec.

Local Open Scope Z_scope.

(** ** The listing of a directory *)

Fixpoint initrd_list (fuel : nat) (img dir : list Z) (offset : Z) : outcome (list item) :=
  match fuel with
  | O => Panic
  | S fuel' =>
      match cpio_header img offset with
      | None => Ret []
      | Some (namesize, filesize, mode) =>
          let name_offset := offset + HEADER_SIZE in
          if len img <? name_offset + namesize then Ret []
          else if namesize =? 0 then Panic
          else
            let name_bytes := slice img name_offset (name_offset + namesize - 1) in
            if bytes_eq name_bytes TRAILER then Ret []
            else
              let here :=
                match initrd_child dir name_bytes with
                | Some name =>
                    if is_duplicated name_bytes then []
                    else [(λ _, 1000 + offset, name, if Z.land mode 0xF000 =? 0x4000 then 4 else 8)]
                | None => []
                end in
              let next_offset := align4 (align4 (name_offset + namesize) + filesize) in
              if next_offset <=? offset then Ret here
              else match initrd_list fuel' img dir next_offset with
                   | Ret l => Ret (here ++ l)
                   | Panic => Panic
                   end
      end
  end.

(** The files of the RAM disk in a directory. *)
Definition initrd_entries (s : Vfs) (dir : list Z) : outcome (list item) :=
  match initrd_data s with
  | Some img =>
      if (6 <? len img) && bytes_eq (slice img 0 6) MAGIC then initrd_list (cpio_fuel img) img dir 0 else Ret []
  | None => Ret []
  end.

Definition dots : list item := [(λ _, 1, bytes ".", 4); (λ _, 1, bytes "..", 4)].

(** All entries of a directory, in order. *)
Definition listing (dir : list Z) (initrd : list item) : list item :=
  dots ++ omap (dir_item dir) RAMFS_DIRS ++ omap (file_item dir) RAMFS ++ initrd.

(** Put the entries into the buffer, the first at position [k] of the listing,
    as long as there is room. *)
Fixpoint fill (buf count k : Z) (items : list item) (d : dents) : dents :=
  match items with
  | [] => d
  | (ino, name, d_type) :: items' =>
      match write_dirent buf count (ino k) name d_type d with
      | Some d' => fill buf count (k + 1) items' d'
      | None => d
      end
  end.

(** ** Emitting a list *)

Section emit.
Context (buf count : Z).

Notation emit_items := (emit_loop buf count (λ it : item, Some it)).

Lemma emit_loop_omap {A} (child : A → option item) l vd : emit_loop buf count child l vd = emit_items (omap child l) vd.
Proof.
  revert vd. induction l as [|x l IH]; intros vd; [done|]. simpl. destruct (child x) as [it|]; [|apply IH].
  simpl. by destruct (emit buf count it vd).
Qed.

Lemma emit_items_app l1 l2 vd : emit_items (l1 ++ l2) vd =
  match emit_items l1 vd with inl vd' => emit_items l2 vd' | inr d => inr d end.
Proof.
  revert vd. induction l1 as [|it l1 IH]; intros vd; [done|]. simpl. by destruct (emit buf count it vd).
Qed.

Definition last_dents (r : (Z * dents) + dents) : dents := match r with inl vd => snd vd | inr d => d end.

(** In step with the position, emitting fills the buffer. *)
Lemma emit_items_fill l k d : d_pos d = k → last_dents (emit_items l (k, d)) = fill buf count k l d.
Proof.
  revert k d. induction l as [|[[ino name] ty] l IH]; intros k d Hk; [done|]. simpl.
  rewrite (proj2 (Z.leb_le _ _)) by lia. destruct (write_dirent buf count (ino k) name ty d) as [d'|] eqn:Hw; [|done].
  apply IH. unfold write_dirent in Hw. case_bool; simplify_eq/=. done.
Qed.

(** Before the position, entries are skipped. *)
Lemma emit_items_skip l k d : k ≤ d_pos d →
  last_dents (emit_items l (k, d)) = fill buf count (d_pos d) (drop (Z.to_nat (d_pos d - k)) l) d.
Proof.
  revert k. induction l as [|it l IH]; intros k Hk; [by rewrite drop_nil|].
  destruct (decide (d_pos d = k)) as [<-|Hne].
  { rewrite Z.sub_diag. by apply emit_items_fill. }
  replace (Z.to_nat (d_pos d - k)) with (S (Z.to_nat (d_pos d - (k + 1)))) by lia. cbn [drop].
  rewrite <- IH by lia. destruct it as [[ino name] ty]. simpl. by rewrite (proj2 (Z.leb_gt _ _)) by lia.
Qed.

Lemma dot_items_emit d : 0 ≤ d_pos d →
  match dot_items buf count d with inl d' => inl (2, d') | inr d' => inr d' end = emit_items dots (0, d).
Proof.
  intros Hp. unfold dot_items. simpl. destruct (Z.eqb_spec (d_pos d) 0) as [H0|H0].
  - rewrite (proj2 (Z.leb_le _ _)) by lia. unfold write_dirent at 1 3. case_bool; [done|]. cbn [d_pos].
    rewrite H0. simpl. set (d1 := mkDents _ _ _). destruct (write_dirent _ _ _ _ _ d1); done.
  - rewrite (proj2 (Z.leb_gt _ 0)) by lia. simpl. destruct (Z.eqb_spec (d_pos d) 1) as [H1|H1].
    + rewrite (proj2 (Z.leb_le _ 1)) by lia. by destruct (write_dirent _ _ _ _ _ d).
    + by rewrite (proj2 (Z.leb_gt _ 1)) by lia.
Qed.

Lemma initrd_loop_emit fuel img dir offset l vd : initrd_list fuel img dir offset = Ret l →
  initrd_loop fuel img dir buf count offset vd = Ret (emit_items l vd).
Proof.
  revert offset l vd. induction fuel as [|fuel IH]; intros offset l vd Hl; [done|]. cbn [initrd_list initrd_loop] in *.
  destruct (cpio_header img offset) as [[[ns fs] mode]|]; [|by simplify_eq].
  do 3 (case_bool; [by simplify_eq|]; cbv zeta in * ).
  set (here := match initrd_child dir _ with Some _ => _ | None => _ end) in Hl.
  set (r := match initrd_child dir _ with Some _ => _ | None => _ end).
  assert (r = emit_items here vd) as ->.
  { subst r here. destruct (initrd_child dir _); [|done]. case_bool; [done|].
    cbn [emit_loop]. by destruct (emit _ _ _ vd). }
  case_bool.
  - injection Hl as <-. by destruct (emit_items here vd).
  - destruct (initrd_list fuel img dir _) as [l'|] eqn:Hl'; [injection Hl as <-|done].
    rewrite emit_items_app. destruct (emit_items here vd); [by apply IH|done].
Qed.
End emit.

(** ** getdents64 *)

Lemma list_dir_fill s dir buf count pos l : 0 ≤ pos → initrd_entries s dir = Ret l →
  list_dir s dir buf count pos =
  Ret (fill buf count pos (drop (Z.to_nat pos) (listing dir l)) (mkDents 0 pos (v_mem s))).
Proof.
  intros Hp Hl. set (d0 := mkDents 0 pos (v_mem s)).
  assert (∀ vd, initrd_items s dir buf count vd = Ret (emit_loop buf count (λ it : item, Some it) l vd)) as Hi.
  { intros vd. unfold initrd_items, initrd_entries in *. destruct (initrd_data s) as [img|]; [|by simplify_eq].
    case_bool; [|by simplify_eq]. by apply initrd_loop_emit. }
  pose proof (emit_items_skip buf count (listing dir l) 0 d0 Hp) as Hs.
  change (d_pos d0) with pos in Hs. rewrite Z.sub_0_r in Hs. rewrite <- Hs.
  unfold listing. rewrite emit_items_app, <- dot_items_emit by done. unfold list_dir. cbv beta zeta. fold d0.
  destruct (dot_items buf count d0) as [d|d]; [|done].
  rewrite (emit_loop_omap buf count (dir_item dir)), emit_items_app.
  destruct (emit_loop buf count _ (omap (dir_item dir) RAMFS_DIRS) (2, d)) as [vd1|d1]; [|done].
  rewrite (emit_loop_omap buf count (file_item dir)), emit_items_app.
  destruct (emit_loop buf count _ (omap (file_item dir) RAMFS) vd1) as [vd2|d2]; [|done].
  rewrite Hi. by destruct (emit_loop buf count _ l vd2) as [[vi d3]|d3].
Qed.

(** The entries that were put into the buffer, at successive offsets. *)
Fixpoint records (count : Z) (k off : Z) (items : list item) : list (Z * list Z) :=
  match items with
  | [] => []
  | (ino, name, d_type) :: items' =>
      if count <? off + reclen name then []
      else (off, dirent_bytes (ino k) name d_type) :: records count (k + 1) (off + reclen name) items'
  end.

Lemma fill_pos buf count items k d :
  d_pos (fill buf count k items d) = d_pos d + Z.of_nat (length (records count k (d_off d) items)).
Proof.
  revert k d. induction items as [|[[ino name] ty] items IH]; intros k d; [simpl; lia|]. simpl.
  unfold write_dirent. case_bool; simpl; [lia|]. rewrite IH. simpl. lia.
Qed.

(** C30: A call of getdents64 on a directory at position [pos] returns the
    entries of the reference listing from [pos] on, as many as fit, and moves
    the position behind them: so successive calls return every entry of the
    directory once, in order.  The listing is [.], [..], the static directories
    and files directly below the directory, then the files of the RAM disk that
    are not among them. *)
Theorem getdents_lists_directory pid fd buf count s t e d pos l :
  vfs_wf s → open_fd pid fd s = Some (t, e) → fd_kind e = RamFile d pos → 64 ≤ count →
  initrd_entries s (static_bytes s d) = Ret l →
  let rest := drop (Z.to_nat pos) (listing (static_bytes s d) l) in
  let r := fill buf count pos rest (mkDents 0 pos (v_mem s)) in
  ∃ s', handle_getdents64 pid fd buf count s = Ret (val_reply (d_off r), s') ∧
    v_mem s' = d_mem r ∧
    fd_kind <$> (snd <$> open_fd pid fd s') =
      Some (RamFile d (pos + Z.of_nat (length (records count pos 0 rest)))).
Proof.
  intros Hwf Hfd Hk Hc Hl rest r. destruct (open_fd_ok s Hwf _ _ _ _ Hfd) as [Hp _]. rewrite Hk in Hp.
  unfold handle_getdents64. rewrite (proj2 (Z.ltb_ge _ _)), Hfd, Hk by done.
  rewrite (list_dir_fill s _ buf count pos l Hp Hl). fold rest r. eexists. split; [done|]. split; [done|].
  rewrite (open_fd_put_kind pid fd (poke (λ _, d_mem r) s) t e _ Hfd). simpl. f_equal. f_equal.
  unfold r. by rewrite fill_pos.
Qed.

(** *** Witness: /proc/net with room for three entries *)

Definition dir_sys : Sys := mkSys (λ _, 0) 0 0 7 1 1 0 0 (λ _, 0).
Definition dir_demo : Vfs :=
  set_tables (<[0%nat := mkTbl 7 (<[0%nat := mkFd (RamFile (DirName 8) 0) 0 true]> (p_fds ProcFdTable_empty)) true]>
                (replicate MAX_PROCS ProcFdTable_empty)) (Vfs_init dir_sys).

Lemma dir_demo_wf : vfs_wf dir_demo.
Proof.
  destruct (Vfs_init_wf dir_sys). split; try done.
  apply (Forall_insert_1 table_ok (replicate MAX_PROCS ProcFdTable_empty) 0%nat); [done|].
  apply (insert_fd_ok ProcFdTable_empty 0 (mkFd (RamFile (DirName 8) 0) 0 true)); [apply empty_table_ok|done].
Qed.

Lemma getdents_lists_directory_witness : ∃ s',
  handle_getdents64 7 0 500 100 dir_demo = Ret (val_reply 72, s') ∧
  fd_kind <$> (snd <$> open_fd 7 0 s') = Some (RamFile (DirName 8) 3).
Proof.
  destruct (getdents_lists_directory 7 0 500 100 dir_demo 0 (mkFd (RamFile (DirName 8) 0) 0 true) (DirName 8) 0 []
    dir_demo_wf eq_refl eq_refl ltac:(lia) eq_refl) as (s' & Hs & _ & Hk).
  exists s'. split; [exact Hs|exact Hk].
Defined.

(** ** fork and exec *)

(** The entry of an open descriptor. *)
Definition fd_of (pid fd : Z) (s : Vfs) : option FdEntry := snd <$> open_fd pid fd s.

Lemma fd_of_table pid fd s : fd_of pid fd s =
  tbl ← table_of pid s;
  if (MAX_FDS <=? fd) then None else e ← p_fds tbl !! Z.to_nat fd; if fd_in_use e then Some e else None.
Proof.
  unfold fd_of, open_fd, table_of, find_first, find_tbl.
  destruct (position (tbl_of pid) (v_tables s)) as [t|]; simpl; [|done].
  destruct (v_tables s !! t) as [tbl|]; simpl; [|done]. case_bool; [done|].
  destruct (p_fds tbl !! Z.to_nat fd) as [e|]; simpl; [|done]. by case_bool.
Qed.

Lemma table_of_insert q s i x tbl : v_tables s !! i = Some x → tbl_of q tbl = true → table_of q s = None →
  table_of q (set_tables (<[i := tbl]> (v_tables s)) s) = Some tbl.
Proof.
  intros Hi Hq Hn. unfold table_of in *. apply find_first_Some. exists i. simpl.
  assert (<[i := tbl]> (v_tables s) !! i = Some tbl) as Hl by (apply list_lookup_insert_eq; by eapply lookup_lt_Some).
  split; [|done]. apply (position_unique _ _ _ tbl); [done|done|]. intros j y Hj Hy.
  apply insert_lookup_cases in Hj as [(<- & _ & _)|[_ Hj]]; [done|].
  rewrite find_first_None in Hn. specialize (Hn j y Hj). congruence.
Qed.

Lemma table_of_alter q s i tbl f : find_tbl q (v_tables s) = Some i → v_tables s !! i = Some tbl →
  (∀ x, tbl_of q (f x) = tbl_of q x) → table_of q (set_tables (alter f i (v_tables s)) s) = Some (f tbl).
Proof.
  intros Hf Hi Hq. unfold table_of, find_first. simpl. rewrite position_alter by done.
  unfold find_tbl in Hf. rewrite Hf. simpl. by rewrite list_lookup_alter_eq, Hi.
Qed.

(** After a fork and an exec of the child, the child has exactly those of
    the parent's descriptors that are not marked close-on-exec, under the same
    numbers and at the same files; all other processes keep theirs, and no
    file, pipe, eventfd or timer changes. *)
Theorem fork_exec_descriptors parent child s tbl i x :
  table_of parent s = Some tbl → table_of child s = None →
  v_tables s !! i = Some x → p_in_use x = false →
  ∃ s1 s2, handle_fork_dup parent child s = Ret (ok_reply, s1) ∧
    handle_exec_cloexec child s1 = Ret (ok_reply, s2) ∧
    (∀ fd, fd_of child fd s1 = fd_of parent fd s) ∧
    (∀ fd, fd_of child fd s2 = e ← fd_of parent fd s; if flag (fd_flags e) O_CLOEXEC then None else Some e) ∧
    (∀ q, q ≠ child → table_of q s2 = table_of q s) ∧
    v_tmp s2 = v_tmp s ∧ v_pipes s2 = v_pipes s ∧ v_events s2 = v_events s ∧ v_timers s2 = v_timers s.
Proof.
  intros Hp Hc Hi Hfree. pose proof Hp as Hp'. unfold table_of, find_first in Hp'.
  destruct (position (tbl_of parent) (v_tables s)) as [t|] eqn:Ht; [|done]. simpl in Hp'.
  destruct (position_is_Some (λ t, negb (p_in_use t)) (v_tables s) i x Hi) as (j & Hj & _); [by rewrite Hfree|].
  destruct (proj1 (position_Some _ _ _) Hj) as (xj & Hxj & Hxfree & _). apply negb_true_iff in Hxfree.
  set (ctbl := mkTbl child (p_fds tbl) true).
  set (s1 := set_tables (<[j := ctbl]> (v_tables s)) s).
  assert (tbl_of child ctbl = true) as Hct by (unfold tbl_of; simpl; apply Z.eqb_refl).
  assert (table_of child s1 = Some ctbl) as Hc1 by (by apply (table_of_insert child s j xj)).
  assert (∀ q, q ≠ child → table_of q s1 = table_of q s) as Ho1.
  { intros q Hq. apply (find_first_insert_other _ _ _ xj); [done| |by apply tbl_of_pid_ne].
    unfold tbl_of. by rewrite Hxfree. }
  pose proof Hc1 as Hc1'. unfold table_of, find_first in Hc1'.
  destruct (position (tbl_of child) (v_tables s1)) as [k|] eqn:Hk; [|done]. simpl in Hc1'.
  set (f := λ tbl, mkTbl (p_pid tbl) (cloexec <$> p_fds tbl) (p_in_use tbl)).
  exists s1, (set_tables (alter f k (v_tables s1)) s1). split_and!; [..|done|done|done|done].
  - unfold handle_fork_dup, find_tbl. rewrite Ht. simpl. by rewrite Hp', Hj.
  - unfold handle_exec_cloexec, find_tbl. by rewrite Hk.
  - intros fd. rewrite !fd_of_table, Hc1, Hp. done.
  - intros fd. rewrite !fd_of_table, (table_of_alter child s1 k ctbl f), Hp by done. simpl.
    case_bool; [done|]. rewrite list_lookup_fmap. destruct (p_fds tbl !! Z.to_nat fd) as [e|]; [|done]. simpl.
    unfold cloexec. destruct (fd_in_use e) eqn:Hu; simpl; [|by rewrite Hu].
    destruct (flag (fd_flags e) O_CLOEXEC); simpl; [done|by rewrite Hu].
  - intros q Hq. rewrite <- Ho1 by done. unfold table_of. simpl. rewrite (alter_insert f _ k ctbl) by done.
    apply (find_first_insert_other _ _ _ ctbl); [done| |]; by apply tbl_of_pid_ne.
Qed.

Lemma fork_exec_descriptors_witness : ∃ s1 s2,
  handle_fork_dup 7 8 dir_demo = Ret (ok_reply, s1) ∧ handle_exec_cloexec 8 s1 = Ret (ok_reply, s2) ∧
  fd_of 8 0 s2 = Some (mkFd (RamFile (DirName 8) 0) 0 true) ∧ fd_of 8 1 s2 = None.
Proof.
  destruct (fork_exec_descriptors 7 8 dir_demo
    (mkTbl 7 (<[0%nat := mkFd (RamFile (DirName 8) 0) 0 true]> (p_fds ProcFdTable_empty)) true) 1 ProcFdTable_empty
    eq_refl eq_refl eq_refl eq_refl) as (s1 & s2 & H1 & H2 & _ & H4 & _).
  exists s1, s2. split; [exact H1|]. split; [exact H2|]. split; [exact (H4 0)|exact (H4 1)].
Defined.
