(* ===== verification/Elf.v ===== *)
(** * The ELF loader (crate [elf], src/elf/src/lib.rs)

    Headers are parsed from bytes; the loadable segments are mapped into an
    address space with the operations of src/mm/src/vmm.rs.  The theorems: every
    segment of a file that loads is mapped with its permissions, never both
    writable and executable, below the heap. *)

From stdpp Require Import base list option numbers strings.
From Stdlib Require Import ZArith Lia.
From S2P Require Import Prelude Words Buddy Memory Paging Vmm VmmInv Cpio.

Local Open Scope Z_scope.

Inductive ElfError :=
  | TooShort | BadMagic | NotElf64 | NotLittleEndian | NotExecutable | UnsupportedArch
  | BadProgramHeader | MappingFailed | SegmentOverflow.

Definition ELF_MAGIC : list Z := [0x7f; 69; 76; 70].
Definition ELFCLASS64 : Z := 2.
Definition ELFDATA2LSB : Z := 1.
Definition ET_EXEC : Z := 2.
Definition ET_DYN : Z := 3.
Definition PT_LOAD : Z := 1.
Definition PF_X : Z := 1.
Definition PF_W : Z := 2.
Definition EM_TARGET : Z := 183.

(** ** Headers *)

(** [let x = o.ok_or(e)?] *)
Notation "'let?' x := o 'or' e 'in' k" := (match o with Some x => k | None => Err e end)
  (at level 200, x name, o at level 100, e at level 100, k at level 200, only parsing).

(** [n] little-endian bytes at [off]. *)
Definition read_le (n : Z) (b : list Z) (off : Z) : option Z :=
  if len b <? off + n then None else Some (le_decode (slice b off (off + n))).
Definition r16 : list Z → Z → option Z := read_le 2.
Definition r32 : list Z → Z → option Z := read_le 4.
Definition r64 : list Z → Z → option Z := read_le 8.

Record Ehdr := mkEhdr {
  e_type : Z; e_machine : Z; e_entry : Z; e_phoff : Z; e_phentsize : Z; e_phnum : Z
}.

Definition byte_at (b : list Z) (i : nat) : Z := default 0 (b !! i).

Definition parse_ehdr (b : list Z) : result Ehdr ElfError :=
  if len b <? 64 then Err TooShort
  else if negb (bytes_eq (slice b 0 4) ELF_MAGIC) then Err BadMagic
  else if negb (byte_at b 4 =? ELFCLASS64) then Err NotElf64
  else if negb (byte_at b 5 =? ELFDATA2LSB) then Err NotLittleEndian
  else
    let? e_type := r16 b 16 or TooShort in
    let? e_machine := r16 b 18 or TooShort in
    let? e_entry := r64 b 24 or TooShort in
    let? e_phoff := r64 b 32 or TooShort in
    let? e_phentsize := r16 b 54 or TooShort in
    let? e_phnum := r16 b 56 or TooShort in
    if negb (e_type =? ET_EXEC) && negb (e_type =? ET_DYN) then Err NotExecutable
    else if negb (e_machine =? EM_TARGET) then Err UnsupportedArch
    else Ok (mkEhdr e_type e_machine e_entry e_phoff e_phentsize e_phnum).

Record Phdr := mkPhdr {
  p_type : Z; p_flags : Z; p_offset : Z; p_vaddr : Z; p_filesz : Z; p_memsz : Z
}.

Definition parse_phdr (b : list Z) (off : Z) : result Phdr ElfError :=
  let? p_type := r32 b off or BadProgramHeader in
  let? p_flags := r32 b (off + 4) or BadProgramHeader in
  let? p_offset := r64 b (off + 8) or BadProgramHeader in
  let? p_vaddr := r64 b (off + 16) or BadProgramHeader in
  let? p_filesz := r64 b (off + 32) or BadProgramHeader in
  let? p_memsz := r64 b (off + 40) or BadProgramHeader in
  Ok (mkPhdr p_type p_flags p_offset p_vaddr p_filesz p_memsz).

(** ** Loading *)

(** The permissions of a segment: not writable when executable. *)
Definition segment_flags (pf : Z) : Z :=
  let flags := Z.lor PageFlags.PRESENT PageFlags.USER in
  let flags := if negb (Z.land pf PF_W =? 0) && (Z.land pf PF_X =? 0)
               then Z.lor flags PageFlags.WRITABLE else flags in
  if negb (Z.land pf PF_X =? 0) then Z.lor flags PageFlags.EXECUTE else flags.

Section load.
Context {M : Type} `{Machine M}.

Abbreviation vm := (M * AddressSpace)%type.

Definition ret_err {A} (e : ElfError) : st vm (result A ElfError) := mret (Err e).

(** A loadable segment: the new highest address. *)
Definition load_segment (bytes : list Z) (ph : Phdr) (highest : Z) : st vm (result Z ElfError) :=
  let vaddr := p_vaddr ph in
  let memsz := p_memsz ph in
  let filesz := p_filesz ph in
  match checked_add (p_offset ph) filesz with
  | None => ret_err SegmentOverflow
  | Some fend =>
      if len bytes <? fend then ret_err BadProgramHeader
      else
        let page_vaddr := page_down vaddr in
        let page_offset := vaddr - page_vaddr in
        let map_size := wadd memsz page_offset in
        ok ← map page_vaddr map_size (segment_flags (p_flags ph));
        if negb ok then ret_err MappingFailed
        else
          a ← get_as;
          match find a page_vaddr with
          | None => ret_err MappingFailed
          | Some vma =>
              let phys_base := wadd (v_phys vma) (wsub vaddr (v_start vma)) in
              (if 0 <? filesz then on_m (m_write phys_base (slice bytes (p_offset ph) fend)) else mret tt) ≫= λ _,
              match checked_add vaddr memsz with
              | None => ret_err SegmentOverflow
              | Some seg_end => mret (Ok (if highest <? seg_end then seg_end else highest))
              end
          end
  end.

(** Program headers [i] to [i + n - 1]. *)
Fixpoint load_loop (bytes : list Z) (phoff phentsize : Z) (n : nat) (i highest : Z) : st vm (result Z ElfError) :=
  match n with
  | O => mret (Ok highest)
  | S n' =>
      match parse_phdr bytes (phoff + i * phentsize) with
      | Err e => ret_err e
      | Ok ph =>
          if negb (p_type ph =? PT_LOAD) || (p_memsz ph =? 0)
          then load_loop bytes phoff phentsize n' (i + 1) highest
          else
            r ← load_segment bytes ph highest;
            match r with
            | Err e => ret_err e
            | Ok highest' => load_loop bytes phoff phentsize n' (i + 1) highest'
            end
      end
  end.

(** Where the program headers end, if they are inside the file. *)
Definition ph_table_end (h : Ehdr) : option Z :=
  m ← checked_mul (e_phentsize h) (e_phnum h);
  checked_add (e_phoff h) m.

(** The heap starts one page above the highest segment. *)
Definition set_heap (highest : Z) (a : AddressSpace) : AddressSpace :=
  if 0 <? highest then
    let heap := wadd (page_up highest) PAGE_SIZE in mkAS (page_table_root a) (regions a) heap heap
  else a.

Definition load (bytes : list Z) : st vm (result Z ElfError) :=
  match parse_ehdr bytes with
  | Err e => ret_err e
  | Ok h =>
      match ph_table_end h with
      | None => ret_err BadProgramHeader
      | Some end_ =>
          if len bytes <? end_ then ret_err BadProgramHeader
          else
            r ← load_loop bytes (e_phoff h) (e_phentsize h) (Z.to_nat (e_phnum h)) 0 0;
            match r with
            | Err e => ret_err e
            | Ok highest =>
                a ← get_as;
                put_as (set_heap highest a) ≫= λ _, mret (Ok (e_entry h))
            end
      end
  end.
End load.

(** ** What the ELF loader guarantees

    The mappings of a loaded file: complete, without overlap, never writable and
    executable at once, and below the heap. *)

(** ** The properties *)

Definition has (flags f : Z) : bool := Z.land flags f =? f.

(** No mapping is both writable and executable. *)
Definition wx (rs : list (option VmaRegion)) : Prop := ∀ i r, rs !! i = Some (Some r) →
  has (v_flags r) PageFlags.WRITABLE && has (v_flags r) PageFlags.EXECUTE = false.

(** Mappings are only added. *)
Definition grows (rs rs' : list (option VmaRegion)) : Prop := ∀ i r,
  rs !! i = Some (Some r) → rs' !! i = Some (Some r).

Definition loadable (ph : Phdr) : Prop := p_type ph = PT_LOAD ∧ p_memsz ph ≠ 0.

(** The segment lies in one mapping with its permissions. *)
Definition mapped (ph : Phdr) (rs : list (option VmaRegion)) : Prop := ∃ i r,
  rs !! i = Some (Some r) ∧ v_start r = page_down (p_vaddr ph) ∧
  p_vaddr ph + p_memsz ph ≤ v_end r ∧ v_flags r = segment_flags (p_flags ph) ∧ v_lazy r = false.

Lemma segment_flags_wx pf : has (segment_flags pf) PageFlags.WRITABLE && has (segment_flags pf) PageFlags.EXECUTE = false.
Proof. unfold segment_flags. destruct (Z.land pf PF_W =? 0), (Z.land pf PF_X =? 0); reflexivity. Qed.

Lemma grows_trans rs1 rs2 rs3 : grows rs1 rs2 → grows rs2 rs3 → grows rs1 rs3.
Proof. intros H1 H2 i r Hi. auto. Qed.

Lemma mapped_grows ph rs rs' : grows rs rs' → mapped ph rs → mapped ph rs'.
Proof. intros Hg (i & r & Hi & ?). exists i, r. split; [by apply Hg|done]. Qed.

Lemma grows_insert rs i x : rs !! i = Some None → grows rs (<[i := x]> rs).
Proof. intros Hi j r Hj. rewrite list_lookup_insert_ne; [done|]. intros ->. congruence. Qed.

Lemma wx_insert rs i r : wx rs → has (v_flags r) PageFlags.WRITABLE && has (v_flags r) PageFlags.EXECUTE = false →
  wx (<[i := Some r]> rs).
Proof. intros Hw Hr j r' [(_ & [= <-] & _)|[_ Hj]]%insert_lookup_cases; [done|by eapply Hw]. Qed.

(** ** Mapping *)

Section load.
Context {M : Type} `{Machine M}.
Implicit Types (m : M) (a : AddressSpace).

(** What holds of the address space during the load. *)
Record good (a0 a : AddressSpace) : Prop := {
  g_vmas : vmas_wf (regions a);
  g_wx : wx (regions a);
  g_grows : grows (regions a0) (regions a)
}.

Lemma good_refl a : vmas_wf (regions a) → wx (regions a) → good a a.
Proof. intros H1 H2. split; [done|done|by intros i r]. Qed.

Lemma good_trans a0 a1 a2 : good a0 a1 → good a1 a2 → good a0 a2.
Proof. intros [_ _ G1] [? ? G2]. split; [done|done|]. by eapply grows_trans. Qed.

(** The pages of a mapping of [size] bytes. *)
Lemma pages_cover size : 0 ≤ size < 2^64 - PAGE_SIZE →
  size ≤ wmul (wsub (wadd size PAGE_SIZE) 1 / PAGE_SIZE) PAGE_SIZE.
Proof.
  intros Hs. unfold PAGE_SIZE in *. rewrite wadd_small by lia. rewrite wsub_small by lia.
  pose proof (Z.div_mod (size + 4096 - 1) 4096 ltac:(lia)). pose proof (Z.mod_pos_bound (size + 4096 - 1) 4096 ltac:(lia)).
  rewrite wmul_small; lia.
Qed.

Lemma page_down_idem x : 0 ≤ x < 2^64 → page_down (page_down x) = page_down x.
Proof.
  intros Hx. destruct (page_down_range x Hx) as [Ha Hr]. rewrite (page_down_eq (page_down x)) by lia.
  rewrite Ha. lia.
Qed.

Lemma map_good virt size flags m a : 0 ≤ virt < 2^64 → 0 ≤ heap_start a < 2^64 →
  vmas_wf (regions a) → wx (regions a) →
  has flags PageFlags.WRITABLE && has flags PageFlags.EXECUTE = false →
  wlp (map virt size flags) (λ ok s, good a s.2 ∧
    (ok = true → ∃ i r, regions s.2 !! i = Some (Some r) ∧ v_start r = page_down virt ∧
      v_end r = page_down virt + wmul (wsub (wadd size PAGE_SIZE) 1 / PAGE_SIZE) PAGE_SIZE ∧
      v_flags r = flags ∧ v_lazy r = false)) (m, a).
Proof.
  intros Hv Hh Hwf Hwx Hf. unfold map. vm_step.
  destruct (place a virt size) as [[[[slot virt'] pages] end_]|] eqn:Hp;
    [|vm_step; split; [by apply good_refl|done]].
  destruct (place_ok _ _ _ _ _ _ _ Hv Hp) as (Hslot & -> & Ha & He & Hend & Hlt & Ho).
  assert (pages = wsub (wadd size PAGE_SIZE) 1 / PAGE_SIZE) as ->.
  { unfold place in Hp. case_bool; [done|]. destruct (free_slot (regions a)); simpl in Hp; [|done].
    destruct (checked_add _ _); simpl in Hp; [|done]. case_bool; [done|]. by simplify_eq. }
  set (pages := wsub (wadd size PAGE_SIZE) 1 / PAGE_SIZE) in *.
  assert (wadd (page_down virt) (wmul pages PAGE_SIZE) = end_) as Hw.
  { rewrite Hend. apply wadd_small. destruct (page_down_range virt Hv) as [_ ?].
    pose proof (u64_range (pages * PAGE_SIZE)). unfold wmul in *. lia. }
  repeat vm_step; try (split; [by apply good_refl|done]). simpl. rewrite Hw. split.
  - split; simpl; [|by apply wx_insert|by apply grows_insert].
    eapply vmas_wf_grow; [done..|]. intros j o va _ Hj Hc. by eapply any_overlap_false.
  - intros _. eexists slot, _. split; [apply list_lookup_insert_eq; by eapply lookup_lt_Some|].
    split_and!; [done|exact Hend|done|done].
Qed.

(** ** Segments *)

Record ph_ok (ph : Phdr) : Prop := {
  po_vaddr : 0 ≤ p_vaddr ph < 2^64;
  po_memsz : 0 ≤ p_memsz ph < 2^64
}.

Lemma load_segment_good bytes ph highest m a : ph_ok ph → 0 ≤ heap_start a < 2^64 →
  vmas_wf (regions a) → wx (regions a) →
  wlp (load_segment bytes ph highest) (λ r s, good a s.2 ∧ heap_start s.2 = heap_start a ∧
    ∀ h, r = Ok h → h = Z.max highest (p_vaddr ph + p_memsz ph) ∧
      (p_vaddr ph + p_memsz ph ≤ 2^63 → mapped ph (regions s.2))) (m, a).
Proof.
  intros [Hv Hs] Hh Hwf Hwx. unfold load_segment, ret_err.
  assert (∀ e : ElfError, wlp (mret (Err e)) (λ (r : result Z ElfError) (s : M * AddressSpace), good a s.2 ∧
    heap_start s.2 = heap_start a ∧ ∀ h, r = Ok h → h = Z.max highest (p_vaddr ph + p_memsz ph) ∧
      (p_vaddr ph + p_memsz ph ≤ 2^63 → mapped ph (regions s.2))) (m, a)) as Herr
    by (intros e; vm_step; split_and!; [by apply good_refl|done|done]).
  destruct (checked_add (p_offset ph) (p_filesz ph)) as [fend|]; [|apply Herr].
  case_bool; [apply Herr|]. cbv zeta. destruct (page_down_range _ Hv) as [_ Hpd].
  assert (0 ≤ page_down (p_vaddr ph) < 2^64) as Hpr by lia.
  apply wlp_bind. eapply wlp_mono.
  { pose proof (map_keeps (page_down (p_vaddr ph)) (wadd (p_memsz ph) (p_vaddr ph - page_down (p_vaddr ph)))
      (segment_flags (p_flags ph)) Hpr m a Hwf Hh) as Hk.
    pose proof (map_good (page_down (p_vaddr ph)) (wadd (p_memsz ph) (p_vaddr ph - page_down (p_vaddr ph)))
      (segment_flags (p_flags ph)) m a Hpr Hh Hwf Hwx (segment_flags_wx _)) as Hg.
    unfold wlp in *. destruct (map _ _ _ (m, a)) as [[ok s]|]; [exact (conj Hk Hg)|done]. }
  intros ok [m1 a1]. simpl. intros [(_ & _ & Hhs) [Hg Hok]].
  destruct ok; simpl; [|vm_step; split_and!; done]. vm_step.
  destruct (find a1 (page_down (p_vaddr ph))) as [vma|]; [|vm_step; split_and!; done].
  apply wlp_bind. eapply (wlp_mono _ (λ _ s, s.2 = a1)).
  { case_bool; [by apply wlp_on_m, wlp_any|by vm_step]. }
  intros [] [m2 a2]. simpl. intros ->.
  destruct (checked_add (p_vaddr ph) (p_memsz ph)) as [e|] eqn:He; [|vm_step; split_and!; done].
  apply checked_add_Some in He as [-> He]. vm_step. split_and!; [done|done|]. intros h [= <-].
  split; [case_bool; lia|]. intros Hsmall. destruct (Hok eq_refl) as (i & r & Hi & Hst & Hen & Hfl & Hlz).
  exists i, r. split_and!; [done| | |done|done].
  - rewrite Hst. by apply page_down_idem.
  - rewrite Hen, page_down_idem by done. clear Hen. rewrite (wadd_small (p_memsz ph)) by lia.
    pose proof (pages_cover (p_memsz ph + (p_vaddr ph - page_down (p_vaddr ph))) ltac:(unfold PAGE_SIZE; lia)). lia.
Qed.

(** ** The file *)

Section file.
Context (bytes : list Z) (Hbytes : Forall is_byte bytes).

Lemma read_le_range n off v : 0 ≤ n → read_le n bytes off = Some v → 0 ≤ v < 2 ^ (8 * n).
Proof.
  intros Hn. unfold read_le. case_bool; [done|]. intros [= <-]. unfold slice.
  set (l := take _ _). assert (Forall is_byte l) as Hl by (by apply Forall_take, Forall_drop).
  pose proof (le_decode_range l Hl) as Hr. split; [lia|]. eapply Z.lt_le_trans; [apply Hr|].
  apply Z.pow_le_mono_r; [lia|]. subst l. rewrite length_take. lia.
Qed.

Lemma parse_phdr_ok off ph : parse_phdr bytes off = Ok ph → ph_ok ph.
Proof.
  unfold parse_phdr, r32, r64. intros Hp.
  repeat match type of Hp with context [match ?o with Some _ => _ | None => _ end] => destruct o eqn:?; [|done] end.
  injection Hp as <-. split; simpl; eapply (read_le_range 8); try eassumption; lia.
Qed.

(** The program headers of the file. *)
Definition phdr (phoff phentsize i : Z) : result Phdr ElfError := parse_phdr bytes (phoff + i * phentsize).

(** After headers [i] to [i + n - 1], each of them that is loadable is mapped
    and ends at or below [highest]. *)
Lemma load_loop_good phoff phentsize n i highest m a : 0 ≤ heap_start a < 2^64 →
  vmas_wf (regions a) → wx (regions a) →
  wlp (load_loop bytes phoff phentsize n i highest) (λ r s, good a s.2 ∧ heap_start s.2 = heap_start a ∧
    ∀ h, r = Ok h → highest ≤ h ∧
      (h = highest ∨ ∃ j ph, i ≤ j < i + Z.of_nat n ∧ phdr phoff phentsize j = Ok ph ∧ loadable ph ∧
         h = p_vaddr ph + p_memsz ph) ∧
      ∀ j ph, i ≤ j < i + Z.of_nat n → phdr phoff phentsize j = Ok ph → loadable ph →
        p_vaddr ph + p_memsz ph ≤ h ∧ (p_vaddr ph + p_memsz ph ≤ 2^63 → mapped ph (regions s.2))) (m, a).
Proof.
  revert i highest m a. induction n as [|n IH]; intros i highest m a Hh Hwf Hwx.
  { apply wlp_ret. split_and!; [by apply good_refl|done|]. intros h [= <-]. split_and!; [lia|by left|]. intros; lia. }
  cbn [load_loop]. destruct (parse_phdr bytes (phoff + i * phentsize)) as [ph|e] eqn:Hph;
    [|apply wlp_ret; split_and!; [by apply good_refl|done|done]].
  case_bool.
  - eapply wlp_mono; [by apply IH|]. intros r s (Hg & Hhs & Hr). split_and!; [done|done|]. intros h Hrh.
    destruct (Hr h Hrh) as (Hle & Hex & Hall). split_and!; [done| |].
    + destruct Hex as [?|(j & ph' & Hj & ?)]; [by left|]. right. exists j, ph'. split; [lia|done].
    + intros j ph' Hj Hp Hl. destruct (decide (j = i)) as [->|Hne]; [|apply (Hall j ph'); [lia|done|done]].
      unfold phdr in Hp. rewrite Hph in Hp. injection Hp as <-. destruct Hl as [Ht Hm0].
      apply orb_true_iff in Heqb as [Heqb|Heqb]; to_prop; congruence.
  - apply wlp_bind. eapply wlp_mono; [apply load_segment_good; [by eapply parse_phdr_ok|done|done|done]|].
    intros r [m1 a1] (Hg & Hhs & Hr). simpl in Hg, Hhs, Hr.
    destruct r as [h1|e]; [|apply wlp_ret; split_and!; done].
    destruct (Hr h1 eq_refl) as [-> Hmap]. destruct Hg as [Hwf1 Hwx1 Hgr1].
    eapply wlp_mono; [apply IH; [by rewrite Hhs|done|done]|]. intros r s (Hg2 & Hhs2 & Hr2).
    split_and!; [eapply good_trans; [by split|done]|congruence|]. intros h Hrh.
    destruct (Hr2 h Hrh) as (Hle & Hex & Hall). split_and!; [lia| |].
    + destruct Hex as [->|(j & ph' & Hj & ?)]; [|right; exists j, ph'; split; [lia|done]].
      destruct (Z.max_spec highest (p_vaddr ph + p_memsz ph)) as [[? ->]|[? ->]]; [right|by left].
      exists i, ph. split; [lia|]. split; [done|]. split; [by split|done].
    + intros j ph' Hj Hp Hl. destruct (decide (j = i)) as [->|Hne]; [|apply (Hall j ph'); [lia|done|done]].
      unfold phdr in Hp. rewrite Hph in Hp. injection Hp as <-. split; [lia|]. intros Hsm.
      eapply mapped_grows; [apply Hg2|by apply Hmap].
Qed.

(** C19: When a file loads into an address space, the result is the entry point
    of its header, and every loadable program header has a mapping of the whole
    segment with the segment's permissions, but without write permission when it
    is executable.  No mapping overlaps another, none is both writable and
    executable, and the heap starts at least a page above every segment.  The
    last part is for files whose segments end below 2^63. *)
Theorem elf_load_spec m a entry m' a' :
  vmas_wf (regions a) → wx (regions a) → 0 ≤ heap_start a < 2^64 →
  load bytes (m, a) = Ret (Ok entry, (m', a')) →
  ∃ h, parse_ehdr bytes = Ok h ∧ entry = e_entry h ∧ vmas_wf (regions a') ∧ wx (regions a') ∧
    let ph_at := phdr (e_phoff h) (e_phentsize h) in
    (∀ i ph, 0 ≤ i < e_phnum h → ph_at i = Ok ph → loadable ph → p_vaddr ph + p_memsz ph ≤ 2^63) →
    ∀ i ph, 0 ≤ i < e_phnum h → ph_at i = Ok ph → loadable ph →
      mapped ph (regions a') ∧ p_vaddr ph + p_memsz ph + PAGE_SIZE ≤ heap_start a'.
Proof.
  intros Hwf Hwx Hh Hl. unfold load in Hl. destruct (parse_ehdr bytes) as [h|e] eqn:Hp; [|discriminate Hl].
  destruct (ph_table_end h) as [end_|]; [|discriminate Hl]. case_bool; [discriminate Hl|].
  apply bind_Ret in Hl as (r & [m1 a1] & Hloop & Hl).
  pose proof (wlp_run _ _ _ _ _ (load_loop_good (e_phoff h) (e_phentsize h) (Z.to_nat (e_phnum h)) 0 0 m a Hh Hwf Hwx)
    Hloop) as ([Hwf1 Hwx1 _] & Hhs & Hr). simpl in Hwf1, Hwx1, Hhs, Hr.
  destruct r as [hi|e]; [|discriminate Hl]. destruct (Hr hi eq_refl) as (Hpos & Hex & Hall).
  apply bind_Ret in Hl as (a2 & s2 & Ha2 & Hl). injection Ha2 as <- <-. injection Hl as <- <- <-.
  assert (regions (set_heap hi a1) = regions a1) as Hrg by (unfold set_heap; by case_bool).
  exists h. rewrite Hrg. split_and!; [done..|]. intros ph_at Hsmall i ph Hi Hph Hld.
  assert (0 ≤ i < 0 + Z.of_nat (Z.to_nat (e_phnum h))) as Hi' by lia.
  destruct (Hall i ph Hi' Hph Hld) as [Hle Hmap]. specialize (Hsmall i ph Hi Hph Hld) as Hs1. split; [by apply Hmap|].
  assert (hi ≤ 2^63) as Hhi.
  { destruct Hex as [->|(j & ph' & Hj & Hp' & Hl' & ->)]; [lia|]. apply (Hsmall j ph'); [lia|done|done]. }
  destruct (parse_phdr_ok _ _ Hph) as [Hv Hm]. destruct Hld as [_ Hm0].
  unfold set_heap. rewrite (proj2 (Z.ltb_lt _ _)) by lia. cbv zeta. cbn [heap_start].
  pose proof (page_up_ge hi ltac:(unfold PAGE_SIZE; lia)) as Hup. unfold PAGE_SIZE in *. rewrite wadd_small; lia.
Qed.
End file.
End load.

(** *** Witness: a file of 120 bytes with one segment *)

Definition elf_demo : list Z :=
  [0x7f; 69; 76; 70; 2; 1] ++ replicate 10 0 ++ le_encode 2 2 ++ le_encode 2 183 ++ le_encode 4 1 ++
  le_encode 8 0x400078 ++ le_encode 8 64 ++ replicate 14 0 ++ le_encode 2 56 ++ le_encode 2 1 ++ replicate 6 0 ++
  le_encode 4 1 ++ le_encode 4 5 ++ le_encode 8 0 ++ le_encode 8 0x400000 ++ le_encode 8 0 ++
  le_encode 8 120 ++ le_encode 8 120 ++ le_encode 8 0x1000.

(** A machine with one block to give and mappings that succeed. *)
#[local] Instance demo_machine : Machine nat := {|
  m_alloc := λ _, mret (Some 0x200000);
  m_free := λ _ _, mret tt;
  m_map := λ _ _ _ _, mret true;
  m_unmap := λ _ _, mret tt;
  m_shootdown := mret tt;
  m_zero := λ _ _, mret tt;
  m_copy := λ _ _ _, mret tt;
  m_read := λ _ _ _, [];
  m_write := λ _ _, mret tt
|}.

Lemma elf_demo_bytes : Forall is_byte elf_demo.
Proof.
  unfold elf_demo. repeat (apply Forall_app; split); try apply le_encode_bytes.
  - repeat (apply Forall_cons; split; [unfold is_byte; lia|]). by apply Forall_nil.
  - apply Forall_replicate. unfold is_byte. lia.
  - apply Forall_replicate. unfold is_byte. lia.
  - apply Forall_replicate. unfold is_byte. lia.
Qed.

Definition elf_demo_as : AddressSpace :=
  Eval vm_compute in match load elf_demo (0%nat, AddressSpace_new 0x1000) with
                     | Ret (_, (_, a)) => a
                     | Panic => AddressSpace_new 0
                     end.

Lemma elf_load_spec_witness :
  load elf_demo (0%nat, AddressSpace_new 0x1000) = Ret (Ok 0x400078, (0%nat, elf_demo_as)) ∧
  mapped (mkPhdr 1 5 0 0x400000 120 120) (regions elf_demo_as) ∧ 0x400078 + PAGE_SIZE ≤ heap_start elf_demo_as.
Proof.
  assert (load elf_demo (0%nat, AddressSpace_new 0x1000) = Ret (Ok 0x400078, (0%nat, elf_demo_as))) as Hl
    by (vm_compute; reflexivity).
  split; [exact Hl|].
  destruct (elf_load_spec elf_demo elf_demo_bytes 0%nat (AddressSpace_new 0x1000) 0x400078 0%nat elf_demo_as) as
    (h & Hh & _ & _ & _ & Hsegs).
  - split; [done|intros i r Hi%lookup_replicate_Some; done|]. intros i j o o' va ->%lookup_replicate_Some _. done.
  - intros i r Hi%lookup_replicate_Some. done.
  - simpl. lia.
  - exact Hl.
  - assert (parse_ehdr elf_demo = Ok (mkEhdr 2 183 0x400078 64 56 1)) as Hh' by (vm_compute; reflexivity).
    rewrite Hh' in Hh. injection Hh as <-. simpl in Hsegs.
    assert (phdr elf_demo 64 56 0 = Ok (mkPhdr 1 5 0 0x400000 120 120)) as Hp by (vm_compute; reflexivity).
    apply (Hsegs) with (i := 0) (ph := mkPhdr 1 5 0 0x400000 120 120); [|lia|exact Hp|by split].
    intros i ph Hi Hph _. assert (i = 0) as -> by lia. rewrite Hp in Hph. injection Hph as <-. simpl. lia.
Defined.

(** ** File size and memory size *)

(** The loader does not compare the size of a segment in the file with its size
    in memory. *)
Definition elf_oversize : list Z :=
  [0x7f; 69; 76; 70; 2; 1] ++ replicate 10 0 ++ le_encode 2 2 ++ le_encode 2 183 ++ le_encode 4 1 ++
  le_encode 8 0x400000 ++ le_encode 8 64 ++ replicate 14 0 ++ le_encode 2 56 ++ le_encode 2 1 ++ replicate 6 0 ++
  le_encode 4 1 ++ le_encode 4 6 ++ le_encode 8 0 ++ le_encode 8 0x400000 ++ le_encode 8 0 ++
  le_encode 8 5000 ++ le_encode 8 1 ++ le_encode 8 0x1000 ++ replicate (Z.to_nat 5000) 0.

(** A machine that records the orders of allocations and the lengths of copies. *)
Definition log_machine : Machine (list nat * list Z) := {|
  m_alloc := λ o, st_lift (λ '(os, ws), (Some 0x200000, (o :: os, ws)));
  m_free := λ _ _, mret tt;
  m_map := λ _ _ _ _, mret true;
  m_unmap := λ _ _, mret tt;
  m_shootdown := mret tt;
  m_zero := λ _ _, mret tt;
  m_copy := λ _ _ _, mret tt;
  m_read := λ _ _ _, [];
  m_write := λ _ bs, st_modify (λ '(os, ws), (os, len bs :: ws))
|}.

(** One page is allocated for the segment and 5000 bytes are copied to it. *)
Lemma elf_filesz_unchecked :
  match load (H := log_machine) elf_oversize (([], []), AddressSpace_new 0x1000) with
  | Ret (Ok _, (log, _)) => log = ([0%nat], [5000])
  | _ => False
  end.
Proof. vm_compute. reflexivity. Qed.
