(* ===== verification/ProcServer.v ===== *)
(** * The process server (src/servers/proc/src/lib.rs)

    The table of processes, the queue of parked wait4 requests, and the handlers.
    A parked request is answered, once and on its own port, when its process
    exits; a zombie is never removed. *)

From stdpp Require Import base list option numbers strings.
From Stdlib Require Import ZArith Lia.
From S2P Require Import Prelude Words Rings IpcPort VfsData.

Local Open Scope Z_scope.

(** The message helpers [arg], [make_reply], [ok_reply], [err_reply] and
    [val_reply] are those of VfsData: the two servers have the same code. *)

Definition PROC_REGISTER : Z := 0x01.
Definition PROC_NOTIFY_EXIT : Z := 0x02.
Definition PROC_WAIT4 : Z := 0x03.
Definition PROC_SETPGID : Z := 0x04.
Definition PROC_SETSID : Z := 0x05.
Definition PROC_GETSID : Z := 0x06.
Definition PROC_SETCRED : Z := 0x07.

Definition PROC_MAX : nat := Z.to_nat 256.
Definition MAX_WAITERS : nat := 64.

Inductive ProcState := PEmpty | Alive | PZombie (exit_code : Z).

Record ProcEntry := mkProc {
  pr_pid : Z; pr_ppid : Z; pr_pgid : Z; pr_sid : Z;
  pr_uid : Z; pr_gid : Z; pr_euid : Z; pr_egid : Z;
  pr_port : Z;
  pr_state : ProcState
}.

Definition ProcEntry_empty : ProcEntry := mkProc 0 0 0 0 0 0 0 0 0 PEmpty.

Record WaitReq := mkWait { w_target_pid : Z; w_reply_port : Z }.

Record ProcServer := mkServer { ps_table : list ProcEntry; ps_waiters : list (option WaitReq) }.

Definition ProcServer_init : ProcServer :=
  mkServer (replicate PROC_MAX ProcEntry_empty) (replicate MAX_WAITERS None).

(** The port table with [SERVER_PORT]. *)
Definition proc_init (owner_pid : Z) (x : PortTable * Z) : option Z * (PortTable * Z) :=
  match create owner_pid (fst x) with
  | (Some port_id, t) => (Some port_id, (t, port_id))
  | (None, t) => (None, (t, snd x))
  end.

(** ** Handlers *)

Definition slot_free (e : ProcEntry) : bool := match pr_state e with PEmpty => true | _ => false end.

Definition handle_register (pid ppid pgid reply_port : Z) (p : ProcServer) : Message * ProcServer :=
  match position slot_free (ps_table p) with
  | Some i =>
      (ok_reply, mkServer (<[i := mkProc pid ppid pgid pgid 0 0 0 0 reply_port Alive]> (ps_table p)) (ps_waiters p))
  | None => (err_reply (-12), p)
  end.

Definition set_state (st : ProcState) (e : ProcEntry) : ProcEntry :=
  mkProc (pr_pid e) (pr_ppid e) (pr_pgid e) (pr_sid e) (pr_uid e) (pr_gid e) (pr_euid e) (pr_egid e) (pr_port e) st.

Definition alive_pid (pid : Z) (e : ProcEntry) : bool :=
  (pr_pid e =? pid) && match pr_state e with Alive => true | _ => false end.

(** The reply to a wait: the exit code and the PID. *)
Definition exit_reply (pid exit_code : Z) : Message :=
  let m := make_reply exit_code in
  mkMessage (tag m) (reply_port m) (splice 8 (le_encode 8 pid) (data m)) (cap m).

Definition wants (pid : Z) (o : option WaitReq) : bool :=
  match o with Some r => (w_target_pid r =? pid) || (w_target_pid r =? 0) | None => false end.

Section handlers.
Context {S : Type} `{PortWaker S}.

Abbreviation sys := (ProcServer * (PortTable * S))%type.

Definition handle_notify_exit (pid exit_code : Z) (x : sys) : Message * sys :=
  let '(p, ts) := x in
  let table := match position (alive_pid pid) (ps_table p) with
               | Some i => alter (set_state (PZombie exit_code)) i (ps_table p)
               | None => ps_table p
               end in
  match position (wants pid) (ps_waiters p) with
  | Some i =>
      match mjoin (ps_waiters p !! i) with
      | Some req =>
          let '(_, ts') := send (w_reply_port req) (exit_reply pid exit_code) ts in
          (ok_reply, (mkServer table (<[i := None]> (ps_waiters p)), ts'))
      | None => (ok_reply, (mkServer table (ps_waiters p), ts))
      end
  | None => (ok_reply, (mkServer table (ps_waiters p), ts))
  end.

(** A zombie that answers a wait for [target_pid]. *)
Definition answers (target_pid : Z) (e : ProcEntry) : bool :=
  ((pr_pid e =? target_pid) || ((target_pid =? 0) && negb (pr_ppid e =? 0))) &&
  match pr_state e with PZombie _ => true | _ => false end.

Definition handle_wait4 (target_pid reply_port : Z) (p : ProcServer) : Message * ProcServer :=
  match find_first (answers target_pid) (ps_table p) with
  | Some e => (exit_reply (pr_pid e) (match pr_state e with PZombie c => c | _ => 0 end), p)
  | None =>
      match position (λ o : option WaitReq, match o with None => true | Some _ => false end) (ps_waiters p) with
      | Some i =>
          (make_reply (-2^63), mkServer (ps_table p) (<[i := Some (mkWait target_pid reply_port)]> (ps_waiters p)))
      | None => (err_reply (-11), p)
      end
  end.

Definition set_pgid_sid (pgid sid : Z) (e : ProcEntry) : ProcEntry :=
  mkProc (pr_pid e) (pr_ppid e) pgid sid (pr_uid e) (pr_gid e) (pr_euid e) (pr_egid e) (pr_port e) (pr_state e).

Definition has_pr_pid (pid : Z) (e : ProcEntry) : bool := pr_pid e =? pid.

Definition handle_setpgid (pid pgid : Z) (p : ProcServer) : Message * ProcServer :=
  match position (has_pr_pid pid) (ps_table p) with
  | Some i =>
      (ok_reply, mkServer (alter (λ e, set_pgid_sid pgid (pr_sid e) e) i (ps_table p)) (ps_waiters p))
  | None => (err_reply (-3), p)
  end.

Definition handle_setsid (pid : Z) (p : ProcServer) : Message * ProcServer :=
  match position (has_pr_pid pid) (ps_table p) with
  | Some i => (val_reply pid, mkServer (alter (set_pgid_sid pid pid) i (ps_table p)) (ps_waiters p))
  | None => (err_reply (-3), p)
  end.

Definition handle_getsid (pid : Z) (p : ProcServer) : Message * ProcServer :=
  match find_first (has_pr_pid pid) (ps_table p) with
  | Some e => (val_reply (pr_sid e), p)
  | None => (err_reply (-3), p)
  end.

Definition set_cred (uid gid euid : Z) (e : ProcEntry) : ProcEntry :=
  mkProc (pr_pid e) (pr_ppid e) (pr_pgid e) (pr_sid e) uid gid euid (pr_egid e) (pr_port e) (pr_state e).

(** [pid] is [sched::current_pid()]. *)
Definition handle_setcred (pid uid gid euid : Z) (p : ProcServer) : Message * ProcServer :=
  match position (has_pr_pid pid) (ps_table p) with
  | Some i =>
      match ps_table p !! i with
      | Some e =>
          if negb (pr_euid e =? 0) && negb (pr_euid e =? uid) then (err_reply (-1), p)
          else (ok_reply, mkServer (<[i := set_cred uid gid euid e]> (ps_table p)) (ps_waiters p))
      | None => (err_reply (-3), p)
      end
  | None => (err_reply (-3), p)
  end.

Definition proc_handle (current_pid : Z) (msg : Message) (reply : Z) (x : sys) : Message * sys :=
  let '(p, ts) := x in
  let on_p (r : Message * ProcServer) : Message * sys := (fst r, (snd r, ts)) in
  let a0 := u32 (arg msg 0) in
  let a1 := u32 (arg msg 1) in
  let a2 := u32 (arg msg 2) in
  let t := tag msg in
  if t =? PROC_REGISTER then on_p (handle_register a0 a1 a2 reply p)
  else if t =? PROC_NOTIFY_EXIT then handle_notify_exit a0 (to_i32 (arg msg 1)) x
  else if t =? PROC_WAIT4 then on_p (handle_wait4 a0 reply p)
  else if t =? PROC_SETPGID then on_p (handle_setpgid a0 a1 p)
  else if t =? PROC_SETSID then on_p (handle_setsid a0 p)
  else if t =? PROC_GETSID then on_p (handle_getsid a0 p)
  else if t =? PROC_SETCRED then on_p (handle_setcred current_pid a0 a1 a2 p)
  else (err_reply (-38), x).
End handlers.

(** ** Waiting for an exit *)

Section wait.
Context {S : Type} `{PortWaker S}.

(** The only element that satisfies [g] is the one just put into the slot that
    [f] found. *)
Lemma position_insert_free {A} (f g : A → bool) l i x :
  position f l = Some i → (∀ y, f y = true → g y = false) → g x = true → (∀ y, y ∈ l → g y = false) →
  position g (<[i := x]> l) = Some i.
Proof.
  intros Hi Hfg Hx Hl. apply (position_unique _ _ _ x); [|done|].
  - apply list_lookup_insert_eq. by eapply position_lt.
  - intros j y [(<- & _ & _)|[_ Hj]]%insert_lookup_cases Hy; [done|].
    rewrite Hl in Hy; [done|by eapply list_elem_of_lookup_2].
Qed.

(** A wait4 for a process that has not exited is parked, and the exit of
    that process is then sent, with its exit code and PID, to the port of the
    waiter, exactly once: the queue is as before the wait.  A later wait4 finds
    the zombie and is answered at once. *)
Theorem wait4_answered pid ppid pgid sid uid gid euid egid prt rp rp' code p (ts : PortTable * S) i :
  ps_table p !! i = Some (mkProc pid ppid pgid sid uid gid euid egid prt Alive) →
  (∀ j e, ps_table p !! j = Some e → pr_pid e = pid → j = i) →
  (∀ o, o ∈ ps_waiters p → wants pid o = false) → None ∈ ps_waiters p → pid ≠ 0 →
  ∃ p1 p2, handle_wait4 pid rp p = (make_reply (-2^63), p1) ∧
    handle_notify_exit pid code (p1, ts) = (ok_reply, (p2, snd (send rp (exit_reply pid code) ts))) ∧
    ps_waiters p2 = ps_waiters p ∧
    ps_table p2 !! i = Some (mkProc pid ppid pgid sid uid gid euid egid prt (PZombie code)) ∧
    handle_wait4 pid rp' p2 = (exit_reply pid code, p2).
Proof.
  intros Hi Huniq Hnone Hfree Hpid. set (e := mkProc pid _ _ _ _ _ _ _ _ _) in Hi.
  assert (find_first (answers pid) (ps_table p) = None) as Hans.
  { apply find_first_None. intros j x Hj. unfold answers. rewrite (proj2 (Z.eqb_neq pid 0)) by done. simpl.
    rewrite orb_false_r. destruct (Z.eqb_spec (pr_pid x) pid) as [Hx|]; [|done].
    rewrite (Huniq j x Hj Hx), Hi in Hj. injection Hj as <-. reflexivity. }
  apply list_elem_of_lookup in Hfree as [k Hk].
  destruct (position_is_Some (λ o : option WaitReq, match o with None => true | Some _ => false end)
    (ps_waiters p) k None Hk eq_refl) as (w & Hw & _).
  set (p1 := mkServer (ps_table p) (<[w := Some (mkWait pid rp)]> (ps_waiters p))).
  assert (position (wants pid) (ps_waiters p1) = Some w) as Hpos.
  { eapply position_insert_free; [exact Hw|by intros []|simpl; by rewrite Z.eqb_refl|exact Hnone]. }
  assert (position (alive_pid pid) (ps_table p) = Some i) as Halive.
  { apply (position_unique _ _ _ e); [done|unfold alive_pid; simpl; by rewrite Z.eqb_refl|].
    intros j x Hj [Hx%Z.eqb_eq _]%andb_true_iff. by eapply Huniq. }
  set (tbl := alter (set_state (PZombie code)) i (ps_table p)).
  assert (tbl !! i = Some (set_state (PZombie code) e)) as Htbl
    by (unfold tbl; by rewrite list_lookup_alter_eq, Hi).
  destruct (proj1 (position_Some _ _ _) Hw) as ([|] & Hw0 & Hwn & _); [done|].
  exists p1, (mkServer tbl (ps_waiters p)). split_and!.
  - unfold handle_wait4. by rewrite Hans, Hw.
  - unfold handle_notify_exit. change (ps_table p1) with (ps_table p). rewrite Halive, Hpos.
    simpl. rewrite list_lookup_insert_eq by (by eapply lookup_lt_Some). simpl.
    destruct (send rp (exit_reply pid code) ts) as [r ts']. simpl. do 3 f_equal.
    rewrite list_insert_insert_eq. by apply list_insert_id.
  - done.
  - exact Htbl.
  - unfold handle_wait4. cbn [ps_table].
    assert (find_first (answers pid) tbl = Some (set_state (PZombie code) e)) as ->; [|done].
    apply find_first_Some. exists i. split; [|done].
    apply (position_unique _ _ _ (set_state (PZombie code) e)); [done|unfold answers; simpl; by rewrite Z.eqb_refl|].
    intros j x Hj Hx. unfold answers in Hx. rewrite (proj2 (Z.eqb_neq pid 0)) in Hx by done. simpl in Hx.
    rewrite orb_false_r in Hx. apply andb_true_iff in Hx as [Hx%Z.eqb_eq _].
    destruct (decide (j = i)) as [->|Hne]; [done|]. unfold tbl in Hj. rewrite list_lookup_alter_ne in Hj by done.
    by eapply Huniq.
Qed.
End wait.

#[local] Instance no_waker : PortWaker unit := λ _ s, s.

Definition one_process : ProcServer :=
  mkServer (mkProc 5 1 5 5 0 0 0 0 9 Alive :: replicate 255 ProcEntry_empty) (replicate MAX_WAITERS None).

Lemma wait4_answered_witness : ∃ p1 p2,
  handle_wait4 5 77 one_process = (make_reply (-2^63), p1) ∧
  handle_notify_exit 5 3 (p1, (mkPortTable [] 0, tt)) = (ok_reply, (p2, (mkPortTable [] 0, tt))) ∧
  handle_wait4 5 78 p2 = (exit_reply 5 3, p2).
Proof.
  destruct (wait4_answered 5 1 5 5 0 0 0 0 9 77 78 3 one_process (mkPortTable [] 0, tt) 0) as
    (p1 & p2 & H1 & H2 & _ & _ & H5).
  - reflexivity.
  - intros [|j] e Hj Hp; [done|]. simpl in Hj. change (replicate 255 ProcEntry_empty !! j = Some e) in Hj.
    apply lookup_replicate_Some in Hj as ->. discriminate Hp.
  - intros o Ho. apply list_elem_of_lookup in Ho as [j Hj]. by apply lookup_replicate_Some in Hj as ->.
  - apply list_elem_of_lookup. by exists 0%nat.
  - done.
  - exists p1, p2. split; [exact H1|]. split; [exact H2|exact H5].
Defined.

(** ** Slots are never released *)

(** The slot [i] belongs to process [pid], alive or dead. *)
Definition taken (pid : Z) (i : nat) (p : ProcServer) : Prop :=
  ∃ e, ps_table p !! i = Some e ∧ slot_free e = false ∧ pr_pid e = pid.

Lemma taken_alter pid i j f p ws : (∀ e, slot_free e = false → slot_free (f e) = false) →
  (∀ e, pr_pid (f e) = pr_pid e) → taken pid i p → taken pid i (mkServer (alter f j (ps_table p)) ws).
Proof.
  intros Hf Hp (e & He & Hfree & Hpid). unfold taken. simpl. destruct (decide (j = i)) as [->|Hne].
  - rewrite list_lookup_alter_eq, He. exists (f e). by rewrite Hp, Hf.
  - rewrite list_lookup_alter_ne by done. by exists e.
Qed.

(** No request releases a slot, also not the wait4 that returns a zombie's exit
    code: the server takes at most 256 registrations. *)
Lemma proc_slots_never_released {S} `{PortWaker S} cur msg rp pid i p (ts : PortTable * S) :
  taken pid i p → taken pid i (fst (snd (proc_handle cur msg rp (p, ts)))).
Proof.
  intros Ht. unfold proc_handle. case_bool; [|case_bool].
  - unfold handle_register. destruct (position slot_free (ps_table p)) as [j|] eqn:Hj; [|done]. simpl.
    destruct Ht as (e & He & Hf & Hp). exists e. split; [|done]. simpl. rewrite list_lookup_insert_ne; [done|].
    intros ->. pose proof (position_holds _ _ _ _ Hj He). congruence.
  - unfold handle_notify_exit. set (tbl := match position (alive_pid _) _ with Some _ => _ | None => _ end).
    assert (∀ ws, taken pid i (mkServer tbl ws)) as Hk.
    { intros ws. subst tbl. destruct (position (alive_pid _) _); [|exact Ht]. by apply taken_alter. }
    destruct (position (wants _) _); [|apply Hk]. destruct (mjoin _); [|apply Hk].
    destruct (send _ _ ts). apply Hk.
  - repeat case_bool; try exact Ht.
    + unfold handle_wait4. destruct (find_first _ _); [exact Ht|]. destruct (position _ _); exact Ht.
    + unfold handle_setpgid. destruct (position _ _); [|exact Ht]. simpl. by apply taken_alter.
    + unfold handle_setsid. destruct (position _ _); [|exact Ht]. simpl. by apply taken_alter.
    + unfold handle_getsid. by destruct (find_first _ _).
    + unfold handle_setcred. destruct (position _ _) as [j|]; [|exact Ht].
      destruct (ps_table p !! j) as [e|] eqn:Hj; [|exact Ht]. case_bool; [exact Ht|]. simpl.
      destruct Ht as (e' & He & Hf & Hp). unfold taken. simpl. destruct (decide (j = i)) as [->|Hne].
      * rewrite list_lookup_insert_eq by (by eapply lookup_lt_Some). simplify_eq. eexists. done.
      * rewrite list_lookup_insert_ne by done. by exists e'.
Qed.
