(* ===== verification/SysMem.v ===== *)
(** * Memory and file system calls (src/kernel/src/syscall.rs)

    mmap, munmap, mremap, mprotect and brk on the current task's address space,
    and the positioned reads and writes on the VFS server.  The theorems: an
    anonymous mmap gives exactly the new range, never writable and executable
    at once, and pwrite64 keeps the file position while pread64 moves it. *)

From stdpp Require Import base list option numbers strings.
From Stdlib Require Import ZArith Lia.
From S2P Require Import Prelude Words Buddy Memory Paging PagingSpec Vmm VmmInv VmmSpec IpcPort Cpio VfsData Vfs VfsInv VfsPipe VfsSpec Task RunQueue Sched SchedInv SysIpc.

Local Open Scope Z_scope.

(** ** Messages to the VFS server *)

Definition make_vfs_msg (t : Z) (args : list Z) : Message :=
  mkMessage t 0 (take MESSAGE_INLINE_BYTES (mjoin (le_encode 8 <$> take 7 args) ++ replicate MESSAGE_INLINE_BYTES 0)) None.

(** ** The kernel state of these calls: the bump pointer, the VFS server and the
       scheduler *)

Record Kernel := mkKernel { kn_bump : Z; kn_vfs : Vfs; kn_sched : Sched }.

Definition set_sched (s : Sched) (k : Kernel) : Kernel := mkKernel (kn_bump k) (kn_vfs k) s.

Definition on_sched {A} (c : st Sched A) : st Kernel A := λ k,
  match c (kn_sched k) with Ret (a, s) => Ret (a, set_sched s k) | Panic => Panic end.

(** [MMAP_BUMP.fetch_add(len)] *)
Definition bump (n : Z) : st Kernel Z :=
  st_lift (λ k, (kn_bump k, mkKernel (wadd (kn_bump k) n) (kn_vfs k) (kn_sched k))).

(** What the server asks the scheduler when it is called. *)
Definition sys_now (s : Sched) (y : Sys) : Sys :=
  mkSys (y_mem y) (y_hhdm y) (ticks s) (current_pid s) (current_ppid s) (current_pgid s)
    (y_total_pages y) (y_free_pages y) (y_static y).

(** [vfs_reply_val(&vfs::handle(&make_vfs_msg(t, args), current_pid()))]: the
    server runs as a function of the kernel, with its own view of memory, the
    virtual addresses under the page table of the current task. *)
Definition vfs_call (t : Z) (args : list Z) : st Kernel Z := λ k,
  match handle (make_vfs_msg t args) (current_pid (kn_sched k))
          (set_sys (sys_now (kn_sched k) (v_sys (kn_vfs k))) (kn_vfs k)) with
  | Ret (m, v) => Ret (vfs_reply_val m, mkKernel (kn_bump k) v (kn_sched k))
  | Panic => Panic
  end.

(** ** mmap and its relatives *)

Definition MAP_MAX_BYTES : Z := 256 * 1024 * 1024.

Definition prot_to_page_flags (prot : Z) : Z :=
  let f := Z.lor PageFlags.PRESENT PageFlags.USER in
  let f := if negb (Z.land prot 2 =? 0) then Z.lor f PageFlags.WRITABLE else f in
  if negb (Z.land prot 4 =? 0) then Z.lor f PageFlags.EXECUTE else f.

Definition on_as {A} (c : st (kmem * AddressSpace) A) : st Kernel (option A) :=
  on_sched (with_current_address_space_mut c).

Definition as_map_lazy (virt size flags : Z) : st (kmem * AddressSpace) bool :=
  a ← get_as;
  let '(ok, a') := map_lazy virt size flags a in
  put_as a' ≫= λ _, mret ok.

Definition sys_mprotect (addr n prot : Z) : st Kernel Z :=
  if (addr =? 0) || (n =? 0) then mret (-22)
  else
    ok ← on_as (mprotect addr n (u32 prot));
    mret (match ok with Some true => 0 | Some false => -22 | None => -1 end).

(** The anonymous branch. *)
Definition remap_lazy (virt n flags : Z) (fixed : bool) : st (kmem * AddressSpace) bool :=
  (if fixed then unmap_range virt n else mret tt) ≫= λ _, as_map_lazy virt n flags.

Definition mmap_anonymous (virt n page_flags addr : Z) (fixed : bool) : st Kernel Z :=
  mapped ← on_as (remap_lazy virt n page_flags fixed);
  match mapped with
  | Some true => mret (to_i64 virt)
  | Some false =>
      if negb fixed && negb (addr =? 0) then
        b ← bump n;
        m2 ← on_as (as_map_lazy b n page_flags);
        mret (match m2 with Some true => to_i64 b | _ => -12 end)
      else mret (-12)
  | None => mret (-1)
  end.

(** Map eagerly, and the physical address of the new VMA. *)
Definition map_phys (virt n flags : Z) (fixed : bool) : st (kmem * AddressSpace) (option Z) :=
  (if fixed then unmap_range virt n else mret tt) ≫= λ _,
  ok ← Vmm.map virt n flags;
  if negb ok then mret None
  else a ← get_as; mret (v_phys <$> Vmm.find a virt).

(** The file-backed branch: seek, map eagerly and writable, read the file into
    the pages, then take the write permission away. *)
Definition mmap_file (virt n prot page_flags : Z) (fixed : bool) (fd off : Z) : st Kernel Z :=
  r ← (if negb (off =? 0) then vfs_call VFS_LSEEK [fd; off; 0] else mret 0);
  if r <? 0 then mret r
  else
    mapped_phys ← on_as (map_phys virt n (Z.lor page_flags PageFlags.WRITABLE) fixed);
    match mapped_phys with
    | Some (Some phys) =>
        m ← vfs_call VFS_READ [fd; phys; n];
        if m <? 0 then on_as (unmap virt n) ≫= λ _, mret m
        else if negb (PageFlags.contains page_flags PageFlags.WRITABLE)
        then sys_mprotect virt n prot ≫= λ _, mret (to_i64 virt)
        else mret (to_i64 virt)
    | _ => mret (-12)
    end.

Definition sys_mmap (addr n prot flags fd off : Z) : st Kernel Z :=
  if n =? 0 then mret (-22)
  else
    let n := page_up n in
    if MAP_MAX_BYTES <? n then mret (-22)
    else
      let page_flags := prot_to_page_flags prot in
      if PageFlags.contains page_flags PageFlags.WRITABLE && PageFlags.contains page_flags PageFlags.EXECUTE then mret (-22)
      else
        let fixed := negb (Z.land flags 0x10 =? 0) in
        if fixed && (addr =? 0) then mret (-22)
        else
          virt ← (if negb (addr =? 0) then mret addr else bump n);
          match checked_add virt n with
          | None => mret (-22)
          | Some end_ =>
              if USER_SPACE_END <? end_ then mret (-22)
              else if negb (Z.land flags 0x20 =? 0) then mmap_anonymous virt n page_flags addr fixed
              else mmap_file virt n prot page_flags fixed fd off
          end.

Definition sys_unmap_mem (virt size : Z) : st Kernel Z :=
  if (virt =? 0) || (size =? 0) then mret (-22)
  else if USER_SPACE_END <=? virt then mret (-22)
  else on_as (unmap virt size) ≫= λ _, mret 0.

(** [x.div_ceil(4096)] *)
Definition div_ceil_page (x : Z) : Z := (x + 4095) / 4096.

Definition sys_mremap (old_addr old_size new_size flags new_addr : Z) : st Kernel Z :=
  let old_pages := div_ceil_page old_size in
  let new_pages := div_ceil_page new_size in
  if new_pages =? old_pages then mret (to_i64 old_addr)
  else if new_pages <? old_pages then
    let tail := wadd old_addr (wmul new_pages 4096) in
    let tail_len := wmul (old_pages - new_pages) 4096 in
    on_as (unmap tail tail_len) ≫= λ _, mret (to_i64 old_addr)
  else
    let target := if negb (Z.land flags 2 =? 0) then new_addr else 0 in
    result ← sys_mmap target new_size 3 0x22 U64_MAX 0;
    if result <? 0 then mret result
    else on_as (unmap old_addr old_size) ≫= λ _, mret result.

Definition sys_brk (new_end : Z) : st Kernel Z :=
  r ← on_as (brk new_end);
  mret (match r with Some x => to_i64 x | None => -12 end).

(** ** Positioned reads and writes *)

Definition sys_pread64 (fd buf_ptr count offset : Z) : st Kernel Z :=
  if count =? 0 then mret 0
  else if negb (validate_user_buf buf_ptr count) then mret (-14)
  else
    cur ← vfs_call VFS_LSEEK [fd; offset; 0];
    if cur <? 0 then mret cur
    else
      n ← vfs_call VFS_READ [fd; buf_ptr; count];
      vfs_call VFS_LSEEK [fd; u64 cur; 0] ≫= λ _, mret n.

Definition sys_pwrite64 (fd buf_ptr count offset : Z) : st Kernel Z :=
  if count =? 0 then mret 0
  else if negb (validate_user_buf buf_ptr count) then mret (-14)
  else
    cur ← vfs_call VFS_LSEEK [fd; 0; 1];
    if cur <? 0 then mret (if fd <=? 2 then to_i64 count else cur)
    else
      vfs_call VFS_LSEEK [fd; offset; 0] ≫= λ _,
      n ← vfs_call VFS_WRITE [fd; buf_ptr; count];
      vfs_call VFS_LSEEK [fd; u64 cur; 0] ≫= λ _, mret n.

Definition sys_ftruncate (fd length : Z) : st Kernel Z := vfs_call VFS_FTRUNCATE [fd; length].

(** ** The address space of the current task *)

Definition current_as (s : Sched) : option AddressSpace := t ← current_task s; t_address_space t.

Lemma find_pid_at_pid pid f rq t : (∀ t, t_pid (f t) = t_pid t) →
  find_pid pid rq = Some t → find_pid pid (at_pid pid f rq) = Some (f t).
Proof.
  intros Hf. unfold find_pid, find_first, at_pid, find_pid_idx.
  destruct (position (has_pid pid) (tasks rq)) as [i|] eqn:Hi; [|done]. simpl.
  apply position_Some in Hi as (o & Ho & Hp & Hmin). unfold at_idx. rewrite Ho. destruct o as [t'|]; [|done].
  simpl. intros [= ->]. pose proof (lookup_lt_Some _ _ _ Ho) as Hlt.
  replace (position (has_pid pid) (<[i := Some (f t)]> (tasks rq))) with (Some i).
  - simpl. by rewrite list_lookup_insert_eq.
  - symmetry. apply position_Some. exists (Some (f t)). split_and!.
    + by apply list_lookup_insert_eq.
    + simpl in *. by rewrite Hf.
    + intros j y Hj Hy. rewrite list_lookup_insert_ne in Hy by lia. by eapply Hmin.
Qed.

Lemma current_as_update s a a' k : current_as s = Some a →
  current_as (set_kmem k (update_current (with_address_space (Some a')) s)) = Some a'.
Proof.
  unfold current_as, current_task, update_current, update_pid, current_pid. intros Ha. simpl.
  destruct (find_pid (sc_cur s) (sc_rq s)) as [t|] eqn:Ht; [|done].
  by rewrite (find_pid_at_pid _ (with_address_space (Some a')) _ _ (λ _, eq_refl) Ht).
Qed.

(** The end of a mapping of whole pages. *)
Lemma map_lazy_end a v n slot v' pages e : 0 ≤ v < 2^64 → 0 ≤ n < 2^63 → aligned n →
  place a v n = Some (slot, v', pages, e) → e = page_down v + n.
Proof.
  intros Hv Hn Hal Hp. assert (pages = n / PAGE_SIZE) as Hpages.
  { unfold place in Hp. destruct (n =? 0); [done|]. destruct (free_slot _); simpl in Hp; [|done].
    destruct (checked_add _ _); simpl in Hp; [|done]. destruct (any_overlap _ _ _); simplify_eq.
    unfold aligned, PAGE_SIZE in *. rewrite wadd_small, wsub_small by lia.
    replace (n + 4096 - 1) with (4095 + n / 4096 * 4096) by (pose proof (Z.div_mod n 4096); lia).
    rewrite Z.div_add by lia. done. }
  destruct (place_ok _ _ _ _ _ _ _ Hv Hp) as (_ & -> & _ & _ & -> & _ & _). f_equal. rewrite Hpages.
  unfold aligned, PAGE_SIZE, wmul in *. pose proof (Z.div_mod n 4096). rewrite u64_small; lia.
Qed.

(** What [map_lazy] does to the lookup of addresses: the new VMA covers the
    range, which was uncovered, and nothing else changes. *)
Lemma map_lazy_find v n flags a : 0 ≤ v < 2^64 → 0 ≤ n < 2^63 → aligned n → vmas_wf (regions a) →
  (map_lazy v n flags a).1 = true →
  ∀ x, Vmm.find (map_lazy v n flags a).2 x =
    if (page_down v <=? x) && (x <? page_down v + n)
    then Some (new_vma (page_down v) (page_down v + n) 0 flags true) else Vmm.find a x.
Proof.
  intros Hv Hn Hal Hwf Hok x. pose proof (map_lazy_wf v n flags a Hv Hwf) as Hwf'. unfold map_lazy in *.
  destruct (place a v n) as [[[[slot v'] pages] e]|] eqn:Hp; [|done]. cbn [snd regions set_regions] in *.
  pose proof (map_lazy_end _ _ _ _ _ _ _ Hv Hn Hal Hp) as ->.
  destruct (place_ok _ _ _ _ _ _ _ Hv Hp) as (Hslot & -> & _ & _ & _ & _ & Ho).
  pose proof (lookup_lt_Some _ _ _ Hslot) as Hlen. unfold Vmm.find, find_vma. simpl.
  set (r := new_vma _ _ _ _ _). set (rs := <[slot := Some r]> (regions a)).
  assert (rs !! slot = Some (Some r)) as Hr by (by apply list_lookup_insert_eq).
  destruct ((page_down v <=? x) && (x <? page_down v + n)) eqn:Hx; to_prop.
  - assert (covers x (Some r) = true) as Hc by (apply covers_Some; simpl; lia).
    rewrite (position_unique _ _ slot (Some r) Hr Hc).
    + simpl. by rewrite Hr.
    + intros j o Hj Hcj. symmetry. by eapply (vw_unique _ Hwf').
  - assert (covers x (Some r) = false) as Hc by exact Hx.
    rewrite (position_ext (covers x) rs (regions a)).
    + destruct (position (covers x) (regions a)) as [i|] eqn:Hi; [|done]. simpl.
      destruct (decide (i = slot)) as [->|Hne]; [|by unfold rs; rewrite list_lookup_insert_ne].
      pose proof (position_holds _ _ _ _ Hi Hslot). done.
    + unfold rs. rewrite <- (list_insert_id (regions a) slot None Hslot) at 2.
      apply Forall2_insert; [clear; induction (regions a); by constructor|done].
Qed.

(** [a'] is [a] with a fresh lazy mapping of [n] bytes at [v]. *)
Record mapped (a a' : AddressSpace) (v n flags : Z) : Prop := {
  mp_wf : vmas_wf (regions a');
  mp_free : ∀ x, page_down v ≤ x < page_down v + n → Vmm.find a x = None;
  mp_new : ∀ x, page_down v ≤ x < page_down v + n →
    Vmm.find a' x = Some (new_vma (page_down v) (page_down v + n) 0 flags true);
  mp_old : ∀ x, ¬ (page_down v ≤ x < page_down v + n) → Vmm.find a' x = Vmm.find a x;
  mp_root : page_table_root a' = page_table_root a
}.

Lemma map_lazy_mapped v n flags a : 0 ≤ v < 2^64 → 0 ≤ n < 2^63 → aligned n → vmas_wf (regions a) →
  (map_lazy v n flags a).1 = true → mapped a (map_lazy v n flags a).2 v n flags.
Proof.
  intros Hv Hn Hal Hwf Hok. pose proof (map_lazy_find v n flags a Hv Hn Hal Hwf Hok) as Hf.
  split; [by apply map_lazy_wf| | |  |apply map_lazy_meta].
  - intros x Hx. unfold Vmm.find. destruct (find_vma (regions a) x) as [[i r]|] eqn:Hi; [|done]. exfalso.
    apply find_vma_covers in Hi as [Hi Hc]. unfold map_lazy in Hok.
    destruct (place a v n) as [[[[slot v'] pages] e]|] eqn:Hp; [|done].
    destruct (place_ok _ _ _ _ _ _ _ Hv Hp) as (_ & -> & _ & _ & _ & _ & Ho).
    eapply (any_overlap_false _ _ _ i (Some r) x); [exact Ho|exact Hi|by apply covers_Some|].
    apply map_lazy_end in Hp as ->; done.
  - intros x Hx. rewrite Hf. rewrite (proj2 (andb_true_iff _ _)) by (split; lia). done.
  - intros x Hx. rewrite Hf. destruct (_ && _) eqn:Hb; [|done]. to_prop. lia.
Qed.

(** The outcome of an attempt to map [n] bytes at [v] lazily. *)
Lemma on_as_map_lazy v n flags k a : current_as (kn_sched k) = Some a → vmas_wf (regions a) →
  0 ≤ v < 2^64 → 0 ≤ n < 2^63 → aligned n →
  ∃ ok a' k', on_as (as_map_lazy v n flags) k = Ret (Some ok, k') ∧ kn_bump k' = kn_bump k ∧ kn_vfs k' = kn_vfs k ∧
    current_as (kn_sched k') = Some a' ∧
    if (ok : bool) then mapped a a' v n flags else a' = a.
Proof.
  intros Ha Hwf Hv Hn Hal. unfold on_as, on_sched, with_current_address_space_mut.
  pose proof Ha as Ha'. unfold current_as in Ha'. rewrite Ha'.
  replace (as_map_lazy v n flags (sc_kmem (kn_sched k), a))
    with (Ret ((map_lazy v n flags a).1, (sc_kmem (kn_sched k), (map_lazy v n flags a).2)))
    by (unfold as_map_lazy, mbind, st_bind, get_as, st_get; cbn [snd]; by destruct (map_lazy v n flags a)).
  pose proof (map_lazy_mapped v n flags a Hv Hn Hal Hwf) as Hm.
  destruct (map_lazy v n flags a) as [ok a'] eqn:Hml. cbn. do 3 eexists. split; [done|]. cbn.
  split_and!; [done..|by eapply current_as_update|]. destruct ok; [by apply Hm|].
  unfold map_lazy in Hml. destruct (place a v n) as [[[[? ?] ?] ?]|]; congruence.
Qed.

Lemma prot_flags_wx prot : PageFlags.contains (prot_to_page_flags prot) PageFlags.WRITABLE = negb (Z.land prot 2 =? 0) ∧
  PageFlags.contains (prot_to_page_flags prot) PageFlags.EXECUTE = negb (Z.land prot 4 =? 0).
Proof. unfold prot_to_page_flags. by destruct (Z.land prot 2 =? 0), (Z.land prot 4 =? 0). Qed.

(** The result of mmap: an error that leaves the address space alone, or a
    mapping at [v]. *)
Definition mmap_result (a a' : AddressSpace) (bump0 addr n prot r : Z) : Prop :=
  (r < 0 ∧ a' = a) ∨
  ∃ v, r = to_i64 v ∧ mapped a a' v (page_up n) (prot_to_page_flags prot) ∧
    (v + page_up n ≤ USER_SPACE_END ∧ (addr ≠ 0 → v = addr) ∨ addr ≠ 0 ∧ v = bump0).

Lemma mmap_anonymous_result addr n prot k k0 a virt : current_as (kn_sched k) = Some a → vmas_wf (regions a) →
  0 ≤ virt < 2^64 → 0 ≤ kn_bump k < 2^64 → page_up n < 2^63 → virt + page_up n ≤ USER_SPACE_END →
  (addr ≠ 0 → virt = addr ∧ kn_bump k = kn_bump k0) →
  ∃ r k' a', mmap_anonymous virt (page_up n) (prot_to_page_flags prot) addr false k = Ret (r, k') ∧
    kn_vfs k' = kn_vfs k ∧ current_as (kn_sched k') = Some a' ∧ mmap_result a a' (kn_bump k0) addr n prot r.
Proof.
  intros Ha Hwf Hv Hb Hn Hend Haddr. destruct (page_up_range n) as [Hr Hal].
  destruct (on_as_map_lazy virt (page_up n) (prot_to_page_flags prot) k a)
    as (ok & a1 & k1 & Hrun & Hb1 & Hv1 & Ha1 & Hm); [done..|lia|done|].
  unfold mmap_anonymous, mbind, st_bind. change (remap_lazy virt ?n ?f false) with (as_map_lazy virt n f).
  rewrite Hrun. destruct ok.
  - eexists _, k1, a1. split_and!; [done..|]. right. exists virt. split_and!; [done..|]. left. split; [done|tauto].
  - subst a1. destruct (Z.eqb_spec addr 0) as [->|Hne]; cbn [negb andb].
    + eexists _, k1, a. split_and!; [done..|]. by left.
    + destruct (Haddr Hne) as [_ Hk0]. set (k2 := mkKernel (wadd (kn_bump k1) (page_up n)) (kn_vfs k1) (kn_sched k1)).
      destruct (on_as_map_lazy (kn_bump k1) (page_up n) (prot_to_page_flags prot) k2 a)
        as (ok & a2 & k3 & Hrun2 & _ & Hv3 & Ha3 & Hm2); [done|done|lia|lia|done|].
      unfold bump, st_lift. fold k2. rewrite Hrun2. eexists _, k3, a2.
      split_and!; [done|by rewrite Hv3|done|]. destruct ok; [|by left].
      right. exists (kn_bump k1). split_and!; [done..|]. right. split; [done|congruence].
Qed.

(** The bounds check of mmap. *)
Lemma mmap_checked addr n prot k k0 a virt :
  current_as (kn_sched k) = Some a → vmas_wf (regions a) →
  0 ≤ virt < 2^64 → 0 ≤ kn_bump k < 2^64 → page_up n < 2^63 → (addr ≠ 0 → virt = addr ∧ kn_bump k = kn_bump k0) →
  ∃ r k' a', match checked_add virt (page_up n) with
    | None => mret (-22)
    | Some end_ => if USER_SPACE_END <? end_ then mret (-22)
                   else mmap_anonymous virt (page_up n) (prot_to_page_flags prot) addr false
    end k = Ret (r, k') ∧
    kn_vfs k' = kn_vfs k ∧ current_as (kn_sched k') = Some a' ∧ mmap_result a a' (kn_bump k0) addr n prot r.
Proof.
  intros Ha Hwf Hv Hb Hn Haddr.
  assert (mmap_result a a (kn_bump k0) addr n prot (-22)) as Herr by (left; done).
  destruct (checked_add virt (page_up n)) as [e|] eqn:He; [|by eexists _, k, a].
  apply checked_add_Some in He as [-> He]. destruct (Z.ltb_spec USER_SPACE_END (virt + page_up n));
    [by eexists _, k, a|]. by apply mmap_anonymous_result.
Qed.

(** The choice of the address, then the bounds check. *)
Lemma mmap_chosen addr n prot k a : current_as (kn_sched k) = Some a → vmas_wf (regions a) →
  0 ≤ addr < 2^64 → 0 ≤ kn_bump k < 2^64 → page_up n < 2^63 →
  ∃ r k' a', (virt ← (if negb (addr =? 0) then mret addr else bump (page_up n));
    match checked_add virt (page_up n) with
    | None => mret (-22)
    | Some end_ => if USER_SPACE_END <? end_ then mret (-22)
                   else mmap_anonymous virt (page_up n) (prot_to_page_flags prot) addr false
    end) k = Ret (r, k') ∧
    kn_vfs k' = kn_vfs k ∧ current_as (kn_sched k') = Some a' ∧ mmap_result a a' (kn_bump k) addr n prot r.
Proof.
  intros Ha Hwf Haddr Hb Hn. unfold mbind, st_bind. destruct (Z.eqb_spec addr 0) as [->|Hne]; cbn [negb].
  - unfold bump, st_lift. set (k1 := mkKernel _ _ _).
    destruct (mmap_checked 0 n prot k1 k a (kn_bump k)) as (r & k' & a' & Hrun & Hv & Ha' & Hres); [done..| |done|done|].
    { apply wadd_range. }
    exists r, k', a'. by rewrite Hrun.
  - by apply mmap_checked.
Qed.


(** A kernel whose current task 7 has an empty address space. *)
Definition demo_kernel (v : Vfs) : Kernel :=
  let t := with_address_space (Some (AddressSpace_new 0x1000)) (new_kernel 7 0 0 0 0) in
  mkKernel 0x10000000 v
    (mkSched (mkRQ (<[0%nat := Some t]> (replicate MAX_TASKS None)) 1 0) 8 0 false [] 0 7 (Some 0%nat)
       (mkKmem Buddy_init 0 (λ _, 0) 0)).


(** ** Requests to the VFS server *)

Lemma mjoin_encode_drop args i x : args !! i = Some x → 0 ≤ x < 2^64 → ∀ rest,
  le_decode (take 8 (drop (i * 8) (mjoin (le_encode 8 <$> args) ++ rest))) = x.
Proof.
  revert i. induction args as [|y args IH]; intros i Hi Hx rest; [done|].
  cbn [fmap list_fmap mjoin list_join]. rewrite <- app_assoc. destruct i as [|i].
  - injection Hi as ->. change (drop (0 * 8) ?l) with l. rewrite take_app_length' by (by rewrite length_le_encode).
    by apply le_decode_encode.
  - replace (S i * 8)%nat with (8 + i * 8)%nat by lia. rewrite <- drop_drop.
    rewrite drop_app_length' by (by rewrite length_le_encode). by apply IH.
Qed.

Lemma arg_make_vfs_msg t args i x : args !! i = Some x → (i < 7)%nat → 0 ≤ x < 2^64 → arg (make_vfs_msg t args) i = x.
Proof.
  intros Hi Hlt Hx. unfold arg, make_vfs_msg, MESSAGE_INLINE_BYTES. cbn [data].
  rewrite take_drop_commute, take_take, Nat.min_l, <- take_drop_commute by lia.
  apply mjoin_encode_drop; [|done]. by rewrite lookup_take_lt.
Qed.

(** The state the server runs in. *)
Definition vfs_now (k : Kernel) : Vfs := set_sys (sys_now (kn_sched k) (v_sys (kn_vfs k))) (kn_vfs k).

(** Three-argument requests, by tag. *)
Lemma vfs_call_lseek fd off w k : 0 ≤ fd < 2^64 → 0 ≤ off < 2^64 → 0 ≤ w < 2^32 →
  vfs_call VFS_LSEEK [fd; off; w] k =
    match handle_lseek (current_pid (kn_sched k)) fd (to_i64 off) w (vfs_now k) with
    | Ret (m, v) => Ret (vfs_reply_val m, mkKernel (kn_bump k) v (kn_sched k)) | Panic => Panic end.
Proof.
  intros Hfd Hoff Hw. unfold vfs_call, handle. cbv zeta.
  rewrite (arg_make_vfs_msg VFS_LSEEK _ 0 fd), (arg_make_vfs_msg VFS_LSEEK _ 1 off), (arg_make_vfs_msg VFS_LSEEK _ 2 w)
    by first [reflexivity|lia].
  cbn [tag make_vfs_msg]. fold (vfs_now k). unfold u32. by rewrite (Z.mod_small w).
Qed.

Lemma vfs_call_write fd buf n k : 0 ≤ fd < 2^64 → 0 ≤ buf < 2^64 → 0 ≤ n < 2^64 →
  vfs_call VFS_WRITE [fd; buf; n] k =
    match handle_write (current_pid (kn_sched k)) fd buf n (vfs_now k) with
    | Ret (m, v) => Ret (vfs_reply_val m, mkKernel (kn_bump k) v (kn_sched k)) | Panic => Panic end.
Proof.
  intros Hfd Hb Hn. unfold vfs_call, handle. cbv zeta.
  rewrite (arg_make_vfs_msg VFS_WRITE _ 0 fd), (arg_make_vfs_msg VFS_WRITE _ 1 buf), (arg_make_vfs_msg VFS_WRITE _ 2 n)
    by first [reflexivity|lia].
  done.
Qed.

Lemma vfs_call_read fd buf n k : 0 ≤ fd < 2^64 → 0 ≤ buf < 2^64 → 0 ≤ n < 2^64 →
  vfs_call VFS_READ [fd; buf; n] k =
    match handle_read (current_pid (kn_sched k)) fd buf n (vfs_now k) with
    | Ret (m, v) => Ret (vfs_reply_val m, mkKernel (kn_bump k) v (kn_sched k)) | Panic => Panic end.
Proof.
  intros Hfd Hb Hn. unfold vfs_call, handle. cbv zeta.
  rewrite (arg_make_vfs_msg VFS_READ _ 0 fd), (arg_make_vfs_msg VFS_READ _ 1 buf), (arg_make_vfs_msg VFS_READ _ 2 n)
    by first [reflexivity|lia].
  done.
Qed.

Lemma validate_user_buf_range buf n : validate_user_buf buf n = true → buf + n ≤ USER_SPACE_END.
Proof.
  unfold validate_user_buf. destruct (buf =? 0); [done|]. destruct (checked_add buf n) as [x|] eqn:Hx; [|done].
  apply checked_add_Some in Hx as [-> _]. intros H. to_prop. lia.
Qed.

(** ** Positioned reads and writes of files under /tmp *)

(** Descriptor [fd] of the current process is open for reading and writing on
    the file [entry] in slot [idx], at position [pos]. *)
Record tmp_fd (k : Kernel) (fd : Z) (t : nat) (e : FdEntry) (idx : nat) (pos : Z) (entry : TmpFileEntry) : Prop := {
  tf_wf : vfs_wf (kn_vfs k);
  tf_fd : 0 ≤ fd < 2^64;
  tf_open : open_fd (current_pid (kn_sched k)) fd (kn_vfs k) = Some (t, e);
  tf_kind : fd_kind e = TmpFile idx pos true;
  tf_flags : flag (fd_flags e) O_APPEND = false;
  tf_entry : v_tmp (kn_vfs k) !! idx = Some entry;
  tf_pos : 0 ≤ pos < 2^63
}.

Lemma vfs_now_wf k : vfs_wf (kn_vfs k) → vfs_wf (vfs_now k).
Proof. by intros []. Qed.

(** The kernel after the server moved to [v]. *)
Definition with_vfs (v : Vfs) (k : Kernel) : Kernel := mkKernel (kn_bump k) v (kn_sched k).

(** The kernel after the descriptor moved to [q] and the file became [entry']. *)
Definition rewritten (k : Kernel) (fd : Z) (t : nat) (e : FdEntry) (idx : nat) (q : Z) (entry' : TmpFileEntry) : Kernel :=
  with_vfs (put_kind t fd e (TmpFile idx q true) (set_tmp (<[idx := entry']> (v_tmp (vfs_now k))) (vfs_now k))) k.

Lemma tmp_fd_rewritten k fd t e idx pos entry q entry' : tmp_fd k fd t e idx pos entry → 0 ≤ q < 2^63 → tmp_ok entry' →
  tmp_fd (rewritten k fd t e idx q entry') fd t (set_kind (TmpFile idx q true) e) idx q entry'.
Proof.
  intros [Hwf Hfd Ho Hk Hfl He Hp] Hq Hok. destruct (open_fd_ok _ Hwf _ _ _ _ Ho) as [Hkind _].
  rewrite Hk in Hkind. destruct Hkind as [Hi _]. split; [|done| |done|done| |done].
  - apply set_entry_wf; [apply insert_tmp_wf; [by apply vfs_now_wf|done]|]. simpl. lia.
  - simpl. apply (open_fd_put_kind _ _ (set_tmp _ (vfs_now k))). exact Ho.
  - simpl. apply list_lookup_insert_eq. by eapply lookup_lt_Some.
Qed.

(** The kernel after the descriptor moved to [q]. *)
Definition seeked (k : Kernel) (fd : Z) (t : nat) (e : FdEntry) (idx : nat) (q : Z) : Kernel :=
  with_vfs (put_kind t fd e (TmpFile idx q true) (vfs_now k)) k.

Section tmp_calls.
Context (k : Kernel) (fd : Z) (t : nat) (e : FdEntry) (idx : nat) (pos : Z) (entry : TmpFileEntry).
Context (Htf : tmp_fd k fd t e idx pos entry).

Lemma tmp_fd_entry_ok : tmp_ok entry.
Proof.
  destruct Htf as [Hwf _ Ho Hk _ He _]. destruct (open_fd_ok _ Hwf _ _ _ _ Ho) as [Hkind _].
  rewrite Hk in Hkind. destruct Hkind as [Hi _]. destruct (tmp_slot _ Hwf idx Hi) as (x & Hx & Hok). congruence.
Qed.

(** Moving without a change to the files. *)
Lemma tmp_fd_seek q : 0 ≤ q < 2^63 →
  tmp_fd (seeked k fd t e idx q) fd t (set_kind (TmpFile idx q true) e) idx q entry.
Proof.
  intros Hq. destruct Htf as [Hwf Hfd Ho Hk Hfl He Hp]. destruct (open_fd_ok _ Hwf _ _ _ _ Ho) as [Hkind _].
  rewrite Hk in Hkind. destruct Hkind as [Hi _]. split; [|done| |done|done|done|done].
  - apply set_entry_wf; [by apply vfs_now_wf|]. simpl. lia.
  - simpl. apply (open_fd_put_kind _ _ (vfs_now k)). exact Ho.
Qed.

Lemma call_seek_set p : 0 ≤ p < 2^63 →
  vfs_call VFS_LSEEK [fd; p; 0] k = Ret (p, seeked k fd t e idx p).
Proof.
  intros Hp. destruct Htf as [Hwf Hfd Ho Hk Hfl He _]. rewrite vfs_call_lseek by lia.
  rewrite to_i64_small by lia.
  rewrite (seek_tmp _ fd (vfs_now k) t e idx pos entry Ho He p Hk) by lia. by rewrite vfs_reply_small.
Qed.

Lemma call_seek_cur :
  vfs_call VFS_LSEEK [fd; 0; 1] k = Ret (pos, seeked k fd t e idx pos).
Proof.
  destruct Htf as [Hwf Hfd Ho Hk Hfl He Hp]. rewrite vfs_call_lseek by lia. rewrite to_i64_small by lia.
  unfold handle_lseek. change (open_fd ?p fd (vfs_now k)) with (open_fd p fd (kn_vfs k)). rewrite Ho, Hk.
  change (v_tmp (vfs_now k)) with (v_tmp (kn_vfs k)). rewrite He. unfold seek_to, finish_seek. cbn [Z.eqb Pos.eqb].
  rewrite (to_i64_small pos), Z.add_0_r, to_i64_small, (proj2 (Z.ltb_ge _ _)) by lia. by rewrite vfs_reply_small.
Qed.

Lemma call_write buf count : 0 ≤ buf < 2^64 → 0 < count → pos + count ≤ MAX_TMP_SIZE →
  vfs_call VFS_WRITE [fd; buf; count] k = Ret (count,
    rewritten k fd t e idx (pos + count) (written pos entry (mem_read (v_mem (kn_vfs k)) buf count))).
Proof.
  intros Hb Hc Hs. destruct Htf as [Hwf Hfd Ho Hk Hfl He Hp]. unfold MAX_TMP_SIZE in *. rewrite vfs_call_write by lia.
  rewrite (write_tmp _ fd (vfs_now k) t e idx pos entry (vfs_now_wf k Hwf) Ho He buf count Hk Hfl Hc Hs).
  rewrite vfs_reply_small by lia. done.
Qed.

Lemma call_read buf count : 0 ≤ buf < 2^64 → 0 < count → pos + count ≤ t_len entry →
  vfs_call VFS_READ [fd; buf; count] k = Ret (count,
    with_vfs (put_kind t fd e (TmpFile idx (pos + count) true)
      (poke (mem_write buf (slice (t_data entry) pos (pos + count))) (vfs_now k))) k).
Proof.
  intros Hb Hc Hs. pose proof tmp_fd_entry_ok as Hok. pose proof (to_len _ Hok) as Hl.
  destruct Htf as [Hwf Hfd Ho Hk Hfl He Hp]. unfold MAX_TMP_SIZE in *. rewrite vfs_call_read by lia.
  rewrite (read_tmp _ fd (vfs_now k) t e idx pos entry Ho He buf count Hk Hok) by lia.
  rewrite vfs_reply_small by lia. done.
Qed.
End tmp_calls.

(** [pwrite64] on a file under /tmp that is not open for appending writes
    the whole buffer at the given offset and keeps the descriptor's position;
    the other files, the scheduler and the mmap area are untouched. *)
Theorem pwrite_keeps_position k fd t e idx pos entry buf count offset :
  tmp_fd k fd t e idx pos entry → 0 ≤ buf → validate_user_buf buf count = true → 0 < count →
  0 ≤ offset → offset + count ≤ MAX_TMP_SIZE →
  ∃ k' e', sys_pwrite64 fd buf count offset k = Ret (count, k') ∧
    tmp_fd k' fd t e' idx pos (written offset entry (mem_read (v_mem (kn_vfs k)) buf count)) ∧
    v_tmp (kn_vfs k') = <[idx := written offset entry (mem_read (v_mem (kn_vfs k)) buf count)]> (v_tmp (kn_vfs k)) ∧
    kn_sched k' = kn_sched k ∧ kn_bump k' = kn_bump k.
Proof.
  intros Htf Hb Hval Hc Ho Hoc. pose proof (tf_pos _ _ _ _ _ _ _ Htf) as Hp. pose proof (tf_fd _ _ _ _ _ _ _ Htf) as Hfd.
  pose proof (tmp_fd_entry_ok _ _ _ _ _ _ _ Htf) as Hok.
  unfold sys_pwrite64. rewrite Hval, (proj2 (Z.eqb_neq _ _)) by lia. cbn [negb]. unfold mbind, st_bind.
  rewrite (call_seek_cur _ _ _ _ _ _ _ Htf), (proj2 (Z.ltb_ge _ _)) by lia.
  pose proof (tmp_fd_seek _ _ _ _ _ _ _ Htf pos Hp) as H1. set (k1 := seeked k _ _ _ _ _) in *.
  unfold MAX_TMP_SIZE in *. rewrite (call_seek_set _ _ _ _ _ _ _ H1) by lia.
  pose proof (tmp_fd_seek _ _ _ _ _ _ _ H1 offset ltac:(lia)) as H2. set (k2 := seeked k1 _ _ _ _ _) in *.
  assert (0 ≤ buf < 2^64) as Hbuf by (apply validate_user_buf_range in Hval; unfold USER_SPACE_END in Hval; lia).
  rewrite (call_write _ _ _ _ _ _ _ H2 buf count Hbuf Hc) by (unfold MAX_TMP_SIZE; lia).
  change (v_mem (kn_vfs k2)) with (v_mem (kn_vfs k)). set (entry' := written offset entry _).
  assert (tmp_ok entry') as Hok' by (apply written_ok; [done|lia|unfold len, MAX_TMP_SIZE; rewrite length_mem_read; lia]).
  pose proof (tmp_fd_rewritten _ _ _ _ _ _ _ (offset + count) _ H2 ltac:(lia) Hok') as H3.
  set (k3 := rewritten k2 _ _ _ _ _ _) in *.
  rewrite u64_small by lia. rewrite (call_seek_set _ _ _ _ _ _ _ H3) by lia.
  pose proof (tmp_fd_seek _ _ _ _ _ _ _ H3 pos Hp) as H4. eexists _, _. split; [reflexivity|]. split_and!; [exact H4|done..].
Qed.

Lemma pwrite_keeps_position_witness :
  ∃ k' e', sys_pwrite64 0 100 3 20 (demo_kernel tmp_demo) = Ret (3, k') ∧
    tmp_fd k' 0 0 e' 0 10 (written 20 (new_tmp (bytes "/tmp/a") false) (mem_read (v_mem tmp_demo) 100 3)) ∧
    v_tmp (kn_vfs k') = <[0%nat := written 20 (new_tmp (bytes "/tmp/a") false) (mem_read (v_mem tmp_demo) 100 3)]> (v_tmp tmp_demo) ∧
    kn_sched k' = kn_sched (demo_kernel tmp_demo) ∧ kn_bump k' = 0x10000000.
Proof.
  apply (pwrite_keeps_position (demo_kernel tmp_demo) 0 0 (mkFd (TmpFile 0 10 true) 2 true) 0 10
    (new_tmp (bytes "/tmp/a") false) 100 3 20); [|done|reflexivity|lia|lia|unfold MAX_TMP_SIZE; lia].
  split; [apply tmp_demo_wf|lia|reflexivity|reflexivity|reflexivity|reflexivity|lia].
Defined.

(** [pread64] reads at the offset, but leaves the descriptor there: the position
    it restores is the one its own seek returned. *)
Lemma pread_moves_position k fd t e idx pos entry buf count offset :
  tmp_fd k fd t e idx pos entry → 0 ≤ buf → validate_user_buf buf count = true → 0 < count →
  0 ≤ offset → offset + count ≤ t_len entry →
  ∃ k' e', sys_pread64 fd buf count offset k = Ret (count, k') ∧
    tmp_fd k' fd t e' idx offset entry ∧
    mem_read (v_mem (kn_vfs k')) buf count = slice (t_data entry) offset (offset + count).
Proof.
  intros Htf Hb Hval Hc Ho Hoc. pose proof (to_len _ (tmp_fd_entry_ok _ _ _ _ _ _ _ Htf)) as Hl.
  pose proof (to_data _ (tmp_fd_entry_ok _ _ _ _ _ _ _ Htf)) as Hd. unfold MAX_TMP_SIZE in *.
  assert (0 ≤ buf < 2^64) as Hbuf by (apply validate_user_buf_range in Hval; unfold USER_SPACE_END in Hval; lia).
  unfold sys_pread64. rewrite Hval, (proj2 (Z.eqb_neq _ _)) by lia. cbn [negb]. unfold mbind, st_bind.
  rewrite (call_seek_set _ _ _ _ _ _ _ Htf), (proj2 (Z.ltb_ge _ _)) by lia.
  pose proof (tmp_fd_seek _ _ _ _ _ _ _ Htf offset ltac:(lia)) as H1. set (k1 := seeked k _ _ _ _ _) in *.
  rewrite (call_read _ _ _ _ _ _ _ H1 buf count Hbuf Hc Hoc). rewrite u64_small by lia.
  set (f := mem_write buf _). set (k1' := with_vfs (poke f (vfs_now k1)) k1).
  assert (tmp_fd k1' fd t (set_kind (TmpFile idx offset true) e) idx offset entry) as H1'
    by (destruct H1 as [Hwf ? ? ? ? ? ?]; split; try done; by apply poke_wf, vfs_now_wf).
  pose proof (tmp_fd_seek _ _ _ _ _ _ _ H1' (offset + count) ltac:(lia)) as H2.
  change (with_vfs _ k1) with (seeked k1' fd t (set_kind (TmpFile idx offset true) e) idx (offset + count)).
  rewrite (call_seek_set _ _ _ _ _ _ _ H2) by lia.
  eexists _, _. split; [reflexivity|]. split; [by apply (tmp_fd_seek _ _ _ _ _ _ _ H2); lia|].
  change (mem_read (f (v_mem (kn_vfs k1))) buf count = slice (t_data entry) offset (offset + count)). unfold f.
  rewrite <- mem_read_write with (a := buf) (m := v_mem (kn_vfs k1)). f_equal.
  unfold slice. rewrite length_take, length_drop. lia.
Qed.
