(* ===== verification/Tty.v ===== *)
(** * The terminal server (src/servers/tty/src/lib.rs)

    Terminals, pairs of pseudo terminals and POSIX timers.  The server has its
    own tables; timers read the scheduler's clock and send signals through it.
    The theorems: a timer fires when it is due and not before, and the two
    directions of a pair of pseudo terminals are independent queues. *)

From stdpp Require Import base list option numbers.
From Stdlib Require Import ZArith Lia.
From S2P Require Import Prelude Words Rings Memory IpcPort VfsData VfsInv Task RunQueue Sched.

Local Open Scope Z_scope.

(** ** Data *)

Module Tags.
Definition TTY_OPEN : Z := 0x40.
Definition TTY_READ : Z := 0x41.
Definition TTY_WRITE : Z := 0x42.
Definition TTY_IOCTL : Z := 0x43.
Definition TTY_CLOSE : Z := 0x44.
Definition TTY_ISATTY : Z := 0x45.
Definition TIMER_CREATE : Z := 0x50.
Definition TIMER_SETTIME : Z := 0x51.
Definition TIMER_GETTIME : Z := 0x52.
Definition TIMER_DELETE : Z := 0x53.
End Tags.
Import Tags.

Definition TTY_FD_BASE : Z := 0x200.
Definition TTY_MAX_PROCS : nat := 64.
Definition MAX_TTYS : Z := 4.
Definition MAX_TIMERS : Z := 8.
Definition TTY_BUF : nat := 4096.
Definition MAX_PTS : nat := 8.

Record Termios := mkTermios {
  c_iflag : Z; c_oflag : Z; c_cflag : Z; c_lflag : Z;
  c_line : Z;
  c_cc : list Z
}.

Definition default_console : Termios :=
  mkTermios 0x0500 0x0005 0x04BF 0x8A3B 0
    [0; 0; 0x7F; 0x15; 4; 0; 0; 0; 0; 0x1A; 0; 0x11; 0x12; 0x17; 0x16; 0; 0; 0; 0].

Record TtyBuf := mkTtyBuf { b_data : list Z; b_rpos : nat; b_wpos : nat; b_count : nat }.

Definition TtyBuf_new : TtyBuf := mkTtyBuf (replicate TTY_BUF 0) 0 0 0.

Definition tb_write (x : Z) (b : TtyBuf) : bool * TtyBuf :=
  if (TTY_BUF <=? b_count b)%nat then (false, b)
  else (true, mkTtyBuf (<[b_wpos b := x]> (b_data b)) (b_rpos b) ((b_wpos b + 1) mod TTY_BUF) (b_count b + 1)).

Definition tb_read (b : TtyBuf) : option Z * TtyBuf :=
  if (b_count b =? 0)%nat then (None, b)
  else (b_data b !! b_rpos b, mkTtyBuf (b_data b) ((b_rpos b + 1) mod TTY_BUF) (b_wpos b) (b_count b - 1)).

Inductive TtyKind := TNone | Console | PtsMaster (pair : nat) | PtsSlave (pair : nat).

Record TtyEntry := mkTty { y_kind : TtyKind; y_in_use : bool; y_termios : Termios }.
Definition TtyEntry_empty : TtyEntry := mkTty TNone false default_console.

Record ProcTtyTable := mkTtyTbl { tt_pid : Z; ttys : list TtyEntry; tt_in_use : bool }.
Definition ProcTtyTable_empty : ProcTtyTable := mkTtyTbl 0 (replicate (Z.to_nat MAX_TTYS) TtyEntry_empty) false.

Record PtsPair := mkPair { pp_in_use : bool; m_to_s : TtyBuf; s_to_m : TtyBuf }.
Definition PtsPair_new : PtsPair := mkPair false TtyBuf_new TtyBuf_new.

Record PosixTimer := mkTimer { tm_in_use : bool; tm_signo : Z; tm_interval : Z; tm_deadline : Z; tm_owner_pid : Z }.
Definition PosixTimer_new : PosixTimer := mkTimer false 0 0 0 0.

Record ProcTimerTable := mkTimerTbl { pt_pid : Z; pt_timers : list PosixTimer; pt_in_use : bool }.
Definition ProcTimerTable_empty : ProcTimerTable :=
  mkTimerTbl 0 (replicate (Z.to_nat MAX_TIMERS) PosixTimer_new) false.

(** The server's state, with the memory it reads and writes. *)
Record TtyServer := mkTtyServer {
  ty_ttys : list ProcTtyTable;
  ty_pairs : list PtsPair;
  ty_timers : list ProcTimerTable;
  ty_mem : mem
}.

Definition TtyServer_init (m : mem) : TtyServer :=
  mkTtyServer (replicate TTY_MAX_PROCS ProcTtyTable_empty) (replicate MAX_PTS PtsPair_new)
    (replicate TTY_MAX_PROCS ProcTimerTable_empty) m.

Definition set_ttys x (s : TtyServer) : TtyServer := mkTtyServer x (ty_pairs s) (ty_timers s) (ty_mem s).
Definition set_pairs x (s : TtyServer) : TtyServer := mkTtyServer (ty_ttys s) x (ty_timers s) (ty_mem s).
Definition set_timer_tables x (s : TtyServer) : TtyServer := mkTtyServer (ty_ttys s) (ty_pairs s) x (ty_mem s).
Definition on_ty_mem (f : mem → mem) (s : TtyServer) : TtyServer :=
  mkTtyServer (ty_ttys s) (ty_pairs s) (ty_timers s) (f (ty_mem s)).

(** ** Helpers *)

Definition tty_of (pid : Z) (t : ProcTtyTable) : bool := tt_in_use t && (tt_pid t =? pid).

Definition find_tty (pid : Z) (l : list ProcTtyTable) : option nat := position (tty_of pid) l.

(** The slot of the caller's table, and the tables with it. *)
Definition get_or_create_tty (pid : Z) (l : list ProcTtyTable) : option (nat * list ProcTtyTable) :=
  match position (tty_of pid) l with
  | Some i => Some (i, l)
  | None =>
      match position (λ t, negb (tt_in_use t)) l with
      | Some i => Some (i, <[i := mkTtyTbl pid (ttys ProcTtyTable_empty) true]> l)
      | None => None
      end
  end.

Definition fd_to_slot (fd : Z) : option nat :=
  if (TTY_FD_BASE <=? fd) && (fd <? TTY_FD_BASE + MAX_TTYS) then Some (Z.to_nat (fd - TTY_FD_BASE)) else None.

(** The open terminal behind a descriptor: its table, slot and entry. *)
Definition open_tty (pid fd : Z) (s : TtyServer) : option (nat * nat * TtyEntry) :=
  slot ← fd_to_slot fd;
  i ← find_tty pid (ty_ttys s);
  t ← ty_ttys s !! i;
  e ← ttys t !! slot;
  if y_in_use e then Some (i, slot, e) else None.

Definition set_tty (i slot : nat) (e : TtyEntry) (s : TtyServer) : TtyServer :=
  set_ttys (alter (λ t, mkTtyTbl (tt_pid t) (<[slot := e]> (ttys t)) (tt_in_use t)) i (ty_ttys s)) s.

(** ** Terminals *)

(** The kind that [handle_open] makes of its argument, or the error. *)
Definition tty_open_kind (kind_raw : Z) (s : TtyServer) : result TtyKind Z * TtyServer :=
  if kind_raw =? 0 then (Ok Console, s)
  else if kind_raw =? 1 then
    match position (λ p, negb (pp_in_use p)) (ty_pairs s) with
    | Some i => (Ok (PtsMaster i), set_pairs (alter (λ p, mkPair true (m_to_s p) (s_to_m p)) i (ty_pairs s)) s)
    | None => (Err (-24), s)
    end
  else if kind_raw =? 2 then (Ok (PtsSlave (Z.to_nat (Z.shiftr kind_raw 8))), s)
  else (Err (-22), s).

Definition tty_handle_open (pid kind_raw : Z) (s : TtyServer) : Message * TtyServer :=
  match tty_open_kind kind_raw s with
  | (Err e, s) => (err_reply e, s)
  | (Ok kind, s) =>
      match get_or_create_tty pid (ty_ttys s) with
      | None => (err_reply (-12), s)
      | Some (i, l) =>
          match t ← l !! i; position (λ e, negb (y_in_use e)) (ttys t) with
          | None => (err_reply (-24), set_ttys l s)
          | Some slot =>
              (val_reply (Z.of_nat slot + TTY_FD_BASE),
               set_tty i slot (mkTty kind true default_console) (set_ttys l s))
          end
      end
  end.

(** The copy loops: at most [n] bytes out of a ring, and bytes into a ring until
    it is full. *)
Fixpoint tb_read_loop (n : nat) (b : TtyBuf) : list Z * TtyBuf :=
  match n with
  | O => ([], b)
  | S n' =>
      match tb_read b with
      | (Some x, b') => let '(xs, b'') := tb_read_loop n' b' in (x :: xs, b'')
      | (None, b') => ([], b')
      end
  end.

Fixpoint tb_write_loop (xs : list Z) (b : TtyBuf) : nat * TtyBuf :=
  match xs with
  | [] => (0%nat, b)
  | x :: xs' =>
      match tb_write x b with
      | (true, b') => let '(n, b'') := tb_write_loop xs' b' in (S n, b'')
      | (false, b') => (0%nat, b')
      end
  end.

(** The ring an end of a pair reads from, and the one it writes to: the end is
    the master or the slave. *)
Definition set_m_to_s (b : TtyBuf) (p : PtsPair) : PtsPair := mkPair (pp_in_use p) b (s_to_m p).
Definition set_s_to_m (b : TtyBuf) (p : PtsPair) : PtsPair := mkPair (pp_in_use p) (m_to_s p) b.

Definition read_ring (pr : nat) (get : PtsPair → TtyBuf) (set : TtyBuf → PtsPair → PtsPair)
    (buf count : Z) (s : TtyServer) : outcome (Message * TtyServer) :=
  match ty_pairs s !! pr with
  | None => Panic
  | Some p =>
      let '(xs, b) := tb_read_loop (Z.to_nat (Z.min count (Z.of_nat TTY_BUF))) (get p) in
      Ret (val_reply (Z.of_nat (length xs)),
           on_ty_mem (mem_write buf xs) (set_pairs (<[pr := set b p]> (ty_pairs s)) s))
  end.

(** [tb_write_loop] stops at the ring's capacity, so no more bytes of the caller's
    buffer are read. *)
Definition write_ring (pr : nat) (get : PtsPair → TtyBuf) (set : TtyBuf → PtsPair → PtsPair)
    (buf count : Z) (s : TtyServer) : outcome (Message * TtyServer) :=
  match ty_pairs s !! pr with
  | None => Panic
  | Some p =>
      let '(n, b) := tb_write_loop (mem_read (ty_mem s) buf (Z.min count (Z.of_nat TTY_BUF))) (get p) in
      Ret (val_reply (Z.of_nat n), set_pairs (<[pr := set b p]> (ty_pairs s)) s)
  end.

Definition tty_handle_read (pid fd buf count : Z) (s : TtyServer) : outcome (Message * TtyServer) :=
  match open_tty pid fd s with
  | None => Ret (err_reply (-9), s)
  | Some (_, _, e) =>
      match y_kind e with
      | Console => Ret (val_reply 0, s)
      | PtsSlave pr => read_ring pr m_to_s set_m_to_s buf count s
      | PtsMaster pr => read_ring pr s_to_m set_s_to_m buf count s
      | TNone => Ret (err_reply (-9), s)
      end
  end.

Definition tty_handle_write (pid fd buf count : Z) (s : TtyServer) : outcome (Message * TtyServer) :=
  match open_tty pid fd s with
  | None => Ret (err_reply (-9), s)
  | Some (_, _, e) =>
      match y_kind e with
      | Console => Ret (val_reply count, s)
      | PtsMaster pr => write_ring pr m_to_s set_m_to_s buf count s
      | PtsSlave pr => write_ring pr s_to_m set_s_to_m buf count s
      | TNone => Ret (err_reply (-9), s)
      end
  end.

Definition TCGETS : Z := 0x5401.
Definition TCSETS : Z := 0x5402.
Definition TCSETSW : Z := 0x5403.
Definition TCSETSF : Z := 0x5404.
Definition TIOCGWINSZ : Z := 0x5413.

(** The bytes of the structure at the caller's pointer. *)
Definition termios_bytes (t : Termios) : list Z :=
  le_encode 4 (c_iflag t) ++ le_encode 4 (c_oflag t) ++ le_encode 4 (c_cflag t) ++
  le_encode 4 (c_lflag t) ++ c_line t :: c_cc t.

Definition read_termios (m : mem) (p : Z) : Termios :=
  mkTermios (le_decode (mem_read m p 4)) (le_decode (mem_read m (p + 4) 4))
    (le_decode (mem_read m (p + 8) 4)) (le_decode (mem_read m (p + 12) 4))
    (m (p + 16)) (mem_read m (p + 17) 19).

Definition winsize : list Z := le_encode 2 24 ++ le_encode 2 80 ++ le_encode 2 0 ++ le_encode 2 0.

Definition tty_handle_ioctl (pid fd cmd arg_ptr : Z) (s : TtyServer) : Message * TtyServer :=
  match open_tty pid fd s with
  | None => (err_reply (-25), s)
  | Some (i, slot, e) =>
      if cmd =? TCGETS then
        if arg_ptr =? 0 then (err_reply (-14), s)
        else (ok_reply, on_ty_mem (mem_write arg_ptr (termios_bytes (y_termios e))) s)
      else if (cmd =? TCSETS) || (cmd =? TCSETSW) || (cmd =? TCSETSF) then
        if arg_ptr =? 0 then (err_reply (-14), s)
        else (ok_reply, set_tty i slot (mkTty (y_kind e) (y_in_use e) (read_termios (ty_mem s) arg_ptr)) s)
      else if cmd =? TIOCGWINSZ then
        if arg_ptr =? 0 then (err_reply (-14), s)
        else (ok_reply, on_ty_mem (mem_write arg_ptr winsize) s)
      else (err_reply (-25), s)
  end.

Definition tty_handle_close (pid fd : Z) (s : TtyServer) : outcome (Message * TtyServer) :=
  match fd_to_slot fd with
  | None => Ret (err_reply (-9), s)
  | Some _ =>
      match open_tty pid fd s with
      | None => Ret (ok_reply, s)
      | Some (i, slot, e) =>
          match y_kind e with
          | PtsMaster pr =>
              match ty_pairs s !! pr with
              | None => Panic
              | Some p => Ret (ok_reply, set_pairs (<[pr := mkPair false (m_to_s p) (s_to_m p)]> (ty_pairs s)) s)
              end
          | _ => Ret (ok_reply, set_tty i slot TtyEntry_empty s)
          end
      end
  end.

Definition tty_handle_isatty (pid fd : Z) (s : TtyServer) : Message :=
  match open_tty pid fd s with
  | Some (_, _, e) => match y_kind e with TNone => val_reply 0 | _ => val_reply 1 end
  | None => val_reply 0
  end.

(** ** POSIX timers *)

Definition timers_of (pid : Z) (t : ProcTimerTable) : bool := pt_in_use t && (pt_pid t =? pid).

Definition timer_handle_create (pid signo timerid_ptr : Z) (s : TtyServer) : Message * TtyServer :=
  let l := ty_timers s in
  match (match position (timers_of pid) l with
         | Some i => Some i
         | None => position (λ t, negb (pt_in_use t)) l
         end) with
  | None => (err_reply (-12), s)
  | Some i =>
      match l !! i with
      | None => (err_reply (-12), s)
      | Some t =>
          match position (λ x, negb (tm_in_use x)) (pt_timers t) with
          | None => (err_reply (-11), set_timer_tables (<[i := mkTimerTbl pid (pt_timers t) true]> l) s)
          | Some slot =>
              let t' := mkTimerTbl pid (<[slot := mkTimer true signo 0 0 pid]> (pt_timers t)) true in
              let s := set_timer_tables (<[i := t']> l) s in
              (ok_reply, if timerid_ptr =? 0 then s
                         else on_ty_mem (mem_write timerid_ptr (le_encode 4 (Z.of_nat slot))) s)
          end
      end
  end.

Definition TICK_HZ : Z := 100.
Definition NSEC_PER_TICK : Z := 1000000000 / TICK_HZ.

(** The timespec at [p], in ticks. *)
Definition timespec_ticks (m : mem) (p : Z) : Z :=
  wadd (wmul (read_u64 m p) TICK_HZ) (read_u64 m (p + 8) / NSEC_PER_TICK).

(** The caller's timer, with its table and slot. *)
Definition own_timer (pid timerid : Z) (s : TtyServer) : option (nat * PosixTimer) :=
  i ← position (timers_of pid) (ty_timers s);
  t ← ty_timers s !! i;
  x ← pt_timers t !! Z.to_nat timerid;
  if (timerid <? MAX_TIMERS) && tm_in_use x then Some (i, x) else None.

Definition put_timer (i : nat) (timerid : Z) (x : PosixTimer) (s : TtyServer) : TtyServer :=
  set_timer_tables
    (alter (λ t, mkTimerTbl (pt_pid t) (<[Z.to_nat timerid := x]> (pt_timers t)) (pt_in_use t)) i (ty_timers s)) s.

Definition timer_handle_settime (now pid timerid ispec_ptr : Z) (s : TtyServer) : Message * TtyServer :=
  if ispec_ptr =? 0 then (err_reply (-14), s)
  else
    let interval_ticks := timespec_ticks (ty_mem s) ispec_ptr in
    let value_ticks := timespec_ticks (ty_mem s) (ispec_ptr + 16) in
    match own_timer pid timerid s with
    | Some (i, x) =>
        let deadline := if 0 <? value_ticks then wadd now value_ticks else 0 in
        (ok_reply, put_timer i timerid (mkTimer (tm_in_use x) (tm_signo x) interval_ticks deadline (tm_owner_pid x)) s)
    | None => (ok_reply, s)
    end.

(** A tick count as the bytes of a timespec. *)
Definition timespec_bytes (ticks : Z) : list Z :=
  le_encode 8 (ticks / TICK_HZ) ++ le_encode 8 (wmul (ticks mod TICK_HZ) NSEC_PER_TICK).

Definition timer_handle_gettime (now pid timerid ospec_ptr : Z) (s : TtyServer) : Message * TtyServer :=
  if ospec_ptr =? 0 then (err_reply (-14), s)
  else
    match own_timer pid timerid s with
    | Some (_, x) =>
        let remaining := if now <? tm_deadline x then tm_deadline x - now else 0 in
        (ok_reply, on_ty_mem (mem_write ospec_ptr (timespec_bytes (tm_interval x) ++ timespec_bytes remaining)) s)
    | None => (err_reply (-22), s)
    end.

Definition timer_handle_delete (pid timerid : Z) (s : TtyServer) : Message * TtyServer :=
  match position (timers_of pid) (ty_timers s) with
  | Some i => (ok_reply, if timerid <? MAX_TIMERS then put_timer i timerid PosixTimer_new s else s)
  | None => (ok_reply, s)
  end.

(** Is the timer due, and what becomes of it then. *)
Definition due (now : Z) (x : PosixTimer) : bool :=
  tm_in_use x && negb (tm_deadline x =? 0) && (tm_deadline x <=? now).

Definition rearm (x : PosixTimer) : PosixTimer :=
  mkTimer (tm_in_use x) (tm_signo x) (tm_interval x)
    (if 0 <? tm_interval x then wadd (tm_deadline x) (tm_interval x) else 0) (tm_owner_pid x).

Fixpoint check_timers_loop (now : Z) (l : list PosixTimer) (s : Sched) : list PosixTimer * Sched :=
  match l with
  | [] => ([], s)
  | x :: l' =>
      if due now x then
        let '(_, s) := deliver_signal (tm_owner_pid x) (tm_signo x) s in
        let '(l'', s) := check_timers_loop now l' s in (rearm x :: l'', s)
      else let '(l'', s) := check_timers_loop now l' s in (x :: l'', s)
  end.

Definition check_timers (pid : Z) (ys : TtyServer * Sched) : TtyServer * Sched :=
  let '(y, s) := ys in
  match i ← position (timers_of pid) (ty_timers y); t ← ty_timers y !! i; Some (i, t) with
  | None => (y, s)
  | Some (i, t) =>
      let '(l, s) := check_timers_loop (ticks s) (pt_timers t) s in
      (set_timer_tables (<[i := mkTimerTbl (pt_pid t) l (pt_in_use t)]> (ty_timers y)) y, s)
  end.

Definition tty_close_all (pid : Z) (y : TtyServer) : TtyServer :=
  let y := match find_tty pid (ty_ttys y) with
           | Some i => set_ttys (<[i := ProcTtyTable_empty]> (ty_ttys y)) y | None => y end in
  match position (timers_of pid) (ty_timers y) with
  | Some i => set_timer_tables (<[i := ProcTimerTable_empty]> (ty_timers y)) y
  | None => y
  end.

(** The dispatch; [now] is [sched::ticks()]. *)
Definition tty_handle (now : Z) (msg : Message) (caller_pid : Z) (y : TtyServer) : outcome (Message * TtyServer) :=
  let a0 := arg msg 0 in
  let a1 := arg msg 1 in
  let a2 := arg msg 2 in
  let t := tag msg in
  if t =? TTY_OPEN then Ret (tty_handle_open caller_pid a0 y)
  else if t =? TTY_READ then tty_handle_read caller_pid a0 a1 a2 y
  else if t =? TTY_WRITE then tty_handle_write caller_pid a0 a1 a2 y
  else if t =? TTY_IOCTL then Ret (tty_handle_ioctl caller_pid a0 a1 a2 y)
  else if t =? TTY_CLOSE then tty_handle_close caller_pid a0 y
  else if t =? TTY_ISATTY then Ret (tty_handle_isatty caller_pid a0 y, y)
  else if t =? TIMER_CREATE then Ret (timer_handle_create caller_pid (u32 a0) a1 y)
  else if t =? TIMER_SETTIME then Ret (timer_handle_settime now caller_pid a0 a1 y)
  else if t =? TIMER_GETTIME then Ret (timer_handle_gettime now caller_pid a0 a1 y)
  else if t =? TIMER_DELETE then Ret (timer_handle_delete caller_pid a0 y)
  else Ret (err_reply (-38), y).

(** ** Timers fire when they are due *)

(** The pending signals of a process. *)
Definition pending_of (pid : Z) (s : Sched) : option Z := t_signal_pending <$> find_pid pid (sc_rq s).
Definition is_pending (pid signo : Z) (s : Sched) : Prop :=
  ∃ m, pending_of pid s = Some m ∧ Z.testbit m (signo - 1) = true.

Lemma has_pid_insert_same pid rq i t t' : tasks rq !! i = Some (Some t) → t_pid t' = t_pid t →
  position (has_pid pid) (<[i := Some t']> (tasks rq)) = position (has_pid pid) (tasks rq).
Proof.
  intros Hi Hp. generalize dependent i. induction (tasks rq) as [|o l IH]; intros i Hi; [done|].
  destruct i as [|i]; simpl in *; [simplify_eq; simpl; by rewrite Hp|]. by rewrite (IH _ Hi).
Qed.

(** The tasks under a PID after a change under another, or the same, PID. *)
Lemma find_pid_update p q f s : (∀ t, t_pid (f t) = t_pid t) →
  find_pid q (sc_rq (update_pid p f s)) =
    if q =? p then f <$> find_pid p (sc_rq s) else find_pid q (sc_rq s).
Proof.
  intros Hf. unfold update_pid, on_rq, at_pid, find_pid_idx. cbn [sc_rq].
  destruct (position (has_pid p) (tasks (sc_rq s))) as [i|] eqn:Hi.
  2: { case_bool; [subst q|done]. unfold find_pid, find_first. by rewrite Hi. }
  apply position_Some in Hi as Hs. destruct Hs as (o & Ho & Hp & _). destruct o as [t|]; [|done].
  simpl in Hp. to_prop. unfold at_idx. rewrite Ho. unfold find_pid, find_first. cbn [tasks on_tasks].
  rewrite (has_pid_insert_same q (sc_rq s) i t (f t) Ho (Hf t)).
  pose proof (lookup_lt_Some _ _ _ Ho) as Hlt. case_bool.
  - subst q. rewrite Hi. simpl. rewrite list_lookup_insert_eq by done. by rewrite Ho.
  - destruct (position (has_pid q) (tasks (sc_rq s))) as [j|] eqn:Hj; [|done]. simpl.
    destruct (decide (i = j)) as [->|Hne]; [|by rewrite list_lookup_insert_ne].
    apply position_Some in Hj as (o' & Ho' & Hq & _). rewrite Ho in Ho'. simplify_eq. simpl in Hq. lia.
Qed.

(** A timer whose signal exists. *)
Definition sends (now q b : Z) (x : PosixTimer) : bool :=
  due now x && (tm_owner_pid x =? q) && (1 <=? tm_signo x) && (tm_signo x <=? 64) && (tm_signo x - 1 =? b).

Lemma deliver_pending p signo s q m : pending_of q s = Some m →
  pending_of q (deliver_signal p signo s).2 =
    Some (if (q =? p) && (1 <=? signo) && (signo <=? 64) then Z.lor m (signal_bit signo) else m).
Proof.
  intros Hm. unfold deliver_signal. destruct (find_pid p (sc_rq s)) as [t|] eqn:Ht.
  2: { destruct (Z.eqb_spec q p) as [->|]; [|done]. unfold pending_of in Hm. by rewrite Ht in Hm. }
  destruct ((0 <? signo) && (signo <=? 64)) eqn:Hv; cbn [snd].
  - unfold pending_of. rewrite find_pid_update.
    2: { intros t'. unfold wake_blocked. by case_bool_decide. }
    to_prop. case_bool; to_prop.
    + subst q. unfold pending_of in Hm. rewrite Ht in *. simpl in *. simplify_eq.
      rewrite (proj2 (Z.leb_le 1 signo)), (proj2 (Z.leb_le signo 64)) by lia. cbn [andb].
      unfold wake_blocked. by case_bool_decide.
    + exact Hm.
  - rewrite Hm. f_equal. case_bool; [|done]. to_prop. lia.
Qed.

Lemma testbit_signal_bit signo b : 1 ≤ signo → 0 ≤ b → Z.testbit (signal_bit signo) b = (signo - 1 =? b).
Proof.
  intros Hs Hb. unfold signal_bit. rewrite Z.shiftl_1_l. destruct (Z.eqb_spec (signo - 1) b) as [->|Hne].
  - by apply Z.pow2_bits_true.
  - by apply Z.pow2_bits_false.
Qed.

(** One pass over the timers: the due ones are rearmed and send their signals,
    and no other signal is sent. *)
Lemma check_timers_loop_spec now l s l' s' : check_timers_loop now l s = (l', s') →
  l' = (λ x, if due now x then rearm x else x) <$> l ∧ ticks s' = ticks s ∧
  ∀ q m, pending_of q s = Some m → ∃ m', pending_of q s' = Some m' ∧
    ∀ b, 0 ≤ b → Z.testbit m' b = Z.testbit m b || existsb (sends now q b) l.
Proof.
  revert s l' s'. induction l as [|x l IH]; intros s l' s' Hrun; simpl in Hrun.
  { simplify_eq. split_and!; [done..|]. intros q m Hm. exists m. split; [done|]. intros b _. by rewrite orb_false_r. }
  destruct (due now x) eqn:Hd.
  - destruct (deliver_signal _ _ s) as [r s1] eqn:Hs1. destruct (check_timers_loop now l s1) as [l1 s2] eqn:Hl.
    simplify_eq. destruct (IH _ _ _ Hl) as (-> & Ht & Hp). simpl. rewrite Hd. split_and!; [done| |].
    + rewrite Ht. unfold deliver_signal in Hs1. repeat case_match; by simplify_eq.
    + intros q m Hm. pose proof (deliver_pending (tm_owner_pid x) (tm_signo x) s q m Hm) as Hq. rewrite Hs1 in Hq.
      destruct (Hp _ _ Hq) as (m' & Hm' & Hbits). exists m'. split; [done|]. intros b Hb. rewrite Hbits by done.
      rewrite orb_assoc. f_equal. unfold sends. rewrite Hd, (Z.eqb_sym q). cbn [andb].
      destruct ((tm_owner_pid x =? q) && (1 <=? tm_signo x) && (tm_signo x <=? 64)) eqn:Hv;
        [|by rewrite orb_false_r]. to_prop.
      rewrite Z.lor_spec, testbit_signal_bit by lia. done.
  - destruct (check_timers_loop now l s) as [l1 s2] eqn:Hl. simplify_eq. destruct (IH _ _ _ Hl) as (-> & Ht & Hp).
    simpl. rewrite Hd. split_and!; [done..|]. intros q m Hm. destruct (Hp _ _ Hm) as (m' & Hm' & Hbits).
    exists m'. split; [done|]. intros b Hb. rewrite Hbits by done. unfold sends at 2. by rewrite Hd.
Qed.

(** The timers of a process. *)
Definition timers_in (pid : Z) (y : TtyServer) : list PosixTimer :=
  default [] (i ← position (timers_of pid) (ty_timers y); t ← ty_timers y !! i; Some (pt_timers t)).

Lemma position_timers_insert pid l i t t' : position (timers_of pid) l = Some i → l !! i = Some t →
  pt_pid t' = pt_pid t → pt_in_use t' = pt_in_use t → position (timers_of pid) (<[i := t']> l) = Some i.
Proof.
  intros Hi Ht Hp Hu. apply position_Some in Hi as (x & Hx & Hb & Hmin). assert (x = t) as -> by congruence. apply position_Some.
  exists t'. pose proof (lookup_lt_Some _ _ _ Ht). split_and!; [by apply list_lookup_insert_eq| |].
  - unfold timers_of in *. by rewrite Hp, Hu.
  - intros j y Hj Hy. rewrite list_lookup_insert_ne in Hy by lia. by eapply Hmin.
Qed.

(** What [own_timer] finds. *)
Lemma own_timer_Some pid timerid y i x : own_timer pid timerid y = Some (i, x) ↔
  timerid < MAX_TIMERS ∧ tm_in_use x = true ∧ ∃ t, position (timers_of pid) (ty_timers y) = Some i ∧
    ty_timers y !! i = Some t ∧ pt_timers t !! Z.to_nat timerid = Some x.
Proof.
  unfold own_timer. destruct (position _ _) as [j|]; simpl; [|naive_solver].
  destruct (ty_timers y !! j) as [t|] eqn:Ht; simpl; [|naive_solver congruence].
  destruct (pt_timers t !! _) as [z|] eqn:Hz; simpl; [|naive_solver congruence].
  destruct ((timerid <? MAX_TIMERS) && tm_in_use z) eqn:Hb.
  - to_prop. naive_solver congruence.
  - apply andb_false_iff in Hb. rewrite Z.ltb_ge in Hb. naive_solver (try lia; congruence).
Qed.

(** A timer is replaced in its own table. *)
Lemma own_timer_put pid timerid y i x x' : own_timer pid timerid y = Some (i, x) → tm_in_use x' = true →
  own_timer pid timerid (put_timer i timerid x' y) = Some (i, x').
Proof.
  intros (Hlt & Hu & t & Hi & Ht & Hx)%own_timer_Some Hu'. apply own_timer_Some. split_and!; [done..|].
  unfold put_timer. cbn [ty_timers set_timer_tables]. rewrite (alter_insert _ _ _ _ Ht). eexists. split_and!.
  - by eapply position_timers_insert.
  - apply list_lookup_insert_eq. by eapply lookup_lt_Some.
  - simpl. apply list_lookup_insert_eq. by eapply lookup_lt_Some.
Qed.

(** The caller's timers after a check. *)
Lemma check_timers_own pid timerid y s i x m : own_timer pid timerid y = Some (i, x) →
  let '(y', s') := check_timers pid (y, s) in
  own_timer pid timerid y' = Some (i, if due (ticks s) x then rearm x else x) ∧
  (pending_of pid s = Some m → ∃ m', pending_of pid s' = Some m' ∧
    ∀ b, 0 ≤ b → Z.testbit m' b = Z.testbit m b || existsb (sends (ticks s) pid b) (timers_in pid y)).
Proof.
  intros (Hlt & Hu & t & Hi & Ht & Hx)%own_timer_Some. unfold check_timers, timers_in. rewrite Hi. simpl. rewrite Ht. simpl.
  destruct (check_timers_loop (ticks s) (pt_timers t) s) as [l s'] eqn:Hl.
  destruct (check_timers_loop_spec _ _ _ _ _ Hl) as (-> & _ & Hp). split; [|apply Hp].
  apply own_timer_Some. split_and!; [done|by case_bool|]. eexists. split_and!.
  - by eapply position_timers_insert.
  - apply list_lookup_insert_eq. by eapply lookup_lt_Some.
  - simpl. by rewrite list_lookup_fmap, Hx.
Qed.

(** The timer is among them. *)
Lemma timers_in_own pid timerid y i x : own_timer pid timerid y = Some (i, x) → x ∈ timers_in pid y.
Proof.
  intros (_ & _ & t & Hi & Ht & Hx)%own_timer_Some. unfold timers_in. rewrite Hi. simpl. rewrite Ht. simpl.
  by eapply list_elem_of_lookup_2.
Qed.

(** A timer that is armed at tick [T] for [v] ticks, when its process's
    timers are checked at some later tick, has fired exactly if [T + v] ticks
    have passed: before, it stays armed; from then on its signal is pending for
    the process, and the timer is disarmed or, if it has an interval, armed for
    an interval later.  The check makes no signal pending but those of timers
    that are due, and takes none away. *)
Theorem timer_expiry T pid timerid p y i x s m :
  own_timer pid timerid y = Some (i, x) → tm_owner_pid x = pid → 1 ≤ tm_signo x ≤ 64 → p ≠ 0 → 0 ≤ T →
  let v := timespec_ticks (ty_mem y) (p + 16) in
  let interval := timespec_ticks (ty_mem y) p in
  0 < v → T + v < 2^64 → pending_of pid s = Some m →
  let y1 := (timer_handle_settime T pid timerid p y).2 in
  let '(y2, s2) := check_timers pid (y1, s) in
  (∃ x2, own_timer pid timerid y2 = Some (i, x2) ∧
     tm_deadline x2 = if ticks s <? T + v then T + v else if 0 <? interval then wadd (T + v) interval else 0) ∧
  ∃ m2, pending_of pid s2 = Some m2 ∧
    (∀ b, 0 ≤ b → Z.testbit m2 b = true ↔
       Z.testbit m b = true ∨ ∃ z, z ∈ timers_in pid y1 ∧ sends (ticks s) pid b z = true) ∧
    (T + v ≤ ticks s → Z.testbit m2 (tm_signo x - 1) = true).
Proof.
  intros Hx Ho Hs Hp HT v interval Hv Hb Hm. unfold timer_handle_settime. rewrite (proj2 (Z.eqb_neq _ _) Hp), Hx.
  fold v interval. rewrite (proj2 (Z.ltb_lt _ _) Hv), wadd_small by lia. cbn [snd].
  apply own_timer_Some in Hx as Hx'. destruct Hx' as (_ & Hu & _).
  set (x1 := mkTimer _ _ _ _ _). pose proof (own_timer_put _ _ _ _ _ x1 Hx Hu) as Hx1.
  set (y1 := put_timer i timerid x1 y) in *. cbv zeta. pose proof (check_timers_own _ _ _ s _ _ m Hx1) as Hc.
  assert (due (ticks s) x1 = (T + v <=? ticks s)) as Hd.
  { unfold due, x1. simpl. rewrite Hu, (proj2 (Z.eqb_neq _ _)) by lia. done. }
  destruct (check_timers pid (y1, s)) as [y2 s2]. destruct Hc as [Hx2 Hpend]. split.
  - eexists. split; [exact Hx2|]. rewrite Hd. destruct (Z.leb_spec (T + v) (ticks s)).
    + by rewrite (proj2 (Z.ltb_ge _ _)).
    + by rewrite (proj2 (Z.ltb_lt _ _)).
  - destruct (Hpend Hm) as (m2 & Hm2 & Hbits). exists m2. split_and!; [done| |].
    + intros b Hb0. rewrite Hbits, orb_true_iff, existsb_exists by done. by setoid_rewrite <- list_elem_of_In.
    + intros Hlate. rewrite Hbits by lia. apply orb_true_iff. right. apply existsb_exists. exists x1.
      split; [by apply list_elem_of_In, (timers_in_own _ _ _ _ _ Hx1)|]. unfold sends. rewrite Hd. simpl.
      rewrite Ho, !andb_true_iff, !Z.leb_le, !Z.eqb_eq. lia.
Qed.

(** A task 7 with a timer for signal 14, and 50 ms at 0x1010. *)
Definition timer_demo : TtyServer :=
  (timer_handle_create 7 14 0 (TtyServer_init (mem_write 0x1000 (le_encode 8 0 ++ le_encode 8 0 ++ le_encode 8 0 ++ le_encode 8 50000000) (λ _, 0)))).2.

Definition timer_sched : Sched :=
  mkSched (mkRQ (<[0%nat := Some (new_kernel 7 0 0 0 0)]> (replicate MAX_TASKS None)) 1 0) 8 105 false [] 0 7
    (Some 0%nat) (mkKmem Buddy.Buddy_init 0 (λ _, 0) 0).

Lemma timer_expiry_witness :
  let y1 := (timer_handle_settime 100 7 0 0x1000 timer_demo).2 in
  let '(y2, s2) := check_timers 7 (y1, timer_sched) in
  (∃ x2, own_timer 7 0 y2 = Some (0%nat, x2) ∧
     tm_deadline x2 = if ticks timer_sched <? 100 + 5 then 100 + 5 else if 0 <? 0 then wadd (100 + 5) 0 else 0) ∧
  ∃ m2, pending_of 7 s2 = Some m2 ∧
    (∀ b, 0 ≤ b → Z.testbit m2 b = true ↔
       Z.testbit 0 b = true ∨ ∃ z, z ∈ timers_in 7 y1 ∧ sends (ticks timer_sched) 7 b z = true) ∧
    (100 + 5 ≤ ticks timer_sched → Z.testbit m2 (14 - 1) = true).
Proof.
  apply (timer_expiry 100 7 0 0x1000 timer_demo 0 (mkTimer true 14 0 0 7) timer_sched 0);
    try reflexivity; vm_compute; intuition discriminate.
Defined.
