(* ===== verification/TtyPty.v ===== *)
(** * Pseudo terminals

    The two directions of a pair of pseudo terminals are independent queues of
    at most 4096 bytes: what an end reads is what the other end wrote, in order. *)

From stdpp Require Import base list option numbers.
From Stdlib Require Import ZArith Lia.
From S2P Require Import Prelude Words Rings Memory IpcPort VfsData VfsPipe Tty.

Local Open Scope Z_scope.

(** ** The ring as a queue *)

Record tb_ok (b : TtyBuf) : Prop := {
  bo_data : length (b_data b) = TTY_BUF;
  bo_rpos : (b_rpos b < TTY_BUF)%nat;
  bo_count : (b_count b ≤ TTY_BUF)%nat;
  bo_wpos : b_wpos b = ((b_rpos b + b_count b) mod TTY_BUF)%nat
}.

(** The bytes in the ring, oldest first. *)
Definition tb_bytes (b : TtyBuf) : list Z := cslice (b_data b) (b_rpos b) (b_count b).

Lemma TTY_BUF_Z : Z.of_nat TTY_BUF = 4096.
Proof. reflexivity. Qed.

Lemma TTY_BUF_pos : (0 < TTY_BUF)%nat.
Proof. unfold TTY_BUF. lia. Qed.

#[local] Opaque TTY_BUF.

Lemma TtyBuf_new_ok : tb_ok TtyBuf_new.
Proof.
  pose proof TTY_BUF_pos. split; simpl; [apply length_replicate|lia|lia|]. symmetry. by apply Nat.mod_small.
Qed.

Lemma length_tb_bytes b : tb_ok b → length (tb_bytes b) = b_count b.
Proof. intros [Hd _ _ _]. apply length_cslice. rewrite Hd. apply TTY_BUF_pos. Qed.

Lemma tb_write_spec x b : tb_ok b →
  match tb_write x b with
  | (true, b') => (b_count b < TTY_BUF)%nat ∧ tb_ok b' ∧ tb_bytes b' = tb_bytes b ++ [x] ∧ b_count b' = S (b_count b)
  | (false, b') => b' = b ∧ b_count b = TTY_BUF
  end.
Proof.
  intros [Hd Hr Hc Hw]. pose proof TTY_BUF_pos. unfold tb_write. case_bool; [split; [done|lia]|].
  split_and!; [done| | |simpl; lia].
  - split; simpl; [by rewrite length_insert|done|lia|]. rewrite Hw, Nat.Div0.add_mod_idemp_l. f_equal. lia.
  - unfold tb_bytes. cbn [b_data b_rpos b_count]. rewrite Hw, Nat.add_1_r, <- Hd. apply cslice_push. lia.
Qed.

Lemma tb_read_spec b : tb_ok b →
  match tb_read b with
  | (Some x, b') => tb_ok b' ∧ tb_bytes b = x :: tb_bytes b'
  | (None, b') => b' = b ∧ tb_bytes b = []
  end.
Proof.
  intros [Hd Hr Hc Hw]. unfold tb_read. pose proof TTY_BUF_pos. destruct (Nat.eqb_spec (b_count b) 0) as [Hz|Hz].
  - split; [done|]. unfold tb_bytes. by rewrite Hz.
  - destruct (lookup_lt_is_Some_2 (b_data b) (b_rpos b)) as [x Hx]; [lia|]. rewrite Hx. split.
    + split; simpl; [done|apply Nat.mod_upper_bound; lia|lia|].
      rewrite Hw, Nat.Div0.add_mod_idemp_l. f_equal. lia.
    + unfold tb_bytes. cbn [b_data b_rpos b_count]. destruct (b_count b) as [|n] eqn:Hn; [lia|].
      rewrite (cslice_pop _ _ _ x); [|lia|by rewrite Hd, Nat.mod_small by lia].
      rewrite <- Hd, cslice_mod, Nat.add_1_r by lia. by rewrite Nat.sub_succ, Nat.sub_0_r.
Qed.

Lemma tb_write_loop_spec xs b n b' : tb_ok b → tb_write_loop xs b = (n, b') →
  tb_ok b' ∧ n = Nat.min (length xs) (TTY_BUF - b_count b) ∧ tb_bytes b' = tb_bytes b ++ take n xs.
Proof.
  revert b n b'. induction xs as [|x xs IH]; intros b n b' Hb Hp; simpl in Hp.
  { simplify_eq. simpl. by rewrite app_nil_r. }
  pose proof (tb_write_spec x b Hb) as Hs. destruct (tb_write x b) as [[] b1].
  - destruct Hs as (Hc & Hb1 & Hbs & Hc'). destruct (tb_write_loop xs b1) as [k b2] eqn:Hl. simplify_eq.
    destruct (IH b1 k b' Hb1 Hl) as (Hb' & -> & Hbs'). split; [done|]. split; [cbn [length]; lia|].
    rewrite Hbs', Hbs, <- app_assoc. done.
  - destruct Hs as [-> Hc]. simplify_eq. split; [done|]. split; [lia|]. by rewrite take_0, app_nil_r.
Qed.

Lemma tb_read_loop_spec k b xs b' : tb_ok b → tb_read_loop k b = (xs, b') →
  tb_ok b' ∧ tb_bytes b = xs ++ tb_bytes b' ∧ xs = take k (tb_bytes b).
Proof.
  revert b xs b'. induction k as [|k IH]; intros b xs b' Hb Hg; simpl in Hg.
  { simplify_eq. by rewrite take_0. }
  pose proof (tb_read_spec b Hb) as Hs. destruct (tb_read b) as [[x|] b1].
  - destruct Hs as [Hb1 Hbs]. destruct (tb_read_loop k b1) as [ys b2] eqn:Hl. simplify_eq.
    destruct (IH b1 ys b' Hb1 Hl) as (Hb' & E & ->). rewrite Hbs. simpl. split_and!; [done| |done]. by rewrite <- E.
  - destruct Hs as [-> Hbs]. simplify_eq. rewrite Hbs. by rewrite take_nil.
Qed.

(** ** The two ends of a pair *)

(** A read or write at the master ([true]) or the slave, with the memory of the
    caller, the buffer and the count. *)
Inductive pty_op := PtyWrite (master : bool) (m : mem) (buf count : Z) | PtyRead (master : bool) (m : mem) (buf count : Z).

Definition pty_count (o : pty_op) : Z := match o with PtyWrite _ _ _ n | PtyRead _ _ _ n => n end.

(** The bytes of both directions: from the master, from the slave. *)
Definition both (master : bool) (bs : list Z) : list Z * list Z := if master then (bs, []) else ([], bs).
Definition app2 (x y : list Z * list Z) : list Z * list Z := (x.1 ++ y.1, x.2 ++ y.2).

Lemma app2_assoc x y z : app2 x (app2 y z) = app2 (app2 x y) z.
Proof. unfold app2. simpl. by rewrite !app_assoc. Qed.
Lemma app2_nil_r x : app2 x ([], []) = x.
Proof. destruct x. unfold app2. simpl. by rewrite !app_nil_r. Qed.
Lemma app2_nil_l x : app2 ([], []) x = x.
Proof. by destruct x. Qed.

Section pair.
Context (pm fm ps fs : Z) (i : nat).

(** The bytes that a write says it took and those a read says it gave, each
    under the direction they travel in. *)
Definition pty_step (o : pty_op) (y : TtyServer) : outcome ((list Z * list Z) * (list Z * list Z) * TtyServer) :=
  match o with
  | PtyWrite master m buf count =>
      match tty_handle_write (if master then pm else ps) (if master then fm else fs) buf count (on_ty_mem (λ _, m) y) with
      | Ret (r, y') => Ret (both master (mem_read m buf (vfs_reply_val r)), ([], []), y')
      | Panic => Panic
      end
  | PtyRead master m buf count =>
      match tty_handle_read (if master then pm else ps) (if master then fm else fs) buf count (on_ty_mem (λ _, m) y) with
      | Ret (r, y') => Ret (([], []), both (negb master) (mem_read (ty_mem y') buf (vfs_reply_val r)), y')
      | Panic => Panic
      end
  end.

Fixpoint pty_run (ops : list pty_op) (y : TtyServer) : outcome ((list Z * list Z) * (list Z * list Z) * TtyServer) :=
  match ops with
  | [] => Ret (([], []), ([], []), y)
  | o :: ops' =>
      match pty_step o y with
      | Panic => Panic
      | Ret (w, d, y') =>
          match pty_run ops' y' with
          | Panic => Panic
          | Ret (ws, ds, y'') => Ret (app2 w ws, app2 d ds, y'')
          end
      end
  end.

(** Both ends of pair [i] are open, and its rings hold [q.1] and [q.2]. *)
Record pty_state (y : TtyServer) (q : list Z * list Z) : Prop := {
  pt_master : ∃ a b e, open_tty pm fm y = Some (a, b, e) ∧ y_kind e = PtsMaster i;
  pt_slave : ∃ a b e, open_tty ps fs y = Some (a, b, e) ∧ y_kind e = PtsSlave i;
  pt_rings : ∃ p, ty_pairs y !! i = Some p ∧ tb_ok (m_to_s p) ∧ tb_ok (s_to_m p) ∧ tb_bytes (m_to_s p) = q.1 ∧ tb_bytes (s_to_m p) = q.2
}.

Lemma pty_state_update y q y' p' q' : pty_state y q → ty_ttys y' = ty_ttys y → ty_pairs y' = <[i := p']> (ty_pairs y) →
  tb_ok (m_to_s p') → tb_ok (s_to_m p') → tb_bytes (m_to_s p') = q'.1 → tb_bytes (s_to_m p') = q'.2 → pty_state y' q'.
Proof.
  intros [(a & b & e & Ho & Hk) (a' & b' & e' & Ho' & Hk') (p & Hp & _)] Ht Hpp H1 H2 H3 H4.
  assert (∀ pid fd, open_tty pid fd y' = open_tty pid fd y) as Hsame by (intros; unfold open_tty; by rewrite Ht).
  split; [exists a, b, e; by rewrite Hsame|exists a', b', e'; by rewrite Hsame|].
  exists p'. rewrite Hpp, list_lookup_insert_eq by (by eapply lookup_lt_Some). done.
Qed.

(** One ring of the pair is written, resp. read. *)
Lemma write_ring_spec get set m buf count y p : ty_pairs y !! i = Some p → tb_ok (get p) → 0 ≤ count →
  ∃ n b', write_ring i get set buf count (on_ty_mem (λ _, m) y) =
      Ret (val_reply (Z.of_nat n), set_pairs (<[i := set b' p]> (ty_pairs y)) (on_ty_mem (λ _, m) y)) ∧
    (n ≤ TTY_BUF)%nat ∧ tb_ok b' ∧ tb_bytes b' = tb_bytes (get p) ++ mem_read m buf (Z.of_nat n).
Proof.
  intros Hp Hok Hc. unfold write_ring. cbn [ty_pairs on_ty_mem ty_mem]. rewrite Hp.
  destruct (tb_write_loop _ (get p)) as [n b'] eqn:Hl. destruct (tb_write_loop_spec _ _ _ _ Hok Hl) as (Hok' & Hn & Hb).
  rewrite length_mem_read in Hn. exists n, b'. split_and!; [done|lia|done|]. rewrite Hb. f_equal.
  apply list_eq. intros j. destruct (decide (j < n)%nat) as [Hj|Hj].
  - rewrite lookup_take_lt by done. rewrite !lookup_mem_read. by rewrite !decide_True by lia.
  - rewrite !lookup_ge_None_2; [done|rewrite length_mem_read; lia|rewrite length_take, length_mem_read; lia].
Qed.

Lemma read_ring_spec get set m buf count y p : ty_pairs y !! i = Some p → tb_ok (get p) →
  ∃ xs b', read_ring i get set buf count (on_ty_mem (λ _, m) y) =
      Ret (val_reply (Z.of_nat (length xs)),
           on_ty_mem (mem_write buf xs) (set_pairs (<[i := set b' p]> (ty_pairs y)) (on_ty_mem (λ _, m) y))) ∧
    (length xs ≤ TTY_BUF)%nat ∧ tb_ok b' ∧ tb_bytes (get p) = xs ++ tb_bytes b'.
Proof.
  intros Hp Hok. unfold read_ring. cbn [ty_pairs on_ty_mem]. rewrite Hp.
  destruct (tb_read_loop _ (get p)) as [xs b'] eqn:Hl. destruct (tb_read_loop_spec _ _ _ _ Hok Hl) as (Hok' & Hb & Hxs).
  exists xs, b'. split_and!; [done| |done|done]. pose proof (length_tb_bytes _ Hok). pose proof (bo_count _ Hok).
  rewrite Hxs, length_take. lia.
Qed.

Lemma pty_step_spec o y q : pty_state y q → 0 ≤ pty_count o →
  ∃ w d y' q', pty_step o y = Ret (w, d, y') ∧ pty_state y' q' ∧ app2 q w = app2 d q'.
Proof.
  intros Hs Hc. pose proof Hs as [(a & b & e & Ho & Hk) (a' & b' & e' & Ho' & Hk') (p & Hp & H1 & H2 & Q1 & Q2)].
  assert (∀ pid fd m, open_tty pid fd (on_ty_mem m y) = open_tty pid fd y) as Hm by done.
  pose proof TTY_BUF_Z. destruct q as [q1 q2]. simpl in Q1, Q2.
  destruct o as [[] m buf count|[] m buf count]; unfold pty_step, tty_handle_write, tty_handle_read; rewrite Hm;
    first [rewrite Ho, Hk|rewrite Ho', Hk']; simpl in Hc.
  - destruct (write_ring_spec m_to_s set_m_to_s m buf count y p Hp H1 Hc) as (n & r & -> & Hn & Hr & Hb).
    rewrite vfs_reply_small by lia. eexists _, _, _, (tb_bytes r, q2). split; [done|]. split.
    + by apply (pty_state_update y (q1, q2) _ (set_m_to_s r p)).
    + unfold app2. simpl. by rewrite app_nil_r, Hb, Q1.
  - destruct (write_ring_spec s_to_m set_s_to_m m buf count y p Hp H2 Hc) as (n & r & -> & Hn & Hr & Hb).
    rewrite vfs_reply_small by lia. eexists _, _, _, (q1, tb_bytes r). split; [done|]. split.
    + by apply (pty_state_update y (q1, q2) _ (set_s_to_m r p)).
    + unfold app2. simpl. by rewrite app_nil_r, Hb, Q2.
  - destruct (read_ring_spec s_to_m set_s_to_m m buf count y p Hp H2) as (xs & r & -> & Hn & Hr & Hb).
    rewrite vfs_reply_small by lia. eexists _, _, _, (q1, tb_bytes r). split; [done|]. split.
    + by apply (pty_state_update y (q1, q2) _ (set_s_to_m r p)).
    + unfold app2. simpl. by rewrite !app_nil_r, mem_read_write, <- Hb, Q2.
  - destruct (read_ring_spec m_to_s set_m_to_s m buf count y p Hp H1) as (xs & r & -> & Hn & Hr & Hb).
    rewrite vfs_reply_small by lia. eexists _, _, _, (tb_bytes r, q2). split; [done|]. split.
    + by apply (pty_state_update y (q1, q2) _ (set_m_to_s r p)).
    + unfold app2. simpl. by rewrite !app_nil_r, mem_read_write, <- Hb, Q1.
Qed.

(** Over any sequence of reads and writes at the two ends of a pair of pseudo
    terminals, every request returns, and each direction is a queue of its own:
    what the slave has read followed by what is still in the ring is what the
    master was told was taken, and the same in the other direction. *)
Theorem pty_fifo ops y q : pty_state y q → Forall (λ o, 0 ≤ pty_count o) ops →
  ∃ written delivered y' rest, pty_run ops y = Ret (written, delivered, y') ∧
    pty_state y' rest ∧ app2 q written = app2 delivered rest.
Proof.
  revert y q. induction ops as [|o ops IH]; intros y q Hs Hops.
  { exists ([], []), ([], []), y, q. by rewrite app2_nil_r, app2_nil_l. }
  apply Forall_cons_1 in Hops as [Hop Hops]. simpl.
  destruct (pty_step_spec o y q Hs Hop) as (w & d & y1 & q1 & -> & Hs1 & E1).
  destruct (IH y1 q1 Hs1 Hops) as (ws & ds & y2 & q2 & -> & Hs2 & E2).
  eexists _, _, _, q2. split; [done|]. split; [done|]. by rewrite app2_assoc, E1, <- !app2_assoc, E2.
Qed.
End pair.

(** Process 7 opens a master and process 8 its slave. *)
Definition pty_demo : TtyServer :=
  (tty_handle_open 8 2 (tty_handle_open 7 1 (TtyServer_init (λ a, a mod 256))).2).2.

Lemma pty_fifo_witness :
  ∃ written delivered y' rest,
    pty_run 7 0x200 8 0x200 [PtyWrite true (λ a, a mod 256) 100 3; PtyRead false (λ _, 0) 200 2] pty_demo =
      Ret (written, delivered, y') ∧
    pty_state 7 0x200 8 0x200 0 y' rest ∧ app2 ([], []) written = app2 delivered rest.
Proof.
  apply (pty_fifo 7 0x200 8 0x200 0
           [PtyWrite true (λ a, a mod 256) 100 3; PtyRead false (λ _, 0) 200 2] pty_demo ([], [])).
  - split; [do 3 eexists; split; reflexivity|do 3 eexists; split; reflexivity|].
    exists (mkPair true TtyBuf_new TtyBuf_new). split_and!; [reflexivity|apply TtyBuf_new_ok|apply TtyBuf_new_ok|done|done].
  - repeat constructor; done.
Defined.

(** Closing a master only marks its pair as free: the descriptor stays open on it,
    and so does the slave, while the next master gets the same pair. *)
Lemma closed_master_shares_pair y pid fd a b e i p : open_tty pid fd y = Some (a, b, e) → y_kind e = PtsMaster i →
  ty_pairs y !! i = Some p → (∀ j x, (j < i)%nat → ty_pairs y !! j = Some x → pp_in_use x = true) →
  ∃ y', tty_handle_close pid fd y = Ret (ok_reply, y') ∧ open_tty pid fd y' = Some (a, b, e) ∧
    fst (tty_open_kind 1 y') = Ok (PtsMaster i).
Proof.
  intros Ho Hk Hp Hmin. unfold tty_handle_close. assert (∃ k, fd_to_slot fd = Some k) as [k Hfd].
  { unfold open_tty in Ho. destruct (fd_to_slot fd); [by eexists|done]. }
  rewrite Hfd, Ho, Hk, Hp. eexists. split; [done|]. split; [exact Ho|]. unfold tty_open_kind. cbn [Z.eqb Pos.eqb ty_pairs set_pairs].
  pose proof (lookup_lt_Some _ _ _ Hp).
  replace (position _ _) with (Some i); [done|]. symmetry. apply position_Some. eexists.
  split; [by apply list_lookup_insert_eq|]. split; [done|]. intros j x Hj Hx.
  rewrite list_lookup_insert_ne in Hx by lia. by rewrite (Hmin j x Hj Hx).
Qed.
