(* ===== verification/Net.v ===== *)
(** * The network server (src/servers/net/src/lib.rs)

    Sockets of the families AF_UNIX and AF_INET (loopback only).  A connection is
    a slot of [UNIX_CONNS] with one ring per direction; a socket refers to it by
    its index and the side it is on.  Every handler of the server is modelled,
    with the dispatch on the request tag. *)

From stdpp Require Import base list option numbers.
From Stdlib Require Import ZArith Lia.
From S2P Require Import Prelude Words Rings Memory IpcPort VfsData VfsPipe.

Local Open Scope Z_scope.

(** ** Data *)

Module NetTags.
Definition NET_SOCKET : Z := 0x30.
Definition NET_BIND : Z := 0x31.
Definition NET_LISTEN : Z := 0x32.
Definition NET_ACCEPT : Z := 0x33.
Definition NET_CONNECT : Z := 0x34.
Definition NET_SEND : Z := 0x35.
Definition NET_RECV : Z := 0x36.
Definition NET_SENDMSG : Z := 0x37.
Definition NET_RECVMSG : Z := 0x38.
Definition NET_SHUTDOWN : Z := 0x39.
Definition NET_GETSOCKNAME : Z := 0x3A.
Definition NET_GETPEERNAME : Z := 0x3B.
Definition NET_SOCKETPAIR : Z := 0x3C.
Definition NET_SETSOCKOPT : Z := 0x3D.
Definition NET_GETSOCKOPT : Z := 0x3E.
Definition NET_CLOSE_ALL : Z := 0x3F.
Definition NET_CLOSE : Z := 0x40.
End NetTags.
Import NetTags.

Definition AF_UNIX : Z := 1.
Definition AF_INET : Z := 2.
Definition SOCK_FD_BASE : Z := 0x100.
Definition NET_MAX_PROCS : nat := 64.
Definition MAX_SOCKS : Z := 16.
Definition MAX_CONNS : nat := 32.
Definition MAX_BOUND : nat := 16.
Definition RING_SIZE : nat := 4096.
Definition PATH_MAX : Z := 108.
Definition MAX_INET_LISTENERS : nat := 16.
Definition INET_BACKLOG : nat := 8.

(** ** Rings *)

Record UnixRing := mkURing { u_buf : list Z; u_rpos : nat; u_wpos : nat; u_count : nat }.

Definition UnixRing_new : UnixRing := mkURing (replicate RING_SIZE 0) 0 0 0.

(** The copy loop of [write]: the buffer and the write position afterwards. *)
Fixpoint ring_fill (bs : list Z) (buf : list Z) (wpos : nat) : list Z * nat :=
  match bs with
  | [] => (buf, wpos)
  | b :: bs' => ring_fill bs' (<[wpos := b]> buf) ((wpos + 1) mod RING_SIZE)
  end.

(** [write(data, len)] with the memory [m]: the bytes taken, and the ring. *)
Definition ring_write (m : mem) (data len : Z) (r : UnixRing) : Z * UnixRing :=
  let free := Z.of_nat (RING_SIZE - u_count r) in
  let n := Z.min len free in
  let '(buf, wpos) := ring_fill (mem_read m data n) (u_buf r) (u_wpos r) in
  (n, mkURing buf (u_rpos r) wpos (u_count r + Z.to_nat n)).

(** The copy loop of [read]: the bytes and the read position afterwards. *)
Fixpoint ring_drain (n : nat) (buf : list Z) (rpos : nat) : list Z * nat :=
  match n with
  | O => ([], rpos)
  | S n' =>
      let '(bs, rpos') := ring_drain n' buf ((rpos + 1) mod RING_SIZE) in
      (default 0 (buf !! rpos) :: bs, rpos')
  end.

(** [read(data, len)]: the bytes that go to memory, and the ring. *)
Definition ring_read (len : Z) (r : UnixRing) : list Z * UnixRing :=
  let n := Z.to_nat (Z.min len (Z.of_nat (u_count r))) in
  let '(bs, rpos) := ring_drain n (u_buf r) (u_rpos r) in
  (bs, mkURing (u_buf r) rpos (u_wpos r) (u_count r - n)).

(** ** Connections, bound paths, listeners, sockets *)

Record UnixConn := mkConn {
  uc_in_use : bool;
  ring_ab : UnixRing;
  ring_ba : UnixRing;
  closed_a : bool;
  closed_b : bool
}.

Definition UnixConn_new : UnixConn := mkConn false UnixRing_new UnixRing_new false false.

Definition set_uc_in_use (b : bool) (c : UnixConn) : UnixConn :=
  mkConn b (ring_ab c) (ring_ba c) (closed_a c) (closed_b c).

Record BoundPath := mkBound { bp_in_use : bool; bp_path : list Z; bp_path_len : Z; bp_owner_pid : Z; bp_owner_sock : nat }.

Definition BoundPath_new : BoundPath := mkBound false (replicate (Z.to_nat PATH_MAX) 0) 0 0 0.

Record InetListener := mkListener {
  l_in_use : bool;
  l_port : Z;
  l_pid : Z;
  l_slot : nat;
  l_pending : list nat;
  l_n_pending : nat
}.

Definition InetListener_empty : InetListener := mkListener false 0 0 0 (replicate INET_BACKLOG 0%nat) 0.

Inductive SockState :=
  | SNone
  | Unbound (domain sock_type : Z)
  | Listening (bound_idx : nat)
  | InetListening
  | Connected (conn_idx : nat) (is_a : bool)
  | PendingAccept (conn_idx : nat)
  | InetPendingAccept (conn_idx : nat).

#[export] Instance SockState_eq_dec : EqDecision SockState.
Proof. solve_decision. Defined.

Record SockEntry := mkSock { k_state : SockState; k_in_use : bool; k_bound_port : Z; k_domain : Z }.

Definition SockEntry_empty : SockEntry := mkSock SNone false 0 0.

Definition set_k_state (st : SockState) (e : SockEntry) : SockEntry :=
  mkSock st (k_in_use e) (k_bound_port e) (k_domain e).

Record ProcSockTable := mkSockTbl { st_pid : Z; socks : list SockEntry; st_in_use : bool }.

Definition ProcSockTable_empty : ProcSockTable :=
  mkSockTbl 0 (replicate (Z.to_nat MAX_SOCKS) SockEntry_empty) false.

(** [alloc] *)
Definition sock_alloc (t : ProcSockTable) : option nat := position (λ e, negb (k_in_use e)) (socks t).

(** The server's state, with the memory it reads and writes. *)
Record NetServer := mkNet {
  n_conns : list UnixConn;
  n_bound : list BoundPath;
  n_listeners : list InetListener;
  n_socks : list ProcSockTable;
  n_mem : mem
}.

Definition NetServer_init (m : mem) : NetServer :=
  mkNet (replicate MAX_CONNS UnixConn_new) (replicate MAX_BOUND BoundPath_new)
    (replicate MAX_INET_LISTENERS InetListener_empty) (replicate NET_MAX_PROCS ProcSockTable_empty) m.

Definition set_conns x (s : NetServer) : NetServer := mkNet x (n_bound s) (n_listeners s) (n_socks s) (n_mem s).
Definition set_bound x (s : NetServer) : NetServer := mkNet (n_conns s) x (n_listeners s) (n_socks s) (n_mem s).
Definition set_listeners x (s : NetServer) : NetServer := mkNet (n_conns s) (n_bound s) x (n_socks s) (n_mem s).
Definition set_socks x (s : NetServer) : NetServer := mkNet (n_conns s) (n_bound s) (n_listeners s) x (n_mem s).
Definition on_n_mem (f : mem → mem) (s : NetServer) : NetServer :=
  mkNet (n_conns s) (n_bound s) (n_listeners s) (n_socks s) (f (n_mem s)).

(** ** Table helpers *)

Definition sock_tbl_of (pid : Z) (t : ProcSockTable) : bool := st_in_use t && (st_pid t =? pid).

Definition find_tbl (pid : Z) (tbls : list ProcSockTable) : option nat := position (sock_tbl_of pid) tbls.

(** The index of the caller's table, and the tables with it. *)
Definition get_or_create (pid : Z) (tbls : list ProcSockTable) : option (nat * list ProcSockTable) :=
  match find_tbl pid tbls with
  | Some i => Some (i, tbls)
  | None =>
      match position (λ t, negb (st_in_use t)) tbls with
      | Some i => Some (i, <[i := mkSockTbl pid (socks ProcSockTable_empty) true]> tbls)
      | None => None
      end
  end.

Definition fd_to_slot (fd : Z) : option nat :=
  if (SOCK_FD_BASE <=? fd) && (fd <? SOCK_FD_BASE + MAX_SOCKS) then Some (Z.to_nat (fd - SOCK_FD_BASE)) else None.

Definition slot_fd (slot : nat) : Z := Z.of_nat slot + SOCK_FD_BASE.

Definition put_sock (i slot : nat) (e : SockEntry) (tbls : list ProcSockTable) : list ProcSockTable :=
  alter (λ t, mkSockTbl (st_pid t) (<[slot := e]> (socks t)) (st_in_use t)) i tbls.

(** The entry in slot [slot] of table [i]. *)
Definition entry_at (tbls : list ProcSockTable) (i slot : nat) : option SockEntry :=
  t ← tbls !! i; socks t !! slot.

(** The caller's open socket in a slot: its table and entry. *)
Definition sock_in (pid : Z) (slot : nat) (tbls : list ProcSockTable) : option (nat * SockEntry) :=
  i ← find_tbl pid tbls;
  e ← entry_at tbls i slot;
  if k_in_use e then Some (i, e) else None.

(** The caller's open socket behind a descriptor: table, slot and entry. *)
Definition own_sock (pid fd : Z) (s : NetServer) : option (nat * nat * SockEntry) :=
  slot ← fd_to_slot fd;
  '(i, e) ← sock_in pid slot (n_socks s);
  Some (i, slot, e).

(** [if let Some(tbl) = find_tbl(..) { if tbl.socks[slot].in_use { .. } }] *)
Definition update_sock (pid : Z) (slot : nat) (f : SockEntry → SockEntry) (s : NetServer) : NetServer :=
  match sock_in pid slot (n_socks s) with
  | Some (i, e) => set_socks (put_sock i slot (f e) (n_socks s)) s
  | None => s
  end.

(** A new socket of the caller: its slot, or the error. *)
Definition new_sock (pid : Z) (e : SockEntry) (s : NetServer) : result nat Z * NetServer :=
  match get_or_create pid (n_socks s) with
  | None => (Err (-12), s)
  | Some (i, tbls) =>
      match t ← tbls !! i; sock_alloc t with
      | None => (Err (-24), set_socks tbls s)
      | Some slot => (Ok slot, set_socks (put_sock i slot e tbls) s)
      end
  end.

(** A fresh connection. *)
Definition alloc_conn (s : NetServer) : option (nat * NetServer) :=
  match position (λ c, negb (uc_in_use c)) (n_conns s) with
  | None => None
  | Some idx => Some (idx, set_conns (<[idx := set_uc_in_use true UnixConn_new]> (n_conns s)) s)
  end.

(** ** Handlers *)

Definition handle_socket (pid domain sock_type : Z) (s : NetServer) : Message * NetServer :=
  if negb ((domain =? AF_UNIX) || (domain =? AF_INET)) then (err_reply (-97), s)
  else
    match new_sock pid (mkSock (Unbound (domain mod 256) (sock_type mod 256)) true 0 (domain mod 256)) s with
    | (Err e, s) => (err_reply e, s)
    | (Ok slot, s) => (val_reply (slot_fd slot), s)
    end.

Definition read_u16 (m : mem) (a : Z) : Z := le_decode (mem_read m a 2).
Definition read_u32 (m : mem) (a : Z) : Z := le_decode (mem_read m a 4).
(** [u16::from_be] on a little-endian machine. *)
Definition u16_from_be (x : Z) : Z := x mod 256 * 256 + x / 256.

(** The comparison of a bound path with the caller's. *)
Definition path_matches (m : mem) (path_ptr path_len : Z) (bp : BoundPath) : bool :=
  bp_in_use bp && (bp_path_len bp =? path_len) &&
  bool_decide (take (Z.to_nat path_len) (bp_path bp) = mem_read m path_ptr path_len).

Definition port_matches (port : Z) (l : InetListener) : bool := l_in_use l && (l_port l =? port).

Definition bind_inet (pid : Z) (slot : nat) (addr_ptr addrlen : Z) (s : NetServer) : Message * NetServer :=
  if addrlen <? 8 then (err_reply (-22), s)
  else
    let port := u16_from_be (read_u16 (n_mem s) (addr_ptr + 2)) in
    if existsb (port_matches port) (n_listeners s) then (err_reply (-98), s)
    else (ok_reply, update_sock pid slot (λ e, mkSock (k_state e) (k_in_use e) port (k_domain e)) s).

Definition bind_unix (pid : Z) (slot : nat) (addr_ptr addrlen : Z) (s : NetServer) : Message * NetServer :=
  if (addrlen <? 3) || (2 + PATH_MAX <? addrlen) then (err_reply (-22), s)
  else
    let path_len := addrlen - 2 in
    let path_ptr := addr_ptr + 2 in
    if existsb (path_matches (n_mem s) path_ptr path_len) (n_bound s) then (err_reply (-98), s)
    else
      match position (λ b, negb (bp_in_use b)) (n_bound s) with
      | None => (err_reply (-12), s)
      | Some idx =>
          let path := mem_read (n_mem s) path_ptr path_len ++ replicate (Z.to_nat (PATH_MAX - path_len)) 0 in
          let s := set_bound (<[idx := mkBound true path path_len pid slot]> (n_bound s)) s in
          (ok_reply, update_sock pid slot (set_k_state (Listening idx)) s)
      end.

Definition handle_bind (pid fd addr_ptr addrlen : Z) (s : NetServer) : Message * NetServer :=
  match fd_to_slot fd with
  | None => (err_reply (-9), s)
  | Some slot =>
      if addrlen <? 2 then (err_reply (-22), s)
      else if read_u16 (n_mem s) addr_ptr =? AF_INET then bind_inet pid slot addr_ptr addrlen s
      else bind_unix pid slot addr_ptr addrlen s
  end.

Definition handle_listen (pid fd : Z) (s : NetServer) : Message * NetServer :=
  match own_sock pid fd s with
  | None => (err_reply (-9), s)
  | Some (i, slot, e) =>
      if k_domain e =? AF_INET then
        if k_bound_port e =? 0 then (err_reply (-22), s)
        else
          let s := set_socks (put_sock i slot (set_k_state InetListening e) (n_socks s)) s in
          match position (λ l, negb (l_in_use l)) (n_listeners s) with
          | None => (err_reply (-12), s)
          | Some idx =>
              let l := mkListener true (k_bound_port e) pid slot (replicate INET_BACKLOG 0%nat) 0 in
              (ok_reply, set_listeners (<[idx := l]> (n_listeners s)) s)
          end
      else (ok_reply, s)
  end.

(** [for i in 0..n_pending-1 { pending[i] = pending[i+1]; }] *)
Definition shift_queue (n : nat) (q : list nat) : list nat :=
  foldl (λ q i, <[i := default 0%nat (q !! (i + 1)%nat)]> q) q (seq 0 (n - 1)).

(** The oldest connection in the backlog of the listener on [port]. *)
Definition dequeue_pending (port : Z) (s : NetServer) : outcome (option nat * NetServer) :=
  match position (port_matches port) (n_listeners s) with
  | None => Ret (None, s)
  | Some idx =>
      match n_listeners s !! idx with
      | None => Ret (None, s)
      | Some l =>
          if (l_n_pending l =? 0)%nat then Ret (None, s)
          else
            match l_pending l !! 0%nat with
            | None => Panic
            | Some ci =>
                let l' := mkListener (l_in_use l) (l_port l) (l_pid l) (l_slot l)
                            (shift_queue (l_n_pending l) (l_pending l)) (l_n_pending l - 1) in
                Ret (Some ci, set_listeners (<[idx := l']> (n_listeners s)) s)
            end
      end
  end.

Definition pending_conn (e : SockEntry) : option nat :=
  match k_state e with PendingAccept ci => Some ci | _ => None end.

(** The scan of all tables for a socket in [PendingAccept]. *)
Fixpoint find_pending (l : list SockEntry) : option nat :=
  match l with
  | [] => None
  | e :: l' => match pending_conn e with Some ci => Some ci | None => find_pending l' end
  end.

Fixpoint scan_pending (tbls : list ProcSockTable) : option nat :=
  match tbls with
  | [] => None
  | t :: tbls' =>
      if st_in_use t then
        match find_pending (socks t) with Some ci => Some ci | None => scan_pending tbls' end
      else scan_pending tbls'
  end.

(** The first socket of a table in state [st] gets the state [st']. *)
Definition promote_first (st st' : SockState) (l : list SockEntry) : list SockEntry :=
  match position (λ e, bool_decide (k_state e = st)) l with
  | Some k => alter (set_k_state st') k l
  | None => l
  end.

Definition promote (st st' : SockState) (tbls : list ProcSockTable) : list ProcSockTable :=
  (λ t, if st_in_use t then mkSockTbl (st_pid t) (promote_first st st' (socks t)) true else t) <$> tbls.

(** The peer address: [sockaddr_in] of 127.0.0.1, or an empty [sockaddr_un]. *)
Definition write_peer (addr_ptr : Z) (is_inet : bool) (m : mem) : mem :=
  if is_inet then
    mem_write (addr_ptr + 4) (le_encode 4 0x0100007F)
      (mem_write addr_ptr (le_encode 2 AF_INET) (mem_fill addr_ptr 0 16 m))
  else mem_fill addr_ptr 0 2 m.

(** The second half of [handle_accept]: the new socket and the connector's. *)
Definition accept_conn (pid addr_ptr : Z) (ci : nat) (is_inet : bool) (s : NetServer) : Message * NetServer :=
  let domain := if is_inet then AF_INET else AF_UNIX in
  match new_sock pid (mkSock (Connected ci false) true 0 domain) s with
  | (Err e, s) => (err_reply e, s)
  | (Ok new_slot, s) =>
      let pending_state := if is_inet then InetPendingAccept ci else PendingAccept ci in
      let s := set_socks (promote pending_state (Connected ci true) (n_socks s)) s in
      let s := if addr_ptr =? 0 then s else on_n_mem (write_peer addr_ptr is_inet) s in
      (val_reply (slot_fd new_slot), s)
  end.

Definition handle_accept (pid fd addr_ptr : Z) (s : NetServer) : outcome (Message * NetServer) :=
  match own_sock pid fd s with
  | None => Ret (err_reply (-9), s)
  | Some (_, _, e) =>
      match k_state e with
      | InetListening =>
          match dequeue_pending (k_bound_port e) s with
          | Panic => Panic
          | Ret (None, s) => Ret (err_reply (-11), s)
          | Ret (Some ci, s) => Ret (accept_conn pid addr_ptr ci true s)
          end
      | Listening _ =>
          match scan_pending (n_socks s) with
          | None => Ret (err_reply (-11), s)
          | Some ci => Ret (accept_conn pid addr_ptr ci false s)
          end
      | _ => Ret (err_reply (-22), s)
      end
  end.

Definition LOOPBACK : Z := 0x0100007F.

(** The backlog update of [connect]; [None] when the backlog is full. *)
Definition enqueue_pending (port : Z) (ci : nat) (s : NetServer) : option NetServer :=
  match position (port_matches port) (n_listeners s) with
  | None => Some s
  | Some idx =>
      match n_listeners s !! idx with
      | None => Some s
      | Some l =>
          if (INET_BACKLOG <=? l_n_pending l)%nat then None
          else
            let l' := mkListener (l_in_use l) (l_port l) (l_pid l) (l_slot l)
                        (<[l_n_pending l := ci]> (l_pending l)) (l_n_pending l + 1) in
            Some (set_listeners (<[idx := l']> (n_listeners s)) s)
      end
  end.

Definition connect_inet (pid : Z) (slot : nat) (addr_ptr addrlen : Z) (s : NetServer) : Message * NetServer :=
  if addrlen <? 8 then (err_reply (-22), s)
  else
    let port := u16_from_be (read_u16 (n_mem s) (addr_ptr + 2)) in
    let sin_addr := read_u32 (n_mem s) (addr_ptr + 4) in
    if negb (sin_addr =? LOOPBACK) && negb (sin_addr =? 0) then (err_reply (-111), s)
    else
      match position (port_matches port) (n_listeners s) with
      | None => (err_reply (-111), s)
      | Some _ =>
          match alloc_conn s with
          | None => (err_reply (-12), s)
          | Some (ci, s) =>
              match enqueue_pending port ci s with
              | None => (err_reply (-111), s)
              | Some s => (ok_reply, update_sock pid slot (set_k_state (InetPendingAccept ci)) s)
              end
          end
      end.

Definition connect_unix (pid : Z) (slot : nat) (addr_ptr addrlen : Z) (s : NetServer) : Message * NetServer :=
  if (addrlen <? 3) || (2 + PATH_MAX <? addrlen) then (err_reply (-22), s)
  else
    match position (path_matches (n_mem s) (addr_ptr + 2) (addrlen - 2)) (n_bound s) with
    | None => (err_reply (-111), s)
    | Some _ =>
        match alloc_conn s with
        | None => (err_reply (-12), s)
        | Some (ci, s) => (ok_reply, update_sock pid slot (set_k_state (PendingAccept ci)) s)
        end
    end.

Definition handle_connect (pid fd addr_ptr addrlen : Z) (s : NetServer) : Message * NetServer :=
  match fd_to_slot fd with
  | None => (err_reply (-9), s)
  | Some slot =>
      if addrlen <? 2 then (err_reply (-22), s)
      else if read_u16 (n_mem s) addr_ptr =? AF_INET then connect_inet pid slot addr_ptr addrlen s
      else connect_unix pid slot addr_ptr addrlen s
  end.

Definition handle_socketpair (pid domain sv_ptr : Z) (s : NetServer) : Message * NetServer :=
  if negb (domain =? AF_UNIX) then (err_reply (-97), s)
  else
    match alloc_conn s with
    | None => (err_reply (-12), s)
    | Some (ci, s) =>
        match get_or_create pid (n_socks s) with
        | None => (err_reply (-12), s)
        | Some (i, tbls) =>
            match t ← tbls !! i; sock_alloc t with
            | None => (err_reply (-24), set_socks tbls s)
            | Some slot_a =>
                let tbls := put_sock i slot_a (mkSock (Connected ci true) true 0 AF_UNIX) tbls in
                match t ← tbls !! i; sock_alloc t with
                | None => (err_reply (-24), set_socks (put_sock i slot_a SockEntry_empty tbls) s)
                | Some slot_b =>
                    let tbls := put_sock i slot_b (mkSock (Connected ci false) true 0 AF_UNIX) tbls in
                    (ok_reply,
                     on_n_mem (λ m, mem_write (sv_ptr + 4) (le_encode 4 (slot_fd slot_b))
                                      (mem_write sv_ptr (le_encode 4 (slot_fd slot_a)) m))
                       (set_socks tbls s))
                end
            end
        end
    end.

(** The ring a side writes to, and the one it reads from. *)
Definition out_ring (is_a : bool) (c : UnixConn) : UnixRing := if is_a then ring_ab c else ring_ba c.
Definition set_out_ring (is_a : bool) (r : UnixRing) (c : UnixConn) : UnixConn :=
  if is_a then mkConn (uc_in_use c) r (ring_ba c) (closed_a c) (closed_b c)
  else mkConn (uc_in_use c) (ring_ab c) r (closed_a c) (closed_b c).

Definition handle_send (pid fd buf_ptr len : Z) (s : NetServer) : outcome (Message * NetServer) :=
  match own_sock pid fd s with
  | None => Ret (err_reply (-9), s)
  | Some (_, _, e) =>
      match k_state e with
      | Connected ci is_a =>
          match n_conns s !! ci with
          | None => Panic
          | Some c =>
              if negb (uc_in_use c) then Ret (err_reply (-32), s)
              else
                let '(n, r) := ring_write (n_mem s) buf_ptr len (out_ring is_a c) in
                Ret (val_reply n, set_conns (<[ci := set_out_ring is_a r c]> (n_conns s)) s)
          end
      | _ => Ret (err_reply (-32), s)
      end
  end.

Definition handle_recv (pid fd buf_ptr len : Z) (s : NetServer) : outcome (Message * NetServer) :=
  match own_sock pid fd s with
  | None => Ret (err_reply (-9), s)
  | Some (_, _, e) =>
      match k_state e with
      | Connected ci is_a =>
          match n_conns s !! ci with
          | None => Panic
          | Some c =>
              if negb (uc_in_use c) then Ret (val_reply 0, s)
              else
                let '(bs, r) := ring_read len (out_ring (negb is_a) c) in
                Ret (val_reply (Z.of_nat (length bs)),
                     on_n_mem (mem_write buf_ptr bs)
                       (set_conns (<[ci := set_out_ring (negb is_a) r c]> (n_conns s)) s))
          end
      | _ => Ret (err_reply (-9), s)
      end
  end.

Definition net_val (m : Message) : Z := to_i64 (le_decode (take 8 (data m))).

(** The loops of [sendmsg] and [recvmsg] over the vectors [idxs]; [io] is [handle_send]
    or [handle_recv] of the caller's socket. *)
Fixpoint iov_loop (io : Z → Z → NetServer → outcome (Message * NetServer)) (iov_ptr : Z) (idxs : list nat) (total : Z)
    (s : NetServer) : outcome (Message * NetServer) :=
  match idxs with
  | [] => Ret (val_reply total, s)
  | i :: idxs' =>
      let iov := iov_ptr + Z.of_nat i * 16 in
      let base := read_u64 (n_mem s) iov in
      let len := read_u64 (n_mem s) (iov + 8) in
      match io base len s with
      | Panic => Panic
      | Ret (m, s) =>
          let n := net_val m in
          if n <? 0 then Ret (if 0 <? total then val_reply total else make_reply n, s)
          else iov_loop io iov_ptr idxs' (total + n) s
      end
  end.

Definition iov_call (io : Z → Z → NetServer → outcome (Message * NetServer)) (msghdr_ptr : Z) (s : NetServer) :
    outcome (Message * NetServer) :=
  if msghdr_ptr =? 0 then Ret (err_reply (-14), s)
  else
    let iov_ptr := read_u64 (n_mem s) (msghdr_ptr + 16) in
    let iovcnt := read_u64 (n_mem s) (msghdr_ptr + 24) in
    iov_loop io iov_ptr (seq 0 (Z.to_nat (Z.min iovcnt 16))) 0 s.

Definition handle_sendmsg (pid fd msghdr_ptr : Z) (s : NetServer) : outcome (Message * NetServer) :=
  iov_call (handle_send pid fd) msghdr_ptr s.

Definition handle_recvmsg (pid fd msghdr_ptr : Z) (s : NetServer) : outcome (Message * NetServer) :=
  iov_call (handle_recv pid fd) msghdr_ptr s.

(** One side of a connection is shut down; both sides down free it. *)
Definition close_side (is_a : bool) (c : UnixConn) : UnixConn :=
  let ca := is_a || closed_a c in
  let cb := negb is_a || closed_b c in
  mkConn (if ca && cb then false else uc_in_use c) (ring_ab c) (ring_ba c) ca cb.

Definition handle_shutdown (pid fd : Z) (s : NetServer) : outcome (Message * NetServer) :=
  match fd_to_slot fd with
  | None => Ret (err_reply (-9), s)
  | Some slot =>
      match sock_in pid slot (n_socks s) with
      | None => Ret (ok_reply, s)
      | Some (i, e) =>
          let s' := set_socks (put_sock i slot SockEntry_empty (n_socks s)) s in
          match k_state e with
          | Connected ci is_a =>
              match n_conns s !! ci with
              | None => Panic
              | Some c => Ret (ok_reply, set_conns (<[ci := close_side is_a c]> (n_conns s)) s')
              end
          | _ => Ret (ok_reply, s')
          end
      end
  end.

Definition handle_getsockname (addr_ptr addrlen_ptr : Z) (s : NetServer) : Message * NetServer :=
  if (addr_ptr =? 0) || (addrlen_ptr =? 0) then (err_reply (-14), s)
  else (ok_reply, on_n_mem (λ m, mem_write addrlen_ptr (le_encode 4 2) (mem_fill addr_ptr 0 2 m)) s).

Definition handle_getpeername (addr_ptr addrlen_ptr : Z) (s : NetServer) : Message * NetServer :=
  handle_getsockname addr_ptr addrlen_ptr s.

Definition handle_getsockopt (level optname optval_ptr optlen_ptr : Z) (s : NetServer) : Message * NetServer :=
  if (level =? 1) && (optname =? 4) then
    let s := if optval_ptr =? 0 then s else on_n_mem (mem_write optval_ptr (le_encode 4 0)) s in
    let s := if optlen_ptr =? 0 then s else on_n_mem (mem_write optlen_ptr (le_encode 4 4)) s in
    (ok_reply, s)
  else (ok_reply, s).

Definition free_conn (ci : nat) (conns : list UnixConn) : list UnixConn := alter (set_uc_in_use false) ci conns.

Definition handle_close (pid sockfd : Z) (s : NetServer) : outcome (Message * NetServer) :=
  match own_sock pid sockfd s with
  | None => Ret (err_reply (-9), s)
  | Some (i, slot, e) =>
      let s' := set_socks (put_sock i slot SockEntry_empty (n_socks s)) s in
      match k_state e with
      | Connected ci _ =>
          match n_conns s !! ci with
          | None => Panic
          | Some _ => Ret (ok_reply, set_conns (free_conn ci (n_conns s)) s')
          end
      | InetListening =>
          if k_bound_port e =? 0 then Ret (ok_reply, s')
          else
            match position (λ l, port_matches (k_bound_port e) l && (l_pid l =? pid)) (n_listeners s) with
            | Some idx => Ret (ok_reply, set_listeners (<[idx := InetListener_empty]> (n_listeners s)) s')
            | None => Ret (ok_reply, s')
            end
      | _ => Ret (ok_reply, s')
      end
  end.

(** The connections of a table's sockets, in slot order. *)
Definition to_close (l : list SockEntry) : list nat :=
  omap (λ e, match k_state e with Connected ci _ => Some ci | _ => None end) l.

Fixpoint free_conns (cis : list nat) (conns : list UnixConn) : outcome (list UnixConn) :=
  match cis with
  | [] => Ret conns
  | ci :: cis' => match conns !! ci with None => Panic | Some _ => free_conns cis' (free_conn ci conns) end
  end.

Definition handle_close_all (pid : Z) (s : NetServer) : outcome (unit * NetServer) :=
  match i ← find_tbl pid (n_socks s); t ← n_socks s !! i; Some (i, t) with
  | None => Ret (tt, s)
  | Some (i, t) =>
      match free_conns (to_close (socks t)) (n_conns s) with
      | Panic => Panic
      | Ret conns =>
          let ls := (λ l, if l_in_use l && (l_pid l =? pid) then InetListener_empty else l) <$> n_listeners s in
          Ret (tt, set_socks (<[i := ProcSockTable_empty]> (n_socks s)) (set_listeners ls (set_conns conns s)))
      end
  end.

(** The dispatch. *)
Definition handle (msg : Message) (caller_pid : Z) (s : NetServer) : outcome (Message * NetServer) :=
  let a0 := arg msg 0 in
  let a1 := arg msg 1 in
  let a2 := arg msg 2 in
  let a3 := arg msg 3 in
  let t := tag msg in
  if t =? NET_SOCKET then Ret (handle_socket caller_pid a0 a1 s)
  else if t =? NET_BIND then Ret (handle_bind caller_pid a0 a1 a2 s)
  else if t =? NET_LISTEN then Ret (handle_listen caller_pid a0 s)
  else if t =? NET_ACCEPT then handle_accept caller_pid a0 a1 s
  else if t =? NET_CONNECT then Ret (handle_connect caller_pid a0 a1 a2 s)
  else if t =? NET_SEND then handle_send caller_pid a0 a1 a2 s
  else if t =? NET_RECV then handle_recv caller_pid a0 a1 a2 s
  else if t =? NET_SENDMSG then handle_sendmsg caller_pid a0 a1 s
  else if t =? NET_RECVMSG then handle_recvmsg caller_pid a0 a1 s
  else if t =? NET_SHUTDOWN then handle_shutdown caller_pid a0 s
  else if t =? NET_GETSOCKNAME then Ret (handle_getsockname a1 a2 s)
  else if t =? NET_GETPEERNAME then Ret (handle_getpeername a1 a2 s)
  else if t =? NET_SOCKETPAIR then Ret (handle_socketpair caller_pid a0 a3 s)
  else if t =? NET_SETSOCKOPT then Ret (ok_reply, s)
  else if t =? NET_GETSOCKOPT then Ret (handle_getsockopt a1 a2 a3 (arg msg 4) s)
  else if t =? NET_CLOSE_ALL then
    match handle_close_all caller_pid s with Panic => Panic | Ret (_, s) => Ret (ok_reply, s) end
  else if t =? NET_CLOSE then handle_close caller_pid a0 s
  else Ret (err_reply (-38), s).
