(* ===== verification/NetInv.v ===== *)
(** * Well-formedness of the network server

    The state invariant of the server, and the frame of a request: what it leaves
    alone.  A request of one process changes no socket of another, but for
    completing a pending connection, and changes neither end nor the contents of
    a connection that it does not name. *)

From stdpp Require Import base list option numbers.
From Stdlib Require Import ZArith Lia.
From S2P Require Import Prelude Words Rings Memory IpcPort VfsData VfsInv Net.

Local Open Scope Z_scope.

(** ** The rings as queues *)

Record ur_ok (r : UnixRing) : Prop := {
  uo_buf : length (u_buf r) = RING_SIZE;
  uo_rpos : (u_rpos r < RING_SIZE)%nat;
  uo_count : (u_count r ≤ RING_SIZE)%nat;
  uo_wpos : u_wpos r = ((u_rpos r + u_count r) mod RING_SIZE)%nat
}.

(** The bytes in the ring, oldest first. *)
Definition ur_bytes (r : UnixRing) : list Z := cslice (u_buf r) (u_rpos r) (u_count r).

Lemma RING_SIZE_Z : Z.of_nat RING_SIZE = 4096.
Proof. reflexivity. Qed.

Lemma RING_SIZE_pos : (0 < RING_SIZE)%nat.
Proof. unfold RING_SIZE. lia. Qed.

#[local] Opaque RING_SIZE.

Lemma UnixRing_new_ok : ur_ok UnixRing_new.
Proof.
  pose proof RING_SIZE_pos. split; simpl; [apply length_replicate|lia|lia|]. symmetry. by apply Nat.mod_small.
Qed.

Lemma length_ur_bytes r : ur_ok r → length (ur_bytes r) = u_count r.
Proof. intros [Hd _ _ _]. apply length_cslice. rewrite Hd. apply RING_SIZE_pos. Qed.

Lemma ring_fill_cons b bs buf w : ring_fill (b :: bs) buf w = ring_fill bs (<[w := b]> buf) ((w + 1) mod RING_SIZE).
Proof. reflexivity. Qed.

Lemma ring_fill_spec bs buf r n : length buf = RING_SIZE → (n + length bs ≤ RING_SIZE)%nat →
  let '(buf', wpos) := ring_fill bs buf ((r + n) mod RING_SIZE) in
  length buf' = RING_SIZE ∧ wpos = ((r + (n + length bs)) mod RING_SIZE)%nat ∧
  cslice buf' r (n + length bs) = cslice buf r n ++ bs.
Proof.
  revert buf n. induction bs as [|b bs IH]; intros buf n Hb Hn.
  { cbn [ring_fill length]. rewrite Nat.add_0_r, app_nil_r. done. }
  rewrite ring_fill_cons. rewrite length_cons in *.
  specialize (IH (<[((r + n) mod RING_SIZE)%nat := b]> buf) (S n)).
  assert (((r + n) mod RING_SIZE + 1) mod RING_SIZE = (r + S n) mod RING_SIZE)%nat as Hm.
  { rewrite Nat.Div0.add_mod_idemp_l. f_equal. lia. }
  rewrite Hm. destruct (ring_fill _ _ _) as [buf' wpos].
  destruct IH as (Hl & Hw & Hc); [by rewrite length_insert|lia|].
  replace (n + S (length bs))%nat with (S n + length bs)%nat by lia. split_and!; [done..|].
  rewrite Hc. pose proof (cslice_push buf r n b ltac:(lia)) as Hp. rewrite Hb in Hp. rewrite Hp. by rewrite <- app_assoc.
Qed.

Lemma ring_drain_spec n buf rpos : length buf = RING_SIZE → (rpos < RING_SIZE)%nat →
  ring_drain n buf rpos = (cslice buf rpos n, ((rpos + n) mod RING_SIZE)%nat).
Proof.
  intros Hb. pose proof RING_SIZE_pos. revert rpos. induction n as [|n IH]; intros rpos Hr; cbn [ring_drain cslice].
  { rewrite Nat.add_0_r, Nat.mod_small by done. done. }
  rewrite IH by (apply Nat.mod_upper_bound; lia). rewrite Hb, (Nat.mod_small rpos) by done.
  destruct (lookup_lt_is_Some_2 buf rpos) as [x ->]; [lia|]. cbn [default].
  rewrite <- Hb at 1. rewrite cslice_mod by lia. rewrite Nat.Div0.add_mod_idemp_l.
  by replace (rpos + 1 + n)%nat with (rpos + S n)%nat by lia; rewrite Nat.add_1_r.
Qed.

(** [write] takes what fits and appends it. *)
Lemma ring_write_spec m p len r : ur_ok r →
  let '(n, r') := ring_write m p len r in
  n = Z.min len (4096 - Z.of_nat (length (ur_bytes r))) ∧ ur_ok r' ∧ ur_bytes r' = ur_bytes r ++ mem_read m p n.
Proof.
  intros Hr. rewrite (length_ur_bytes r Hr). destruct Hr as [Hb Hp Hc Hw]. unfold ring_write.
  rewrite Nat2Z.inj_sub, RING_SIZE_Z by done. set (n := Z.min _ _).
  assert (n ≤ 4096 - Z.of_nat (u_count r)) as Hn by (pose proof RING_SIZE_Z; unfold n; lia).
  pose proof (ring_fill_spec (mem_read m p n) (u_buf r) (u_rpos r) (u_count r) Hb) as Hf.
  rewrite length_mem_read, <- Hw in Hf. pose proof RING_SIZE_Z. destruct (ring_fill _ _ _) as [buf' w].
  destruct Hf as (Hl & -> & Hs); [lia|].
  split_and!; [done| |exact Hs]. split; cbn [u_buf u_rpos u_wpos u_count]; [exact Hl|exact Hp|lia|reflexivity].
Qed.

(** [read] takes the oldest bytes. *)
Lemma ring_read_spec len r : ur_ok r →
  let '(bs, r') := ring_read len r in
  Z.of_nat (length bs) = Z.max 0 (Z.min len (Z.of_nat (length (ur_bytes r)))) ∧ ur_ok r' ∧ ur_bytes r = bs ++ ur_bytes r'.
Proof.
  intros Hr. rewrite (length_ur_bytes r Hr). destruct Hr as [Hb Hp Hc Hw]. unfold ring_read.
  pose proof RING_SIZE_pos. rewrite ring_drain_spec by done. rewrite length_cslice by lia.
  set (n := Z.to_nat _). assert (n ≤ u_count r)%nat by lia. split_and!; [lia| |].
  - split; simpl; [done|apply Nat.mod_upper_bound; lia|lia|]. rewrite Hw, Nat.Div0.add_mod_idemp_l. f_equal. lia.
  - unfold ur_bytes. cbn [u_buf u_rpos u_count]. rewrite <- Hb, cslice_mod by lia. rewrite <- cslice_app by lia.
    f_equal. lia.
Qed.

(** ** The invariant *)

(** The connection a socket refers to. *)
Definition conn_of (st : SockState) : option nat :=
  match st with
  | Connected ci _ | PendingAccept ci | InetPendingAccept ci => Some ci
  | _ => None
  end.

Definition conn_ok (c : UnixConn) : Prop := ur_ok (ring_ab c) ∧ ur_ok (ring_ba c).

Definition bound_ok (b : BoundPath) : Prop :=
  length (bp_path b) = Z.to_nat PATH_MAX ∧ 0 ≤ bp_path_len b ≤ PATH_MAX.

Definition listener_ok (l : InetListener) : Prop :=
  length (l_pending l) = INET_BACKLOG ∧ (l_n_pending l ≤ INET_BACKLOG)%nat ∧
  Forall (λ ci, ci < MAX_CONNS)%nat (l_pending l).

Definition entry_ok (e : SockEntry) : Prop :=
  (k_in_use e = false → e = SockEntry_empty) ∧ ∀ ci, conn_of (k_state e) = Some ci → (ci < MAX_CONNS)%nat.

Definition tbl_ok (t : ProcSockTable) : Prop :=
  length (socks t) = Z.to_nat MAX_SOCKS ∧ Forall entry_ok (socks t) ∧
  (st_in_use t = false → t = ProcSockTable_empty).

(** A process has one table. *)
Definition one_table (tbls : list ProcSockTable) : Prop :=
  ∀ i j t t', tbls !! i = Some t → tbls !! j = Some t' → st_in_use t = true → st_in_use t' = true →
    st_pid t = st_pid t' → i = j.

(** The path that a slot of the table of paths binds. *)
Definition bound_name (b : BoundPath) : option (list Z) :=
  if bp_in_use b then Some (take (Z.to_nat (bp_path_len b)) (bp_path b)) else None.

(** A path is bound once. *)
Definition one_path (l : list BoundPath) : Prop :=
  ∀ i j b b' n, l !! i = Some b → l !! j = Some b' → bound_name b = Some n → bound_name b' = Some n → i = j.

Record net_wf (s : NetServer) : Prop := {
  nw_conns_len : length (n_conns s) = MAX_CONNS;
  nw_conns : Forall conn_ok (n_conns s);
  nw_bound_len : length (n_bound s) = MAX_BOUND;
  nw_bound : Forall bound_ok (n_bound s);
  nw_paths : one_path (n_bound s);
  nw_listeners_len : length (n_listeners s) = MAX_INET_LISTENERS;
  nw_listeners : Forall listener_ok (n_listeners s);
  nw_tbls_len : length (n_socks s) = NET_MAX_PROCS;
  nw_tbls : Forall tbl_ok (n_socks s);
  nw_one : one_table (n_socks s)
}.

(** ** What a request leaves alone *)

(** An established connection: its index, and for each side the table, the slot
    and the process of its socket. *)
Record ends := mkEnds { e_ci : nat; e_at : bool → nat * nat; e_pid : bool → Z }.

(** The sockets at the two ends are the only ones that refer to the connection. *)
Record established (E : ends) (s : NetServer) : Prop := {
  es_tbl : ∀ x, ∃ t, n_socks s !! (e_at E x).1 = Some t ∧ st_in_use t = true ∧ st_pid t = e_pid E x;
  es_end : ∀ x, ∃ e, entry_at (n_socks s) (e_at E x).1 (e_at E x).2 = Some e ∧
                  k_in_use e = true ∧ k_state e = Connected (e_ci E) x;
  es_conn : ∃ c, n_conns s !! e_ci E = Some c ∧ uc_in_use c = true;
  es_only : ∀ i k e, entry_at (n_socks s) i k = Some e → conn_of (k_state e) = Some (e_ci E) →
              ∃ x, (i, k) = e_at E x;
  es_queue : ∀ idx l, n_listeners s !! idx = Some l → e_ci E ∉ take (l_n_pending l) (l_pending l)
}.

(** A connection to watch, if any. *)
Definition watched (o : option ends) (s : NetServer) : Prop := from_option (λ E, established E s) True o.
Definition unwatched (o : option ends) (ci : nat) : Prop := ∀ E, o = Some E → e_ci E ≠ ci.
Definition kept (o : option ends) (s s' : NetServer) : Prop :=
  ∀ E, o = Some E → n_conns s' !! e_ci E = n_conns s !! e_ci E.
(** No end is a socket of [pid] in a slot of [K]. *)
Definition avoids (o : option ends) (pid : Z) (K : nat → Prop) : Prop :=
  ∀ E x, o = Some E → e_pid E x = pid → ¬ K (e_at E x).2.

(** A socket of another process: the same, or its connection is established. *)
Inductive promoted (e : SockEntry) : SockEntry → Prop :=
  | promoted_same : promoted e e
  | promoted_unix ci : k_state e = PendingAccept ci → promoted e (set_k_state (Connected ci true) e)
  | promoted_inet ci : k_state e = InetPendingAccept ci → promoted e (set_k_state (Connected ci true) e).

(** The tables of other processes. *)
Definition others (pid : Z) (l l' : list ProcSockTable) : Prop :=
  ∀ i t, l !! i = Some t → st_in_use t = true → st_pid t ≠ pid →
    ∃ t', l' !! i = Some t' ∧ st_in_use t' = true ∧ st_pid t' = st_pid t ∧ Forall2 promoted (socks t) (socks t').

Definition net_inv (o : option ends) (s : NetServer) : Prop := net_wf s ∧ watched o s.

Record frame (o : option ends) (pid : Z) (s s' : NetServer) : Prop := {
  fr_inv : net_inv o s';
  fr_kept : kept o s s';
  fr_others : others pid (n_socks s) (n_socks s')
}.

Lemma promoted_trans e1 e2 e3 : promoted e1 e2 → promoted e2 e3 → promoted e1 e3.
Proof. intros [|ci H|ci H]; [done|..]; inversion 1; simplify_eq/=; by constructor. Qed.

#[export] Instance others_refl pid : Reflexive (others pid).
Proof. intros l i t Ht Hu Hp. exists t. split_and!; [done..|]. apply Forall_Forall2_diag, Forall_true. constructor. Qed.

#[export] Instance others_trans pid : Transitive (others pid).
Proof.
  intros l1 l2 l3 H12 H23 i t Ht Hu Hp. destruct (H12 i t Ht Hu Hp) as (t2 & Ht2 & Hu2 & Hp2 & HF).
  destruct (H23 i t2 Ht2 Hu2) as (t3 & Ht3 & Hu3 & Hp3 & HF'); [congruence|].
  exists t3. split_and!; [done..|congruence|]. eapply Forall2_trans; [|done..]. intros ???. apply promoted_trans.
Qed.

Lemma frame_refl o pid s : net_inv o s → frame o pid s s.
Proof. intros H. split; [done|by intros E HE|reflexivity]. Qed.

Lemma frame_trans o pid s1 s2 s3 : frame o pid s1 s2 → frame o pid s2 s3 → frame o pid s1 s3.
Proof.
  intros [_ Hk Ho] [Hi Hk' Ho']. split; [done| |by etrans].
  intros E HE. rewrite (Hk' E HE). by apply Hk.
Qed.

(** ** Entries of the tables *)

Lemma entry_at_put l i k e j k' : entry_at (put_sock i k e l) j k' =
  if decide (i = j ∧ k = k' ∧ is_Some (entry_at l i k)) then Some e else entry_at l j k'.
Proof.
  unfold entry_at, put_sock. destruct (decide (i = j)) as [<-|Hij].
  - rewrite list_lookup_alter_eq. destruct (l !! i) as [t|]; simpl.
    + destruct (decide (k = k')) as [<-|Hk].
      * destruct (socks t !! k) as [x|] eqn:Hx.
        -- rewrite list_lookup_insert_eq by (by eapply lookup_lt_Some). rewrite decide_True; naive_solver.
        -- rewrite decide_False by (intros (_ & _ & H); by apply is_Some_None in H).
           apply lookup_ge_None_2. rewrite length_insert. by apply lookup_ge_None_1.
      * rewrite list_lookup_insert_ne by done. rewrite decide_False; naive_solver.
    + rewrite decide_False; [done|]. intros (_ & _ & H). by apply is_Some_None in H.
  - rewrite list_lookup_alter_ne by done. rewrite decide_False; naive_solver.
Qed.

Lemma entry_at_put_cases l i k e j k' e' : entry_at (put_sock i k e l) j k' = Some e' →
  (i = j ∧ k = k' ∧ e' = e) ∨ ((i, k) ≠ (j, k') ∧ entry_at l j k' = Some e').
Proof.
  rewrite entry_at_put. case_decide as Hd; [naive_solver|]. intros He. right. split; [|done].
  intros [= -> ->]. apply Hd. rewrite He. eauto.
Qed.

Lemma lookup_put_sock l i k e j t' : put_sock i k e l !! j = Some t' ↔
  ∃ t, l !! j = Some t ∧ t' = if decide (i = j) then mkSockTbl (st_pid t) (<[k := e]> (socks t)) (st_in_use t) else t.
Proof.
  unfold put_sock. case_decide as Hij.
  - subst j. rewrite list_lookup_alter_eq. destruct (l !! i); naive_solver.
  - rewrite list_lookup_alter_ne by done. naive_solver.
Qed.

Lemma one_table_put l i k e : one_table l → one_table (put_sock i k e l).
Proof.
  intros H a b t t' Ha Hb. apply lookup_put_sock in Ha as (ta & Ha & ->), Hb as (tb & Hb & ->).
  intros. eapply (H a b ta tb); [done..| | |]; repeat case_decide; done.
Qed.

Lemma find_tbl_Some pid l i : find_tbl pid l = Some i →
  ∃ t, l !! i = Some t ∧ st_in_use t = true ∧ st_pid t = pid.
Proof. intros (t & Ht & Hp & _)%position_Some. unfold sock_tbl_of in Hp. to_prop. eauto. Qed.

Lemma sock_in_Some pid slot l i e : sock_in pid slot l = Some (i, e) ↔
  find_tbl pid l = Some i ∧ entry_at l i slot = Some e ∧ k_in_use e = true.
Proof.
  unfold sock_in. destruct (find_tbl pid l) as [j|]; simpl; [|naive_solver].
  destruct (entry_at l j slot) as [x|] eqn:Hx; simpl; [|naive_solver congruence].
  destruct (k_in_use x) eqn:Hu; naive_solver congruence.
Qed.

Lemma own_sock_Some pid fd s i slot e : own_sock pid fd s = Some (i, slot, e) ↔
  fd_to_slot fd = Some slot ∧ sock_in pid slot (n_socks s) = Some (i, e).
Proof.
  unfold own_sock. destruct (fd_to_slot fd) as [k|]; simpl; [|naive_solver].
  destruct (sock_in pid k (n_socks s)) as [[j x]|] eqn:Hx; simpl; naive_solver congruence.
Qed.

(** ** Frames of the updates *)

Section frames.
Context (o : option ends) (pid : Z).
Implicit Types s : NetServer.

(** An update that keeps the tables and the connections. *)
Lemma frame_same s s' : net_inv o s → net_wf s' → n_socks s' = n_socks s → n_conns s' = n_conns s →
  (∀ E idx l, o = Some E → n_listeners s' !! idx = Some l → e_ci E ∉ take (l_n_pending l) (l_pending l)) →
  frame o pid s s'.
Proof.
  intros [Hwf Hw] Hwf' Ht Hc Hq. split; [split; [done|]|by intros E _; rewrite Hc|rewrite Ht; reflexivity].
  destruct o as [E|]; simpl in *; [|done]. destruct Hw as [H1 H2 H3 H4 H5].
  split; rewrite ?Ht, ?Hc; try done. intros idx l. by apply Hq.
Qed.

Lemma watched_queue s E idx l : net_inv o s → o = Some E → n_listeners s !! idx = Some l →
  e_ci E ∉ take (l_n_pending l) (l_pending l).
Proof. intros [_ Hw] -> Hl. by apply (es_queue _ _ Hw idx l). Qed.

Lemma frame_mem s f : net_inv o s → frame o pid s (on_n_mem f s).
Proof.
  intros H. apply frame_same; [done|destruct H as [[] _]; by split|done..|].
  intros E idx l HE Hl. by eapply watched_queue.
Qed.

Lemma frame_listener s idx l : net_inv o s → listener_ok l →
  (∀ E, o = Some E → e_ci E ∉ take (l_n_pending l) (l_pending l)) →
  frame o pid s (set_listeners (<[idx := l]> (n_listeners s)) s).
Proof.
  intros H Hl Hq. apply frame_same; [done| |done..|].
  - destruct H as [[] _]. split; simpl; try done; [by rewrite length_insert|by apply Forall_insert_1].
  - intros E j l' HE [(_ & <- & _)|[_ Hl']]%insert_lookup_cases; [by apply Hq|by eapply watched_queue].
Qed.

Lemma frame_bound s l : net_inv o s → length l = MAX_BOUND → Forall bound_ok l → one_path l →
  frame o pid s (set_bound l s).
Proof.
  intros H Hlen Hl Hp. apply frame_same; [done| |done..|].
  - destruct H as [[] _]. by split.
  - intros E j l' HE Hl'. by eapply watched_queue.
Qed.

Lemma frame_conn s ci c : net_inv o s → conn_ok c → unwatched o ci →
  frame o pid s (set_conns (<[ci := c]> (n_conns s)) s).
Proof.
  intros [Hwf Hw] Hc Hu. split; [split| |reflexivity].
  - destruct Hwf. split; simpl; try done; [by rewrite length_insert|by apply Forall_insert_1].
  - destruct o as [E|]; simpl in *; [|done]. destruct Hw as [H1 H2 H3 H4 H5]. split; simpl; try done.
    rewrite list_lookup_insert_ne; [done|]. intros ->. by apply (Hu E eq_refl).
  - intros E HE. simpl. rewrite list_lookup_insert_ne; [done|]. intros ->. by apply (Hu E HE).
Qed.

(** A slot of the caller's table that is not an end. *)
Definition own_slot s (i k : nat) : Prop :=
  (∃ t, n_socks s !! i = Some t ∧ st_in_use t = true ∧ st_pid t = pid) ∧
  ∀ E x, o = Some E → e_at E x ≠ (i, k).

Lemma frame_put s i k e : net_inv o s → own_slot s i k → entry_ok e →
  (∀ ci, conn_of (k_state e) = Some ci → unwatched o ci) →
  frame o pid s (set_socks (put_sock i k e (n_socks s)) s).
Proof.
  intros [Hwf Hw] [(ti & Hi & Hui & Hpi) Hk] He Hci. split; [split| |].
  - destruct Hwf. split; simpl; try done.
    + unfold put_sock. by rewrite length_alter.
    + apply Forall_lookup. intros j t' (t & Ht & ->)%lookup_put_sock.
      assert (tbl_ok t) as (Hl & HF & Hd) by (eapply Forall_lookup_1; [apply nw_tbls0|done]).
      case_decide as Hij; [subst j|by split_and!]. assert (t = ti) as -> by congruence.
      split_and!; simpl; [by rewrite length_insert|by apply Forall_insert_1|]. by rewrite Hui.
    + by apply one_table_put.
  - destruct o as [E|]; simpl in *; [|done]. destruct Hw as [H1 H2 H3 H4 H5]. split; simpl; try done.
    + intros x. destruct (H1 x) as (t & Ht & Hut & Hpt).
      eexists. rewrite lookup_put_sock. split; [by eexists|]. case_decide; done.
    + intros x. destruct (H2 x) as (e' & He' & Hu' & Hs'). exists e'. rewrite entry_at_put, decide_False; [done|].
      intros (-> & -> & _). apply (Hk E x eq_refl). by destruct (e_at E x).
    + intros j k' e' [(-> & -> & ->)|[_ He']]%entry_at_put_cases Hc'; [|by apply (H4 j k' e')].
      by destruct (Hci _ Hc' E).
  - by intros E _.
  - intros j t Hj Hut Hpt. exists t. simpl. rewrite lookup_put_sock. split_and!; [|done..|].
    + exists t. split; [done|]. rewrite decide_False; [done|]. congruence.
    + apply Forall_Forall2_diag, Forall_true. constructor.
Qed.

(** A slot that is named by the request, or that holds no socket. *)
Lemma own_slot_named s K i k : avoids o pid K → K k → net_inv o s → find_tbl pid (n_socks s) = Some i → own_slot s i k.
Proof.
  intros Ha HK [_ Hw] Hi. apply find_tbl_Some in Hi as (t & Ht & Hut & Hpt). split; [by exists t|].
  intros E x HE Hx. apply (Ha E x HE); [|by rewrite Hx]. rewrite HE in Hw. simpl in Hw.
  destruct (es_tbl _ _ Hw x) as (t' & Ht' & _ & Hp'). rewrite Hx in Ht'. simpl in Ht'. congruence.
Qed.

Lemma own_slot_free s i k e : net_inv o s → find_tbl pid (n_socks s) = Some i →
  entry_at (n_socks s) i k = Some e → k_in_use e = false → own_slot s i k.
Proof.
  intros [_ Hw] Hi He Hf. apply find_tbl_Some in Hi as (t & Ht & Hut & Hpt). split; [by exists t|].
  intros E x HE Hx. rewrite HE in Hw. destruct (es_end _ _ Hw x) as (e' & He' & Hu' & _).
  rewrite Hx in He'. simpl in He'. congruence.
Qed.

(** The connection of a socket that the request names is not watched. *)
Lemma named_unwatched s K i k e ci : avoids o pid K → K k → net_inv o s →
  sock_in pid k (n_socks s) = Some (i, e) → conn_of (k_state e) = Some ci → unwatched o ci.
Proof.
  intros Ha HK Hinv (Hi & He & _)%sock_in_Some Hc E HE <-.
  destruct (own_slot_named _ _ _ _ Ha HK Hinv Hi) as [_ Hk]. destruct Hinv as [_ Hw]. rewrite HE in Hw.
  destruct (es_only _ _ Hw i k e He Hc) as [x Hx]. by apply (Hk E x HE).
Qed.

Lemma entry_in s i k e : net_inv o s → entry_at (n_socks s) i k = Some e → entry_ok e.
Proof.
  intros [Hwf _] He. unfold entry_at in He. destruct (n_socks s !! i) as [t|] eqn:Ht; [|done]. simpl in He.
  assert (tbl_ok t) as (_ & HF & _) by (eapply Forall_lookup_1; [apply (nw_tbls s Hwf)|done]).
  by eapply Forall_lookup_1.
Qed.

Lemma frame_alloc s ci s' : net_inv o s → alloc_conn s = Some (ci, s') →
  frame o pid s s' ∧ unwatched o ci ∧ (ci < MAX_CONNS)%nat ∧ n_socks s' = n_socks s ∧ n_listeners s' = n_listeners s.
Proof.
  intros Hinv Ha. unfold alloc_conn in Ha. destruct (position _ _) as [idx|] eqn:Hp; simplify_eq.
  assert (unwatched o ci) as Hu.
  { intros E HE <-. destruct Hinv as [_ Hw]. rewrite HE in Hw. destruct (es_conn _ _ Hw) as (c & Hc & Hcu).
    apply (position_holds _ _ _ _ Hp) in Hc. by rewrite Hcu in Hc. }
  split_and!; [|done| |done..].
  - apply frame_conn; [done| |done]. split; apply UnixRing_new_ok.
  - apply position_lt in Hp. destruct Hinv as [Hwf _]. by rewrite (nw_conns_len _ Hwf) in Hp.
Qed.
End frames.
