(* ===== verification/NetStep.v ===== *)
(** * Every request is served

    Every handler of the network server, on every message, answers without
    panicking and keeps the invariant; [frame] says what it leaves alone. *)

From stdpp Require Import base list option numbers.
From Stdlib Require Import ZArith Lia.
From S2P Require Import Prelude Words Rings Memory IpcPort VfsData VfsInv VfsTotal VfsPipe Net NetInv.
Import NetTags.

Local Open Scope Z_scope.

Section step.
Context (o : option ends) (pid : Z).
Implicit Types s : NetServer.

Lemma find_tbl_insert l i t : l !! i = Some t → st_in_use t = false → find_tbl pid l = None →
  find_tbl pid (<[i := mkSockTbl pid (socks ProcSockTable_empty) true]> l) = Some i.
Proof.
  intros Hi Hf Hn. apply position_unique with (x := mkSockTbl pid (socks ProcSockTable_empty) true).
  - apply list_lookup_insert_eq. by eapply lookup_lt_Some.
  - unfold sock_tbl_of. simpl. apply Z.eqb_refl.
  - intros j t' [(-> & _)|[_ Hj]]%insert_lookup_cases Ht'; [done|].
    rewrite (proj1 (position_None _ _) Hn j t' Hj) in Ht'. done.
Qed.

Lemma frame_create s i l : net_inv o s → get_or_create pid (n_socks s) = Some (i, l) →
  frame o pid s (set_socks l s) ∧ find_tbl pid l = Some i.
Proof.
  intros Hinv Hg. unfold get_or_create in Hg. destruct (find_tbl pid (n_socks s)) as [k|] eqn:Hf.
  { simplify_eq. split; [|done]. destruct s. by apply frame_refl. }
  destruct (position _ _) as [k|] eqn:Hp; simplify_eq. apply position_Some in Hp as (t & Ht & Hut & _). to_prop.
  split; [|by eapply find_tbl_insert]. destruct Hinv as [Hwf Hw].
  assert (t = ProcSockTable_empty) as ->.
  { assert (tbl_ok t) as (_ & _ & H) by (eapply Forall_lookup_1; [apply (nw_tbls _ Hwf)|done]). by apply H. }
  assert (∀ j k, entry_at (<[i := mkSockTbl pid (socks ProcSockTable_empty) true]> (n_socks s)) j k =
                 entry_at (n_socks s) j k) as Hent.
  { intros j k. unfold entry_at. destruct (decide (i = j)) as [<-|].
    - rewrite list_lookup_insert_eq by (by eapply lookup_lt_Some). by rewrite Ht.
    - by rewrite list_lookup_insert_ne. }
  split; [split| |].
  - pose proof (nw_one _ Hwf) as Hone. destruct Hwf. split; simpl; try done; [by rewrite length_insert| |].
    + apply Forall_insert_1; [done|]. assert (tbl_ok ProcSockTable_empty) as (H1 & H2 & _) by (by eapply Forall_lookup_1).
      by split_and!.
    + intros a b t t' [(-> & <- & _)|[_ Ha]]%insert_lookup_cases [(-> & <- & _)|[_ Hb]]%insert_lookup_cases Hu Hu' Hpp;
        simpl in *; [done| | |by eapply Hone].
      * apply (proj1 (position_None _ _) Hf) in Hb. unfold sock_tbl_of in Hb. rewrite Hu', <- Hpp, Z.eqb_refl in Hb. done.
      * apply (proj1 (position_None _ _) Hf) in Ha. unfold sock_tbl_of in Ha. rewrite Hu, Hpp, Z.eqb_refl in Ha. done.
  - destruct o as [E|]; simpl in *; [|done]. destruct Hw as [H1 H2 H3 H4 H5]. split; simpl; try done.
    + intros x. destruct (H1 x) as (t & Ht' & Hu & Hpt). exists t. rewrite list_lookup_insert_ne; [done|].
      intros ->. simplify_eq.
    + intros x. rewrite Hent. apply H2.
    + intros j k e. rewrite Hent. apply H4.
  - by intros E _.
  - intros j t Hj Hu Hpt. exists t. simpl. rewrite list_lookup_insert_ne by (intros ->; simplify_eq).
    split_and!; [done..|]. apply Forall_Forall2_diag, Forall_true. constructor.
Qed.

(** The free slot that [alloc] finds. *)
Lemma alloc_slot l i slot : (t ← l !! i; sock_alloc t) = Some slot →
  ∃ e, entry_at l i slot = Some e ∧ k_in_use e = false.
Proof.
  intros Ha. destruct (l !! i) as [t|] eqn:Ht; [|done]. simpl in Ha. unfold entry_at. rewrite Ht. simpl.
  apply position_Some in Ha as (e & He & Hf & _). to_prop. eauto.
Qed.

Lemma frame_new_sock s e r s' : net_inv o s → entry_ok e → (∀ ci, conn_of (k_state e) = Some ci → unwatched o ci) →
  new_sock pid e s = (r, s') → frame o pid s s' ∧ n_listeners s' = n_listeners s ∧ n_conns s' = n_conns s.
Proof.
  intros Hinv He Hci Hn. unfold new_sock in Hn.
  destruct (get_or_create pid (n_socks s)) as [[i l]|] eqn:Hg; simplify_eq; [|by split; [apply frame_refl|]].
  destruct (frame_create s i l Hinv Hg) as [Hf Hi].
  destruct (t ← l !! i; sock_alloc t) as [slot|] eqn:Ha; simplify_eq; [|done].
  split; [|done]. apply (frame_trans o pid s (set_socks l s)); [done|].
  destruct (alloc_slot _ _ _ Ha) as (e' & He' & Hf'). apply (frame_put o pid (set_socks l s)); [apply Hf| |done..].
  eapply own_slot_free; [apply Hf|done..].
Qed.

Lemma frame_update s K k f : net_inv o s → avoids o pid K → K k →
  (∀ e, k_in_use e = true → entry_ok e → entry_ok (f e) ∧
     ∀ ci, conn_of (k_state (f e)) = Some ci → conn_of (k_state e) = Some ci ∨ unwatched o ci) →
  frame o pid s (update_sock pid k f s).
Proof.
  intros Hinv Ha HK Hf. unfold update_sock. destruct (sock_in pid k (n_socks s)) as [[i e]|] eqn:Hs; [|by apply frame_refl].
  apply sock_in_Some in Hs as Hs'. destruct Hs' as (Hi & He & Hu).
  destruct (Hf e Hu) as [Hok Hci]; [by eapply entry_in|].
  apply frame_put; [done|by eapply own_slot_named|done|]. intros ci Hc. destruct (Hci ci Hc); [|done].
  by eapply named_unwatched.
Qed.

(** ** Backlogs *)

Lemma shift_queue_lookup a m (q : list nat) j : (a + m < length q)%nat →
  foldl (λ q i, <[i := default 0%nat (q !! (i + 1)%nat)]> q) q (seq a m) !! j =
    if decide (a ≤ j < a + m)%nat then q !! (j + 1)%nat else q !! j.
Proof.
  revert a q. induction m as [|m IH]; intros a q Hlen; cbn [seq foldl].
  { rewrite decide_False by lia. done. }
  rewrite IH by (rewrite length_insert; lia).
  destruct (lookup_lt_is_Some_2 q (a + 1)) as [x Hx]; [lia|]. rewrite Hx. simpl.
  destruct (decide (j = a)) as [->|Hne].
  - rewrite decide_False, decide_True by lia. rewrite list_lookup_insert_eq by lia. done.
  - repeat case_decide; try lia; rewrite list_lookup_insert_ne by lia; done.
Qed.

Lemma length_shift_queue n q : length (shift_queue n q) = length q.
Proof.
  unfold shift_queue. generalize (seq 0 (n - 1)). intros l. revert q.
  induction l as [|i l IH]; intros q; simpl; [done|]. by rewrite IH, length_insert.
Qed.

(** The queue without its oldest entry. *)
Lemma take_shift_queue n q : (0 < n)%nat → (n ≤ length q)%nat →
  take (n - 1) (shift_queue n q) = drop 1 (take n q).
Proof.
  intros Hn Hlen. apply list_eq. intros j. rewrite lookup_drop. destruct (decide (j < n - 1)%nat).
  - rewrite !lookup_take_lt by lia. unfold shift_queue. rewrite shift_queue_lookup by lia.
    rewrite decide_True by lia. f_equal. lia.
  - rewrite !lookup_ge_None_2; [done|rewrite length_take; lia..].
Qed.

Lemma shift_queue_elem n q x : (0 < n)%nat → (n ≤ length q)%nat → x ∈ shift_queue n q → x ∈ q.
Proof.
  intros Hn Hlen [j Hj]%list_elem_of_lookup. unfold shift_queue in Hj. rewrite shift_queue_lookup in Hj by lia.
  case_decide; by eapply list_elem_of_lookup_2.
Qed.

Lemma listener_in s idx l : net_inv o s → n_listeners s !! idx = Some l → listener_ok l.
Proof. intros [Hwf _] Hl. eapply Forall_lookup_1; [apply (nw_listeners _ Hwf)|done]. Qed.

Lemma frame_dequeue s port : net_inv o s → ∃ r s', dequeue_pending port s = Ret (r, s') ∧ frame o pid s s' ∧
  n_socks s' = n_socks s ∧ n_mem s' = n_mem s ∧
  ∀ ci, r = Some ci → unwatched o ci ∧ (ci < MAX_CONNS)%nat.
Proof.
  intros Hinv. unfold dequeue_pending. assert (frame o pid s s) as Hrefl by (by apply frame_refl).
  destruct (position _ _) as [idx|]; [|by eexists _, _]. destruct (n_listeners s !! idx) as [l|] eqn:Hl; [|by eexists _, _].
  destruct (listener_in _ _ _ Hinv Hl) as (Hlen & Hn & HF). case_bool; [by eexists _, _|].
  destruct (l_pending l) as [|ci q] eqn:Hq; [done|]. simpl. eexists _, _. split; [done|].
  assert (ci ∈ take (l_n_pending l) (l_pending l)) as Hin.
  { rewrite Hq. destruct (l_n_pending l); [lia|]. simpl. left. }
  split_and!; [|done..|].
  - apply frame_listener; [done| |].
    + split_and!; simpl; [by rewrite length_shift_queue|lia|]. rewrite Forall_forall in HF |- *.
      intros x Hx%list_elem_of_In. apply HF, list_elem_of_In. eapply shift_queue_elem; [..|done]; lia.
    + intros E HE. simpl. rewrite take_shift_queue by lia. intros Hx.
      apply (watched_queue o s E idx l Hinv HE Hl). rewrite Hq. apply list_elem_of_In.
      apply list_elem_of_In in Hx. rewrite <- (take_drop 1 (take _ _)). apply in_or_app. by right.
  - intros c [= <-]. split; [|by inversion HF].
    intros E HE Heq. rewrite <- Heq, <- ?Hq in Hin. by apply (watched_queue o s E idx l Hinv HE Hl).
Qed.

Lemma frame_enqueue s port ci s' : net_inv o s → (ci < MAX_CONNS)%nat → unwatched o ci →
  enqueue_pending port ci s = Some s' → frame o pid s s' ∧ n_socks s' = n_socks s.
Proof.
  intros Hinv Hci Hu He. unfold enqueue_pending in He.
  destruct (position _ _) as [idx|]; [|by simplify_eq; split; [apply frame_refl|]].
  destruct (n_listeners s !! idx) as [l|] eqn:Hl; [|by simplify_eq; split; [apply frame_refl|]].
  destruct (listener_in _ _ _ Hinv Hl) as (Hlen & Hn & HF). case_bool; simplify_eq. split; [|done].
  apply frame_listener; [done| |].
  - split_and!; simpl; [by rewrite length_insert|lia|by apply Forall_insert_1].
  - intros E HE. simpl. rewrite Nat.add_1_r, (take_S_r _ _ ci) by (apply list_lookup_insert_eq; lia).
    rewrite take_insert_ge, elem_of_app by done. rewrite list_elem_of_singleton.
    intros [Hx|Hx]; [|by apply (Hu E HE)]. by apply (watched_queue o s E idx l Hinv HE Hl).
Qed.

(** ** Completing a connection *)

Lemma promote_first_lookup st st' l k e' : promote_first st st' l !! k = Some e' ↔
  ∃ e, l !! k = Some e ∧
    e' = if decide (position (λ e, bool_decide (k_state e = st)) l = Some k) then set_k_state st' e else e.
Proof.
  unfold promote_first. destruct (position _ l) as [j|]; [|case_decide; naive_solver].
  destruct (decide (Some j = Some k)) as [[= ->]|Hne].
  - rewrite list_lookup_alter_eq. destruct (l !! k); naive_solver.
  - rewrite list_lookup_alter_ne by congruence. naive_solver.
Qed.

Lemma length_promote_first st st' l : length (promote_first st st' l) = length l.
Proof. unfold promote_first. case_match; [apply length_alter|done]. Qed.

Lemma promote_first_rel st st' l : Forall2 (λ e e', e' = e ∨ k_state e = st ∧ e' = set_k_state st' e) l (promote_first st st' l).
Proof.
  apply Forall2_same_length_lookup. split; [by rewrite length_promote_first|].
  intros k e e' He (x & Hx & ->)%promote_first_lookup. simplify_eq. case_decide as Hp; [right|by left].
  split; [|done]. apply (position_holds _ _ _ _ Hp) in He. by to_prop.
Qed.

Lemma lookup_promote st st' l i t' : promote st st' l !! i = Some t' ↔
  ∃ t, l !! i = Some t ∧ t' = if st_in_use t then mkSockTbl (st_pid t) (promote_first st st' (socks t)) true else t.
Proof. unfold promote. rewrite list_lookup_fmap. destruct (l !! i); simpl; naive_solver. Qed.

(** An entry afterwards, and before. *)
Lemma entry_at_promote st st' l i k e' : entry_at (promote st st' l) i k = Some e' →
  ∃ e, entry_at l i k = Some e ∧ (e' = e ∨ k_state e = st ∧ e' = set_k_state st' e).
Proof.
  unfold entry_at, promote. rewrite list_lookup_fmap. destruct (l !! i) as [t|]; [|done]. simpl.
  destruct (st_in_use t); simpl; [|eauto]. intros (e & He & ->)%promote_first_lookup. exists e. split; [done|].
  case_decide as Hp; [right|by left]. split; [|done]. apply (position_holds _ _ _ _ Hp) in He. by to_prop.
Qed.

Lemma entry_at_promote_keep st st' l i k e : entry_at l i k = Some e → k_state e ≠ st →
  entry_at (promote st st' l) i k = Some e.
Proof.
  unfold entry_at, promote. rewrite list_lookup_fmap. destruct (l !! i) as [t|]; [|done]. simpl. intros He Hne.
  destruct (st_in_use t); simpl; [|done]. apply promote_first_lookup. exists e. split; [done|].
  rewrite decide_False; [done|]. intros Hp. apply (position_holds _ _ _ _ Hp) in He. by to_prop.
Qed.

Lemma frame_promote s ci (is_inet : bool) : net_inv o s → (ci < MAX_CONNS)%nat → unwatched o ci →
  let st := if is_inet then InetPendingAccept ci else PendingAccept ci in
  frame o pid s (set_socks (promote st (Connected ci true) (n_socks s)) s).
Proof.
  intros [Hwf Hw] Hci Hu st. assert (conn_of st = Some ci) as Hst by (by unfold st; destruct is_inet).
  split; [split| |].
  - pose proof (nw_one _ Hwf) as Hone. pose proof (nw_tbls _ Hwf) as HT. destruct Hwf. split; simpl; try done.
    + unfold promote. by rewrite length_fmap.
    + apply Forall_lookup. intros i t' (t & Ht & ->)%lookup_promote.
      assert (tbl_ok t) as (Hl & HF & Hd) by (by eapply Forall_lookup_1).
      destruct (st_in_use t) eqn:Hut; [|split_and!; [done..|by intros _; apply Hd]]. split_and!; simpl; [by rewrite length_promote_first| |done].
      apply Forall_lookup. intros k e' (e & He & ->)%promote_first_lookup.
      assert (entry_ok e) as [Hf Hc] by (by eapply Forall_lookup_1). case_decide as Hp; [|by split].
      apply (position_holds _ _ _ _ Hp) in He. to_prop. split; simpl; [|by intros c [= <-]].
      intros He0%Hf. by rewrite He0 in He; rewrite <- He in Hst.
    + intros i j t t' (a & Ha & ->)%lookup_promote (b & Hb & ->)%lookup_promote Hta Htb Heq.
      apply (Hone i j a b Ha Hb); repeat case_bool; simpl in *; congruence.
  - destruct o as [E|]; simpl in *; [|done]. destruct Hw as [H1 H2 H3 H4 H5]. split; simpl; try done.
    + intros x. destruct (H1 x) as (t & Ht & Hut & Hpt). eexists. rewrite lookup_promote. split; [by eexists|].
      by rewrite Hut.
    + intros x. destruct (H2 x) as (e & He & Hue & Hse). exists e. split; [|done]. apply entry_at_promote_keep; [done|].
      rewrite Hse. unfold st. by destruct is_inet.
    + intros i k e' (e & He & Hor)%entry_at_promote Hc. apply (H4 i k e He).
      destruct Hor as [->|[Hse ->]]; [done|]. simpl in Hc. rewrite Hse. congruence.
  - by intros E _.
  - intros i t Ht Hut Hpt. simpl. eexists. rewrite lookup_promote. split; [by eexists|]. rewrite Hut. split_and!; [done..|].
    simpl. eapply Forall2_impl; [|apply (promote_first_rel st (Connected ci true) (socks t))].
    simpl. intros e e' [->|[Hse ->]]; [constructor|]. unfold st in Hse. destruct is_inet; by constructor.
Qed.

(** ** The handlers *)

Definition answers s (r : outcome (Message * NetServer)) : Prop := ∃ m s', r = Ret (m, s') ∧ frame o pid s s'.

Definition named (fd : Z) (k : nat) : Prop := fd_to_slot fd = Some k.

Lemma entry_ok_used st port domain : (∀ ci, conn_of st = Some ci → (ci < MAX_CONNS)%nat) →
  entry_ok (mkSock st true port domain).
Proof. intros H. by split. Qed.

Lemma entry_ok_empty : entry_ok SockEntry_empty.
Proof. by split. Qed.

Lemma socket_frame s domain sock_type : net_inv o s → frame o pid s (handle_socket pid domain sock_type s).2.
Proof.
  intros Hinv. unfold handle_socket. case_bool; [by apply frame_refl|].
  destruct (new_sock pid _ s) as [r s'] eqn:Hn. apply frame_new_sock in Hn as [Hf _]; [|done|by apply entry_ok_used|done].
  by destruct r.
Qed.

Lemma named_state_frame s fd k st : net_inv o s → avoids o pid (named fd) → fd_to_slot fd = Some k →
  (∀ ci, conn_of st = Some ci → (ci < MAX_CONNS)%nat ∧ unwatched o ci) →
  frame o pid s (update_sock pid k (set_k_state st) s).
Proof.
  intros Hinv Ha Hk Hst. eapply frame_update; [done..|]. intros [st' u p d] Hu _. simpl in *. subst u. split.
  - apply entry_ok_used. intros ci Hc. by apply Hst.
  - intros ci Hc. right. by apply Hst.
Qed.

(** A path that is bound matches what the comparison reads. *)
Lemma path_matches_name m p n b : bound_ok b → 0 ≤ n ≤ PATH_MAX →
  path_matches m p n b = true ↔ bound_name b = Some (mem_read m p n).
Proof.
  intros [Hl Hb] Hn. unfold path_matches, bound_name. destruct (bp_in_use b); [|done]. simpl.
  rewrite andb_true_iff, Z.eqb_eq, bool_decide_eq_true. split; [intros [-> ->]; done|]. intros [= Heq].
  assert (bp_path_len b = n) as <-; [|done]. apply (f_equal length) in Heq.
  rewrite length_mem_read, length_take in Heq. lia.
Qed.

Lemma existsb_lookup {A} (p : A → bool) l i x : existsb p l = false → l !! i = Some x → p x = false.
Proof.
  intros He Hx. destruct (p x) eqn:Hp; [|done]. assert (existsb p l = true); [|congruence].
  apply existsb_exists. exists x. split; [|done]. apply list_elem_of_In. by eapply list_elem_of_lookup_2.
Qed.

Lemma bind_unix_frame s fd k addr_ptr addrlen : net_inv o s → avoids o pid (named fd) → fd_to_slot fd = Some k →
  frame o pid s (bind_unix pid k addr_ptr addrlen s).2.
Proof.
  intros Hinv Ha Hk. pose proof Hinv as [Hwf _]. unfold bind_unix. case_bool; [by apply frame_refl|]. to_prop.
  destruct (existsb _ _) eqn:Hex; [by apply frame_refl|].
  destruct (position _ _) as [idx|] eqn:Hp; [|by apply frame_refl]. cbn [snd]. set (b := mkBound _ _ _ _ _). unfold PATH_MAX in *.
  assert (bound_name b = Some (mem_read (n_mem s) (addr_ptr + 2) (addrlen - 2))) as Hb.
  { unfold bound_name. cbn [bp_in_use bp_path bp_path_len b]. f_equal. apply take_app_length'.
    by rewrite length_mem_read. }
  assert (frame o pid s (set_bound (<[idx := b]> (n_bound s)) s)) as Hf.
  2: { apply (frame_trans _ _ _ _ _ Hf). by eapply named_state_frame; [apply Hf|..]. }
  apply frame_bound; [done|by rewrite length_insert, (nw_bound_len _ Hwf)| |].
  - apply Forall_insert_1; [apply (nw_bound _ Hwf)|]. split; cbn [bp_path bp_path_len b]; [|unfold PATH_MAX; lia].
    rewrite length_app, length_mem_read, length_replicate. unfold PATH_MAX. lia.
  - assert (∀ j b' n, n_bound s !! j = Some b' → bound_name b = Some n → bound_name b' = Some n → False) as Hno.
    { intros j b' n Hj Hn Hn'. assert (path_matches (n_mem s) (addr_ptr + 2) (addrlen - 2) b' = true) as Hm.
      { apply path_matches_name; [eapply Forall_lookup_1; [apply (nw_bound _ Hwf)|done]|unfold PATH_MAX; lia|congruence]. }
      rewrite (existsb_lookup _ _ _ _ Hex Hj) in Hm. done. }
    intros i j b1 b2 n [(-> & <- & _)|[_ Hi]]%insert_lookup_cases [(-> & <- & _)|[_ Hj]]%insert_lookup_cases H1 H2;
      [done|by destruct (Hno j b2 n)|by destruct (Hno i b1 n)|]. by eapply (nw_paths _ Hwf i j b1 b2 n).
Qed.

Lemma bind_inet_frame s fd k addr_ptr addrlen : net_inv o s → avoids o pid (named fd) → fd_to_slot fd = Some k →
  frame o pid s (bind_inet pid k addr_ptr addrlen s).2.
Proof.
  intros Hinv Ha Hk. unfold bind_inet. repeat case_bool; try by apply frame_refl.
  eapply frame_update; [done..|]. intros [st u p d] Hu [_ Hci]. simpl in *. subst u. split; [by apply entry_ok_used|].
  intros ci Hc. by left.
Qed.

Lemma bind_frame s fd addr_ptr addrlen : net_inv o s → avoids o pid (named fd) →
  frame o pid s (handle_bind pid fd addr_ptr addrlen s).2.
Proof.
  intros Hinv Ha. unfold handle_bind. destruct (fd_to_slot fd) as [k|] eqn:Hk; [|by apply frame_refl].
  repeat case_bool; [by apply frame_refl|by eapply bind_inet_frame|by eapply bind_unix_frame].
Qed.

Lemma listen_frame s fd : net_inv o s → avoids o pid (named fd) → frame o pid s (handle_listen pid fd s).2.
Proof.
  intros Hinv Ha. unfold handle_listen. destruct (own_sock pid fd s) as [[[i k] e]|] eqn:Ho; [|by apply frame_refl].
  apply own_sock_Some in Ho as (Hk & Hs). apply sock_in_Some in Hs as (Hi & He & Hu).
  repeat (case_bool; [|by apply frame_refl] || (case_bool; [by apply frame_refl|])).
  set (s1 := set_socks _ s). assert (frame o pid s s1) as Hf.
  { apply frame_put; [done|by eapply own_slot_named| |done]. destruct e as [st u p d]. simpl in *. subst u.
    by apply entry_ok_used. }
  destruct (position _ _) as [idx|]; [|done]. cbn [snd]. apply (frame_trans _ _ _ _ _ Hf).
  apply frame_listener; [apply Hf| |intros E _; apply not_elem_of_nil]. split_and!; simpl; [done|lia|].
  repeat constructor; unfold MAX_CONNS; lia.
Qed.

Lemma connect_inet_frame s fd k addr_ptr addrlen : net_inv o s → avoids o pid (named fd) → fd_to_slot fd = Some k →
  frame o pid s (connect_inet pid k addr_ptr addrlen s).2.
Proof.
  intros Hinv Ha Hk. unfold connect_inet. do 2 (case_bool; [by apply frame_refl|]).
  destruct (position _ _) as [idx|]; [|by apply frame_refl].
  destruct (alloc_conn s) as [[ci s1]|] eqn:Hal; [|by apply frame_refl].
  destruct (frame_alloc o pid s ci s1 Hinv Hal) as (Hf & Hu & Hci & _).
  destruct (enqueue_pending _ ci s1) as [s2|] eqn:He; [|done].
  destruct (frame_enqueue s1 _ ci s2 (fr_inv _ _ _ _ Hf) Hci Hu He) as [Hf2 _]. cbn [snd].
  eapply frame_trans; [done|]. eapply frame_trans; [done|].
  eapply named_state_frame; [apply Hf2|done..|]. by intros c [= <-].
Qed.

Lemma connect_frame s fd addr_ptr addrlen : net_inv o s → avoids o pid (named fd) →
  frame o pid s (handle_connect pid fd addr_ptr addrlen s).2.
Proof.
  intros Hinv Ha. unfold handle_connect. destruct (fd_to_slot fd) as [k|] eqn:Hk; [|by apply frame_refl].
  do 2 (case_bool; [by (by apply frame_refl) || by eapply connect_inet_frame|]).
  unfold connect_unix. case_bool; [by apply frame_refl|]. destruct (position _ _) as [idx|]; [|by apply frame_refl].
  destruct (alloc_conn s) as [[ci s1]|] eqn:Hal; [|by apply frame_refl].
  destruct (frame_alloc o pid s ci s1 Hinv Hal) as (Hf & Hu & Hci & _). cbn [snd].
  eapply frame_trans; [done|]. eapply named_state_frame; [apply Hf|done..|]. by intros c [= <-].
Qed.

(** ** Accepting *)

Lemma scan_pending_Some l ci : scan_pending l = Some ci →
  ∃ i k e, entry_at l i k = Some e ∧ k_state e = PendingAccept ci.
Proof.
  assert (∀ q, find_pending q = Some ci → ∃ k e, q !! k = Some e ∧ k_state e = PendingAccept ci) as Hq.
  { induction q as [|e q IH]; [done|]. simpl. unfold pending_conn.
    destruct (k_state e) eqn:He; intros Hf; try (destruct (IH Hf) as (k & e' & ? & ?); by exists (S k), e').
    simplify_eq. by exists 0%nat, e. }
  induction l as [|t l IH]; [done|]. simpl. intros Hs.
  assert (scan_pending l = Some ci ∨ find_pending (socks t) = Some ci) as [H|H].
  { destruct (st_in_use t); [|by left]. destruct (find_pending (socks t)); [by right|by left]. }
  - destruct (IH H) as (i & k & e & ? & ?). by exists (S i), k, e.
  - destruct (Hq _ H) as (k & e & ? & ?). by exists 0%nat, k, e.
Qed.

Lemma accept_conn_frame s addr_ptr ci is_inet : net_inv o s → (ci < MAX_CONNS)%nat → unwatched o ci →
  frame o pid s (accept_conn pid addr_ptr ci is_inet s).2.
Proof.
  intros Hinv Hci Hu. unfold accept_conn. destruct (new_sock pid _ s) as [r s1] eqn:Hn.
  apply frame_new_sock in Hn as [Hf _]; [|done|by apply entry_ok_used; intros c [= <-]|by intros c [= <-]].
  destruct r as [k|e]; [|done]. cbn [snd]. apply (frame_trans _ _ _ _ _ Hf).
  pose proof (frame_promote s1 ci is_inet (fr_inv _ _ _ _ Hf) Hci Hu) as Hf2. cbv zeta in Hf2.
  case_bool; [done|]. apply (frame_trans _ _ _ _ _ Hf2). apply frame_mem, Hf2.
Qed.

Lemma accept_answers s fd addr_ptr : net_inv o s → answers s (handle_accept pid fd addr_ptr s).
Proof.
  intros Hinv. unfold handle_accept. assert (∀ m, answers s (Ret (m, s))) as Hs.
  { intros m. eexists _, _. split; [done|]. by apply frame_refl. }
  destruct (own_sock pid fd s) as [[[i k] e]|] eqn:Ho; [|done]. destruct (k_state e); try done.
  - destruct (scan_pending (n_socks s)) as [ci|] eqn:Hsc; [|done].
    apply scan_pending_Some in Hsc as (j & k' & e' & He' & Hst).
    destruct (accept_conn _ _ _ _ _) as [m s'] eqn:Hacc. eexists _, _. split; [done|].
    replace s' with (accept_conn pid addr_ptr ci false s).2 by (by rewrite Hacc).
    apply accept_conn_frame; [done| |].
    + apply (entry_in o s _ _ _ Hinv He'). by rewrite Hst.
    + intros E HE <-. destruct Hinv as [_ Hw]. rewrite HE in Hw.
      destruct (es_only _ _ Hw j k' e' He') as [x Hx]; [by rewrite Hst|].
      destruct (es_end _ _ Hw x) as (e2 & He2 & _ & Hst2). rewrite <- Hx in He2. simpl in He2. congruence.
  - destruct (frame_dequeue s (k_bound_port e) Hinv) as (r & s1 & -> & Hf & _ & _ & Hr).
    destruct r as [ci|]; [|by eexists _, _]. destruct (Hr ci eq_refl) as [Hu Hci].
    destruct (accept_conn _ _ _ _ _) as [m s'] eqn:Hacc. eexists _, _. split; [done|].
    replace s' with (accept_conn pid addr_ptr ci true s1).2 by (by rewrite Hacc).
    apply (frame_trans _ _ _ _ _ Hf), accept_conn_frame; [apply Hf|done..].
Qed.

(** ** Pairs of sockets *)

Lemma socketpair_frame s domain sv_ptr : net_inv o s → frame o pid s (handle_socketpair pid domain sv_ptr s).2.
Proof.
  intros Hinv. unfold handle_socketpair. case_bool; [by apply frame_refl|].
  destruct (alloc_conn s) as [[ci s1]|] eqn:Hal; [|by apply frame_refl].
  destruct (frame_alloc o pid s ci s1 Hinv Hal) as (Hf & Hu & Hci & _).
  destruct (get_or_create pid (n_socks s1)) as [[i l]|] eqn:Hg; [|done].
  destruct (frame_create s1 i l (fr_inv _ _ _ _ Hf) Hg) as [Hf1 Hi]. apply (frame_trans _ _ _ _ _ Hf).
  destruct (t ← l !! i; sock_alloc t) as [a|] eqn:Ha; [|done]. destruct (alloc_slot _ _ _ Ha) as (ea & Hea & Hfa).
  assert (own_slot o pid (set_socks l s1) i a) as Hown by (eapply own_slot_free; [apply Hf1|done..]).
  set (la := put_sock i a (mkSock (Connected ci true) true 0 AF_UNIX) l).
  assert (frame o pid s1 (set_socks la s1)) as Hf2.
  { apply (frame_trans _ _ _ _ _ Hf1). apply (frame_put o pid (set_socks l s1)); [apply Hf1|done| |by intros c [= <-]].
    apply entry_ok_used. by intros c [= <-]. }
  assert (∃ t, la !! i = Some t ∧ st_in_use t = true ∧ st_pid t = pid) as Hti.
  { apply find_tbl_Some in Hi as (t & Ht & Hut & Hpt).
    exists (mkSockTbl (st_pid t) (<[a := mkSock (Connected ci true) true 0 AF_UNIX]> (socks t)) (st_in_use t)).
    split; [|done]. apply lookup_put_sock. exists t. by rewrite decide_True. }
  destruct (t ← la !! i; sock_alloc t) as [b|] eqn:Hb; cbn [snd].
  - destruct (alloc_slot _ _ _ Hb) as (eb & Heb & Hfb).
    set (lb := put_sock i b _ la). assert (frame o pid s1 (set_socks lb s1)) as Hf3.
    2: { apply (frame_trans _ _ _ _ _ Hf3), frame_mem, Hf3. }
    apply (frame_trans _ _ _ _ _ Hf2), (frame_put o pid (set_socks la s1)); [apply Hf2| | |by intros c [= <-]].
    + split; [done|]. intros E x HE Hx. destruct (fr_inv _ _ _ _ Hf2) as [_ Hw]. rewrite HE in Hw.
      destruct (es_end _ _ Hw x) as (e & He & Hue & _). rewrite Hx in He. simpl in He. congruence.
    + apply entry_ok_used. by intros c [= <-].
  - apply (frame_trans _ _ _ _ _ Hf2), (frame_put o pid (set_socks la s1)); [apply Hf2|split; [done|]| |done].
    + apply Hown.
    + apply entry_ok_empty.
Qed.

(** ** Sending and receiving *)

Lemma conn_in s ci : net_inv o s → (ci < MAX_CONNS)%nat → ∃ c, n_conns s !! ci = Some c ∧ conn_ok c.
Proof.
  intros [Hwf _] Hci. destruct (lookup_lt_is_Some_2 (n_conns s) ci) as [c Hc]; [by rewrite (nw_conns_len _ Hwf)|].
  exists c. split; [done|]. eapply Forall_lookup_1; [apply (nw_conns _ Hwf)|done].
Qed.

Lemma out_ring_ok x c : conn_ok c → ur_ok (out_ring x c).
Proof. intros [Ha Hb]. by destruct x. Qed.

Lemma set_out_ring_ok x r c : conn_ok c → ur_ok r → conn_ok (set_out_ring x r c).
Proof. intros [Ha Hb] Hr. by destruct x; split. Qed.

(** The connection of the caller's socket. *)
Lemma own_conn s fd i k e ci x : net_inv o s → avoids o pid (named fd) → own_sock pid fd s = Some (i, k, e) →
  k_state e = Connected ci x → unwatched o ci ∧ ∃ c, n_conns s !! ci = Some c ∧ conn_ok c.
Proof.
  intros Hinv Ha (Hk & Hs)%own_sock_Some Hst. split.
  - eapply named_unwatched; [done| |done..|by rewrite Hst]. exact Hk.
  - apply conn_in; [done|]. apply sock_in_Some in Hs as (_ & He & _). apply (entry_in o s _ _ _ Hinv He). by rewrite Hst.
Qed.

Lemma send_answers s fd buf_ptr len : net_inv o s → avoids o pid (named fd) →
  answers s (handle_send pid fd buf_ptr len s).
Proof.
  intros Hinv Ha. unfold handle_send. assert (∀ m, answers s (Ret (m, s))) as Hs.
  { intros m. eexists _, _. split; [done|]. by apply frame_refl. }
  destruct (own_sock pid fd s) as [[[i k] e]|] eqn:Ho; [|done]. destruct (k_state e) as [| | | |ci x| |] eqn:Hst; try done.
  destruct (own_conn _ _ _ _ _ _ _ Hinv Ha Ho Hst) as (Hu & c & Hc & Hok). rewrite Hc. case_bool; [done|].
  pose proof (ring_write_spec (n_mem s) buf_ptr len (out_ring x c) (out_ring_ok x c Hok)) as Hr.
  destruct (ring_write _ _ _ _) as [n r]. destruct Hr as (_ & Hr & _). eexists _, _. split; [done|].
  apply frame_conn; [done|by apply set_out_ring_ok|done].
Qed.

Lemma recv_answers s fd buf_ptr len : net_inv o s → avoids o pid (named fd) →
  answers s (handle_recv pid fd buf_ptr len s).
Proof.
  intros Hinv Ha. unfold handle_recv. assert (∀ m, answers s (Ret (m, s))) as Hs.
  { intros m. eexists _, _. split; [done|]. by apply frame_refl. }
  destruct (own_sock pid fd s) as [[[i k] e]|] eqn:Ho; [|done]. destruct (k_state e) as [| | | |ci x| |] eqn:Hst; try done.
  destruct (own_conn _ _ _ _ _ _ _ Hinv Ha Ho Hst) as (Hu & c & Hc & Hok). rewrite Hc. case_bool; [done|].
  pose proof (ring_read_spec len (out_ring (negb x) c) (out_ring_ok _ c Hok)) as Hr.
  destruct (ring_read _ _) as [bs r]. destruct Hr as (_ & Hr & _). eexists _, _. split; [done|].
  pose proof (frame_conn o pid s ci _ Hinv (set_out_ring_ok (negb x) r c Hok Hr) Hu) as Hf.
  apply (frame_trans _ _ _ _ _ Hf), frame_mem, Hf.
Qed.

Lemma iov_answers io s p : net_inv o s → (∀ base len s, net_inv o s → answers s (io base len s)) →
  answers s (iov_call io p s).
Proof.
  intros Hinv Hio. unfold iov_call. case_bool; [by eexists _, _; split; [|apply frame_refl]|].
  generalize (seq 0 (Z.to_nat (Z.min (read_u64 (n_mem s) (p + 24)) 16))) as l, 0 as total.
  generalize (read_u64 (n_mem s) (p + 16)) as iov. intros iov l. revert s Hinv.
  induction l as [|i l IH]; intros s Hinv total; simpl; [by eexists _, _; split; [|apply frame_refl]|].
  destruct (Hio (read_u64 (n_mem s) (iov + Z.of_nat i * 16)) (read_u64 (n_mem s) (iov + Z.of_nat i * 16 + 8)) s Hinv)
    as (m & s1 & -> & Hf). case_bool; [by eexists _, _|].
  destruct (IH s1 (fr_inv _ _ _ _ Hf) (total + net_val m)) as (m2 & s2 & -> & Hf2). eexists _, _. split; [done|].
  by eapply frame_trans.
Qed.

(** ** Closing *)

Lemma put_empty_frame s K i k e : net_inv o s → avoids o pid K → K k → sock_in pid k (n_socks s) = Some (i, e) →
  frame o pid s (set_socks (put_sock i k SockEntry_empty (n_socks s)) s).
Proof.
  intros Hinv Ha HK (Hi & _)%sock_in_Some. apply frame_put; [done|by eapply own_slot_named|apply entry_ok_empty|done].
Qed.

Lemma close_side_ok x c : conn_ok c → conn_ok (close_side x c).
Proof. by intros [? ?]. Qed.

Lemma shutdown_answers s fd : net_inv o s → avoids o pid (named fd) → answers s (handle_shutdown pid fd s).
Proof.
  intros Hinv Ha. unfold handle_shutdown. assert (∀ m, answers s (Ret (m, s))) as Hs.
  { intros m. eexists _, _. split; [done|]. by apply frame_refl. }
  destruct (fd_to_slot fd) as [k|] eqn:Hk; [|done]. destruct (sock_in pid k (n_socks s)) as [[i e]|] eqn:Hi; [|done].
  pose proof (put_empty_frame _ _ _ _ _ Hinv Ha Hk Hi) as Hf.
  destruct (k_state e) as [| | | |ci x| |] eqn:Hst; try by eexists _, _.
  assert (own_sock pid fd s = Some (i, k, e)) as Ho by (by apply own_sock_Some).
  destruct (own_conn _ _ _ _ _ _ _ Hinv Ha Ho Hst) as (Hu & c & Hc & Hok). rewrite Hc. eexists _, _. split; [done|].
  apply (frame_trans _ _ _ _ _ Hf), (frame_conn o pid (set_socks _ s)); [apply Hf|by apply close_side_ok|done].
Qed.

Lemma free_conn_insert ci c l : l !! ci = Some c → free_conn ci l = <[ci := set_uc_in_use false c]> l.
Proof. apply alter_insert. Qed.

Lemma frame_free_conn s ci : net_inv o s → (ci < MAX_CONNS)%nat → unwatched o ci →
  frame o pid s (set_conns (free_conn ci (n_conns s)) s).
Proof.
  intros Hinv Hci Hu. destruct (conn_in _ _ Hinv Hci) as (c & Hc & Hok). rewrite (free_conn_insert _ _ _ Hc).
  by apply frame_conn.
Qed.

Lemma listener_empty_ok : listener_ok InetListener_empty.
Proof. split_and!; simpl; [done|lia|]. repeat constructor; unfold MAX_CONNS; lia. Qed.

Lemma close_answers s fd : net_inv o s → avoids o pid (named fd) → answers s (handle_close pid fd s).
Proof.
  intros Hinv Ha. unfold handle_close. destruct (own_sock pid fd s) as [[[i k] e]|] eqn:Ho.
  2: { eexists _, _. split; [done|]. by apply frame_refl. }
  apply own_sock_Some in Ho as Hks. destruct Hks as [Hk Hi]. pose proof (put_empty_frame _ _ _ _ _ Hinv Ha Hk Hi) as Hf.
  destruct (k_state e) as [| | | |ci x| |] eqn:Hst; try by eexists _, _.
  - case_bool; [by eexists _, _|]. destruct (position _ _) as [idx|]; [|by eexists _, _]. eexists _, _. split; [done|].
    apply (frame_trans _ _ _ _ _ Hf), (frame_listener o pid (set_socks _ s)); [apply Hf|apply listener_empty_ok|].
    intros E _. apply not_elem_of_nil.
  - destruct (own_conn _ _ _ _ _ _ _ Hinv Ha Ho Hst) as (Hu & c & Hc & Hok). rewrite Hc. eexists _, _. split; [done|].
    apply (frame_trans _ _ _ _ _ Hf), (frame_free_conn (set_socks _ s)); [apply Hf| |done].
    apply lookup_lt_Some in Hc. destruct Hinv as [Hwf _]. by rewrite (nw_conns_len _ Hwf) in Hc.
Qed.

(** Closing connections one after the other. *)
Lemma free_conns_frame cis s : net_inv o s → Forall (λ ci, (ci < MAX_CONNS)%nat ∧ unwatched o ci) cis →
  ∃ l, free_conns cis (n_conns s) = Ret l ∧ frame o pid s (set_conns l s).
Proof.
  intros Hinv HF. revert s Hinv. induction HF as [|ci cis [Hci Hu] HF IH]; intros s Hinv; simpl.
  { eexists. split; [done|]. destruct s. by apply frame_refl. }
  destruct (conn_in _ _ Hinv Hci) as (c & -> & Hok). pose proof (frame_free_conn s ci Hinv Hci Hu) as Hf.
  destruct (IH _ (fr_inv _ _ _ _ Hf)) as (l & Hl & Hf2). exists l. split; [done|]. by eapply frame_trans.
Qed.

Lemma frame_listeners_map s : net_inv o s →
  frame o pid s (set_listeners ((λ l, if l_in_use l && (l_pid l =? pid) then InetListener_empty else l) <$> n_listeners s) s).
Proof.
  intros Hinv. apply frame_same; [done| |done..|].
  - destruct Hinv as [[] _]. split; simpl; try done; [by rewrite length_fmap|]. apply Forall_fmap.
    eapply Forall_impl; [|done]. intros l Hl. simpl. case_bool; [apply listener_empty_ok|done].
  - intros E idx l HE Hl. simpl in Hl. rewrite list_lookup_fmap in Hl.
    destruct (n_listeners s !! idx) as [l0|] eqn:Hl0; [|done]. simplify_eq/=. case_bool; [apply not_elem_of_nil|].
    by eapply watched_queue.
Qed.

Lemma frame_drop_table s i : net_inv o s → avoids o pid (λ _, True) → find_tbl pid (n_socks s) = Some i →
  frame o pid s (set_socks (<[i := ProcSockTable_empty]> (n_socks s)) s).
Proof.
  intros [Hwf Hw] Ha (ti & Hti & Huti & Hpti)%find_tbl_Some.
  assert (∀ j t, <[i := ProcSockTable_empty]> (n_socks s) !! j = Some t →
            t = ProcSockTable_empty ∨ n_socks s !! j = Some t) as Hcase.
  { intros j t [(_ & <- & _)|[_ ?]]%insert_lookup_cases; eauto. }
  split; [split| |].
  - pose proof (nw_one _ Hwf) as Hone. destruct Hwf. split; simpl; try done; [by rewrite length_insert| |].
    + apply Forall_insert_1; [done|]. split_and!; [done| |done]. apply Forall_replicate, entry_ok_empty.
    + intros a b t t' [->|Hta]%Hcase [->|Htb]%Hcase; [done..|]. by eapply Hone.
  - destruct o as [E|]; simpl in *; [|done]. destruct Hw as [H1 H2 H3 H4 H5].
    assert (∀ x, (e_at E x).1 ≠ i) as Hne.
    { intros x <-. destruct (H1 x) as (t & Ht & _ & Hp). by apply (Ha E x eq_refl); [congruence|]. }
    split; simpl; try done.
    + intros x. rewrite list_lookup_insert_ne by (by apply not_eq_sym). apply H1.
    + intros x. unfold entry_at. rewrite list_lookup_insert_ne by (by apply not_eq_sym). apply H2.
    + intros j k e He Hc. unfold entry_at in He. destruct (decide (i = j)) as [<-|].
      * rewrite list_lookup_insert_eq in He by (by eapply lookup_lt_Some). cbn [mbind option_bind] in He.
        by apply lookup_replicate_Some in He as ->.
      * rewrite list_lookup_insert_ne in He by done. by apply (H4 j k e).
  - by intros E _.
  - intros j t Ht Hut Hpt. exists t. simpl. rewrite list_lookup_insert_ne by congruence. split_and!; [done..|].
    apply Forall_Forall2_diag, Forall_true. constructor.
Qed.

Lemma close_all_frame s : net_inv o s → avoids o pid (λ _, True) →
  ∃ s', handle_close_all pid s = Ret (tt, s') ∧ frame o pid s s'.
Proof.
  intros Hinv Ha. unfold handle_close_all. destruct (find_tbl pid (n_socks s)) as [i|] eqn:Hi; simpl.
  2: { eexists. split; [done|]. by apply frame_refl. }
  apply find_tbl_Some in Hi as Ht. destruct Ht as (t & Ht & _). rewrite Ht. simpl.
  destruct (free_conns_frame (to_close (socks t)) s Hinv) as (l & -> & Hf).
  { apply Forall_forall. intros ci Hin%list_elem_of_In. apply list_elem_of_omap in Hin as (e & He & Hc).
    apply list_elem_of_lookup in He as [k He]. assert (entry_at (n_socks s) i k = Some e) as Hent.
    { unfold entry_at. by rewrite Ht. }
    assert (conn_of (k_state e) = Some ci) as Hco by (destruct (k_state e); by simplify_eq).
    split; [by apply (entry_in o s _ _ _ Hinv Hent)|]. intros E HE <-.
    destruct (own_slot_named _ _ _ _ _ k Ha I Hinv Hi) as [_ Hk]. destruct Hinv as [_ Hw]. rewrite HE in Hw.
    destruct (es_only _ _ Hw i k e Hent Hco) as [x Hx]. by apply (Hk E x HE). }
  eexists. split; [done|]. apply (frame_trans _ _ _ _ _ Hf).
  pose proof (frame_listeners_map (set_conns l s) (fr_inv _ _ _ _ Hf)) as Hf2. apply (frame_trans _ _ _ _ _ Hf2).
  eapply (frame_drop_table (set_listeners _ (set_conns l s))); [apply Hf2|done..].
Qed.

(** ** The dispatch *)

(** The slots of the caller that a request may change or use. *)
Definition touches (msg : Message) (k : nat) : Prop := tag msg = NET_CLOSE_ALL ∨ named (arg msg 0) k.

Lemma answers_pure s (r : Message * NetServer) : frame o pid s r.2 → answers s (Ret r).
Proof. intros Hf. destruct r. by eexists _, _. Qed.

Lemma handle_answers s msg : net_inv o s → avoids o pid (touches msg) → answers s (handle msg pid s).
Proof.
  intros Hinv Ha. assert (avoids o pid (named (arg msg 0))) as Hn.
  { intros E x HE Hp Hk. apply (Ha E x HE Hp). by right. }
  assert (∀ m, answers s (Ret (m, s))) as Hs.
  { intros m. apply answers_pure. by apply frame_refl. }
  unfold handle. case_bool; [by apply answers_pure, socket_frame|].
  case_bool; [by apply answers_pure, bind_frame|]. case_bool; [by apply answers_pure, listen_frame|].
  case_bool; [by apply accept_answers|]. case_bool; [by apply answers_pure, connect_frame|].
  case_bool; [by apply send_answers|]. case_bool; [by apply recv_answers|].
  case_bool; [by apply iov_answers; [|intros; apply send_answers]|].
  case_bool; [by apply iov_answers; [|intros; apply recv_answers]|].
  case_bool; [by apply shutdown_answers|].
  do 2 (case_bool; [apply answers_pure; unfold handle_getpeername, handle_getsockname; case_bool;
                      [by apply frame_refl|by apply frame_mem]|]).
  case_bool; [by apply answers_pure, socketpair_frame|]. case_bool; [done|]. case_bool.
  { apply answers_pure. unfold handle_getsockopt. case_bool; [|by apply frame_refl]. cbn [snd].
    repeat case_bool; try (by apply frame_refl); try (by apply frame_mem).
    pose proof (frame_mem o pid s (mem_write (arg msg 3) (le_encode 4 0)) Hinv) as Hf.
    apply (frame_trans _ _ _ _ _ Hf), frame_mem, Hf. }
  case_bool; [|case_bool; [by apply close_answers|done]].
  destruct (close_all_frame s Hinv) as (s' & -> & Hf); [|by eexists _, _].
  intros E x HE Hp _. apply (Ha E x HE Hp). by left.
Qed.
End step.

Lemma net_init_wf m : net_wf (NetServer_init m).
Proof.
  split; try reflexivity; unfold NetServer_init; cbn [n_conns n_bound n_listeners n_socks].
  - apply Forall_replicate. split; apply UnixRing_new_ok.
  - apply Forall_replicate. split; [done|]. unfold PATH_MAX. simpl. lia.
  - intros i j b b' n Hi _. by apply lookup_replicate_Some in Hi as ->.
  - apply Forall_replicate, listener_empty_ok.
  - apply Forall_replicate. split_and!; [done| |done]. apply Forall_replicate, entry_ok_empty.
  - intros i j t t' Hi _. by apply lookup_replicate_Some in Hi as ->.
Qed.
