(* ===== verification/NetSpec.v ===== *)
(** * What the network server promises

    - every request, of whatever process, is answered in every state that can be
      reached ([net_always_serves]);
    - processes do not disturb each other's sockets ([net_isolation]);
    - an established connection is a pair of bounded queues, whatever other
      requests come in between ([socket_refines_queues]);
    - connecting to a port and accepting there gives the two ends of one
      connection ([inet_handshake]). *)

From stdpp Require Import base list option numbers.
From Stdlib Require Import ZArith Lia.
From S2P Require Import Prelude Words Rings Memory IpcPort VfsData VfsInv VfsTotal VfsPipe Net NetInv NetStep.
Import NetTags.

Local Open Scope Z_scope.

(** ** Runs of the server *)

(** A request, and the memory when it is made: processes write it in between. *)
Record net_event := mkNetEvent { ev_mem : mem; ev_pid : Z; ev_msg : Message }.

Definition net_step (ev : net_event) (s : NetServer) : outcome (Message * NetServer) :=
  handle (ev_msg ev) (ev_pid ev) (on_n_mem (λ _, ev_mem ev) s).

Fixpoint net_run (evs : list net_event) (s : NetServer) : outcome (list Message * NetServer) :=
  match evs with
  | [] => Ret ([], s)
  | ev :: evs' =>
      match net_step ev s with
      | Panic => Panic
      | Ret (m, s) =>
          match net_run evs' s with
          | Panic => Panic
          | Ret (ms, s) => Ret (m :: ms, s)
          end
      end
  end.

Lemma net_step_frame o ev s : net_inv o s → avoids o (ev_pid ev) (touches (ev_msg ev)) →
  answers o (ev_pid ev) s (net_step ev s).
Proof.
  intros Hinv Ha. pose proof (frame_mem o (ev_pid ev) s (λ _, ev_mem ev) Hinv) as Hf.
  destruct (handle_answers o (ev_pid ev) _ (ev_msg ev) (fr_inv _ _ _ _ Hf) Ha) as (m & s' & Hs & Hf').
  exists m, s'. split; [done|]. by eapply frame_trans.
Qed.

Lemma avoids_none pid K : avoids None pid K.
Proof. by intros E x HE. Qed.

(** C11: From boot, whatever requests the processes make, with whatever arguments and
    memory contents, the network server answers every one of them (it never
    panics), and its state stays well-formed: every socket refers to a connection
    of the table, every ring and backlog is within bounds, no process has two
    socket tables and no path is bound twice. *)
Theorem net_always_serves m evs :
  ∃ replies s, net_run evs (NetServer_init m) = Ret (replies, s) ∧ length replies = length evs ∧ net_wf s.
Proof.
  assert (∀ s, net_wf s → ∃ replies s', net_run evs s = Ret (replies, s') ∧ length replies = length evs ∧ net_wf s') as H.
  { induction evs as [|ev evs IH]; intros s Hwf; simpl; [by eexists _, _|].
    destruct (net_step_frame None ev s) as (r & s1 & -> & Hf); [done|apply avoids_none|].
    destruct (IH s1) as (rs & s2 & -> & Hl & Hwf2); [apply (fr_inv _ _ _ _ Hf)|]. eexists _, _. split_and!; [done| |done].
    simpl. by rewrite Hl. }
  apply H, net_init_wf.
Qed.

(** C16: A request of process [pid] leaves the socket tables of the other processes as
    they are, but for a socket whose pending connection it accepts, which becomes
    connected; and a connection between two sockets that the request does not name
    stays established, with the same bytes in both directions. *)
Theorem net_isolation msg pid s r s' : net_wf s → handle msg pid s = Ret (r, s') →
  others pid (n_socks s) (n_socks s') ∧
  ∀ E, established E s → (∀ x, e_pid E x = pid → tag msg ≠ NET_CLOSE_ALL ∧ fd_to_slot (arg msg 0) ≠ Some (e_at E x).2) →
    established E s' ∧ n_conns s' !! e_ci E = n_conns s !! e_ci E.
Proof.
  intros Hwf Hh. split.
  - destruct (handle_answers None pid s msg) as (r' & s1 & Hs & Hf); [done|apply avoids_none|].
    assert (s1 = s') as -> by congruence. apply Hf.
  - intros E HE Ha. destruct (handle_answers (Some E) pid s msg) as (r' & s1 & Hs & Hf); [done| |].
    { intros E' x [= <-] Hp [Ht|Hn]; by destruct (Ha x Hp). }
    assert (s1 = s') as -> by congruence. split; [apply (fr_inv _ _ _ _ Hf)|by apply Hf].
Qed.

(** ** Connections as queues *)

(** The contents of a direction: the bytes that side [x] has written. *)
Definition contents (E : ends) (x : bool) (s : NetServer) : list Z :=
  from_option (λ c, ur_bytes (out_ring x c)) [] (n_conns s !! e_ci E).

(** The end that a request names. *)
Definition end_of (E : ends) (ev : net_event) : option bool :=
  let at_end x := (ev_pid ev =? e_pid E x) && bool_decide (fd_to_slot (arg (ev_msg ev) 0) = Some (e_at E x).2) in
  if at_end true then Some true else if at_end false then Some false else None.

(** Requests that keep the connection: its ends only send and receive, and their
    processes do not exit. *)
Definition keeps (E : ends) (ev : net_event) : Prop :=
  match end_of E ev with
  | Some _ => tag (ev_msg ev) = NET_SEND ∨ tag (ev_msg ev) = NET_RECV
  | None => ∀ x, e_pid E x = ev_pid ev → tag (ev_msg ev) ≠ NET_CLOSE_ALL
  end.

(** The abstract connection: one bounded queue per direction. *)
Definition queues : Type := bool → list Z.

Definition set_queue (x : bool) (l : list Z) (q : queues) : queues := λ y, if eqb y x then l else q y.

(** What an end sees of its request: the result, and the bytes it gets. *)
Definition queue_step (E : ends) (ev : net_event) (q : queues) : option (Z * list Z) * queues :=
  match end_of E ev with
  | None => (None, q)
  | Some x =>
      let buf := arg (ev_msg ev) 1 in
      let len := arg (ev_msg ev) 2 in
      if tag (ev_msg ev) =? NET_SEND then
        let n := Z.min len (4096 - Z.of_nat (length (q x))) in
        (Some (n, []), set_queue x (q x ++ mem_read (ev_mem ev) buf n) q)
      else
        let n := Z.min len (Z.of_nat (length (q (negb x)))) in
        (Some (n, take (Z.to_nat n) (q (negb x))), set_queue (negb x) (drop (Z.to_nat n) (q (negb x))) q)
  end.

Fixpoint queue_run (E : ends) (evs : list net_event) (q : queues) : list (option (Z * list Z)) * queues :=
  match evs with
  | [] => ([], q)
  | ev :: evs' =>
      let '(ob, q) := queue_step E ev q in
      let '(obs, q) := queue_run E evs' q in (ob :: obs, q)
  end.

(** The same, of the server: the reply, and the caller's buffer after a receive. *)
Definition observe (E : ends) (ev : net_event) (m : Message) (s : NetServer) : option (Z * list Z) :=
  match end_of E ev with
  | None => None
  | Some _ =>
      Some (net_val m,
            if tag (ev_msg ev) =? NET_SEND then [] else mem_read (n_mem s) (arg (ev_msg ev) 1) (net_val m))
  end.

Fixpoint observe_run (E : ends) (evs : list net_event) (s : NetServer) : outcome (list (option (Z * list Z)) * NetServer) :=
  match evs with
  | [] => Ret ([], s)
  | ev :: evs' =>
      match net_step ev s with
      | Panic => Panic
      | Ret (m, s) =>
          match observe_run E evs' s with
          | Panic => Panic
          | Ret (obs, s') => Ret (observe E ev m s :: obs, s')
          end
      end
  end.

(** The end's socket is the one the server finds. *)
Lemma find_tbl_one pid l i t : one_table l → l !! i = Some t → st_in_use t = true → st_pid t = pid → find_tbl pid l = Some i.
Proof.
  intros Hone Ht Hu Hp. apply (position_unique _ _ _ t Ht); [unfold sock_tbl_of; by rewrite Hu, Hp, Z.eqb_refl|].
  intros j t' Hj Hb. unfold sock_tbl_of in Hb. to_prop. eapply Hone; [done..|congruence].
Qed.

Lemma end_sock E s x fd : net_wf s → established E s → fd_to_slot fd = Some (e_at E x).2 →
  ∃ i k e, own_sock (e_pid E x) fd s = Some (i, k, e) ∧ k_state e = Connected (e_ci E) x.
Proof.
  intros Hwf HE Hfd. destruct (es_tbl _ _ HE x) as (t & Ht & Hu & Hp).
  destruct (es_end _ _ HE x) as (e & He & Hue & Hst). eexists _, _, e. split; [|done].
  apply own_sock_Some. split; [done|]. apply sock_in_Some. split_and!; [|done..].
  eapply find_tbl_one; [apply (nw_one _ Hwf)|done..].
Qed.

(** The connection is replaced by one that is still in use. *)
Lemma established_conn E s c : net_inv (Some E) s → conn_ok c → uc_in_use c = true →
  net_inv (Some E) (set_conns (<[e_ci E := c]> (n_conns s)) s).
Proof.
  intros [Hwf HE] Hc Hu. split.
  - apply (fr_inv _ _ _ _ (frame_conn None 0 s (e_ci E) c (conj Hwf I) Hc ltac:(done))).
  - destruct HE as [H1 H2 (c0 & Hc0 & _) H4 H5]. split; simpl; try done. exists c. split; [|done].
    apply list_lookup_insert_eq. by eapply lookup_lt_Some.
Qed.

Lemma contents_conn E s x c : n_conns s !! e_ci E = Some c → contents E x s = ur_bytes (out_ring x c).
Proof. intros Hc. unfold contents. by rewrite Hc. Qed.

Lemma contents_set E s y r c x : n_conns s !! e_ci E = Some c →
  contents E x (set_conns (<[e_ci E := set_out_ring y r c]> (n_conns s)) s) =
    if eqb x y then ur_bytes r else contents E x s.
Proof.
  intros Hc. rewrite (contents_conn E s x c Hc). rewrite (contents_conn _ _ _ (set_out_ring y r c)).
  - by destruct x, y.
  - simpl. apply list_lookup_insert_eq. by eapply lookup_lt_Some.
Qed.

Lemma out_ring_in_use y r c : uc_in_use (set_out_ring y r c) = uc_in_use c.
Proof. by destruct y. Qed.

Lemma length_ur_bytes_le r : ur_ok r → Z.of_nat (length (ur_bytes r)) ≤ 4096.
Proof. intros Hr. rewrite (length_ur_bytes r Hr), <- RING_SIZE_Z. pose proof (uo_count r Hr). lia. Qed.

Lemma send_end E s x fd buf len : net_inv (Some E) s → fd_to_slot fd = Some (e_at E x).2 → 0 ≤ len →
  let n := Z.min len (4096 - Z.of_nat (length (contents E x s))) in
  ∃ s', handle_send (e_pid E x) fd buf len s = Ret (val_reply n, s') ∧ 0 ≤ n ≤ 4096 ∧ net_inv (Some E) s' ∧
    ∀ y, contents E y s' = if eqb y x then contents E x s ++ mem_read (n_mem s) buf n else contents E y s.
Proof.
  intros Hinv Hfd Hlen n. pose proof Hinv as [Hwf HE]. destruct (end_sock E s x fd Hwf HE Hfd) as (i & k & e & Ho & Hst).
  destruct (es_conn _ _ HE) as (c & Hc & Hu). unfold handle_send. rewrite Ho, Hst, Hc, Hu. cbn [negb].
  assert (conn_ok c) as Hok by (eapply Forall_lookup_1; [apply (nw_conns _ Hwf)|done]).
  pose proof (ring_write_spec (n_mem s) buf len (out_ring x c) (out_ring_ok x c Hok)) as Hr.
  pose proof (length_ur_bytes_le _ (out_ring_ok x c Hok)) as Hle. rewrite <- (contents_conn E s x c Hc) in Hr, Hle.
  destruct (ring_write _ _ _ _) as [n' r]. destruct Hr as (-> & Hr & Hb). fold n in Hb |- *.
  eexists. split; [done|]. split_and!; [lia..| |].
  - apply established_conn; [done|by apply set_out_ring_ok|by rewrite out_ring_in_use].
  - intros y. rewrite contents_set by done. by rewrite Hb.
Qed.

Lemma recv_end E s x fd buf len : net_inv (Some E) s → fd_to_slot fd = Some (e_at E x).2 → 0 ≤ len →
  let q := contents E (negb x) s in
  let n := Z.min len (Z.of_nat (length q)) in
  ∃ s', handle_recv (e_pid E x) fd buf len s = Ret (val_reply n, s') ∧ 0 ≤ n ≤ 4096 ∧ net_inv (Some E) s' ∧
    mem_read (n_mem s') buf n = take (Z.to_nat n) q ∧
    ∀ y, contents E y s' = if eqb y (negb x) then drop (Z.to_nat n) q else contents E y s.
Proof.
  intros Hinv Hfd Hlen q n. pose proof Hinv as [Hwf HE]. destruct (end_sock E s x fd Hwf HE Hfd) as (i & k & e & Ho & Hst).
  destruct (es_conn _ _ HE) as (c & Hc & Hu). unfold handle_recv. rewrite Ho, Hst, Hc, Hu. cbn [negb].
  assert (conn_ok c) as Hok by (eapply Forall_lookup_1; [apply (nw_conns _ Hwf)|done]).
  pose proof (ring_read_spec len (out_ring (negb x) c) (out_ring_ok _ c Hok)) as Hr.
  pose proof (length_ur_bytes_le _ (out_ring_ok (negb x) c Hok)) as Hle.
  rewrite <- (contents_conn E s (negb x) c Hc) in Hr, Hle. fold q in Hr, Hle.
  destruct (ring_read _ _) as [bs r]. destruct Hr as (Hl & Hr & Hb).
  assert (Z.of_nat (length bs) = n) as Hn by (unfold n; lia). rewrite Hn.
  assert (Z.to_nat n = length bs) as Hnb by lia. rewrite Hnb, Hb, take_app_length, drop_app_length.
  eexists. split; [done|]. split_and!; [lia..| | |].
  - set (s1 := set_conns _ s). assert (net_inv (Some E) s1) as H1.
    { apply established_conn; [done|by apply set_out_ring_ok|by rewrite out_ring_in_use]. }
    apply (fr_inv _ _ _ _ (frame_mem (Some E) 0 s1 (mem_write buf bs) H1)).
  - simpl. rewrite <- Hn. apply mem_read_write.
  - intros y. etrans; [|by apply (contents_set E s (negb x) r c y)]. done.
Qed.

Lemma net_val_small v : 0 ≤ v < 2^63 → net_val (val_reply v) = v.
Proof. apply vfs_reply_small. Qed.

Lemma handle_tag_send msg pid s : tag msg = NET_SEND →
  handle msg pid s = handle_send pid (arg msg 0) (arg msg 1) (arg msg 2) s.
Proof. intros Ht. unfold handle. by rewrite Ht. Qed.

Lemma handle_tag_recv msg pid s : tag msg = NET_RECV →
  handle msg pid s = handle_recv pid (arg msg 0) (arg msg 1) (arg msg 2) s.
Proof. intros Ht. unfold handle. by rewrite Ht. Qed.

(** One request of the server and one step of the queues. *)
Lemma queue_sim E ev s q : net_inv (Some E) s → keeps E ev → msg_ok (ev_msg ev) → (∀ x, contents E x s = q x) →
  ∃ m s', net_step ev s = Ret (m, s') ∧ net_inv (Some E) s' ∧
    observe E ev m s' = (queue_step E ev q).1 ∧ ∀ x, contents E x s' = (queue_step E ev q).2 x.
Proof.
  intros Hinv Hk Hmsg Hq. unfold keeps, observe, queue_step in *. destruct (end_of E ev) as [x|] eqn:Hend.
  - assert (ev_pid ev = e_pid E x ∧ fd_to_slot (arg (ev_msg ev) 0) = Some (e_at E x).2) as [Hp Hfd].
    { unfold end_of in Hend. repeat case_bool; by simplify_eq. }
    pose proof (frame_mem (Some E) 0 s (λ _, ev_mem ev) Hinv) as Hf. set (s1 := on_n_mem _ s) in Hf.
    pose proof (arg_range (ev_msg ev) 2 Hmsg) as Hlen. unfold net_step. fold s1.
    destruct Hk as [Ht|Ht]; rewrite Ht, Hp.
    + rewrite handle_tag_send by done.
      destruct (send_end E s1 x (arg (ev_msg ev) 0) (arg (ev_msg ev) 1) (arg (ev_msg ev) 2)) as (s' & -> & Hn & Hi & Hc);
        [apply Hf|done|lia|]. eexists _, _. split; [done|]. split_and!; [done| |].
      * change (NET_SEND =? NET_SEND) with true. cbn [fst]. rewrite net_val_small by lia. by rewrite <- Hq.
      * intros y. rewrite Hc. change (NET_SEND =? NET_SEND) with true. cbn [snd]. unfold set_queue. case_bool; rewrite <- ?Hq; done.
    + rewrite handle_tag_recv by done.
      destruct (recv_end E s1 x (arg (ev_msg ev) 0) (arg (ev_msg ev) 1) (arg (ev_msg ev) 2)) as (s' & -> & Hn & Hi & Hm & Hc);
        [apply Hf|done|lia|]. eexists _, _. split; [done|]. split_and!; [done| |].
      * change (NET_RECV =? NET_SEND) with false. cbn [fst]. rewrite net_val_small, Hm by lia. by rewrite <- Hq.
      * intros y. rewrite Hc. change (NET_RECV =? NET_SEND) with false. cbn [snd]. unfold set_queue. case_bool; rewrite <- ?Hq; done.
  - destruct (net_step_frame (Some E) ev s) as (m & s' & Hs & Hf); [done| |].
    { intros E' x [= <-] Hp [Ht|Hn]; [by apply (Hk x Hp)|]. unfold end_of in Hend.
      destruct x; rewrite <- Hp, Z.eqb_refl, (bool_decide_eq_true_2 _ Hn) in Hend; repeat case_bool; done. }
    exists m, s'. split_and!; [done|apply Hf|done|]. intros x. simpl. rewrite <- Hq. unfold contents.
    by rewrite (fr_kept _ _ _ _ Hf E eq_refl).
Qed.

(** C10: An established connection is a pair of bounded queues.  Along any sequence of
    requests, by any processes, in which the two ends only send and receive and
    their processes do not exit, the results of the ends' requests and the bytes
    they receive are those of two queues of 4096 bytes, one per direction: a send
    takes as many bytes as fit, a receive gets as many of the oldest as are there,
    and no other request changes, reads or reorders them. *)
Theorem socket_refines_queues E evs s : net_wf s → established E s → Forall (keeps E) evs →
  Forall (λ ev, msg_ok (ev_msg ev)) evs →
  let '(obs, q) := queue_run E evs (λ x, contents E x s) in
  ∃ s', observe_run E evs s = Ret (obs, s') ∧ net_wf s' ∧ established E s' ∧ ∀ x, contents E x s' = q x.
Proof.
  intros Hwf HE. assert (net_inv (Some E) s) as Hinv by done. clear Hwf HE.
  assert (∀ x, contents E x s = (λ x, contents E x s) x) as Hq by done. revert Hq. generalize (λ x, contents E x s) as q.
  intros q Hq Hk Hm. revert s q Hinv Hq. induction evs as [|ev evs IH]; intros s q Hinv Hq; simpl.
  { destruct Hinv. by eexists. }
  apply Forall_cons_1 in Hk as [Hk Hks], Hm as [Hm Hms].
  destruct (queue_sim E ev s q Hinv Hk Hm Hq) as (m & s1 & -> & Hinv1 & Hob & Hq1).
  destruct (queue_step E ev q) as [ob q1]. simpl in *. specialize (IH Hks Hms s1 q1 Hinv1 Hq1).
  destruct (queue_run E evs q1) as [obs q2]. destruct IH as (s2 & -> & H2). exists s2. split; [|done]. by rewrite Hob.
Qed.

(** ** Establishing a connection *)

(** Sockets and backlogs refer to connections in use. *)
Definition no_dangling (s : NetServer) : Prop :=
  (∀ i k e ci, entry_at (n_socks s) i k = Some e → conn_of (k_state e) = Some ci →
     ∃ c, n_conns s !! ci = Some c ∧ uc_in_use c = true) ∧
  (∀ idx l ci, n_listeners s !! idx = Some l → ci ∈ take (l_n_pending l) (l_pending l) →
     ∃ c, n_conns s !! ci = Some c ∧ uc_in_use c = true).

Lemma Forall2_alter {A} (R : A → A → Prop) (f : A → A) i l :
  (∀ x, R x x) → (∀ x, R x (f x)) → Forall2 R l (alter f i l).
Proof.
  intros Hr Hf. revert i. induction l as [|x l IH]; intros i; [constructor|].
  destruct i as [|i]; (constructor; [done|]); [|apply IH]. apply Forall_Forall2_diag. by apply Forall_true.
Qed.

Lemma find_tbl_put pid i k e l : find_tbl pid (put_sock i k e l) = find_tbl pid l.
Proof. symmetry. apply position_ext. by apply Forall2_alter. Qed.

(** Replacing a socket by another keeps the free slots. *)
Lemma sock_alloc_put i k e e' l j : entry_at l i k = Some e' → k_in_use e' = k_in_use e →
  (t ← put_sock i k e l !! j; sock_alloc t) = (t ← l !! j; sock_alloc t).
Proof.
  intros He Hu. unfold put_sock, entry_at in *. destruct (decide (i = j)) as [<-|]; [|by rewrite list_lookup_alter_ne].
  rewrite list_lookup_alter_eq. destruct (l !! i) as [t|]; [|done]. simpl in *. symmetry. apply position_ext.
  cbn [socks]. apply Forall2_same_length_lookup. split; [by rewrite length_insert|].
  intros j x y Hx [(-> & <- & _)|[_ Hy]]%insert_lookup_cases; simplify_eq; by rewrite ?Hu.
Qed.

(** The connector's socket is the one that gets connected. *)
Lemma entry_at_promote_hit st st' l i k e t : l !! i = Some t → st_in_use t = true → entry_at l i k = Some e →
  k_state e = st → (∀ k' e', entry_at l i k' = Some e' → k_state e' = st → k' = k) →
  entry_at (promote st st' l) i k = Some (set_k_state st' e).
Proof.
  intros Ht Hu He Hst Huniq. unfold entry_at, promote in *. rewrite list_lookup_fmap. rewrite Ht in *. simpl in *.
  rewrite Hu. simpl. apply promote_first_lookup. exists e. split; [done|]. rewrite decide_True; [done|].
  apply (position_unique _ _ _ e He); [by apply bool_decide_eq_true|].
  intros j e' Hj Hb. to_prop. by apply (Huniq j e').
Qed.

Section handshake.
Context (s : NetServer) (pc fdc ps fdl port addr addrlen peer : Z) (ic kc il kl k' ci idx : nat) (ec el : SockEntry)
  (l : InetListener) (tl : ProcSockTable).
Context (Hwf : net_wf s) (Hdang : no_dangling s)
  (* the connector's socket, and a listening socket with an empty backlog *)
  (Hc : own_sock pc fdc s = Some (ic, kc, ec))
  (Hl : own_sock ps fdl s = Some (il, kl, el))
  (Hst : k_state el = InetListening) (Hport : k_bound_port el = port) (Hne : (ic, kc) ≠ (il, kl))
  (Hidx : position (port_matches port) (n_listeners s) = Some idx)
  (Hlis : n_listeners s !! idx = Some l) (Hempty : l_n_pending l = 0%nat)
  (* a free connection, and a free slot for the accepted socket *)
  (Hfree : position (λ c, negb (uc_in_use c)) (n_conns s) = Some ci)
  (Htl : n_socks s !! il = Some tl) (Hslot : sock_alloc tl = Some k')
  (* the address of the port *)
  (Hlen : 8 ≤ addrlen) (Hfam : read_u16 (n_mem s) addr = AF_INET)
  (Hpa : u16_from_be (read_u16 (n_mem s) (addr + 2)) = port) (Haddr : read_u32 (n_mem s) (addr + 4) = LOOPBACK).

Let l1 := mkListener (l_in_use l) (l_port l) (l_pid l) (l_slot l) (<[0%nat := ci]> (l_pending l)) 1.
Let sk1 := put_sock ic kc (set_k_state (InetPendingAccept ci) ec) (n_socks s).
Let s1 := mkNet (<[ci := set_uc_in_use true UnixConn_new]> (n_conns s)) (n_bound s) (<[idx := l1]> (n_listeners s)) sk1 (n_mem s).
Let new := mkSock (Connected ci false) true 0 AF_INET.
Let sk2 := promote (InetPendingAccept ci) (Connected ci true) (put_sock il k' new sk1).
Let l2 := mkListener (l_in_use l) (l_port l) (l_pid l) (l_slot l) (<[0%nat := ci]> (l_pending l)) 0.
Let E := mkEnds ci (λ x, if x then (ic, kc) else (il, k')) (λ x, if x then pc else ps).

Lemma listener_match : port_matches port l = true.
Proof. by apply (position_holds _ _ _ _ Hidx). Qed.

Lemma connect_handshake : handle_connect pc fdc addr addrlen s = (ok_reply, s1).
Proof.
  destruct (proj1 (own_sock_Some _ _ _ _ _ _) Hc) as [Hfd Hin]. unfold handle_connect. rewrite Hfd, (proj2 (Z.ltb_ge _ _)), Hfam by lia.
  change (AF_INET =? AF_INET) with true. unfold connect_inet. rewrite (proj2 (Z.ltb_ge _ _)), Hpa, Haddr by lia.
  rewrite Z.eqb_refl. cbn [negb andb]. rewrite Hidx. unfold alloc_conn. rewrite Hfree. unfold enqueue_pending.
  cbn [n_listeners set_conns]. rewrite Hidx, Hlis, Hempty. cbn [INET_BACKLOG Nat.leb]. f_equal.
  unfold update_sock. cbn [n_socks set_listeners set_conns]. by rewrite Hin.
Qed.

Lemma own_listener : own_sock ps fdl s1 = Some (il, kl, el).
Proof.
  destruct (proj1 (own_sock_Some _ _ _ _ _ _) Hl) as [Hfd Hin]. apply own_sock_Some. split; [done|].
  apply sock_in_Some in Hin as (Hi & He & Hu). apply sock_in_Some. split_and!; [|  |done].
  - simpl. unfold sk1. by rewrite find_tbl_put.
  - simpl. unfold sk1. rewrite entry_at_put, decide_False; [done|]. intros (-> & -> & _). by apply Hne.
Qed.

Lemma dequeue_handshake : dequeue_pending port s1 = Ret (Some ci, set_listeners (<[idx := l2]> (n_listeners s)) s1).
Proof.
  unfold dequeue_pending. cbn [n_listeners s1].
  assert (position (port_matches port) (<[idx := l1]> (n_listeners s)) = Some idx) as ->.
  { apply position_Some in Hidx as Hx. destruct Hx as (x & Hx & Hm & Hmin). apply position_Some. exists l1. split_and!.
    - apply list_lookup_insert_eq. by eapply lookup_lt_Some.
    - apply listener_match.
    - intros j y Hj Hy. rewrite list_lookup_insert_ne in Hy by lia. by eapply Hmin. }
  rewrite list_lookup_insert_eq by (by eapply lookup_lt_Some). cbn [l_n_pending l1 Nat.eqb l_pending].
  assert (listener_ok l) as (Hlp & _) by (eapply Forall_lookup_1; [apply (nw_listeners _ Hwf)|done]).
  rewrite list_lookup_insert_eq by (rewrite Hlp; unfold INET_BACKLOG; lia). f_equal. f_equal.
  unfold set_listeners. cbn [n_conns n_bound n_socks n_mem s1]. f_equal. unfold l1, l2. cbn [l_in_use l_port l_pid l_slot l_pending].
  by rewrite list_insert_insert_eq.
Qed.

Lemma new_handshake s0 : n_socks s0 = sk1 → new_sock ps new s0 = (Ok k', set_socks (put_sock il k' new sk1) s0).
Proof.
  intros Hs0. unfold new_sock, get_or_create. rewrite Hs0. destruct (proj1 (own_sock_Some _ _ _ _ _ _) Hl) as [_ Hin].
  apply sock_in_Some in Hin as (Hi & _ & _). unfold sk1 at 1. rewrite find_tbl_put, Hi.
  unfold sk1 at 1. destruct (proj1 (own_sock_Some _ _ _ _ _ _) Hc) as [_ Hin]. apply sock_in_Some in Hin as (_ & He & _).
  rewrite (sock_alloc_put _ _ _ _ _ _ He) by done. rewrite Htl. simpl. by rewrite Hslot.
Qed.

Lemma accept_handshake : ∃ m', handle_accept ps fdl peer s1 =
  Ret (val_reply (slot_fd k'), mkNet (n_conns s1) (n_bound s) (<[idx := l2]> (n_listeners s)) sk2 m').
Proof.
  unfold handle_accept. rewrite own_listener, Hst, Hport, dequeue_handshake. unfold accept_conn.
  rewrite new_handshake by done. case_bool; by eexists.
Qed.

(** Nothing referred to the free connection. *)
Lemma fresh_conn i k e : entry_at (n_socks s) i k = Some e → conn_of (k_state e) ≠ Some ci.
Proof.
  intros He Hco. destruct (proj1 Hdang i k e ci He Hco) as (c & Hci & Hu).
  apply (position_holds _ _ _ _ Hfree) in Hci. by rewrite Hu in Hci.
Qed.

(** The sockets that refer to it before the promotion. *)
Lemma refs_handshake i k e : entry_at (put_sock il k' new sk1) i k = Some e → conn_of (k_state e) = Some ci →
  (i, k) = (il, k') ∧ e = new ∨ (i, k) = (ic, kc) ∧ e = set_k_state (InetPendingAccept ci) ec.
Proof.
  intros [(-> & -> & ->)|[_ H]]%entry_at_put_cases Hco; [by left|].
  apply entry_at_put_cases in H as [(-> & -> & ->)|[_ He]]; [by right|]. by apply fresh_conn in He.
Qed.

(** The new slot was free, so it is not the connector's. *)
Lemma slots_handshake : (il, k') ≠ (ic, kc) ∧ is_Some (entry_at sk1 il k').
Proof.
  destruct (proj1 (own_sock_Some _ _ _ _ _ _) Hc) as [_ Hin]. apply sock_in_Some in Hin as (_ & He & Hu).
  destruct (alloc_slot (n_socks s) il k') as (e & He' & Hf); [by rewrite Htl|]. split.
  - intros [= -> ->]. congruence.
  - unfold sk1. rewrite entry_at_put. case_decide; eauto.
Qed.

Lemma established_handshake m' : established E (mkNet (n_conns s1) (n_bound s) (<[idx := l2]> (n_listeners s)) sk2 m').
Proof.
  destruct (proj1 (own_sock_Some _ _ _ _ _ _) Hc) as [_ Hcin]. apply sock_in_Some in Hcin as (Hic & Hec & Huc).
  destruct (proj1 (own_sock_Some _ _ _ _ _ _) Hl) as [_ Hlin]. apply sock_in_Some in Hlin as (Hil & _ & _).
  destruct slots_handshake as [Hdiff Hk'].
  assert (∀ p i, find_tbl p (n_socks s) = Some i → ∃ t, put_sock il k' new sk1 !! i = Some t ∧ st_in_use t = true ∧ st_pid t = p)
    as Htab.
  { intros p i Hi. apply find_tbl_Some. unfold sk1. by rewrite !find_tbl_put. }
  assert (entry_at (put_sock il k' new sk1) il k' = Some new) as Hnew by (rewrite entry_at_put, decide_True; done).
  assert (entry_at (put_sock il k' new sk1) ic kc = Some (set_k_state (InetPendingAccept ci) ec)) as Hcon.
  { rewrite entry_at_put, decide_False by (intros (-> & -> & _); by apply Hdiff).
    unfold sk1. rewrite entry_at_put, decide_True; [done|]. rewrite Hec. eauto. }
  split; cbn [n_socks n_conns n_listeners E e_at e_ci e_pid].
  - intros x. assert (∃ t, put_sock il k' new sk1 !! (if x then (ic, kc) else (il, k')).1 = Some t ∧ st_in_use t = true ∧
      st_pid t = if x then pc else ps) as (t & Ht & Hu & Hp) by (destruct x; by apply Htab).
    eexists. unfold sk2. rewrite lookup_promote. split; [by eexists|]. by rewrite Hu.
  - intros [|]; cbn [fst snd].
    + destruct (Htab pc ic Hic) as (t & Ht & Hu & _).
      exists (set_k_state (Connected ci true) (set_k_state (InetPendingAccept ci) ec)). split; [|split; [exact Huc|done]].
      unfold sk2. eapply entry_at_promote_hit; [done..|]. intros k e He Hk.
      destruct (refs_handshake ic k e He) as [[_ ->]|[Heq _]]; [by rewrite Hk|done|congruence].
    + exists new. split; [|done]. by apply entry_at_promote_keep.
  - eexists. split; [apply list_lookup_insert_eq; by eapply position_lt|done].
  - intros i k e (e0 & He0 & Hor)%entry_at_promote Hco.
    destruct (refs_handshake i k e0 He0) as [[-> _]|[-> _]]; [|by exists false|by exists true].
    destruct Hor as [->|[Hs ->]]; [done|]. by rewrite Hs.
  - intros j q [(-> & <- & _)|[_ Hj]]%insert_lookup_cases; [apply not_elem_of_nil|]. intros Hin.
    destruct (proj2 Hdang j q ci Hj Hin) as (c & Hci & Hu). apply (position_holds _ _ _ _ Hfree) in Hci. by rewrite Hu in Hci.
Qed.
End handshake.


(** ** Examples *)

(** Process 3 has a pair of sockets. *)
Definition pair_server : NetServer := (handle_socketpair 3 AF_UNIX 0x1000 (NetServer_init (λ _, 0))).2.
Definition pair_ends : ends := mkEnds 0 (λ x, (0%nat, if x then 0%nat else 1%nat)) (λ _, 3).

Definition pair_table : ProcSockTable :=
  mkSockTbl 3 (mkSock (Connected 0 true) true 0 1 :: mkSock (Connected 0 false) true 0 1 :: replicate 14 SockEntry_empty) true.

Lemma pair_socks : n_socks pair_server = pair_table :: replicate 63 ProcSockTable_empty.
Proof. vm_compute. reflexivity. Qed.

Lemma pair_wf : net_wf pair_server.
Proof.
  apply (fr_inv None 3 (NetServer_init (λ _, 0)) pair_server).
  apply (socketpair_frame None 3 (NetServer_init (λ _, 0)) AF_UNIX 0x1000). split; [apply net_init_wf|done].
Qed.

Lemma entry_at_empty n i k e : entry_at (replicate n ProcSockTable_empty) i k = Some e → e = SockEntry_empty.
Proof.
  unfold entry_at. destruct (replicate n ProcSockTable_empty !! i) as [t|] eqn:Ht; [|done]. simpl.
  apply lookup_replicate_Some in Ht as ->. apply lookup_replicate_Some.
Qed.

Lemma pair_established : established pair_ends pair_server.
Proof.
  split.
  - intros x. rewrite pair_socks. exists pair_table. by destruct x.
  - intros x. rewrite pair_socks. destruct x; by eexists.
  - eexists. split; [vm_compute; reflexivity|done].
  - intros i k e He Hco. rewrite pair_socks in He. destruct i as [|i].
    + destruct k as [|[|k]]; [by exists true|by exists false|]. apply lookup_replicate_Some in He as ->. done.
    + by apply (entry_at_empty 63 i) in He as ->.
  - intros idx l Hl. assert (n_listeners pair_server = replicate 16 InetListener_empty) as Heq by (vm_compute; reflexivity).
    rewrite Heq in Hl. apply lookup_replicate_Some in Hl as ->. apply not_elem_of_nil.
Qed.

Definition abc_mem : mem := mem_write 0x2000 [97; 98; 99] (λ _, 0).

(** Side A sends 3 bytes, process 4 makes a socket, side B receives 2 bytes. *)
Definition pair_events : list net_event := [
  mkNetEvent abc_mem 3 (request_msg NET_SEND [0x100; 0x2000; 3]);
  mkNetEvent abc_mem 4 (request_msg NET_SOCKET [AF_INET; 1; 0]);
  mkNetEvent abc_mem 3 (request_msg NET_RECV [0x101; 0x3000; 2])].

Lemma socket_refines_queues_witness :
  ∃ s', observe_run pair_ends pair_events pair_server = Ret ([Some (3, []); None; Some (2, [97; 98])], s') ∧
    net_wf s' ∧ established pair_ends s' ∧ contents pair_ends true s' = [99].
Proof.
  assert (Forall (keeps pair_ends) pair_events) as Hk.
  { apply Forall_cons; [by left|]. apply Forall_cons; [intros x Hx; discriminate Hx|].
    apply Forall_cons; [by right|by apply Forall_nil]. }
  assert (Forall (λ ev, msg_ok (ev_msg ev)) pair_events) as Hm.
  { repeat (apply Forall_cons; [apply request_msg_ok|]). by apply Forall_nil. }
  pose proof (socket_refines_queues pair_ends pair_events pair_server pair_wf pair_established Hk Hm) as H.
  assert (let '(obs, q) := queue_run pair_ends pair_events (λ x, contents pair_ends x pair_server) in (obs, q true) =
    ([Some (3, []); None; Some (2, [97; 98])], [99])) as Hv by (vm_compute; reflexivity).
  destruct (queue_run _ _ _) as [obs q]. injection Hv as -> Hq. destruct H as (s' & Hr & Hwf & HE & Hc).
  exists s'. split_and!; [done..|]. by rewrite Hc.
Defined.

Lemma net_isolation_witness : ∃ r s', handle (request_msg NET_SOCKET [AF_INET; 1; 0]) 4 pair_server = Ret (r, s') ∧
  others 4 (n_socks pair_server) (n_socks s') ∧ established pair_ends s'.
Proof.
  destruct (handle_answers None 4 pair_server (request_msg NET_SOCKET [AF_INET; 1; 0])) as (r & s' & Hs & _);
    [split; [apply pair_wf|done]|apply avoids_none|].
  exists r, s'. split; [done|]. destruct (net_isolation _ 4 pair_server r s' pair_wf Hs) as [Ho HE]. split; [done|].
  apply HE; [apply pair_established|]. intros x Hx. discriminate Hx.
Defined.

(** Process 3 listens on port 8080, process 4 has a socket. *)
Definition port_mem : mem := mem_write 0x1000 [2; 0; 0x1F; 0x90; 127; 0; 0; 1] (λ _, 0).
Definition inet_server : NetServer :=
  (handle_socket 4 AF_INET 1 (handle_listen 3 0x100
    (handle_bind 3 0x100 0x1000 16 (handle_socket 3 AF_INET 1 (NetServer_init port_mem)).2).2).2).2.

Definition inet_table (pid : Z) (e : SockEntry) : ProcSockTable := mkSockTbl pid (e :: replicate 15 SockEntry_empty) true.

Lemma inet_socks : n_socks inet_server =
  inet_table 3 (mkSock InetListening true 8080 2) :: inet_table 4 (mkSock (Unbound 2 1) true 0 2) ::
  replicate 62 ProcSockTable_empty.
Proof. vm_compute. reflexivity. Qed.

Lemma inet_listeners : n_listeners inet_server =
  mkListener true 8080 3 0 (replicate 8 0%nat) 0 :: replicate 15 InetListener_empty.
Proof. vm_compute. reflexivity. Qed.

Lemma inet_wf : net_wf inet_server.
Proof.
  pose proof (net_init_wf port_mem) as H0.
  pose proof (fr_inv _ _ _ _ (socket_frame None 3 _ AF_INET 1 (conj H0 I))) as H1.
  pose proof (fr_inv _ _ _ _ (bind_frame None 3 _ 0x100 0x1000 16 H1 (avoids_none _ _))) as H2.
  pose proof (fr_inv _ _ _ _ (listen_frame None 3 _ 0x100 H2 (avoids_none _ _))) as H3.
  exact (proj1 (fr_inv _ _ _ _ (socket_frame None 4 _ AF_INET 1 H3))).
Qed.

Lemma inet_no_dangling : no_dangling inet_server.
Proof.
  split.
  - intros i k e ci He Hco. rewrite inet_socks in He. exfalso. destruct i as [|[|i]].
    + destruct k as [|k]; [injection He as <-; discriminate Hco|]. apply lookup_replicate_Some in He as ->. done.
    + destruct k as [|k]; [injection He as <-; discriminate Hco|]. apply lookup_replicate_Some in He as ->. done.
    + by apply (entry_at_empty 62 i) in He as ->.
  - intros idx l ci Hl Hin. rewrite inet_listeners in Hl. exfalso. destruct idx as [|idx]; [simplify_eq/=|].
    + by apply not_elem_of_nil in Hin.
    + apply lookup_replicate_Some in Hl as ->. by apply not_elem_of_nil in Hin.
Qed.


(** ** Where the server does not keep its ends apart *)

(** Closing one socket of a pair frees the connection while the other socket still
    refers to it: the next pair, of any process, gets the same connection, and the
    socket that is left reads what the new pair's sockets send to each other. *)
Definition reuse_server : outcome (Message * NetServer) :=
  match handle_close 3 0x101 pair_server with
  | Ret (_, s) => handle_send 4 0x101 0x2000 3 (on_n_mem (λ _, abc_mem) (handle_socketpair 4 AF_UNIX 0x3000 s).2)
  | Panic => Panic
  end.

Lemma closed_conn_is_shared :
  match reuse_server with
  | Ret (_, s) =>
      match handle_recv 3 0x100 0x5000 16 s with
      | Ret (m, s') => net_val m = 3 ∧ mem_read (n_mem s') 0x5000 3 = [97; 98; 99]
      | Panic => False
      end
  | Panic => False
  end.
Proof. vm_compute. split; reflexivity. Qed.

(** [accept] on a socket bound to a path takes any pending connection: process 3 is
    bound to "/a" and process 5 to "/b"; process 4 connects to "/b", and process 3
    accepts it. *)
Definition path_mem : mem :=
  mem_write 0x1000 [1; 0; 47; 97] (mem_write 0x2000 [1; 0; 47; 98] (λ _, 0)).
Definition path_server : NetServer :=
  let s := NetServer_init path_mem in
  let s := (handle_bind 3 0x100 0x1000 4 (handle_socket 3 AF_UNIX 1 s).2).2 in
  let s := (handle_bind 5 0x100 0x2000 4 (handle_socket 5 AF_UNIX 1 s).2).2 in
  (handle_connect 4 0x100 0x2000 4 (handle_socket 4 AF_UNIX 1 s).2).2.

Lemma accept_ignores_path :
  match handle_accept 3 0x100 0 path_server with
  | Ret (m, s) => net_val m = 0x101 ∧ k_state <$> entry_at (n_socks s) 2 0 = Some (Connected 0 true)
  | Panic => False
  end.
Proof. vm_compute. split; reflexivity. Qed.

(** Two sockets can listen on one port: [bind] only looks at listeners. *)
Definition two_listeners : NetServer :=
  let s := (handle_socket 4 AF_INET 1 (handle_socket 3 AF_INET 1 (NetServer_init port_mem)).2).2 in
  let s := (handle_bind 4 0x100 0x1000 16 (handle_bind 3 0x100 0x1000 16 s).2).2 in
  (handle_listen 4 0x100 (handle_listen 3 0x100 s).2).2.

Lemma port_listened_twice : l_port <$> take 2 (n_listeners two_listeners) = [8080; 8080] ∧
  l_pid <$> take 2 (n_listeners two_listeners) = [3; 4].
Proof. vm_compute. split; reflexivity. Qed.
