(* ===== verification/Boot.v ===== *)
(** * Boot information (src/boot/src/lib.rs, multiboot2.rs, limine.rs)

    What the boot protocols hand to the kernel.  The parser of the multiboot2
    information block is proved to end on every block, and to return the meaning of
    the tags on an encoded one; the Limine parser reads the answers to its requests
    through the pointers the boot loader leaves. *)

From stdpp Require Import base list option numbers.
From Stdlib Require Import ZArith Lia.
From S2P Require Import Prelude Words Buddy Memory.

Local Open Scope Z_scope.

(** ** Boot information *)

(** The map is a pointer and a length into static storage; [None] is the null
    pointer. *)
Record BootInfo := mkBootInfo {
  memory_map : option (list MemoryRegion);
  framebuffer_base : Z;
  framebuffer_width : Z;
  framebuffer_height : Z;
  framebuffer_pitch : Z;
  rsdp_addr : Z;
  uart_base : Z;
  initrd_base : Z;
  initrd_size : Z;
  hhdm_offset : Z
}.

Definition BootInfo_zero : BootInfo := mkBootInfo None 0 0 0 0 0 0 0 0 0.

Definition memory_regions (b : BootInfo) : list MemoryRegion := default [] (memory_map b).

Definition is_available (r : MemoryRegion) : bool := match kind r with Available => true | _ => false end.

(** [sum] on [u64] wraps around. *)
Definition total_available_memory (b : BootInfo) : Z :=
  foldl (λ acc r, wadd acc (length_ r)) 0 (List.filter is_available (memory_regions b)).

Definition set_memory_map l (b : BootInfo) : BootInfo :=
  mkBootInfo l (framebuffer_base b) (framebuffer_width b) (framebuffer_height b) (framebuffer_pitch b)
    (rsdp_addr b) (uart_base b) (initrd_base b) (initrd_size b) (hhdm_offset b).
Definition set_framebuffer fb w h p (b : BootInfo) : BootInfo :=
  mkBootInfo (memory_map b) fb w h p (rsdp_addr b) (uart_base b) (initrd_base b) (initrd_size b) (hhdm_offset b).
Definition set_rsdp a (b : BootInfo) : BootInfo :=
  mkBootInfo (memory_map b) (framebuffer_base b) (framebuffer_width b) (framebuffer_height b) (framebuffer_pitch b)
    a (uart_base b) (initrd_base b) (initrd_size b) (hhdm_offset b).
Definition set_uart a (b : BootInfo) : BootInfo :=
  mkBootInfo (memory_map b) (framebuffer_base b) (framebuffer_width b) (framebuffer_height b) (framebuffer_pitch b)
    (rsdp_addr b) a (initrd_base b) (initrd_size b) (hhdm_offset b).
Definition set_initrd a n (b : BootInfo) : BootInfo :=
  mkBootInfo (memory_map b) (framebuffer_base b) (framebuffer_width b) (framebuffer_height b) (framebuffer_pitch b)
    (rsdp_addr b) (uart_base b) a n (hhdm_offset b).
Definition set_hhdm a (b : BootInfo) : BootInfo :=
  mkBootInfo (memory_map b) (framebuffer_base b) (framebuffer_width b) (framebuffer_height b) (framebuffer_pitch b)
    (rsdp_addr b) (uart_base b) (initrd_base b) (initrd_size b) a.

Definition rd_le (n : nat) (m : mem) (a : Z) : Z := le_decode (mem_read m a (Z.of_nat n)).

(** ** Bytes in memory *)

(** Memory holds the bytes [bs] at [a]. *)
Definition mem_at (m : mem) (a : Z) (bs : list Z) : Prop := mem_read m a (Z.of_nat (length bs)) = bs.

Lemma mem_at_app m a bs bs' : mem_at m a (bs ++ bs') ↔ mem_at m a bs ∧ mem_at m (a + Z.of_nat (length bs)) bs'.
Proof.
  unfold mem_at. rewrite length_app, Nat2Z.inj_add, mem_read_app by lia. split.
  - intros Heq. apply app_inj_1 in Heq as [H1 H2]; [done|]. rewrite length_mem_read. lia.
  - by intros [-> ->].
Qed.

Lemma mem_at_nil m a : mem_at m a [].
Proof. done. Qed.

Lemma mem_at_write a bs m : mem_at (mem_write a bs m) a bs.
Proof. apply mem_read_write. Qed.

Lemma mem_at_read m a bs n : mem_at m a bs → Z.of_nat (length bs) = n → mem_read m a n = bs.
Proof. by intros H <-. Qed.

Lemma mem_at_ext m m' a bs : (∀ x, a ≤ x < a + Z.of_nat (length bs) → m x = m' x) → mem_at m a bs → mem_at m' a bs.
Proof. intros Hx H. unfold mem_at. by rewrite <- (mem_read_ext m). Qed.

Lemma mem_at_lookup m a bs i b : mem_at m a bs → bs !! i = Some b → m (a + Z.of_nat i) = b.
Proof.
  intros H Hi. pose proof (lookup_lt_Some _ _ _ Hi) as Hlt. rewrite <- H, lookup_mem_read, decide_True in Hi by lia.
  by simplify_eq.
Qed.

Lemma rd_le_at n m a v : mem_at m a (le_encode n v) → 0 ≤ v < 2 ^ (8 * Z.of_nat n) → rd_le n m a = v.
Proof.
  intros H Hv. unfold rd_le. rewrite (mem_at_read _ _ _ _ H) by (by rewrite length_le_encode). by apply le_decode_encode.
Qed.

(** [(x + 2^k - 1) & !(2^k - 1)] *)
Definition align8 (n : Z) : Z := Z.land (n + 7) (wnot 7).
Definition align4 (n : Z) : Z := Z.land (n + 3) (wnot 3).

Lemma land_wnot_mask x k : 0 ≤ x < 2^64 → 0 ≤ k → Z.land x (wnot (2^k - 1)) = x - x mod 2^k.
Proof.
  intros Hx Hk. rewrite land_wnot by done. replace (2^k - 1) with (Z.ones k) by (rewrite Z.ones_equiv; lia).
  rewrite Z.ldiff_ones_r, Z.shiftl_mul_pow2, Z.shiftr_div_pow2 by done. pose proof (Z.div_mod x (2^k)). lia.
Qed.

Lemma align8_spec n : 0 ≤ n < 2^63 → n ≤ align8 n < n + 8 ∧ align8 n mod 8 = 0.
Proof.
  intros Hn. unfold align8. change 7 with (2^3 - 1). rewrite land_wnot_mask by lia. change (2^3) with 8.
  pose proof (Z.mod_pos_bound (n + (8 - 1)) 8). split; [lia|]. apply Z.mod_divide; [lia|].
  exists ((n + (8 - 1)) / 8). pose proof (Z.div_mod (n + (8 - 1)) 8). lia.
Qed.

Lemma align4_up n : 0 ≤ n < 2^63 → n ≤ align4 n < n + 4 ∧ align4 n mod 4 = 0.
Proof.
  intros Hn. unfold align4. change 3 with (2^2 - 1). rewrite land_wnot_mask by lia. change (2^2) with 4.
  pose proof (Z.mod_pos_bound (n + (4 - 1)) 4). split; [lia|]. apply Z.mod_divide; [lia|].
  exists ((n + (4 - 1)) / 4). pose proof (Z.div_mod (n + (4 - 1)) 4). lia.
Qed.

(** ** Multiboot2 *)

Module Multiboot2.
Definition TAG_END : Z := 0.
Definition TAG_MEMORY_MAP : Z := 6.
Definition TAG_FRAMEBUFFER : Z := 8.
Definition TAG_ACPI_V1 : Z := 14.
Definition TAG_ACPI_V2 : Z := 15.
Definition MM_LEN : nat := 128.

Definition mmap_kind (typ : Z) : MemoryType :=
  if typ =? 1 then Available else if typ =? 3 then AcpiReclaimable else if typ =? 4 then AcpiNvs
  else if typ =? 5 then BadMemory else Reserved.

(** The entry of the map at [e]. *)
Definition mmap_entry (m : mem) (e : Z) : MemoryRegion :=
  mkMemoryRegion (rd_le 8 m e) (rd_le 8 m (e + 8)) (mmap_kind (rd_le 4 m (e + 16))).

(** The loop over the entries of a memory map tag; [None] is out of fuel. *)
Fixpoint mmap_entries (fuel : nat) (m : mem) (mbi entry_size eoff end_ : Z) (mm : list MemoryRegion) :
    option (list MemoryRegion) :=
  if eoff + entry_size <=? end_ then
    match fuel with
    | O => None
    | S fuel' =>
        let mm := if (length mm <? MM_LEN)%nat then mm ++ [mmap_entry m (mbi + eoff)] else mm in
        mmap_entries fuel' m mbi entry_size (eoff + entry_size) end_ mm
    end
  else Some mm.

(** One tag: does the loop go on, the information and the map. *)
Definition tag_step (fuel : nat) (m : mem) (mbi offset typ size : Z) (info : BootInfo) (mm : list MemoryRegion) :
    option (bool * BootInfo * list MemoryRegion) :=
  if typ =? TAG_END then Some (false, info, mm)
  else if typ =? TAG_MEMORY_MAP then
    let entry_size := rd_le 4 m (mbi + offset + 8) in
    if entry_size =? 0 then Some (false, info, mm)
    else
      mm ← mmap_entries fuel m mbi entry_size (offset + 16) (offset + size) mm;
      Some (true, set_memory_map (Some mm) info, mm)
  else if typ =? TAG_FRAMEBUFFER then
    let fb := mbi + offset + 8 in
    Some (true, set_framebuffer (rd_le 8 m fb) (rd_le 4 m (fb + 12)) (rd_le 4 m (fb + 16)) (rd_le 4 m (fb + 8)) info, mm)
  else if typ =? TAG_ACPI_V2 then Some (true, set_rsdp (mbi + offset + 8) info, mm)
  else if (typ =? TAG_ACPI_V1) && (rsdp_addr info =? 0) then Some (true, set_rsdp (mbi + offset + 8) info, mm)
  else Some (true, info, mm).

Fixpoint tag_loop (fuel : nat) (m : mem) (mbi total_size offset : Z) (info : BootInfo) (mm : list MemoryRegion) :
    option BootInfo :=
  if offset <? total_size then
    match fuel with
    | O => None
    | S fuel' =>
        let typ := rd_le 4 m (mbi + offset) in
        let size := rd_le 4 m (mbi + offset + 4) in
        if size <? 8 then Some info
        else
          '(go, info, mm) ← tag_step (Z.to_nat size) m mbi offset typ size info mm;
          if go : bool then tag_loop fuel' m mbi total_size (offset + align8 size) info mm else Some info
    end
  else Some info.

Definition parse (m : mem) (mbi_phys : Z) : option BootInfo :=
  let total_size := rd_le 4 m mbi_phys in
  tag_loop (Z.to_nat total_size) m mbi_phys total_size 8 BootInfo_zero [].

(** *** The parser ends on every block *)

Lemma mmap_entries_ends fuel m mbi entry_size eoff end_ mm : 0 < entry_size → end_ ≤ eoff + Z.of_nat fuel →
  ∃ r, mmap_entries fuel m mbi entry_size eoff end_ mm = Some r.
Proof.
  intros He. revert eoff mm. induction fuel as [|fuel IH]; intros eoff mm Hf; simpl; case_bool; eauto; [lia|].
  apply IH. lia.
Qed.

Lemma rd_le_range n m a : (∀ x, is_byte (m x)) → 0 ≤ rd_le n m a < 2 ^ (8 * Z.of_nat n).
Proof.
  intros Hm. unfold rd_le. assert (Forall is_byte (mem_read m a (Z.of_nat n))) as HF.
  { apply Forall_lookup. intros i b. rewrite lookup_mem_read. case_decide; [|done]. intros [= <-]. apply Hm. }
  pose proof (le_decode_range _ HF) as Hr. by rewrite length_mem_read, Nat2Z.id in Hr.
Qed.

Lemma tag_loop_ends fuel m mbi total offset info mm : (∀ x, is_byte (m x)) → total ≤ offset + Z.of_nat fuel →
  ∃ r, tag_loop fuel m mbi total offset info mm = Some r.
Proof.
  intros Hm. revert offset info mm. induction fuel as [|fuel IH]; intros offset info mm Hf; simpl; case_bool; eauto; [lia|].
  case_bool; eauto. pose proof (rd_le_range 4 m (mbi + offset + 4) Hm) as Hs. change (2 ^ (8 * Z.of_nat 4)) with (2^32) in Hs.
  set (size := rd_le 4 m (mbi + offset + 4)) in *.
  assert (∃ go info' mm', tag_step (Z.to_nat size) m mbi offset (rd_le 4 m (mbi + offset)) size info mm =
    Some (go, info', mm')) as (go & info' & mm' & ->).
  { unfold tag_step. repeat (case_bool; eauto). pose proof (rd_le_range 4 m (mbi + offset + 8) Hm).
    destruct (mmap_entries_ends (Z.to_nat size) m mbi (rd_le 4 m (mbi + offset + 8)) (offset + 16) (offset + size) mm)
      as [r ->]; simpl; eauto; lia. }
  simpl. destruct go; eauto. apply IH. pose proof (align8_spec size). lia.
Qed.

Lemma mbi_parse_ends m mbi : (∀ x, is_byte (m x)) → ∃ info, parse m mbi = Some info.
Proof. intros Hm. apply tag_loop_ends; [done|]. pose proof (rd_le_range 4 m mbi Hm). lia. Qed.

(** *** Encoded blocks *)

(** The tags the kernel reads, and others. *)
Inductive tag :=
  | TMemMap (rs : list MemoryRegion)
  | TFramebuffer (addr pitch width height : Z) (rest : list Z)
  | TAcpiV1 (rsdp : list Z)
  | TAcpiV2 (rsdp : list Z)
  | TOther (typ : Z) (payload : list Z).

Definition kind_code (k : MemoryType) : Z :=
  match k with Available => 1 | Reserved => 2 | AcpiReclaimable => 3 | AcpiNvs => 4 | BadMemory => 5 end.

Definition encode_region (r : MemoryRegion) : list Z :=
  le_encode 8 (base r) ++ le_encode 8 (length_ r) ++ le_encode 4 (kind_code (kind r)) ++ le_encode 4 0.

Definition tag_type (t : tag) : Z :=
  match t with
  | TMemMap _ => 6 | TFramebuffer _ _ _ _ _ => 8 | TAcpiV1 _ => 14 | TAcpiV2 _ => 15 | TOther typ _ => typ
  end.

Definition tag_payload (t : tag) : list Z :=
  match t with
  | TMemMap rs => le_encode 4 24 ++ le_encode 4 0 ++ mjoin (encode_region <$> rs)
  | TFramebuffer addr pitch width height rest =>
      le_encode 8 addr ++ le_encode 4 pitch ++ le_encode 4 width ++ le_encode 4 height ++ rest
  | TAcpiV1 p | TAcpiV2 p | TOther _ p => p
  end.

Definition tag_size (t : tag) : Z := 8 + Z.of_nat (length (tag_payload t)).

Definition encode_tag (t : tag) : list Z :=
  le_encode 4 (tag_type t) ++ le_encode 4 (tag_size t) ++ tag_payload t ++
  replicate (Z.to_nat (align8 (tag_size t) - tag_size t)) 0.

Definition encode_tags (ts : list tag) : list Z := mjoin (encode_tag <$> ts) ++ le_encode 4 0 ++ le_encode 4 8.

Definition encode (ts : list tag) : list Z :=
  le_encode 4 (8 + Z.of_nat (length (encode_tags ts))) ++ le_encode 4 0 ++ encode_tags ts.

(** What a tag at address [a] says. *)
Definition mean_tag (a : Z) (t : tag) (info : BootInfo) : BootInfo :=
  match t with
  | TMemMap rs => set_memory_map (Some (take MM_LEN (memory_regions info ++ rs))) info
  | TFramebuffer addr pitch width height _ => set_framebuffer addr width height pitch info
  | TAcpiV2 _ => set_rsdp (a + 8) info
  | TAcpiV1 _ => if rsdp_addr info =? 0 then set_rsdp (a + 8) info else info
  | TOther _ _ => info
  end.

Fixpoint mean_tags (a : Z) (ts : list tag) (info : BootInfo) : BootInfo :=
  match ts with
  | [] => info
  | t :: ts' => mean_tags (a + align8 (tag_size t)) ts' (mean_tag a t info)
  end.

Definition region_ok (r : MemoryRegion) : Prop := 0 ≤ base r < 2^64 ∧ 0 ≤ length_ r < 2^64.

Definition tag_ok (t : tag) : Prop :=
  match t with
  | TMemMap rs => Forall region_ok rs
  | TFramebuffer addr pitch width height _ => 0 ≤ addr < 2^64 ∧ 0 ≤ pitch < 2^32 ∧ 0 ≤ width < 2^32 ∧ 0 ≤ height < 2^32
  | TOther typ _ => 0 ≤ typ < 2^32 ∧ typ ∉ [TAG_END; TAG_MEMORY_MAP; TAG_FRAMEBUFFER; TAG_ACPI_V1; TAG_ACPI_V2]
  | _ => True
  end.

Lemma mmap_kind_code k : mmap_kind (kind_code k) = k.
Proof. by destruct k. Qed.

Lemma length_encode_region r : length (encode_region r) = 24%nat.
Proof. unfold encode_region. by rewrite !length_app, !length_le_encode. Qed.

(** Splits the encoding in memory into its fields. *)
Ltac mem_split H := repeat (rewrite mem_at_app in H); rewrite ?length_app, ?length_le_encode, ?length_replicate in H.

Lemma mmap_entry_at m a r : region_ok r → mem_at m a (encode_region r) → mmap_entry m a = r.
Proof.
  intros [Hb Hl] H. unfold encode_region in H. mem_split H. destruct H as (H1 & H2 & H3 & _). unfold mmap_entry.
  replace (a + 16) with (a + Z.of_nat 8 + Z.of_nat 8) by lia. change (a + 8) with (a + Z.of_nat 8).
  rewrite (rd_le_at 8 _ _ _ H1), (rd_le_at 8 _ _ _ H2), (rd_le_at 4 _ _ _ H3) by (by destruct r as [? ? []]).
  rewrite mmap_kind_code. by destruct r.
Qed.

Lemma mmap_entries_at rs fuel m mbi eoff end_ mm : Forall region_ok rs → mem_at m (mbi + eoff) (mjoin (encode_region <$> rs)) →
  end_ = eoff + 24 * Z.of_nat (length rs) → (length rs ≤ fuel)%nat → (length mm ≤ MM_LEN)%nat →
  mmap_entries fuel m mbi 24 eoff end_ mm = Some (take MM_LEN (mm ++ rs)).
Proof.
  intros HF. revert fuel eoff mm. induction HF as [|r rs Hr HF IH]; intros fuel eoff mm Hm -> Hf Hl;
    cbn [fmap list_fmap mjoin list_join length] in *.
  { rewrite app_nil_r, take_ge by done. destruct fuel; simpl; case_bool; (lia || done). }
  destruct fuel as [|fuel]; [lia|]. apply mem_at_app in Hm as [Hm1 Hm2]. rewrite length_encode_region in Hm2.
  cbn [mmap_entries]. rewrite (proj2 (Z.leb_le _ _)) by lia. rewrite (mmap_entry_at m _ r Hr Hm1).
  rewrite IH; [|by replace (mbi + (eoff + 24)) with (mbi + eoff + Z.of_nat 24) by lia|lia..|].
  - f_equal. case_bool; [by rewrite <- app_assoc|]. rewrite !take_app_ge by lia.
    by replace (MM_LEN - length mm)%nat with 0%nat by lia.
  - case_bool; [rewrite length_app; simpl; lia|done].
Qed.

Lemma length_encode_regions rs : length (mjoin (encode_region <$> rs)) = (24 * length rs)%nat.
Proof.
  induction rs as [|r rs IH]; [done|].
  change (mjoin (encode_region <$> r :: rs)) with (encode_region r ++ mjoin (encode_region <$> rs)).
  rewrite length_app, length_encode_region, IH. simpl. lia.
Qed.

Lemma memory_regions_mean a t info : (length (memory_regions info) ≤ MM_LEN)%nat →
  (length (memory_regions (mean_tag a t info)) ≤ MM_LEN)%nat.
Proof. intros H. destruct t; cbn [mean_tag]; try done; [|by case_bool].
  change (length (take MM_LEN (memory_regions info ++ rs)) ≤ MM_LEN)%nat. rewrite length_take. lia. Qed.

(** The encoding of a tag in memory: its type, its size and its payload. *)
Lemma encode_tag_at m a t : tag_ok t → tag_size t < 2^32 → mem_at m a (encode_tag t) →
  rd_le 4 m a = tag_type t ∧ rd_le 4 m (a + 4) = tag_size t ∧ mem_at m (a + 8) (tag_payload t).
Proof.
  intros Hok Hs H. unfold encode_tag in H. mem_split H. destruct H as (H1 & H2 & H3 & _).
  replace (a + Z.of_nat 4 + Z.of_nat 4) with (a + 8) in H3 by lia. change (a + 4) with (a + Z.of_nat 4). split_and!; [..|done].
  - apply (rd_le_at 4 _ _ _ H1). destruct t; simpl in *; naive_solver lia.
  - apply (rd_le_at 4 _ _ _ H2). unfold tag_size in *. lia.
Qed.

Lemma tag_step_at m mbi offset t info : tag_ok t → tag_size t < 2^32 → mem_at m (mbi + offset) (encode_tag t) →
  (length (memory_regions info) ≤ MM_LEN)%nat →
  tag_step (Z.to_nat (tag_size t)) m mbi offset (tag_type t) (tag_size t) info (memory_regions info) =
    Some (true, mean_tag (mbi + offset) t info, memory_regions (mean_tag (mbi + offset) t info)).
Proof.
  intros Hok Hs Hm Hl. destruct (encode_tag_at _ _ _ Hok Hs Hm) as (_ & _ & Hp). unfold tag_step.
  destruct t as [rs|addr pitch width height rest|p|p|typ p]; cbn [tag_type tag_payload] in *.
  - cbn [Z.eqb TAG_END TAG_MEMORY_MAP Pos.eqb]. mem_split Hp. destruct Hp as (H1 & H2 & H3).
    rewrite (rd_le_at 4 _ _ _ H1) by lia. cbn [Z.eqb].
    rewrite (mmap_entries_at rs); [done|done| | | |done].
    + by replace (mbi + (offset + 16)) with (mbi + offset + 8 + Z.of_nat 4 + Z.of_nat 4) by lia.
    + unfold tag_size. cbn [tag_payload]. rewrite !length_app, !length_le_encode, length_encode_regions. lia.
    + unfold tag_size. cbn [tag_payload]. rewrite !length_app, !length_le_encode, length_encode_regions. lia.
  - cbn [Z.eqb TAG_END TAG_MEMORY_MAP TAG_FRAMEBUFFER Pos.eqb]. mem_split Hp. destruct Hp as (H1 & H2 & H3 & H4 & _).
    destruct Hok as (Ha & Hpi & Hw & Hh). rewrite (rd_le_at 8 _ _ _ H1) by done.
    replace (mbi + offset + 8 + 12) with (mbi + offset + 8 + Z.of_nat 8 + Z.of_nat 4) by lia.
    replace (mbi + offset + 8 + 16) with (mbi + offset + 8 + Z.of_nat 8 + Z.of_nat 4 + Z.of_nat 4) by lia.
    change (mbi + offset + 8 + 8) with (mbi + offset + 8 + Z.of_nat 8).
    by rewrite (rd_le_at 4 _ _ _ H2), (rd_le_at 4 _ _ _ H3), (rd_le_at 4 _ _ _ H4).
  - cbn. by case_bool.
  - done.
  - destruct Hok as [_ Hn]. rewrite !not_elem_of_cons in Hn. destruct Hn as (H0 & H6 & H8 & H14 & H15 & _).
    rewrite !(proj2 (Z.eqb_neq typ _)) by done. done.
Qed.

Lemma length_encode_tag t : tag_size t < 2^32 → Z.of_nat (length (encode_tag t)) = align8 (tag_size t).
Proof.
  intros Hs. assert (0 ≤ tag_size t) as H0 by (unfold tag_size; lia). pose proof (align8_spec (tag_size t)).
  unfold encode_tag. rewrite !length_app, !length_le_encode, length_replicate. unfold tag_size in *. lia.
Qed.

Lemma tag_loop_at ts fuel m mbi offset total info : Forall tag_ok ts → Forall (λ t, tag_size t < 2^32) ts →
  mem_at m (mbi + offset) (encode_tags ts) → total = offset + Z.of_nat (length (encode_tags ts)) →
  (length ts < fuel)%nat → (length (memory_regions info) ≤ MM_LEN)%nat →
  tag_loop fuel m mbi total offset info (memory_regions info) = Some (mean_tags (mbi + offset) ts info).
Proof.
  intros Hok Hs. revert fuel offset total info. induction Hok as [|t ts Ht Hok IH]; intros fuel offset total info Hm -> Hf Hl;
    (destruct fuel as [|fuel]; [simpl in *; lia|]).
  - unfold encode_tags in *. simpl mjoin in *. cbn [app] in Hm. mem_split Hm. destruct Hm as [H1 H2]. cbn [tag_loop].
    rewrite (proj2 (Z.ltb_lt _ _)) by (rewrite !length_app, !length_le_encode; lia).
    rewrite (rd_le_at 4 m (mbi + offset) 0 H1), (rd_le_at 4 m (mbi + offset + 4) 8 H2) by lia. done.
  - apply Forall_cons_1 in Hs as [Hst Hss]. unfold encode_tags in *.
    change (mjoin (encode_tag <$> t :: ts)) with (encode_tag t ++ mjoin (encode_tag <$> ts)) in *. rewrite <- app_assoc in *. apply mem_at_app in Hm as [Hm1 Hm2].
    destruct (encode_tag_at _ _ _ Ht Hst Hm1) as (Hty & Hsz & _). pose proof (length_encode_tag t Hst) as Hlen.
    rewrite Hlen in Hm2. assert (8 ≤ tag_size t) as H8 by (unfold tag_size; lia). pose proof (align8_spec (tag_size t)).
    cbn [tag_loop]. rewrite length_app, Nat2Z.inj_add, Hlen. rewrite (proj2 (Z.ltb_lt _ _)) by lia.
    rewrite Hty, Hsz, (proj2 (Z.ltb_ge _ _)) by lia. rewrite (tag_step_at _ _ _ _ _ Ht Hst Hm1 Hl). cbn [mbind option_bind].
    rewrite Z.add_assoc. cbn [mean_tags]. rewrite <- Z.add_assoc in Hm2.
    replace (mbi + offset + align8 (tag_size t)) with (mbi + (offset + align8 (tag_size t))) by lia.
    apply IH; [done..|simpl in *; lia|by apply memory_regions_mean].
Qed.

Lemma length_encode_tags ts : Forall (λ t, tag_size t < 2^32) ts → 8 * Z.of_nat (length ts) + 8 ≤ Z.of_nat (length (encode_tags ts)).
Proof.
  unfold encode_tags. induction 1 as [|t ts Ht HF IH]; [simpl; lia|].
  change (mjoin (encode_tag <$> t :: ts)) with (encode_tag t ++ mjoin (encode_tag <$> ts)). rewrite <- app_assoc, length_app.
  pose proof (length_encode_tag t Ht). assert (8 ≤ tag_size t) by (unfold tag_size; lia). pose proof (align8_spec (tag_size t)).
  rewrite length_cons. lia.
Qed.

(** A tag is no larger than the block it is in. *)
Lemma encode_tag_sizes ts : Forall (λ t, tag_size t ≤ Z.of_nat (length (mjoin (encode_tag <$> ts)))) ts.
Proof.
  induction ts as [|t ts IH]; [done|].
  change (mjoin (encode_tag <$> t :: ts)) with (encode_tag t ++ mjoin (encode_tag <$> ts)). constructor.
  - unfold encode_tag. rewrite !length_app, !length_le_encode. unfold tag_size. lia.
  - eapply Forall_impl; [|exact IH]. simpl. intros t' Ht'. rewrite length_app. lia.
Qed.

(** C26: The multiboot2 parser reads what the boot loader wrote: on the encoding of any
    list of tags (memory maps, framebuffer, ACPI pointers and tags it does not
    know), anywhere in memory, it returns the information of the tags, with the
    first 128 regions of their memory maps. *)
Theorem multiboot2_roundtrip ts m mbi : Forall tag_ok ts → Z.of_nat (length (encode ts)) < 2^32 → mem_at m mbi (encode ts) →
  parse m mbi = Some (mean_tags (mbi + 8) ts BootInfo_zero).
Proof.
  intros Hok Hlen Hm. unfold encode in *. rewrite !length_app, !length_le_encode in Hlen. mem_split Hm.
  destruct Hm as (H1 & _ & H3). replace (mbi + Z.of_nat 4 + Z.of_nat 4) with (mbi + 8) in H3 by lia.
  unfold parse. rewrite (rd_le_at 4 _ _ _ H1) by lia.
  assert (Forall (λ t, tag_size t < 2^32) ts) as Hs.
  { eapply Forall_impl; [|exact (encode_tag_sizes ts)]. unfold encode_tags in Hlen. rewrite length_app in Hlen. simpl. lia. }
  pose proof (length_encode_tags ts Hs). apply tag_loop_at; [done..|lia|simpl; lia].
Qed.

(** Two regions and an ACPI pointer. *)
Definition demo_tags : list tag := [
  TOther 1 [65; 0];
  TMemMap [mkMemoryRegion 0 0x9FC00 Available; mkMemoryRegion 0x100000 0x7EE0000 Available;
           mkMemoryRegion 0xFFFC0000 0x40000 Reserved];
  TAcpiV1 [82; 83; 68]].

Lemma multiboot2_roundtrip_witness : ∃ info, parse (mem_write 0x9000 (encode demo_tags) (λ _, 0)) 0x9000 = Some info ∧
  length (memory_regions info) = 3%nat ∧ total_available_memory info = 0x7EE0000 + 0x9FC00 ∧
  rsdp_addr info = 0x9000 + 8 + 16 + 88 + 8.
Proof.
  eexists. split_and!.
  { apply (multiboot2_roundtrip demo_tags); [|vm_compute; reflexivity|apply mem_at_write].
    apply Forall_cons; [split; [lia|]|apply Forall_cons; [|by apply Forall_cons]].
    + rewrite !not_elem_of_cons. split_and!; [done..|]. apply not_elem_of_nil.
    + repeat (apply Forall_cons; [split; simpl; lia|]). by apply Forall_nil. }
  all: vm_compute; reflexivity.
Defined.
End Multiboot2.

(** ** Limine *)

Module Limine.
Definition USABLE : Z := 0.
Definition ACPI_RECLAIMABLE : Z := 2.
Definition ACPI_NVS : Z := 3.
Definition BAD_MEMORY : Z := 4.
Definition MM_LEN : nat := 128.

(** The pointers the boot loader stores into the requests; 0 is null. *)
Record responses := mkResponses { r_hhdm : Z; r_memmap : Z; r_framebuffer : Z; r_rsdp : Z; r_module : Z }.

Definition entry_kind (typ : Z) : MemoryType :=
  if typ =? USABLE then Available else if typ =? ACPI_RECLAIMABLE then AcpiReclaimable
  else if typ =? ACPI_NVS then AcpiNvs else if typ =? BAD_MEMORY then BadMemory else Reserved.

(** [&**resp.entries.add(i)] *)
Definition entry_region (m : mem) (entries : Z) (i : nat) : MemoryRegion :=
  let e := read_u64 m (entries + 8 * Z.of_nat i) in
  mkMemoryRegion (read_u64 m e) (read_u64 m (e + 8)) (entry_kind (read_u64 m (e + 16))).

(** The loop over the entries [idxs], with the map so far. *)
Fixpoint map_loop (m : mem) (entries : Z) (idxs : list nat) (mm : list MemoryRegion) : list MemoryRegion :=
  match idxs with
  | [] => mm
  | i :: idxs' =>
      if (MM_LEN <=? length mm)%nat then mm else map_loop m entries idxs' (mm ++ [entry_region m entries i])
  end.

Definition parse (m : mem) (r : responses) : BootInfo :=
  let info := BootInfo_zero in
  let info := if r_hhdm r =? 0 then info else set_hhdm (read_u64 m (r_hhdm r + 8)) info in
  let info :=
    if r_memmap r =? 0 then info
    else
      let n := Z.min (read_u64 m (r_memmap r + 8)) 512 in
      set_memory_map (Some (map_loop m (read_u64 m (r_memmap r + 16)) (seq 0 (Z.to_nat n)) [])) info in
  let info :=
    if r_framebuffer r =? 0 then info
    else if 0 <? read_u64 m (r_framebuffer r + 8) then
      let fb := read_u64 m (read_u64 m (r_framebuffer r + 16)) in
      set_framebuffer (read_u64 m fb) (u32 (read_u64 m (fb + 8))) (u32 (read_u64 m (fb + 16))) (u32 (read_u64 m (fb + 24))) info
    else info in
  let info := if r_rsdp r =? 0 then info else set_rsdp (read_u64 m (r_rsdp r + 8)) info in
  if r_module r =? 0 then info
  else if 0 <? read_u64 m (r_module r + 8) then
    let module := read_u64 m (read_u64 m (r_module r + 16)) in
    set_initrd (saturating_sub (read_u64 m (module + 8)) (hhdm_offset info)) (read_u64 m (module + 16)) info
  else info.

Lemma map_loop_spec m entries idxs mm : (length mm ≤ MM_LEN)%nat →
  map_loop m entries idxs mm = take MM_LEN (mm ++ (entry_region m entries <$> idxs)).
Proof.
  revert mm. induction idxs as [|i idxs IH]; intros mm Hl; cbn [map_loop].
  { rewrite app_nil_r, take_ge; done. }
  case_bool.
  - rewrite take_app_ge by lia. replace (MM_LEN - length mm)%nat with 0%nat by lia. by rewrite app_nil_r.
  - rewrite IH by (rewrite length_app; simpl; lia). by rewrite <- app_assoc.
Qed.

(** The memory map is that of the response, its first 128 entries. *)
Lemma parse_memory_map m r : r_memmap r ≠ 0 → read_u64 m (r_memmap r + 8) ≤ 512 →
  memory_map (parse m r) =
    Some (take MM_LEN (entry_region m (read_u64 m (r_memmap r + 16)) <$> seq 0 (Z.to_nat (read_u64 m (r_memmap r + 8))))).
Proof.
  intros Hr Hn. unfold parse. rewrite (proj2 (Z.eqb_neq _ _) Hr), Z.min_l by done. rewrite map_loop_spec by (simpl; lia).
  repeat case_bool; done.
Qed.
End Limine.
