(* ===== verification/DeviceTree.v ===== *)
(** * The device tree parser (src/boot/src/device_tree.rs)

    The parser of the flattened device tree that the AArch64 boot path runs on the
    blob whose address the firmware passes.  Debug output to the serial port is left
    out.  Addresses are below 2^64 - 2^34, so that no sum of an address and a
    32-bit length wraps around. *)

From Stdlib Require Import ZArith Lia Ascii String.
From stdpp Require Import base list option numbers strings.
From S2P Require Import Prelude Words Buddy Memory Cpio Boot.

Local Open Scope Z_scope.

(** ** Big-endian words and UTF-8 *)

Definition be_encode (n : nat) (v : Z) : list Z := reverse (le_encode n v).
Definition be_decode (bs : list Z) : Z := le_decode (reverse bs).

(** [be32] and [be64]. *)
Definition rd_be (n : nat) (m : mem) (a : Z) : Z := be_decode (mem_read m a (Z.of_nat n)).

Definition in_rng (lo hi b : Z) : bool := (lo <=? b) && (b <=? hi).
Definition is_cont (b : Z) : bool := in_rng 0x80 0xBF b.

(** The byte sequences that [core::str::from_utf8] accepts. *)
Fixpoint utf8_valid (l : list Z) : bool :=
  match l with
  | [] => true
  | b0 :: l0 =>
      if b0 <? 0x80 then utf8_valid l0
      else
        match l0 with
        | b1 :: l1 =>
            if in_rng 0xC2 0xDF b0 then is_cont b1 && utf8_valid l1
            else
              match l1 with
              | b2 :: l2 =>
                  if b0 =? 0xE0 then in_rng 0xA0 0xBF b1 && is_cont b2 && utf8_valid l2
                  else if b0 =? 0xED then in_rng 0x80 0x9F b1 && is_cont b2 && utf8_valid l2
                  else if in_rng 0xE1 0xEF b0 then is_cont b1 && is_cont b2 && utf8_valid l2
                  else
                    match l2 with
                    | b3 :: l3 =>
                        (if b0 =? 0xF0 then in_rng 0x90 0xBF b1
                         else if in_rng 0xF1 0xF3 b0 then is_cont b1
                         else if b0 =? 0xF4 then in_rng 0x80 0x8F b1 else false)
                        && is_cont b2 && is_cont b3 && utf8_valid l3
                    | [] => false
                    end
              | [] => false
              end
        | [] => false
        end
  end.

(** [from_utf8(..).unwrap_or("")] *)
Definition str_or_empty (bs : list Z) : list Z := if utf8_valid bs then bs else [].

Definition str_eq (l : list Z) (s : string) : bool := bool_decide (l = bytes s).
Definition starts_with (l : list Z) (s : string) : bool := bool_decide (take (length (bytes s)) l = bytes s).

(** ** The state of the parser *)

Definition FDT_MAGIC : Z := 0xD00DFEED.
Definition FDT_BEGIN_NODE : Z := 1.
Definition FDT_END_NODE : Z := 2.
Definition FDT_PROP : Z := 3.
Definition FDT_NOP : Z := 4.
Definition FDT_END : Z := 9.
Definition MM_SLOTS : nat := 64.

Record Dt := mkDt {
  dt_mm : list MemoryRegion;
  dt_uart : Z;
  dt_initrd_base : Z;
  dt_initrd_size : Z;
  depth : Z;
  in_memory : bool;
  in_framebuf : bool;
  in_pl011 : bool;
  in_chosen : bool;
  address_cells : Z;
  size_cells : Z;
  fb_base : Z;
  fb_width : Z;
  fb_height : Z;
  fb_pitch : Z
}.

Definition Dt_init : Dt := mkDt [] 0 0 0 0 false false false false 2 2 0 0 0 0.

(** The flags and the depth. *)
Definition set_node (d : Z) (im ifb ip ic : bool) (t : Dt) : Dt :=
  mkDt (dt_mm t) (dt_uart t) (dt_initrd_base t) (dt_initrd_size t) d im ifb ip ic (address_cells t) (size_cells t)
    (fb_base t) (fb_width t) (fb_height t) (fb_pitch t).
Definition set_cells (ac sc : Z) (t : Dt) : Dt :=
  mkDt (dt_mm t) (dt_uart t) (dt_initrd_base t) (dt_initrd_size t) (depth t) (in_memory t) (in_framebuf t) (in_pl011 t)
    (in_chosen t) ac sc (fb_base t) (fb_width t) (fb_height t) (fb_pitch t).
Definition set_fb (b w h p : Z) (t : Dt) : Dt :=
  mkDt (dt_mm t) (dt_uart t) (dt_initrd_base t) (dt_initrd_size t) (depth t) (in_memory t) (in_framebuf t) (in_pl011 t)
    (in_chosen t) (address_cells t) (size_cells t) b w h p.
Definition set_found (mm : list MemoryRegion) (u ib isz : Z) (t : Dt) : Dt :=
  mkDt mm u ib isz (depth t) (in_memory t) (in_framebuf t) (in_pl011 t)
    (in_chosen t) (address_cells t) (size_cells t) (fb_base t) (fb_width t) (fb_height t) (fb_pitch t).

(** ** Tokens *)

Definition node_begin (name : list Z) (t : Dt) : Dt :=
  set_node (depth t + 1)
    (str_eq name "memory" || starts_with name "memory@")
    (str_eq name "framebuffer" || starts_with name "framebuffer@" || starts_with name "simple-framebuffer@")
    (starts_with name "pl011@" || starts_with name "uart@")
    (str_eq name "chosen") t.

Definition node_end (t : Dt) : Dt :=
  let d := depth t - 1 in
  if d =? 1 then set_node d false false false false t
  else set_node d (in_memory t) (in_framebuf t) (in_pl011 t) (in_chosen t) t.

(** The pairs of address and size in a "reg" of a memory node; [rd n off] is the
    big-endian word of [n] bytes at offset [off] of the property.  [None] is out of
    fuel; the 65th region is outside of the array. *)
Fixpoint reg_loop (fuel : nat) (rd : nat → Z → Z) (ac sc entry_bytes data_len off : Z) (mm : list MemoryRegion) :
    option (outcome (list MemoryRegion)) :=
  if off + entry_bytes <=? data_len then
    match fuel with
    | O => None
    | S fuel' =>
        let base := if ac =? 2 then rd 8%nat off else rd 4%nat off in
        let size_off := off + ac * 4 in
        let size := if sc =? 2 then rd 8%nat size_off else rd 4%nat size_off in
        if (MM_SLOTS <=? length mm)%nat then Some Panic
        else reg_loop fuel' rd ac sc entry_bytes data_len (off + entry_bytes) (mm ++ [mkMemoryRegion base size Available])
    end
  else Some (Ret mm).

(** A property: does the loop go on, and the state. *)
Definition prop_step (rd : nat → Z → Z) (name : list Z) (data_len : Z) (t : Dt) : option (outcome (bool * Dt)) :=
  let address off := if 2 <=? address_cells t then rd 8%nat off else rd 4%nat off in
  let go t := Some (Ret (true, t)) in
  if str_eq name "#address-cells" && (4 <=? data_len) && (depth t =? 1) then
    go (set_cells (u8 (rd 4%nat 0)) (size_cells t) t)
  else if str_eq name "#size-cells" && (4 <=? data_len) && (depth t =? 1) then
    go (set_cells (address_cells t) (u8 (rd 4%nat 0)) t)
  else if str_eq name "reg" && in_framebuf t && (8 <=? data_len) then
    go (set_fb (address 0) (fb_width t) (fb_height t) (fb_pitch t) t)
  else if str_eq name "width" && in_framebuf t && (4 <=? data_len) then
    go (set_fb (fb_base t) (rd 4%nat 0) (fb_height t) (fb_pitch t) t)
  else if str_eq name "height" && in_framebuf t && (4 <=? data_len) then
    go (set_fb (fb_base t) (fb_width t) (rd 4%nat 0) (fb_pitch t) t)
  else if str_eq name "stride" && in_framebuf t && (4 <=? data_len) then
    go (set_fb (fb_base t) (fb_width t) (fb_height t) (rd 4%nat 0) t)
  else if str_eq name "reg" && in_pl011 t && (4 <=? data_len) then
    go (if dt_uart t =? 0 then set_found (dt_mm t) (address 0) (dt_initrd_base t) (dt_initrd_size t) t else t)
  else if str_eq name "reg" && in_memory t && (length (dt_mm t) <? 32)%nat then
    let entry_bytes := u8 (address_cells t + size_cells t) * 4 in
    if entry_bytes =? 0 then Some (Ret (false, t))
    else
      match reg_loop (Z.to_nat data_len) rd (address_cells t) (size_cells t) entry_bytes data_len 0 (dt_mm t) with
      | None => None
      | Some Panic => Some Panic
      | Some (Ret mm) => go (set_found mm (dt_uart t) (dt_initrd_base t) (dt_initrd_size t) t)
      end
  else if str_eq name "linux,initrd-start" && in_chosen t && (8 <=? data_len) then
    go (set_found (dt_mm t) (dt_uart t) (rd 8%nat 0) (dt_initrd_size t) t)
  else if str_eq name "linux,initrd-end" && in_chosen t && (8 <=? data_len) then
    let initrd_end := rd 8%nat 0 in
    go (if dt_initrd_base t <? initrd_end
        then set_found (dt_mm t) (dt_uart t) (dt_initrd_base t) (initrd_end - dt_initrd_base t) t else t)
  else go t.

(** The length of the string at [a], at most [n]. *)
Fixpoint strnlen (n : nat) (m : mem) (a : Z) : nat :=
  match n with
  | O => O
  | S n' => if m a =? 0 then O else S (strnlen n' m (a + 1))
  end.

(** The string at [a] that ends before [end_]. *)
Definition read_str (m : mem) (a end_ : Z) : list Z := mem_read m a (Z.of_nat (strnlen (Z.to_nat (end_ - a)) m a)).

(** The loop over the tokens of the structure block. *)
Fixpoint dt_loop (fuel : nat) (m : mem) (dtb_end strings_base pos : Z) (t : Dt) : option (outcome Dt) :=
  if dtb_end <? pos + 4 then Some (Ret t)
  else
    match fuel with
    | O => None
    | S fuel' =>
        let token := rd_be 4 m pos in
        let pos := pos + 4 in
        if token =? FDT_BEGIN_NODE then
          let name := read_str m pos dtb_end in
          dt_loop fuel' m dtb_end strings_base (pos + align4 (Z.of_nat (length name) + 1)) (node_begin (str_or_empty name) t)
        else if token =? FDT_END_NODE then dt_loop fuel' m dtb_end strings_base pos (node_end t)
        else if token =? FDT_PROP then
          if dtb_end <? pos + 8 then Some (Ret t)
          else
            let data_len := rd_be 4 m pos in
            let name_off := rd_be 4 m (pos + 4) in
            let data_start := pos + 8 in
            match checked_add data_start data_len with
            | None => Some (Ret t)
            | Some data_end =>
                if dtb_end <? data_end then Some (Ret t)
                else
                  let pos := pos + (8 + align4 data_len) in
                  let name_ptr := strings_base + name_off in
                  if dtb_end <=? name_ptr then dt_loop fuel' m dtb_end strings_base pos t
                  else
                    let name := str_or_empty (read_str m name_ptr dtb_end) in
                    match prop_step (λ n off, rd_be n m (data_start + off)) name data_len t with
                    | None => None
                    | Some Panic => Some Panic
                    | Some (Ret (go, t)) => if go : bool then dt_loop fuel' m dtb_end strings_base pos t else Some (Ret t)
                    end
            end
        else if token =? FDT_NOP then dt_loop fuel' m dtb_end strings_base pos t
        else Some (Ret t)
    end.

(** The memory reservation map. *)
Fixpoint rsv_loop (fuel : nat) (m : mem) (dtb_end rsvpos : Z) (mm : list MemoryRegion) : option (list MemoryRegion) :=
  if dtb_end <? rsvpos + 16 then Some mm
  else
    match fuel with
    | O => None
    | S fuel' =>
        let rsv_base := rd_be 8 m rsvpos in
        let rsv_size := rd_be 8 m (rsvpos + 8) in
        if (rsv_base =? 0) && (rsv_size =? 0) then Some mm
        else
          let mm := if (length mm <? MM_SLOTS)%nat then mm ++ [mkMemoryRegion rsv_base rsv_size Reserved] else mm in
          rsv_loop fuel' m dtb_end (rsvpos + 16) mm
    end.

(** The boot information at the end of [parse]. *)
Definition dt_info (t : Dt) (mm : list MemoryRegion) : BootInfo :=
  let info := set_initrd (dt_initrd_base t) (dt_initrd_size t) (set_uart (dt_uart t) (set_memory_map (Some mm) BootInfo_zero)) in
  if fb_base t =? 0 then info else set_framebuffer (fb_base t) (fb_width t) (fb_height t) (fb_pitch t) info.

Definition is_valid_dtb (m : mem) (dtb_phys : Z) : bool :=
  if (dtb_phys =? 0) || negb (Z.land dtb_phys 7 =? 0) then false else rd_be 4 m dtb_phys =? FDT_MAGIC.

Definition parse (m : mem) (dtb_phys : Z) : option (outcome BootInfo) :=
  if negb (rd_be 4 m dtb_phys =? FDT_MAGIC) then Some (Ret BootInfo_zero)
  else
    let total_size := rd_be 4 m (dtb_phys + 4) in
    let dtb_end := dtb_phys + total_size in
    let struct_off := rd_be 4 m (dtb_phys + 8) in
    let strings_off := rd_be 4 m (dtb_phys + 12) in
    let memrsv_off := rd_be 4 m (dtb_phys + 16) in
    if total_size <=? struct_off then Some (Ret BootInfo_zero)
    else if total_size <=? strings_off then Some (Ret BootInfo_zero)
    else
      match dt_loop (Z.to_nat total_size) m dtb_end (dtb_phys + strings_off) (dtb_phys + struct_off) Dt_init with
      | None => None
      | Some Panic => Some Panic
      | Some (Ret t) =>
          mm ← (if memrsv_off <? total_size
                then rsv_loop (Z.to_nat total_size) m dtb_end (dtb_phys + memrsv_off) (dt_mm t) else Some (dt_mm t));
          Some (Ret (dt_info t mm))
      end.

Definition create_qemu_virt_default : BootInfo :=
  set_uart 0x09000000 (set_memory_map (Some [mkMemoryRegion 0x40000000 0x10000000 Available]) BootInfo_zero).
