(* ===== verification/DeviceTreeSpec.v ===== *)
(** * What the device tree parser does

    The parser ends on every blob and reads no further than 1028 bytes beyond its
    end; on the encoding of a tree it returns what the nodes and properties say. *)

From Stdlib Require Import ZArith Lia Ascii String.
From stdpp Require Import base list option numbers strings.
From S2P Require Import Prelude Words Buddy Memory Cpio Boot DeviceTree.

Local Open Scope Z_scope.

(** ** The parser ends *)

Lemma rd_be_range n m a : (∀ x, is_byte (m x)) → 0 ≤ rd_be n m a < 2 ^ (8 * Z.of_nat n).
Proof.
  intros Hm. unfold rd_be, be_decode. assert (Forall is_byte (reverse (mem_read m a (Z.of_nat n)))) as HF.
  { apply Forall_reverse, Forall_lookup. intros i b. rewrite lookup_mem_read. case_decide; [|done].
    intros [= <-]. apply Hm. }
  pose proof (le_decode_range _ HF) as Hr. by rewrite length_reverse, length_mem_read, Nat2Z.id in Hr.
Qed.

Lemma reg_loop_ends fuel rd ac sc entry data_len off mm : 0 < entry → data_len < off + entry + Z.of_nat fuel →
  ∃ r, reg_loop fuel rd ac sc entry data_len off mm = Some r.
Proof.
  intros He. revert off mm. induction fuel as [|fuel IH]; intros off mm Hf; simpl; case_bool; eauto; [lia|].
  case_bool; eauto. apply IH. lia.
Qed.

Lemma u8_range z : 0 ≤ u8 z < 256.
Proof. apply Z.mod_pos_bound. lia. Qed.

Lemma prop_step_ends rd name data_len t : 0 ≤ data_len → ∃ r, prop_step rd name data_len t = Some r.
Proof.
  intros Hd. unfold prop_step. repeat (case_bool; eauto).
  pose proof (u8_range (address_cells t + size_cells t)).
  edestruct reg_loop_ends as [[mm|] ->]; eauto; lia.
Qed.

Lemma strnlen_le n m a : (strnlen n m a ≤ n)%nat.
Proof. revert a. induction n as [|n IH]; intros a; simpl; [lia|]. case_bool; [lia|]. specialize (IH (a + 1)). lia. Qed.

Lemma length_read_str m a end_ : Z.of_nat (length (read_str m a end_)) ≤ Z.max 0 (end_ - a).
Proof. unfold read_str. rewrite length_mem_read. pose proof (strnlen_le (Z.to_nat (end_ - a)) m a). lia. Qed.

Lemma dt_loop_ends fuel m dtb_end strings pos t : (∀ x, is_byte (m x)) → dtb_end < pos + 4 + Z.of_nat fuel →
  dtb_end < pos + 2^32 → ∃ r, dt_loop fuel m dtb_end strings pos t = Some r.
Proof.
  intros Hm. revert pos t. induction fuel as [|fuel IH]; intros pos t Hf Hb; cbn [dt_loop]; case_bool; eauto; [lia|].
  case_bool; [|case_bool; [apply IH; lia|case_bool; [|case_bool; [apply IH; lia|eauto]]]].
  - apply IH; pose proof (length_read_str m (pos + 4) dtb_end) as Hl;
      pose proof (align4_up (Z.of_nat (length (read_str m (pos + 4) dtb_end)) + 1)); lia.
  - case_bool; eauto. destruct (checked_add _ _) as [e|]; eauto. case_bool; eauto.
    pose proof (rd_be_range 4 m (pos + 4) Hm) as Hr. change (2 ^ (8 * Z.of_nat 4)) with (2^32) in Hr.
    pose proof (align4_up (rd_be 4 m (pos + 4))). case_bool; [apply IH; lia|].
    destruct (prop_step_ends (λ n off, rd_be n m (pos + 4 + 8 + off))
      (str_or_empty (read_str m (strings + rd_be 4 m (pos + 4 + 4)) dtb_end)) (rd_be 4 m (pos + 4)) t) as [[[go t']|] ->];
      [lia| |eauto]. destruct go; [apply IH; lia|eauto].
Qed.

Lemma rsv_loop_ends fuel m dtb_end pos mm : dtb_end < pos + 16 + Z.of_nat fuel → ∃ r, rsv_loop fuel m dtb_end pos mm = Some r.
Proof.
  revert pos mm. induction fuel as [|fuel IH]; intros pos mm Hf; cbn [rsv_loop]; case_bool; eauto; [lia|].
  case_bool; eauto. apply IH. lia.
Qed.

Lemma dtb_parse_ends m dtb : (∀ x, is_byte (m x)) → ∃ r, parse m dtb = Some r.
Proof.
  intros Hm. unfold parse. repeat (case_bool; eauto).
  all: pose proof (rd_be_range 4 m (dtb + 4) Hm); pose proof (rd_be_range 4 m (dtb + 8) Hm);
    pose proof (rd_be_range 4 m (dtb + 16) Hm); change (2 ^ (8 * Z.of_nat 4)) with (2^32) in *.
  all: edestruct dt_loop_ends as [[t|] ->]; [done| | | |by eauto]; [lia..|].
  - edestruct rsv_loop_ends as [mm ->]; [|simpl; eauto]. lia.
  - simpl. eauto.
Qed.

(** ** The bytes it reads *)

Definition agree (m m' : mem) (a b : Z) : Prop := ∀ x, a ≤ x < b → m x = m' x.

Lemma rd_be_agree n m m' lo hi a : agree m m' lo hi → lo ≤ a → a + Z.of_nat n ≤ hi → rd_be n m a = rd_be n m' a.
Proof. intros Ha Hl Hh. unfold rd_be. f_equal. apply mem_read_ext. intros x Hx. apply Ha. lia. Qed.

Lemma strnlen_agree n m m' a : agree m m' a (a + Z.of_nat n) → strnlen n m a = strnlen n m' a.
Proof.
  revert a. induction n as [|n IH]; intros a Ha; [done|]. cbn [strnlen]. rewrite (Ha a) by lia. case_bool; [done|].
  f_equal. apply IH. intros x Hx. apply Ha. lia.
Qed.

Lemma read_str_agree m m' lo hi a end_ : agree m m' lo hi → lo ≤ a → end_ ≤ hi → read_str m a end_ = read_str m' a end_.
Proof.
  intros Ha Hl Hh. unfold read_str. rewrite (strnlen_agree _ m m').
  2: { intros x Hx. apply Ha. lia. }
  apply mem_read_ext. intros x Hx. pose proof (strnlen_le (Z.to_nat (end_ - a)) m' a). apply Ha. lia.
Qed.

(** The words of a property that are read: none further than 1028 bytes beyond it. *)
Definition rd_agree (rd rd' : nat → Z → Z) (data_len : Z) : Prop :=
  ∀ n off, 0 ≤ off → off + Z.of_nat n ≤ data_len + 1028 → rd n off = rd' n off.

Lemma reg_loop_agree fuel rd rd' ac sc entry data_len off mm : rd_agree rd rd' data_len → 0 ≤ ac < 256 → 0 < entry →
  0 ≤ off → reg_loop fuel rd ac sc entry data_len off mm = reg_loop fuel rd' ac sc entry data_len off mm.
Proof.
  intros Hrd Hac He. revert off mm. induction fuel as [|fuel IH]; intros off mm Ho; cbn [reg_loop]; case_bool; [done|done| |done].
  rewrite (Hrd 8%nat off), (Hrd 4%nat off), (Hrd 8%nat (off + ac * 4)), (Hrd 4%nat (off + ac * 4)) by lia.
  case_bool; [done|]. apply IH. lia.
Qed.

Lemma prop_step_agree rd rd' name data_len t : rd_agree rd rd' data_len → 0 ≤ address_cells t < 256 → 0 ≤ data_len →
  prop_step rd name data_len t = prop_step rd' name data_len t.
Proof.
  intros Hrd Hac Hd. unfold prop_step. rewrite (Hrd 8%nat 0), (Hrd 4%nat 0) by lia. repeat (case_bool; try done).
  pose proof (u8_range (address_cells t + size_cells t)). rewrite (reg_loop_agree _ rd rd'); [done..|lia|lia].
Qed.

(** The cells stay bytes. *)
Lemma prop_step_cells rd name data_len t go t' : 0 ≤ address_cells t < 256 → prop_step rd name data_len t = Some (Ret (go, t')) →
  0 ≤ address_cells t' < 256.
Proof.
  intros Hac. unfold prop_step. repeat case_bool; try (intros; simplify_eq; simpl; (done || apply u8_range)).
  destruct (reg_loop _ _ _ _ _ _ _ _) as [[mm|]|]; intros; by simplify_eq.
Qed.

Lemma dt_loop_agree fuel m m' lo dtb_end strings pos t : agree m m' lo (dtb_end + 1028) → (∀ x, is_byte (m x)) →
  lo ≤ pos → lo ≤ strings → dtb_end < pos + 2^32 → 0 ≤ address_cells t < 256 →
  dt_loop fuel m dtb_end strings pos t = dt_loop fuel m' dtb_end strings pos t.
Proof.
  intros Ha Hm. revert pos t. induction fuel as [|fuel IH]; intros pos t Hp Hs Hb Hc; cbn [dt_loop]; case_bool; try done.
  rewrite <- (rd_be_agree 4 m m' lo (dtb_end + 1028) pos) by (done || lia).
  case_bool; [|case_bool; [apply IH; try lia; unfold node_end; by case_bool|]].
  - rewrite <- (read_str_agree m m' lo (dtb_end + 1028)) by (done || lia).
    pose proof (length_read_str m (pos + 4) dtb_end).
    pose proof (align4_up (Z.of_nat (length (read_str m (pos + 4) dtb_end)) + 1)). apply IH; try lia. done.
  - case_bool; [|case_bool; [apply IH; lia|done]]. case_bool; [done|].
    rewrite <- (rd_be_agree 4 m m' lo (dtb_end + 1028) (pos + 4)) by (done || lia).
    rewrite <- (rd_be_agree 4 m m' lo (dtb_end + 1028) (pos + 4 + 4)) by (done || lia).
    pose proof (rd_be_range 4 m (pos + 4) Hm) as Hr. change (2 ^ (8 * Z.of_nat 4)) with (2^32) in Hr.
    pose proof (rd_be_range 4 m (pos + 4 + 4) Hm) as Hn. pose proof (align4_up (rd_be 4 m (pos + 4))).
    destruct (checked_add _ _) as [e|] eqn:He; [|done]. apply checked_add_Some in He as [-> _]. case_bool; [done|].
    case_bool; [apply IH; lia|]. rewrite <- (read_str_agree m m' lo (dtb_end + 1028)) by (done || lia).
    rewrite <- (prop_step_agree (λ n off, rd_be n m (pos + 4 + 8 + off)) (λ n off, rd_be n m' (pos + 4 + 8 + off))).
    2: { intros n off Ho Hn'. apply (rd_be_agree n m m' lo (dtb_end + 1028)); [done|lia..]. }
    2, 3: lia.
    destruct (prop_step _ _ _ _) as [[[go t']|]|] eqn:Hstep; [|done..]. destruct go; [|done].
    apply IH; [lia..|]. by eapply prop_step_cells.
Qed.

Lemma rsv_loop_agree fuel m m' lo dtb_end pos mm : agree m m' lo dtb_end → lo ≤ pos →
  rsv_loop fuel m dtb_end pos mm = rsv_loop fuel m' dtb_end pos mm.
Proof.
  intros Ha. revert pos mm. induction fuel as [|fuel IH]; intros pos mm Hp; cbn [rsv_loop]; case_bool; try done.
  rewrite <- (rd_be_agree 8 m m' lo dtb_end pos), <- (rd_be_agree 8 m m' lo dtb_end (pos + 8)) by (done || lia).
  case_bool; [done|]. apply IH. lia.
Qed.

(** C25: On every blob, well formed or not, the device tree parser ends; and its result
    depends only on the blob: on the header and on the bytes up to 1028 beyond the
    size the header gives. *)
Theorem dtb_parse_bounded m dtb : (∀ x, is_byte (m x)) →
  (∃ r, parse m dtb = Some r) ∧
  ∀ m', agree m m' dtb (dtb + 20) → agree m m' dtb (dtb + rd_be 4 m (dtb + 4) + 1028) → parse m' dtb = parse m dtb.
Proof.
  intros Hm. split; [by apply dtb_parse_ends|]. intros m' Hh Hb. unfold parse.
  rewrite <- (rd_be_agree 4 m m' dtb (dtb + 20) dtb), <- (rd_be_agree 4 m m' dtb (dtb + 20) (dtb + 4)),
    <- (rd_be_agree 4 m m' dtb (dtb + 20) (dtb + 8)), <- (rd_be_agree 4 m m' dtb (dtb + 20) (dtb + 12)),
    <- (rd_be_agree 4 m m' dtb (dtb + 20) (dtb + 16)) by (done || lia).
  do 3 (case_bool; [done|]). pose proof (rd_be_range 4 m (dtb + 4) Hm) as Ht. pose proof (rd_be_range 4 m (dtb + 8) Hm).
  pose proof (rd_be_range 4 m (dtb + 12) Hm). pose proof (rd_be_range 4 m (dtb + 16) Hm).
  change (2 ^ (8 * Z.of_nat 4)) with (2^32) in *.
  rewrite <- (dt_loop_agree _ m m' dtb) by (done || lia || (simpl; lia)).
  destruct (dt_loop _ _ _ _ _ _) as [[t|]|]; [|done..]. case_bool; [|done].
  rewrite <- (rsv_loop_agree _ m m' dtb); [done| |lia]. intros x Hx. apply Hb. lia.
Qed.

(** ** Encoded trees *)

(** The tokens of a structure block. *)
Inductive event :=
  | EvBegin (name : list Z)
  | EvEnd
  | EvProp (name value : list Z)
  | EvNop.

Definition pad4 (bs : list Z) : list Z := bs ++ replicate (Z.to_nat (align4 (len bs) - len bs)) 0.

Definition encode_event (stroff : Z) (e : event) : list Z :=
  match e with
  | EvBegin name => be_encode 4 FDT_BEGIN_NODE ++ pad4 (name ++ [0])
  | EvEnd => be_encode 4 FDT_END_NODE
  | EvProp _ v => be_encode 4 FDT_PROP ++ be_encode 4 (len v) ++ be_encode 4 stroff ++ pad4 v
  | EvNop => be_encode 4 FDT_NOP
  end.

(** The name of a property in the strings block. *)
Definition encode_name (e : event) : list Z := match e with EvProp n _ => n ++ [0] | _ => [] end.

Fixpoint encode_events (stroff : Z) (evs : list event) : list Z :=
  match evs with
  | [] => be_encode 4 FDT_END
  | e :: evs' => encode_event stroff e ++ encode_events (stroff + len (encode_name e)) evs'
  end.

Definition encode_strings (evs : list event) : list Z := mjoin (encode_name <$> evs) ++ [0].

Definition encode_rsv (rs : list (Z * Z)) : list Z :=
  mjoin ((λ r, be_encode 8 r.1 ++ be_encode 8 r.2) <$> rs) ++ replicate 16 0.

(** The blob: header, reservations, structure and strings. *)
Definition encode_dtb (rs : list (Z * Z)) (evs : list event) : list Z :=
  let rsv := encode_rsv rs in
  let str := encode_events 0 evs in
  let strings := encode_strings evs in
  let off_struct := 40 + len rsv in
  let off_strings := off_struct + len str in
  be_encode 4 FDT_MAGIC ++ be_encode 4 (off_strings + len strings) ++ be_encode 4 off_struct ++ be_encode 4 off_strings ++
  be_encode 4 40 ++ be_encode 4 17 ++ be_encode 4 16 ++ be_encode 4 0 ++ be_encode 4 (len strings) ++ be_encode 4 (len str) ++
  rsv ++ str ++ strings.

(** What the tokens say: a property is read from its value. *)
Definition rd_val (v : list Z) (n : nat) (off : Z) : Z := be_decode (take n (drop (Z.to_nat off) v)).

Fixpoint mean_events (evs : list event) (t : Dt) : option (outcome Dt) :=
  match evs with
  | [] => Some (Ret t)
  | EvBegin name :: evs' => mean_events evs' (node_begin (str_or_empty name) t)
  | EvEnd :: evs' => mean_events evs' (node_end t)
  | EvProp n v :: evs' =>
      match prop_step (rd_val v) (str_or_empty n) (len v) t with
      | None => None
      | Some Panic => Some Panic
      | Some (Ret (go, t)) => if go : bool then mean_events evs' t else Some (Ret t)
      end
  | EvNop :: evs' => mean_events evs' t
  end.

(** Names have no zero byte; cells are 1 or 2, and a "reg" has at least 8 bytes. *)
Definition cells_ok (v : list Z) : Prop := 4 ≤ len v ∧ 1 ≤ u8 (rd_val v 4 0) ≤ 2.

Definition event_ok (e : event) : Prop :=
  match e with
  | EvBegin name => Forall (λ b, b ≠ 0) name
  | EvProp n v =>
      Forall (λ b, b ≠ 0) n ∧
      (str_eq (str_or_empty n) "#address-cells" = true → cells_ok v) ∧
      (str_eq (str_or_empty n) "#size-cells" = true → cells_ok v) ∧
      (str_eq (str_or_empty n) "reg" = true → 8 ≤ len v)
  | _ => True
  end.

Definition dt_cells_ok (t : Dt) : Prop := 1 ≤ address_cells t ≤ 2 ∧ 1 ≤ size_cells t ≤ 2.

(** *** Words and strings in memory *)

Lemma length_be_encode n v : length (be_encode n v) = n.
Proof. unfold be_encode. by rewrite length_reverse, length_le_encode. Qed.

Lemma rd_be_at n m a v : mem_at m a (be_encode n v) → 0 ≤ v < 2 ^ (8 * Z.of_nat n) → rd_be n m a = v.
Proof.
  intros H Hv. unfold rd_be, be_decode. rewrite (mem_at_read _ _ _ _ H) by (by rewrite length_be_encode).
  unfold be_encode. rewrite reverse_involutive. by apply le_decode_encode.
Qed.

Lemma strnlen_at name m a n : Forall (λ b, b ≠ 0) name → mem_at m a (name ++ [0]) → (length name < n)%nat →
  strnlen n m a = length name.
Proof.
  intros HF. revert a n. induction HF as [|b name Hb HF IH]; intros a [|n] Hm Hn; simpl in Hn; try lia; cbn [strnlen].
  - pose proof (mem_at_lookup _ _ _ 0%nat 0 Hm eq_refl) as H0. rewrite Z.add_0_r in H0. rewrite H0. done.
  - pose proof (mem_at_lookup _ _ _ 0%nat b Hm eq_refl) as H0. rewrite Z.add_0_r in H0. rewrite H0.
    rewrite (proj2 (Z.eqb_neq _ _) Hb). simpl. f_equal. apply IH; [|lia].
    change ((b :: name) ++ [0]) with ([b] ++ (name ++ [0])) in Hm. by apply mem_at_app in Hm as [_ Hm].
Qed.

Lemma read_str_at name m a end_ : Forall (λ b, b ≠ 0) name → mem_at m a (name ++ [0]) → a + len name < end_ →
  read_str m a end_ = name.
Proof.
  intros HF Hm Hlt. unfold read_str. rewrite (strnlen_at name) by (done || (unfold len in Hlt; lia)).
  apply mem_at_app in Hm as [Hm _]. by apply mem_at_read.
Qed.

(** A word inside a value. *)
Lemma rd_val_at m a v n off : mem_at m a v → 0 ≤ off → off + Z.of_nat n ≤ len v → rd_be n m (a + off) = rd_val v n off.
Proof.
  intros Hm Ho Hn. unfold rd_be, rd_val. f_equal. unfold len in Hn. apply list_eq. intros i.
  rewrite lookup_mem_read. case_decide as Hi.
  - rewrite lookup_take_lt by lia. rewrite lookup_drop.
    destruct (lookup_lt_is_Some_2 v (Z.to_nat off + i)) as [b Hb]; [lia|]. rewrite Hb. f_equal.
    rewrite <- (mem_at_lookup _ _ _ _ _ Hm Hb). f_equal. lia.
  - symmetry. apply lookup_ge_None_2. rewrite length_take. lia.
Qed.

(** Two ways of reading that agree inside of the property. *)
Lemma reg_loop_inside fuel rd rd' ac sc entry data_len off mm :
  (∀ n off, 0 ≤ off → off + Z.of_nat n ≤ data_len → rd n off = rd' n off) → 1 ≤ ac ≤ 2 → 1 ≤ sc ≤ 2 →
  entry = (ac + sc) * 4 → 0 ≤ off →
  reg_loop fuel rd ac sc entry data_len off mm = reg_loop fuel rd' ac sc entry data_len off mm.
Proof.
  intros Hrd Hac Hsc ->. revert off mm. induction fuel as [|fuel IH]; intros off mm Ho; cbn [reg_loop]; case_bool; try done.
  rewrite (Hrd 4%nat off), (Hrd 4%nat (off + ac * 4)) by lia.
  assert ((if ac =? 2 then rd 8%nat off else rd' 4%nat off) = (if ac =? 2 then rd' 8%nat off else rd' 4%nat off)) as ->.
  { case_bool; [|done]. apply Hrd; lia. }
  assert ((if sc =? 2 then rd 8%nat (off + ac * 4) else rd' 4%nat (off + ac * 4)) =
          (if sc =? 2 then rd' 8%nat (off + ac * 4) else rd' 4%nat (off + ac * 4))) as ->.
  { case_bool; [|done]. apply Hrd; lia. }
  case_bool; [done|]. apply IH. lia.
Qed.

Lemma prop_step_inside rd rd' name data_len t :
  (∀ n off, 0 ≤ off → off + Z.of_nat n ≤ data_len → rd n off = rd' n off) → dt_cells_ok t →
  (str_eq name "reg" = true → 8 ≤ data_len) → prop_step rd name data_len t = prop_step rd' name data_len t.
Proof.
  intros Hrd [Hac Hsc] Hreg. unfold prop_step.
  assert (4 ≤ data_len → rd 4%nat 0 = rd' 4%nat 0) as H4 by (intros; apply Hrd; lia).
  assert (8 ≤ data_len → rd 8%nat 0 = rd' 8%nat 0) as H8 by (intros; apply Hrd; lia).
  repeat (case_bool; [try (rewrite H4 by lia); try (rewrite H8 by (lia || by apply Hreg)); try done|]); [|done].
  unfold u8. rewrite Z.mod_small by lia. by rewrite (reg_loop_inside _ rd rd').
Qed.

Lemma prop_step_keeps_cells rd n data_len t go t' :
  (str_eq n "#address-cells" = true → 1 ≤ u8 (rd 4%nat 0) ≤ 2) → (str_eq n "#size-cells" = true → 1 ≤ u8 (rd 4%nat 0) ≤ 2) →
  dt_cells_ok t → prop_step rd n data_len t = Some (Ret (go, t')) → dt_cells_ok t'.
Proof.
  intros Ha Hs [Hac Hsc]. unfold prop_step.
  repeat case_bool; try (intros; simplify_eq; split; simpl; first [done|by apply Ha|by apply Hs]).
  destruct (reg_loop _ _ _ _ _ _ _ _) as [[mm|]|]; intros; by simplify_eq.
Qed.

(** *** The loop on encoded tokens *)

Lemma align4_bounds n : 0 ≤ n < 2^63 → n ≤ align4 n < n + 4.
Proof. intros Hn. by apply align4_up. Qed.

Lemma len_pad4 bs : len bs < 2^63 → len (pad4 bs) = align4 (len bs).
Proof.
  intros Hb. assert (0 ≤ len bs) as H0 by (unfold len; lia). pose proof (align4_bounds (len bs) ltac:(lia)).
  unfold pad4, len in *. rewrite length_app, length_replicate. lia.
Qed.

Lemma len_be n v : len (be_encode n v) = Z.of_nat n.
Proof. unfold len. by rewrite length_be_encode. Qed.

Lemma mem_at_app_len m a bs bs' : mem_at m a (bs ++ bs') ↔ mem_at m a bs ∧ mem_at m (a + len bs) bs'.
Proof. apply mem_at_app. Qed.

Section loop.
Context (m : mem) (dtb_end strings : Z) (Hend : dtb_end < 2^63).

(** One token of each kind. *)
Lemma token_at pos v rest : mem_at m pos (be_encode 4 v ++ rest) → 0 ≤ v < 2^32 → pos + 4 ≤ dtb_end →
  dtb_end <? pos + 4 = false ∧ rd_be 4 m pos = v ∧ mem_at m (pos + 4) rest.
Proof.
  intros Hm Hv Hp. apply mem_at_app_len in Hm as [H1 H2]. rewrite len_be in H2.
  split_and!; [by apply Z.ltb_ge|by apply (rd_be_at 4)|done].
Qed.

Lemma begin_at fuel pos t name rest : mem_at m pos (be_encode 4 FDT_BEGIN_NODE ++ pad4 (name ++ [0]) ++ rest) →
  Forall (λ b, b ≠ 0) name → 0 ≤ pos → pos + 4 + len (pad4 (name ++ [0])) ≤ dtb_end →
  dt_loop (S fuel) m dtb_end strings pos t =
    dt_loop fuel m dtb_end strings (pos + 4 + len (pad4 (name ++ [0]))) (node_begin (str_or_empty name) t).
Proof.
  intros Hm Hn Hp Hle. destruct (token_at pos _ _ Hm) as (Hlt & Htok & Hrest);
    [unfold FDT_BEGIN_NODE; lia|pose proof (len_nonneg (pad4 (name ++ [0]))); lia|].
  cbn [dt_loop]. rewrite Hlt, Htok. change (FDT_BEGIN_NODE =? FDT_BEGIN_NODE) with true. cbv iota.
  assert (len (name ++ [0]) = len name + 1) as Hl by (rewrite len_app; done).
  assert (len name + 1 ≤ len (pad4 (name ++ [0]))) as Hge.
  { unfold pad4. rewrite len_app, Hl. pose proof (len_nonneg (replicate (Z.to_nat (align4 (len (name ++ [0])) - len (name ++ [0]))) 0)).
    rewrite Hl in *. lia. }
  apply mem_at_app in Hrest as [Hname _]. unfold pad4 in Hname. apply mem_at_app in Hname as [Hname _].
  rewrite (read_str_at name) by (done || lia). fold (len name). rewrite len_pad4, Hl by lia. done.
Qed.

Lemma prop_at fuel pos t name v stroff rest : mem_at m pos (encode_event stroff (EvProp name v) ++ rest) →
  event_ok (EvProp name v) → dt_cells_ok t → 0 ≤ stroff < 2^32 → len v < 2^32 → 0 ≤ pos →
  pos + len (encode_event stroff (EvProp name v)) ≤ dtb_end →
  mem_at m (strings + stroff) (name ++ [0]) → strings + stroff + len name < dtb_end →
  dt_loop (S fuel) m dtb_end strings pos t =
    match prop_step (rd_val v) (str_or_empty name) (len v) t with
    | None => None
    | Some Panic => Some Panic
    | Some (Ret (go, t)) =>
        if go : bool then dt_loop fuel m dtb_end strings (pos + len (encode_event stroff (EvProp name v))) t else Some (Ret t)
    end.
Proof.
  intros Hm (Hn & _ & _ & Hreg) Hc Hs Hv Hp Hle Hstr Hlt. cbn [encode_event] in *.
  rewrite <- !app_assoc in Hm. pose proof (len_nonneg v) as Hv0. rewrite !len_app, !len_be, len_pad4 in Hle |- * by lia.
  pose proof (align4_bounds (len v) ltac:(lia)) as Hal.
  destruct (token_at pos _ _ Hm) as (Hlt0 & Htok & Hrest); [unfold FDT_PROP; lia|lia|].
  apply mem_at_app_len in Hrest as [H1 Hrest]. rewrite len_be in Hrest. apply mem_at_app_len in Hrest as [H2 Hrest].
  rewrite len_be in Hrest. apply mem_at_app in Hrest as [H3 _]. unfold pad4 in H3. apply mem_at_app in H3 as [H3 _].
  cbn [dt_loop]. rewrite Hlt0, Htok. change (FDT_PROP =? FDT_BEGIN_NODE) with false. change (FDT_PROP =? FDT_END_NODE) with false.
  change (FDT_PROP =? FDT_PROP) with true. cbv iota. rewrite (proj2 (Z.ltb_ge _ _)) by lia.
  change (Z.of_nat 4) with 4 in *.
  rewrite (rd_be_at 4 _ _ _ H1), (rd_be_at 4 _ _ _ H2) by lia.
  assert (checked_add (pos + 4 + 8) (len v) = Some (pos + 4 + 8 + len v)) as -> by (apply checked_add_Some; lia).
  rewrite (proj2 (Z.ltb_ge _ _)) by lia. rewrite (proj2 (Z.leb_gt _ _)) by (pose proof (len_nonneg name); lia).
  rewrite (read_str_at name) by done.
  rewrite (prop_step_inside _ (rd_val v)); [|intros n off Ho Hoff|done|done].
  - by replace (pos + (4 + (4 + (4 + align4 (len v))))) with (pos + 4 + (8 + align4 (len v))) by lia.
  - apply rd_val_at; [|done..]. by replace (pos + 4 + 8) with (pos + 4 + 4 + 4) by lia.
Qed.

Lemma len_encode_event stroff e : 4 ≤ len (encode_event stroff e).
Proof.
  destruct e; cbn [encode_event]; rewrite ?len_app, ?len_be; [pose proof (len_nonneg (pad4 (name ++ [0])))| |
    pose proof (len_nonneg (pad4 value))|]; lia.
Qed.

Lemma len_encode_events stroff evs : 4 * len evs + 4 ≤ len (encode_events stroff evs).
Proof.
  revert stroff. induction evs as [|e evs IH]; intros stroff; cbn [encode_events]; [rewrite len_be; done|].
  rewrite len_app. pose proof (len_encode_event stroff e). specialize (IH (stroff + len (encode_name e))).
  unfold len in *. rewrite length_cons. lia.
Qed.

Lemma encode_strings_cons e evs : encode_strings (e :: evs) = encode_name e ++ encode_strings evs.
Proof.
  unfold encode_strings. change (mjoin (encode_name <$> e :: evs)) with (encode_name e ++ mjoin (encode_name <$> evs)).
  by rewrite <- app_assoc.
Qed.

Lemma dt_loop_at evs fuel pos stroff t : Forall event_ok evs → dt_cells_ok t →
  mem_at m pos (encode_events stroff evs) → mem_at m (strings + stroff) (encode_strings evs) →
  0 ≤ pos → dtb_end < pos + 2^32 → pos + len (encode_events stroff evs) ≤ dtb_end →
  0 ≤ stroff → stroff + len (encode_strings evs) < 2^32 → strings + stroff + len (encode_strings evs) ≤ dtb_end →
  (length evs < fuel)%nat → dt_loop fuel m dtb_end strings pos t = mean_events evs t.
Proof.
  intros Hok. revert fuel pos stroff t.
  induction Hok as [|e evs He Hok IH]; intros fuel pos stroff t Hc Hm Hstr Hp Hb Hle Hs0 Hs Hse Hf; (destruct fuel as [|fuel]; [lia|]).
  { cbn [encode_events] in *. rewrite len_be in Hle.
    destruct (token_at pos FDT_END []) as (Hlt & Htok & _); [by rewrite app_nil_r|unfold FDT_END; lia|lia|].
    cbn [dt_loop mean_events]. by rewrite Hlt, Htok. }
  rewrite encode_strings_cons, len_app in *. cbn [encode_events] in *. rewrite len_app in Hle.
  apply mem_at_app_len in Hstr as [Hname Hstr]. apply mem_at_app_len in Hm as Hm'. destruct Hm' as [_ Hrest].
  pose proof (len_nonneg (encode_name e)) as Hn0. pose proof (len_encode_event stroff e) as He4.
  pose proof (len_nonneg (encode_events (stroff + len (encode_name e)) evs)) as Hr0.
  pose proof (len_nonneg (encode_strings evs)) as Hs1. rewrite length_cons in Hf. rewrite <- Z.add_assoc in Hstr.
  assert (∀ t, dt_cells_ok t → dt_loop fuel m dtb_end strings (pos + len (encode_event stroff e)) t = mean_events evs t) as Hgo.
  { intros t' Ht'. eapply IH; [done..|lia|lia|lia|lia|lia|lia|lia]. }
  destruct e as [name| |name v|].
  - cbn [encode_event] in *. rewrite <- app_assoc in Hm. rewrite len_app, len_be in *.
    rewrite (begin_at fuel pos t name _ Hm He Hp) by lia. rewrite <- Z.add_assoc. by rewrite Hgo.
  - destruct (token_at pos _ _ Hm) as (Hlt & Htok & _); [unfold FDT_END_NODE; lia|lia|].
    cbn [dt_loop mean_events]. rewrite Hlt, Htok. cbn [encode_event] in Hgo. rewrite len_be in Hgo.
    apply (Hgo (node_end t)). unfold node_end. by case_bool.
  - assert (len v < 2^32) as Hv.
    { cbn [encode_event] in Hle. rewrite !len_app in Hle. unfold pad4 in Hle. rewrite !len_app in Hle.
      pose proof (len_nonneg (be_encode 4 FDT_PROP)). pose proof (len_nonneg (be_encode 4 stroff)).
      pose proof (len_nonneg (be_encode 4 (len v))).
      pose proof (len_nonneg (replicate (Z.to_nat (align4 (len v) - len v)) 0)). lia. }
    cbn [encode_name] in *. rewrite len_app in *. change (len [0]) with 1 in *.
    rewrite (prop_at fuel pos t name v stroff _ Hm He Hc) by (done || lia). cbn [mean_events].
    destruct (prop_step (rd_val v) (str_or_empty name) (len v) t) as [[[go t']|]|] eqn:Hst; [|done..].
    destruct go; [|done]. apply Hgo. destruct He as (_ & Ha & Hz & _). eapply prop_step_keeps_cells; [..|done|done].
    + intros H. by apply Ha.
    + intros H. by apply Hz.
  - destruct (token_at pos _ _ Hm) as (Hlt & Htok & _); [unfold FDT_NOP; lia|lia|].
    cbn [dt_loop mean_events]. rewrite Hlt, Htok. cbn [encode_event] in Hgo. rewrite len_be in Hgo. by apply (Hgo t).
Qed.
End loop.

(** *** The whole blob *)

Definition reserved (r : Z * Z) : MemoryRegion := mkMemoryRegion r.1 r.2 Reserved.

Definition rsv_ok (r : Z * Z) : Prop := 0 ≤ r.1 < 2^64 ∧ 0 ≤ r.2 < 2^64 ∧ (r.1 ≠ 0 ∨ r.2 ≠ 0).

Lemma encode_rsv_cons r rs : encode_rsv (r :: rs) = be_encode 8 r.1 ++ be_encode 8 r.2 ++ encode_rsv rs.
Proof. unfold encode_rsv. rewrite fmap_cons. cbn [mjoin list_join]. by rewrite <- !app_assoc. Qed.

Lemma len_encode_rsv rs : len (encode_rsv rs) = 16 * len rs + 16.
Proof.
  induction rs as [|r rs IH]; [done|]. rewrite encode_rsv_cons, !len_app, !len_be, IH. unfold len. simpl length. lia.
Qed.

Lemma rsv_loop_at rs fuel m dtb_end pos mm : Forall rsv_ok rs → mem_at m pos (encode_rsv rs) →
  pos + len (encode_rsv rs) ≤ dtb_end → (length rs < fuel)%nat → (length mm ≤ MM_SLOTS)%nat →
  rsv_loop fuel m dtb_end pos mm = Some (take MM_SLOTS (mm ++ (reserved <$> rs))).
Proof.
  intros Hok. revert fuel pos mm. induction Hok as [|[b n] rs (Hb & Hn & Hz) Hok IH]; intros fuel pos mm Hm Hle Hf Hl;
    (destruct fuel as [|fuel]; [lia|]); cbn [rsv_loop].
  - rewrite app_nil_r, take_ge by done. change (encode_rsv []) with (replicate 8 0 ++ replicate 8 0) in *.
    change (len (replicate 8 0 ++ replicate 8 0)) with 16 in Hle. rewrite (proj2 (Z.ltb_ge _ _)) by lia.
    apply mem_at_app in Hm as [H1 H2]. change (Z.of_nat (length (replicate 8 0))) with 8 in H2.
    change (replicate 8 0) with (be_encode 8 0) in *. by rewrite (rd_be_at 8 _ _ _ H1), (rd_be_at 8 _ _ _ H2) by lia.
  - rewrite len_encode_rsv in Hle. unfold len in Hle. rewrite length_cons in Hle, Hf. simpl in Hb, Hn, Hz.
    rewrite encode_rsv_cons in Hm. apply mem_at_app_len in Hm as [H1 Hm]. rewrite len_be in Hm.
    apply mem_at_app_len in Hm as [H2 Hm]. rewrite len_be in Hm. change (Z.of_nat 8) with 8 in *. simpl in H1, H2.
    rewrite (proj2 (Z.ltb_ge _ _)) by lia. rewrite (rd_be_at 8 _ _ _ H1), (rd_be_at 8 _ _ _ H2) by done.
    assert ((b =? 0) && (n =? 0) = false) as -> by (apply andb_false_iff; rewrite !Z.eqb_neq; done).
    rewrite fmap_cons. rewrite IH.
    + f_equal. case_bool; [by rewrite <- app_assoc|]. rewrite !take_app_ge by lia.
      by replace (MM_SLOTS - length mm)%nat with 0%nat by lia.
    + by replace (pos + 16) with (pos + 8 + 8) by lia.
    + rewrite len_encode_rsv. unfold len. lia.
    + lia.
    + case_bool; [rewrite length_app; simpl; lia|done].
Qed.

(** No map grows beyond its array. *)
Lemma reg_loop_length fuel rd ac sc entry data_len off mm mm' : (length mm ≤ MM_SLOTS)%nat →
  reg_loop fuel rd ac sc entry data_len off mm = Some (Ret mm') → (length mm' ≤ MM_SLOTS)%nat.
Proof.
  revert off mm. induction fuel as [|fuel IH]; intros off mm Hl; cbn [reg_loop]; case_bool; try done; try (by intros; simplify_eq).
  case_bool; [done|]. apply IH. rewrite length_app. simpl. lia.
Qed.

Lemma prop_step_length rd n data_len t go t' : (length (dt_mm t) ≤ MM_SLOTS)%nat →
  prop_step rd n data_len t = Some (Ret (go, t')) → (length (dt_mm t') ≤ MM_SLOTS)%nat.
Proof.
  intros Hl. unfold prop_step. repeat case_bool; try (by intros; simplify_eq).
  destruct (reg_loop _ _ _ _ _ _ _ _) as [[mm|]|] eqn:Hr; intros; simplify_eq. by apply (reg_loop_length _ _ _ _ _ _ _ _ _ Hl Hr).
Qed.

Lemma mean_events_length evs t t' : (length (dt_mm t) ≤ MM_SLOTS)%nat → mean_events evs t = Some (Ret t') →
  (length (dt_mm t') ≤ MM_SLOTS)%nat.
Proof.
  revert t. induction evs as [|[name| |n v|] evs IH]; intros t Hl; cbn [mean_events]; [by intros; simplify_eq|by apply IH| | |by apply IH].
  - apply IH. unfold node_end. by case_bool.
  - destruct (prop_step _ _ _ _) as [[[go t1]|]|] eqn:Hst; [|done..]. apply prop_step_length in Hst; [|done].
    destruct go; [by apply IH|]. by intros; simplify_eq.
Qed.

Lemma parse_at m dtb rs evs : Forall rsv_ok rs → Forall event_ok evs → mem_at m dtb (encode_dtb rs evs) → 0 ≤ dtb →
  len (encode_dtb rs evs) < 2^32 → dtb + len (encode_dtb rs evs) < 2^63 →
  parse m dtb =
    match mean_events evs Dt_init with
    | None => None
    | Some Panic => Some Panic
    | Some (Ret t) => Some (Ret (dt_info t (take MM_SLOTS (dt_mm t ++ (reserved <$> rs)))))
    end.
Proof.
  intros Hrs Hevs Hm H0 Hlen Hend. unfold encode_dtb in *. set (str := encode_events 0 evs) in *.
  set (strs := encode_strings evs) in *. set (rsv := encode_rsv rs) in *.
  rewrite !len_app, !len_be in Hlen, Hend. pose proof (len_encode_rsv rs) as Hrl. fold rsv in Hrl.
  pose proof (len_encode_events 0 evs) as Hel. fold str in Hel. pose proof (len_nonneg rs). pose proof (len_nonneg evs).
  assert (1 ≤ len strs) as Hs1 by (unfold strs, encode_strings; rewrite len_app; pose proof (len_nonneg (mjoin (encode_name <$> evs))); change (len [0]) with 1; lia).
  repeat (rewrite mem_at_app_len in Hm). rewrite !len_be in Hm. change (Z.of_nat 4) with 4 in *.
  destruct Hm as (M0 & M1 & M2 & M3 & M4 & _ & _ & _ & _ & _ & Mr & Ms & Mn).
  replace (dtb + 4 + 4) with (dtb + 8) in * by lia. replace (dtb + 8 + 4) with (dtb + 12) in * by lia.
  replace (dtb + 12 + 4) with (dtb + 16) in * by lia.
  replace (dtb + 16 + 4 + 4 + 4 + 4 + 4 + 4) with (dtb + 40) in * by lia.
  unfold parse. rewrite (rd_be_at 4 _ _ _ M0) by (unfold FDT_MAGIC; lia). change (negb (FDT_MAGIC =? FDT_MAGIC)) with false. cbv iota.
  rewrite (rd_be_at 4 _ _ _ M1), (rd_be_at 4 _ _ _ M2), (rd_be_at 4 _ _ _ M3), (rd_be_at 4 _ _ _ M4) by lia.
  rewrite !(proj2 (Z.leb_gt _ _)) by lia. rewrite (proj2 (Z.ltb_lt _ _)) by lia.
  replace (dtb + (40 + len rsv)) with (dtb + 40 + len rsv) by lia.
  replace (dtb + (40 + len rsv + len str)) with (dtb + 40 + len rsv + len str) by lia.
  rewrite (dt_loop_at m (dtb + (40 + len rsv + len str + len strs)) _ ltac:(lia) evs _ _ 0);
    [|done|split; simpl; lia|done|by rewrite Z.add_0_r|lia|lia|fold str; lia|lia|fold strs; lia|fold strs; lia|unfold len in *; lia].
  destruct (mean_events evs Dt_init) as [[t|]|] eqn:Hmean; [|done..].
  apply mean_events_length in Hmean; [|simpl; lia].
  rewrite (rsv_loop_at rs); [done..|fold rsv; lia|unfold len in *; lia|done].
Qed.
