(* ===== verification/DeviceTreeMap.v ===== *)
(** * The memory map of a device tree

    A device tree as a tree of nodes, and the memory regions that its memory nodes
    describe.  The map that the kernel gets from the encoded tree is the list of
    these regions, followed by the reservations. *)

From Stdlib Require Import ZArith Lia Ascii String.
From stdpp Require Import base list option numbers strings.
From S2P Require Import Prelude Words Buddy Memory Cpio Boot DeviceTree DeviceTreeSpec.

Local Open Scope Z_scope.

(** ** Trees *)

Inductive dnode := DNode (name : list Z) (props : list (list Z * list Z)) (children : list dnode).

Section dnode_ind.
Context (P : dnode → Prop) (H : ∀ name ps cs, Forall P cs → P (DNode name ps cs)).

Fixpoint dnode_ind' (d : dnode) : P d :=
  match d with
  | DNode name ps cs =>
      H name ps cs ((fix go (l : list dnode) : Forall P l :=
        match l with [] => Forall_nil_2 P | d :: l' => Forall_cons_2 P d l' (dnode_ind' d) (go l') end) cs)
  end.
End dnode_ind.

Definition prop_event (p : list Z * list Z) : event := EvProp p.1 p.2.

Fixpoint flatten (d : dnode) : list event :=
  match d with
  | DNode name ps cs => EvBegin name :: (prop_event <$> ps) ++ mjoin (flatten <$> cs) ++ [EvEnd]
  end.

(** ** The regions of a tree *)

Definition is_memory (name : list Z) : bool := str_eq name "memory" || starts_with name "memory@".

(** Entry [i] of a "reg" with [ac] address cells and [sc] size cells of 4 bytes. *)
Definition reg_entry (ac sc : Z) (v : list Z) (i : nat) : MemoryRegion :=
  let off := Z.of_nat i * ((ac + sc) * 4) in
  mkMemoryRegion (rd_val v (Z.to_nat (ac * 4)) off) (rd_val v (Z.to_nat (sc * 4)) (off + ac * 4)) Available.

Definition reg_count (ac sc : Z) (v : list Z) : nat := Z.to_nat (len v / ((ac + sc) * 4)).

Definition reg_entries (ac sc : Z) (v : list Z) : list MemoryRegion := reg_entry ac sc v <$> seq 0 (reg_count ac sc v).

Definition prop_regions (ac sc : Z) (p : list Z * list Z) : list MemoryRegion :=
  if str_eq (str_or_empty p.1) "reg" then reg_entries ac sc p.2 else [].

Fixpoint regions (ac sc : Z) (d : dnode) : list MemoryRegion :=
  match d with
  | DNode name ps cs =>
      (if is_memory (str_or_empty name) then mjoin (prop_regions ac sc <$> ps) else []) ++ mjoin (regions ac sc <$> cs)
  end.

(** The cells that the root's properties set. *)
Definition root_cells (ps : list (list Z * list Z)) : Z * Z :=
  foldl (λ c p,
    if str_eq (str_or_empty p.1) "#address-cells" then (u8 (rd_val p.2 4 0), c.2)
    else if str_eq (str_or_empty p.1) "#size-cells" then (c.1, u8 (rd_val p.2 4 0)) else c) (2, 2) ps.

(** ** Reading a "reg" *)

Lemma cell_word (rd : nat → Z → Z) c off : 1 ≤ c ≤ 2 →
  (if c =? 2 then rd 8%nat off else rd 4%nat off) = rd (Z.to_nat (c * 4)) off.
Proof. intros Hc. assert (c = 1 ∨ c = 2) as [->| ->] by lia; done. Qed.

Lemma reg_loop_entries fuel ac sc v i mm : 1 ≤ ac ≤ 2 → 1 ≤ sc ≤ 2 → (i ≤ reg_count ac sc v)%nat →
  (reg_count ac sc v - i ≤ fuel)%nat → (length mm + (reg_count ac sc v - i) ≤ MM_SLOTS)%nat →
  reg_loop fuel (rd_val v) ac sc ((ac + sc) * 4) (len v) (Z.of_nat i * ((ac + sc) * 4)) mm =
    Some (Ret (mm ++ (reg_entry ac sc v <$> seq i (reg_count ac sc v - i)))).
Proof.
  intros Hac Hsc. set (e := (ac + sc) * 4). assert (0 < e) as He by lia. assert (0 ≤ len v) as Hv by (unfold len; lia).
  assert (Z.of_nat (reg_count ac sc v) = len v / e) as Hc.
  { unfold reg_count. fold e. rewrite Z2Nat.id; [done|]. apply Z.div_pos; lia. }
  pose proof (Z.div_mod (len v) e ltac:(lia)) as Hdm. pose proof (Z.mod_pos_bound (len v) e He) as Hmod.
  revert i mm. induction fuel as [|fuel IH]; intros i mm Hi Hf Hl; cbn [reg_loop].
  - replace (reg_count ac sc v - i)%nat with 0%nat by lia. simpl seq. rewrite app_nil_r.
    rewrite (proj2 (Z.leb_gt _ _)); [done|]. assert (Z.of_nat i = len v / e) by lia. nia.
  - destruct (decide (i = reg_count ac sc v)) as [Heq|Hne].
    + replace (reg_count ac sc v - i)%nat with 0%nat by lia. simpl seq. rewrite app_nil_r.
      rewrite (proj2 (Z.leb_gt _ _)); [done|]. assert (Z.of_nat i = len v / e) by lia. nia.
    + rewrite (proj2 (Z.leb_le _ _)) by (assert (Z.of_nat i + 1 ≤ len v / e) by lia; nia).
      rewrite !cell_word by done. rewrite (proj2 (Nat.leb_gt _ _)) by lia.
      replace (Z.of_nat i * e + e) with (Z.of_nat (S i) * e) by lia. rewrite IH by (rewrite ?length_app; simpl; lia).
      replace (reg_count ac sc v - i)%nat with (S (reg_count ac sc v - S i)) by lia.
      cbn [seq]. rewrite fmap_cons, <- app_assoc. done.
Qed.

(** The node's name tells the kinds apart. *)
Lemma memory_not_other name : is_memory name = true →
  (str_eq name "framebuffer" || starts_with name "framebuffer@" || starts_with name "simple-framebuffer@") = false ∧
  (starts_with name "pl011@" || starts_with name "uart@") = false.
Proof.
  intros Hm. assert (∃ l, name = 109 :: l) as [l ->].
  { unfold is_memory, str_eq, starts_with in Hm. apply orb_true_iff in Hm as [Hm|Hm]; to_prop.
    - rewrite Hm. by eexists.
    - destruct name as [|b l]; [done|]. simpl in Hm. injection Hm as -> _. by eexists. }
  split; apply orb_false_iff; unfold str_eq, starts_with; [split; [apply orb_false_iff; split|]|split];
    apply bool_decide_eq_false; intros Heq; discriminate Heq.
Qed.

(** ** The meaning of the tokens of a tree *)

(** Two states of the parser inside of the same node. *)
Definition same_node (t t' : Dt) : Prop :=
  depth t' = depth t ∧ in_memory t' = in_memory t ∧ in_framebuf t' = in_framebuf t ∧ in_pl011 t' = in_pl011 t.
Definition same_cells (t t' : Dt) : Prop := address_cells t' = address_cells t ∧ size_cells t' = size_cells t.

(** The flags of a node fit together. *)
Definition flags_ok (t : Dt) : Prop := in_memory t = true → in_framebuf t = false ∧ in_pl011 t = false.

(** A property that is no "reg" of a memory node, below the root. *)
Lemma prop_step_other rd n data_len t : depth t ≠ 1 → (str_eq n "reg" && in_memory t = false) →
  ∃ t', prop_step rd n data_len t = Some (Ret (true, t')) ∧ dt_mm t' = dt_mm t ∧ same_cells t t' ∧ same_node t t'.
Proof.
  intros Hd Hreg. unfold prop_step. rewrite (proj2 (Z.eqb_neq _ _) Hd), !andb_false_r.
  repeat (case_bool; [eexists; split; [reflexivity|]; try done; by case_bool|]).
  destruct (_ && _ && (_ <? _)%nat) eqn:Hm; [rewrite Hreg in Hm; done|].
  repeat (case_bool; [eexists; split; [reflexivity|]; try done; by case_bool|]). by eexists.
Qed.

Lemma prop_step_reg n v t : depth t ≠ 1 → str_eq n "reg" = true → in_memory t = true → flags_ok t → dt_cells_ok t →
  (length (dt_mm t) + length (reg_entries (address_cells t) (size_cells t) v) ≤ 32)%nat →
  ∃ t', prop_step (rd_val v) n (len v) t = Some (Ret (true, t')) ∧
    dt_mm t' = dt_mm t ++ reg_entries (address_cells t) (size_cells t) v ∧ same_cells t t' ∧ same_node t t'.
Proof.
  intros Hd Hn Hm Hf [Hac Hsc] Hl. destruct (Hf Hm) as [Hfb Hpl]. unfold prop_step.
  rewrite Hn, Hm, Hfb, Hpl, (proj2 (Z.eqb_neq _ _) Hd), !andb_false_r. cbn [andb].
  assert (n = bytes "reg") as -> by (unfold str_eq in Hn; by to_prop).
  unfold u8. rewrite Z.mod_small by lia. rewrite (proj2 (Z.eqb_neq ((_ + _) * 4) 0)) by lia.
  unfold reg_entries in *. rewrite length_fmap, length_seq in Hl. case_bool.
  - pose proof (reg_loop_entries (Z.to_nat (len v)) (address_cells t) (size_cells t) v 0 (dt_mm t) Hac Hsc) as Hr.
    rewrite Nat.sub_0_r in Hr. change (Z.of_nat 0 * _) with 0 in Hr. rewrite Hr; [by eexists|lia| |unfold MM_SLOTS; lia].
    unfold reg_count. apply Z2Nat.inj_le; [apply Z.div_pos; unfold len; lia|unfold len; lia|].
    apply Z.div_le_upper_bound; [lia|]. unfold len. nia.
  - change (str_eq (bytes "reg") "linux,initrd-start") with false. change (str_eq (bytes "reg") "linux,initrd-end") with false.
    exists t. split; [done|]. replace (reg_count (address_cells t) (size_cells t) v) with 0%nat by lia.
    simpl. by rewrite app_nil_r.
Qed.

Lemma join_cons {A} (x : list A) xs : mjoin (x :: xs) = x ++ mjoin xs.
Proof. done. Qed.

Lemma cells_of_same t t' : same_cells t t' → dt_cells_ok t → dt_cells_ok t'.
Proof. intros [Ha Hs] H. unfold dt_cells_ok. by rewrite Ha, Hs. Qed.

Lemma same_cells_trans t1 t2 t3 : same_cells t1 t2 → same_cells t2 t3 → same_cells t1 t3.
Proof. intros [] []. split; congruence. Qed.

(** The properties of a node below the root. *)
Lemma props_mean ps rest t : depth t ≠ 1 → flags_ok t → dt_cells_ok t →
  let rg := if in_memory t then mjoin (prop_regions (address_cells t) (size_cells t) <$> ps) else [] in
  (length (dt_mm t) + length rg ≤ 32)%nat →
  ∃ t', mean_events ((prop_event <$> ps) ++ rest) t = mean_events rest t' ∧ dt_mm t' = dt_mm t ++ rg ∧ same_cells t t' ∧ depth t' = depth t.
Proof.
  revert t. induction ps as [|[n v] ps IH]; intros t Hd Hf Hc rg Hl; unfold rg in *; clear rg.
  { exists t. split; [done|]. destruct (in_memory t); by rewrite app_nil_r. }
  rewrite (fmap_cons (prop_regions _ _)), join_cons in Hl |- *. rewrite fmap_cons. cbn [app mean_events prop_event fst snd].
  assert (∃ t1, prop_step (rd_val v) (str_or_empty n) (len v) t = Some (Ret (true, t1)) ∧
    dt_mm t1 = dt_mm t ++ (if in_memory t then prop_regions (address_cells t) (size_cells t) (n, v) else []) ∧
    same_cells t t1 ∧ same_node t t1) as (t1 & -> & Hmm & Hsc & Hd1 & Hm1 & Hfb1 & Hpl1).
  { unfold prop_regions in *. cbn [fst snd] in *. destruct (in_memory t) eqn:Hm.
    - case_bool.
      + rewrite length_app in Hl. by apply prop_step_reg; [..|lia].
      + rewrite app_nil_r. apply prop_step_other; [done|]. by rewrite Heqb.
    - rewrite app_nil_r. apply prop_step_other; [done|]. by rewrite Hm, andb_false_r. }
  pose proof Hsc as [Ha Hs]. destruct (IH t1) as (t' & -> & Hmm' & Hsc' & Hd').
  - by rewrite Hd1.
  - unfold flags_ok. by rewrite Hm1, Hfb1, Hpl1.
  - by apply (cells_of_same t).
  - rewrite Hm1, Ha, Hs, Hmm. destruct (in_memory t); rewrite !length_app in *; simpl in *; lia.
  - exists t'. split_and!; [done| |by eapply same_cells_trans|congruence].
    rewrite Hmm', Hm1, Ha, Hs, Hmm. destruct (in_memory t); by rewrite <- app_assoc.
Qed.

Lemma node_begin_flags name t : flags_ok (node_begin name t).
Proof. unfold flags_ok, node_begin. simpl. fold (is_memory name). apply memory_not_other. Qed.

(** A node below the root, with its children. *)
Definition node_means (d : dnode) : Prop := ∀ rest t, 1 ≤ depth t → dt_cells_ok t →
  let rg := regions (address_cells t) (size_cells t) d in
  (length (dt_mm t) + length rg ≤ 32)%nat →
  ∃ t', mean_events (flatten d ++ rest) t = mean_events rest t' ∧ dt_mm t' = dt_mm t ++ rg ∧ same_cells t t' ∧ depth t' = depth t.

Lemma nodes_mean cs rest t : Forall node_means cs → 1 ≤ depth t → dt_cells_ok t →
  let rg := mjoin (regions (address_cells t) (size_cells t) <$> cs) in
  (length (dt_mm t) + length rg ≤ 32)%nat →
  ∃ t', mean_events (mjoin (flatten <$> cs) ++ rest) t = mean_events rest t' ∧ dt_mm t' = dt_mm t ++ rg ∧ same_cells t t' ∧ depth t' = depth t.
Proof.
  intros HF. revert t. induction HF as [|d cs Hd HF IH]; intros t Hdep Hc rg Hl; unfold rg in *; clear rg.
  { exists t. by rewrite app_nil_r. }
  rewrite (fmap_cons (regions _ _)), join_cons in Hl |- *. rewrite fmap_cons, join_cons, <- app_assoc.
  rewrite length_app in Hl. destruct (Hd (mjoin (flatten <$> cs) ++ rest) t Hdep Hc) as (t1 & -> & Hmm & [Ha Hs] & Hd1); [lia|].
  destruct (IH t1) as (t' & -> & Hmm' & Hsc' & Hd').
  - by rewrite Hd1.
  - by apply (cells_of_same t).
  - rewrite Ha, Hs, Hmm, length_app. lia.
  - exists t'. split_and!; [done| |by eapply same_cells_trans; [split|]|congruence].
    by rewrite Hmm', Ha, Hs, Hmm, <- app_assoc.
Qed.

Lemma node_mean d : node_means d.
Proof.
  induction d as [name ps cs IH] using dnode_ind'. intros rest t Hdep Hc rg Hl. unfold rg in *. clear rg.
  cbn [flatten regions] in *. cbn [app mean_events].
  set (t0 := node_begin (str_or_empty name) t). assert (in_memory t0 = is_memory (str_or_empty name)) as Him by done.
  rewrite length_app in Hl. rewrite <- !app_assoc.
  destruct (props_mean ps (mjoin (flatten <$> cs) ++ [EvEnd] ++ rest) t0) as (t1 & -> & Hmm1 & [Ha Hs] & Hd1).
  - simpl. lia.
  - apply node_begin_flags.
  - done.
  - rewrite Him. simpl. lia.
  - rewrite Him in Hmm1. destruct (nodes_mean cs ([EvEnd] ++ rest) t1 IH) as (t2 & -> & Hmm2 & [Ha2 Hs2] & Hd2).
    + rewrite Hd1. simpl. lia.
    + by apply (cells_of_same t0).
    + rewrite Ha, Hs, Hmm1, length_app. simpl address_cells. simpl size_cells. simpl dt_mm. lia.
    + exists (node_end t2). split; [done|]. assert (dt_mm (node_end t2) = dt_mm t2) as -> by (unfold node_end; by case_bool).
      split_and!.
      * rewrite Hmm2, Ha, Hs, Hmm1, <- app_assoc. done.
      * unfold node_end. split; case_bool; simpl; rewrite ?Ha2, ?Hs2, ?Ha, ?Hs; done.
      * unfold node_end. case_bool; simpl; rewrite Hd2, Hd1; simpl; lia.
Qed.

(** The properties of the root. *)
Lemma root_props_mean ps rest t : depth t = 1 → in_memory t = false → in_framebuf t = false → in_pl011 t = false →
  in_chosen t = false → Forall event_ok (prop_event <$> ps) →
  ∃ t', mean_events ((prop_event <$> ps) ++ rest) t = mean_events rest t' ∧ dt_mm t' = dt_mm t ∧ depth t' = 1 ∧
    (address_cells t', size_cells t') = foldl (λ c p,
      if str_eq (str_or_empty p.1) "#address-cells" then (u8 (rd_val p.2 4 0), c.2)
      else if str_eq (str_or_empty p.1) "#size-cells" then (c.1, u8 (rd_val p.2 4 0)) else c) (address_cells t, size_cells t) ps.
Proof.
  revert t. induction ps as [|[n v] ps IH]; intros t Hd Hm Hfb Hpl Hch HF; [by exists t|].
  rewrite fmap_cons in *. apply Forall_cons_1 in HF as [(_ & Ha & Hs & _) HF].
  cbn [app mean_events prop_event fst snd foldl]. unfold prop_step. rewrite Hd, Hm, Hfb, Hpl, Hch, !andb_false_r. cbn [andb].
  destruct (str_eq (str_or_empty n) "#address-cells") eqn:Hna.
  - destruct (Ha Hna) as [Hl _]. cbn [fst snd] in Hl. rewrite (proj2 (Z.leb_le _ _) Hl). cbn [andb Z.eqb Pos.eqb].
    set (t1 := set_cells _ _ t). destruct (IH t1) as (t' & H1 & H2 & H3 & H4); [done..|]. by exists t'.
  - cbn [andb]. destruct (str_eq (str_or_empty n) "#size-cells") eqn:Hns.
    + destruct (Hs Hns) as [Hl _]. cbn [fst snd] in Hl. rewrite (proj2 (Z.leb_le _ _) Hl). cbn [andb Z.eqb Pos.eqb].
      set (t1 := set_cells _ _ t). destruct (IH t1) as (t' & H1 & H2 & H3 & H4); [done..|]. by exists t'.
    + cbn [andb]. by apply IH.
Qed.

Lemma root_cells_ok ps : Forall event_ok (prop_event <$> ps) → 1 ≤ (root_cells ps).1 ≤ 2 ∧ 1 ≤ (root_cells ps).2 ≤ 2.
Proof.
  unfold root_cells. assert (1 ≤ (2, 2).1 ≤ 2 ∧ 1 ≤ (2, 2).2 ≤ 2) as Hc by (simpl; lia). revert Hc. generalize (2, 2) as c.
  induction ps as [|[n v] ps IH]; intros c Hc HF; [done|]. rewrite fmap_cons in HF.
  apply Forall_cons_1 in HF as [(_ & Ha & Hs & _) HF]. cbn [foldl fst snd]. apply IH; [|done].
  case_bool; [|case_bool; [|done]]; simpl; split; try apply Hc; [by apply Ha|by apply Hs].
Qed.

(** C24: The memory map of a device tree.  For any tree, with its reservations, encoded
    as a blob anywhere in memory, the parser returns as memory map the address and
    size pairs of the "reg" properties of all its memory nodes, at any depth, read
    with the root's #address-cells and #size-cells, followed by the reservations, up
    to the 64 entries of the array. *)
Theorem dtb_memory_map m dtb rs ps cs : Forall rsv_ok rs → Forall event_ok (flatten (DNode [] ps cs)) →
  mem_at m dtb (encode_dtb rs (flatten (DNode [] ps cs))) → 0 ≤ dtb →
  len (encode_dtb rs (flatten (DNode [] ps cs))) < 2^32 → dtb + len (encode_dtb rs (flatten (DNode [] ps cs))) < 2^63 →
  let rg := mjoin (regions (root_cells ps).1 (root_cells ps).2 <$> cs) in
  (length rg ≤ 32)%nat →
  ∃ info, parse m dtb = Some (Ret info) ∧ memory_map info = Some (take 64 (rg ++ (reserved <$> rs))).
Proof.
  intros Hrs Hev Hm H0 Hlen Hend rg Hrg. rewrite (parse_at m dtb rs _ Hrs Hev Hm H0 Hlen Hend).
  cbn [flatten] in *. apply Forall_cons_1 in Hev as [_ Hev]. apply Forall_app in Hev as [Hps _].
  cbn [mean_events]. set (t0 := node_begin (str_or_empty []) Dt_init).
  destruct (root_props_mean ps (mjoin (flatten <$> cs) ++ [EvEnd]) t0) as (t1 & -> & Hmm & Hd & Hc); [done..|].
  change (address_cells t0, size_cells t0) with (2, 2) in Hc. fold (root_cells ps) in Hc.
  pose proof (root_cells_ok ps Hps) as Hok. unfold rg in *. rewrite <- Hc in *. cbn [fst snd] in *.
  destruct (nodes_mean cs [EvEnd] t1) as (t2 & -> & Hmm2 & _ & _).
  - apply Forall_true. apply node_mean.
  - lia.
  - done.
  - rewrite Hmm. simpl dt_mm. simpl length. lia.
  - rewrite Hmm in Hmm2. cbn [mean_events]. eexists. split; [done|].
    assert (dt_mm (node_end t2) = dt_mm t2) as -> by (unfold node_end; by case_bool). rewrite Hmm2.
    unfold dt_info. by case_bool.
Qed.

(** ** Examples *)

Definition cells_prop (s : string) (n : Z) : list Z * list Z := (bytes s, be_encode 4 n).

(** 128 MiB at 1 GiB in a memory node, a UART and a chosen node. *)
Definition demo_children : list dnode := [
  DNode (bytes "memory@40000000") [(bytes "device_type", bytes "memory" ++ [0]);
                                   (bytes "reg", be_encode 8 0x40000000 ++ be_encode 8 0x8000000)] [];
  DNode (bytes "pl011@9000000") [(bytes "reg", be_encode 8 0x9000000 ++ be_encode 8 0x1000)] [];
  DNode (bytes "chosen") [(bytes "linux,initrd-start", be_encode 8 0x48000000)] []].
Definition demo_root : list (list Z * list Z) := [cells_prop "#address-cells" 2; cells_prop "#size-cells" 2].
Definition demo_rsv : list (Z * Z) := [(0x47000000, 0x10000)].
Definition demo_dtb : list Z := encode_dtb demo_rsv (flatten (DNode [] demo_root demo_children)).

(** A decidable form of [event_ok]. *)
Definition event_okb (e : event) : bool :=
  match e with
  | EvBegin name => forallb (λ b, negb (b =? 0)) name
  | EvProp n v =>
      let cells_okb := (4 <=? len v) && (1 <=? u8 (rd_val v 4 0)) && (u8 (rd_val v 4 0) <=? 2) in
      forallb (λ b, negb (b =? 0)) n && (negb (str_eq (str_or_empty n) "#address-cells") || cells_okb) &&
      (negb (str_eq (str_or_empty n) "#size-cells") || cells_okb) && (negb (str_eq (str_or_empty n) "reg") || (8 <=? len v))
  | _ => true
  end.

Lemma forallb_nonzero l : forallb (λ b, negb (b =? 0)) l = true → Forall (λ b, b ≠ 0) l.
Proof.
  intros H. apply Forall_forall. intros b Hb%list_elem_of_In. apply (proj1 (forallb_forall _ _) H) in Hb. by to_prop.
Qed.

Lemma event_okb_ok evs : forallb event_okb evs = true → Forall event_ok evs.
Proof.
  intros H. apply Forall_forall. intros e He%list_elem_of_In. apply (proj1 (forallb_forall _ _) H) in He. destruct e as [name| |n v|]; try done.
  - by apply forallb_nonzero.
  - cbn [event_okb] in He. repeat (apply andb_true_iff in He as [He ?]). split_and!; [by apply forallb_nonzero| | |].
    all: intros Hn; rewrite Hn in *; cbn [negb orb] in *; to_prop; unfold cells_ok; done.
Qed.

Lemma dtb_memory_map_witness : ∃ info, parse (mem_write 0x40000000 demo_dtb (λ _, 0)) 0x40000000 = Some (Ret info) ∧
  memory_map info = Some [mkMemoryRegion 0x40000000 0x8000000 Available; mkMemoryRegion 0x47000000 0x10000 Reserved].
Proof.
  destruct (dtb_memory_map (mem_write 0x40000000 demo_dtb (λ _, 0)) 0x40000000 demo_rsv demo_root demo_children)
    as (info & Hp & Hm).
  - apply Forall_cons. split; [|by apply Forall_nil]. split_and!; simpl; lia.
  - apply event_okb_ok. vm_compute. reflexivity.
  - apply mem_at_write.
  - lia.
  - vm_compute. reflexivity.
  - vm_compute. reflexivity.
  - vm_compute. lia.
  - exists info. split; [exact Hp|]. rewrite Hm. vm_compute. reflexivity.
Defined.

Lemma dtb_parse_bounded_witness :
  (∃ r, parse (mem_write 0x40000000 (take 100 demo_dtb) (λ _, 0)) 0x40000000 = Some r) ∧
  parse (mem_write 0x10 [1] (mem_write 0x40000000 (take 100 demo_dtb) (λ _, 0))) 0x40000000 =
    parse (mem_write 0x40000000 (take 100 demo_dtb) (λ _, 0)) 0x40000000.
Proof.
  destruct (dtb_parse_bounded (mem_write 0x40000000 (take 100 demo_dtb) (λ _, 0)) 0x40000000) as [Hr He].
  - intros x. unfold mem_write. case_bool; [|unfold is_byte; lia].
    destruct (take 100 demo_dtb !! Z.to_nat (x - 1073741824)) as [b|] eqn:Hb; simpl; [|unfold is_byte; lia].
    assert (forallb (λ b, (0 <=? b) && (b <? 256)) (take 100 demo_dtb) = true) as HF by (vm_compute; reflexivity).
    apply list_elem_of_lookup_2, list_elem_of_In in Hb. apply (proj1 (forallb_forall _ _) HF) in Hb. to_prop. done.
  - split; [exact Hr|]. apply He; intros x Hx; symmetry; apply mem_write_out; simpl; lia.
Defined.

(** A "reg" with more than 64 pairs runs past the end of the array: the guard is
    checked before the pairs are read, not for each of them. *)
Lemma reg_overflows_map :
  prop_step (rd_val (replicate (8 * 65) 1)) (bytes "reg") (8 * 65)
    (set_node 2 true false false false (set_cells 1 1 Dt_init)) = Some Panic.
Proof. vm_compute. reflexivity. Qed.
