(* ===== verification/Wifi.v ===== *)
(** * The WiFi stack (src/drivers/wifi/src)

    802.11 frames and information elements, the builders of outgoing frames, the
    scan cache, the station table, the nl80211 messages, and the connection state
    machine of mac80211 over a driver.  The driver is an interface, as the trait
    [Ieee80211Ops] is; the simulated VirtioWifi driver is its instance. *)

From stdpp Require Import base list option numbers.
From Stdlib Require Import ZArith Lia.
From S2P Require Import Prelude Words IpcPort.

Local Open Scope Z_scope.

(** ** 802.11 (ieee80211.rs) *)

Definition ETH_ALEN : nat := 6.
Definition BROADCAST_ADDR : list Z := replicate ETH_ALEN 255.

Module fc.
Definition TYPE_MASK : Z := 0xC.
Definition SUBTYPE_MASK : Z := 0xF0.
Definition TO_DS : Z := 0x100.
Definition PWR_MGT : Z := 0x1000.
Definition FTYPE_MGMT : Z := 0.
Definition FTYPE_DATA : Z := 8.
Definition STYPE_ASSOC_REQ : Z := 0.
Definition STYPE_ASSOC_RESP : Z := 0x10.
Definition STYPE_PROBE_REQ : Z := 0x40.
Definition STYPE_PROBE_RESP : Z := 0x50.
Definition STYPE_BEACON : Z := 0x80.
Definition STYPE_DISASSOC : Z := 0xA0.
Definition STYPE_AUTH : Z := 0xB0.
Definition STYPE_DEAUTH : Z := 0xC0.
Definition STYPE_NULLFUNC : Z := 0x40.
End fc.

Definition frame_type (v : Z) : Z := Z.land v fc.TYPE_MASK.
Definition frame_subtype (v : Z) : Z := Z.land v (Z.lor fc.TYPE_MASK fc.SUBTYPE_MASK).
Definition is_mgmt (v : Z) : bool := frame_type v =? fc.FTYPE_MGMT.
Definition is_data (v : Z) : bool := frame_type v =? fc.FTYPE_DATA.
Definition is_qos_data (v : Z) : bool := Z.land v (Z.lor fc.TYPE_MASK 0x80) =? Z.lor fc.FTYPE_DATA 0x80.

Module eid.
Definition SSID : Z := 0.
Definition SUPPORTED_RATES : Z := 1.
Definition DS_PARAMS : Z := 3.
End eid.

Definition parse_ie (buf : list Z) : option (Z * list Z) :=
  match buf with
  | id :: n :: rest => if (length buf <? 2 + Z.to_nat n)%nat then None else Some (id, take (Z.to_nat n) rest)
  | _ => None
  end.

(** [IeIter]: the elements up to the first that is cut off; each takes two bytes
    at least, so the length of the buffer is enough fuel. *)
Fixpoint ie_loop (fuel : nat) (buf : list Z) : list (Z * list Z) :=
  match fuel with
  | O => []
  | S fuel' =>
      match parse_ie buf with
      | None => []
      | Some (id, payload) => (id, payload) :: ie_loop fuel' (drop (2 + length payload) buf)
      end
  end.

Definition IeIter (buf : list Z) : list (Z * list Z) := ie_loop (length buf) buf.

Inductive Band := Ghz2 | Ghz5 | Ghz6 | Ghz60.

Record Channel := mkWChannel {
  ch_band : Band; ch_freq : Z; ch_hw_value : Z; ch_flags : Z; ch_max_power : Z; ch_max_reg_power : Z
}.

Definition chan_to_freq_2ghz (channel : Z) : Z := if channel =? 14 then 2484 else 2407 + channel * 5.
Definition chan_to_freq_5ghz (channel : Z) : Z := 5000 + channel * 5.

(** ** Configuration (cfg80211.rs) *)

Definition IEEE80211_MAX_SSID_LEN : nat := 32.

Record Ssid := mkSsid { ss_ssid : list Z; ss_len : Z }.

(** [dst[i..i + src.len()].copy_from_slice(src)] on an array that has the room. *)
Definition blit (i : nat) (src dst : list Z) : list Z := take i dst ++ src ++ drop (i + length src) dst.

Definition Ssid_new (s : list Z) : Ssid :=
  let n := Nat.min (length s) IEEE80211_MAX_SSID_LEN in
  mkSsid (blit 0 (take n s) (replicate IEEE80211_MAX_SSID_LEN 0)) (Z.of_nat n).

(** [&self.ssid[..self.len]] *)
Definition as_bytes (s : Ssid) : outcome (list Z) :=
  if ss_len s <=? len (ss_ssid s) then Ret (take (Z.to_nat (ss_len s)) (ss_ssid s)) else Panic.

Record Bss := mkBss {
  bs_bssid : list Z; bs_channel : Channel; bs_tsf : Z; bs_beacon_interval : Z; bs_capability : Z;
  bs_signal_mbm : Z; bs_ssid : Ssid; bs_age_ms : Z
}.

Definition signal_dbm (b : Bss) : Z := Z.quot (bs_signal_mbm b) 100.
Definition is_infrastructure (b : Bss) : bool := negb (Z.land (bs_capability b) 1 =? 0).

Record ScanRequest := mkScanRequest {
  sq_ssids : list (option Ssid); sq_n_ssids : Z; sq_channels : list (option Channel); sq_n_channels : Z;
  sq_ie : list Z; sq_ie_len : Z; sq_flags : Z
}.

Record ScanResults := mkScanResults { sr_bss : list (option Bss); sr_count : Z; sr_aborted : bool }.

Definition ScanResults_new : ScanResults := mkScanResults (replicate 32 None) 0 false.

Definition ScanResults_add (b : Bss) (r : ScanResults) : bool * ScanResults :=
  if len (sr_bss r) <=? sr_count r then (false, r)
  else (true, mkScanResults (<[Z.to_nat (sr_count r) := Some b]> (sr_bss r)) (u8 (sr_count r + 1)) (sr_aborted r)).

Definition ScanResults_iter (r : ScanResults) : list Bss := omap (λ b, b) (take (Z.to_nat (sr_count r)) (sr_bss r)).

(** [take_results]: the cache is handed out and emptied. *)
Definition take_results (r : ScanResults) : ScanResults * ScanResults := (r, ScanResults_new).

(** ** Outgoing frames (mac80211/frame.rs) *)

Definition MAX_FRAME_LEN : nat := Z.to_nat 2346.

Record TxFrame := mkTxFrame { tf_data : list Z; tf_len : nat; tf_ac : Z }.

Definition TxFrame_new : TxFrame := mkTxFrame (replicate MAX_FRAME_LEN 0) 0 0.

Definition write (src : list Z) : st TxFrame unit := λ f,
  let end_ := (tf_len f + length src)%nat in
  if (end_ <=? length (tf_data f))%nat then Ret (tt, mkTxFrame (blit (tf_len f) src (tf_data f)) end_ (tf_ac f)) else Panic.

Definition write_le16 (v : Z) : st TxFrame unit := write (le_encode 2 v).

Definition write_hdr (fc_val : Z) (da sa bssid : list Z) : st TxFrame unit :=
  write_le16 fc_val ≫= λ _,
  write_le16 0 ≫= λ _,
  write da ≫= λ _,
  write sa ≫= λ _,
  write bssid ≫= λ _,
  write_le16 0.

(** [f.data[f.len + i] = v] *)
Definition poke (i : nat) (v : Z) : st TxFrame unit := λ f,
  if (tf_len f + i <? length (tf_data f))%nat then Ret (tt, mkTxFrame (<[(tf_len f + i)%nat := v]> (tf_data f)) (tf_len f) (tf_ac f)) else Panic.

Definition advance (n : nat) : st TxFrame unit := st_modify (λ f, mkTxFrame (tf_data f) (tf_len f + n) (tf_ac f)).

(** An information element of at most [max] bytes. *)
Definition write_ie (id : Z) (max : nat) (s : list Z) : st TxFrame unit :=
  let n := Nat.min (length s) max in
  poke 0 id ≫= λ _,
  poke 1 (u8 (Z.of_nat n)) ≫= λ _,
  advance 2 ≫= λ _,
  write (take n s).

Definition build (c : st TxFrame unit) : outcome TxFrame :=
  match c TxFrame_new with Ret (_, f) => Ret f | Panic => Panic end.

Definition build_auth_open (sa bssid : list Z) (seq : Z) : outcome TxFrame := build (
  write_hdr (Z.lor fc.FTYPE_MGMT fc.STYPE_AUTH) bssid sa bssid ≫= λ _,
  write_le16 0 ≫= λ _,
  write_le16 seq ≫= λ _,
  write_le16 0).

Definition build_auth_sae (sa bssid sae_payload : list Z) : outcome TxFrame := build (
  write_hdr (Z.lor fc.FTYPE_MGMT fc.STYPE_AUTH) bssid sa bssid ≫= λ _,
  write_le16 3 ≫= λ _,
  write_le16 1 ≫= λ _,
  write_le16 0 ≫= λ _,
  st_get tf_len ≫= λ n,
  write (take (Nat.min (length sae_payload) (MAX_FRAME_LEN - n)) sae_payload)).

Definition build_assoc_req (sa bssid : list Z) (capability listen_interval : Z) (ssid supported_rates : list Z) : outcome TxFrame := build (
  write_hdr (Z.lor fc.FTYPE_MGMT fc.STYPE_ASSOC_REQ) bssid sa bssid ≫= λ _,
  write_le16 capability ≫= λ _,
  write_le16 listen_interval ≫= λ _,
  write_ie eid.SSID 32 ssid ≫= λ _,
  write_ie eid.SUPPORTED_RATES 8 supported_rates).

Definition build_deauth (sa bssid : list Z) (reason : Z) : outcome TxFrame := build (
  write_hdr (Z.lor fc.FTYPE_MGMT fc.STYPE_DEAUTH) bssid sa bssid ≫= λ _,
  write_le16 reason).

Definition build_disassoc (sa bssid : list Z) (reason : Z) : outcome TxFrame := build (
  write_hdr (Z.lor fc.FTYPE_MGMT fc.STYPE_DISASSOC) bssid sa bssid ≫= λ _,
  write_le16 reason).

Definition build_nullfunc (sa bssid : list Z) (power_save : bool) : outcome TxFrame :=
  let v := Z.lor (Z.lor fc.FTYPE_DATA fc.STYPE_NULLFUNC) fc.TO_DS in
  build (write_hdr (if power_save then Z.lor v fc.PWR_MGT else v) bssid sa bssid).

Definition build_probe_req (sa ssid supported_rates : list Z) : outcome TxFrame := build (
  write_hdr (Z.lor fc.FTYPE_MGMT fc.STYPE_PROBE_REQ) BROADCAST_ADDR sa BROADCAST_ADDR ≫= λ _,
  write_ie eid.SSID 32 ssid ≫= λ _,
  write_ie eid.SUPPORTED_RATES 8 supported_rates).

(** ** nl80211 messages (nl80211.rs) *)

Inductive Nl80211Cmd :=
  | GetWiphy | SetWiphy | NewWiphy | DelWiphy | GetInterface | SetInterface | NewInterface | DelInterface | GetKey
  | SetKey | NewKey | DelKey | GetBeacon | SetBeacon | StartAp | StopAp | GetStation | SetStation | NewStation
  | DelStation | GetMpath | SetMpath | NewMpath | DelMpath | SetBss | SetReg | ReqSetReg | GetMeshConfig
  | SetMeshConfig | TriggerScan | NewScanResults | ScanAborted | RegChange | Authenticate | Associate
  | Deauthenticate | Disassociate | MicFailure | RegBeaconHint | JoinIbss | LeaveIbss | Testmode | Connect | Roam
  | Disconnect | SetWiphyNetns | GetSurvey | NewSurveyResults | SetPmksa | DelPmksa | FlushPmksa | RemainOnChannel
  | CancelRemainOnChannel | SetTxBitrateMask | RegisterAction | Frame | FrameTxStatus | SetPowerSave | GetPowerSave
  | SetCqm | NotifyCqm | SetChannel | SetWdsPeer | FrameWaitCancel | JoinMesh | LeaveMesh | GetReg | Unknown.

(** [cmd as u32] *)
Definition cmd_code (c : Nl80211Cmd) : Z :=
  match c with
  | GetWiphy => 1 | SetWiphy => 2 | NewWiphy => 3 | DelWiphy => 4 | GetInterface => 5 | SetInterface => 6
  | NewInterface => 7 | DelInterface => 8 | GetKey => 9 | SetKey => 10 | NewKey => 11 | DelKey => 12
  | GetBeacon => 13 | SetBeacon => 14 | StartAp => 15 | StopAp => 16 | GetStation => 17 | SetStation => 18
  | NewStation => 19 | DelStation => 20 | GetMpath => 21 | SetMpath => 22 | NewMpath => 23 | DelMpath => 24
  | SetBss => 25 | SetReg => 26 | ReqSetReg => 27 | GetMeshConfig => 28 | SetMeshConfig => 29 | TriggerScan => 33
  | NewScanResults => 34 | ScanAborted => 35 | RegChange => 36 | Authenticate => 37 | Associate => 38
  | Deauthenticate => 39 | Disassociate => 40 | MicFailure => 41 | RegBeaconHint => 42 | JoinIbss => 43
  | LeaveIbss => 44 | Testmode => 45 | Connect => 46 | Roam => 47 | Disconnect => 48 | SetWiphyNetns => 49
  | GetSurvey => 50 | NewSurveyResults => 51 | SetPmksa => 52 | DelPmksa => 53 | FlushPmksa => 54
  | RemainOnChannel => 55 | CancelRemainOnChannel => 56 | SetTxBitrateMask => 57 | RegisterAction => 58 | Frame => 59
  | FrameTxStatus => 60 | SetPowerSave => 61 | GetPowerSave => 62 | SetCqm => 63 | NotifyCqm => 64 | SetChannel => 65
  | SetWdsPeer => 66 | FrameWaitCancel => 67 | JoinMesh => 68 | LeaveMesh => 69 | GetReg => 70 | Unknown => 65535
  end.

(** [From<u32>] knows only some of them. *)
Definition cmd_from (v : Z) : Nl80211Cmd :=
  if v =? 1 then GetWiphy else if v =? 2 then SetWiphy else if v =? 3 then NewWiphy else if v =? 4 then DelWiphy else
  if v =? 5 then GetInterface else if v =? 6 then SetInterface else if v =? 33 then TriggerScan else
  if v =? 34 then NewScanResults else if v =? 37 then Authenticate else if v =? 38 then Associate else
  if v =? 46 then Connect else if v =? 48 then Disconnect else if v =? 65 then SetChannel else Unknown.

Definition NL80211_CMD_OFFSET : nat := 0.
Definition NL80211_LEN_OFFSET : nat := 4.
Definition NL80211_PAYLOAD_OFFSET : nat := 8.

Definition encode (cmd : Nl80211Cmd) (payload : list Z) : Message :=
  let plen := Nat.min (length payload) (MESSAGE_INLINE_BYTES - NL80211_PAYLOAD_OFFSET) in
  let d := blit NL80211_CMD_OFFSET (le_encode 4 (cmd_code cmd)) (data Message_empty) in
  let d := blit NL80211_LEN_OFFSET (le_encode 4 (Z.of_nat plen)) d in
  let d := blit NL80211_PAYLOAD_OFFSET (take plen payload) d in
  mkMessage (cmd_code cmd) (reply_port Message_empty) d (cap Message_empty).

(** [a[i..i + n]] of an array that has the room *)
Definition slice (i n : nat) (a : list Z) : list Z := take n (drop i a).

Definition decode_cmd (msg : Message) : Nl80211Cmd * list Z :=
  let cmd_val := le_decode (slice NL80211_CMD_OFFSET 4 (data msg)) in
  let plen := le_decode (slice NL80211_LEN_OFFSET 4 (data msg)) in
  let plen := Nat.min (Z.to_nat plen) (MESSAGE_INLINE_BYTES - NL80211_PAYLOAD_OFFSET) in
  (cmd_from cmd_val, slice NL80211_PAYLOAD_OFFSET plen (data msg)).

(** The buffer has 34 bytes. *)
Definition encode_scan_req (ssid : option (list Z)) : outcome (list Z) :=
  let buf := <[0%nat := u8 (cmd_code TriggerScan)]> (replicate 34 0) in
  match ssid with
  | None => Ret buf
  | Some s =>
      let n := Nat.min (length s) 32 in
      let buf := <[2%nat := u8 (Z.of_nat n)]> buf in
      if (3 + n <=? 34)%nat then Ret (blit 3 (take n s) buf) else Panic
  end.

Definition encode_connect (ssid : list Z) (bssid : option (list Z)) : list Z :=
  let slen := Nat.min (length ssid) 32 in
  let buf := blit 1 (take slen ssid) (<[0%nat := u8 (Z.of_nat slen)]> (replicate 40 0)) in
  match bssid with
  | Some b => blit 34 b (<[33%nat := 1]> buf)
  | None => buf
  end.

Definition encode_disconnect (reason : Z) : list Z := le_encode 2 reason.

(** ** Drivers (mac80211/mod.rs) *)

Inductive IfType := Station | Ap | Monitor | Ibss | Mesh | P2pClient | P2pGo | P2pDevice | Nan.
Inductive Ac := Vo | Vi | Be | Bk.
Record TxQueueParams := mkTxQueueParams { tq_txop : Z; tq_cw_min : Z; tq_cw_max : Z; tq_aifs : Z; tq_uapsd : bool }.
Inductive CipherSuite := Wep40 | Tkip | Ccmp128 | Wep104 | AesCmac | Gcmp128 | Gcmp256 | Ccmp256.
Record KeyParams := mkKeyParams { kp_key : list Z; kp_key_len : Z; kp_seq : list Z; kp_seq_len : Z; kp_cipher : CipherSuite }.

Record Ieee80211Hw := mkHw {
  hw_flags : Z; extra_tx_headroom : Z; channel_change_time : Z; max_signal : Z; max_antenna_gain : Z;
  hw_queues : Z; max_rates : Z; vif_data_size : Z; sta_data_size : Z
}.

Definition Ieee80211Hw_default : Ieee80211Hw := mkHw 0 0 100000 (-10) 0 4 4 0 0.

Class Ieee80211Ops (D : Type) := {
  start : D → result unit Z * D;
  stop : D → D;
  tx : TxFrame → D → D;
  add_interface : IfType → D → result unit Z * D;
  remove_interface : IfType → D → D;
  config : Channel → D → result unit Z * D;
  hw_scan : ScanRequest → D → result unit Z * D;
  cancel_hw_scan : D → D;
  set_key : Z → bool → option (list Z) → KeyParams → bool → D → result unit Z * D;
  sta_add : list Z → D → result unit Z * D;
  sta_remove : list Z → D → D;
  configure_filter : Z → Z → D → D;
  conf_tx : Ac → TxQueueParams → D → result unit Z * D;
  get_tsf : D → Z;
  set_tsf : Z → D → D;
  reset_tsf : D → D
}.

(** ** The connection state machine (mac80211/mod.rs, auth.rs, scan.rs) *)

Inductive StaConnState := Disconnected | Scanning | Authenticating | Associating | Associated | DisconnectRequested.

#[export] Instance StaConnState_eq_dec : EqDecision StaConnState.
Proof. solve_decision. Defined.

Section mac.
Context {D S : Type} `{Ieee80211Ops D} `{PortWaker S}.

Record Mac80211 := mkMac {
  m_hw : Ieee80211Hw;
  m_driver : D;
  m_state : StaConnState;
  m_bss : option Bss;
  m_addr : list Z;
  m_port : option Z
}.

Definition Mac80211_new (hw : Ieee80211Hw) (driver : D) (addr : list Z) : Mac80211 := mkMac hw driver Disconnected None addr None.

(** The machine with the scan cache and the ports of the kernel. *)
Record Wifi := mkWifi { w_mac : Mac80211; w_cache : ScanResults; w_ports : PortTable * S }.

Definition on_mac (f : Mac80211 → Mac80211) (w : Wifi) : Wifi := mkWifi (f (w_mac w)) (w_cache w) (w_ports w).
Definition set_driver (d : D) (m : Mac80211) : Mac80211 := mkMac (m_hw m) d (m_state m) (m_bss m) (m_addr m) (m_port m).
Definition set_state (x : StaConnState) (m : Mac80211) : Mac80211 := mkMac (m_hw m) (m_driver m) x (m_bss m) (m_addr m) (m_port m).
Definition set_bss (b : option Bss) (m : Mac80211) : Mac80211 := mkMac (m_hw m) (m_driver m) (m_state m) b (m_addr m) (m_port m).
Definition set_nl80211_port (p : Z) (m : Mac80211) : Mac80211 := mkMac (m_hw m) (m_driver m) (m_state m) (m_bss m) (m_addr m) (Some p).

(** A call of the driver that returns a result. *)
Definition on_driver (f : D → result unit Z * D) : st Wifi (result unit Z) := λ w,
  let '(r, d) := f (m_driver (w_mac w)) in Ret (r, on_mac (set_driver d) w).

Definition driver_tx (f : TxFrame) : st Wifi unit := st_modify (λ w, on_mac (set_driver (tx f (m_driver (w_mac w)))) w).

(** The frame that is built is given to the driver. *)
Definition tx_built (f : outcome TxFrame) : st Wifi unit := match f with Ret f => driver_tx f | Panic => st_panic end.

Definition bring_up : st Wifi (result unit Z) :=
  on_driver start ≫= λ r,
  match r with
  | Err e => mret (Err e)
  | Ok _ => on_driver (add_interface Station)
  end.

Definition scan (req : ScanRequest) : st Wifi (result unit Z) :=
  st_get (λ w, m_state (w_mac w)) ≫= λ s,
  if negb (bool_decide (s = Disconnected)) then mret (Err (-16))
  else
    st_modify (on_mac (set_state Scanning)) ≫= λ _,
    on_driver (hw_scan req).

Definition scan_done : st Wifi unit := st_modify (on_mac (λ m,
  if bool_decide (m_state m = Scanning) then set_state Disconnected m else m)).

(** What one element of a beacon adds to the name and the channel found so far. *)
Definition beacon_ie (x : Ssid * option Z) (ie : Z * list Z) : Ssid * option Z :=
  let '(id, payload) := ie in
  if (id =? eid.SSID) && (length payload <=? 32)%nat then (Ssid_new payload, x.2)
  else if (id =? eid.DS_PARAMS) && (1 <=? length payload)%nat then (x.1, payload !! 0%nat)
  else x.

Definition handle_beacon_or_probe (frame : list Z) : st Wifi unit :=
  if (length frame <? 36)%nat then mret tt
  else
    let bssid := slice 16 6 frame in
    let tsf := le_decode (slice 24 8 frame) in
    let beacon_interval := le_decode (slice 32 2 frame) in
    let capability := le_decode (slice 34 2 frame) in
    let '(ssid, ds_channel) := foldl beacon_ie (Ssid_new [], None) (IeIter (drop 36 frame)) in
    let channel := mkWChannel Ghz2 (match ds_channel with Some c => 2407 + c * 5 | None => 2412 end)
      (default 1 ds_channel) 0 20 20 in
    let bss := mkBss bssid channel tsf beacon_interval capability (-7000) ssid 0 in
    st_modify (λ w, mkWifi (w_mac w) (ScanResults_add bss (w_cache w)).2 (w_ports w)).

(** The 802.11g rates of the association request. *)
Definition basic_rates : list Z := [0x82; 0x84; 0x8B; 0x96; 0x24; 0x30; 0x48; 0x6C].

Definition handle_auth (frame : list Z) : st Wifi unit :=
  st_get w_mac ≫= λ m,
  if negb (bool_decide (m_state m = Authenticating)) then mret tt
  else if (length frame <? 30)%nat then mret tt
  else
    let seq := le_decode (slice 26 2 frame) in
    let status := le_decode (slice 28 2 frame) in
    if negb (seq =? 2) then mret tt
    else if negb (status =? 0) then scan_done
    else
      match m_bss m with
      | None => mret tt
      | Some bss =>
          match as_bytes (bs_ssid bss) with
          | Panic => st_panic
          | Ret s =>
              let assoc := build_assoc_req (m_addr m) (bs_bssid bss) (bs_capability bss) 10 s basic_rates in
              st_modify (on_mac (set_state Associating)) ≫= λ _,
              tx_built assoc
          end
      end.

Definition notify_associated (bssid : list Z) (aid : Z) : st Wifi unit := st_modify (λ w,
  match m_port (w_mac w) with
  | None => w
  | Some port =>
      let payload := blit ETH_ALEN (le_encode 2 aid) (blit 0 bssid (replicate (ETH_ALEN + 2) 0)) in
      mkWifi (w_mac w) (w_cache w) (send port (encode Connect payload) (w_ports w)).2
  end).

Definition handle_assoc_resp (frame : list Z) : st Wifi unit :=
  st_get w_mac ≫= λ m,
  if negb (bool_decide (m_state m = Associating)) then mret tt
  else if (length frame <? 30)%nat then mret tt
  else
    let status := le_decode (slice 26 2 frame) in
    let aid := Z.land (le_decode (slice 28 2 frame)) 0x3FFF in
    if negb (status =? 0) then st_modify (on_mac (set_state Disconnected))
    else
      st_modify (on_mac (set_state Associated)) ≫= λ _,
      notify_associated (slice 16 6 frame) aid.

Definition rx_mgmt (frame : list Z) : st Wifi unit :=
  if (length frame <? 2)%nat then mret tt
  else
    let fc_val := le_decode (take 2 frame) in
    if negb (is_mgmt fc_val) then mret tt
    else
      let s := frame_subtype fc_val in
      if (s =? Z.lor fc.FTYPE_MGMT fc.STYPE_BEACON) || (s =? Z.lor fc.FTYPE_MGMT fc.STYPE_PROBE_RESP) then handle_beacon_or_probe frame
      else if s =? Z.lor fc.FTYPE_MGMT fc.STYPE_AUTH then handle_auth frame
      else if s =? Z.lor fc.FTYPE_MGMT fc.STYPE_ASSOC_RESP then handle_assoc_resp frame
      else if (s =? Z.lor fc.FTYPE_MGMT fc.STYPE_DEAUTH) || (s =? Z.lor fc.FTYPE_MGMT fc.STYPE_DISASSOC) then
        st_modify (on_mac (λ m, set_bss None (set_state Disconnected m)))
      else mret tt.

(** [connect] does not look at its parameters beside the BSS. *)
Definition connect (bss : Bss) : st Wifi (result unit Z) :=
  on_driver (config (bs_channel bss)) ≫= λ r,
  match r with
  | Err e => mret (Err e)
  | Ok _ =>
      st_modify (on_mac (λ m, set_state Authenticating (set_bss (Some bss) m))) ≫= λ _,
      st_get (λ w, m_addr (w_mac w)) ≫= λ addr,
      tx_built (build_auth_open addr (bs_bssid bss) 1) ≫= λ _,
      mret (Ok tt)
  end.

Definition disconnect (reason : Z) : st Wifi (result unit Z) :=
  st_get w_mac ≫= λ m,
  (match m_bss m with
   | None => mret tt
   | Some bss =>
       st_modify (on_mac (set_bss None)) ≫= λ _,
       tx_built (build_deauth (m_addr m) (bs_bssid bss) reason)
   end) ≫= λ _,
  st_modify (on_mac (set_state Disconnected)) ≫= λ _,
  mret (Ok tt).
End mac.
#[global] Arguments Mac80211 D : clear implicits.
#[global] Arguments Wifi D S : clear implicits.

(** ** The simulated driver (virtio_wifi.rs) *)

Definition TX_RING_DEPTH : nat := 8.

Record TxMeta := mkTxMeta { tm_len : Z; tm_ac : Z }.

Record VirtioWifi := mkVirtioWifi {
  vw_running : bool; vw_channel : option Channel; vw_tsf : Z; vw_tx_ring : list TxMeta; vw_tx_head : nat;
  vw_tx_count : Z; vw_scan_pending : bool
}.

Definition VirtioWifi_new : VirtioWifi := mkVirtioWifi false None 0 (replicate TX_RING_DEPTH (mkTxMeta 0 0)) 0 0 false.

Definition set_running (b : bool) (d : VirtioWifi) : VirtioWifi :=
  mkVirtioWifi b (vw_channel d) (vw_tsf d) (vw_tx_ring d) (vw_tx_head d) (vw_tx_count d) (vw_scan_pending d).
Definition set_pending (b : bool) (d : VirtioWifi) : VirtioWifi :=
  mkVirtioWifi (vw_running d) (vw_channel d) (vw_tsf d) (vw_tx_ring d) (vw_tx_head d) (vw_tx_count d) b.
Definition virtio_set_tsf (t : Z) (d : VirtioWifi) : VirtioWifi :=
  mkVirtioWifi (vw_running d) (vw_channel d) t (vw_tx_ring d) (vw_tx_head d) (vw_tx_count d) (vw_scan_pending d).
Definition virtio_config (c : Channel) (d : VirtioWifi) : result unit Z * VirtioWifi :=
  (Ok tt, mkVirtioWifi (vw_running d) (Some c) (vw_tsf d) (vw_tx_ring d) (vw_tx_head d) (vw_tx_count d) (vw_scan_pending d)).

Definition virtio_tx (f : TxFrame) (d : VirtioWifi) : VirtioWifi :=
  let slot := (vw_tx_head d mod TX_RING_DEPTH)%nat in
  mkVirtioWifi (vw_running d) (vw_channel d) (vw_tsf d)
    (<[slot := mkTxMeta (u16 (Z.of_nat (tf_len f))) (tf_ac f)]> (vw_tx_ring d))
    ((vw_tx_head d + 1) mod TX_RING_DEPTH)%nat (u32 (vw_tx_count d + 1)) (vw_scan_pending d).

Definition virtio_hw_scan (req : ScanRequest) (d : VirtioWifi) : result unit Z * VirtioWifi :=
  if negb (vw_running d) then (Err (-19), d) else (Ok tt, set_pending true d).

Definition complete_scan : VirtioWifi → VirtioWifi := set_pending false.

#[export] Instance virtio_ops : Ieee80211Ops VirtioWifi := {|
  start := λ d, (Ok tt, set_running true d);
  stop := set_running false;
  tx := virtio_tx;
  add_interface := λ _ d, (Ok tt, d);
  remove_interface := λ _ d, d;
  config := virtio_config;
  hw_scan := virtio_hw_scan;
  cancel_hw_scan := set_pending false;
  set_key := λ _ _ _ _ _ d, (Ok tt, d);
  sta_add := λ _ d, (Ok tt, d);
  sta_remove := λ _ d, d;
  configure_filter := λ _ _ d, d;
  conf_tx := λ _ _ d, (Ok tt, d);
  get_tsf := vw_tsf;
  set_tsf := virtio_set_tsf;
  reset_tsf := virtio_set_tsf 0
|}.

Definition VIRTIO_WIFI_ADDR : list Z := [0x52; 0x54; 0x00; 0x12; 0x34; 0x56].

Definition create : Mac80211 VirtioWifi := Mac80211_new Ieee80211Hw_default VirtioWifi_new VIRTIO_WIFI_ADDR.

(** ** The station table (mac80211/sta.rs) *)

Definition STA_HASH_SIZE : nat := 256.

Inductive StaState := StaNone | StaAuth | StaAssoc | StaAuthorized.
Inductive BaState := BaNone | PendingResp | Established.
Record RateInfo := mkRateInfo { legacy : Z; mcs : Z; nss : Z; bw : Z; rate_flags : Z }.

Record StaInfo := mkStaInfo {
  sta_addr : list Z; sta_state : StaState; sta_aid : Z; last_rx_rate : RateInfo; last_tx_rate : RateInfo;
  rx_packets : Z; rx_bytes : Z; tx_packets : Z; tx_bytes : Z; rx_dropped : Z; tx_failed : Z;
  sta_signal : Z; signal_avg : Z; ba_rx : list BaState; ba_tx : list BaState;
  ht_supported : bool; vht_supported : bool; he_supported : bool; sta_qos : bool
}.

Definition RateInfo_default : RateInfo := mkRateInfo 0 0 0 0 0.

Definition StaInfo_new (addr : list Z) : StaInfo :=
  mkStaInfo addr StaNone 0 RateInfo_default RateInfo_default 0 0 0 0 0 0 0 0 (replicate 8 BaNone) (replicate 8 BaNone)
    false false false false.

(** [self.state >= StaState::Authorized] in the derived order *)
Definition is_authorized (s : StaInfo) : bool := match sta_state s with StaAuthorized => true | _ => false end.

Record StaTable := mkStaTable { st_slots : list (option StaInfo); st_count : Z }.

Definition StaTable_new : StaTable := mkStaTable (replicate STA_HASH_SIZE None) 0.

Definition hash (addr : list Z) : nat := Z.to_nat (addr !!! 5%nat).

Definition sta_at (t : StaTable) (addr : list Z) : option StaInfo :=
  match st_slots t !! hash addr with
  | Some (Some s) => if bool_decide (sta_addr s = addr) then Some s else None
  | _ => None
  end.

Definition sta_insert (s : StaInfo) (t : StaTable) : bool * StaTable :=
  match st_slots t !! hash (sta_addr s) with
  | Some None => (true, mkStaTable (<[hash (sta_addr s) := Some s]> (st_slots t)) (st_count t + 1))
  | _ => (false, t)
  end.

Definition sta_take (addr : list Z) (t : StaTable) : option StaInfo * StaTable :=
  match sta_at t addr with
  | Some s => (Some s, mkStaTable (<[hash addr := None]> (st_slots t)) (st_count t - 1))
  | None => (None, t)
  end.

(** [get_mut]: the caller changes the station in place. *)
Definition sta_update (addr : list Z) (f : StaInfo → StaInfo) (t : StaTable) : StaTable :=
  match sta_at t addr with
  | Some s => mkStaTable (<[hash addr := Some (f s)]> (st_slots t)) (st_count t)
  | None => t
  end.
