(* ===== verification/WifiSpec.v ===== *)
(** * Properties of the WiFi stack

    Information elements survive the trip through a frame; a scan collects the
    networks whose beacons arrive; a connection is made of exactly the frames of
    the 802.11 handshake, and no sequence of events reaches the associated state
    without it; the station table implements a map on addresses. *)

From stdpp Require Import base list option numbers gmap.
From Stdlib Require Import ZArith Lia.
From S2P Require Import Prelude Words IpcPort Wifi.

Local Open Scope Z_scope.

(** ** Information elements *)

Definition ie_bytes (els : list (Z * list Z)) : list Z := mjoin ((λ e, e.1 :: len e.2 :: e.2) <$> els).

Definition ie_ok (e : Z * list Z) : Prop := (length e.2 ≤ 255)%nat.

Lemma parse_ie_app id p rest : parse_ie (id :: len p :: p ++ rest) = Some (id, p).
Proof.
  unfold parse_ie, len. rewrite Nat2Z.id. cbn [length]. rewrite length_app. rewrite (proj2 (Nat.ltb_ge _ _)) by lia.
  by rewrite take_app_length.
Qed.

Lemma ie_loop_bytes els tail : parse_ie tail = None → ∀ fuel, (length els < fuel)%nat → ie_loop fuel (ie_bytes els ++ tail) = els.
Proof.
  intros Ht. induction els as [|[id p] els IH]; intros fuel Hf; (destruct fuel as [|fuel]; [simpl in Hf; lia|]); cbn [ie_loop].
  - unfold ie_bytes. cbn [fmap list_fmap mjoin list_join app]. by rewrite Ht.
  - change (ie_bytes ((id, p) :: els) ++ tail) with (id :: len p :: (p ++ ie_bytes els) ++ tail). rewrite <- app_assoc, parse_ie_app.
    cbn [Nat.add drop]. rewrite drop_app_length, IH by (simpl in Hf; lia). done.
Qed.

Lemma length_ie_bytes els : (2 * length els ≤ length (ie_bytes els))%nat.
Proof. induction els as [|[id p] els IH]; [done|]. change (ie_bytes ((id, p) :: els)) with (id :: len p :: p ++ ie_bytes els). cbn [length]. rewrite length_app. lia. Qed.

(** The iterator finds the elements, up to a tail that is cut off. *)
Lemma IeIter_bytes els tail : parse_ie tail = None → IeIter (ie_bytes els ++ tail) = els.
Proof.
  intros Ht. unfold IeIter. destruct els as [|e els].
  - unfold ie_bytes. cbn [fmap list_fmap mjoin list_join app]. destruct tail as [|b tail]; [done|]. cbn [length ie_loop]. by rewrite Ht.
  - apply ie_loop_bytes; [done|]. rewrite length_app. pose proof (length_ie_bytes (e :: els)). cbn [length] in *. lia.
Qed.

(** ** Built frames *)

(** A frame with the given bytes. *)
Definition frame_of (bs : list Z) : TxFrame := mkTxFrame (bs ++ replicate (MAX_FRAME_LEN - length bs) 0) (length bs) 0.

Definition frame_bytes (f : TxFrame) : list Z := take (tf_len f) (tf_data f).

Lemma frame_bytes_of bs : frame_bytes (frame_of bs) = bs.
Proof. apply take_app_length. Qed.

Lemma frame_of_nil : TxFrame_new = frame_of [].
Proof. unfold TxFrame_new, frame_of. cbn [app length]. by rewrite Nat.sub_0_r. Qed.

Lemma write_frame src bs : (length bs + length src ≤ MAX_FRAME_LEN)%nat → write src (frame_of bs) = Ret (tt, frame_of (bs ++ src)).
Proof.
  intros Hl. unfold write, frame_of. cbn [tf_len tf_data tf_ac]. rewrite !length_app, length_replicate.
  rewrite (proj2 (Nat.leb_le _ _)) by lia. unfold blit. rewrite take_app_length, <- drop_drop, drop_app_length, drop_replicate, <- app_assoc.
  by rewrite Nat.sub_add_distr.
Qed.

Lemma write_frame_bind {A} src bs (f : unit → st TxFrame A) : (length bs + length src ≤ MAX_FRAME_LEN)%nat →
  (write src ≫= f) (frame_of bs) = f tt (frame_of (bs ++ src)).
Proof. intros Hl. unfold mbind, st_bind. by rewrite write_frame. Qed.

Definition ie_of (id : Z) (max : nat) (s : list Z) : list Z := ie_bytes [(id, take (Nat.min (length s) max) s)].

Lemma write_ie_frame id max s bs : (length bs + 2 + Nat.min (length s) max ≤ MAX_FRAME_LEN)%nat → (max ≤ 255)%nat →
  write_ie id max s (frame_of bs) = Ret (tt, frame_of (bs ++ ie_of id max s)).
Proof.
  intros Hl Hm. set (n := Nat.min (length s) max) in *. assert (n ≤ 255)%nat as Hn by lia.
  assert (length (take n s) = n) as Htake by (rewrite length_take; lia).
  unfold write_ie. fold n. unfold poke, advance, st_modify, mbind, st_bind, frame_of. cbn [tf_len tf_data tf_ac].
  rewrite Nat.add_0_r, !length_app, length_replicate. rewrite (proj2 (Nat.ltb_lt _ _)) by lia. cbn [tf_len tf_data tf_ac].
  rewrite length_insert, length_app, length_replicate, (proj2 (Nat.ltb_lt _ _)) by lia. cbn [tf_len tf_data tf_ac].
  assert (∃ k, (MAX_FRAME_LEN - length bs = S (S k))%nat) as [k Hk] by (exists (MAX_FRAME_LEN - length bs - 2)%nat; lia).
  rewrite Hk. cbn [replicate]. rewrite insert_app_r_alt, Nat.sub_diag by lia. cbn [insert list_insert].
  rewrite insert_app_r_alt by lia. replace (length bs + 1 - length bs)%nat with 1%nat by lia. cbn [insert list_insert].
  assert (u8 (Z.of_nat n) = len (take n s)) as Hu by (unfold u8, len; rewrite Htake; apply Z.mod_small; lia). rewrite Hu.
  pose proof (write_frame (take n s) (bs ++ [id; len (take n s)])) as Hw. unfold frame_of in Hw. rewrite length_app in Hw. cbn [length] in Hw.
  replace (MAX_FRAME_LEN - (length bs + 2))%nat with k in Hw by lia. rewrite <- !app_assoc in Hw. cbn [app] in Hw.
  rewrite Hw by lia. unfold ie_of. fold n. unfold ie_bytes. cbn [fmap list_fmap mjoin list_join app fst snd]. by rewrite app_nil_r, <- app_assoc, length_app.
Qed.

(** The 24 bytes of a header. *)
Definition hdr (fc_val : Z) (da sa bssid : list Z) : list Z :=
  le_encode 2 fc_val ++ le_encode 2 0 ++ da ++ sa ++ bssid ++ le_encode 2 0.

Definition mac_addr (a : list Z) : Prop := length a = ETH_ALEN.

Lemma length_hdr v da sa b : mac_addr da → mac_addr sa → mac_addr b → length (hdr v da sa b) = 24%nat.
Proof. unfold mac_addr, hdr. intros H1 H2 H3. by rewrite !length_app, !length_le_encode, H1, H2, H3. Qed.

Lemma write_hdr_frame {A} v da sa b (f : unit → st TxFrame A) : mac_addr da → mac_addr sa → mac_addr b →
  (write_hdr v da sa b ≫= f) TxFrame_new = f tt (frame_of (hdr v da sa b)).
Proof.
  intros H1 H2 H3. unfold mac_addr, ETH_ALEN in *. assert (24 ≤ MAX_FRAME_LEN)%nat as Hm by (unfold MAX_FRAME_LEN; lia).
  unfold write_hdr, write_le16, mbind, st_bind. rewrite frame_of_nil.
  do 6 (rewrite write_frame by (rewrite ?length_app, ?length_le_encode; simpl; lia)). cbn [app].
  unfold hdr. by rewrite <- !app_assoc.
Qed.

Lemma write16_frame {A} v bs (f : unit → st TxFrame A) : (length bs + 2 ≤ MAX_FRAME_LEN)%nat →
  (write_le16 v ≫= f) (frame_of bs) = f tt (frame_of (bs ++ le_encode 2 v)).
Proof. intros Hl. apply write_frame_bind. by rewrite length_le_encode. Qed.

(** The frames of the handshake. *)
Definition auth_bytes (sa bssid : list Z) (seq : Z) : list Z :=
  hdr 0xB0 bssid sa bssid ++ le_encode 2 0 ++ le_encode 2 seq ++ le_encode 2 0.

Definition assoc_bytes (sa bssid : list Z) (capability : Z) (ssid rates : list Z) : list Z :=
  hdr 0 bssid sa bssid ++ le_encode 2 capability ++ le_encode 2 10 ++ ie_bytes [(eid.SSID, ssid); (eid.SUPPORTED_RATES, rates)].

Lemma build_auth_bytes sa bssid seq : mac_addr sa → mac_addr bssid →
  build_auth_open sa bssid seq = Ret (frame_of (auth_bytes sa bssid seq)).
Proof.
  intros H1 H2. unfold build_auth_open, build. rewrite write_hdr_frame by done. pose proof (length_hdr 0xB0 bssid sa bssid H2 H1 H2) as Hl.
  assert (2346 ≤ MAX_FRAME_LEN)%nat as Hm by (unfold MAX_FRAME_LEN; lia). change (Z.lor fc.FTYPE_MGMT fc.STYPE_AUTH) with 0xB0.
  do 2 (rewrite write16_frame by (rewrite ?length_app, ?length_le_encode, Hl; lia)).
  unfold write_le16. rewrite write_frame by (rewrite ?length_app, ?length_le_encode, Hl; lia).
  unfold auth_bytes. by rewrite <- !app_assoc.
Qed.

Lemma build_assoc_bytes sa bssid capability ssid rates : mac_addr sa → mac_addr bssid → (length ssid ≤ 32)%nat → (length rates ≤ 8)%nat →
  build_assoc_req sa bssid capability 10 ssid rates = Ret (frame_of (assoc_bytes sa bssid capability ssid rates)).
Proof.
  intros H1 H2 Hs Hr. unfold build_assoc_req, build. rewrite write_hdr_frame by done. pose proof (length_hdr 0 bssid sa bssid H2 H1 H2) as Hl.
  assert (2346 ≤ MAX_FRAME_LEN)%nat as Hm by (unfold MAX_FRAME_LEN; lia). change (Z.lor fc.FTYPE_MGMT fc.STYPE_ASSOC_REQ) with 0.
  do 2 (rewrite write16_frame by (rewrite ?length_app, ?length_le_encode, Hl; lia)). unfold mbind, st_bind.
  rewrite write_ie_frame by (rewrite ?length_app, ?length_le_encode, ?Hl; lia).
  assert (∀ id max s, (length s ≤ max)%nat → ie_of id max s = id :: len s :: s) as Hie.
  { intros id max s Hm'. unfold ie_of, ie_bytes. rewrite Nat.min_l, firstn_all by done. cbn [fmap list_fmap mjoin list_join fst snd app].
    by rewrite app_nil_r. }
  rewrite write_ie_frame by (rewrite ?length_app, ?length_le_encode, ?Hl, ?Hie by done; simpl; lia).
  rewrite !Hie by done. unfold assoc_bytes, ie_bytes. cbn [fmap list_fmap mjoin list_join fst snd app].
  rewrite <- !app_assoc. cbn [app]. by rewrite app_nil_r.
Qed.

(** ** nl80211 *)

Lemma blit_exact i src dst : (i + length src ≤ length dst)%nat → length (blit i src dst) = length dst.
Proof. intros Hl. unfold blit. rewrite !length_app, length_take, length_drop. lia. Qed.

(** The commands that [From<u32>] knows come back, with up to 48 bytes. *)
Lemma decode_encode cmd payload : decode_cmd (encode cmd payload) = (cmd_from (cmd_code cmd), take 48 payload).
Proof.
  set (n := Nat.min (length payload) 48).
  assert (data (encode cmd payload) = le_encode 4 (cmd_code cmd) ++ le_encode 4 (Z.of_nat n) ++ take n payload ++ replicate (48 - n) 0) as Hd.
  { unfold encode. cbn [data]. unfold MESSAGE_INLINE_BYTES, NL80211_PAYLOAD_OFFSET, NL80211_LEN_OFFSET, NL80211_CMD_OFFSET.
    change (56 - 8)%nat with 48%nat. fold n. assert (length (take n payload) = n) as Hn by (rewrite length_take; lia).
    unfold blit. rewrite Hn. cbn [le_encode app take drop length Nat.add replicate data Message_empty]. unfold MESSAGE_INLINE_BYTES.
    cbn [le_encode app take drop length Nat.add replicate]. do 9 f_equal. transitivity (drop n (replicate 48 0)); [done|]. apply drop_replicate. }
  assert (n ≤ 48)%nat as Hn48 by lia. unfold decode_cmd. rewrite Hd. unfold slice, NL80211_PAYLOAD_OFFSET, NL80211_LEN_OFFSET, NL80211_CMD_OFFSET.
  rewrite drop_0,  take_app_length' by (by rewrite length_le_encode).
  rewrite drop_app_length' by (by rewrite length_le_encode). rewrite take_app_length' by (by rewrite length_le_encode).
  rewrite !le_decode_encode by (destruct cmd; simpl; lia). rewrite Nat2Z.id. unfold MESSAGE_INLINE_BYTES. change (56 - 8)%nat with 48%nat.
  rewrite (Nat.min_l n) by lia. f_equal. change 8%nat with (4 + 4)%nat. rewrite <- drop_drop, !drop_app_length' by (by rewrite length_le_encode).
  rewrite take_app_length' by (rewrite length_take; lia). unfold n. destruct (decide (length payload ≤ 48)%nat).
  - by rewrite Nat.min_l, !firstn_all2 by lia.
  - by rewrite Nat.min_r by lia.
Qed.

(** ** Scanning *)

(** A beacon or probe response, from its fields. *)
Record beacon := mkBeacon {
  bc_probe : bool; bc_head : list Z; bc_bssid : list Z; bc_seq : list Z; bc_tsf : Z; bc_interval : Z; bc_capability : Z;
  bc_els : list (Z * list Z); bc_tail : list Z
}.

Definition beacon_frame (b : beacon) : list Z :=
  le_encode 2 (if bc_probe b then fc.STYPE_PROBE_RESP else fc.STYPE_BEACON) ++ bc_head b ++ bc_bssid b ++ bc_seq b ++
  le_encode 8 (bc_tsf b) ++ le_encode 2 (bc_interval b) ++ le_encode 2 (bc_capability b) ++ ie_bytes (bc_els b) ++ bc_tail b.

Record beacon_ok (b : beacon) : Prop := {
  bo_head : length (bc_head b) = 14%nat;
  bo_bssid : mac_addr (bc_bssid b);
  bo_seq : length (bc_seq b) = 2%nat;
  bo_tsf : 0 ≤ bc_tsf b < 2^64;
  bo_interval : 0 ≤ bc_interval b < 2^16;
  bo_capability : 0 ≤ bc_capability b < 2^16;
  bo_tail : parse_ie (bc_tail b) = None
}.

(** The name is that of the last SSID element of legal length, the channel that
    of the last DS parameters. *)
Definition ssid_of (e : Z * list Z) : option (list Z) := if (e.1 =? eid.SSID) && (length e.2 <=? 32)%nat then Some e.2 else None.
Definition channel_of (e : Z * list Z) : option Z := if e.1 =? eid.DS_PARAMS then e.2 !! 0%nat else None.

Definition found_name (els : list (Z * list Z)) : list Z := default [] (last (omap ssid_of els)).
Definition found_channel (els : list (Z * list Z)) : option Z := last (omap channel_of els).

Definition network (b : beacon) : Bss :=
  let c := found_channel (bc_els b) in
  mkBss (bc_bssid b) (mkWChannel Ghz2 (match c with Some c => 2407 + c * 5 | None => 2412 end) (default 1 c) 0 20 20)
    (bc_tsf b) (bc_interval b) (bc_capability b) (-7000) (Ssid_new (found_name (bc_els b))) 0.

Lemma last_omap_snoc {A B} (f : A → option B) l x : last (omap f (l ++ [x])) = match f x with Some y => Some y | None => last (omap f l) end.
Proof.
  rewrite omap_app. cbn [omap list_omap]. destruct (f x); [by rewrite last_snoc|by rewrite app_nil_r].
Qed.

Lemma beacon_ies els : foldl beacon_ie (Ssid_new [], None) els = (Ssid_new (found_name els), found_channel els).
Proof.
  induction els as [|[id p] els IH] using rev_ind; [done|]. rewrite foldl_snoc, IH. unfold found_name, found_channel. rewrite !last_omap_snoc.
  unfold beacon_ie, ssid_of, channel_of. cbn [fst snd]. unfold eid.SSID, eid.DS_PARAMS.
  destruct (id =? 0) eqn:H0; [apply Z.eqb_eq in H0; subst id; cbn [Z.eqb andb]; by destruct (length p <=? 32)%nat|].
  cbn [andb]. destruct (id =? 3); [|done]. cbn [andb]. by destruct p.
Qed.

Lemma slice_app i n a b c : length a = i → length b = n → slice i n (a ++ b ++ c) = b.
Proof. intros Ha Hb. unfold slice. rewrite drop_app_length' by done. by rewrite take_app_length'. Qed.

Section machine.
Context {D K : Type} `{Ieee80211Ops D} `{PortWaker K}.
Implicit Types (w : Wifi D K).

Definition with_cache (r : ScanResults) w : Wifi D K := mkWifi (w_mac w) r (w_ports w).

Lemma rx_beacon b w : beacon_ok b → rx_mgmt (beacon_frame b) w = Ret (tt, with_cache (ScanResults_add (network b) (w_cache w)).2 w).
Proof.
  intros [Hh Hb Hs Ht Hi Hc Htl]. unfold mac_addr, ETH_ALEN in Hb.
  assert (36 ≤ length (beacon_frame b))%nat as Hlen.
  { unfold beacon_frame. rewrite !length_app, !length_le_encode. lia. }
  unfold rx_mgmt. rewrite (proj2 (Nat.ltb_ge _ _)) by lia.
  assert (handle_beacon_or_probe (beacon_frame b) w = Ret (tt, with_cache (ScanResults_add (network b) (w_cache w)).2 w)) as Hrx.
  { unfold handle_beacon_or_probe. rewrite (proj2 (Nat.ltb_ge _ _)) by lia. unfold beacon_frame. set (f := le_encode 2 _).
    assert (length f = 2%nat) as Hf by apply length_le_encode.
    rewrite (app_assoc f). set (h := f ++ bc_head b). assert (length h = 16%nat) as Hh' by (unfold h; rewrite length_app; lia).
    rewrite (slice_app 16 6 h (bc_bssid b)) by done. rewrite (app_assoc h), (app_assoc (h ++ _)).
    set (h2 := (h ++ bc_bssid b) ++ bc_seq b). assert (length h2 = 24%nat) as Hh2 by (unfold h2; rewrite !length_app; lia).
    rewrite (slice_app 24 8 h2) by (done || apply length_le_encode). rewrite (app_assoc h2). set (h3 := h2 ++ _).
    assert (length h3 = 32%nat) as Hh3 by (unfold h3; rewrite length_app, length_le_encode; lia).
    rewrite (slice_app 32 2 h3) by (done || apply length_le_encode). rewrite (app_assoc h3). set (h4 := h3 ++ _).
    assert (length h4 = 34%nat) as Hh4 by (unfold h4; rewrite length_app, length_le_encode; lia).
    rewrite (slice_app 34 2 h4) by (done || apply length_le_encode). rewrite (app_assoc h4). set (h5 := h4 ++ _).
    assert (length h5 = 36%nat) as Hh5 by (unfold h5; rewrite length_app, length_le_encode; lia).
    rewrite drop_app_length' by done. rewrite IeIter_bytes, beacon_ies by done.
    rewrite !le_decode_encode by lia. done. }
  assert (le_decode (take 2 (beacon_frame b)) = if bc_probe b then fc.STYPE_PROBE_RESP else fc.STYPE_BEACON) as ->.
  { unfold beacon_frame. rewrite take_app_length' by (by rewrite length_le_encode). apply le_decode_encode.
    destruct (bc_probe b); unfold fc.STYPE_BEACON, fc.STYPE_PROBE_RESP; lia. }
  destruct (bc_probe b); exact Hrx.
Qed.

Record cache_holds (r : ScanResults) (l : list Bss) : Prop := {
  ca_few : (length l ≤ 32)%nat;
  ca_count : sr_count r = len l;
  ca_bss : sr_bss r = (Some <$> l) ++ replicate (32 - length l) None
}.

Lemma cache_add r l b : cache_holds r l → cache_holds (ScanResults_add b r).2 (take 32 (l ++ [b])).
Proof.
  intros [Hf Hc Hb]. unfold ScanResults_add. rewrite Hc, Hb. unfold len. rewrite length_app, length_fmap, length_replicate.
  case_bool.
  - cbn [snd]. assert (length l = 32%nat) as H32 by lia. rewrite take_app_length' by done. by split.
  - cbn [snd]. rewrite firstn_all2 by (rewrite length_app; simpl; lia). split; cbn [sr_count sr_bss].
    + rewrite length_app. simpl. lia.
    + unfold u8, len. rewrite length_app. cbn [length]. rewrite Z.mod_small by lia. lia.
    + rewrite Nat2Z.id, insert_app_r_alt by (rewrite length_fmap; lia). rewrite length_fmap, Nat.sub_diag, length_app. cbn [length].
      replace (32 - length l)%nat with (S (32 - (length l + 1)))%nat by lia. cbn [replicate insert list_insert].
      by rewrite fmap_app, <- app_assoc.
Qed.

Lemma cache_iter r l : cache_holds r l → ScanResults_iter r = l.
Proof.
  intros [Hf Hc Hb]. unfold ScanResults_iter. rewrite Hc, Hb. unfold len. rewrite Nat2Z.id, take_app_length' by (by rewrite length_fmap).
  clear. induction l as [|b l IH]; [done|]. cbn [fmap list_fmap omap list_omap]. f_equal. exact IH.
Qed.

Lemma take_app_take {A} n (a b : list A) : take n (take n a ++ b) = take n (a ++ b).
Proof.
  destruct (decide (length a ≤ n)%nat); [by rewrite (firstn_all2 a)|].
  rewrite !take_app_le by (rewrite ?length_take; lia). by rewrite take_take, Nat.min_id.
Qed.

(** A scan collects the networks that answer: when beacons and probe responses
    with any fields, elements and padding arrive, the results are, in the order
    of arrival, the first 32 networks, each with the fields of its frame, the
    name of its last SSID element and the channel of its last DS parameters; the
    connection, the driver and the ports are untouched, and taking the results
    empties the cache. *)
Theorem scan_collects (bs : list beacon) w :
  Forall beacon_ok bs → w_cache w = ScanResults_new →
  ∃ r, for_each (beacon_frame <$> bs) rx_mgmt w = Ret (tt, with_cache r w) ∧
    ScanResults_iter (take_results r).1 = take 32 (network <$> bs) ∧ (take_results r).2 = ScanResults_new.
Proof.
  intros Hok Hc. assert (∀ l, cache_holds (w_cache w) l → ∃ r, for_each (beacon_frame <$> bs) rx_mgmt w = Ret (tt, with_cache r w) ∧
    cache_holds r (take 32 (l ++ (network <$> bs)))) as Hall.
  { clear Hc. revert w. induction Hok as [|b bs Hb _ IH]; intros w l Hl.
    - exists (w_cache w). cbn [fmap list_fmap for_each]. rewrite app_nil_r, firstn_all2 by apply Hl. by destruct w.
    - cbn [fmap list_fmap for_each]. unfold mbind, st_bind. rewrite rx_beacon by done.
      destruct (IH (with_cache (ScanResults_add (network b) (w_cache w)).2 w) (take 32 (l ++ [network b]))) as (r & Hr & Hh).
      { by apply cache_add. }
      exists r. split; [exact Hr|]. rewrite take_app_take, <- app_assoc in Hh. exact Hh. }
  destruct (Hall []) as (r & Hr & Hh); [rewrite Hc; split; [simpl; lia|done|done]|]. exists r. split_and!; [done| |done]. by apply cache_iter.
Qed.

(** ** The handshake *)

Definition fc_of (f : list Z) : Z := le_decode (take 2 f).

(** A management frame of a subtype. *)
Definition mgmt (sub : Z) (f : list Z) : Prop := (2 ≤ length f)%nat ∧ is_mgmt (fc_of f) = true ∧ frame_subtype (fc_of f) = sub.

(** A positive answer to the authentication, and to the association. *)
Definition auth_ok (f : list Z) : Prop :=
  mgmt fc.STYPE_AUTH f ∧ (30 ≤ length f)%nat ∧ le_decode (slice 26 2 f) = 2 ∧ le_decode (slice 28 2 f) = 0.
Definition assoc_ok (f : list Z) : Prop :=
  mgmt fc.STYPE_ASSOC_RESP f ∧ (30 ≤ length f)%nat ∧ le_decode (slice 26 2 f) = 0.

Inductive event :=
  | EvUp | EvScan (req : ScanRequest) | EvScanDone | EvRx (frame : list Z) | EvConnect (bss : Bss) | EvDisconnect (reason : Z).

Definition run_event (e : event) : st (Wifi D K) unit :=
  match e with
  | EvUp => bring_up ≫= λ _, mret tt
  | EvScan req => scan req ≫= λ _, mret tt
  | EvScanDone => scan_done
  | EvRx f => rx_mgmt f
  | EvConnect bss => connect bss ≫= λ _, mret tt
  | EvDisconnect r => disconnect r ≫= λ _, mret tt
  end.

(** Neither a disconnect nor a frame that ends the connection. *)
Definition quiet (e : event) : Prop :=
  match e with
  | EvDisconnect _ => False
  | EvRx f => ¬ mgmt fc.STYPE_DEAUTH f ∧ ¬ mgmt fc.STYPE_DISASSOC f
  | _ => True
  end.

(** How far the events have brought the connection to a network. *)
Inductive progress (bss : Bss) : StaConnState → list event → Prop :=
  | pg_connect es : progress bss Authenticating (es ++ [EvConnect bss])
  | pg_auth es f : progress bss Authenticating es → auth_ok f → progress bss Associating (es ++ [EvRx f])
  | pg_assoc es f : progress bss Associating es → assoc_ok f → progress bss Associated (es ++ [EvRx f])
  | pg_quiet x es e : progress bss x es → quiet e → progress bss x (es ++ [e]).

Definition shaken (es : list event) w : Prop :=
  match m_state (w_mac w) with
  | Disconnected | Scanning => True
  | DisconnectRequested => False
  | x => ∃ bss, m_bss (w_mac w) = Some bss ∧ progress bss x es
  end.

Lemma shaken_same es e w w' : shaken es w → quiet e → m_state (w_mac w') = m_state (w_mac w) → m_bss (w_mac w') = m_bss (w_mac w) →
  shaken (es ++ [e]) w'.
Proof.
  unfold shaken. intros Hw Hq -> ->. destruct (m_state (w_mac w)); try done; destruct Hw as (bss & Hb & Hp); exists bss; split; [done|by constructor|done|by constructor|done|by constructor].
Qed.

Lemma shaken_auth es f w w' : shaken es w → mgmt fc.STYPE_AUTH f → handle_auth f w = Ret (tt, w') → shaken (es ++ [EvRx f]) w'.
Proof.
  intros Hw Hm Hrun. assert (quiet (EvRx f)) as Hq by (split; intros (_ & _ & Hs); destruct Hm as (_ & _ & Hm); rewrite Hm in Hs; done).
  unfold handle_auth, st_get, mbind, st_bind in Hrun. unfold mret, st_ret in Hrun.
  case_bool; [injection Hrun as <-; by apply (shaken_same es _ w)|].
  do 2 (case_bool; [injection Hrun as <-; by apply (shaken_same es _ w)|]). case_bool.
  { unfold scan_done, st_modify, on_mac in Hrun. injection Hrun as <-. apply (shaken_same es _ w); [done|done|..]; cbn [w_mac]; by rewrite bool_decide_false by congruence. }
  destruct (m_bss (w_mac w)) as [bss|] eqn:Hb; [|injection Hrun as <-; by apply (shaken_same es _ w)].
  destruct (as_bytes (bs_ssid bss)); [|done]. unfold st_modify in Hrun.
  destruct (build_assoc_req _ _ _ _ _ _); [|done]. unfold tx_built, driver_tx, st_modify in Hrun. simplify_eq/=.
  unfold shaken in *. cbn. rewrite Heqb in Hw. destruct Hw as (bss' & Hb' & Hp). exists bss'. split; [done|].
  constructor; [done|]. by split_and!.
Qed.

Lemma shaken_assoc es f w w' : shaken es w → mgmt fc.STYPE_ASSOC_RESP f → handle_assoc_resp f w = Ret (tt, w') → shaken (es ++ [EvRx f]) w'.
Proof.
  intros Hw Hm Hrun. assert (quiet (EvRx f)) as Hq by (split; intros (_ & _ & Hs); destruct Hm as (_ & _ & Hm); rewrite Hm in Hs; done).
  unfold handle_assoc_resp, st_get, mbind, st_bind in Hrun. unfold mret, st_ret in Hrun.
  do 2 (case_bool; [injection Hrun as <-; by apply (shaken_same es _ w)|]). case_bool; [by injection Hrun as <-|].
  unfold notify_associated, st_modify in Hrun. injection Hrun as <-.
  assert (∀ w1, w_mac w1 = set_state Associated (w_mac w) → shaken (es ++ [EvRx f]) w1) as Hdone.
  { intros w1 Hw1. unfold shaken in *. rewrite Hw1. rewrite Heqb in Hw. destruct Hw as (bss & Hb & Hp). exists bss. split; [done|].
    constructor; [done|]. by split_and!. }
  apply Hdone. by destruct (m_port _).
Qed.

Lemma shaken_rx es f w w' : shaken es w → rx_mgmt f w = Ret (tt, w') → shaken (es ++ [EvRx f]) w'.
Proof.
  intros Hw Hrun. unfold rx_mgmt in Hrun. fold (fc_of f) in Hrun. unfold mret, st_ret in Hrun.
  case_bool; [injection Hrun as <-; apply (shaken_same es _ w); [done|split; intros [Hl _]; lia|done..]|].
  destruct (is_mgmt (fc_of f)) eqn:Hmg; cbn [negb] in Hrun; [|injection Hrun as <-; apply (shaken_same es _ w); [done|split; intros (_ & Hm & _); congruence|done..]].
  assert (∀ x, frame_subtype (fc_of f) = x → x ≠ fc.STYPE_DEAUTH → x ≠ fc.STYPE_DISASSOC → quiet (EvRx f)) as Hq.
  { intros x Hx H1 H2. split; intros (_ & _ & Hs); congruence. }
  case_bool.
  { unfold handle_beacon_or_probe, mret, st_ret in Hrun. assert (quiet (EvRx f)) as Hqq by (apply orb_true_iff in Heqb0 as [Hs%Z.eqb_eq|Hs%Z.eqb_eq]; by apply (Hq _ Hs)).
    case_bool; [injection Hrun as <-; by apply (shaken_same es _ w)|]. destruct (foldl _ _ _) as [ssid ch].
    unfold st_modify in Hrun. injection Hrun as <-. by apply (shaken_same es _ w). }
  case_bool; [by eapply shaken_auth|]. case_bool; [by eapply shaken_assoc|].
  case_bool; [unfold st_modify in Hrun; by injection Hrun as <-|].
  injection Hrun as <-. apply (shaken_same es _ w); [done| |done..]. split; intros (_ & _ & Hs); rewrite Hs in *; naive_solver.
Qed.

Lemma shaken_step es e w w' : shaken es w → run_event e w = Ret (tt, w') → shaken (es ++ [e]) w'.
Proof.
  intros Hw Hrun. destruct e as [|req| |f|bss|r]; unfold run_event in Hrun.
  - apply (shaken_same es _ w); [done|done|..]; unfold bring_up, on_driver, mbind, st_bind, mret, st_ret in Hrun;
      destruct (start _) as [[[]|] d]; cbn in Hrun; [destruct (add_interface _ _) as [r d']|idtac|destruct (add_interface _ _) as [r d']|idtac];
      by injection Hrun as <-.
  - unfold scan, st_get, on_driver, mbind, st_bind, mret, st_ret in Hrun. case_bool; [injection Hrun as <-; by apply (shaken_same es _ w)|].
    unfold st_modify in Hrun. destruct (hw_scan _ _) as [r d]. by injection Hrun as <-.
  - unfold scan_done, st_modify in Hrun. injection Hrun as <-. unfold on_mac. case_bool; [done|]. by apply (shaken_same es _ w).
  - by eapply shaken_rx.
  - unfold connect, on_driver, mbind, st_bind, mret, st_ret in Hrun. destruct (config _ _) as [[[]|] d].
    + unfold st_modify, st_get in Hrun. destruct (build_auth_open _ _ _); [|done]. unfold tx_built, driver_tx, st_modify in Hrun. injection Hrun as <-.
      exists bss. split; [done|]. constructor.
    + injection Hrun as <-. by apply (shaken_same es _ w).
  - unfold disconnect, st_get, mbind, st_bind, mret, st_ret in Hrun. destruct (m_bss (w_mac w)) as [bss|].
    + unfold st_modify in Hrun. destruct (build_deauth _ _ _); [|done]. unfold tx_built, driver_tx, st_modify in Hrun. by injection Hrun as <-.
    + unfold st_modify in Hrun. by injection Hrun as <-.
Qed.

Lemma shaken_run es : ∀ es0 w w', shaken es0 w → for_each es run_event w = Ret (tt, w') → shaken (es0 ++ es) w'.
Proof.
  induction es as [|e es IH]; intros es0 w w' Hw Hrun; cbn [for_each] in Hrun.
  - unfold mret, st_ret in Hrun. injection Hrun as <-. by rewrite app_nil_r.
  - apply bind_Ret in Hrun as ([] & w1 & He & Hrun). rewrite cons_middle, app_assoc. eapply IH; [|exact Hrun]. by eapply shaken_step.
Qed.

Lemma progress_auth bss es : progress bss Authenticating es → ∃ es1 es2, es = es1 ++ EvConnect bss :: es2 ∧ Forall quiet es2.
Proof.
  intros Hp. remember Authenticating as x eqn:Hx. induction Hp as [es| | |x es e _ IH Hq]; try done.
  - by exists es, [].
  - destruct (IH Hx) as (es1 & es2 & -> & Hf). exists es1, (es2 ++ [e]). split; [by rewrite <- app_assoc|]. by apply Forall_app_2; [|apply Forall_singleton].
Qed.

Lemma progress_assoc bss es : progress bss Associating es →
  ∃ es0 f es3, es = es0 ++ EvRx f :: es3 ∧ progress bss Authenticating es0 ∧ auth_ok f ∧ Forall quiet es3.
Proof.
  intros Hp. remember Associating as x eqn:Hx. induction Hp as [|es f Hp IH Hf| |x es e _ IH Hq]; try done.
  - by exists es, f, [].
  - destruct (IH Hx) as (es0 & f & es3 & -> & Hp & Ha & Hf). exists es0, f, (es3 ++ [e]). split_and!; [by rewrite <- app_assoc|done|done|].
    by apply Forall_app_2; [|apply Forall_singleton].
Qed.

Lemma progress_done bss es : progress bss Associated es →
  ∃ es0 f es4, es = es0 ++ EvRx f :: es4 ∧ progress bss Associating es0 ∧ assoc_ok f ∧ Forall quiet es4.
Proof.
  intros Hp. remember Associated as x eqn:Hx. induction Hp as [| |es f Hp IH Hf|x es e _ IH Hq]; try done.
  - by exists es, f, [].
  - destruct (IH Hx) as (es0 & f & es4 & -> & Hp & Ha & Hf). exists es0, f, (es4 ++ [e]). split_and!; [by rewrite <- app_assoc|done|done|].
    by apply Forall_app_2; [|apply Forall_singleton].
Qed.

(** C13: No way around the handshake: over any driver and after any sequence of
    calls and received frames, a machine that says it is associated has been
    asked to connect to its network, has then received a positive answer to the
    authentication and after that one to the association, and since then neither
    a disconnect nor a frame that ends the connection. *)
Theorem handshake_required es hw (d : D) addr cache (ports : PortTable * K) w' :
  for_each es run_event (mkWifi (Mac80211_new hw d addr) cache ports) = Ret (tt, w') → m_state (w_mac w') = Associated →
  ∃ bss es1 es2 f es3 g es4, es = es1 ++ EvConnect bss :: es2 ++ EvRx f :: es3 ++ EvRx g :: es4 ∧
    m_bss (w_mac w') = Some bss ∧ auth_ok f ∧ assoc_ok g ∧ Forall quiet (es2 ++ es3 ++ es4).
Proof.
  intros Hrun Hs. apply (shaken_run es []) in Hrun; [|done]. unfold shaken in Hrun. rewrite Hs in Hrun. destruct Hrun as (bss & Hb & Hp).
  apply progress_done in Hp as (es' & g & es4 & Hes & (es'' & f & es3 & -> & (es1 & es2 & -> & H2)%progress_auth & Hf & H3)%progress_assoc & Hg & H4).
  exists bss, es1, es2, f, es3, g, es4. split_and!; [|done..|by repeat apply Forall_app_2]. cbn [app] in Hes. rewrite Hes.
  repeat (rewrite <- app_assoc; cbn [app]). done.
Qed.

Lemma as_bytes_new s : (length s ≤ 32)%nat → as_bytes (Ssid_new s) = Ret s.
Proof.
  intros Hl. unfold as_bytes, Ssid_new, IEEE80211_MAX_SSID_LEN. rewrite Nat.min_l, firstn_all by done. cbn [ss_len ss_ssid].
  unfold len. rewrite blit_exact by (rewrite length_replicate; lia). rewrite length_replicate. rewrite (proj2 (Z.leb_le _ _)) by lia.
  rewrite Nat2Z.id. unfold blit. rewrite take_0. cbn [app]. by rewrite take_app_length.
Qed.

Lemma rx_auth f w : mgmt fc.STYPE_AUTH f → rx_mgmt f w = handle_auth f w.
Proof.
  intros (Hl & Hm & Hs). unfold rx_mgmt. fold (fc_of f). rewrite (proj2 (Nat.ltb_ge _ _)) by lia. rewrite Hm, Hs. done.
Qed.

Lemma rx_assoc f w : mgmt fc.STYPE_ASSOC_RESP f → rx_mgmt f w = handle_assoc_resp f w.
Proof.
  intros (Hl & Hm & Hs). unfold rx_mgmt. fold (fc_of f). rewrite (proj2 (Nat.ltb_ge _ _)) by lia. rewrite Hm, Hs. done.
Qed.

(** What the listener of the port is told. *)
Definition associated_msg (g : list Z) : Message :=
  encode Connect (slice 16 6 g ++ le_encode 2 (Z.land (le_decode (slice 28 2 g)) 0x3FFF)).

Lemma notify_payload bssid aid : mac_addr bssid →
  blit ETH_ALEN (le_encode 2 aid) (blit 0 bssid (replicate (ETH_ALEN + 2) 0)) = bssid ++ le_encode 2 aid.
Proof.
  unfold mac_addr, ETH_ALEN. intros Hb. unfold blit. rewrite take_0, Nat.add_0_l, Hb. cbn [app]. rewrite take_app_length' by done.
  rewrite drop_ge, app_nil_r; [done|]. rewrite length_app, length_drop, length_replicate, length_le_encode. lia.
Qed.

(** C14: The way through the handshake: asked to connect to a network by a driver
    that takes the channel, and answered positively twice, the machine is
    associated with that network; it has sent exactly two frames, the open-system
    authentication and then the association request with the capabilities, whose
    elements are the name of the network and the rates; and the listener has been
    sent a message that decodes to the address and the number of the answer. *)
Theorem wifi_connects w bss name d f g p :
  mac_addr (m_addr (w_mac w)) → mac_addr (bs_bssid bss) → bs_ssid bss = Ssid_new name → (length name ≤ 32)%nat →
  config (bs_channel bss) (m_driver (w_mac w)) = (Ok tt, d) → m_port (w_mac w) = Some p → auth_ok f → assoc_ok g →
  let F1 := frame_of (auth_bytes (m_addr (w_mac w)) (bs_bssid bss) 1) in
  let F2 := frame_of (assoc_bytes (m_addr (w_mac w)) (bs_bssid bss) (bs_capability bss) name basic_rates) in
  for_each [EvConnect bss; EvRx f; EvRx g] run_event w =
    Ret (tt, mkWifi (mkMac (m_hw (w_mac w)) (tx F2 (tx F1 d)) Associated (Some bss) (m_addr (w_mac w)) (Some p))
      (w_cache w) (send p (associated_msg g) (w_ports w)).2) ∧
  IeIter (drop 28 (frame_bytes F2)) = [(eid.SSID, name); (eid.SUPPORTED_RATES, basic_rates)] ∧
  decode_cmd (associated_msg g) = (Connect, slice 16 6 g ++ le_encode 2 (Z.land (le_decode (slice 28 2 g)) 0x3FFF)).
Proof.
  intros Ha Hb Hn Hnl Hcfg Hp Hf Hg F1 F2. pose proof Hf as (_ & Hf30 & Hseq & Hst). pose proof Hg as (_ & Hg30 & Hgst).
  assert (mac_addr (slice 16 6 g)) as Hgb by (unfold mac_addr, slice, ETH_ALEN; rewrite length_take, length_drop; lia).
  split_and!.
  - cbn [for_each run_event]. unfold mbind, st_bind, connect, on_driver, mbind, st_bind. rewrite Hcfg. unfold st_modify, st_get, on_mac.
    cbn [w_mac set_driver set_bss set_state m_addr m_driver m_state m_bss m_port m_hw]. rewrite build_auth_bytes by done.
    unfold tx_built, driver_tx, st_modify, on_mac, mret, st_ret. cbn [w_mac set_driver set_bss set_state m_addr m_driver m_state m_bss m_port m_hw].
    rewrite rx_auth by apply Hf. unfold handle_auth, st_get, mbind, st_bind. cbn [w_mac set_driver set_bss set_state m_addr m_driver m_state m_bss m_port m_hw]. rewrite bool_decide_true by done.
    rewrite (proj2 (Nat.ltb_ge _ _)) by lia. rewrite Hseq, Hst. cbn [negb Z.eqb Pos.eqb]. rewrite Hn, as_bytes_new by done.
    rewrite build_assoc_bytes by (done || (simpl; lia)). unfold st_modify, tx_built, driver_tx, st_modify, on_mac.
    rewrite rx_assoc by apply Hg. unfold handle_assoc_resp, st_get, mbind, st_bind.
    cbn [w_mac set_driver set_bss set_state m_addr m_driver m_state m_bss m_port m_hw]. rewrite bool_decide_true by done.
    rewrite (proj2 (Nat.ltb_ge _ _)) by lia. rewrite Hgst. cbn [negb Z.eqb]. unfold notify_associated, st_modify, on_mac.
    cbn [w_mac set_driver set_bss set_state m_addr m_driver m_state m_bss m_port m_hw w_cache w_ports]. rewrite Hp, notify_payload by done.
    unfold set_state, set_driver, set_bss. cbn [w_mac m_addr m_driver m_state m_bss m_port m_hw]. by rewrite Hp.
  - unfold F2. rewrite frame_bytes_of. unfold assoc_bytes. rewrite app_assoc, app_assoc, drop_app_length'.
    + by rewrite <- (app_nil_r (ie_bytes _)), IeIter_bytes.
    + rewrite !length_app, !length_le_encode, length_hdr by done. done.
  - unfold associated_msg. rewrite decode_encode. f_equal. apply firstn_all2. rewrite length_app, length_le_encode.
    unfold mac_addr, ETH_ALEN in Hgb. lia.
Qed.
End machine.

(** ** Stations *)

Definition valid_addr (a : list Z) : Prop := length a = ETH_ALEN ∧ Forall is_byte a.

Lemma hash_lt a : valid_addr a → (hash a < STA_HASH_SIZE)%nat.
Proof.
  intros [Hl Hb]. unfold hash, STA_HASH_SIZE, ETH_ALEN in *. destruct (lookup_lt_is_Some_2 a 5 ltac:(lia)) as [b Hx].
  rewrite (list_lookup_total_correct _ _ _ Hx). pose proof (Forall_lookup_1 _ _ _ _ Hb Hx) as Hb'. unfold is_byte in Hb'. lia.
Qed.

(** The table holds the stations of a map. *)
Record sta_rel (t : StaTable) (m : gmap (list Z) StaInfo) : Prop := {
  sl_len : length (st_slots t) = STA_HASH_SIZE;
  sl_count : st_count t = Z.of_nat (size m);
  sl_slot : ∀ h s, st_slots t !! h = Some (Some s) → h = hash (sta_addr s) ∧ m !! sta_addr s = Some s;
  sl_map : ∀ a s, m !! a = Some s → sta_addr s = a ∧ valid_addr a ∧ st_slots t !! hash a = Some (Some s)
}.

(** The operations on the table and on the map.  Only the last byte of an address
    chooses the slot, so two stations that share it exclude each other. *)
Inductive sta_op := OInsert (s : StaInfo) | ORemove (a : list Z) | OUpdate (a : list Z) (f : StaInfo → StaInfo) | OGet (a : list Z) | OCount.
Inductive sta_out := OutBool (b : bool) | OutSta (o : option StaInfo) | OutCount (n : Z) | OutUnit.

Definition op_ok (o : sta_op) : Prop :=
  match o with
  | OInsert s => valid_addr (sta_addr s)
  | ORemove a | OGet a => valid_addr a
  | OUpdate a f => valid_addr a ∧ ∀ s, sta_addr (f s) = sta_addr s
  | OCount => True
  end.

Definition sta_run (o : sta_op) (t : StaTable) : sta_out * StaTable :=
  match o with
  | OInsert s => let '(b, t') := sta_insert s t in (OutBool b, t')
  | ORemove a => let '(r, t') := sta_take a t in (OutSta r, t')
  | OUpdate a f => (OutUnit, sta_update a f t)
  | OGet a => (OutSta (sta_at t a), t)
  | OCount => (OutCount (st_count t), t)
  end.

Definition map_run (o : sta_op) (m : gmap (list Z) StaInfo) : sta_out * gmap (list Z) StaInfo :=
  match o with
  | OInsert s =>
      if bool_decide (map_Exists (λ a _, hash a = hash (sta_addr s)) m) then (OutBool false, m)
      else (OutBool true, <[sta_addr s := s]> m)
  | ORemove a => (OutSta (m !! a), delete a m)
  | OUpdate a f => (OutUnit, alter f a m)
  | OGet a => (OutSta (m !! a), m)
  | OCount => (OutCount (Z.of_nat (size m)), m)
  end.

Section stations.
Context (t : StaTable) (m : gmap (list Z) StaInfo) (Hr : sta_rel t m).

Lemma sta_at_map a : valid_addr a → sta_at t a = m !! a.
Proof.
  intros Ha. destruct Hr as [_ _ Hs Hm]. unfold sta_at. destruct (st_slots t !! hash a) as [[s|]|] eqn:Hsl.
  - destruct (Hs _ _ Hsl) as [_ Hms]. case_bool_decide as Hd; [by rewrite <- Hd|]. destruct (m !! a) as [s'|] eqn:Hma; [|done].
    destruct (Hm _ _ Hma) as (Hd' & _ & Hsl'). simplify_eq.
  - destruct (m !! a) as [s'|] eqn:Hma; [|done]. destruct (Hm _ _ Hma) as (_ & _ & Hsl'). simplify_eq.
  - destruct (m !! a) as [s'|] eqn:Hma; [|done]. destruct (Hm _ _ Hma) as (_ & _ & Hsl'). simplify_eq.
Qed.

Lemma insert_rel s : valid_addr (sta_addr s) → ¬ map_Exists (λ a _, hash a = hash (sta_addr s)) m →
  st_slots t !! hash (sta_addr s) = Some None ∧
  sta_rel (mkStaTable (<[hash (sta_addr s) := Some s]> (st_slots t)) (st_count t + 1)) (<[sta_addr s := s]> m).
Proof.
  intros Hv Hne. destruct Hr as [Hl Hc Hs Hm]. pose proof (hash_lt _ Hv) as Hh.
  assert (∀ a x, m !! a = Some x → hash a ≠ hash (sta_addr s)) as Hno by (intros a x Ha He; apply Hne; by exists a, x).
  assert (st_slots t !! hash (sta_addr s) = Some None) as Hfree.
  { destruct (lookup_lt_is_Some_2 (st_slots t) (hash (sta_addr s)) ltac:(lia)) as [[x|] Hx]; [|done].
    destruct (Hs _ _ Hx) as [Hhx Hmx]. by destruct (Hno _ _ Hmx). }
  assert (m !! sta_addr s = None) as Hnew by (destruct (m !! sta_addr s) as [x|] eqn:Hx; [by destruct (Hno _ _ Hx)|done]).
  split; [done|]. split; cbn [st_slots st_count].
  - by rewrite length_insert.
  - rewrite map_size_insert_None by done. lia.
  - intros h x Hx. apply insert_lookup_cases in Hx as [(<- & Hx & _)|[Hne' Hx]]; [injection Hx as <-; by rewrite lookup_insert_eq|].
    destruct (Hs _ _ Hx) as [-> Hmx]. rewrite lookup_insert_ne; [done|]. congruence.
  - intros a x Hx. apply lookup_insert_Some in Hx as [[<- <-]|[Hna Hx]].
    + split_and!; [done..|]. apply list_lookup_insert_eq. lia.
    + destruct (Hm _ _ Hx) as (He & Hva & Hsl). split_and!; [done..|]. rewrite list_lookup_insert_ne; [done|]. intros He'. by destruct (Hno _ _ Hx).
Qed.

Lemma remove_rel a s : m !! a = Some s → sta_rel (mkStaTable (<[hash a := None]> (st_slots t)) (st_count t - 1)) (delete a m).
Proof.
  intros Ha. destruct Hr as [Hl Hc Hs Hm]. destruct (Hm _ _ Ha) as (Hsa & Hva & Hsl). split; cbn [st_slots st_count].
  - by rewrite length_insert.
  - rewrite map_size_delete_Some by done. rewrite Hc. assert (size m ≠ 0%nat) by (intros H0; apply map_size_empty_inv in H0; set_solver). lia.
  - intros h x Hx. apply insert_lookup_cases in Hx as [(_ & Hx & _)|[Hne Hx]]; [done|]. destruct (Hs _ _ Hx) as [-> Hmx]. split; [done|].
    rewrite lookup_delete_ne; [done|]. congruence.
  - intros b x Hx. apply lookup_delete_Some in Hx as [Hne Hx]. destruct (Hm _ _ Hx) as (Hxb & Hvb & Hslb). split_and!; [done..|].
    rewrite list_lookup_insert_ne; [done|]. intros He. rewrite He in Hsl. congruence.
Qed.

Lemma update_rel a f s : m !! a = Some s → sta_addr (f s) = sta_addr s →
  sta_rel (mkStaTable (<[hash a := Some (f s)]> (st_slots t)) (st_count t)) (alter f a m).
Proof.
  intros Ha Hf. destruct Hr as [Hl Hc Hs Hm]. destruct (Hm _ _ Ha) as (Hsa & Hva & Hsl).
  assert (alter f a m = <[a := f s]> m) as -> by (apply map_eq; intros b; destruct (decide (b = a)) as [->|];
    [by rewrite lookup_alter_eq, lookup_insert_eq, Ha|by rewrite lookup_alter_ne, lookup_insert_ne]).
  pose proof (hash_lt _ Hva) as Hh. split; cbn [st_slots st_count].
  - by rewrite length_insert.
  - by rewrite map_size_insert_Some.
  - intros h x Hx. apply insert_lookup_cases in Hx as [(<- & Hx & _)|[Hne Hx]].
    + injection Hx as <-. rewrite Hf, Hsa. by rewrite lookup_insert_eq.
    + destruct (Hs _ _ Hx) as [-> Hmx]. rewrite lookup_insert_ne; [done|]. congruence.
  - intros b x Hx. apply lookup_insert_Some in Hx as [[<- <-]|[Hna Hx]].
    + split_and!; [congruence|done|]. apply list_lookup_insert_eq. lia.
    + destruct (Hm _ _ Hx) as (Hxb & Hvb & Hslb). split_and!; [done..|]. rewrite list_lookup_insert_ne; [done|]. intros He. rewrite He in Hsl. congruence.
Qed.

Lemma sta_step o : op_ok o → (sta_run o t).1 = (map_run o m).1 ∧ sta_rel (sta_run o t).2 (map_run o m).2.
Proof.
  intros Ho. destruct o as [s|a|a f|a|]; cbn [sta_run map_run op_ok] in *.
  - case_bool_decide as He.
    + destruct He as (a & x & Hx & Hh). destruct (sl_map _ _ Hr _ _ Hx) as (_ & _ & Hsl). unfold sta_insert. rewrite <- Hh, Hsl. done.
    + destruct (insert_rel s Ho He) as [Hf Hrel]. unfold sta_insert. by rewrite Hf.
  - unfold sta_take. rewrite sta_at_map by done. destruct (m !! a) as [s|] eqn:Ha; [split; [done|by eapply remove_rel]|].
    split; [done|]. cbn [snd]. by rewrite delete_id.
  - destruct Ho as [Hv Hf]. unfold sta_update. rewrite sta_at_map by done. split; [done|]. cbn [snd].
    destruct (m !! a) as [s|] eqn:Ha; [by apply update_rel|].
    assert (alter f a m = m) as ->; [|done]. apply map_eq. intros b. destruct (decide (b = a)) as [->|]; [by rewrite lookup_alter_eq, Ha|by rewrite lookup_alter_ne].
  - by rewrite sta_at_map.
  - by rewrite (sl_count _ _ Hr).
Qed.
End stations.

(** The answers over a history. *)
Fixpoint sta_history (os : list sta_op) (t : StaTable) : list sta_out :=
  match os with [] => [] | o :: os' => (sta_run o t).1 :: sta_history os' (sta_run o t).2 end.
Fixpoint map_history (os : list sta_op) (m : gmap (list Z) StaInfo) : list sta_out :=
  match os with [] => [] | o :: os' => (map_run o m).1 :: map_history os' (map_run o m).2 end.

(** C15: The station table implements a map from addresses to stations in which an
    insertion fails exactly when a station with the same last address byte is
    present: for every history of insertions, removals, changes in place and
    lookups of 6-byte addresses, all answers, the count included, agree. *)
Theorem sta_table_refines_map os : Forall op_ok os → sta_history os StaTable_new = map_history os ∅.
Proof.
  assert (sta_rel StaTable_new ∅) as Hinit.
  { split; [done|done| |done]. intros h s Hh. apply lookup_replicate_Some in Hh. naive_solver. }
  intros Hos. revert Hinit. generalize StaTable_new, (∅ : gmap (list Z) StaInfo). induction Hos as [|o os Ho _ IH]; intros t m Hr; [done|].
  cbn [sta_history map_history]. destruct (sta_step t m Hr o Ho) as [He Hr']. by rewrite He, (IH _ _ Hr').
Qed.

Definition sta_demo : list sta_op :=
  [OInsert (StaInfo_new [2; 0; 0; 0; 0; 7]); OInsert (StaInfo_new [4; 0; 0; 0; 0; 7]); OGet [2; 0; 0; 0; 0; 7];
   ORemove [2; 0; 0; 0; 0; 7]; OInsert (StaInfo_new [4; 0; 0; 0; 0; 7]); OCount].

Lemma sta_table_refines_map_witness : sta_history sta_demo StaTable_new = map_history sta_demo ∅ ∧
  map_history sta_demo ∅ = [OutBool true; OutBool false; OutSta (Some (StaInfo_new [2; 0; 0; 0; 0; 7]));
    OutSta (Some (StaInfo_new [2; 0; 0; 0; 0; 7])); OutBool true; OutCount 1].
Proof.
  split; [|vm_compute; reflexivity]. apply sta_table_refines_map.
  repeat (apply Forall_cons; split; [repeat split; try (repeat (apply Forall_cons; split; [unfold is_byte; lia|]); apply Forall_nil_2)|]).
  apply Forall_nil_2.
Defined.

(** ** What the code does not do *)

Section gaps.
Context {D K : Type} `{Ieee80211Ops D} `{PortWaker K}.
Implicit Types (w : Wifi D K).

(** A rejected authentication leaves the machine waiting for the answer: the
    function that [handle_auth] reuses only ends scans. *)
Lemma rejected_auth_waits f w : mgmt fc.STYPE_AUTH f → (30 ≤ length f)%nat → le_decode (slice 26 2 f) = 2 → le_decode (slice 28 2 f) ≠ 0 →
  m_state (w_mac w) = Authenticating → rx_mgmt f w = Ret (tt, w).
Proof.
  intros Hm H30 Hseq Hst Hw. rewrite rx_auth by done. unfold handle_auth, st_get, mbind, st_bind. rewrite Hw, bool_decide_true by done.
  cbn [negb]. rewrite (proj2 (Nat.ltb_ge _ _)), Hseq by lia. rewrite (proj2 (Z.eqb_neq _ _) Hst). cbn [negb Z.eqb Pos.eqb].
  unfold scan_done, st_modify, on_mac. rewrite Hw.
  rewrite bool_decide_false by done. by destruct w.
Qed.

(** A scan that the driver refuses leaves the machine scanning, and every further
    scan is refused as busy. *)
Lemma refused_scan_stays req req' w e d : m_state (w_mac w) = Disconnected → hw_scan req (m_driver (w_mac w)) = (Err e, d) →
  ∃ w', scan req w = Ret (Err e, w') ∧ scan req' w' = Ret (Err (-16), w').
Proof.
  intros Hw Hd. unfold scan, st_get, mbind, st_bind, on_driver. rewrite Hw. rewrite bool_decide_true by done. unfold st_modify, on_mac.
  cbn [negb w_mac set_state m_driver]. rewrite Hd. eexists. split; reflexivity.
Qed.

(** Any sender ends the connection: the addresses of the frame are not compared
    with the network. *)
Lemma anyone_ends_connection f w : mgmt fc.STYPE_DEAUTH f →
  rx_mgmt f w = Ret (tt, on_mac (λ m, set_bss None (set_state Disconnected m)) w).
Proof.
  intros (Hl & Hm & Hs). unfold rx_mgmt. fold (fc_of f). rewrite (proj2 (Nat.ltb_ge _ _)) by lia. by rewrite Hm, Hs.
Qed.
End gaps.

(** A name of 32 bytes does not fit into the scan request of 34. *)
Lemma scan_request_overflows s : (32 ≤ length s)%nat → encode_scan_req (Some s) = Panic.
Proof. intros Hl. unfold encode_scan_req. by rewrite Nat.min_r. Qed.

(** The frequency that a beacon on channel 14 gets is not that of the channel. *)
Lemma channel_14_misplaced b : found_channel (bc_els b) = Some 14 → ch_freq (bs_channel (network b)) ≠ chan_to_freq_2ghz 14.
Proof. intros Hc. unfold network. by rewrite Hc. Qed.

(** ** A run *)

#[local] Instance wifi_log_waker : PortWaker (list Z) := λ port log, log ++ [port].

Definition ap_addr : list Z := [2; 0; 0; 0; 0; 1].
Definition ap_beacon : beacon := mkBeacon false (replicate 14 0) ap_addr [0; 0] 7 100 1 [(0, [99; 121]); (3, [6])] [0].
Definition wifi_demo : Wifi VirtioWifi (list Z) :=
  mkWifi (set_nl80211_port 5 create) ScanResults_new (PortTable_new, []).
Definition auth_answer : list Z := hdr 0xB0 VIRTIO_WIFI_ADDR ap_addr ap_addr ++ [0; 0; 2; 0; 0; 0].
Definition assoc_answer : list Z := hdr 0x10 VIRTIO_WIFI_ADDR ap_addr ap_addr ++ [1; 0; 0; 0; 1; 0xC0].

Lemma auth_answer_ok : auth_ok auth_answer.
Proof. unfold auth_ok, mgmt. split_and!; vm_compute; (reflexivity || lia). Qed.

Lemma assoc_answer_ok : assoc_ok assoc_answer.
Proof. unfold assoc_ok, mgmt. split_and!; vm_compute; (reflexivity || lia). Qed.

Lemma scan_collects_witness : ∃ r,
  for_each (beacon_frame <$> [ap_beacon; ap_beacon]) rx_mgmt wifi_demo = Ret (tt, with_cache r wifi_demo) ∧
  ScanResults_iter (take_results r).1 = take 32 (network <$> [ap_beacon; ap_beacon]) ∧ (take_results r).2 = ScanResults_new.
Proof.
  apply (scan_collects [ap_beacon; ap_beacon] wifi_demo); [|reflexivity].
  repeat (apply Forall_cons; split; [split; try reflexivity; simpl; lia|]). apply Forall_nil_2.
Defined.

Lemma wifi_connects_witness :
  let F1 := frame_of (auth_bytes VIRTIO_WIFI_ADDR ap_addr 1) in
  let F2 := frame_of (assoc_bytes VIRTIO_WIFI_ADDR ap_addr 1 [99; 121] basic_rates) in
  for_each [EvConnect (network ap_beacon); EvRx auth_answer; EvRx assoc_answer] run_event wifi_demo =
    Ret (tt, mkWifi (mkMac Ieee80211Hw_default (tx F2 (tx F1 (virtio_config (bs_channel (network ap_beacon)) VirtioWifi_new).2)) Associated
      (Some (network ap_beacon)) VIRTIO_WIFI_ADDR (Some 5)) ScanResults_new (send 5 (associated_msg assoc_answer) (PortTable_new, [])).2) ∧
  IeIter (drop 28 (frame_bytes F2)) = [(eid.SSID, [99; 121]); (eid.SUPPORTED_RATES, basic_rates)] ∧
  decode_cmd (associated_msg assoc_answer) =
    (Connect, slice 16 6 assoc_answer ++ le_encode 2 (Z.land (le_decode (slice 28 2 assoc_answer)) 0x3FFF)).
Proof.
  apply (wifi_connects wifi_demo (network ap_beacon) [99; 121] _ auth_answer assoc_answer 5); try reflexivity; [simpl; lia|exact auth_answer_ok|exact assoc_answer_ok].
Defined.

Definition wifi_events : list event :=
  [EvUp; EvConnect (network ap_beacon); EvScanDone; EvRx auth_answer; EvRx (beacon_frame ap_beacon); EvRx assoc_answer].

Lemma handshake_required_witness :
  match for_each wifi_events run_event (mkWifi create ScanResults_new (PortTable_new, [])) with
  | Ret (_, w') => m_state (w_mac w') = Associated ∧
      ∃ bss es1 es2 f es3 g es4, wifi_events = es1 ++ EvConnect bss :: es2 ++ EvRx f :: es3 ++ EvRx g :: es4 ∧
        m_bss (w_mac w') = Some bss ∧ auth_ok f ∧ assoc_ok g ∧ Forall quiet (es2 ++ es3 ++ es4)
  | Panic => False
  end.
Proof.
  assert (match for_each wifi_events run_event (mkWifi create ScanResults_new (PortTable_new, [])) with
          | Ret (_, w') => m_state (w_mac w') | Panic => Disconnected end = Associated) as Hs by (vm_compute; reflexivity).
  destruct (for_each wifi_events run_event _) as [[[] w']|] eqn:Hrun; [|discriminate Hs]. split; [exact Hs|].
  exact (handshake_required wifi_events _ _ _ _ _ w' Hrun Hs).
Defined.
