(* ===== verification/LibcMem.v ===== *)
(** * Copying, filling and comparing memory (src/userland/libc/src/mem.rs, src/kernel/src/mem.rs)

    The byte loops of the user library and of the kernel.  A loop that writes
    reads the memory it has written so far, so overlapping regions behave as in
    the code; the theorem compares them with the simultaneous copy [mem_copy]. *)

From stdpp Require Import base list option numbers.
From Stdlib Require Import ZArith Lia.
From S2P Require Import Prelude Words Buddy Memory.

Local Open Scope Z_scope.

Definition put_byte (a b : Z) (m : mem) : mem := λ x, if x =? a then b else m x.

(** ** The user library *)

Module Libc.

(** [for i in 0..n { *dst.add(i) = *src.add(i) }], [n] rounds from [i] on. *)
Fixpoint copy_up (i : Z) (n : nat) (dst src : Z) (m : mem) : mem :=
  match n with
  | O => m
  | S n' => copy_up (i + 1) n' dst src (put_byte (dst + i) (m (src + i)) m)
  end.

(** [for i in (0..n).rev()] *)
Fixpoint copy_down (n : nat) (dst src : Z) (m : mem) : mem :=
  match n with
  | O => m
  | S i => copy_down i dst src (put_byte (dst + Z.of_nat i) (m (src + Z.of_nat i)) m)
  end.

Definition memcpy (dst src n : Z) (m : mem) : mem := copy_up 0 (Z.to_nat n) dst src m.

Definition memmove (dst src n : Z) (m : mem) : mem :=
  if (dst <=? src) || (wadd src n <=? dst) then memcpy dst src n m
  else copy_down (Z.to_nat n) dst src m.

Fixpoint set_loop (i : Z) (n : nat) (s c : Z) (m : mem) : mem :=
  match n with O => m | S n' => set_loop (i + 1) n' s c (put_byte (s + i) (u8 c) m) end.

Definition memset (s c n : Z) (m : mem) : mem := set_loop 0 (Z.to_nat n) s c m.

Fixpoint cmp_loop (i : Z) (n : nat) (a b : Z) (m : mem) : Z :=
  match n with
  | O => 0
  | S n' => let d := m (a + i) - m (b + i) in if negb (d =? 0) then d else cmp_loop (i + 1) n' a b m
  end.

Definition memcmp (a b n : Z) (m : mem) : Z := cmp_loop 0 (Z.to_nat n) a b m.

Fixpoint chr_loop (i : Z) (n : nat) (s c : Z) (m : mem) : Z :=
  match n with
  | O => 0
  | S n' => if m (s + i) =? u8 c then s + i else chr_loop (i + 1) n' s c m
  end.

(** 0 is the null pointer. *)
Definition memchr (s c n : Z) (m : mem) : Z := chr_loop 0 (Z.to_nat n) s c m.
End Libc.

(** ** The kernel *)

Module Kernel.

Fixpoint memset_loop (count : nat) (ptr val : Z) (m : mem) : mem :=
  match count with O => m | S n => memset_loop n (ptr + 1) val (put_byte ptr val m) end.

Definition memset (dest val count : Z) (m : mem) : mem := memset_loop (Z.to_nat count) dest (u8 val) m.

Fixpoint memcpy_loop (count : nat) (dst_ptr src_ptr : Z) (m : mem) : mem :=
  match count with
  | O => m
  | S n => memcpy_loop n (dst_ptr + 1) (src_ptr + 1) (put_byte dst_ptr (m src_ptr) m)
  end.

Definition memcpy (dest src count : Z) (m : mem) : mem := memcpy_loop (Z.to_nat count) dest src m.

(** The pointers stop at the start of their regions. *)
Fixpoint back_loop (count : nat) (dest src dst_ptr src_ptr : Z) (m : mem) : mem :=
  match count with
  | O => m
  | S n =>
      back_loop n dest src (if negb (dst_ptr =? dest) then dst_ptr - 1 else dst_ptr)
        (if negb (src_ptr =? src) then src_ptr - 1 else src_ptr) (put_byte dst_ptr (m src_ptr) m)
  end.

Definition memmove (dest src count : Z) (m : mem) : mem :=
  if dest =? src then m
  else if dest <? src then memcpy dest src count m
  else back_loop (Z.to_nat count) dest src (dest + (count - 1)) (src + (count - 1)) m.

Fixpoint memcmp_loop (count : nat) (ptr1 ptr2 : Z) (m : mem) : Z :=
  match count with
  | O => 0
  | S n =>
      let a := m ptr1 in
      let b := m ptr2 in
      if negb (a =? b) then if a <? b then -1 else 1 else memcmp_loop n (ptr1 + 1) (ptr2 + 1) m
  end.

Definition memcmp (s1 s2 count : Z) (m : mem) : Z := memcmp_loop (Z.to_nat count) s1 s2 m.
End Kernel.

(** ** Copying *)

Lemma put_byte_eq a b m : put_byte a b m a = b.
Proof. unfold put_byte. by rewrite Z.eqb_refl. Qed.

Lemma put_byte_ne a b m x : x ≠ a → put_byte a b m x = m x.
Proof. intros H. unfold put_byte. by rewrite (proj2 (Z.eqb_neq _ _) H). Qed.

(** A forward copy that never reads what it has written. *)
Lemma copy_up_spec n : ∀ i dst src m x, dst ≤ src ∨ src + i + Z.of_nat n ≤ dst + i →
  Libc.copy_up i n dst src m x = mem_copy (src + i) (dst + i) (Z.of_nat n) m x.
Proof.
  induction n as [|n IH]; intros i dst src m x H; cbn [Libc.copy_up].
  - by rewrite mem_copy_out by lia.
  - rewrite IH by lia. destruct (decide (dst + i ≤ x < dst + i + Z.of_nat (S n))) as [Hx|Hx].
    + rewrite (mem_copy_in (src + i)) by done. destruct (decide (x = dst + i)) as [->|Hne].
      * rewrite mem_copy_out, put_byte_eq by lia. f_equal. lia.
      * rewrite mem_copy_in by lia. replace (src + (i + 1) + (x - (dst + (i + 1)))) with (src + i + (x - (dst + i))) by lia.
        destruct (decide (src + i + (x - (dst + i)) = dst + i)) as [He|He]; [|by apply put_byte_ne].
        exfalso. lia.
    + rewrite !mem_copy_out by lia. apply put_byte_ne. lia.
Qed.

Lemma copy_down_spec n : ∀ dst src m x, src ≤ dst → Libc.copy_down n dst src m x = mem_copy src dst (Z.of_nat n) m x.
Proof.
  induction n as [|n IH]; intros dst src m x H; cbn [Libc.copy_down].
  - by rewrite mem_copy_out by lia.
  - rewrite IH by done. destruct (decide (dst ≤ x < dst + Z.of_nat n)) as [Hx|Hx].
    + rewrite !mem_copy_in by lia. apply put_byte_ne. lia.
    + rewrite mem_copy_out by done. destruct (decide (x = dst + Z.of_nat n)) as [->|Hne].
      * rewrite put_byte_eq, mem_copy_in by lia. f_equal. lia.
      * rewrite put_byte_ne, mem_copy_out by lia. done.
Qed.

Lemma memcpy_loop_up n : ∀ i dst src m, Kernel.memcpy_loop n (dst + i) (src + i) m = Libc.copy_up i n dst src m.
Proof.
  induction n as [|n IH]; intros i dst src m; [done|]. cbn [Kernel.memcpy_loop Libc.copy_up].
  rewrite <- IH. f_equal; lia.
Qed.

Lemma back_loop_down n : ∀ dest src m,
  Kernel.back_loop n dest src (dest + (Z.of_nat n - 1)) (src + (Z.of_nat n - 1)) m = Libc.copy_down n dest src m.
Proof.
  induction n as [|n IH]; intros dest src m; [done|]. cbn [Kernel.back_loop Libc.copy_down].
  replace (Z.of_nat (S n) - 1) with (Z.of_nat n) by lia. destruct n as [|n]; [done|].
  rewrite !(proj2 (Z.eqb_neq _ _)) by lia. cbn [negb].
  replace (dest + Z.of_nat (S n) - 1) with (dest + (Z.of_nat (S n) - 1)) by lia.
  replace (src + Z.of_nat (S n) - 1) with (src + (Z.of_nat (S n) - 1)) by lia. by rewrite IH.
Qed.

(** [memcpy] may also copy downwards within one region. *)
Lemma memcpy_spec dst src n m x : 0 ≤ n → dst ≤ src ∨ src + n ≤ dst → Libc.memcpy dst src n m x = mem_copy src dst n m x.
Proof. intros Hn H. unfold Libc.memcpy. rewrite copy_up_spec by lia. by rewrite !Z.add_0_r, Z2Nat.id. Qed.

(** C37: [memmove] copies any region of the address space to any other, however
    they overlap: both the user library's and the kernel's leave at the
    destination the bytes that the source had before the call, and every other
    byte as it was. *)
Theorem memmove_exact dst src n m x : 0 ≤ n → 0 ≤ src → src + n < 2^64 →
  Libc.memmove dst src n m x = mem_copy src dst n m x ∧ Kernel.memmove dst src n m x = mem_copy src dst n m x.
Proof.
  intros Hn Hs Hmax. split.
  - unfold Libc.memmove. rewrite wadd_small by lia. destruct (Z.leb_spec dst src) as [Hle|Hgt]; cbn [orb].
    { apply memcpy_spec; lia. }
    destruct (Z.leb_spec (src + n) dst) as [Hle'|Hgt']; [apply memcpy_spec; lia|].
    rewrite copy_down_spec by lia. by rewrite Z2Nat.id.
  - unfold Kernel.memmove. destruct (Z.eqb_spec dst src) as [->|Hne].
    { destruct (decide (src ≤ x < src + n)); [rewrite mem_copy_in by done; f_equal; lia|by rewrite mem_copy_out]. }
    destruct (Z.ltb_spec dst src) as [Hlt|Hge].
    + unfold Kernel.memcpy. rewrite <- (Z.add_0_r dst), <- (Z.add_0_r src), memcpy_loop_up, copy_up_spec by lia.
      by rewrite !Z.add_0_r, Z2Nat.id.
    + destruct (decide (n = 0)) as [->|H0]; [by rewrite mem_copy_out by lia|].
      replace (n - 1) with (Z.of_nat (Z.to_nat n) - 1) by lia. rewrite back_loop_down, copy_down_spec by lia. by rewrite Z2Nat.id.
Qed.

Lemma memmove_exact_witness :
  let m := mem_write 100 [1; 2; 3; 4] (λ _, 0) in
  Libc.memmove 101 100 4 m 104 = 4 ∧ Kernel.memmove 101 100 4 m 104 = 4.
Proof. apply (memmove_exact 101 100 4); lia. Defined.
