(* ===== verification/LibcString.v ===== *)
(** * Strings of the user library (src/userland/libc/src/string.rs)

    A loop that runs to the end of a string has a bound on its rounds, and
    [None] where the bound is too small; the lemmas show that one more than the
    length of the string is enough. *)

From stdpp Require Import base list option numbers.
From Stdlib Require Import ZArith Lia.
From S2P Require Import Prelude Words Buddy Memory LibcMem.

Local Open Scope Z_scope.

(** ** Lengths and copies *)

Fixpoint strlen_loop (fuel : nat) (s n : Z) (m : mem) : option Z :=
  match fuel with
  | O => None
  | S fuel' => if negb (m (s + n) =? 0) then strlen_loop fuel' s (n + 1) m else Some n
  end.

Definition strlen (fuel : nat) (s : Z) (m : mem) : option Z := strlen_loop fuel s 0 m.

Fixpoint strnlen_loop (left : nat) (s n : Z) (m : mem) : Z :=
  match left with
  | O => n
  | S left' => if negb (m (s + n) =? 0) then strnlen_loop left' s (n + 1) m else n
  end.

Definition strnlen (s maxlen : Z) (m : mem) : Z := strnlen_loop (Z.to_nat maxlen) s 0 m.

Fixpoint strcpy_loop (fuel : nat) (dst src i : Z) (m : mem) : option mem :=
  match fuel with
  | O => None
  | S fuel' =>
      let c := m (src + i) in
      let m := put_byte (dst + i) c m in
      if c =? 0 then Some m else strcpy_loop fuel' dst src (i + 1) m
  end.

Definition strcpy (fuel : nat) (dst src : Z) (m : mem) : option mem := strcpy_loop fuel dst src 0 m.

Fixpoint strncpy_loop (left : nat) (dst src i n : Z) (m : mem) : mem :=
  match left with
  | O => m
  | S left' =>
      let c := m (src + i) in
      let m := put_byte (dst + i) c m in
      if c =? 0 then Libc.memset (dst + (i + 1)) 0 (n - (i + 1)) m else strncpy_loop left' dst src (i + 1) n m
  end.

Definition strncpy (dst src n : Z) (m : mem) : mem := strncpy_loop (Z.to_nat n) dst src 0 n m.

Definition strcat (fuel : nat) (dst src : Z) (m : mem) : option mem :=
  dlen ← strlen fuel dst m; strcpy fuel (dst + dlen) src m.

Definition strncat (fuel : nat) (dst src n : Z) (m : mem) : option mem :=
  dlen ← strlen fuel dst m;
  let slen := strnlen src n m in
  Some (put_byte (dst + (dlen + slen)) 0 (Libc.memcpy (dst + dlen) src slen m)).

(** ** Comparisons and searches *)

Fixpoint strcmp_loop (fuel : nat) (a b i : Z) (m : mem) : option Z :=
  match fuel with
  | O => None
  | S fuel' =>
      let ca := m (a + i) in
      let cb := m (b + i) in
      if negb (ca =? cb) then Some (ca - cb) else if ca =? 0 then Some 0 else strcmp_loop fuel' a b (i + 1) m
  end.

Definition strcmp (fuel : nat) (a b : Z) (m : mem) : option Z := strcmp_loop fuel a b 0 m.

Fixpoint strncmp_loop (left : nat) (a b i : Z) (m : mem) : Z :=
  match left with
  | O => 0
  | S left' =>
      let ca := m (a + i) in
      let cb := m (b + i) in
      if negb (ca =? cb) then ca - cb else if ca =? 0 then 0 else strncmp_loop left' a b (i + 1) m
  end.

Definition strncmp (a b n : Z) (m : mem) : Z := strncmp_loop (Z.to_nat n) a b 0 m.

(** The null pointer is 0. *)
Fixpoint strchr_loop (fuel : nat) (s c i : Z) (m : mem) : option Z :=
  match fuel with
  | O => None
  | S fuel' =>
      let b := m (s + i) in
      if b =? u8 c then Some (s + i) else if b =? 0 then Some 0 else strchr_loop fuel' s c (i + 1) m
  end.

Definition strchr (fuel : nat) (s c : Z) (m : mem) : option Z := strchr_loop fuel s c 0 m.

Fixpoint strrchr_loop (fuel : nat) (s c i last : Z) (m : mem) : option Z :=
  match fuel with
  | O => None
  | S fuel' =>
      let b := m (s + i) in
      let last := if b =? u8 c then s + i else last in
      if b =? 0 then Some last else strrchr_loop fuel' s c (i + 1) last m
  end.

Definition strrchr (fuel : nat) (s c : Z) (m : mem) : option Z := strrchr_loop fuel s c 0 0 m.

Fixpoint strstr_loop (left : nat) (haystack needle nlen i : Z) (m : mem) : Z :=
  match left with
  | O => 0
  | S left' =>
      if strncmp (haystack + i) needle nlen m =? 0 then haystack + i else strstr_loop left' haystack needle nlen (i + 1) m
  end.

Definition strstr (fuel : nat) (haystack needle : Z) (m : mem) : option Z :=
  nlen ← strlen fuel needle m;
  if nlen =? 0 then Some haystack
  else
    hlen ← strlen fuel haystack m;
    if hlen <? nlen then Some 0 else Some (strstr_loop (Z.to_nat (hlen - nlen + 1)) haystack needle nlen 0 m).

(** ** Numbers *)

Definition is_blank (c : Z) : bool := (c =? 32) || (c =? 9).

Fixpoint skip_blanks (fuel : nat) (s i : Z) (m : mem) : option Z :=
  match fuel with
  | O => None
  | S fuel' => if is_blank (m (s + i)) then skip_blanks fuel' s (i + 1) m else Some i
  end.

(** The sign: whether it is a minus, and the index behind it. *)
Definition sign_at (s i : Z) (m : mem) : bool * Z :=
  if m (s + i) =? 45 then (true, i + 1) else (false, if m (s + i) =? 43 then i + 1 else i).

(** The radix (as [u64]) and the index behind a prefix. *)
Definition radix_at (s i base : Z) (m : mem) : Z * Z :=
  if base =? 0 then
    if m (s + i) =? 48 then
      let c := m (s + (i + 1)) in
      if (c =? 120) || (c =? 88) then (16, i + 2) else (8, i + 1)
    else (10, i)
  else (u64 base, i).

Definition digit_of (c : Z) : option Z :=
  if (48 <=? c) && (c <=? 57) then Some (c - 48)
  else if (97 <=? c) && (c <=? 102) then Some (c - 97 + 10)
  else if (65 <=? c) && (c <=? 70) then Some (c - 65 + 10)
  else None.

Fixpoint digits_loop (fuel : nat) (s i radix n : Z) (m : mem) : option (Z * Z) :=
  match fuel with
  | O => None
  | S fuel' =>
      match digit_of (m (s + i)) with
      | None => Some (n, i)
      | Some digit =>
          if radix <=? digit then Some (n, i)
          else digits_loop fuel' s (i + 1) radix (to_i64 (to_i64 (n * to_i64 radix) + digit)) m
      end
  end.

(** [base] is a [c_int]; the result is an [i64], negated with wrap-around. *)
Definition strtol (fuel : nat) (s endptr base : Z) (m : mem) : option (Z * mem) :=
  i ← skip_blanks fuel s 0 m;
  let '(neg, i) := sign_at s i m in
  let '(radix, i) := radix_at s i base m in
  '(n, i) ← digits_loop fuel s i radix 0 m;
  Some (if neg then to_i64 (- n) else n, if negb (endptr =? 0) then write_u64 endptr (s + i) m else m).

Definition strtoul (fuel : nat) (s endptr base : Z) (m : mem) : option (Z * mem) :=
  '(n, m) ← strtol fuel s endptr base m; Some (u64 n, m).

Definition atoi (fuel : nat) (s : Z) (m : mem) : option Z :=
  '(n, _) ← strtol fuel s 0 10 m; Some (to_i32 n).

(** ** Lengths *)

Lemma strlen_loop_spec m s str fuel n : cstring m s str → (n ≤ length str)%nat → (length str - n < fuel)%nat →
  strlen_loop fuel s (Z.of_nat n) m = Some (Z.of_nat (length str)).
Proof.
  intros Hs. revert n. induction fuel as [|fuel IH]; intros n Hn Hf; [lia|]. cbn [strlen_loop].
  destruct (decide (n = length str)) as [->|Hne].
  - by rewrite (cstring_nul _ _ _ Hs).
  - rewrite (proj2 (Z.eqb_neq (m (s + Z.of_nat n)) 0)); [|intros H; apply (cstring_byte _ _ _ n Hs) in H; lia].
    cbn [negb]. replace (Z.of_nat n + 1) with (Z.of_nat (S n)) by lia. apply IH; lia.
Qed.

Lemma strlen_spec m s str fuel : cstring m s str → (length str < fuel)%nat → strlen fuel s m = Some (Z.of_nat (length str)).
Proof. intros Hs Hf. by apply (strlen_loop_spec m s str fuel 0); [|lia|lia]. Qed.

(** ** Searching *)

(** The comparison with a string that has no NUL in the part that counts. *)
Lemma strncmp_loop_zero m a b n i : (∀ j, i ≤ j < i + Z.of_nat n → m (b + j) ≠ 0) →
  strncmp_loop n a b i m = 0 ↔ ∀ j, i ≤ j < i + Z.of_nat n → m (a + j) = m (b + j).
Proof.
  revert i. induction n as [|n IH]; intros i Hb; cbn [strncmp_loop]; [split; [lia|done]|].
  destruct (Z.eqb_spec (m (a + i)) (m (b + i))) as [He|Hne]; cbn [negb].
  - rewrite He, (proj2 (Z.eqb_neq _ _) (Hb i ltac:(lia))). rewrite IH by (intros j Hj; apply Hb; lia). split.
    + intros H j Hj. destruct (decide (j = i)) as [->|]; [done|]. apply H. lia.
    + intros H j Hj. apply H. lia.
  - split; [lia|]. intros H. destruct Hne. apply H. lia.
Qed.

(** [pat] occurs in [str] at [i]. *)
Definition occurs_at (str pat : list Z) (i : nat) : Prop := pat `prefix_of` drop i str.

Lemma strncmp_occurs m h needle str pat i : cstring m h str → cstring m needle pat → (i + length pat ≤ length str)%nat →
  strncmp (h + Z.of_nat i) needle (Z.of_nat (length pat)) m = 0 ↔ occurs_at str pat i.
Proof.
  intros Hh Hn Hi. unfold strncmp. rewrite Nat2Z.id, strncmp_loop_zero.
  2: { intros j Hj H. replace j with (Z.of_nat (Z.to_nat j)) in H by lia. apply (cstring_byte _ _ _ _ Hn) in H; lia. }
  unfold occurs_at. split.
  - intros H. exists (drop (length pat) (drop i str)). apply list_eq. intros j.
    destruct (decide (j < length pat)%nat) as [Hj|Hj].
    + rewrite lookup_app_l by done. rewrite lookup_drop.
      destruct (lookup_lt_is_Some_2 pat j Hj) as [b Hb]. destruct (lookup_lt_is_Some_2 str (i + j)) as [c Hc]; [lia|].
      rewrite Hb, Hc. f_equal. specialize (H (Z.of_nat j) ltac:(lia)).
      apply (cstring_lookup _ _ _ _ _ Hn) in Hb as [<- _]. apply (cstring_lookup _ _ _ _ _ Hh) in Hc as [<- _].
      rewrite <- H. f_equal. lia.
    + rewrite lookup_app_r by lia. rewrite !lookup_drop. f_equal. lia.
  - intros [rest Hr] j Hj. destruct (lookup_lt_is_Some_2 pat (Z.to_nat j)) as [b Hb]; [lia|].
    assert (str !! (i + Z.to_nat j)%nat = Some b) as Hc by (rewrite <- lookup_drop, Hr, lookup_app_l by lia; done).
    apply (cstring_lookup _ _ _ _ _ Hn) in Hb as [Hb _]. apply (cstring_lookup _ _ _ _ _ Hh) in Hc as [Hc _].
    rewrite Z2Nat.id in Hb by lia. rewrite Hb, <- Hc. f_equal. lia.
Qed.

Lemma occurs_at_length str pat i : pat ≠ [] → occurs_at str pat i → (i + length pat ≤ length str)%nat.
Proof.
  intros Hp [rest Hr]. apply (f_equal length) in Hr. rewrite length_app, length_drop in Hr.
  assert (length pat ≠ 0%nat) by (by destruct pat). lia.
Qed.

(** What a search for the first occurrence returns. *)
Definition first_occurrence (h : Z) (str pat : list Z) (r : Z) : Prop :=
  (∃ i, r = h + Z.of_nat i ∧ occurs_at str pat i ∧ ∀ j, (j < i)%nat → ¬ occurs_at str pat j) ∨
  (r = 0 ∧ ∀ i, ¬ occurs_at str pat i).

Lemma strstr_loop_spec m h needle str pat : cstring m h str → cstring m needle pat → pat ≠ [] → (length pat ≤ length str)%nat →
  ∀ left i, (i + left = length str - length pat + 1)%nat → (∀ j, (j < i)%nat → ¬ occurs_at str pat j) →
  first_occurrence h str pat (strstr_loop left h needle (Z.of_nat (length pat)) (Z.of_nat i) m).
Proof.
  intros Hh Hn Hp Hlen left. induction left as [|left IH]; intros i Hi Hj; cbn [strstr_loop].
  - right. split; [done|]. intros k Hk. pose proof (occurs_at_length _ _ _ Hp Hk). apply (Hj k); [lia|done].
  - destruct (Z.eqb_spec (strncmp (h + Z.of_nat i) needle (Z.of_nat (length pat)) m) 0) as [H0|H0];
      rewrite (strncmp_occurs m h needle str pat) in H0 by (done || lia).
    + left. by exists i.
    + replace (Z.of_nat i + 1) with (Z.of_nat (S i)) by lia. apply IH; [lia|]. intros j Hlt.
      destruct (decide (j = i)) as [->|]; [done|]. apply Hj. lia.
Qed.

(** [strstr] finds the first occurrence of one string in another, or none. *)
Lemma strstr_spec m h needle str pat fuel : cstring m h str → cstring m needle pat →
  (length str < fuel)%nat → (length pat < fuel)%nat →
  ∃ r, strstr fuel h needle m = Some r ∧ first_occurrence h str pat r.
Proof.
  intros Hh Hn Hf1 Hf2. unfold strstr. rewrite (strlen_spec _ _ _ _ Hn Hf2). cbn [mbind option_bind].
  destruct (decide (pat = [])) as [->|Hp].
  - exists h. split; [done|]. left. exists 0%nat. split_and!; [lia|by exists str|lia].
  - rewrite (proj2 (Z.eqb_neq _ _)) by (destruct pat; [done|simpl; lia]). rewrite (strlen_spec _ _ _ _ Hh Hf1). cbn [mbind option_bind].
    destruct (Z.ltb_spec (Z.of_nat (length str)) (Z.of_nat (length pat))) as [Hlt|Hge].
    + exists 0. split; [done|]. right. split; [done|]. intros i Hi%occurs_at_length; [lia|done].
    + eexists. split; [done|]. apply (strstr_loop_spec m h needle str pat Hh Hn Hp ltac:(lia) _ 0); lia.
Qed.
