(* ===== verification/LibcStdio.v ===== *)
(** * Formatted output of the user library (src/userland/libc/src/stdio.rs, errno.rs, io.rs)

    The formatter reads its format string and its arguments from memory and
    emits to a descriptor or to a buffer in the same memory, so a buffer may
    overlap what is still to be read, as in the code.  The kernel behind [write]
    is a parameter, and so is that behind [read], which also says which bytes
    it stored.  [None]: a loop needs more rounds than its bound, or the
    code panics. *)

From stdpp Require Import base list option numbers.
From Stdlib Require Import ZArith Lia.
From S2P Require Import Prelude Words Buddy Memory LibcMem LibcString.

Local Open Scope Z_scope.

(** ** Numbers *)

Definition digit_char (upper : bool) (d : Z) : Z := if d <? 10 then 48 + d else (if upper then 65 else 97) + (d - 10).

(** The loop of [fmt_uint]; [acc] is the part of the 20-byte buffer filled so
    far, from its end. *)
Fixpoint fmt_loop (room : nat) (n radix : Z) (upper : bool) (acc : list Z) : option (list Z) :=
  if 0 <? n then
    match room with
    | O => None
    | S room' => fmt_loop room' (n / radix) radix upper (digit_char upper (n mod radix) :: acc)
    end
  else Some acc.

Definition fmt_uint (n radix : Z) (upper : bool) : option (list Z) :=
  if n =? 0 then Some [48] else fmt_loop 20 n radix upper [].

(** ** The process: its memory, [errno], and the kernel *)

Section stdio.
Context {K : Type} (sys_write : Z → list Z → K → Z * K) (sys_read : Z → Z → K → Z * list Z * K).

Record Proc := mkProc { pr_mem : mem; pr_errno : Z; pr_os : K }.

Definition on_pmem (f : mem → mem) (p : Proc) : Proc := mkProc (f (pr_mem p)) (pr_errno p) (pr_os p).
Definition set_errno (e : Z) (p : Proc) : Proc := mkProc (pr_mem p) e (pr_os p).

Definition ret_or_errno (r : Z) (p : Proc) : Z * Proc :=
  if r <? 0 then (-1, set_errno (to_i32 (- r)) p) else (r, p).

(** [write] of the bytes [bs]. *)
Definition libc_write (fd : Z) (bs : list Z) (p : Proc) : Z * Proc :=
  let '(r, o) := sys_write fd bs (pr_os p) in
  ret_or_errno r (mkProc (pr_mem p) (pr_errno p) o).

(** ** Sinks *)

(** A descriptor, or the [size] bytes at [data] of which [pos] are filled. *)
Inductive Sink := Fd (fd : Z) | Buf (data size pos : Z).

Definition emit_bytes (b : list Z) (x : Sink * Proc) : Sink * Proc :=
  let '(sink, p) := x in
  match sink with
  | Fd fd => (sink, (libc_write fd b p).2)
  | Buf data size pos =>
      let n := Z.min (Z.of_nat (length b)) (saturating_sub size pos) in
      (Buf data size (pos + n), on_pmem (mem_write (data + pos) (take (Z.to_nat n) b)) p)
  end.

Definition emit_byte (b : Z) : Sink * Proc → Sink * Proc := emit_bytes [b].

Definition written (s : Sink) : Z := match s with Buf _ _ pos => pos | Fd _ => 0 end.

(** ** Conversions *)

(** The state of the loop: sink and process, the characters emitted so far. *)
Definition fst_t : Type := (Sink * Proc) * Z.

Definition emit1 (b : Z) (x : fst_t) : fst_t := (emit_byte b x.1, to_i32 (x.2 + 1)).

Fixpoint emit_pad (n : nat) (b : Z) (x : fst_t) : fst_t :=
  match n with O => x | S n' => emit_pad n' b (emit1 b x) end.

(** The bytes to emit are read when it is their turn. *)
Definition emit_padded (left_align : bool) (width pad len : Z) (data : mem → list Z) (x : fst_t) : fst_t :=
  let fill := Z.to_nat (width - len) in
  let x := if left_align then x else emit_pad fill pad x in
  let x := (emit_bytes (data (pr_mem x.1.2)) x.1, to_i32 (x.2 + to_i32 len)) in
  if left_align then emit_pad fill 32 x else x.

Definition emit_fixed (left_align : bool) (width pad : Z) (bs : list Z) (x : fst_t) : fst_t :=
  emit_padded left_align width pad (Z.of_nat (length bs)) (λ _, bs) x.

Definition is_digit (c : Z) : bool := (48 <=? c) && (c <=? 57).

(** A decimal number at [a]: its value and the address behind it. *)
Fixpoint decimal_at (fuel : nat) (a v : Z) (m : mem) : option (Z * Z) :=
  match fuel with
  | O => None
  | S fuel' =>
      if is_digit (m a) then decimal_at fuel' (a + 1) (wadd (wmul v 10) (m a - 48)) m else Some (v, a)
  end.

Record conversion := mkConv { cv_left : bool; cv_zero : bool; cv_width : Z; cv_spec : Z; cv_next : Z }.

(** The precision, if there is one, and the address behind it. *)
Definition precision_at (fuel : nat) (a : Z) (m : mem) : option (option Z * Z) :=
  if m a =? 46 then
    '(v, b) ← decimal_at fuel (a + 1) 0 m;
    Some (if b =? a + 1 then None else Some v, b)
  else Some (None, a).

Definition after_length (a : Z) (m : mem) : Z :=
  if m a =? 108 then if m (a + 1) =? 108 then a + 2 else a + 1
  else if m a =? 122 then a + 1 else a.

(** From the character behind the percent sign to the specifier. *)
Definition conversion_at (fuel : nat) (a : Z) (m : mem) : option conversion :=
  let left_align := m a =? 45 in
  let a := if left_align then a + 1 else a in
  let zero_pad := negb left_align && (m a =? 48) in
  let a := if zero_pad then a + 1 else a in
  '(width, a) ← decimal_at fuel a 0 m;
  '(prec, a) ← precision_at fuel a m;
  let '(zero_pad, width) :=
    match prec with
    | Some v => if negb zero_pad && (width =? 0) then (true, v) else (zero_pad, width)
    | None => (zero_pad, width)
    end in
  let a := after_length a m in
  Some (mkConv left_align zero_pad width (m a) (a + 1)).

(** The text of a signed number. *)
Definition fmt_int (v : Z) : option (list Z) :=
  if v <? 0 then nb ← fmt_uint (u64 (- v)) 10 false; Some (45 :: nb) else fmt_uint v 10 false.

(** One conversion: the new state and whether it took an argument. *)
Definition convert (fuel : nat) (cv : conversion) (argp : Z) (x : fst_t) : option (fst_t * bool) :=
  let pad := if cv_zero cv then 48 else 32 in
  let out := emit_fixed (cv_left cv) (cv_width cv) pad in
  let v := read_u64 (pr_mem x.1.2) argp in
  let spec := cv_spec cv in
  if spec =? 115 then
    if v =? 0 then Some (out [40; 110; 117; 108; 108; 41] x, true)
    else n ← strlen fuel v (pr_mem x.1.2); Some (emit_padded (cv_left cv) (cv_width cv) pad n (λ m, mem_read m v n) x, true)
  else if (spec =? 100) || (spec =? 105) then t ← fmt_int (to_i64 v); Some (out t x, true)
  else if spec =? 117 then t ← fmt_uint v 10 false; Some (out t x, true)
  else if spec =? 120 then t ← fmt_uint v 16 false; Some (out t x, true)
  else if spec =? 88 then t ← fmt_uint v 16 true; Some (out t x, true)
  else if spec =? 112 then
    t ← fmt_uint v 16 false;
    Some (out t (emit_bytes [48; 120] x.1, to_i32 (x.2 + 2)), true)
  else if spec =? 99 then Some (out [u8 v] x, true)
  else if spec =? 37 then Some (emit1 37 x, false)
  else Some ((emit_byte spec (emit_byte 37 x.1), to_i32 (x.2 + 2)), false).

Fixpoint format_loop (fuel : nat) (a argp : Z) (x : fst_t) : option fst_t :=
  match fuel with
  | O => None
  | S fuel' =>
      let c := pr_mem x.1.2 a in
      if c =? 0 then Some x
      else if negb (c =? 37) then format_loop fuel' (a + 1) argp (emit1 c x)
      else
        cv ← conversion_at fuel (a + 1) (pr_mem x.1.2);
        '(x, took) ← convert fuel cv argp x;
        format_loop fuel' (cv_next cv) (if (took : bool) then argp + 8 else argp) x
  end.

Definition do_format (fuel : nat) (sink : Sink) (fmt argv : Z) (p : Proc) : option fst_t :=
  format_loop fuel fmt argv ((sink, p), 0).

(** ** The public functions *)

Definition fprintf_impl (fuel : nat) (fd fmt argv : Z) (p : Proc) : option (Z * Proc) :=
  x ← do_format fuel (Fd (to_i32 fd)) fmt argv p; Some (x.2, x.1.2).

Definition printf_impl (fuel : nat) (fmt argv : Z) (p : Proc) : option (Z * Proc) :=
  x ← do_format fuel (Fd 1) fmt argv p; Some (x.2, x.1.2).

Definition sprintf_impl (fuel : nat) (buf fmt argv : Z) (p : Proc) : option (Z * Proc) :=
  x ← do_format fuel (Buf buf (U64_MAX / 2) 0) fmt argv p;
  Some (x.2, on_pmem (put_byte (buf + written x.1.1) 0) x.1.2).

Definition snprintf_impl (fuel : nat) (buf size fmt argv : Z) (p : Proc) : option (Z * Proc) :=
  if size =? 0 then Some (0, p)
  else
    x ← do_format fuel (Buf buf size 0) fmt argv p;
    let pos := Z.min (written x.1.1) (size - 1) in
    Some (x.2, on_pmem (put_byte (buf + pos) 0) x.1.2).

Definition puts (fuel : nat) (s : Z) (p : Proc) : option (Z * Proc) :=
  if s =? 0 then Some (-1, p)
  else
    n ← strlen fuel s (pr_mem p);
    let p := (libc_write 1 (mem_read (pr_mem p) s n) p).2 in
    let p := (libc_write 1 [10] p).2 in
    Some (to_i32 (n + 1), p).

Definition putchar (c : Z) (p : Proc) : Z * Proc := (c, (libc_write 1 [u8 c] p).2).

(** The character is 0 if the kernel stores none. *)
Definition getchar (p : Proc) : Z * Proc :=
  let '(r, bs, o) := sys_read 0 1 (pr_os p) in
  let '(r, p) := ret_or_errno r (mkProc (pr_mem p) (pr_errno p) o) in
  (if r <=? 0 then -1 else default 0 (bs !! 0%nat), p).

Fixpoint fgets_loop (left : nat) (buf i : Z) (p : Proc) : option Z * Proc :=
  match left with
  | O => (Some i, p)
  | S left' =>
      let '(c, p) := getchar p in
      if c <? 0 then (if i =? 0 then None else Some i, p)
      else
        let p := on_pmem (put_byte (buf + i) (u8 c)) p in
        if u8 c =? 10 then (Some (i + 1), p) else fgets_loop left' buf (i + 1) p
  end.

Definition fgets (buf size : Z) (p : Proc) : Z * Proc :=
  let '(o, p) := fgets_loop (Z.to_nat (Z.max (to_i32 (size - 1)) 0)) buf 0 p in
  match o with
  | None => (0, p)
  | Some i => (buf, on_pmem (put_byte (buf + i) 0) p)
  end.

(** The loop and the sign of [int_dec], in a buffer of 12 bytes. *)
Definition int_dec (n : Z) : option (list Z) :=
  if n =? 0 then Some [48]
  else
    let neg := n <? 0 in
    ds ← fmt_loop 12 (u32 (if neg then - n else n)) 10 false [];
    if neg then if (length ds =? 12)%nat then None else Some (45 :: ds) else Some ds.

Definition perror (fuel : nat) (msg : Z) (p : Proc) : option Proc :=
  p ← (if negb (msg =? 0) && negb (pr_mem p msg =? 0) then
         n ← strlen fuel msg (pr_mem p);
         let p := (libc_write 2 (mem_read (pr_mem p) msg n) p).2 in
         Some (libc_write 2 [58; 32; 101; 114; 114; 110; 111; 32] p).2
       else Some p);
  t ← int_dec (pr_errno p);
  Some (libc_write 2 [10] (libc_write 2 t p).2).2.

End stdio.

Arguments Proc : clear implicits.
Arguments fst_t : clear implicits.
