(* ===== verification/LibcStdioSpec.v ===== *)
(** * What the formatter prints

    A format is a list of characters and directives; its text is what the
    program writes in its format string.  The formatter, which reads that text
    character by character, emits the characters and the converted arguments
    ([printf_renders]); [snprintf] keeps to its buffer and ends it with a NUL;
    and [strtol] reads back what it prints. *)

From stdpp Require Import base list option numbers sets.
From Stdlib Require Import ZArith Lia.
From S2P Require Import Prelude Words Buddy Memory LibcMem LibcString LibcStdio.

Local Open Scope Z_scope.

(** ** Bytes in memory *)

Definition holds (m : mem) (a : Z) (bs : list Z) : Prop := ∀ i b, bs !! i = Some b → m (a + Z.of_nat i) = b.

Lemma holds_nil m a : holds m a [].
Proof. done. Qed.

Lemma holds_app m a x y : holds m a (x ++ y) ↔ holds m a x ∧ holds m (a + Z.of_nat (length x)) y.
Proof.
  split.
  - intros H. split; intros i b Hi.
    + apply H. by apply lookup_app_l_Some.
    + replace (a + Z.of_nat (length x) + Z.of_nat i) with (a + Z.of_nat (length x + i)) by lia.
      apply H. rewrite lookup_app_r by lia. by replace (length x + i - length x)%nat with i by lia.
  - intros [Hx Hy] i b [Hi|[Hlt Hi]]%lookup_app_Some; [by apply Hx|]. specialize (Hy _ _ Hi).
    by replace (a + Z.of_nat i) with (a + Z.of_nat (length x) + Z.of_nat (i - length x)) by lia.
Qed.

Lemma holds_cons m a c x : holds m a (c :: x) ↔ m a = c ∧ holds m (a + 1) x.
Proof.
  change (c :: x) with ([c] ++ x). rewrite holds_app. split; intros [H1 H2]; (split; [|done]).
  - specialize (H1 0%nat c eq_refl). by rewrite Z.add_0_r in H1.
  - intros [|i] b Hb; [|done]. injection Hb as <-. by rewrite Z.add_0_r.
Qed.

Lemma holds_ext m m' a bs : holds m a bs → (∀ x, a ≤ x < a + Z.of_nat (length bs) → m' x = m x) → holds m' a bs.
Proof. intros H Hx i b Hi. rewrite Hx; [by apply H|]. apply lookup_lt_Some in Hi. lia. Qed.

Lemma cstring_holds m a str : cstring m a str → holds m a (str ++ [0]).
Proof.
  intros H. apply holds_app. split; [intros i b Hi; by apply (cstring_lookup _ _ _ _ _ H)|].
  apply holds_cons. split; [by apply cstring_nul|apply holds_nil].
Qed.

(** ** Numerals *)

Definition value (radix : Z) (ds : list Z) : Z := foldl (λ v d, v * radix + d) 0 ds.

Lemma value_snoc radix ds d : value radix (ds ++ [d]) = value radix ds * radix + d.
Proof. unfold value. by rewrite foldl_app. Qed.

(** The digits that the loop finds have the value of the number. *)
Lemma fmt_loop_spec radix upper room : 1 < radix → ∀ n acc, 0 ≤ n < radix ^ Z.of_nat room →
  ∃ ds, fmt_loop room n radix upper acc = Some ((digit_char upper <$> ds) ++ acc) ∧
    Forall (λ d, 0 ≤ d < radix) ds ∧ value radix ds = n ∧ (0 < n → ds ≠ []) ∧ (length ds ≤ room)%nat.
Proof.
  intros Hr. induction room as [|room IH]; intros n acc Hn.
  - exists []. assert (n = 0) as -> by (simpl in Hn; lia). done.
  - cbn [fmt_loop]. destruct (Z.ltb_spec 0 n) as [Hpos|Hz]; [|exists []; split_and!; try done; cbn; lia].
    rewrite Nat2Z.inj_succ, Z.pow_succ_r in Hn by lia.
    destruct (IH (n / radix) (digit_char upper (n mod radix) :: acc)) as (ds & Hf & Hd & Hv & _ & Hl).
    { split; [apply Z.div_pos; lia|]. apply Z.div_lt_upper_bound; lia. }
    exists (ds ++ [n mod radix]). rewrite Hf, fmap_app, <- app_assoc, value_snoc, Hv, length_app. split_and!; try done.
    + apply Forall_app. split; [done|]. apply Forall_singleton. apply Z.mod_pos_bound. lia.
    + pose proof (Z.div_mod n radix). lia.
    + by destruct ds.
    + simpl. lia.
Qed.

Definition numeral (radix : Z) (upper : bool) (n : Z) : list Z := default [] (fmt_uint n radix upper).

Lemma fmt_uint_spec radix upper n : radix = 10 ∨ radix = 16 → 0 ≤ n < 2^64 →
  fmt_uint n radix upper = Some (numeral radix upper n) ∧
  ∃ ds, numeral radix upper n = digit_char upper <$> ds ∧ Forall (λ d, 0 ≤ d < radix) ds ∧ value radix ds = n ∧ ds ≠ [] ∧ (length ds ≤ 20)%nat.
Proof.
  intros Hr Hn. unfold numeral, fmt_uint. destruct (Z.eqb_spec n 0) as [->|Hne].
  - split; [done|]. exists [0]. split_and!; [by destruct upper|apply Forall_singleton; lia|done|done|simpl; lia].
  - destruct (fmt_loop_spec radix upper 20 ltac:(lia) n []) as (ds & -> & Hd & Hv & Hne' & Hl).
    { destruct Hr as [-> | ->]; lia. }
    split; [done|]. exists ds. rewrite app_nil_r. split_and!; try done. apply Hne'. lia.
Qed.

(** ** Reading a decimal number back *)

Lemma to_i64_step n d : to_i64 (to_i64 (to_i64 n * 10) + d) = to_i64 (n * 10 + d).
Proof.
  apply to_i64_congr. rewrite <- Zplus_mod_idemp_l, to_i64_mod, <- Zmult_mod_idemp_l, to_i64_mod, Zmult_mod_idemp_l.
  apply Zplus_mod_idemp_l.
Qed.

Lemma digit_of_char d : 0 ≤ d < 10 → digit_of (digit_char false d) = Some d.
Proof.
  intros Hd. unfold digit_of, digit_char. rewrite (proj2 (Z.ltb_lt _ _)) by lia.
  rewrite (proj2 (Z.leb_le 48 (48 + d))), (proj2 (Z.leb_le (48 + d) 57)) by lia. cbn [andb]. f_equal. lia.
Qed.

Lemma digits_loop_spec m s ds : Forall (λ d, 0 ≤ d < 10) ds → ∀ fuel i v,
  holds m (s + i) (digit_char false <$> ds) → digit_of (m (s + (i + Z.of_nat (length ds)))) = None → (length ds < fuel)%nat →
  digits_loop fuel s i 10 (to_i64 v) m = Some (to_i64 (foldl (λ v d, v * 10 + d) v ds), i + Z.of_nat (length ds)).
Proof.
  induction 1 as [|d ds Hd Hds IH]; intros fuel i v Hm Hend Hf; (destruct fuel as [|fuel]; [simpl in Hf; lia|]); cbn [digits_loop].
  - rewrite Z.add_0_r in Hend. rewrite Hend. by rewrite Z.add_0_r.
  - rewrite fmap_cons in Hm. apply holds_cons in Hm as [-> Hm]. rewrite (digit_of_char d Hd), (proj2 (Z.leb_gt _ _)) by lia.
    rewrite (to_i64_small 10) by lia. rewrite to_i64_step. rewrite <- Z.add_assoc in Hm. rewrite IH; [|done| |simpl in Hf; lia].
    + cbn [foldl length]. do 2 f_equal. lia.
    + rewrite <- Hend. do 2 f_equal. simpl. lia.
Qed.

(** The text of a signed number. *)
Definition int_text (v : Z) : list Z := if v <? 0 then 45 :: numeral 10 false (u64 (- v)) else numeral 10 false v.

Lemma fmt_int_spec v : - 2^63 ≤ v < 2^63 → fmt_int v = Some (int_text v).
Proof.
  intros Hv. unfold fmt_int, int_text. destruct (Z.ltb_spec v 0).
  - destruct (fmt_uint_spec 10 false (u64 (- v))) as [-> _]; [by left|apply u64_range|done].
  - destruct (fmt_uint_spec 10 false v) as [-> _]; [by left|lia|done].
Qed.

Lemma numeral_head n : 0 ≤ n < 2^64 → ∃ c t, numeral 10 false n = c :: t ∧ 48 ≤ c ≤ 57.
Proof.
  intros Hn. destruct (fmt_uint_spec 10 false n) as (_ & ds & -> & Hd & _ & Hne & _); [by left|done|].
  destruct ds as [|d ds]; [done|]. apply Forall_cons_1 in Hd as [Hd _]. rewrite fmap_cons. do 2 eexists. split; [done|].
  unfold digit_char. rewrite (proj2 (Z.ltb_lt _ _)) by lia. lia.
Qed.

Lemma numeral_digits n : 0 ≤ n < 2^64 → ∃ ds, numeral 10 false n = digit_char false <$> ds ∧ Forall (λ d, 0 ≤ d < 10) ds ∧ value 10 ds = n.
Proof. intros Hn. destruct (fmt_uint_spec 10 false n) as (_ & ds & ? & ? & ? & _); [by left|done|by exists ds]. Qed.

Lemma numeral_nonzero n : 0 ≤ n < 2^64 → 0 ∉ numeral 10 false n.
Proof.
  intros Hn. destruct (numeral_digits n Hn) as (ds & -> & Hd & _). intros (d & Hz & Hin)%list_elem_of_fmap.
  rewrite Forall_forall in Hd. specialize (Hd d Hin). unfold digit_char in Hz. rewrite (proj2 (Z.ltb_lt _ _)) in Hz by lia. lia.
Qed.

Lemma int_text_nonzero v : - 2^63 ≤ v < 2^63 → 0 ∉ int_text v.
Proof.
  intros Hv. unfold int_text. destruct (Z.ltb_spec v 0); [|apply numeral_nonzero; lia].
  apply not_elem_of_cons. split; [done|]. apply numeral_nonzero, u64_range.
Qed.

(** [strtol] with base 10 reads the text of a number. *)
Lemma strtol_int m s v fuel : - 2^63 ≤ v < 2^63 → cstring m s (int_text v) → (length (int_text v) < fuel)%nat →
  strtol fuel s 0 10 m = Some (v, m).
Proof.
  intros Hv Hs Hf. pose proof (cstring_holds _ _ _ Hs) as Hh. apply holds_app in Hh as [Hh Hz]. apply holds_cons in Hz as [Hz _].
  assert (∀ neg i n, (neg = true → i = 1) → (neg = false → i = 0) → 0 ≤ n < 2^64 → holds m (s + i) (numeral 10 false n) →
    int_text v = (if neg then [45] else []) ++ numeral 10 false n →
    digits_loop fuel s i 10 0 m = Some (to_i64 n, i + Z.of_nat (length (numeral 10 false n)))) as Hdig.
  { intros neg i n Hi1 Hi0 Hn Hm He. destruct (numeral_digits n Hn) as (ds & Hds & Hd & Hval). rewrite Hds in *.
    rewrite length_fmap. change 0 with (to_i64 0). rewrite (digits_loop_spec m s ds Hd fuel i 0 Hm); [by unfold value in Hval; rewrite Hval| |].
    - rewrite He, length_app, length_fmap in Hz.
      replace (s + (i + Z.of_nat (length ds))) with (s + Z.of_nat (length (if neg then [45] else [] : list Z) + length ds)); [by rewrite Hz|].
      destruct neg; simpl; [rewrite Hi1|rewrite Hi0]; lia || done.
    - rewrite He, length_app, length_fmap in Hf. lia. }
  unfold strtol. destruct fuel as [|fuel]; [lia|]. unfold int_text in *. destruct (Z.ltb_spec v 0) as [Hneg|Hpos].
  - pose proof Hh as [H0 H1]%holds_cons. cbn [skip_blanks]. rewrite Z.add_0_r, H0. change (is_blank 45) with false. cbv iota. cbn [mbind option_bind].
    unfold sign_at. rewrite Z.add_0_r, H0. cbn [Z.eqb Pos.eqb]. cbv beta iota zeta. cbn [radix_at Z.eqb].
    change (u64 10) with 10. rewrite (Hdig true (0 + 1) (u64 (- v))); [|done|done|apply u64_range|by rewrite Z.add_0_l|done].
    cbn [mbind option_bind]. do 2 f_equal. rewrite <- (to_i64_small v Hv) at 2. apply to_i64_congr.
    unfold u64. rewrite <- Z.sub_0_l. rewrite <- Zminus_mod_idemp_r, to_i64_mod, Z.mod_mod, Zminus_mod_idemp_r by lia. f_equal. lia.
  - destruct (numeral_head v ltac:(lia)) as (c & t & Hc & Hr). pose proof Hh as Hh'. rewrite Hc in Hh'. apply holds_cons in Hh' as [H0 _].
    cbn [skip_blanks]. rewrite Z.add_0_r, H0. unfold is_blank. rewrite !(proj2 (Z.eqb_neq c _)) by lia. cbn [orb]. cbv iota. cbn [mbind option_bind].
    unfold sign_at. rewrite Z.add_0_r, H0. rewrite !(proj2 (Z.eqb_neq c _)) by lia. cbv beta iota zeta. cbn [radix_at Z.eqb].
    change (u64 10) with 10. rewrite (Hdig false 0 v); [|done|done|lia|by rewrite Z.add_0_r|done].
    cbn [mbind option_bind]. do 2 f_equal. by apply to_i64_small.
Qed.

(** ** Formats *)

(** A directive as the program writes it. *)
Record directive := mkDir {
  d_left : bool;
  d_zero : bool;
  d_width : list Z;
  d_prec : option (list Z);
  d_length : list Z;
  d_spec : Z
}.

Definition prec_text (o : option (list Z)) : list Z := match o with Some ds => 46 :: ds | None => [] end.

(** The text behind the percent sign. *)
Definition directive_text (d : directive) : list Z :=
  (if d_left d then [45] else []) ++ (if d_zero d then [48] else []) ++ d_width d ++ prec_text (d_prec d) ++ d_length d ++ [d_spec d].

(** The character is none that could still belong to what comes before the specifier. *)
Definition spec_char (c : Z) : Prop := c ≠ 0 ∧ is_digit c = false ∧ c ≠ 45 ∧ c ≠ 46 ∧ c ≠ 108 ∧ c ≠ 122.

Record directive_ok (d : directive) : Prop := {
  do_width : Forall (λ c, is_digit c = true) (d_width d);
  do_prec : ∀ ds, d_prec d = Some ds → Forall (λ c, is_digit c = true) ds;
  do_flags : d_left d = true → d_zero d = false;
  do_first : d_left d = false → d_zero d = false → head (d_width d) ≠ Some 48;
  do_length : d_length d ∈ [[]; [108]; [108; 108]; [122]];
  do_spec : spec_char (d_spec d)
}.

(** The number that a list of decimal digits stands for, in [usize]. *)
Definition dec (ds : list Z) : Z := foldl (λ v c, wadd (wmul v 10) (c - 48)) 0 ds.

(** A precision counts as a width with zeros where there is no width. *)
Definition zero_width (d : directive) : bool * Z :=
  let width := dec (d_width d) in
  match d_prec d with
  | Some ((_ :: _) as ds) => if negb (d_zero d) && (width =? 0) then (true, dec ds) else (d_zero d, width)
  | _ => (d_zero d, width)
  end.

(** *** The formatter reads a directive as it is written *)

Lemma decimal_at_spec m ds : Forall (λ c, is_digit c = true) ds → ∀ fuel a v, holds m a ds →
  is_digit (m (a + Z.of_nat (length ds))) = false → (length ds < fuel)%nat →
  decimal_at fuel a v m = Some (foldl (λ v c, wadd (wmul v 10) (c - 48)) v ds, a + Z.of_nat (length ds)).
Proof.
  induction 1 as [|c ds Hc Hds IH]; intros fuel a v Hm Hend Hf; (destruct fuel as [|fuel]; [simpl in Hf; lia|]); cbn [decimal_at].
  - rewrite Z.add_0_r in Hend. rewrite Hend. by rewrite Z.add_0_r.
  - apply holds_cons in Hm as [Ha Hm]. rewrite Ha, Hc. rewrite IH; [|done| |simpl in Hf; lia].
    + cbn [foldl length]. do 2 f_equal. lia.
    + rewrite <- Hend. do 2 f_equal. simpl. lia.
Qed.

Lemma is_digit_not c x : is_digit c = true → is_digit x = false → c ≠ x.
Proof. intros H1 H2 ->. congruence. Qed.

(** The first character of a text that ends with a specifier. *)
Definition tail_text (d : directive) : list Z := d_length d ++ [d_spec d].

Lemma tail_first m a d : directive_ok d → holds m a (tail_text d) → is_digit (m a) = false ∧ m a ≠ 45 ∧ m a ≠ 46.
Proof.
  intros [_ _ _ _ Hl (Hs0 & Hsd & Hs1 & Hs2 & _)] Hm. unfold tail_text in Hm.
  repeat (apply elem_of_cons in Hl as [Hl|Hl]; [rewrite Hl in Hm; apply holds_cons in Hm as [-> _]; by split_and!|]).
  by apply not_elem_of_nil in Hl.
Qed.

Lemma after_length_spec m a d : directive_ok d → holds m a (tail_text d) →
  after_length a m = a + Z.of_nat (length (d_length d)) ∧ m (a + Z.of_nat (length (d_length d))) = d_spec d.
Proof.
  intros [_ _ _ _ Hl (_ & _ & _ & _ & Hs1 & Hs2)] Hm. unfold tail_text in Hm. pose proof Hm as [H1 H2]%holds_app.
  apply holds_cons in H2 as [H2 _]. split; [|done]. unfold after_length.
  repeat (apply elem_of_cons in Hl as [Hl|Hl]; [rewrite Hl in *|]); [..|by apply not_elem_of_nil in Hl];
    cbn [app] in Hm; repeat (apply holds_cons in Hm as [?He Hm]).
  - by rewrite He, (proj2 (Z.eqb_neq _ _) Hs1), (proj2 (Z.eqb_neq _ _) Hs2), Z.add_0_r.
  - by rewrite He, He0, (proj2 (Z.eqb_neq _ _) Hs1).
  - by rewrite He, He0.
  - by rewrite He.
Qed.

Lemma precision_at_spec m fuel a d : directive_ok d → holds m a (prec_text (d_prec d) ++ tail_text d) →
  (length (prec_text (d_prec d)) < fuel)%nat →
  precision_at fuel a m = Some (match d_prec d with Some ((_ :: _) as ds) => Some (dec ds) | _ => None end,
    a + Z.of_nat (length (prec_text (d_prec d)))).
Proof.
  intros Hok Hm Hf. apply holds_app in Hm as [Hp Ht]. pose proof (tail_first _ _ _ Hok Ht) as (Hd & _ & Hdot).
  unfold precision_at. destruct (d_prec d) as [ds|] eqn:Hprec; cbn [prec_text length] in *.
  - apply holds_cons in Hp as [-> Hp]. cbn [Z.eqb Pos.eqb]. rewrite (decimal_at_spec m ds (do_prec _ Hok ds Hprec)); [|done| |lia].
    + cbn [mbind option_bind]. destruct ds as [|c ds]; [by rewrite Z.add_0_r, Z.eqb_refl|].
      rewrite (proj2 (Z.eqb_neq _ _)) by (simpl; lia). do 2 f_equal. lia.
    + rewrite <- Hd. do 2 f_equal. lia.
  - rewrite Z.add_0_r in *. by rewrite (proj2 (Z.eqb_neq _ _) Hdot).
Qed.

(** What comes behind the width starts with no digit and no minus. *)
Lemma prec_first m a d : directive_ok d → holds m a (prec_text (d_prec d) ++ tail_text d) → is_digit (m a) = false ∧ m a ≠ 45.
Proof.
  intros Hok Hm. destruct (d_prec d); cbn [prec_text app] in Hm.
  - by apply holds_cons in Hm as [-> _].
  - by destruct (tail_first _ _ _ Hok Hm) as (? & ? & ?).
Qed.

Lemma width_first m a d : directive_ok d → holds m a (d_width d ++ prec_text (d_prec d) ++ tail_text d) →
  m a ≠ 45 ∧ (head (d_width d) ≠ Some 48 → m a ≠ 48).
Proof.
  intros Hok Hm. pose proof (do_width _ Hok) as Hw. destruct (d_width d) as [|c w]; cbn [app] in Hm.
  - destruct (prec_first _ _ _ Hok Hm) as [Hd ?]. split; [done|]. intros _ H48. by rewrite H48 in Hd.
  - apply holds_cons in Hm as [-> _]. apply Forall_cons_1 in Hw as [Hw _]. split.
    + intros ->. done.
    + intros H ->. done.
Qed.

Lemma conversion_at_spec m fuel a d : directive_ok d → holds m a (directive_text d) → (length (directive_text d) < fuel)%nat →
  conversion_at fuel a m = Some (mkConv (d_left d) (zero_width d).1 (zero_width d).2 (d_spec d)
    (a + Z.of_nat (length (directive_text d)))).
Proof.
  intros Hok Hm Hf. unfold directive_text in *. fold (tail_text d) in *.
  apply holds_app in Hm as [Hleft Hm]. apply holds_app in Hm as [Hzero Hm].
  set (a1 := a + Z.of_nat (length (if d_left d then [45] else []))) in *.
  set (a2 := a1 + Z.of_nat (length (if d_zero d then [48] else []))) in *.
  destruct (width_first _ _ _ Hok Hm) as [Hn45 Hn48].
  assert ((m a =? 45) = d_left d) as El.
  { destruct (d_left d); [by apply holds_cons in Hleft as [-> _]|]. apply Z.eqb_neq. unfold a2, a1 in *. cbn [length] in *.
    rewrite Z.add_0_r in *. destruct (d_zero d); [by apply holds_cons in Hzero as [-> _]|]. cbn [length] in *. by rewrite Z.add_0_r in *. }
  assert (negb (d_left d) && (m a1 =? 48) = d_zero d) as Ez.
  { destruct (d_left d) eqn:Hl; [by rewrite (do_flags _ Hok Hl)|]. cbn [negb andb].
    destruct (d_zero d) eqn:Hz; [by apply holds_cons in Hzero as [-> _]|]. apply Z.eqb_neq.
    unfold a2 in *. cbn [length] in *. rewrite Z.add_0_r in *. by apply Hn48, (do_first _ Hok). }
  assert ((if d_left d then a + 1 else a) = a1) as Ea1 by (unfold a1; destruct (d_left d); simpl; lia).
  assert ((if d_zero d then a1 + 1 else a1) = a2) as Ea2 by (unfold a2; destruct (d_zero d); simpl; lia).
  rewrite !length_app in Hf. apply holds_app in Hm as [Hw Hm].
  unfold conversion_at. rewrite El, Ea1, Ez, Ea2.
  rewrite (decimal_at_spec m (d_width d) (do_width _ Hok)); [|done|by apply (prec_first _ _ _ Hok)|lia].
  cbn [mbind option_bind]. rewrite (precision_at_spec _ _ _ _ Hok Hm) by lia. cbn [mbind option_bind].
  apply holds_app in Hm as [_ Hm]. destruct (after_length_spec _ _ _ Hok Hm) as [Eal Es]. rewrite Eal, Es.
  fold (dec (d_width d)). unfold zero_width. rewrite !length_app.
  assert (length (tail_text d) = S (length (d_length d))) as Et by (unfold tail_text; rewrite length_app; simpl; lia).
  destruct (d_prec d) as [[|c ds]|]; [|destruct (negb (d_zero d) && (dec (d_width d) =? 0))|];
    cbn [fst snd prec_text length] in *; do 2 f_equal; unfold a2, a1; lia.
Qed.

(** ** Emission *)

Section emission.
Context {K : Type} (sys_write : Z → list Z → K → Z * K).
Context (lo hi : Z) (m0 : mem).

Definition emit_all (chunks : list (list Z)) (x : Sink * Proc K) : Sink * Proc K :=
  foldl (λ y b, emit_bytes sys_write b y) x chunks.

(** The sink writes nothing but the bytes from [lo] to [hi]. *)
Definition sink_ok (s : Sink) : Prop :=
  match s with Fd _ => True | Buf data size pos => lo ≤ data ∧ data + size ≤ hi ∧ 0 ≤ pos ≤ size end.

Record ready (x : fst_t K) : Prop := {
  rd_sink : sink_ok x.1.1;
  rd_mem : ∀ a, ¬ (lo ≤ a < hi) → pr_mem x.1.2 a = m0 a;
  rd_count : to_i32 x.2 = x.2
}.

(** From [x] to [y] the text [T] is emitted, in some number of pieces. *)
Record emits (T : list Z) (x y : fst_t K) : Prop := {
  em_ready : ready y;
  em_count : y.2 = to_i32 (x.2 + Z.of_nat (length T));
  em_chunks : ∃ chunks, mjoin chunks = T ∧ y.1 = emit_all chunks x.1
}.

Lemma emits_nil x : ready x → emits [] x x.
Proof. intros H. split; [done|by rewrite Z.add_0_r, (rd_count _ H)|by exists []]. Qed.

Lemma emits_app T1 T2 x y z : emits T1 x y → emits T2 y z → emits (T1 ++ T2) x z.
Proof.
  intros [_ Hc1 (c1 & <- & Hy)] [Hr Hc2 (c2 & <- & Hz)]. split; [done| |].
  - rewrite Hc2, Hc1, to_i32_add, length_app. f_equal. lia.
  - exists (c1 ++ c2). split; [by rewrite join_app|]. unfold emit_all in *. by rewrite foldl_app, <- Hy.
Qed.

Lemma emit_bytes_ready b s p : sink_ok s → (∀ a, ¬ (lo ≤ a < hi) → pr_mem p a = m0 a) →
  sink_ok (emit_bytes sys_write b (s, p)).1 ∧ ∀ a, ¬ (lo ≤ a < hi) → pr_mem (emit_bytes sys_write b (s, p)).2 a = m0 a.
Proof.
  intros Hs Hm. destruct s as [fd|data size pos]; cbn [emit_bytes fst snd].
  - split; [done|]. intros a Ha. unfold libc_write, ret_or_errno. destruct (sys_write fd b (pr_os p)) as [r o]. case_bool; by apply Hm.
  - destruct Hs as (H1 & H2 & H3). unfold saturating_sub. split; [cbn; lia|]. intros a Ha. cbn [on_pmem pr_mem].
    rewrite mem_write_out; [by apply Hm|]. rewrite length_take. lia.
Qed.

(** One piece, counted with its length. *)
Lemma emits_bytes b n x : ready x → n = Z.of_nat (length b) → emits b x (emit_bytes sys_write b x.1, to_i32 (x.2 + n)).
Proof.
  intros [Hs Hm Hc] ->. destruct x as [[s p] c]. destruct (emit_bytes_ready b s p Hs Hm) as [Hs' Hm']. split; [split| |]; try done.
  - apply to_i32_idem.
  - exists [b]. split; [apply app_nil_r|done].
Qed.

Lemma emits1 b x : ready x → emits [b] x (emit1 sys_write b x).
Proof. intros H. by apply emits_bytes. Qed.

Lemma emits_pad n b x : ready x → emits (replicate n b) x (emit_pad sys_write n b x).
Proof.
  revert x. induction n as [|n IH]; intros x H; [by apply emits_nil|]. cbn [emit_pad replicate].
  change (b :: replicate n b) with ([b] ++ replicate n b). pose proof (emits1 b x H) as H1. eapply emits_app; [done|].
  apply IH, H1.
Qed.

(** The text with its padding. *)
Definition padded (left : bool) (width pad : Z) (t : list Z) : list Z :=
  let fill := Z.to_nat (width - Z.of_nat (length t)) in
  if left then t ++ replicate fill 32 else replicate fill pad ++ t.

Lemma emits_padded left width pad len data t x : ready x → len = Z.of_nat (length t) →
  (∀ m, (∀ a, ¬ (lo ≤ a < hi) → m a = m0 a) → data m = t) →
  emits (padded left width pad t) x (emit_padded sys_write left width pad len data x).
Proof.
  intros Hr -> Hd. unfold padded, emit_padded. destruct left; cbv zeta.
  - rewrite (Hd _ (rd_mem _ Hr)). rewrite to_i32_add_r. pose proof (emits_bytes t _ x Hr eq_refl) as H1.
    eapply emits_app; [done|]. apply emits_pad, H1.
  - pose proof (emits_pad (Z.to_nat (width - Z.of_nat (length t))) pad x Hr) as H1. eapply emits_app; [done|].
    rewrite (Hd _ (rd_mem _ (em_ready _ _ _ H1))). rewrite to_i32_add_r. apply emits_bytes; [apply H1|done].
Qed.

Lemma emits_fixed left width pad t x : ready x → emits (padded left width pad t) x (emit_fixed sys_write left width pad t x).
Proof. intros Hr. by apply emits_padded. Qed.

(** ** Conversions *)

(** The string that an argument points to. *)
Context (str_at : Z → list Z).

Definition takes_arg (spec : Z) : bool := bool_decide (spec ∈ [115; 100; 105; 117; 120; 88; 112; 99]).

(** The text of a directive, given its argument. *)
Definition conv_text (d : directive) (v : Z) : list Z :=
  let '(zero, width) := zero_width d in
  let out := padded (d_left d) width (if zero then 48 else 32) in
  let spec := d_spec d in
  if spec =? 115 then out (if v =? 0 then [40; 110; 117; 108; 108; 41] else str_at v)
  else if (spec =? 100) || (spec =? 105) then out (int_text (to_i64 v))
  else if spec =? 117 then out (numeral 10 false v)
  else if spec =? 120 then out (numeral 16 false v)
  else if spec =? 88 then out (numeral 16 true v)
  else if spec =? 112 then [48; 120] ++ out (numeral 16 false v)
  else if spec =? 99 then out [u8 v]
  else if spec =? 37 then [37]
  else [37; spec].

(** A string argument lies outside the sink's buffer. *)
Definition string_ok (fuel : nat) (v : Z) : Prop :=
  cstring m0 v (str_at v) ∧ (length (str_at v) < fuel)%nat ∧ (v + Z.of_nat (length (str_at v)) < lo ∨ hi ≤ v).

Lemma takes_arg_false spec : takes_arg spec = false → spec ≠ 115 ∧ spec ≠ 100 ∧ spec ≠ 105 ∧ spec ≠ 117 ∧ spec ≠ 120 ∧ spec ≠ 88 ∧ spec ≠ 112 ∧ spec ≠ 99.
Proof. intros H%bool_decide_eq_false. set_solver. Qed.

(** A directive without an argument. *)
Lemma convert_literal fuel d argp next x : ready x → takes_arg (d_spec d) = false →
  ∃ y, convert sys_write fuel (mkConv (d_left d) (zero_width d).1 (zero_width d).2 (d_spec d) next) argp x = Some (y, false) ∧
    emits (conv_text d 0) x y.
Proof.
  intros Hr (N1 & N2 & N3 & N4 & N5 & N6 & N7 & N8)%takes_arg_false. unfold convert, conv_text. cbn [cv_left cv_zero cv_width cv_spec].
  destruct (zero_width d) as [zero width]. rewrite !(proj2 (Z.eqb_neq (d_spec d) _)) by done. cbn [orb].
  destruct (Z.eqb_spec (d_spec d) 37) as [Es|N9]; [eexists; split; [done|by apply emits1]|].
  eexists. split; [done|]. pose proof (emits1 37 x Hr) as H1. pose proof (emits1 (d_spec d) _ (em_ready _ _ _ H1)) as H2.
  destruct (emits_app _ _ _ _ _ H1 H2) as [H3 H4 H5]. split; [|done|done].
  destruct H3 as [Hs3 Hm3 _]. split; [done|done|apply to_i32_idem].
Qed.

(** A directive with its argument. *)
Lemma convert_arg fuel d v argp next x : ready x → takes_arg (d_spec d) = true → 0 ≤ v < 2^64 →
  read_u64 (pr_mem x.1.2) argp = v → (d_spec d = 115 → v ≠ 0 → string_ok fuel v) →
  ∃ y, convert sys_write fuel (mkConv (d_left d) (zero_width d).1 (zero_width d).2 (d_spec d) next) argp x = Some (y, true) ∧
    emits (conv_text d v) x y.
Proof.
  intros Hr Hta Hv Harg Hstr. unfold convert, conv_text. cbn [cv_left cv_zero cv_width cv_spec]. rewrite Harg.
  destruct (zero_width d) as [zero width]. cbn [fst snd]. set (pad := if zero then 48 else 32).
  pose proof (fmt_uint_spec 10 false v (or_introl eq_refl) Hv) as [H10 _].
  pose proof (fmt_uint_spec 16 false v (or_intror eq_refl) Hv) as [H16 _].
  pose proof (fmt_uint_spec 16 true v (or_intror eq_refl) Hv) as [H16u _].
  rewrite H10, H16, H16u, (fmt_int_spec _ (to_i64_range v)). cbn [mbind option_bind].
  apply bool_decide_eq_true in Hta. repeat (apply elem_of_cons in Hta as [Es|Hta]; [rewrite Es; cbn [Z.eqb Pos.eqb orb]|]);
    [..|by apply not_elem_of_nil in Hta]; try (eexists; split; [done|by apply emits_fixed]).
  - destruct (Z.eqb_spec v 0) as [->|Hne]; [eexists; split; [done|by apply emits_fixed]|].
    destruct (Hstr Es Hne) as (Hs & Hf & Hout).
    assert (∀ m, (∀ a, ¬ (lo ≤ a < hi) → m a = m0 a) → cstring m v (str_at v)) as Hst.
    { intros m Hm. apply (cstring_ext m0); [done|]. intros a Ha. apply Hm. lia. }
    rewrite (strlen_spec _ _ _ _ (Hst _ (rd_mem _ Hr)) Hf). cbn [mbind option_bind]. eexists. split; [done|].
    apply emits_padded; [done|done|]. intros m [_ Hm]%Hst. rewrite mem_read_app in Hm by lia.
    apply app_inj_1 in Hm as [Hm _]; [done|]. rewrite length_mem_read. lia.
  - eexists. split; [done|]. pose proof (emits_bytes [48; 120] 2 x Hr eq_refl) as H1. eapply emits_app; [done|].
    apply emits_fixed, H1.
Qed.

(** ** Whole formats *)

Inductive piece := Plain (c : Z) | Dir (d : directive).

Definition piece_ok (p : piece) : Prop :=
  match p with Plain c => c ≠ 0 ∧ c ≠ 37 | Dir d => directive_ok d end.

Definition piece_text (p : piece) : list Z := match p with Plain c => [c] | Dir d => 37 :: directive_text d end.

Definition format_text (ps : list piece) : list Z := mjoin (piece_text <$> ps).

(** What is printed, with the arguments in order. *)
Fixpoint output (ps : list piece) (args : list Z) : list Z :=
  match ps with
  | [] => []
  | Plain c :: ps => c :: output ps args
  | Dir d :: ps =>
      if takes_arg (d_spec d) then conv_text d (default 0 (head args)) ++ output ps (tail args)
      else conv_text d 0 ++ output ps args
  end.

(** Enough arguments, and the strings among them in place. *)
Fixpoint args_ok (bound : nat) (ps : list piece) (args : list Z) : Prop :=
  match ps with
  | [] => True
  | Plain _ :: ps => args_ok bound ps args
  | Dir d :: ps =>
      if takes_arg (d_spec d) then
        match args with
        | [] => False
        | v :: args => (d_spec d = 115 → v ≠ 0 → string_ok bound v) ∧ args_ok bound ps args
        end
      else args_ok bound ps args
  end.

(** The argument words, outside the sink's buffer. *)
Fixpoint words_at (argp : Z) (args : list Z) : Prop :=
  match args with
  | [] => True
  | v :: args => 0 ≤ v < 2^64 ∧ read_u64 m0 argp = v ∧ (argp + 8 ≤ lo ∨ hi ≤ argp) ∧ words_at (argp + 8) args
  end.

Lemma string_ok_mono b b' v : string_ok b v → (b ≤ b')%nat → string_ok b' v.
Proof. intros (? & ? & ?) Hb. split_and!; [done|lia|done]. Qed.

Lemma format_loop_spec bound ps : Forall piece_ok ps → ∀ fuel a argp args x,
  holds m0 a (format_text ps ++ [0]) → (a + Z.of_nat (length (format_text ps)) < lo ∨ hi ≤ a) →
  words_at argp args → args_ok bound ps args → (length (format_text ps) + bound < fuel)%nat → ready x →
  ∃ y, format_loop sys_write fuel a argp x = Some y ∧ emits (output ps args) x y.
Proof.
  induction 1 as [|p ps Hp Hps IH]; intros fuel a argp args x Hm Hout Hw Ha Hf Hr; (destruct fuel as [|fuel]; [lia|]); cbn [format_loop].
  - rewrite (rd_mem _ Hr) by (simpl in Hout; lia). apply holds_cons in Hm as [-> _]. exists x. split; [done|by apply emits_nil].
  - assert (format_text (p :: ps) = piece_text p ++ format_text ps) as Et by done. rewrite Et in *. clear Et.
    rewrite <- app_assoc in Hm. rewrite length_app in Hf, Hout. destruct p as [c|d]; cbn [piece_text app length] in *.
    + apply holds_cons in Hm as [H0 Hm]. destruct Hp as [Hc0 Hc37]. rewrite (rd_mem _ Hr), H0 by lia.
      rewrite (proj2 (Z.eqb_neq _ _) Hc0), (proj2 (Z.eqb_neq _ _) Hc37). cbn [negb]. pose proof (emits1 c x Hr) as H1.
      destruct (IH fuel (a + 1) argp args _ Hm ltac:(lia) Hw Ha ltac:(lia) (em_ready _ _ _ H1)) as (y & Hy & He).
      exists y. split; [done|]. by apply (emits_app [c] _ x _ y H1).
    + apply holds_cons in Hm as [H0 Hm]. rewrite (rd_mem _ Hr), H0 by lia. cbn [Z.eqb Pos.eqb negb].
      apply holds_app in Hm as [Hd Hm].
      rewrite (conversion_at_spec _ _ _ d Hp); [|apply (holds_ext m0); [done|]; intros z Hz; apply (rd_mem _ Hr); lia|lia].
      cbn [mbind option_bind cv_next]. cbn [output args_ok] in *.
      destruct (takes_arg (d_spec d)) eqn:Hta.
      * destruct args as [|v args]; [done|]. destruct Ha as [Hs Ha]. destruct Hw as (Hv & Hrd & Hwo & Hw). cbn [head default tail].
        destruct (convert_arg (S fuel) d v argp (a + 1 + Z.of_nat (length (directive_text d))) x Hr Hta Hv) as (y1 & -> & He1).
        { rewrite <- Hrd. apply read_u64_ext. intros z Hz. apply (rd_mem _ Hr). lia. }
        { intros E N. eapply string_ok_mono; [by apply Hs|]. lia. }
        cbn [mbind option_bind].
        destruct (IH fuel _ (argp + 8) args y1 Hm ltac:(lia) Hw Ha ltac:(lia) (em_ready _ _ _ He1)) as (y & Hy & He).
        exists y. split; [done|]. by apply (emits_app _ _ x y1 y).
      * destruct (convert_literal (S fuel) d argp (a + 1 + Z.of_nat (length (directive_text d))) x Hr Hta) as (y1 & -> & He1).
        cbn [mbind option_bind].
        destruct (IH fuel _ argp args y1 Hm ltac:(lia) Hw Ha ltac:(lia) (em_ready _ _ _ He1)) as (y & Hy & He).
        exists y. split; [done|]. by apply (emits_app _ _ x y1 y).
Qed.
End emission.

(** ** Into a buffer *)

Section buffer.
Context {K : Type} (sys_write : Z → list Z → K → Z * K).

Record filled (data size pos : Z) (T : list Z) (p : Proc K) (y : Sink * Proc K) : Prop := {
  fl_sink : y.1 = Buf data size (pos + Z.min (Z.of_nat (length T)) (size - pos));
  fl_errno : pr_errno y.2 = pr_errno p;
  fl_os : pr_os y.2 = pr_os p;
  fl_mem : ∀ a, pr_mem y.2 a = mem_write (data + pos) (take (Z.to_nat (size - pos)) T) (pr_mem p) a
}.

(** Writing two lists one after the other. *)
Lemma mem_write_app a x y m z : mem_write (a + Z.of_nat (length x)) y (mem_write a x m) z = mem_write a (x ++ y) m z.
Proof.
  destruct (decide (a ≤ z < a + Z.of_nat (length x))) as [Hx|Hx].
  - rewrite mem_write_out by lia. destruct (lookup_lt_is_Some_2 x (Z.to_nat (z - a))) as [b Hb]; [lia|].
    rewrite (mem_write_in a x m z b) by (lia || done). symmetry. apply mem_write_in; [lia|]. by apply lookup_app_l_Some.
  - destruct (decide (a + Z.of_nat (length x) ≤ z < a + Z.of_nat (length x) + Z.of_nat (length y))) as [Hy|Hy].
    + destruct (lookup_lt_is_Some_2 y (Z.to_nat (z - (a + Z.of_nat (length x))))) as [b Hb]; [lia|].
      rewrite (mem_write_in _ y _ z b) by (lia || done). symmetry. apply mem_write_in; [lia|].
      rewrite lookup_app_r by lia. rewrite <- Hb. f_equal. lia.
    + rewrite !mem_write_out; [done|rewrite length_app; lia|lia|lia].
Qed.

Lemma emit_all_filled data size chunks : ∀ pos p, 0 ≤ pos ≤ size →
  filled data size pos (mjoin chunks) p (emit_all sys_write chunks (Buf data size pos, p)).
Proof.
  induction chunks as [|b chunks IH]; intros pos p Hpos.
  - split; cbn [emit_all foldl fst snd mjoin list_join length]; try done.
    + f_equal. lia.
    + intros a. rewrite take_nil, mem_write_out; [done|]. simpl. lia.
  - cbn [emit_all foldl]. change (foldl _ ?x chunks) with (emit_all sys_write chunks x). cbn [emit_bytes].
    unfold saturating_sub. set (n := Z.min (Z.of_nat (length b)) (Z.max 0 (size - pos))). assert (0 ≤ n ≤ size - pos) as Hn by lia.
    destruct (IH (pos + n) (on_pmem (mem_write (data + pos) (take (Z.to_nat n) b)) p) ltac:(lia)) as [Hs He Ho Hm].
    change (mjoin (b :: chunks)) with (b ++ mjoin chunks). split; [|done|done|].
    + rewrite Hs, length_app. f_equal. lia.
    + intros a. rewrite Hm. cbn [on_pmem pr_mem]. rewrite take_app.
      replace (take (Z.to_nat (size - pos)) b) with (take (Z.to_nat n) b).
      2: { destruct (decide (Z.of_nat (length b) ≤ size - pos)); [rewrite !take_ge by lia; done|f_equal; lia]. }
      rewrite <- mem_write_app, length_take. replace (data + (pos + n)) with (data + pos + Z.of_nat (Z.to_nat n `min` length b)) by lia.
      by replace (Z.to_nat (size - (pos + n))) with (Z.to_nat (size - pos) - length b)%nat by lia.
Qed.

Section call.
Context (str_at : Z → list Z) (ps : list piece) (args : list Z) (bound fuel : nat) (fmt argv : Z) (p : Proc K).
Let T := output str_at ps args.
Context (Hps : Forall piece_ok ps) (Hfmt : cstring (pr_mem p) fmt (format_text ps)).
Context (Hfuel : (length (format_text ps) + bound < fuel)%nat).

Lemma do_format_spec lo hi sink : sink_ok lo hi sink →
  fmt + Z.of_nat (length (format_text ps)) < lo ∨ hi ≤ fmt → words_at lo hi (pr_mem p) argv args →
  args_ok lo hi (pr_mem p) str_at bound ps args →
  ∃ chunks, mjoin chunks = T ∧
    do_format sys_write fuel sink fmt argv p = Some (emit_all sys_write chunks (sink, p), to_i32 (Z.of_nat (length T))).
Proof.
  intros Hs Hout Hw Ha. destruct (format_loop_spec sys_write lo hi (pr_mem p) str_at bound ps Hps fuel fmt argv args ((sink, p), 0))
    as ([y c] & Hy & [_ Hc (chunks & Hj & Hch)]); try done.
  { by apply cstring_holds. }
  exists chunks. split; [done|]. unfold do_format. rewrite Hy. cbn [fst snd] in *. by rewrite Hc, Hch.
Qed.

(** The buffer of [snprintf]. *)
Lemma snprintf_fills buf size : 0 < size → fmt + Z.of_nat (length (format_text ps)) < buf ∨ buf + size ≤ fmt →
  words_at buf (buf + size) (pr_mem p) argv args → args_ok buf (buf + size) (pr_mem p) str_at bound ps args →
  ∃ p', snprintf_impl sys_write fuel buf size fmt argv p = Some (to_i32 (Z.of_nat (length T)), p') ∧
    mem_read (pr_mem p') buf (Z.of_nat (length (take (Z.to_nat (size - 1)) T)) + 1) = take (Z.to_nat (size - 1)) T ++ [0] ∧
    (∀ a, ¬ (buf ≤ a < buf + size) → pr_mem p' a = pr_mem p a) ∧ pr_errno p' = pr_errno p ∧ pr_os p' = pr_os p.
Proof.
  intros Hsize Hout Hw Ha. destruct (do_format_spec buf (buf + size) (Buf buf size 0)) as (chunks & Hj & Hrun); try done.
  { cbn. lia. }
  unfold snprintf_impl. rewrite (proj2 (Z.eqb_neq _ _)), Hrun by lia. cbn [mbind option_bind fst snd].
  destruct (emit_all_filled buf size chunks 0 p ltac:(lia)) as [Hs He Ho Hm]. rewrite Hj in *.
  eexists. split; [done|]. rewrite Hs. cbn [written on_pmem pr_mem pr_errno pr_os]. split_and!; [|  |done|done].
  - set (U := take (Z.to_nat (size - 1)) T). assert (length U = Z.to_nat (Z.min (Z.of_nat (length T)) (size - 1))) as HU.
    { unfold U. rewrite length_take. lia. }
    replace (Z.min (0 + Z.min (Z.of_nat (length T)) (size - 0)) (size - 1)) with (Z.of_nat (length U)) by lia.
    rewrite mem_read_app by lia. f_equal; [|by rewrite mem_read_1, put_byte_eq].
    etrans; [|apply (mem_read_write buf U (pr_mem p))]. apply mem_read_ext. intros a Hx. rewrite put_byte_ne by lia.
    rewrite Hm, Z.add_0_r, Z.sub_0_r. destruct (lookup_lt_is_Some_2 U (Z.to_nat (a - buf))) as [b Hb]; [lia|].
    rewrite (mem_write_in _ U _ _ b) by (done || lia). apply mem_write_in; [lia|]. unfold U in Hb. apply lookup_take_Some in Hb as [Hb _].
    apply lookup_take_Some. split; [done|lia].
  - intros a Hx. rewrite put_byte_ne by lia. rewrite Hm, Z.add_0_r. apply mem_write_out. rewrite length_take. lia.
Qed.
End call.
End buffer.


(** C35: [snprintf] into any buffer that does not overlap its arguments writes
    the text up to the size of the buffer less one, ends it with a NUL, touches
    nothing else, and returns the length of the whole text; and [strtol] reads
    back the number that the conversion of a [long] has printed, for every
    number. *)
Theorem snprintf_strtol_roundtrip {K} (sys_write : Z → list Z → K → Z * K) v fuel buf size fmt argv (p : Proc K) :
  - 2^63 ≤ v < 2^63 → 22 ≤ size → cstring (pr_mem p) fmt [37; 108; 100] → fmt + 3 < buf ∨ buf + size ≤ fmt →
  read_u64 (pr_mem p) argv = u64 v → argv + 8 ≤ buf ∨ buf + size ≤ argv → (22 < fuel)%nat →
  ∃ p', snprintf_impl sys_write fuel buf size fmt argv p = Some (Z.of_nat (length (int_text v)), p') ∧
    cstring (pr_mem p') buf (int_text v) ∧ strtol fuel buf 0 10 (pr_mem p') = Some (v, pr_mem p') ∧
    (∀ a, ¬ (buf ≤ a < buf + size) → pr_mem p' a = pr_mem p a).
Proof.
  intros Hv Hsize Hfmt Hout Harg Hargout Hf. pose (d := mkDir false false [] None [108] 100).
  assert (length (int_text v) ≤ 21)%nat as Hlen.
  { unfold int_text. destruct (Z.ltb_spec v 0);
      [destruct (fmt_uint_spec 10 false (u64 (- v))) as (_ & ds & -> & _ & _ & _ & ?); [by left|apply u64_range|]|
       destruct (fmt_uint_spec 10 false v) as (_ & ds & -> & _ & _ & _ & ?); [by left|lia|]]; cbn [length]; rewrite length_fmap; lia. }
  assert (output (λ _, []) [Dir d] [u64 v] = int_text v) as HT.
  { assert (to_i64 (u64 v) = v) as Hi.
    { etrans; [|apply (to_i64_small v Hv)]. apply to_i64_congr. unfold u64. by rewrite Z.mod_mod. }
    change (output _ _ _) with (padded false 0 32 (int_text (to_i64 (u64 v))) ++ []). rewrite app_nil_r, Hi. unfold padded.
    by replace (Z.to_nat _) with 0%nat by lia. }
  destruct (snprintf_fills sys_write (λ _, []) [Dir d] [u64 v] 0 fuel fmt argv p) with (buf := buf) (size := size)
    as (p' & Hrun & Hread & Hsame & _ & _); try done.
  { apply Forall_singleton. split; cbn; try done. set_solver. }
  { cbn. lia. }
  { lia. }
  { split_and!; [apply u64_range..|done|done|done]. }
  rewrite HT, take_ge in * by lia.
  assert (cstring (pr_mem p') buf (int_text v)) as Hs by (split; [apply int_text_nonzero; lia|done]).
  exists p'. rewrite Hrun. split_and!; [|done|apply strtol_int; [done|done|lia]|done].
  do 2 f_equal. apply to_i32_small. lia.
Qed.

(** *** Witnesses *)

(** A kernel that keeps what is written. *)
Definition trace_write (fd : Z) (bs : list Z) (o : list (Z * list Z)) : Z * list (Z * list Z) :=
  (Z.of_nat (length bs), o ++ [(fd, bs)]).

(** The format n=%-4d%s and the arguments -7 and ok. *)
Definition fmt_demo : list piece := [Plain 110; Plain 61; Dir (mkDir true false [52] None [] 100); Dir (mkDir false false [] None [] 115)].
Definition fmt_demo_mem : mem :=
  mem_write 0x1000 (format_text fmt_demo) (mem_write 0x2000 (le_encode 8 (u64 (-7)) ++ le_encode 8 0x3000)
    (mem_write 0x3000 [111; 107] (mem_write 0x4000 [37; 108; 100] (λ _, 0)))).
Definition fmt_demo_proc : Proc (list (Z * list Z)) := mkProc fmt_demo_mem 0 [].
Definition fmt_demo_str (v : Z) : list Z := if v =? 0x3000 then [111; 107] else [].


Lemma snprintf_strtol_roundtrip_witness :
  ∃ p', snprintf_impl trace_write 30 0x5000 32 0x4000 0x2000 fmt_demo_proc = Some (Z.of_nat (length (int_text (-7))), p') ∧
    cstring (pr_mem p') 0x5000 (int_text (-7)) ∧ strtol 30 0x5000 0 10 (pr_mem p') = Some (-7, pr_mem p') ∧
    (∀ a, ¬ (0x5000 ≤ a < 0x5000 + 32) → pr_mem p' a = pr_mem fmt_demo_proc a).
Proof.
  apply (snprintf_strtol_roundtrip trace_write (-7) 30 0x5000 32 0x4000 0x2000 fmt_demo_proc); try lia.
  - split; [by apply (bool_decide_unpack _)|vm_compute; reflexivity].
  - vm_compute. reflexivity.
Defined.
