(* ===== verification/LibcHeap.v ===== *)
(** * The heap of the user library (src/userland/libc/src/mem.rs, string.rs)

    The allocator takes memory from the kernel with [brk].  What it needs of
    [brk] is the class [BrkLaws]; the kernel's address spaces are an instance. *)

From Stdlib Require Import ZArith Lia List.
From stdpp Require Import base list option numbers relations.
From S2P Require Import Prelude Words Buddy Memory LibcMem LibcString Paging PagingSpec Vmm VmmInv.

Local Open Scope Z_scope.

(** ** What the allocator needs *)

(** [brk(a)] as the library sees it: the new break, in [usize]. *)
Class BrkOps (S : Type) := brk_op : Z → st S Z.

(** A query returns the break; a request for more returns the new break, which
    is the old one if the request failed and at least the request otherwise. *)
Class BrkLaws (S : Type) `{BrkOps S} (brk_inv : S → Prop) (brk_of : S → Z) := {
  brk_range s : brk_inv s → 0 < brk_of s < 2^64;
  brk_query s : brk_inv s → brk_op 0 s = Ret (brk_of s, s);
  brk_grow a s : brk_inv s → brk_of s ≤ a → a + PAGE_SIZE < 2^64 →
    ∃ s', brk_op a s = Ret (brk_of s', s') ∧ brk_inv s' ∧ (brk_of s' = brk_of s ∨ a ≤ brk_of s')
}.

(** ** The allocator *)

Section heap.
Context {S : Type} `{BrkOps S}.

Record Heap := mkHeap { hp_ptr : Z; hp_mem : mem; hp_errno : Z; hp_os : S }.

Definition on_hmem (f : mem → mem) (h : Heap) : Heap := mkHeap (hp_ptr h) (f (hp_mem h)) (hp_errno h) (hp_os h).

Definition ENOMEM : Z := 12.

Definition libc_brk (a : Z) : st Heap Z := λ h,
  match brk_op a (hp_os h) with Ret (r, s) => Ret (r, mkHeap (hp_ptr h) (hp_mem h) (hp_errno h) s) | Panic => Panic end.

Definition set_hptr (p : Z) (h : Heap) : Heap := mkHeap p (hp_mem h) (hp_errno h) (hp_os h).

Definition heap_init : st Heap Z := start ← libc_brk 0; st_modify (set_hptr start) ≫= λ _, mret start.

Definition alloc_size (size : Z) : Z := Z.land (wadd (wadd size 8) 15) (wnot 15).

Definition malloc (size : Z) : st Heap Z :=
  if size =? 0 then mret 0
  else
    p ← st_get hp_ptr;
    p ← (if p =? 0 then heap_init else mret p);
    let new_ptr := wadd p (alloc_size size) in
    actual ← libc_brk new_ptr;
    if actual <? new_ptr then
      st_modify (λ h, mkHeap (hp_ptr h) (hp_mem h) ENOMEM (hp_os h)) ≫= λ _, mret 0
    else
      st_modify (on_hmem (write_u64 p size)) ≫= λ _,
      st_modify (set_hptr actual) ≫= λ _, mret (wadd p 8).

Definition calloc (nmemb size : Z) : st Heap Z :=
  let total := default 0 (checked_mul nmemb size) in
  p ← malloc total;
  (if negb (p =? 0) then st_modify (on_hmem (Libc.memset p 0 total)) else mret tt) ≫= λ _, mret p.

Definition realloc (ptr new_size : Z) : st Heap Z :=
  if ptr =? 0 then malloc new_size
  else
    old_size ← st_get (λ h, read_u64 (hp_mem h) (ptr - 8));
    if new_size <=? old_size then mret ptr
    else
      new_ptr ← malloc new_size;
      (if negb (new_ptr =? 0) then st_modify (on_hmem (Libc.memcpy new_ptr ptr old_size)) else mret tt) ≫= λ _,
      mret new_ptr.

Definition free (ptr : Z) : st Heap unit := mret tt.

Definition strdup (fuel : nat) (s : Z) : st Heap (option Z) :=
  n ← st_get (λ h, strlen fuel s (hp_mem h));
  match n with
  | None => mret None
  | Some n =>
      p ← malloc (wadd n 1);
      (if negb (p =? 0) then st_modify (on_hmem (Libc.memcpy p s (wadd n 1))) else mret tt) ≫= λ _, mret (Some p)
  end.
End heap.

Arguments Heap : clear implicits.

(** ** Sizes *)

Lemma land_not15 x : 0 ≤ x < 2^64 → Z.land x (wnot 15) = x - x mod 16.
Proof.
  intros Hx. change (wnot 15) with (Z.shiftl (Z.ones 60) 4).
  assert (x - x mod 16 = Z.shiftl (Z.shiftr x 4) 4) as ->.
  { rewrite Z.shiftl_mul_pow2, Z.shiftr_div_pow2 by lia. change (2^4) with 16. pose proof (Z.div_mod x 16). lia. }
  apply Z.bits_inj'. intros i Hi. rewrite Z.land_spec. destruct (decide (i < 4)) as [Hlt|Hge].
  - rewrite !Z.shiftl_spec_low by lia. by rewrite andb_false_r.
  - rewrite !Z.shiftl_spec_high, Z.shiftr_spec by lia. replace (i - 4 + 4) with i by lia.
    destruct (decide (i < 64)) as [H64|H64].
    + rewrite Z.ones_spec_low by lia. apply andb_true_r.
    + rewrite Z.ones_spec_high by lia. rewrite andb_false_r. symmetry. apply Z.bits_above_log2; [lia|].
      destruct (decide (x = 0)) as [->|]; [simpl; lia|]. apply Z.log2_lt_pow2; [lia|]. eapply Z.lt_le_trans; [apply Hx|].
      apply Z.pow_le_mono_r; lia.
Qed.

Lemma alloc_size_spec size : 0 < size → size + 23 < 2^64 → size + 8 ≤ alloc_size size < size + 24 ∧ alloc_size size mod 16 = 0.
Proof.
  intros H0 Hm. unfold alloc_size. rewrite (wadd_small size 8), wadd_small, land_not15 by lia.
  pose proof (Z.mod_pos_bound (size + 8 + 15) 16). split; [lia|]. rewrite Zminus_mod_idemp_r, Z.sub_diag. done.
Qed.

(** ** The blocks of a program *)

Lemma set_loop_spec n : ∀ i s c m x, Libc.set_loop i n s c m x = mem_fill (s + i) (u8 c) (Z.of_nat n) m x.
Proof.
  induction n as [|n IH]; intros i s c m x; cbn [Libc.set_loop]; [by rewrite mem_fill_out by lia|]. rewrite IH.
  destruct (decide (s + i ≤ x < s + i + Z.of_nat (S n))) as [Hx|Hx].
  - rewrite (mem_fill_in (s + i)) by done. destruct (decide (x = s + i)) as [->|].
    + rewrite mem_fill_out by lia. apply put_byte_eq.
    + by rewrite mem_fill_in by lia.
  - rewrite !mem_fill_out by lia. apply put_byte_ne. lia.
Qed.

(** A copy writes nothing but its destination. *)
Lemma copy_up_out i n dst src m x : ¬ (dst + i ≤ x < dst + i + Z.of_nat n) → Libc.copy_up i n dst src m x = m x.
Proof.
  revert i m. induction n as [|n IH]; intros i m Hx; [done|]. cbn [Libc.copy_up]. rewrite IH by lia. apply put_byte_ne. lia.
Qed.

Lemma memset_spec s c n m x : 0 ≤ n → Libc.memset s c n m x = mem_fill s (u8 c) n m x.
Proof. intros Hn. unfold Libc.memset. rewrite set_loop_spec, Z.add_0_r. by rewrite Z2Nat.id. Qed.

Section blocks.
Context {S : Type} `{BrkOps S} (brk_inv : S → Prop) (brk_of : S → Z) `{!BrkLaws S brk_inv brk_of}.

(** A block is its address and its size; the size is also kept in front of it. *)
Definition apart (b c : Z * Z) : Prop := b.1 + b.2 ≤ c.1 - 8 ∨ c.1 + c.2 ≤ b.1 - 8.

Record block_ok (h : Heap S) (b : Z * Z) : Prop := {
  bo_size : 0 < b.2 < 2^64;
  bo_low : 8 < b.1;
  bo_high : b.1 + b.2 ≤ brk_of (hp_os h);
  bo_header : read_u64 (hp_mem h) (b.1 - 8) = b.2
}.

Record heap_wf (h : Heap S) (bs : list (Z * Z)) : Prop := {
  hw_inv : brk_inv (hp_os h);
  hw_ptr : hp_ptr h = brk_of (hp_os h) ∨ (hp_ptr h = 0 ∧ bs = []);
  hw_blocks : Forall (block_ok h) bs;
  hw_apart : ForallOrdPairs apart bs
}.

(** Addresses are left for a block of that size. *)
Definition roomy (h : Heap S) (size : Z) : Prop := brk_of (hp_os h) + size + 24 + PAGE_SIZE ≤ 2^64.

(** A block keeps its header where its bytes in front of it do not change. *)
Lemma block_ok_mono h h' b : block_ok h b → brk_of (hp_os h) ≤ brk_of (hp_os h') →
  (∀ x, b.1 - 8 ≤ x < b.1 → hp_mem h' x = hp_mem h x) → block_ok h' b.
Proof.
  intros [H1 H2 H3 H4] Hb Hm. split; [done|done|lia|]. rewrite <- H4. apply read_u64_ext. intros x Hx. apply Hm. lia.
Qed.

(** What [malloc] returns: nothing, or a new block behind the break. *)
Record fresh_block (h h' : Heap S) (p size : Z) : Prop := {
  fb_ptr : p = brk_of (hp_os h) + 8;
  fb_end : hp_ptr h' = brk_of (hp_os h');
  fb_room : p + size ≤ brk_of (hp_os h');
  fb_header : read_u64 (hp_mem h') (p - 8) = size;
  fb_mem : ∀ x, ¬ (p - 8 ≤ x < p) → hp_mem h' x = hp_mem h x
}.

Lemma malloc_spec h bs size : heap_wf h bs → 0 < size → roomy h size →
  ∃ p h', malloc size h = Ret (p, h') ∧ brk_inv (hp_os h') ∧ brk_of (hp_os h) ≤ brk_of (hp_os h') ∧ (p = 0 ∧ hp_mem h' = hp_mem h ∧ hp_ptr h' = brk_of (hp_os h') ∨ fresh_block h h' p size).
Proof.
  intros [Hinv Hptr _ _] Hs Hroom. unfold roomy in Hroom. pose proof (brk_range _ Hinv) as Hr. unfold PAGE_SIZE in Hroom.
  destruct (alloc_size_spec size ltac:(lia) ltac:(lia)) as [Ha _].
  unfold malloc. rewrite (proj2 (Z.eqb_neq _ _)) by lia.
  assert (∃ h1, (p ← st_get hp_ptr; (if p =? 0 then heap_init else mret p)) h = Ret (brk_of (hp_os h), h1) ∧
    hp_os h1 = hp_os h ∧ hp_mem h1 = hp_mem h ∧ hp_ptr h1 = brk_of (hp_os h)) as (h1 & Hrun & Hos & Hmem & Hp1).
  { unfold mbind, st_bind, st_get. destruct (Z.eqb_spec (hp_ptr h) 0) as [Hz|Hnz].
    - unfold heap_init, libc_brk, mbind, st_bind. rewrite (brk_query _ Hinv). by eexists.
    - destruct Hptr as [Hp|[? _]]; [|done]. exists h. by rewrite Hp. }
  destruct (brk_grow (brk_of (hp_os h) + alloc_size size) (hp_os h) Hinv) as (s' & Hg & Hinv' & Hcase); [lia|unfold PAGE_SIZE; lia|].
  assert (∀ A (f : Z → st (Heap S) A), (p ← st_get hp_ptr; p ← (if p =? 0 then heap_init else mret p); f p) h = f (brk_of (hp_os h)) h1) as Hbind.
  { intros A f. unfold mbind, st_bind, st_get in *. by rewrite Hrun. }
  rewrite Hbind. cbv zeta. rewrite wadd_small by lia.
  unfold libc_brk, mbind, st_bind. rewrite Hos, Hg. pose proof (brk_range _ Hinv') as Hr'.
  destruct (Z.ltb_spec (brk_of s') (brk_of (hp_os h) + alloc_size size)) as [Hlt|Hge].
  - do 2 eexists. split; [done|]. cbn [hp_os hp_mem hp_ptr]. destruct Hcase as [Hc|Hc]; [|lia]. split_and!; [done|lia|]. left. split_and!; congruence.
  - do 2 eexists. split; [done|]. cbn. split_and!; [done|lia|]. right.
    assert (wadd (brk_of (hp_os h)) 8 = brk_of (hp_os h) + 8) as -> by (apply wadd_small; lia).
    split; cbn; try done; [lia| |].
    + rewrite Z.add_simpl_r. apply read_write_u64. lia.
    + intros x Hx. rewrite write_u64_out by lia. by rewrite Hmem.
Qed.

(** The fresh block is apart from all others. *)
Lemma fresh_block_wf h h' bs p size : heap_wf h bs → brk_inv (hp_os h') → brk_of (hp_os h) ≤ brk_of (hp_os h') → 0 < size < 2^64 →
  fresh_block h h' p size → heap_wf h' ((p, size) :: bs).
Proof.
  intros [Hinv _ Hb Ha] Hinv' Hle Hs [Hp He Hroom Hhd Hm]. pose proof (brk_range _ Hinv) as Hr. rewrite Forall_forall in Hb.
  split; [done|by left| |].
  - apply Forall_cons. split; [split; cbn; [lia|lia|lia|done]|]. apply Forall_forall. intros b Hin. specialize (Hb b Hin).
    apply (block_ok_mono h); [done|done|]. intros x Hx. apply Hm. destruct Hb. lia.
  - constructor; [|done]. apply Forall_forall. intros b Hin. specialize (Hb b Hin). destruct Hb. right. cbn. lia.
Qed.

(** Changes inside the blocks, or behind the break. *)
Lemma heap_wf_mem h h' bs : heap_wf h bs → hp_os h' = hp_os h → hp_ptr h' = hp_ptr h →
  (∀ b x, b ∈ bs → b.1 - 8 ≤ x < b.1 → hp_mem h' x = hp_mem h x) → heap_wf h' bs.
Proof.
  intros [Hinv Hp Hb Ha] Ho Hq Hm. split; [by rewrite Ho|by rewrite Ho, Hq| |done]. rewrite Forall_forall in *.
  intros b Hin. apply (block_ok_mono h); [by apply Hb|by rewrite Ho|]. intros x Hx. by apply (Hm b).
Qed.

Lemma malloc_fails_wf h h' bs : heap_wf h bs → brk_inv (hp_os h') → brk_of (hp_os h) ≤ brk_of (hp_os h') →
  hp_mem h' = hp_mem h → hp_ptr h' = brk_of (hp_os h') → heap_wf h' bs.
Proof.
  intros [Hinv _ Hb Ha] Hinv' Hle Hm Hp. split; [done|by left| |done]. eapply Forall_impl; [exact Hb|].
  intros b Hbo. apply (block_ok_mono h); [done|done|]. intros x _. by rewrite Hm.
Qed.

(** *** Runs *)

Definition grow (p n : Z) (bs : list (Z * Z)) : list (Z * Z) := if p =? 0 then bs else (p, n) :: bs.

(** A program that allocates, and writes to its blocks only. *)
Inductive heap_step : Heap S * list (Z * Z) → Heap S * list (Z * Z) → Prop :=
  | hs_malloc h bs size p h' : 0 ≤ size < 2^64 → roomy h size → malloc size h = Ret (p, h') → heap_step (h, bs) (h', grow p size bs)
  | hs_calloc h bs nmemb size p h' : 0 ≤ nmemb → 0 ≤ size → roomy h (default 0 (checked_mul nmemb size)) → calloc nmemb size h = Ret (p, h') →
      heap_step (h, bs) (h', grow p (default 0 (checked_mul nmemb size)) bs)
  | hs_realloc h bs ptr n size p h' : (ptr, n) ∈ bs → 0 ≤ size < 2^64 → roomy h size → realloc ptr size h = Ret (p, h') →
      heap_step (h, bs) (h', if size <=? n then bs else grow p size bs)
  | hs_free h bs ptr h' : free ptr h = Ret (tt, h') → heap_step (h, bs) (h', bs)
  | hs_write h bs ptr n x b : (ptr, n) ∈ bs → ptr ≤ x < ptr + n → heap_step (h, bs) (on_hmem (put_byte x b) h, bs).

Lemma malloc_wf h bs size p h' : heap_wf h bs → 0 ≤ size < 2^64 → roomy h size → malloc size h = Ret (p, h') → heap_wf h' (grow p size bs).
Proof.
  intros Hwf Hs Hroom Hrun. destruct (decide (size = 0)) as [->|Hne]; [by injection Hrun as <- <-|].
  destruct (malloc_spec h bs size Hwf ltac:(lia) Hroom) as (p1 & h1 & Hrun1 & Hinv & Hle & Hcase).
  rewrite Hrun1 in Hrun. injection Hrun as <- <-. unfold grow. destruct Hcase as [(-> & Hm & Hp)|Hf].
  - by apply (malloc_fails_wf h).
  - pose proof (brk_range _ (hw_inv _ _ Hwf)). rewrite (proj2 (Z.eqb_neq _ _)) by (rewrite (fb_ptr _ _ _ _ Hf); lia).
    apply (fresh_block_wf h); [done|done|done|lia|done].
Qed.

(** Blocks keep their headers when one of them is written. *)
Lemma block_write_apart bs b c x : ForallOrdPairs apart bs → b ∈ bs → c ∈ bs → 0 < c.2 → b.1 ≤ x < b.1 + b.2 → ¬ (c.1 - 8 ≤ x < c.1).
Proof.
  intros Ha Hb Hc Hc2 Hx Hin. assert (b = c ∨ apart b c ∨ apart c b) as [->|[[|]|[|]]]; [|lia..].
  induction Ha as [|d bs Hd _ IH]; [by apply not_elem_of_nil in Hb|]. rewrite Forall_forall in Hd.
  apply elem_of_cons in Hb as [->|Hb], Hc as [->|Hc]; auto.
Qed.

Lemma heap_wf_write h bs b f : heap_wf h bs → b ∈ bs → (∀ x, ¬ (b.1 ≤ x < b.1 + b.2) → f (hp_mem h) x = hp_mem h x) →
  heap_wf (on_hmem f h) bs.
Proof.
  intros Hwf Hb Hf. apply (heap_wf_mem h); [done..|]. intros c x Hc Hx. cbn. apply Hf. intros Hin. destruct Hwf as [_ _ Hbs Ha].
  rewrite Forall_forall in Hbs. by apply (block_write_apart bs b c x Ha Hb Hc); [apply (Hbs c Hc)|..].
Qed.

Lemma heap_step_wf y y' : heap_step y y' → heap_wf y.1 y.2 → heap_wf y'.1 y'.2.
Proof.
  intros Hst Hwf. destruct Hst as [h bs size p h' Hs Hroom Hrun|h bs nmemb size p h' Hn Hs Hroom Hrun
    |h bs ptr n size p h' Hin Hs Hroom Hrun|h bs ptr h' Hrun|h bs ptr n x b Hin Hx]; cbn [fst snd] in *.
  - by apply (malloc_wf h _ size p).
  - unfold calloc in Hrun. set (total := default 0 _) in *.
    assert (0 ≤ total < 2^64) as Ht by (unfold total, checked_mul; destruct (Z.ltb_spec (nmemb * size) (2^64)); simpl; lia).
    apply bind_Ret in Hrun as (p1 & h1 & Hm & Hrun). pose proof (malloc_wf _ _ _ _ _ Hwf Ht Hroom Hm) as Hwf1.
    unfold grow in *. destruct (Z.eqb_spec p1 0) as [->|Hp1]; cbn [negb] in Hrun.
    + by injection Hrun as <- <-.
    + injection Hrun as <- <-. rewrite (proj2 (Z.eqb_neq _ _) Hp1) in *. apply (heap_wf_write _ _ (p1, total)); [done|by apply list_elem_of_here|].
      intros x Hx. rewrite memset_spec by lia. by apply mem_fill_out.
  - unfold realloc in Hrun. pose proof (hw_blocks _ _ Hwf) as Hb. rewrite Forall_forall in Hb. destruct (Hb _ Hin) as [Hb1 Hb2 Hb3 Hb4].
    cbn [fst snd] in *. rewrite (proj2 (Z.eqb_neq _ _)) in Hrun by lia. unfold mbind at 1, st_bind at 1, st_get in Hrun. rewrite Hb4 in Hrun.
    destruct (Z.leb_spec size n) as [Hle|Hgt]; [by injection Hrun as <- <-|].
    apply bind_Ret in Hrun as (p1 & h1 & Hm & Hrun). pose proof (malloc_wf _ _ _ _ _ Hwf Hs Hroom Hm) as Hwf1.
    unfold grow in *. destruct (Z.eqb_spec p1 0) as [->|Hp1]; cbn [negb] in Hrun.
    + by injection Hrun as <- <-.
    + injection Hrun as <- <-. rewrite (proj2 (Z.eqb_neq _ _) Hp1) in *. apply (heap_wf_write _ _ (p1, size)); [done|by apply list_elem_of_here|].
      intros x Hx. cbn [fst snd] in Hx. apply (copy_up_out _ _ p1 ptr). lia.
  - by injection Hrun as <-.
  - apply (heap_wf_write _ _ (ptr, n)); [done|done|]. intros y Hy. cbn [fst snd] in Hy. apply put_byte_ne. lia.
Qed.

Lemma heap_reachable_wf y y' : rtc heap_step y y' → heap_wf y.1 y.2 → heap_wf y'.1 y'.2.
Proof. induction 1 as [|y y1 y2 Hs _ IH]; [done|]. intros Hwf. by apply IH, (heap_step_wf y). Qed.
End blocks.

(** ** The kernel's address spaces *)

Section kernel.
Context {M : Type} `{Machine M}.

(** The result of the system call is an [isize] that the library takes as an address. *)
#[export] Instance kernel_brk : BrkOps (M * AddressSpace) := λ a s,
  match brk a s with Ret (r, s') => Ret (u64 (to_i64 r), s') | Panic => Panic end.

Definition heap_slot (a : AddressSpace) (rs : list (option VmaRegion)) : option nat :=
  position (λ o, match o with Some r => v_start r =? heap_start a | None => false end) rs.

Definition break_of (s : M * AddressSpace) : Z := if negb (heap_end s.2 =? 0) then heap_end s.2 else heap_start s.2.

(** The heap starts at a page, and its VMA, if there is one, ends at the break. *)
Record heap_ok (s : M * AddressSpace) : Prop := {
  ho_start : 0 < heap_start s.2 < 2^64;
  ho_aligned : aligned (heap_start s.2);
  ho_vma : match heap_slot s.2 (regions s.2) with
           | None => heap_end s.2 = 0
           | Some idx => ∃ r, regions s.2 !! idx = Some (Some r) ∧ v_end r = heap_end s.2 ∧ heap_start s.2 < heap_end s.2 < 2^64
           end
}.

Lemma u64_to_i64 x : 0 ≤ x < 2^64 → u64 (to_i64 x) = x.
Proof. intros Hx. unfold u64. rewrite to_i64_mod. by apply Z.mod_small. Qed.

Lemma break_range s : heap_ok s → 0 < break_of s < 2^64.
Proof.
  intros [Hs _ Hv]. unfold break_of. destruct (Z.eqb_spec (heap_end s.2) 0) as [->|Hne]; cbn [negb]; [done|].
  destruct (heap_slot _ _); [|done]. destruct Hv as (r & _ & _ & ?). lia.
Qed.

(** The slot of the heap's VMA after a change of that slot. *)
Lemma heap_slot_insert a rs i r : rs !! i = Some None → v_start r = heap_start a → heap_slot a rs = None →
  heap_slot a (<[i := Some r]> rs) = Some i.
Proof.
  intros Hi Hr Hn. unfold heap_slot in *. rewrite position_None in Hn. apply position_Some. exists (Some r).
  split_and!; [apply list_lookup_insert_eq; by eapply lookup_lt_Some|by apply Z.eqb_eq|].
  intros j x Hj Hx. rewrite list_lookup_insert_ne in Hx by lia. by apply (Hn j).
Qed.

Lemma heap_slot_update a rs i r r' : heap_slot a rs = Some i → rs !! i = Some (Some r) → v_start r' = v_start r →
  heap_slot a (<[i := Some r']> rs) = Some i.
Proof.
  intros Hs Hi Hr. rewrite <- Hs. unfold heap_slot. apply position_ext, Forall2_same_length_lookup. split; [apply length_insert|].
  intros j x y Hx Hy. destruct (decide (j = i)) as [->|Hne].
  - rewrite list_lookup_insert_eq in Hx by (by eapply lookup_lt_Some). assert (y = Some r) as -> by congruence. injection Hx as <-. by rewrite Hr.
  - rewrite list_lookup_insert_ne in Hx by done. assert (x = y) as -> by congruence. done.
Qed.

Lemma page_up_end x y : aligned x → aligned y → 0 < x < y → y < 2^64 → wmul (wsub (wadd (wsub y x) PAGE_SIZE) 1 / PAGE_SIZE) PAGE_SIZE = y - x.
Proof.
  unfold aligned, PAGE_SIZE. intros Hx Hy Hlt Hm. assert (4096 ≤ x) by (pose proof (Z.div_mod x 4096); lia).
  rewrite (wsub_small y x), wadd_small, wsub_small by lia.
  assert ((y - x + 4096 - 1) / 4096 * 4096 = y - x) as He.
  { pose proof (Z.div_mod x 4096). pose proof (Z.div_mod y 4096).
    assert (y - x + 4096 - 1 = (y / 4096 - x / 4096) * 4096 + 4095) as -> by lia.
    rewrite Z.div_add_l by lia. change (4095 / 4096) with 0. lia. }
  unfold wmul. rewrite He. apply u64_small. lia.
Qed.

Lemma break_set m e a : e ≠ 0 → break_of (m, set_heap_end e a) = e.
Proof. intros He. unfold break_of. cbn. by rewrite (proj2 (Z.eqb_neq e 0) He). Qed.

(** Growth never meets a panic, and moves the break to the end of the page or
    leaves it. *)
Lemma brk_grows a s : heap_ok s → break_of s ≤ a → a + PAGE_SIZE < 2^64 →
  ∃ s', brk a s = Ret (break_of s', s') ∧ heap_ok s' ∧ (break_of s' = break_of s ∨ a ≤ break_of s').
Proof.
  intros Hok Ha Hm. pose proof (break_range _ Hok) as Hbr. destruct Hok as [Hst Hal Hv]. destruct s as [m sp]. cbn [snd] in *.
  destruct (page_up_range a) as [Hur Hua]. destruct (page_up_ge a ltac:(lia)) as [Hu1 Hu2]. unfold PAGE_SIZE in Hm, Hu2.
  unfold brk, get_as, mbind, st_bind, st_get. cbn [snd]. rewrite (proj2 (Z.eqb_neq a 0)), (proj2 (Z.eqb_neq (heap_start sp) 0)) by lia.
  fold (heap_slot sp (regions sp)). change (if negb (heap_end sp =? 0) then heap_end sp else heap_start sp) with (break_of (m, sp)).
  destruct (heap_slot sp (regions sp)) as [idx|] eqn:Hsl.
  - destruct Hv as (r & Hr & Hre & Hlt). rewrite Hr. cbn [mjoin option_join].
    assert (break_of (m, sp) = heap_end sp) as Hb by (unfold break_of; cbn [snd]; by rewrite (proj2 (Z.eqb_neq (heap_end sp) 0)) by lia).
    assert (heap_ok (m, sp)) as Hok by (split; [done|done|cbn; rewrite Hsl; eauto]).
    destruct (Z.eqb_spec (page_up a) (v_end r)) as [He|Hne].
    + exists (m, sp). rewrite He, Hre, Hb. auto.
    + rewrite (proj2 (Z.ltb_lt _ _)) by lia. destruct (existsb _ _); [exists (m, sp); auto|].
      exists (m, set_heap_end (page_up a) (set_regions (<[idx := Some (set_end (page_up a) r)]> (regions sp)) sp)).
      rewrite break_set by lia. split; [done|split; [|by right]].
      split; cbn [snd set_heap_end set_regions heap_start heap_end regions]; [done|done|].
        fold (heap_slot sp (<[idx := Some (set_end (page_up a) r)]> (regions sp))).
        change (heap_slot (set_heap_end _ _)) with (heap_slot sp). rewrite (heap_slot_update sp _ idx r) by done.
        exists (set_end (page_up a) r). split_and!; [apply list_lookup_insert_eq; by eapply lookup_lt_Some|done|lia|lia].
  - assert (break_of (m, sp) = heap_start sp) as Hb by (unfold break_of; cbn [snd]; by rewrite Hv).
    assert (heap_ok (m, sp)) as Hok by (split; [done|done|cbn; by rewrite Hsl]).
    destruct (Z.leb_spec (page_up a) (heap_start sp)); [exists (m, sp); auto|].
    destruct (map_lazy _ _ _ sp) as [ok sp'] eqn:Hml. unfold map_lazy in Hml.
    destruct (place sp (heap_start sp) (wsub (page_up a) (heap_start sp))) as [[[[slot v] pages] e]|] eqn:Hp; [|injection Hml as <- <-; exists (m, sp); auto].
    injection Hml as <- <-. destruct (place_ok sp (heap_start sp) _ _ _ _ _ ltac:(lia) Hp) as (Hslot & -> & _ & _ & He & _ & _).
    assert (page_down (heap_start sp) = heap_start sp) as Hpd by (rewrite page_down_eq by lia; rewrite Hal; lia).
    assert (e = page_up a) as ->.
    { rewrite He, Hpd. unfold place in Hp. destruct (_ =? 0); [done|]. destruct (free_slot _); [|done]. cbn [mbind option_bind] in Hp.
      destruct (checked_add _ _); [|done]. cbn [mbind option_bind] in Hp. destruct (any_overlap _ _ _); [done|]. injection Hp as _ <- _.
      rewrite page_up_end by (done || (unfold PAGE_SIZE; lia)). lia. }
    eexists (m, set_heap_end (page_up a) _). rewrite break_set by lia. split; [done|split; [|by right]].
    split; cbn [snd set_heap_end set_regions heap_start heap_end regions]; [done|done|].
      change (heap_slot (set_heap_end _ _)) with (heap_slot sp). rewrite heap_slot_insert by done.
      eexists. split_and!; [apply list_lookup_insert_eq; by eapply lookup_lt_Some|done|lia|lia].
Qed.

#[export] Instance kernel_brk_laws : BrkLaws (M * AddressSpace) heap_ok break_of.
Proof.
  split.
  - apply break_range.
  - intros s Hok. unfold brk_op, kernel_brk, brk. unfold get_as, mbind, st_bind, st_get, mret, st_ret. cbn [Z.eqb].
    change (if negb _ then _ else _) with (break_of s). by rewrite u64_to_i64 by (pose proof (break_range _ Hok); lia).
  - intros a s Hok Ha Hm. destruct (brk_grows a s Hok Ha Hm) as (s' & Hr & Hok' & Hc). exists s'. unfold brk_op, kernel_brk.
    rewrite Hr. split; [|done]. by rewrite u64_to_i64 by (pose proof (break_range _ Hok'); lia).
Qed.
End kernel.

(** ** The theorem *)

Lemma ordpairs_lookup {A} (R : A → A → Prop) l : ForallOrdPairs R l → ∀ i j x y, l !! i = Some x → l !! j = Some y → (i < j)%nat → R x y.
Proof.
  induction 1 as [|a l Ha Hl IH]; intros i j x y Hi Hj Hlt; [done|]. destruct j as [|j]; [lia|]. destruct i as [|i].
  - injection Hi as <-. rewrite Forall_forall in Ha. apply Ha. by eapply list_elem_of_lookup_2.
  - apply (IH i j); [done|done|lia].
Qed.


(** A block is never aligned to 16 bytes: it follows a word at the break. *)
Lemma malloc_misaligned {S} `{BrkOps S} brk_inv brk_of `{!BrkLaws S brk_inv brk_of} (h h' : Heap S) bs size p :
  heap_wf brk_inv brk_of h bs → 0 < size → roomy brk_of h size → brk_of (hp_os h) mod 16 = 0 →
  malloc size h = Ret (p, h') → p = 0 ∨ p mod 16 = 8.
Proof.
  intros Hwf Hs Hroom Hal Hrun. destruct (malloc_spec brk_inv brk_of h bs size Hwf Hs Hroom) as (p1 & h1 & Hr & _ & _ & Hc).
  rewrite Hrun in Hr. injection Hr as <- <-. destruct Hc as [[? _]|[Hp _ _ _ _]]; [by left|right].
  rewrite Hp, <- Zplus_mod_idemp_l, Hal. done.
Qed.

(** The size of a request near the largest [usize] wraps around to nothing. *)
Lemma alloc_size_wraps : alloc_size (2^64 - 9) = 0.
Proof. reflexivity. Qed.

(** *** Witness: a task of the kernel with an empty heap *)

Definition heap_demo : kmem * AddressSpace :=
  (mkKmem Buddy_init 0 (λ _, 0) 0, mkAS 0x1000 (replicate 8 None) 0x10000000 0).

Lemma heap_demo_ok : heap_ok heap_demo.
Proof. split; cbn; [lia|done|done]. Qed.

