(* ===== verification/SysPath.v ===== *)
(** * Path resolution (src/kernel/src/syscall.rs)

    [resolve_path] makes the absolute form of a path in a 256-byte buffer, with
    the empty, the "." and the ".." components taken out.  The reference is a
    stack of components; as long as the path fits the buffer, the routine gives
    the bytes of that stack, and resolving its result again changes nothing. *)

From Stdlib Require Import ZArith Lia Ascii String.
From stdpp Require Import base list option numbers sets strings.
From S2P Require Import Prelude Words Cpio Task RunQueue Sched.

Local Open Scope Z_scope.

(** ** The code *)

Definition SLASH : Z := 47.
Definition PATH_BUF : nat := 256.

(** [path.split(|&b| b == b'/')] *)
Fixpoint split_slash (l : list Z) : list (list Z) :=
  match l with
  | [] => [[]]
  | b :: l' =>
      if b =? SLASH then [] :: split_slash l'
      else match split_slash l' with c :: cs => (b :: c) :: cs | [] => [[b]] end
  end.

(** The path up to its first NUL. *)
Definition cut_nul (path : list Z) : list Z :=
  match position (Z.eqb 0) path with Some n => take n path | None => path end.

(** The backward scan for a slash: [while last > 0 && resolved[last] != b'/']. *)
Fixpoint last_slash (r : list Z) (last : nat) : nat :=
  match last with
  | O => O
  | S m => if bool_decide (r !! last = Some SLASH) then last else last_slash r m
  end.

(** The component "..": cut at the last slash, but keep the root. *)
Definition pop_component (r : list Z) : list Z :=
  if (1 <? length r)%nat then
    let last := last_slash r (length r - 1) in
    take (if (last =? 0)%nat then 1 else last) r
  else r.

(** The separator before a further component. *)
Definition separate (r : list Z) : list Z :=
  if (1 <? length r)%nat && negb (bool_decide (last r = Some SLASH)) then
    if (length r <? 255)%nat then r ++ [SLASH] else r
  else if (length r =? 0)%nat then [SLASH] else r.

Definition push_component (r c : list Z) : list Z :=
  let r := separate r in
  r ++ take (PATH_BUF - length r) c.

(** One round of the loop; [r] is [resolved[..res_len]]. *)
Definition resolve_step (r c : list Z) : list Z :=
  if bool_decide (c = []) || bool_decide (c = bytes ".") then r
  else if bool_decide (c = bytes "..") then pop_component r
  else push_component r c.

Definition is_absolute (path : list Z) : bool := bool_decide (head path = Some SLASH).

(** The base path: the root, or the working directory of the task. *)
Definition base_path (path : list Z) (s : Sched) : list Z :=
  if is_absolute path then [SLASH]
  else let '(cwd, cwd_len) := current_cwd 256 s in
       if 0 <? cwd_len then take (Nat.min (Z.to_nat cwd_len) 255) cwd else [SLASH].

(** The root for an empty result, and no trailing slash otherwise. *)
Definition finalise (r : list Z) : list Z :=
  let r := if (length r =? 0)%nat then [SLASH] else r in
  let r := if (1 <? length r)%nat && bool_decide (last r = Some SLASH) then take (length r - 1) r else r in
  take PATH_BUF r.

Definition resolve_path (path : list Z) (s : Sched) : list Z :=
  let p := cut_nul path in
  finalise (fold_left resolve_step (split_slash p) (base_path p s)).

(** [read_cstr_for_vfs]: at most 255 bytes up to the first NUL. *)
Definition read_cstr_for_vfs (path : list Z) : option (list Z) :=
  match path with
  | [] => None
  | _ => Some (cut_nul (take 255 path))
  end.

(** ** The reference: a stack of components *)

Definition body (cs : list (list Z)) : list Z := mjoin ((λ c, SLASH :: c) <$> cs).

Definition render (cs : list (list Z)) : list Z := match cs with [] => [SLASH] | _ => body cs end.

Definition normal_step (cs : list (list Z)) (c : list Z) : list (list Z) :=
  if bool_decide (c = []) || bool_decide (c = bytes ".") then cs
  else if bool_decide (c = bytes "..") then take (length cs - 1) cs
  else cs ++ [c].

(** The components of [path] from the directory [base]. *)
Definition normal (base : list (list Z)) (path : list Z) : list (list Z) :=
  fold_left normal_step (split_slash path) (if is_absolute path then [] else base).

(** A proper component: a name that is not "." or "..". *)
Definition component (c : list Z) : Prop :=
  c ≠ [] ∧ c ≠ bytes "." ∧ c ≠ bytes ".." ∧ SLASH ∉ c ∧ 0 ∉ c.

(** ** Facts about the reference *)

Lemma render_snoc cs c : render (cs ++ [c]) = body cs ++ SLASH :: c.
Proof.
  replace (render (cs ++ [c])) with (body (cs ++ [c])) by (by destruct cs).
  unfold body. rewrite fmap_app, join_app. simpl. by rewrite app_nil_r.
Qed.

Lemma render_body cs : cs ≠ [] → render cs = body cs.
Proof. by destruct cs. Qed.

Lemma split_slash_no c : SLASH ∉ c → split_slash c = [c].
Proof.
  induction c as [|b c IH]; [done|]. intros H. simpl. rewrite not_elem_of_cons in H. destruct H as [Hb Hc].
  rewrite (IH Hc). destruct (Z.eqb_spec b SLASH); [congruence|done].
Qed.

Lemma split_slash_nonempty l : split_slash l ≠ [].
Proof. induction l as [|b l IH]; simpl; [done|]. by destruct (b =? SLASH), (split_slash l). Qed.

(** A component and the rest of the path. *)
Lemma split_slash_app c l : SLASH ∉ c → split_slash (c ++ SLASH :: l) = c :: split_slash l.
Proof.
  induction c as [|b c IH]; intros H; simpl.
  - done.
  - rewrite not_elem_of_cons in H. destruct H as [Hb Hc]. rewrite (IH Hc).
    destruct (Z.eqb_spec b SLASH); [congruence|done].
Qed.

(** What splitting gives has no slash and no byte the path does not have. *)
Lemma split_slash_elem l c : c ∈ split_slash l → SLASH ∉ c ∧ (∀ b, b ∈ c → b ∈ l).
Proof.
  revert c. induction l as [|b l IH]; simpl; intros c.
  { intros Hc. assert (c = []) as -> by set_solver. set_solver. }
  destruct (Z.eqb_spec b SLASH) as [->|Hb].
  - rewrite elem_of_cons. intros [->|Hc]; [set_solver|]. destruct (IH _ Hc). set_solver.
  - destruct (split_slash l) as [|d ds] eqn:Hs; [by destruct (split_slash_nonempty l)|].
    rewrite elem_of_cons. intros [->|Hc].
    + destruct (IH d) as [H1 H2]; [set_solver|]. set_solver.
    + destruct (IH c) as [H1 H2]; set_solver.
Qed.

(** The bytes of the components, each with a separator. *)
Definition cost (cs : list (list Z)) : nat := sum_list ((λ c, S (length c)) <$> cs).

Lemma split_slash_cost l : cost (split_slash l) = S (length l).
Proof.
  unfold cost. induction l as [|b l IH]; [done|]. simpl. destruct (b =? SLASH); [cbn in *; lia|].
  destruct (split_slash l) as [|d ds]; [by destruct (split_slash_nonempty l)|]. simpl in *. lia.
Qed.

Lemma component_split path c : 0 ∉ path → c ∈ split_slash path → c ≠ [] → c ≠ bytes "." → c ≠ bytes ".." → component c.
Proof. intros H0 Hc ???. destruct (split_slash_elem _ _ Hc). split_and!; auto. Qed.

(** ** The routine follows the reference *)

Lemma last_slash_app a c n : SLASH ∉ c → (n ≤ length c)%nat → last_slash (a ++ SLASH :: c) (length a + n) = length a.
Proof.
  intros Hc. induction n as [|n IH]; intros Hn.
  - rewrite Nat.add_0_r. destruct a as [|x a]; [done|]. cbn [length last_slash].
    rewrite bool_decide_true; [done|]. change (S (length a)) with (length (x :: a)).
    by rewrite lookup_app_r, Nat.sub_diag by lia.
  - rewrite Nat.add_succ_r. cbn [last_slash]. rewrite bool_decide_false; [apply IH; lia|].
    rewrite lookup_app_r by lia. replace (S (length a + n) - length a)%nat with (S n) by lia. simpl.
    intros Hl. apply Hc. by eapply list_elem_of_lookup_2.
Qed.

Lemma pop_render cs : Forall (λ c, c ≠ [] ∧ SLASH ∉ c) cs → pop_component (render cs) = render (take (length cs - 1) cs).
Proof.
  destruct cs as [|c cs _] using rev_ind; [done|]. intros [Hcs Hc]%Forall_app.
  apply Forall_singleton in Hc as [Hne Hno]. rewrite render_snoc. unfold pop_component.
  set (a := body cs). rewrite !length_app. simpl.
  assert (0 < length c)%nat by (destruct c; simpl; [done|lia]).
  destruct (Nat.ltb_spec 1 (length a + S (length c))); [|lia].
  replace (length a + S (length c) - 1)%nat with (length a + length c)%nat by lia.
  rewrite last_slash_app by done. replace (length cs + 1 - 1)%nat with (length cs) by lia. rewrite take_app_length.
  destruct cs as [|d cs]; [done|]. assert (length a ≠ 0)%nat by (unfold a; simpl; lia).
  rewrite (proj2 (Nat.eqb_neq _ _)) by done. rewrite take_app_length. done.
Qed.

(** The bytes of a stack that is not empty: more than the root, and no slash at the end. *)
Lemma render_tail cs : cs ≠ [] → Forall (λ c, c ≠ [] ∧ SLASH ∉ c) cs →
  (1 < length (render cs))%nat ∧ last (render cs) ≠ Some SLASH.
Proof.
  destruct cs as [|c cs _] using rev_ind; [done|]. intros _ [Hcs Hc]%Forall_app.
  apply Forall_singleton in Hc as [Hne Hno]. rewrite render_snoc. split.
  - rewrite length_app. destruct c; simpl; [done|lia].
  - destruct c as [|x c _] using rev_ind; [done|].
    replace (SLASH :: c ++ [x]) with ((SLASH :: c) ++ [x]) by done. rewrite app_assoc, last_snoc. set_solver.
Qed.

Lemma push_render cs c : Forall (λ c, c ≠ [] ∧ SLASH ∉ c) cs → c ≠ [] → (length (render (cs ++ [c])) ≤ PATH_BUF)%nat →
  push_component (render cs) c = render (cs ++ [c]).
Proof.
  intros Hcs Hc Hlen. rewrite render_snoc in *. unfold push_component, PATH_BUF in *.
  rewrite length_app in Hlen. cbn [length] in Hlen. assert (0 < length c)%nat by (destruct c; simpl; [done|lia]).
  destruct (decide (cs = [])) as [->|Hne].
  - unfold separate. cbn in *. by rewrite take_ge by lia.
  - destruct (render_tail cs Hne Hcs) as [H1 H2]. unfold separate. rewrite bool_decide_false by done.
    rewrite render_body in * by done. set (a := body cs) in *.
    destruct (Nat.ltb_spec 1 (length a)); [|lia]. simpl. destruct (Nat.ltb_spec (length a) 255); [|lia].
    rewrite length_app. simpl. rewrite take_ge by lia. by rewrite <- app_assoc.
Qed.

Lemma body_snoc cs c : body (cs ++ [c]) = body cs ++ SLASH :: c.
Proof. rewrite <- render_body by (by destruct cs). apply render_snoc. Qed.

Lemma length_body_take cs n : (length (body (take n cs)) ≤ length (body cs))%nat.
Proof. rewrite <- (take_drop n cs) at 2. unfold body. rewrite fmap_app, join_app, length_app. lia. Qed.

Lemma normal_step_component cs c : Forall component cs → SLASH ∉ c → 0 ∉ c → Forall component (normal_step cs c).
Proof.
  intros Hcs H1 H2. unfold normal_step. repeat case_bool_decide; simpl; try done.
  - by apply Forall_take.
  - apply Forall_app. split; [done|]. apply Forall_singleton. by split_and!.
Qed.

Lemma component_weaken cs : Forall component cs → Forall (λ c, c ≠ [] ∧ SLASH ∉ c) cs.
Proof. intros H. eapply Forall_impl; [exact H|]. unfold component. tauto. Qed.

(** One round, when the component fits. *)
Lemma resolve_step_render cs c : Forall component cs → SLASH ∉ c →
  (length (body cs) + S (length c) ≤ PATH_BUF)%nat →
  resolve_step (render cs) c = render (normal_step cs c) ∧
  (length (body (normal_step cs c)) ≤ length (body cs) + S (length c))%nat.
Proof.
  intros Hcs Hc Hlen. unfold resolve_step, normal_step.
  destruct (bool_decide (c = [])) eqn:Hnil; cbn [orb]; [split; [done|lia]|]. apply bool_decide_eq_false in Hnil.
  destruct (bool_decide (c = bytes ".")); [split; [done|lia]|].
  destruct (bool_decide (c = bytes "..")).
  - split; [apply pop_render; by apply component_weaken|]. pose proof (length_body_take cs (length cs - 1)). lia.
  - pose proof (body_snoc cs c) as Hb. apply (f_equal length) in Hb. rewrite length_app in Hb. cbn [length] in Hb.
    split; [|lia]. apply push_render; [by apply component_weaken|done|].
    rewrite render_body by (by destruct cs). lia.
Qed.

Lemma resolve_loop l cs : Forall component cs → (∀ c, c ∈ l → SLASH ∉ c ∧ 0 ∉ c) →
  (length (body cs) + cost l ≤ PATH_BUF)%nat →
  fold_left resolve_step l (render cs) = render (fold_left normal_step l cs) ∧
  Forall component (fold_left normal_step l cs) ∧
  (length (body (fold_left normal_step l cs)) ≤ PATH_BUF)%nat.
Proof.
  revert cs. induction l as [|c l IH]; intros cs Hcs Hl Hlen; [simpl; split_and!; [done..|lia]|].
  change (cost (c :: l)) with (S (length c) + cost l)%nat in Hlen.
  destruct (Hl c) as [H1 H2]; [set_solver|]. simpl.
  destruct (resolve_step_render cs c Hcs H1) as [-> Hle]; [lia|].
  apply IH; [by apply normal_step_component|set_solver|lia].
Qed.

(** The last step takes nothing away from a rendered stack. *)
Lemma finalise_render cs : Forall component cs → (length (body cs) ≤ PATH_BUF)%nat → finalise (render cs) = render cs.
Proof.
  intros Hcs Hlen. unfold finalise. destruct (decide (cs = [])) as [->|Hne]; [done|].
  destruct (render_tail cs Hne (component_weaken _ Hcs)) as [H1 H2].
  rewrite (proj2 (Nat.eqb_neq _ _)) by lia. rewrite bool_decide_false, andb_false_r by done.
  apply take_ge. by rewrite render_body.
Qed.

Lemma cut_nul_id path : 0 ∉ path → cut_nul path = path.
Proof.
  intros H. unfold cut_nul. destruct (position (Z.eqb 0) path) as [n|] eqn:Hp; [|done].
  apply position_Some in Hp as (x & Hx & He & _). to_prop. subst. destruct H. by eapply list_elem_of_lookup_2.
Qed.

(** A rendered stack is an absolute path whose components are the stack. *)
Lemma render_absolute cs : is_absolute (render cs) = true.
Proof. destruct cs; apply bool_decide_true; done. Qed.

Lemma split_body c cs : SLASH ∉ c → Forall component cs → split_slash (c ++ body cs) = c :: cs.
Proof.
  revert c. induction cs as [|d cs IH]; intros c Hc Hcs; [by rewrite app_nil_r, split_slash_no|].
  apply Forall_cons in Hcs as [Hd Hcs]. change (body (d :: cs)) with (SLASH :: (d ++ body cs)).
  rewrite split_slash_app by done. f_equal. apply IH; [apply Hd|done].
Qed.

Lemma normal_render base cs : Forall component cs → normal base (render cs) = cs.
Proof.
  intros Hcs. unfold normal. rewrite render_absolute.
  assert (fold_left normal_step (split_slash (render cs)) [] = fold_left normal_step cs []) as ->.
  { destruct cs as [|c cs]; [done|]. rewrite render_body by done.
    by rewrite <- (app_nil_l (body _)), split_body by (done || set_solver). }
  change cs with ([] ++ cs) at 2. generalize (@nil (list Z)). induction cs as [|c cs IH]; intros l; [by rewrite app_nil_r|].
  apply Forall_cons in Hcs as [(H1 & H2 & H3 & _) Hcs]. simpl. rewrite IH by done.
  unfold normal_step. rewrite !bool_decide_false by done. simpl. by rewrite <- app_assoc.
Qed.

Lemma render_no_nul cs : Forall component cs → 0 ∉ render cs.
Proof.
  intros Hcs. assert (0 ∉ body cs) as H; [|destruct cs; [set_solver|done]].
  induction Hcs as [|c cs Hc Hcs IH]; [set_solver|]. change (body (c :: cs)) with (SLASH :: c ++ body cs).
  destruct Hc as (_ & _ & _ & _ & Hc). intros [?|[?|?]%elem_of_app]%elem_of_cons; done.
Qed.

(** ** The theorem *)

(** The working directory of the current task is the stack [base]. *)
Definition cwd_is (base : list (list Z)) (s : Sched) : Prop :=
  current_cwd 256 s = (render base, Z.of_nat (length (render base))).

(** The path fits the buffer. *)
Definition fits (base : list (list Z)) (path : list Z) : Prop :=
  (length path + (if is_absolute path then 0 else S (length (body base))) ≤ PATH_BUF)%nat.

Lemma base_path_render path base s : (is_absolute path = false → cwd_is base s) → fits base path →
  base_path path s = render (if is_absolute path then [] else base).
Proof.
  unfold base_path, fits, cwd_is, PATH_BUF. destruct (is_absolute path); [done|]. intros Hc Hlen. rewrite Hc by done.
  assert (0 < length (render base) ≤ 255)%nat.
  { destruct base; [simpl; lia|]. rewrite render_body by done. simpl in *. lia. }
  destruct (Z.ltb_spec 0 (Z.of_nat (length (render base)))); [|lia]. apply take_ge. lia.
Qed.

Lemma resolve_path_render path base s : 0 ∉ path → Forall component base →
  (is_absolute path = false → cwd_is base s) → fits base path →
  resolve_path path s = render (normal base path) ∧
  Forall component (normal base path) ∧ (length (body (normal base path)) ≤ PATH_BUF)%nat.
Proof.
  intros H0 Hb Hc Hf. unfold resolve_path. rewrite cut_nul_id, base_path_render with (base := base) by done.
  assert (∀ c, c ∈ split_slash path → SLASH ∉ c ∧ 0 ∉ c) as Hsp.
  { intros c [H1 H2]%split_slash_elem. split; [done|]. intros H. by apply H0, H2. }
  assert (fold_left resolve_step (split_slash path) (render (if is_absolute path then [] else base)) =
    render (normal base path) ∧ Forall component (normal base path) ∧ (length (body (normal base path)) ≤ PATH_BUF)%nat)
    as (-> & H1 & H2); [|split_and!; [by apply finalise_render|done..]].
  unfold normal, fits in *. pose proof (split_slash_cost path) as Hcost. destruct (is_absolute path) eqn:Ha.
  - apply bool_decide_eq_true in Ha. destruct path as [|b path]; [done|]. injection Ha as ->.
    change (split_slash (SLASH :: path)) with ([] :: split_slash path) in *.
    apply (resolve_loop (split_slash path) []); [done|set_solver|].
    change (cost ([] :: split_slash path)) with (S (cost (split_slash path))) in Hcost. simpl in *. lia.
  - apply resolve_loop; [done..|]. lia.
Qed.

(** C31: path resolution normalises: for a path without NUL bytes that fits the
    buffer, the result is the absolute path of the component stack, the
    components pushed from the working directory (from the root, when the path
    is absolute), "." and empty ones skipped and ".." popping but never above
    the root.  Every component of the result is a proper name, and resolving the
    result again gives the result, from every working directory. *)
Theorem resolve_path_normalises path base s s' : 0 ∉ path → Forall component base →
  (is_absolute path = false → cwd_is base s) → fits base path →
  resolve_path path s = render (normal base path) ∧
  Forall component (normal base path) ∧
  resolve_path (resolve_path path s) s' = resolve_path path s.
Proof.
  intros H0 Hb Hc Hf. destruct (resolve_path_render path base s H0 Hb Hc Hf) as (-> & Hn & Hlen).
  split_and!; [done..|]. destruct (resolve_path_render (render (normal base path)) [] s') as [-> _].
  - intros H. destruct (render_no_nul _ Hn H).
  - done.
  - by rewrite render_absolute.
  - unfold fits. rewrite render_absolute. destruct (normal base path) eqn:E; [unfold PATH_BUF; simpl; lia|].
    rewrite render_body by done. lia.
  - by rewrite normal_render.
Qed.

(** A task whose working directory is /tmp/x. *)
Definition cwd_demo : Sched :=
  let t := with_cwd (bytes "/tmp/x" ++ replicate 122 0) 6 (new_kernel 7 0 0 0 0) in
  mkSched (mkRQ [Some t] 1 0) 8 0 false [] 0 7 (Some 0%nat) (Memory.mkKmem Buddy.Buddy_init 0 (λ _, 0) 0).

Lemma resolve_path_normalises_witness :
  resolve_path (bytes ".././a//b/") cwd_demo = render (normal [bytes "tmp"; bytes "x"] (bytes ".././a//b/")) ∧
  Forall component (normal [bytes "tmp"; bytes "x"] (bytes ".././a//b/")) ∧
  resolve_path (resolve_path (bytes ".././a//b/") cwd_demo) cwd_demo = resolve_path (bytes ".././a//b/") cwd_demo.
Proof.
  apply (resolve_path_normalises (bytes ".././a//b/") [bytes "tmp"; bytes "x"] cwd_demo cwd_demo).
  - by apply (bool_decide_unpack _).
  - repeat constructor; try discriminate; by apply (bool_decide_unpack _).
  - intros _. vm_compute. reflexivity.
  - apply Nat.leb_le. reflexivity.
Defined.
