(* ===== verification/SysOs.v ===== *)
(** * System calls over the servers (src/kernel/src/syscall.rs)

    The state a system call works on: the kernel of [SysMem], the network and
    the terminal server, the epoll instances and the UART.  The servers run as
    functions of the kernel; they see one memory, that of the calling task.  This
    file has the calls that check their arguments and pass a request on. *)

From stdpp Require Import base list option numbers.
From Stdlib Require Import ZArith Lia.
From S2P Require Import Prelude Words Memory Paging Vmm IpcPort VfsData Vfs VfsPipe Task RunQueue Sched SysIpc SysMem Tty Net.
Import NetTags Tty.Tags.

Local Open Scope Z_scope.

(** ** The state *)

Definition MAX_EPOLL_INSTANCES : nat := 16.
Definition MAX_EPOLL_INTERESTS : nat := 32.

Record EpollInterest := mkInterest { ei_fd : Z; ei_events : Z; ei_data : Z; ei_in_use : bool }.

Definition EpollInterest_empty : EpollInterest := mkInterest (-1) 0 0 false.

Record EpollInstance := mkEpoll { ep_owner_pid : Z; ep_interests : list EpollInterest; ep_in_use : bool }.

Definition EpollInstance_empty : EpollInstance :=
  mkEpoll 0 (replicate MAX_EPOLL_INTERESTS EpollInterest_empty) false.

(** [os_rx] holds the bytes the UART has received and nobody has read, [os_tx]
    the bytes sent so far. *)
Record Os := mkOs {
  os_k : Kernel;
  os_net : NetServer;
  os_tty : TtyServer;
  os_epoll : list EpollInstance;
  os_rx : list Z;
  os_tx : list Z
}.

Definition set_k k (s : Os) : Os := mkOs k (os_net s) (os_tty s) (os_epoll s) (os_rx s) (os_tx s).
Definition set_net n (s : Os) : Os := mkOs (os_k s) n (os_tty s) (os_epoll s) (os_rx s) (os_tx s).
Definition set_tty t (s : Os) : Os := mkOs (os_k s) (os_net s) t (os_epoll s) (os_rx s) (os_tx s).
Definition set_epoll e (s : Os) : Os := mkOs (os_k s) (os_net s) (os_tty s) e (os_rx s) (os_tx s).
Definition set_rx r (s : Os) : Os := mkOs (os_k s) (os_net s) (os_tty s) (os_epoll s) r (os_tx s).
Definition set_tx x (s : Os) : Os := mkOs (os_k s) (os_net s) (os_tty s) (os_epoll s) (os_rx s) x.

Definition os_sched (s : Os) : Sched := kn_sched (os_k s).
Definition os_pid (s : Os) : Z := current_pid (os_sched s).

(** The memory of the calling task, and writes to it. *)
Definition os_mem (s : Os) : mem := v_mem (kn_vfs (os_k s)).

Definition put_mem (m : mem) (s : Os) : Os :=
  let k := os_k s in
  set_k (mkKernel (kn_bump k) (poke (λ _, m) (kn_vfs k)) (kn_sched k)) s.

Definition write_mem (f : mem → mem) : st Os unit := st_modify (λ s, put_mem (f (os_mem s)) s).
Definition store (a : Z) (bs : list Z) : st Os unit := write_mem (mem_write a bs).
Definition zero (a n : Z) : st Os unit := write_mem (mem_fill a 0 n).
Definition load (a n : Z) : st Os (list Z) := st_get (λ s, mem_read (os_mem s) a n).
Definition load_le (a n : Z) : st Os Z := bs ← load a n; mret (le_decode bs).
(** [*const i64] and [*const i32] *)
Definition load_i64 (a : Z) : st Os Z := x ← load_le a 8; mret (to_i64 x).
Definition load_i32 (a : Z) : st Os Z := x ← load_le a 4; mret (to_i32 x).

Lemma load_le_run a n s : load_le a n s = Ret (le_decode (mem_read (os_mem s) a n), s).
Proof. done. Qed.

Lemma load_i64_run a s : load_i64 a s = Ret (to_i64 (le_decode (mem_read (os_mem s) a 8)), s).
Proof. done. Qed.

Definition on_k {A} (c : st Kernel A) : st Os A := λ s,
  match c (os_k s) with Ret (a, k) => Ret (a, set_k k s) | Panic => Panic end.

Definition on_os_sched {A} (c : st Sched A) : st Os A := on_k (SysMem.on_sched c).

(** ** Requests to the servers *)

Definition vfs_req (t : Z) (args : list Z) : st Os Z := on_k (vfs_call t args).

Definition net_reply_val (m : Message) : Z := to_i64 (le_decode (take 8 (data m))).

Definition net_req (t : Z) (args : list Z) : st Os Z := λ s,
  match Net.handle (make_vfs_msg t args) (os_pid s) (on_n_mem (λ _, os_mem s) (os_net s)) with
  | Ret (m, n) => Ret (net_reply_val m, put_mem (n_mem n) (set_net n s))
  | Panic => Panic
  end.

Definition tty_req (t : Z) (args : list Z) : st Os Z := λ s,
  match tty_handle (ticks (os_sched s)) (make_vfs_msg t args) (os_pid s) (on_ty_mem (λ _, os_mem s) (os_tty s)) with
  | Ret (m, y) => Ret (net_reply_val m, put_mem (ty_mem y) (set_tty y s))
  | Panic => Panic
  end.

(** ** Calls on the file server *)

Definition sys_lseek (fd offset whence : Z) : st Os Z := vfs_req VFS_LSEEK [fd; offset; whence].
Definition sys_fcntl (fd cmd arg : Z) : st Os Z := vfs_req VFS_FCNTL [fd; cmd; arg].

Definition sys_pipe2 (pipefd_ptr : Z) : st Os Z :=
  if negb (validate_user_buf pipefd_ptr 8) then mret (-14)
  else vfs_req VFS_PIPE [pipefd_ptr; pipefd_ptr + 4].

Definition sys_dup (oldfd : Z) : st Os Z := vfs_req VFS_DUP2 [oldfd; U64_MAX].

Definition sys_dup3 (oldfd newfd : Z) : st Os Z :=
  vfs_req (if newfd =? U64_MAX then VFS_ALLOC_FD else VFS_DUP2) [oldfd; newfd].

Definition sys_getdents64 (fd buf_ptr count : Z) : st Os Z :=
  if negb (validate_user_buf buf_ptr (Z.min count 1)) then mret (-14)
  else vfs_req VFS_GETDENTS64 [fd; buf_ptr; count].

Definition sys_mkdirat (path_ptr : Z) : st Os Z :=
  if negb (validate_user_buf path_ptr 1) then mret (-14) else vfs_req VFS_MKDIR [path_ptr].

Definition sys_unlinkat (path_ptr : Z) : st Os Z :=
  if negb (validate_user_buf path_ptr 1) then mret (-14) else vfs_req VFS_UNLINK [path_ptr].

Definition sys_renameat (old_path_ptr new_path_ptr : Z) : st Os Z :=
  if negb (validate_user_buf old_path_ptr 1) then mret (-14)
  else if negb (validate_user_buf new_path_ptr 1) then mret (-14)
  else vfs_req VFS_RENAME [old_path_ptr; new_path_ptr].

Definition sys_os_ftruncate (fd length : Z) : st Os Z := on_k (sys_ftruncate fd length).

Definition sys_truncate (path_ptr length : Z) : st Os Z :=
  if negb (validate_user_buf path_ptr 1) then mret (-14)
  else
    fd ← vfs_req VFS_OPEN [path_ptr; 2; 0];
    if fd <? 0 then mret fd
    else
      r ← sys_os_ftruncate fd length;
      vfs_req VFS_CLOSE [fd] ≫= λ _, mret r.

Definition sys_eventfd2 (initval : Z) : st Os Z := vfs_req VFS_EVENTFD [initval].
Definition sys_timerfd_create : st Os Z := vfs_req VFS_TIMERFD_CREATE [].

Definition nanoseconds (sec nsec : Z) : Z := wadd (wmul (u64 sec) 1000000000) (u64 nsec).

Definition sys_timerfd_settime (fd new_ptr : Z) : st Os Z :=
  if (new_ptr =? 0) || negb (validate_user_buf new_ptr 32) then mret (-14)
  else
    iv_sec ← load_i64 new_ptr;
    iv_nsec ← load_i64 (new_ptr + 8);
    vl_sec ← load_i64 (new_ptr + 16);
    vl_nsec ← load_i64 (new_ptr + 24);
    vfs_req VFS_TIMERFD_SETTIME [fd; nanoseconds vl_sec vl_nsec; nanoseconds iv_sec iv_nsec].

Definition sys_timerfd_gettime (fd cur_ptr : Z) : st Os Z := vfs_req VFS_TIMERFD_GETTIME [fd; cur_ptr].

(** The loop of [close_range]: [n] descriptors from [fd] on. *)
Fixpoint close_fds (n : nat) (fd : Z) : st Os unit :=
  match n with
  | O => mret tt
  | S n' => vfs_req VFS_CLOSE [fd] ≫= λ _, close_fds n' (fd + 1)
  end.

Definition sys_close_range (first last : Z) : st Os Z :=
  close_fds (Z.to_nat (Z.min last 1023 + 1 - first)) first ≫= λ _, mret 0.

(** ** Calls on the network server *)

Definition sys_socket (domain sock_type protocol : Z) : st Os Z := net_req NET_SOCKET [domain; sock_type; protocol].

Definition sys_bind (sockfd addr_ptr addrlen : Z) : st Os Z :=
  if (128 <? addrlen) || negb (validate_user_buf addr_ptr addrlen) then mret (-14)
  else net_req NET_BIND [sockfd; addr_ptr; addrlen].

Definition sys_listen (sockfd backlog : Z) : st Os Z := net_req NET_LISTEN [sockfd; backlog].
Definition sys_accept (sockfd addr_ptr addrlen_ptr : Z) : st Os Z := net_req NET_ACCEPT [sockfd; addr_ptr; addrlen_ptr].

Definition sys_connect (sockfd addr_ptr addrlen : Z) : st Os Z :=
  if (128 <? addrlen) || negb (validate_user_buf addr_ptr addrlen) then mret (-14)
  else net_req NET_CONNECT [sockfd; addr_ptr; addrlen].

Definition sys_sendto (sockfd buf_ptr len flags addr_ptr addrlen : Z) : st Os Z :=
  if negb (len =? 0) && negb (validate_user_buf buf_ptr len) then mret (-14)
  else net_req NET_SEND [sockfd; buf_ptr; len; flags; addr_ptr; addrlen].

Definition sys_recvfrom (sockfd buf_ptr len flags addr_ptr addrlen_ptr : Z) : st Os Z :=
  if negb (len =? 0) && negb (validate_user_buf buf_ptr len) then mret (-14)
  else net_req NET_RECV [sockfd; buf_ptr; len; flags; addr_ptr; addrlen_ptr].

Definition sys_sendmsg (sockfd msghdr_ptr flags : Z) : st Os Z :=
  if negb (validate_user_buf msghdr_ptr 48) then mret (-14)
  else net_req NET_SENDMSG [sockfd; msghdr_ptr; flags].

Definition sys_recvmsg (sockfd msghdr_ptr flags : Z) : st Os Z :=
  if negb (validate_user_buf msghdr_ptr 48) then mret (-14)
  else net_req NET_RECVMSG [sockfd; msghdr_ptr; flags].

Definition sys_net_shutdown (sockfd how : Z) : st Os Z := net_req NET_SHUTDOWN [sockfd; how].
Definition sys_getsockname (sockfd addr_ptr addrlen_ptr : Z) : st Os Z := net_req NET_GETSOCKNAME [sockfd; addr_ptr; addrlen_ptr].
Definition sys_getpeername (sockfd addr_ptr addrlen_ptr : Z) : st Os Z := net_req NET_GETPEERNAME [sockfd; addr_ptr; addrlen_ptr].

Definition sys_socketpair (domain sock_type protocol sv_ptr : Z) : st Os Z :=
  if negb (validate_user_buf sv_ptr 8) then mret (-14)
  else net_req NET_SOCKETPAIR [domain; sock_type; protocol; sv_ptr].

Definition sys_setsockopt (sockfd level optname optval_ptr optlen : Z) : st Os Z :=
  if (128 <? optlen) || negb (optlen =? 0) && negb (validate_user_buf optval_ptr optlen) then mret (-14)
  else net_req NET_SETSOCKOPT [sockfd; level; optname; optval_ptr; optlen].

Definition sys_getsockopt (sockfd level optname optval_ptr optlen_ptr : Z) : st Os Z :=
  net_req NET_GETSOCKOPT [sockfd; level; optname; optval_ptr; optlen_ptr].

(** ** Calls on the terminal server *)

Definition sys_timer_create (sigevent_ptr timerid_ptr : Z) : st Os Z :=
  signo ← (if negb (sigevent_ptr =? 0) && validate_user_buf sigevent_ptr 12 then load_le (sigevent_ptr + 8) 4 else mret 14);
  tty_req TIMER_CREATE [signo; timerid_ptr].

Definition sys_timer_settime (timerid ispec_ptr ospec_ptr : Z) : st Os Z :=
  if negb (ispec_ptr =? 0) && negb (validate_user_buf ispec_ptr 32) then mret (-14)
  else tty_req TIMER_SETTIME [timerid; ispec_ptr; ospec_ptr].

Definition sys_timer_gettime (timerid ospec_ptr : Z) : st Os Z :=
  if negb (validate_user_buf ospec_ptr 32) then mret (-14)
  else tty_req TIMER_GETTIME [timerid; ospec_ptr].

Definition sys_timer_delete (timerid : Z) : st Os Z := tty_req TIMER_DELETE [timerid].

(** [sys_setitimer]: the timer value in ticks. *)
Definition itimer_ticks (sec usec : Z) : Z := wadd (wmul (u64 sec) TICK_HZ) (wmul (u64 usec) TICK_HZ / 1000000).

(** The synthetic [itimerspec]. *)
Definition itimer_spec (interval_ticks value_ticks : Z) : list Z :=
  le_encode 8 (interval_ticks / TICK_HZ) ++ le_encode 8 (interval_ticks mod TICK_HZ * NSEC_PER_TICK) ++
  le_encode 8 (value_ticks / TICK_HZ) ++ le_encode 8 (value_ticks mod TICK_HZ * NSEC_PER_TICK).

(** The interval and the value that [new_ptr] asks for; both 0 for a null pointer. *)
Definition read_itimerval (new_ptr : Z) : st Os (Z * Z) :=
  if new_ptr =? 0 then mret (0, 0)
  else
    iv_sec ← load_i64 new_ptr;
    iv_usec ← load_i64 (new_ptr + 8);
    va_sec ← load_i64 (new_ptr + 16);
    va_usec ← load_i64 (new_ptr + 24);
    mret (itimer_ticks iv_sec iv_usec, itimer_ticks va_sec va_usec).

(** [spec_ptr] is the address of the array on the kernel stack. *)
Definition sys_setitimer (spec_ptr which new_ptr old_ptr : Z) : st Os Z :=
  if negb (new_ptr =? 0) && negb (validate_user_buf new_ptr 32) then mret (-14)
  else if negb (old_ptr =? 0) && negb (validate_user_buf old_ptr 32) then mret (-22)
  else if negb (which =? 0) then mret 0
  else
    ticks ← read_itimerval new_ptr;
    let '(itv, vtv) := ticks in
    (if negb (old_ptr =? 0) then zero old_ptr 32 else mret tt) ≫= λ _,
    tty_req TIMER_CREATE [14; 0] ≫= λ _,
    store spec_ptr (itimer_spec itv vtv) ≫= λ _,
    r ← tty_req TIMER_SETTIME [0; spec_ptr; 0];
    mret (if r <? 0 then -22 else 0).

Definition sys_getitimer (which cur_ptr : Z) : st Os Z :=
  if negb (which =? 0) then mret 0
  else if negb (validate_user_buf cur_ptr 32) then mret (-14)
  else zero cur_ptr 32 ≫= λ _, mret 0.

Definition FIONREAD : Z := 0x541B.
Definition FBIOGET_VSCREENINFO : Z := 0x4600.

(** The end of [sys_ioctl]: the terminal server. *)
Definition ioctl_tty (fd cmd arg : Z) : st Os Z := tty_req TTY_IOCTL [fd; cmd; arg].

Definition sys_ioctl (fd cmd arg : Z) : st Os Z :=
  if (cmd =? FIONREAD) && (fd =? 0) then
    if (arg =? 0) || negb (validate_user_buf arg 4) then mret (-14)
    else
      rx ← st_get os_rx;
      store arg (le_encode 4 (match rx with [] => 0 | _ => 1 end)) ≫= λ _, mret 0
  else if (cmd =? FIONREAD) || (cmd =? FBIOGET_VSCREENINFO) then
    let user := (cmd =? FBIOGET_VSCREENINFO) && negb (arg =? 0) in
    if user && negb (validate_user_buf arg 32) then mret (-14)
    else
      (if user then on_k (on_as (Vmm.prefault_range arg 32)) ≫= λ _, mret tt else mret tt) ≫= λ _,
      r ← vfs_req VFS_IOCTL [fd; cmd; arg];
      if negb (r =? -25) then mret r else ioctl_tty fd cmd arg
  else ioctl_tty fd cmd arg.
