(* ===== verification/SysFile.v ===== *)
(** * System calls on files and descriptors (src/kernel/src/syscall.rs)

    Opening by path, reading and writing, stat, the working directory, polling
    and copying between descriptors, over the state of [SysOs].  A call that
    yields the CPU is given as one attempt: its result says whether it returns
    or tries again after the other tasks have run. *)

From Stdlib Require Import ZArith Lia Ascii String.
From stdpp Require Import base list option numbers strings.
From S2P Require Import Prelude Words Buddy Memory Paging Vmm IpcPort Cpio VfsData Vfs VfsPipe Task RunQueue Sched SysIpc SysMem Tty Net SysPath SysOs.
Import NetTags.

Local Open Scope Z_scope.

(** ** Opening and closing *)

(** [vfs_path] is the address of the 257-byte buffer on the kernel stack. *)
Definition sys_open (vfs_path path_ptr flags mode : Z) : st Os Z :=
  raw ← load path_ptr 256;
  match read_cstr_for_vfs raw with
  | None => mret (-14)
  | Some path =>
      sched ← st_get os_sched;
      let abs := resolve_path path sched in
      if (length abs =? 0)%nat then mret (-2)
      else
        store vfs_path (abs ++ replicate (257 - length abs) 0) ≫= λ _,
        vfs_req VFS_OPEN [vfs_path; flags; mode]
  end.

Definition sys_openat (vfs_path path_ptr flags mode : Z) : st Os Z := sys_open vfs_path path_ptr flags mode.

Definition sys_close (fd : Z) : st Os Z :=
  if SOCK_FD_BASE <=? fd then net_req NET_CLOSE [fd]
  else vfs_req VFS_CLOSE [fd].

(** [sys_memfd_create]: the name of the file; [path] is its address on the
    kernel stack. *)
Definition memfd_path (name_ptr : Z) (m : mem) : list Z :=
  let prefix := bytes "/tmp/memfd:" in
  let name := if name_ptr =? 0 then bytes "0" else cut_nul (mem_read m name_ptr 48) in
  prefix ++ name ++ replicate (64 - length prefix - length name) 0.

Definition sys_memfd_create (path name_ptr : Z) : st Os Z :=
  bs ← st_get (λ s, memfd_path name_ptr (os_mem s));
  store path bs ≫= λ _,
  vfs_req VFS_OPEN [path; Z.lor 0x041 0x200; 0x180].

(** All descriptors of the current process, on exit. *)
Definition vfs_close_all_current : st Os unit :=
  pid ← st_get os_pid;
  vfs_req VFS_CLOSE_ALL [pid] ≫= λ _,
  net_req NET_CLOSE_ALL [pid] ≫= λ _,
  st_modify (λ s, set_tty (tty_close_all pid (os_tty s)) s).

(** ** The working directory *)

Definition sys_chdir (vfs_path path_ptr : Z) : st Os Z :=
  if negb (validate_user_buf path_ptr 1) then mret (-14)
  else
    raw ← load path_ptr 256;
    match read_cstr_for_vfs raw with
    | None => mret (-14)
    | Some path =>
        sched ← st_get os_sched;
        let abs := resolve_path path sched in
        if (length abs =? 0)%nat then mret (-2)
        else
          fd ← sys_open vfs_path path_ptr 0 0;
          if fd <? 0 then mret fd
          else
            sys_close fd ≫= λ _,
            on_os_sched (st_lift (set_cwd abs)) ≫= λ _, mret 0
    end.

Definition sys_fchdir (fd : Z) : Z := -20.

Definition sys_getcwd (buf_ptr size : Z) : st Os Z :=
  if negb (validate_user_buf buf_ptr (Z.min size 1)) then mret (-14)
  else
    cwd ← st_get (λ s, current_cwd 256 (os_sched s));
    let '(tmp, res) := cwd in
    if res <=? 0 then mret (-34)
    else if size <=? res then mret (-34)
    else store buf_ptr (tmp ++ [0]) ≫= λ _, mret (to_i64 buf_ptr).

Definition sys_setpgid (pid_raw pgid_raw : Z) : st Os Z :=
  cur ← st_get os_pid;
  let pid := if pid_raw =? 0 then cur else u32 pid_raw in
  let pgid := if pgid_raw =? 0 then pid else u32 pgid_raw in
  ok ← on_os_sched (st_lift (set_pgid pid pgid));
  mret (if ok : bool then 0 else -3).

Definition sys_getpgid (pid_raw : Z) : st Os Z := st_get (λ s, current_pgid (os_sched s)).

(** ** Status *)

Definition S_IFCHR_666 : Z := 0x21B6.
Definition S_IFREG_644 : Z := 0x81A4.
Definition S_IFDIR_755 : Z := 0x41ED.

Definition sys_fstat (fd statbuf_ptr : Z) : st Os Z :=
  if negb (validate_user_buf statbuf_ptr 144) then mret (-14)
  else
    zero statbuf_ptr 144 ≫= λ _,
    if fd <=? 2 then store (statbuf_ptr + 24) (le_encode 4 S_IFCHR_666) ≫= λ _, mret 0
    else
      cur ← vfs_req VFS_LSEEK [fd; 0; 1];
      if cur =? -9 then mret (-9)
      else
        size ← vfs_req VFS_LSEEK [fd; 0; 2];
        vfs_req VFS_LSEEK [fd; u64 cur; 0] ≫= λ _,
        store (statbuf_ptr + 24) (le_encode 4 S_IFREG_644) ≫= λ _,
        (if 0 <=? size then
           store (statbuf_ptr + 48) (le_encode 8 size) ≫= λ _,
           store (statbuf_ptr + 56) (le_encode 8 512) ≫= λ _,
           store (statbuf_ptr + 64) (le_encode 8 ((size + 511) / 512))
         else mret tt) ≫= λ _, mret 0.

(** The directory case, then open, stat and close. *)
Definition sys_newfstatat (path_ptr statbuf_ptr : Z) : st Os Z :=
  if negb (validate_user_buf path_ptr 1) then mret (-14)
  else if negb (validate_user_buf statbuf_ptr 144) then mret (-14)
  else
    dir ← st_get (λ s, is_directory path_ptr (kn_vfs (os_k s)));
    if dir : bool then
      zero statbuf_ptr 144 ≫= λ _,
      store (statbuf_ptr + 24) (le_encode 4 S_IFDIR_755) ≫= λ _, mret 0
    else
      fd ← vfs_req VFS_OPEN [path_ptr; 0; 0];
      if fd <? 0 then mret fd
      else
        r ← sys_fstat fd statbuf_ptr;
        vfs_req VFS_CLOSE [fd] ≫= λ _, mret r.

(** [stat_ptr] is the address of the 144-byte buffer on the kernel stack. *)
Definition sys_statx (stat_ptr path_ptr statxbuf : Z) : st Os Z :=
  if negb (validate_user_buf statxbuf 256) then mret (-14)
  else
    zero statxbuf 256 ≫= λ _,
    zero stat_ptr 144 ≫= λ _,
    r ← sys_newfstatat path_ptr stat_ptr;
    if r <? 0 then mret r
    else
      mode ← load_le (stat_ptr + 24) 4;
      size ← load_le (stat_ptr + 48) 8;
      blksize ← load_le (stat_ptr + 56) 8;
      blocks ← load_le (stat_ptr + 64) 8;
      store statxbuf (le_encode 4 0x7ff) ≫= λ _,
      store (statxbuf + 4) (le_encode 4 (u32 blksize)) ≫= λ _,
      store (statxbuf + 16) (le_encode 4 1) ≫= λ _,
      store (statxbuf + 28) (le_encode 2 mode) ≫= λ _,
      store (statxbuf + 40) (le_encode 8 size) ≫= λ _,
      store (statxbuf + 48) (le_encode 8 blocks) ≫= λ _, mret 0.

Definition sys_faccessat (path_ptr : Z) : st Os Z :=
  if negb (validate_user_buf path_ptr 1) then mret (-14)
  else st_get (λ s, let v := kn_vfs (os_k s) in
    if bool_decide (is_Some (get_file_data path_ptr v)) || is_directory path_ptr v then 0 else -2).

Definition sys_statfs (buf_ptr : Z) : st Os Z :=
  if negb (validate_user_buf buf_ptr 120) then mret (-14)
  else
    zero buf_ptr 120 ≫= λ _,
    store buf_ptr (le_encode 4 0xEF53) ≫= λ _,
    store (buf_ptr + 4) (le_encode 4 4096) ≫= λ _, mret 0.

(** [sys_readlinkat]: the path, up to its NUL; empty when no NUL is among the
    first 255 bytes. *)
Definition link_path (raw : list Z) : list Z :=
  match position (Z.eqb 0) (take 255 raw) with Some n => take n raw | None => [] end.

(** The decimal number after the prefix. *)
Definition parse_fd (num : list Z) : option Z :=
  match num with
  | [] => None
  | _ => fold_left (λ acc d, fd ← acc; if (d <? 48) || (57 <? d) then None else Some (wadd (wmul fd 10) (d - 48))) num (Some 0)
  end.

Definition sys_readlinkat (path_ptr buf_ptr size : Z) : st Os Z :=
  if negb (validate_user_buf path_ptr 1) then mret (-14)
  else if (size =? 0) || negb (validate_user_buf buf_ptr size) then mret (-14)
  else
    raw ← load path_ptr 255;
    let path := link_path raw in
    if bytes_eq path (bytes "/proc/self/exe") then
      let n := Z.min 9 size in
      store buf_ptr (take (Z.to_nat n) (bytes "/bin/init")) ≫= λ _, mret n
    else if bytes_eq path (bytes "/proc/self/maps") then mret 0
    else if (15 <? length path)%nat && bytes_eq (take 15 path) (bytes "/proc/self/fd/") then
      match parse_fd (drop 15 path) with
      | Some fd => vfs_req VFS_FD_PATH [fd; buf_ptr; size]
      | None => mret (-2)
      end
    else mret (-2).

(** ** Reading and writing *)

Definition serial_write_raw (bs : list Z) : st Os unit := st_modify (λ s, set_tx (os_tx s ++ bs) s).

Definition serial_read_byte : st Os (option Z) :=
  st_lift (λ s, match os_rx s with [] => (None, s) | b :: rx => (Some b, set_rx rx s) end).

Definition sys_write (fd buf_ptr count : Z) : st Os Z :=
  if count =? 0 then mret 0
  else if negb (validate_user_buf buf_ptr count) then mret (-14)
  else if (fd =? 1) || (fd =? 2) then
    r ← st_get (λ s, default (false, []) (with_current_address_space (λ k a, read_user_buf k a buf_ptr count) (os_sched s)));
    let '(ok, kbuf) := r in
    if negb ok then mret (-14)
    else serial_write_raw kbuf ≫= λ _, mret (to_i64 count)
  else vfs_req VFS_WRITE [fd; buf_ptr; count].

(** What is waiting in the UART, at most [count] bytes. *)
Definition drain_serial (count : Z) : st Os (list Z) :=
  st_lift (λ s, (take (Z.to_nat count) (os_rx s), set_rx (drop (Z.to_nat count) (os_rx s)) s)).

(** The wait for the console: [None] is a yield. *)
Definition read_console (buf_ptr count : Z) : st Os (option Z) :=
  kbuf ← drain_serial count;
  match kbuf with
  | [] => mret None
  | _ =>
      ok ← on_k (on_as (write_user_buf buf_ptr kbuf));
      mret (Some (if default false ok then Z.of_nat (length kbuf) else -14))
  end.

(** The wait for the server. *)
Definition read_server (fd buf_ptr count : Z) : st Os (option Z) :=
  n ← vfs_req VFS_READ [fd; buf_ptr; count];
  mret (if n =? -11 then None else Some n).

Definition sys_read_try (fd buf_ptr count : Z) : st Os (option Z) :=
  if fd =? 0 then
    if count =? 0 then mret (Some 0)
    else if negb (validate_user_buf buf_ptr count) then mret (Some (-14))
    else read_console buf_ptr count
  else if negb (count =? 0) && negb (validate_user_buf buf_ptr count) then mret (Some (-14))
  else
    (if negb (count =? 0) then on_k (on_as (prefault_range buf_ptr count)) ≫= λ _, mret tt else mret tt) ≫= λ _,
    read_server fd buf_ptr count.

(** After a yield. *)
Definition sys_read_again (fd buf_ptr count : Z) : st Os (option Z) :=
  if fd =? 0 then read_console buf_ptr count else read_server fd buf_ptr count.

(** The buffer and the length of the [i]-th [struct iovec]. *)
Definition load_iovec (iov_ptr i : Z) : st Os (Z * Z) :=
  base ← load_le (iov_ptr + i * 16) 8;
  n ← load_le (iov_ptr + i * 16 + 8) 8;
  mret (base, n).

Definition saturating_add_i64 (a b : Z) : Z := Z.max (- 2^63) (Z.min (a + b) (2^63 - 1)).

Fixpoint writev_loop (n : nat) (iov_ptr i total : Z) : st Os Z :=
  match n with
  | O => mret total
  | S n' =>
      iov ← load_iovec iov_ptr i;
      let '(base, len) := iov in
      if len =? 0 then writev_loop n' iov_ptr (i + 1) total
      else if negb (validate_user_buf base len) then mret (-14)
      else
        bs ← load base len;
        serial_write_raw bs ≫= λ _,
        writev_loop n' iov_ptr (i + 1) (saturating_add_i64 total (to_i64 len))
  end.

Definition sys_writev (fd iov_ptr iovcnt : Z) : st Os Z :=
  if iovcnt =? 0 then mret 0
  else if negb (validate_user_buf iov_ptr (Z.min (iovcnt * 16) U64_MAX)) then mret (-14)
  else if (fd =? 1) || (fd =? 2) then writev_loop (Z.to_nat iovcnt) iov_ptr 0 0
  else mret (-9).

(** Where [sys_readv] stands: done, about to ask for iovec [i] again with
    [total] bytes read so far, or waiting for the console. *)
Inductive readv_state :=
  | ReadvDone (r : Z)
  | ReadvAgain (i total base len : Z)
  | ReadvConsole (base len : Z).

(** A read to iovec [i], then the rest. *)
Definition readv_read (fd i total base len : Z) (rest : Z → st Os readv_state) : st Os readv_state :=
  v ← vfs_req VFS_READ [fd; base; len];
  if v =? -11 then mret (ReadvAgain i total base len)
  else if v <? 0 then mret (ReadvDone (if 0 <? total then total else v))
  else if v <? len then mret (ReadvDone (saturating_add_i64 total v))
  else rest (saturating_add_i64 total v).

Fixpoint readv_loop (n : nat) (fd iov_ptr i total : Z) : st Os readv_state :=
  match n with
  | O => mret (ReadvDone total)
  | S n' =>
      iov ← load_iovec iov_ptr i;
      let '(base, len) := iov in
      if len =? 0 then readv_loop n' fd iov_ptr (i + 1) total
      else if negb (validate_user_buf base len) then mret (ReadvDone (-14))
      else readv_read fd i total base len (readv_loop n' fd iov_ptr (i + 1))
  end.

(** The first iovec that is not empty, for the console. *)
Fixpoint first_iovec (n : nat) (iov_ptr i : Z) : st Os (option (Z * Z)) :=
  match n with
  | O => mret None
  | S n' =>
      iov ← load_iovec iov_ptr i;
      if 0 <? iov.2 then mret (Some iov) else first_iovec n' iov_ptr (i + 1)
  end.

Definition sys_readv_try (fd iov_ptr iovcnt : Z) : st Os readv_state :=
  if iovcnt =? 0 then mret (ReadvDone 0)
  else if negb (validate_user_buf iov_ptr (Z.min (iovcnt * 16) U64_MAX)) then mret (ReadvDone (-14))
  else if fd =? 0 then
    iov ← first_iovec (Z.to_nat iovcnt) iov_ptr 0;
    match iov with
    | None => mret (ReadvDone 0)
    | Some (base, len) =>
        r ← sys_read_try 0 base len;
        mret (match r with Some v => ReadvDone v | None => ReadvConsole base len end)
    end
  else readv_loop (Z.to_nat iovcnt) fd iov_ptr 0 0.

(** After a yield in the loop. *)
Definition sys_readv_again (fd iov_ptr iovcnt i total base len : Z) : st Os readv_state :=
  readv_read fd i total base len (readv_loop (Z.to_nat (iovcnt - i - 1)) fd iov_ptr (i + 1)).

(** ** Copying between descriptors *)

Definition CHUNK : Z := 4096.

(** The transfer loop: every round moves at least a byte, so [count] rounds
    are enough.  [buf] is the address of the chunk on the kernel stack. *)
Fixpoint sendfile_loop (fuel : nat) (buf out_fd in_fd count transferred : Z) : st Os Z :=
  match fuel with
  | O => mret transferred
  | S fuel' =>
      if transferred <? count then
        n ← vfs_req VFS_READ [in_fd; buf; Z.min (count - transferred) CHUNK];
        if n <=? 0 then mret transferred
        else
          w ← vfs_req VFS_WRITE [out_fd; buf; n];
          if w <=? 0 then mret transferred
          else sendfile_loop fuel' buf out_fd in_fd count (transferred + w)
      else mret transferred
  end.

(** The seek of the input to the caller's offset; an error ends the call. *)
Definition sendfile_seek (in_fd offset_ptr : Z) : st Os (option Z) :=
  if offset_ptr =? 0 then mret None
  else if negb (validate_user_buf offset_ptr 8) then mret (Some (-14))
  else
    off ← load_le offset_ptr 8;
    pos ← vfs_req VFS_LSEEK [in_fd; off; 0];
    mret (if pos <? 0 then Some pos else None).

Definition sys_sendfile (buf out_fd in_fd offset_ptr count : Z) : st Os Z :=
  if count =? 0 then mret 0
  else
    err ← sendfile_seek in_fd offset_ptr;
    match err with
    | Some e => mret e
    | None =>
        write_mem (mem_fill buf 0 CHUNK) ≫= λ _,
        transferred ← sendfile_loop (Z.to_nat count) buf out_fd in_fd count 0;
        (if negb (offset_ptr =? 0) && (0 <? transferred) then
           off ← load_le offset_ptr 8;
           store offset_ptr (le_encode 8 (wadd off transferred))
         else mret tt) ≫= λ _, mret (to_i64 transferred)
    end.

(** ** Polling *)

Definition POLLIN : Z := 1.
Definition POLLOUT : Z := 4.
Definition POLLNVAL : Z := 0x20.

(** The events of one descriptor; [events] is an [i16]. *)
Definition poll_fd (fd events : Z) : st Os Z :=
  if fd <=? 2 then
    if fd =? 0 then
      b ← serial_read_byte;
      mret (match b with Some _ => POLLIN | None => 0 end)
    else mret (Z.land events POLLOUT)
  else
    r ← vfs_req VFS_LSEEK [fd; 0; 1];
    if r =? -9 then mret POLLNVAL
    else mret (Z.lor (Z.land events POLLOUT) (Z.land events POLLIN)).

Fixpoint ppoll_loop (n : nat) (pfd nready : Z) : st Os Z :=
  match n with
  | O => mret nready
  | S n' =>
      fd ← load_i32 pfd;
      events ← load_le (pfd + 4) 2;
      if fd <? 0 then store (pfd + 6) (le_encode 2 0) ≫= λ _, ppoll_loop n' (pfd + 8) nready
      else
        revents ← poll_fd fd events;
        store (pfd + 6) (le_encode 2 revents) ≫= λ _,
        ppoll_loop n' (pfd + 8) (if negb (revents =? 0) && negb (revents =? POLLNVAL) then nready + 1 else nready)
  end.

(** The result, and whether the call yields before it returns. *)
Definition sys_ppoll (fds_ptr nfds timeout_ptr : Z) : st Os (Z * bool) :=
  if nfds =? 0 then mret (0, false)
  else if negb (validate_user_buf fds_ptr (Z.min (nfds * 8) U64_MAX)) then mret (-14, false)
  else
    nready ← ppoll_loop (Z.to_nat nfds) fds_ptr 0;
    if (nready =? 0) && negb (timeout_ptr =? 0) then
      tv_sec ← load_i64 timeout_ptr;
      tv_nsec ← load_i64 (timeout_ptr + 8);
      mret (0, negb ((tv_sec =? 0) && (tv_nsec =? 0)))
    else mret (nready, nready =? 0).

(** The bits of all descriptors below [nfds]. *)
Definition all_ready (nfds : Z) : list Z :=
  replicate (Z.to_nat (saturating_sub (wadd nfds 7 / 8) 1)) 0xFF ++
  [if nfds mod 8 =? 0 then 0xFF else Z.shiftl 1 (nfds mod 8) - 1].

Definition select_set (set nfds : Z) : st Os unit :=
  if negb (set =? 0) && validate_user_buf set (wadd nfds 7 / 8) then store set (all_ready nfds) else mret tt.

Definition sys_select (nfds rfds wfds : Z) : st Os Z :=
  select_set rfds nfds ≫= λ _, select_set wfds nfds ≫= λ _, mret (to_i64 nfds).
