(* ===== verification/SysInfo.v ===== *)
(** * System calls about time, identity and limits (src/kernel/src/syscall.rs)

    The clock calls count the ticks of the scheduler, 100 per second.  The
    theorems: what the clocks report is the tick count exactly, and a sleep
    returns when at least the whole ticks of the request have passed. *)

From Stdlib Require Import ZArith Lia Ascii String.
From stdpp Require Import base list option numbers strings.
From S2P Require Import Prelude Words Buddy Memory IpcPort Cpio VfsData Vfs Task RunQueue Sched Signal SysIpc SysMem SysOs.

Local Open Scope Z_scope.

Definition now : st Os Z := st_get (λ s, ticks (os_sched s)).

(** ** Clocks *)

Definition sys_clock_gettime (tp_ptr : Z) : st Os Z :=
  if negb (validate_user_ptr_aligned tp_ptr 16 8) then mret (-14)
  else
    t ← now;
    store tp_ptr (le_encode 8 (t / 100)) ≫= λ _,
    store (tp_ptr + 8) (le_encode 8 (t mod 100 * 10000000)) ≫= λ _, mret 0.

Definition sys_clock_getres (res_ptr : Z) : st Os Z :=
  if negb (res_ptr =? 0) then
    if negb (validate_user_buf res_ptr 16) then mret (-14)
    else
      store res_ptr (le_encode 8 0) ≫= λ _,
      store (res_ptr + 8) (le_encode 8 10000000) ≫= λ _, mret 0
  else mret 0.

Definition sys_gettimeofday (tv_ptr tz_ptr : Z) : st Os Z :=
  if negb (tv_ptr =? 0) && negb (validate_user_buf tv_ptr 16) then mret (-14)
  else
    (if negb (tv_ptr =? 0) then
       t ← now;
       store tv_ptr (le_encode 8 (t / 100)) ≫= λ _,
       store (tv_ptr + 8) (le_encode 8 (t mod 100 * 10000))
     else mret tt) ≫= λ _,
    (if negb (tz_ptr =? 0) && validate_user_buf tz_ptr 8 then zero tz_ptr 8 else mret tt) ≫= λ _, mret 0.

Definition sys_times (buf_ptr : Z) : st Os Z :=
  (if negb (buf_ptr =? 0) && validate_user_buf buf_ptr 32 then zero buf_ptr 32 else mret tt) ≫= λ _,
  t ← now; mret (to_i64 t).

(** [sys_nanosleep] up to its loop: it returns at once, or yields until the
    clock has reached a deadline. *)
Inductive sleep := Awake (r : Z) | Until (deadline : Z).

Definition sys_nanosleep (rqtp_ptr : Z) : st Os sleep :=
  if rqtp_ptr =? 0 then mret (Awake 0)
  else if negb (validate_user_buf rqtp_ptr 16) then mret (Awake (-14))
  else
    tv_sec ← load_i64 rqtp_ptr;
    tv_nsec ← load_i64 (rqtp_ptr + 8);
    if (tv_sec <? 0) || (tv_nsec <? 0) || (1000000000 <=? tv_nsec) then mret (Awake (-22))
    else
      let ticks_needed := wadd (wmul (u64 tv_sec) 100) (u64 tv_nsec / 10000000) in
      if ticks_needed =? 0 then mret (Awake 0)
      else t ← now; mret (Until (wadd t ticks_needed)).

(** The test after a yield. *)
Definition nanosleep_done (deadline : Z) (s : Os) : bool := deadline <=? ticks (os_sched s).

(** ** Random bytes: a linear congruential generator *)

Definition lcg (state : Z) : Z := wadd (wmul state 6364136223846793005) 1442695040888963407.

(** The bytes of [chunks] blocks of eight. *)
Fixpoint lcg_bytes (chunks : nat) (state : Z) : list Z :=
  match chunks with
  | O => []
  | S n => le_encode 8 (lcg state) ++ lcg_bytes n (lcg state)
  end.

Definition sys_getrandom (buf_ptr count : Z) : st Os Z :=
  if count =? 0 then mret 0
  else if negb (validate_user_buf buf_ptr count) then mret (-14)
  else
    t ← now;
    store buf_ptr (take (Z.to_nat count) (lcg_bytes (Z.to_nat ((count + 7) / 8)) (wadd t 0xdeadbeefcafebabe))) ≫= λ _,
    mret (to_i64 count).

(** ** Identity and limits *)

Definition sys_prctl (option_ arg2 : Z) : st Os Z :=
  if option_ =? 15 then mret 0
  else if option_ =? 16 then
    (if validate_user_buf arg2 16 then store arg2 (bytes "cyanos" ++ replicate 10 0) else mret tt) ≫= λ _, mret 0
  else if option_ =? 3 then mret 1
  else mret 0.

Definition sys_sysinfo (info_ptr : Z) : st Os Z :=
  if negb (validate_user_buf info_ptr 112) then mret (-14)
  else
    zero info_ptr 112 ≫= λ _,
    t ← now;
    b ← st_get (λ s, k_buddy (sc_kmem (os_sched s)));
    store info_ptr (le_encode 8 (t / 100)) ≫= λ _,
    store (info_ptr + 32) (le_encode 8 (wmul (total_pages b) PAGE_SIZE)) ≫= λ _,
    store (info_ptr + 40) (le_encode 8 (wmul (free_pages b) PAGE_SIZE)) ≫= λ _,
    store (info_ptr + 80) (le_encode 2 1) ≫= λ _,
    store (info_ptr + 104) (le_encode 4 1) ≫= λ _, mret 0.

Definition utsname_fields : list (list Z * Z) :=
  [(bytes "Cyanos" ++ [0], 0); (bytes "cyanos" ++ [0], 65); (bytes "1.0.0" ++ [0], 130);
   (bytes "#1" ++ [0], 195); (bytes "aarch64" ++ [0], 260)].

Definition sys_uname (buf_ptr : Z) : st Os Z :=
  if negb (validate_user_buf buf_ptr 390) then mret (-14)
  else
    zero buf_ptr 390 ≫= λ _,
    for_each utsname_fields (λ '(s, off), store (buf_ptr + off) s) ≫= λ _, mret 0.

(** Both limits are infinite: [sys_getrlimit] and [sys_prlimit64]. *)
Definition unlimited (rlim_ptr : Z) : st Os Z :=
  if negb (rlim_ptr =? 0) then
    if negb (validate_user_buf rlim_ptr 16) then mret (-14)
    else
      store rlim_ptr (le_encode 8 U64_MAX) ≫= λ _,
      store (rlim_ptr + 8) (le_encode 8 U64_MAX) ≫= λ _, mret 0
  else mret 0.

Definition sys_getrlimit (rlim_ptr : Z) : st Os Z := unlimited rlim_ptr.
Definition sys_prlimit64 (old_ptr : Z) : st Os Z := unlimited old_ptr.

Definition sys_getrusage (usage_ptr : Z) : st Os Z :=
  if negb (validate_user_buf usage_ptr 144) then mret (-14)
  else
    zero usage_ptr 144 ≫= λ _,
    store (usage_ptr + 32) (le_encode 8 4096) ≫= λ _, mret 0.

Definition sys_sched_getparam (param_ptr : Z) : st Os Z :=
  (if negb (param_ptr =? 0) && validate_user_buf param_ptr 4 then store param_ptr (le_encode 4 0) else mret tt) ≫= λ _, mret 0.

Definition sys_sched_getaffinity (cpusetsize mask_ptr : Z) : st Os Z :=
  if mask_ptr =? 0 then mret (-14)
  else
    let n := Z.min cpusetsize 128 in
    if negb (validate_user_buf mask_ptr n) then mret (-14)
    else
      zero mask_ptr n ≫= λ _,
      (if 0 <? n then store mask_ptr [1] else mret tt) ≫= λ _, mret 0.

Definition sys_capget (data_ptr : Z) : st Os Z :=
  (if negb (data_ptr =? 0) && validate_user_buf data_ptr 24 then
     store data_ptr (le_encode 4 U32_MAX ++ le_encode 4 U32_MAX ++ le_encode 4 0 ++
       le_encode 4 U32_MAX ++ le_encode 4 U32_MAX ++ le_encode 4 0)
   else mret tt) ≫= λ _, mret 0.

(** An id, always root's, at a pointer that may be null. *)
Definition put_id (p : Z) : st Os unit :=
  if negb (p =? 0) && validate_user_buf p 4 then store p (le_encode 4 0) else mret tt.

Definition sys_getresxid (r_ptr e_ptr s_ptr : Z) : st Os Z :=
  put_id r_ptr ≫= λ _, put_id e_ptr ≫= λ _, put_id s_ptr ≫= λ _, mret 0.

Definition sys_sigaltstack (oss : Z) : st Os Z :=
  (if negb (oss =? 0) && validate_user_buf oss 24 then
     zero oss 24 ≫= λ _, store (oss + 8) (le_encode 4 4)
   else mret tt) ≫= λ _, mret 0.

Definition sys_sigpending (set_ptr : Z) : st Os Z :=
  if negb (validate_user_buf set_ptr 8) then mret (-14)
  else
    p ← st_get (λ s, pending_signals (os_sched s));
    store set_ptr (le_encode 8 p) ≫= λ _, mret 0.

(** ** Signals to a task *)

Definition sys_kill (pid_raw sig_raw : Z) : st Os Z :=
  let pid := u32 pid_raw in
  let sig := u32 sig_raw in
  if 64 <=? sig then mret (-22)
  else on_os_sched (st_lift (deliver_signal pid sig)).

Definition sys_tgkill (tid sig : Z) : st Os Z :=
  if 64 <=? sig then mret (-22)
  else on_os_sched (st_lift (deliver_signal (u32 tid) (u32 sig))).

Definition sys_getppid : st Os Z := st_get (λ s, current_ppid (os_sched s)).

Definition sys_set_tid_address (tidptr : Z) : st Os Z :=
  on_os_sched (st_modify (set_clear_child_tid tidptr)) ≫= λ _, st_get os_pid.

(** [sys_rt_sigsuspend]: the old mask is kept over the yields. *)
Definition sys_rt_sigsuspend_begin (mask_ptr : Z) : st Os (Z * Z) :=
  new_mask ← (if negb (mask_ptr =? 0) && validate_user_buf mask_ptr 8 then load_le mask_ptr 8 else mret 0);
  old_mask ← on_os_sched (st_lift (replace_signal_mask new_mask));
  mret (new_mask, old_mask).

(** One round: [None] is a yield. *)
Definition sys_rt_sigsuspend_try (new_mask old_mask : Z) : st Os (option Z) :=
  p ← st_get (λ s, pending_signals (os_sched s));
  if Z.land p (wnot new_mask) =? 0 then mret None
  else on_os_sched (st_lift (replace_signal_mask old_mask)) ≫= λ _, mret (Some (-4)).

(** [sys_rt_sigtimedwait]: the mask and the deadline, then the rounds. *)
Definition sys_rt_sigtimedwait_begin (set_ptr timeout_ptr : Z) : st Os (Z * option Z) :=
  wait_mask ← (if negb (set_ptr =? 0) && validate_user_buf set_ptr 8 then load_le set_ptr 8 else mret U64_MAX);
  t ← now;
  if negb (timeout_ptr =? 0) && validate_user_buf timeout_ptr 16 then
    tv_sec ← load_i64 timeout_ptr;
    tv_nsec ← load_i64 (timeout_ptr + 8);
    if (tv_sec =? 0) && (tv_nsec =? 0) then mret (wait_mask, Some t)
    else
      let ticks_val := wadd (wmul (u64 tv_sec) 100) (u64 tv_nsec / 10000000) in
      mret (wait_mask, Some (wadd t (Z.max ticks_val 1)))
  else mret (wait_mask, None).

(** The number of trailing zero bits of a word that is not zero. *)
Fixpoint trailing_zeros (fuel : nat) (x : Z) : Z :=
  match fuel with
  | O => 0
  | S n => if Z.testbit x 0 then 0 else 1 + trailing_zeros n (Z.shiftr x 1)
  end.

Definition sys_rt_sigtimedwait_try (wait_mask : Z) (deadline : option Z) (info_ptr : Z) : st Os (option Z) :=
  p ← st_get (λ s, pending_signals (os_sched s));
  let pending := Z.land p wait_mask in
  if negb (pending =? 0) then
    let signo := trailing_zeros 64 pending + 1 in
    on_os_sched (st_modify (clear_pending_signal signo)) ≫= λ _,
    (if negb (info_ptr =? 0) && validate_user_buf info_ptr 128 then
       zero info_ptr 128 ≫= λ _, store info_ptr (le_encode 4 signo)
     else mret tt) ≫= λ _, mret (Some signo)
  else
    t ← now;
    mret (match deadline with Some dl => if dl <=? t then Some (-110) else None | None => None end).

(** ** Waiting for children *)

Definition sys_wait_check (status_ptr : Z) : bool :=
  (status_ptr =? 0) || validate_user_ptr_aligned status_ptr 4 4.

(** One round of [sys_wait]: [None] is a yield. *)
Definition sys_wait_try (pid_raw status_ptr : Z) : st Os (option Z) :=
  if negb (sys_wait_check status_ptr) then mret (Some (-14))
  else
    r ← on_os_sched (wait_pid_once (u32 pid_raw));
    match r with
    | None => mret None
    | Some (Some code) =>
        (if negb (status_ptr =? 0) then store status_ptr (le_encode 4 (u32 code)) else mret tt) ≫= λ _, mret (Some 0)
    | Some None => mret (Some (-3))
    end.

Definition sys_waitid_try (idtype id infop : Z) : st Os (option Z) :=
  let target_pid := if idtype =? 1 then u32 id else U32_MAX in
  r ← on_os_sched (wait_pid_once target_pid);
  match r with
  | None => mret None
  | Some (Some exit_code) =>
      (if negb (infop =? 0) && validate_user_buf infop 128 then
         zero infop 128 ≫= λ _,
         store infop (le_encode 4 17) ≫= λ _,
         store (infop + 8) (le_encode 4 1) ≫= λ _,
         store (infop + 16) (le_encode 4 target_pid) ≫= λ _,
         store (infop + 24) (le_encode 4 (u32 exit_code))
       else mret tt) ≫= λ _, mret (Some 0)
  | Some None => mret (Some (-10))
  end.

(** ** What the clock says *)

(** [clock_gettime] reports the ticks since boot exactly, 10 ms each, as seconds
    and nanoseconds below 10^9, and writes nothing but the 16 bytes. *)
Lemma clock_gettime_exact tp s : validate_user_ptr_aligned tp 16 8 = true → 0 ≤ ticks (os_sched s) < 2^64 →
  ∃ s', sys_clock_gettime tp s = Ret (0, s') ∧
    let sec := le_decode (mem_read (os_mem s') tp 8) in
    let nsec := le_decode (mem_read (os_mem s') (tp + 8) 8) in
    sec * 1000000000 + nsec = ticks (os_sched s) * 10000000 ∧ 0 ≤ nsec < 1000000000 ∧
    ∀ x, ¬ (tp ≤ x < tp + 16) → os_mem s' x = os_mem s x.
Proof.
  intros Hv Ht. unfold sys_clock_gettime. rewrite Hv. cbn [negb]. set (t := ticks (os_sched s)) in *.
  set (m1 := mem_write tp (le_encode 8 (t / 100)) (os_mem s)).
  set (m2 := mem_write (tp + 8) (le_encode 8 (t mod 100 * 10000000)) m1).
  exists (put_mem m2 s). split; [reflexivity|]. change (os_mem (put_mem m2 s)) with m2. cbv zeta.
  assert (mem_read m2 tp 8 = le_encode 8 (t / 100)) as ->.
  { transitivity (mem_read m1 tp 8); [|apply (mem_read_write tp (le_encode 8 (t / 100)))].
    apply mem_read_ext. intros x Hx. apply mem_write_out. rewrite length_le_encode. lia. }
  replace (mem_read m2 (tp + 8) 8) with (le_encode 8 (t mod 100 * 10000000))
    by (symmetry; apply (mem_read_write (tp + 8) (le_encode 8 (t mod 100 * 10000000)) m1)).
  pose proof (Z.mod_pos_bound t 100 ltac:(lia)). pose proof (Z.div_mod t 100 ltac:(lia)).
  rewrite !le_decode_encode by lia. split_and!; [lia..|].
  intros x Hx. unfold m2, m1. rewrite !mem_write_out; [done|rewrite length_le_encode; lia..].
Qed.

(** A sleep ends at the first tick that is at most 10 ms short of the request:
    the request is rounded down to whole ticks. *)
Lemma nanosleep_rounds_down rqtp s sec nsec : rqtp ≠ 0 → validate_user_buf rqtp 16 = true →
  0 ≤ sec → sec * 100 + 99 < 2^63 → 0 ≤ nsec < 1000000000 →
  mem_read (os_mem s) rqtp 16 = le_encode 8 sec ++ le_encode 8 nsec → 0 ≤ ticks (os_sched s) → ticks (os_sched s) < 2^63 →
  let n := (sec * 1000000000 + nsec) / 10000000 in
  sys_nanosleep rqtp s = Ret (if n =? 0 then Awake 0 else Until (ticks (os_sched s) + n), s).
Proof.
  intros Hr Hv Hs Hs2 Hn Hm Ht Ht2 n. unfold sys_nanosleep. rewrite (proj2 (Z.eqb_neq _ _) Hr), Hv. cbn [negb].
  rewrite (mem_read_app _ _ 8 8) in Hm by lia. apply app_inj_1 in Hm as [H1 H2]; [|by rewrite length_mem_read, length_le_encode].
  unfold mbind, st_bind. rewrite !load_i64_run, H1, H2, !le_decode_encode by lia.
  rewrite !to_i64_small by lia. rewrite !(proj2 (Z.ltb_ge _ 0)) by lia. rewrite (proj2 (Z.leb_gt 1000000000 nsec)) by lia.
  cbn [orb]. rewrite !u64_small by lia. unfold wmul. rewrite u64_small by lia.
  assert (0 ≤ nsec / 10000000 < 100) by (split; [apply Z.div_pos; lia|apply Z.div_lt_upper_bound; lia]).
  assert (n = sec * 100 + nsec / 10000000) as ->.
  { unfold n. replace (sec * 1000000000) with (sec * 100 * 10000000) by lia. rewrite Z.div_add_l by lia. done. }
  rewrite wadd_small by lia. destruct (_ =? 0); [done|]. unfold now, st_get. cbn [mret st_ret]. by rewrite wadd_small by lia.
Qed.
