(* ===== verification/SysEpoll.v ===== *)
(** * Epoll (src/kernel/src/syscall.rs)

    An epoll instance is one of sixteen tables of 32 interests.  The reference
    is a finite map from descriptors to the events and the data registered for
    them: [epoll_ctl] is insertion into and deletion from that map, and
    [epoll_wait] reports the registered descriptors in the order of the table,
    up to the first free entry. *)

From stdpp Require Import base list option numbers gmap.
From Stdlib Require Import ZArith Lia.
From S2P Require Import Prelude Words Memory IpcPort VfsData Vfs Task RunQueue Sched SysIpc SysMem SysOs.

Local Open Scope Z_scope.

(** ** The code *)

Definition EPOLL_FD_BASE : Z := 0x400.

Definition sys_epoll_create1 : st Os Z :=
  pid ← st_get os_pid;
  ep ← st_get os_epoll;
  match position (λ e, negb (ep_in_use e)) ep with
  | Some i =>
      st_modify (set_epoll (<[i := mkEpoll pid (ep_interests EpollInstance_empty) true]> ep)) ≫= λ _,
      mret (Z.of_nat i + EPOLL_FD_BASE)
  | None => mret (-12)
  end.

Definition epoll_slot (epfd : Z) : option nat :=
  if (EPOLL_FD_BASE <=? epfd) && (epfd <? EPOLL_FD_BASE + Z.of_nat MAX_EPOLL_INSTANCES)
  then Some (Z.to_nat (epfd - EPOLL_FD_BASE)) else None.

(** The instance [epfd] of the calling process; [EPOLL_INSTANCES[slot]] exists
    for every slot of the range. *)
Definition own_epoll (epfd : Z) : st Os (option (nat * EpollInstance)) :=
  match epoll_slot epfd with
  | None => mret None
  | Some slot =>
      pid ← st_get os_pid;
      ep ← st_get os_epoll;
      e ← st_index ep slot;
      mret (if negb (ep_in_use e) || negb (ep_owner_pid e =? pid) then None else Some (slot, e))
  end.

Definition interest_of (fd : Z) (i : EpollInterest) : bool := ei_in_use i && (ei_fd i =? to_i32 fd).

(** [or_else]: the entry of [fd], or the first free one. *)
Definition interest_slot (fd : Z) (l : list EpollInterest) : option nat :=
  match position (interest_of fd) l with
  | Some i => Some i
  | None => position (λ i, negb (ei_in_use i)) l
  end.

Definition set_interests (l : list EpollInterest) (e : EpollInstance) : EpollInstance :=
  mkEpoll (ep_owner_pid e) l (ep_in_use e).

(** The table after an addition or change, or [None] when it is full. *)
Definition epoll_add (fd events data_ : Z) (l : list EpollInterest) : option (list EpollInterest) :=
  i ← interest_slot fd l;
  Some (<[i := mkInterest (to_i32 fd) events data_ true]> l).

Definition epoll_del (fd : Z) (l : list EpollInterest) : list EpollInterest :=
  match position (interest_of fd) l with
  | Some i => <[i := EpollInterest_empty]> l
  | None => l
  end.

Definition put_epoll (slot : nat) (e : EpollInstance) : st Os unit :=
  st_modify (λ s, set_epoll (<[slot := e]> (os_epoll s)) s).

Definition sys_epoll_ctl (epfd op fd event_ptr : Z) : st Os Z :=
  own ← own_epoll epfd;
  match own with
  | None => mret (-9)
  | Some (slot, e) =>
      if (op =? 1) || (op =? 3) then
        if (event_ptr =? 0) || negb (validate_user_buf event_ptr 12) then mret (-14)
        else
          events ← load_le event_ptr 4;
          data_ ← load_le (event_ptr + 4) 8;
          match epoll_add fd events data_ (ep_interests e) with
          | Some l => put_epoll slot (set_interests l e) ≫= λ _, mret 0
          | None => mret (-12)
          end
      else if op =? 2 then
        put_epoll slot (set_interests (epoll_del fd (ep_interests e)) e) ≫= λ _, mret 0
      else mret (-22)
  end.

Definition EPOLLIN : Z := 1.
Definition EPOLLOUT : Z := 4.

Definition probe_fd_events (requested : Z) : Z :=
  Z.lor (if negb (Z.land requested EPOLLIN =? 0) then EPOLLIN else 0)
        (if negb (Z.land requested EPOLLOUT =? 0) then EPOLLOUT else 0).

(** The entry written for a ready interest. *)
Definition event_bytes (i : EpollInterest) : list Z :=
  le_encode 4 (probe_fd_events (ei_events i)) ++ le_encode 8 (ei_data i).

Fixpoint epoll_wait_loop (l : list EpollInterest) (base maxevents nready : Z) : st Os Z :=
  match l with
  | [] => mret nready
  | i :: l' =>
      if negb (ei_in_use i) || (maxevents <=? nready) then mret nready
      else if negb (probe_fd_events (ei_events i) =? 0) then
        store (base + nready * 12) (event_bytes i) ≫= λ _,
        epoll_wait_loop l' base maxevents (nready + 1)
      else epoll_wait_loop l' base maxevents nready
  end.

Definition sys_epoll_wait (epfd events_ptr maxevents : Z) : st Os Z :=
  if maxevents =? 0 then mret (-22)
  else if negb (validate_user_buf events_ptr (wmul maxevents 12)) then mret (-14)
  else
    own ← own_epoll epfd;
    match own with
    | None => mret (-9)
    | Some (_, e) => epoll_wait_loop (ep_interests e) events_ptr maxevents 0
    end.

(** ** The reference: a map of interests *)

Definition interest_map (l : list EpollInterest) : gmap Z (Z * Z) :=
  list_to_map (omap (λ i, if ei_in_use i then Some (ei_fd i, (ei_events i, ei_data i)) else None) l).

(** No descriptor has two entries. *)
Definition interests_ok (l : list EpollInterest) : Prop :=
  ∀ i j x y, l !! i = Some x → l !! j = Some y → ei_in_use x = true → ei_in_use y = true → ei_fd x = ei_fd y → i = j.

(** The abstract [epoll_ctl]: result and map. *)
Definition map_ctl (op fd events data_ : Z) (m : gmap Z (Z * Z)) : Z * gmap Z (Z * Z) :=
  if op =? 2 then (0, delete fd m)
  else if bool_decide (is_Some (m !! fd)) || (size m <? MAX_EPOLL_INTERESTS)%nat then (0, <[fd := (events, data_)]> m)
  else (-12, m).

Lemma interest_map_cons x l : interest_map (x :: l) =
  if ei_in_use x then <[ei_fd x := (ei_events x, ei_data x)]> (interest_map l) else interest_map l.
Proof. unfold interest_map. simpl. by destruct (ei_in_use x). Qed.

Lemma interests_ok_cons x l : interests_ok (x :: l) →
  interests_ok l ∧ (ei_in_use x = true → ∀ j y, l !! j = Some y → ei_in_use y = true → ei_fd y ≠ ei_fd x).
Proof.
  intros H. split.
  - intros i j y z Hi Hj ? ? ?. enough (S i = S j) by lia. by eapply (H (S i) (S j) y z).
  - intros Hx j y Hj Hy He. by specialize (H (S j) 0%nat y x Hj eq_refl Hy Hx He).
Qed.

Lemma interest_map_lookup l fd v : interests_ok l →
  interest_map l !! fd = Some v ↔ ∃ i x, l !! i = Some x ∧ ei_in_use x = true ∧ ei_fd x = fd ∧ v = (ei_events x, ei_data x).
Proof.
  induction l as [|x l IH]; intros Hok.
  { split; [done|]. intros (i & x & Hx & _). by rewrite lookup_nil in Hx. }
  apply interests_ok_cons in Hok as [Hok Hx]. rewrite interest_map_cons. destruct (ei_in_use x) eqn:Hu.
  - destruct (decide (ei_fd x = fd)) as [<-|Hne].
    + rewrite lookup_insert_eq. split.
      * intros [= <-]. by exists 0%nat, x.
      * intros ([|i] & y & Hy & Huy & Hf & ->); [by injection Hy as ->|]. by destruct (Hx eq_refl i y).
    + rewrite lookup_insert_ne, IH by done. split.
      * intros (i & y & ?). by exists (S i), y.
      * intros ([|i] & y & Hy & Huy & Hf & ->); [simplify_eq/=|]. by exists i, y.
  - rewrite IH by done. split.
    + intros (i & y & ?). by exists (S i), y.
    + intros ([|i] & y & Hy & Huy & Hf & ->); [simplify_eq/=; congruence|]. by exists i, y.
Qed.

Lemma interest_map_none l fd : interests_ok l →
  interest_map l !! fd = None ↔ ∀ i x, l !! i = Some x → ei_in_use x = true → ei_fd x ≠ fd.
Proof.
  intros Hok. rewrite eq_None_not_Some. split.
  - intros H i x Hi Hu Hf. apply H. eexists. apply interest_map_lookup; [done|]. by exists i, x.
  - intros H [v (i & x & Hi & Hu & Hf & _)%interest_map_lookup]; [|done]. by eapply H.
Qed.

(** The map is full when no entry is free. *)
Lemma interest_map_size l : interests_ok l →
  (size (interest_map l) ≤ length l)%nat ∧
  (position (λ i, negb (ei_in_use i)) l = None ↔ size (interest_map l) = length l).
Proof.
  induction l as [|x l IH]; intros Hok; [done|]. pose proof Hok as Hok0. apply interests_ok_cons in Hok as [Hok Hx].
  destruct (IH Hok) as [Hle Hfull]. rewrite interest_map_cons. simpl. destruct (ei_in_use x) eqn:Hu; simpl.
  - rewrite map_size_insert_None.
    + destruct (position _ l); simpl; (split; [lia|]); [split; [done|]|].
      * intros Hs. exfalso. assert (size (interest_map l) = length l) as Hl by lia. by apply Hfull in Hl.
      * split; [|done]. intros _. f_equal. by apply Hfull.
    + apply interest_map_none; [done|]. by apply Hx.
  - split; [lia|]. split; [done|lia].
Qed.

(** An entry is replaced by one for the same or for a new descriptor. *)
Lemma interests_ok_insert l k e : interests_ok l → (k < length l)%nat →
  (ei_in_use e = true → ∀ j y, l !! j = Some y → ei_in_use y = true → ei_fd y = ei_fd e → j = k) →
  interests_ok (<[k := e]> l).
Proof.
  intros Hok Hk He i j x y Hi Hj Hux Huy Hf.
  destruct (decide (i = k)) as [->|Hik], (decide (j = k)) as [->|Hjk]; [done|..].
  - rewrite list_lookup_insert_eq in Hi by done. rewrite list_lookup_insert_ne in Hj by done. simplify_eq.
    symmetry. by apply (He Hux j y).
  - rewrite list_lookup_insert_eq in Hj by done. rewrite list_lookup_insert_ne in Hi by done. simplify_eq.
    by apply (He Huy i x).
  - rewrite list_lookup_insert_ne in Hi by done. rewrite list_lookup_insert_ne in Hj by done. by eapply Hok.
Qed.

Lemma interest_of_spec fd x : interest_of fd x = true ↔ ei_in_use x = true ∧ ei_fd x = to_i32 fd.
Proof. unfold interest_of. by rewrite andb_true_iff, Z.eqb_eq. Qed.

Lemma interest_position l fd : interests_ok l →
  match position (interest_of fd) l with
  | Some i => ∃ x, l !! i = Some x ∧ ei_in_use x = true ∧ ei_fd x = to_i32 fd
  | None => interest_map l !! to_i32 fd = None
  end.
Proof.
  intros Hok. destruct (position (interest_of fd) l) as [i|] eqn:Hp.
  - apply position_Some in Hp as (x & Hx & Hi & _). exists x. by apply interest_of_spec in Hi.
  - rewrite interest_map_none by done. intros i x Hi Hu Hf. rewrite position_None in Hp. specialize (Hp i x Hi).
    enough (interest_of fd x = true) by congruence. by apply interest_of_spec.
Qed.

Lemma lookup_insert_entry (l : list EpollInterest) k e i y : (k < length l)%nat →
  <[k := e]> l !! i = Some y ↔ (i = k ∧ y = e) ∨ (i ≠ k ∧ l !! i = Some y).
Proof.
  intros Hk. destruct (decide (i = k)) as [->|Hne].
  - rewrite list_lookup_insert_eq by done. naive_solver.
  - rewrite list_lookup_insert_ne by done. naive_solver.
Qed.

Lemma interest_map_insert l k e x : interests_ok l → interests_ok (<[k := e]> l) → l !! k = Some x →
  (ei_in_use x = true → ei_fd x = ei_fd e) → ei_in_use e = true →
  interest_map (<[k := e]> l) = <[ei_fd e := (ei_events e, ei_data e)]> (interest_map l).
Proof.
  intros Hok Hok' Hx Hold Hu. pose proof (lookup_lt_Some _ _ _ Hx) as Hk. apply map_eq. intros fd. apply option_eq. intros v.
  rewrite interest_map_lookup by done. setoid_rewrite lookup_insert_entry; [|done].
  destruct (decide (fd = ei_fd e)) as [->|Hne].
  - rewrite lookup_insert_eq. split; [|intros [= <-]; by exists k, e; auto].
    intros (i & y & [[-> ->]|[Hi Hy]] & Huy & Hf & ->); [done|]. exfalso. apply Hi.
    eapply (Hok' i k y e); [by rewrite list_lookup_insert_ne|by rewrite list_lookup_insert_eq|done..].
  - rewrite lookup_insert_ne, interest_map_lookup by done. split.
    + intros (i & y & [[-> ->]|[Hi Hy]] & Huy & Hf & ->); [done|]. by exists i, y.
    + intros (i & y & Hy & Huy & Hf & ->). exists i, y. split; [|done]. right. split; [|done]. intros ->.
      rewrite Hx in Hy. injection Hy as ->. by rewrite Hold in Hf.
Qed.

Lemma interest_map_clear l k x : interests_ok l → l !! k = Some x → ei_in_use x = true →
  interest_map (<[k := EpollInterest_empty]> l) = delete (ei_fd x) (interest_map l).
Proof.
  intros Hok Hx Hu. pose proof (lookup_lt_Some _ _ _ Hx) as Hk. apply map_eq. intros fd. apply option_eq. intros v.
  rewrite interest_map_lookup by (apply interests_ok_insert; [done..|discriminate]).
  setoid_rewrite lookup_insert_entry; [|done]. destruct (decide (fd = ei_fd x)) as [->|Hne].
  - rewrite lookup_delete_eq. split; [|done]. intros (i & y & [[-> ->]|[Hi Hy]] & Huy & Hf & ->); [done|].
    destruct Hi. by eapply Hok.
  - rewrite lookup_delete_ne, interest_map_lookup by done. split.
    + intros (i & y & [[-> ->]|[Hi Hy]] & Huy & Hf & ->); [done|]. by exists i, y.
    + intros (i & y & Hy & Huy & Hf & ->). exists i, y. split; [|done]. right. split; [|done]. intros ->.
      rewrite Hx in Hy. by injection Hy as ->.
Qed.

(** The table after [epoll_ctl], against the map. *)
Lemma epoll_add_spec fd ev d l : interests_ok l → length l = MAX_EPOLL_INTERESTS →
  match epoll_add fd ev d l with
  | Some l' => interests_ok l' ∧ length l' = MAX_EPOLL_INTERESTS ∧ (0, interest_map l') = map_ctl 1 (to_i32 fd) ev d (interest_map l)
  | None => map_ctl 1 (to_i32 fd) ev d (interest_map l) = (-12, interest_map l)
  end.
Proof.
  intros Hok Hlen. pose proof (interest_position l fd Hok) as Hp. destruct (interest_map_size l Hok) as [Hle Hfull].
  unfold epoll_add, interest_slot, map_ctl. cbn [Z.eqb]. set (e := mkInterest (to_i32 fd) ev d true).
  destruct (position (interest_of fd) l) as [i|]; simpl.
  - destruct Hp as (x & Hx & Hu & Hf). pose proof (lookup_lt_Some _ _ _ Hx) as Hi.
    assert (interests_ok (<[i := e]> l)) as Hok'.
    { apply interests_ok_insert; [done..|]. intros _ j y Hj Huy Hfy. by eapply (Hok j i y x); rewrite ?Hfy, ?Hf. }
    split_and!; [done|by rewrite length_insert|]. rewrite bool_decide_true.
    + simpl. f_equal. by apply (interest_map_insert l i e x).
    + eexists. apply interest_map_lookup; [done|]. by exists i, x.
  - destruct (position _ l) as [i|] eqn:Hfree; simpl.
    + pose proof (position_Some (λ i, negb (ei_in_use i)) l i) as [Hs _]. destruct (Hs Hfree) as (x & Hx & Hu & _).
      apply negb_true_iff in Hu. pose proof (lookup_lt_Some _ _ _ Hx) as Hi.
      assert (interests_ok (<[i := e]> l)) as Hok'.
      { apply interests_ok_insert; [done..|]. intros _ j y Hj Huy Hfy. rewrite interest_map_none in Hp by done.
        by destruct (Hp j y Hj Huy). }
      split_and!; [done|by rewrite length_insert|].
      assert (size (interest_map l) ≠ length l) by (intros H; by apply Hfull in H).
      rewrite (proj2 (Nat.ltb_lt _ _)), orb_true_r by lia. f_equal.
      apply (interest_map_insert l i e x); [done..| |done]. congruence.
    + rewrite Hp. rewrite bool_decide_false by (by intros [??]). simpl.
      rewrite (proj1 Hfull eq_refl), Hlen, Nat.ltb_irrefl. done.
Qed.

Lemma epoll_del_spec fd ev d l : interests_ok l → length l = MAX_EPOLL_INTERESTS →
  interests_ok (epoll_del fd l) ∧ length (epoll_del fd l) = MAX_EPOLL_INTERESTS ∧
  (0, interest_map (epoll_del fd l)) = map_ctl 2 (to_i32 fd) ev d (interest_map l).
Proof.
  intros Hok Hlen. pose proof (interest_position l fd Hok) as Hp. unfold epoll_del, map_ctl. cbn [Z.eqb].
  destruct (position (interest_of fd) l) as [i|].
  - destruct Hp as (x & Hx & Hu & Hf). pose proof (lookup_lt_Some _ _ _ Hx) as Hi. split_and!.
    + apply interests_ok_insert; [done..|discriminate].
    + by rewrite length_insert.
    + by rewrite (interest_map_clear l i x), Hf.
  - split_and!; [done..|]. by rewrite delete_id.
Qed.

(** ** The calls against the reference *)

(** Instance [epfd] is open for the caller, with the well-formed table [l] in
    slot [slot]. *)
Record epoll_open (epfd : Z) (slot : nat) (l : list EpollInterest) (s : Os) : Prop := {
  eo_slot : epoll_slot epfd = Some slot;
  eo_inst : os_epoll s !! slot = Some (mkEpoll (os_pid s) l true);
  eo_ok : interests_ok l;
  eo_len : length l = MAX_EPOLL_INTERESTS
}.

Lemma own_epoll_open epfd slot l s : epoll_open epfd slot l s →
  own_epoll epfd s = Ret (Some (slot, mkEpoll (os_pid s) l true), s).
Proof.
  intros [Hs Hi _ _]. unfold own_epoll. rewrite Hs. unfold mbind, st_bind, st_get, st_index. rewrite Hi. simpl.
  by rewrite Z.eqb_refl.
Qed.

(** C38: [epoll_ctl] on an open instance is the update of a finite map: with
    operation 1 or 3 the descriptor is bound to the events and the data read from
    the caller's memory, if it is bound already or fewer than 32 descriptors are,
    and ENOMEM is returned otherwise; with operation 2 it is removed.  The
    instance stays open and nothing else changes. *)
Theorem epoll_ctl_refines_map epfd op fd event_ptr slot l s :
  epoll_open epfd slot l s → op = 1 ∨ op = 2 ∨ op = 3 → validate_user_buf event_ptr 12 = true →
  let events := le_decode (mem_read (os_mem s) event_ptr 4) in
  let data_ := le_decode (mem_read (os_mem s) (event_ptr + 4) 8) in
  ∃ r l', sys_epoll_ctl epfd op fd event_ptr s =
      Ret (r, set_epoll (<[slot := mkEpoll (os_pid s) l' true]> (os_epoll s)) s) ∧
    (r, interest_map l') = map_ctl op (to_i32 fd) events data_ (interest_map l) ∧
    epoll_open epfd slot l' (set_epoll (<[slot := mkEpoll (os_pid s) l' true]> (os_epoll s)) s).
Proof.
  intros Ho Hop Hv events data_. pose proof Ho as [Hs Hi Hok Hlen].
  assert (∀ l', interests_ok l' → length l' = MAX_EPOLL_INTERESTS →
    epoll_open epfd slot l' (set_epoll (<[slot := mkEpoll (os_pid s) l' true]> (os_epoll s)) s)) as Hkeep.
  { intros l' ??. split; [done| |done..]. apply list_lookup_insert_eq. by eapply lookup_lt_Some. }
  assert (set_epoll (<[slot := mkEpoll (os_pid s) l true]> (os_epoll s)) s = s) as Hsame.
  { rewrite list_insert_id by done. by destruct s. }
  assert (event_ptr ≠ 0) as Hp by (intros ->; discriminate Hv).
  unfold sys_epoll_ctl, mbind, st_bind. rewrite (own_epoll_open _ _ _ _ Ho).
  rewrite Hv, (proj2 (Z.eqb_neq event_ptr 0) Hp). destruct Hop as [->|[->| ->]]; cbn [Z.eqb orb negb Pos.eqb].
  2:{ pose proof (epoll_del_spec fd events data_ l Hok Hlen) as (H1 & H2 & H3). eexists 0, _.
      split; [reflexivity|]. split; [done|by apply Hkeep]. }
  all: change (map_ctl 3) with (map_ctl 1); pose proof (epoll_add_spec fd events data_ l Hok Hlen) as Hadd.
  all: rewrite !load_le_run; cbn [ep_interests]; fold events data_.
  all: destruct (epoll_add fd events data_ l) as [l'|].
  1,3: destruct Hadd as (H1 & H2 & H3); eexists 0, l'; split; [reflexivity|]; split; [done|by apply Hkeep].
  all: exists (-12), l; rewrite Hsame; done.
Qed.

(** ** Waiting *)

(** The entries before the first free one. *)
Fixpoint used_prefix (l : list EpollInterest) : list EpollInterest :=
  match l with
  | [] => []
  | i :: l' => if ei_in_use i then i :: used_prefix l' else []
  end.

(** No entry is free before one in use. *)
Fixpoint dense (l : list EpollInterest) : Prop :=
  match l with
  | [] => True
  | i :: l' => if ei_in_use i then dense l' else Forall (λ j, ei_in_use j = false) l'
  end.

Definition ready (i : EpollInterest) : Prop := probe_fd_events (ei_events i) ≠ 0.
#[local] Instance ready_dec i : Decision (ready i) := ltac:(unfold ready; apply _).

Lemma length_event_bytes i : length (event_bytes i) = 12%nat.
Proof. unfold event_bytes. by rewrite length_app, !length_le_encode. Qed.

Lemma put_mem_mem m s : os_mem (put_mem m s) = m.
Proof. done. Qed.

(** The result, and the memory: the events from [base + 12 * nready] on, and no
    other byte changed. *)
Record reported (base nready : Z) (evs : list EpollInterest) (s s' : Os) : Prop := {
  rp_bytes : mem_read (os_mem s') (base + nready * 12) (12 * Z.of_nat (length evs)) = mjoin (event_bytes <$> evs);
  rp_frame : ∀ x, ¬ (base + nready * 12 ≤ x < base + (nready + Z.of_nat (length evs)) * 12) → os_mem s' x = os_mem s x;
  rp_rest : s' = put_mem (os_mem s') s
}.

Lemma reported_nil base n s : reported base n [] s s.
Proof. split; [by rewrite Z.mul_0_r|done|]. by destruct s as [[? [? ? ? ? ? ? ? ? ? []] ?] ? ? ? ? ?]. Qed.

Lemma epoll_wait_loop_spec l base maxevents n s : 0 ≤ n →
  let evs := take (Z.to_nat (maxevents - n)) (filter ready (used_prefix l)) in
  ∃ s', epoll_wait_loop l base maxevents n s = Ret (n + Z.of_nat (length evs), s') ∧ reported base n evs s s'.
Proof.
  revert n s. induction l as [|i l IH]; intros n s Hn evs; cbn [epoll_wait_loop].
  { exists s. unfold evs. cbn [used_prefix]. rewrite filter_nil, take_nil. split; [by rewrite Z.add_0_r|apply reported_nil]. }
  unfold evs. cbn [used_prefix]. destruct (ei_in_use i); cbn [negb orb].
  2:{ exists s. rewrite filter_nil, take_nil. split; [by rewrite Z.add_0_r|apply reported_nil]. }
  destruct (Z.leb_spec maxevents n).
  { exists s. replace (Z.to_nat (maxevents - n)) with 0%nat by lia. split; [by rewrite Z.add_0_r|apply reported_nil]. }
  rewrite filter_cons. destruct (Z.eqb_spec (probe_fd_events (ei_events i)) 0) as [He|He]; cbn [negb].
  { rewrite decide_False by (unfold ready; naive_solver). by apply IH. }
  rewrite decide_True by done. replace (Z.to_nat (maxevents - n)) with (S (Z.to_nat (maxevents - (n + 1)))) by lia.
  cbn [firstn]. set (s1 := put_mem (mem_write (base + n * 12) (event_bytes i) (os_mem s)) s).
  destruct (IH (n + 1) s1 ltac:(lia)) as (s' & Hrun & [Hb Hf Hr]). set (evs' := take (Z.to_nat (maxevents - (n + 1))) (filter ready (used_prefix l))) in *.
  exists s'. split; [unfold mbind, st_bind, store, write_mem, st_modify; fold s1; rewrite Hrun; do 2 f_equal; simpl; lia|].
  split.
  - cbn [length fmap list_fmap mjoin list_join]. replace (12 * Z.of_nat (S (length evs'))) with (12 + 12 * Z.of_nat (length evs')) by lia.
    rewrite mem_read_app by lia. f_equal.
    + rewrite (mem_read_ext _ (os_mem s1)) by (intros; apply Hf; lia). unfold s1. rewrite put_mem_mem.
      replace 12 with (Z.of_nat (length (event_bytes i))) at 2 by (by rewrite length_event_bytes). apply mem_read_write.
    + transitivity (mjoin (event_bytes <$> evs')); [|done]. rewrite <- Hb. f_equal. lia.
  - intros x Hx. rewrite Hf by (simpl in Hx; lia). unfold s1. rewrite put_mem_mem.
    apply mem_write_out. rewrite length_event_bytes. simpl in Hx. lia.
  - by rewrite Hr.
Qed.

Lemma used_prefix_dense l : dense l → used_prefix l = filter (λ i, ei_in_use i = true) l.
Proof.
  induction l as [|i l IH]; [done|]. simpl. rewrite filter_cons. destruct (ei_in_use i) eqn:Hu; intros H.
  - rewrite decide_True by done. by rewrite IH.
  - rewrite decide_False by done. clear IH. induction H as [|j l Hj H IH]; [done|].
    rewrite filter_cons, decide_False by congruence. exact IH.
Qed.

(** [epoll_wait] on an open instance without gaps in its table writes one
    event for each registered descriptor whose requested events are available, in
    the order of the table and at most [maxevents], returns their number and
    changes no other byte of memory and nothing else of the system. *)
Theorem epoll_wait_reports epfd slot l events_ptr maxevents s :
  epoll_open epfd slot l s → dense l → 0 < maxevents → maxevents * 12 < 2^64 →
  validate_user_buf events_ptr (maxevents * 12) = true →
  let evs := take (Z.to_nat maxevents) (filter ready (filter (λ i, ei_in_use i = true) l)) in
  ∃ s', sys_epoll_wait epfd events_ptr maxevents s = Ret (Z.of_nat (length evs), s') ∧
    mem_read (os_mem s') events_ptr (12 * Z.of_nat (length evs)) = mjoin (event_bytes <$> evs) ∧
    (∀ x, ¬ (events_ptr ≤ x < events_ptr + 12 * Z.of_nat (length evs)) → os_mem s' x = os_mem s x) ∧
    s' = put_mem (os_mem s') s.
Proof.
  intros Ho Hd Hm Hmax Hv evs. unfold sys_epoll_wait. rewrite (proj2 (Z.eqb_neq _ _)) by lia.
  unfold wmul. rewrite u64_small by lia. rewrite Hv. cbn [negb]. unfold mbind, st_bind.
  rewrite (own_epoll_open _ _ _ _ Ho). cbn [ep_interests].
  destruct (epoll_wait_loop_spec l events_ptr maxevents 0 s ltac:(lia)) as (s' & Hrun & [Hb Hf Hr]).
  rewrite used_prefix_dense, Z.sub_0_r, Z.mul_0_l, Z.add_0_r, Z.add_0_l in * by done. fold evs in Hrun, Hb, Hf.
  exists s'. split_and!; [done..| |done]. intros x Hx. apply Hf. lia.
Qed.

(** ** An instance with two interests *)

Definition demo_interests : list EpollInterest :=
  mkInterest 5 1 50 true :: mkInterest 6 4 60 true :: replicate 30 EpollInterest_empty.

(** The kernel of task 7 with an epoll instance that has descriptors 5 (for
    reading) and 6 (for writing), and an event at 0x1000. *)
Definition epoll_demo : Os :=
  mkOs (mkKernel 0 (Vfs_init (mkSys (mem_write 0x1000 (le_encode 4 5 ++ le_encode 8 80) (λ _, 0)) 0 0 0 0 0 0 0 (λ _, 0)))
          (mkSched (mkRQ [] 0 0) 8 0 false [] 0 7 None (mkKmem Buddy.Buddy_init 0 (λ _, 0) 0)))
    (Net.NetServer_init (λ _, 0)) (Tty.TtyServer_init (λ _, 0))
    (mkEpoll 7 demo_interests true :: replicate 15 EpollInstance_empty) [] [].

Lemma epoll_demo_open : epoll_open 0x400 0 demo_interests epoll_demo.
Proof.
  assert (∀ i x, replicate 30 EpollInterest_empty !! i = Some x → ei_in_use x = true → False) as Hfree.
  { intros i x Hi. apply lookup_replicate in Hi as [-> _]. discriminate. }
  split; [reflexivity|reflexivity| |reflexivity]. intros [|[|i]] [|[|j]] x y Hi Hj Hx Hy Hf; try done;
    try (exfalso; by eapply (Hfree i x)); try (exfalso; by eapply (Hfree j y)).
  all: injection Hi as <-; injection Hj as <-; discriminate Hf.
Qed.

Lemma demo_interests_dense : dense demo_interests.
Proof. simpl. repeat constructor. Qed.

Lemma epoll_ctl_refines_map_witness :
  ∃ r l', sys_epoll_ctl 0x400 1 8 0x1000 epoll_demo =
      Ret (r, set_epoll (<[0%nat := mkEpoll 7 l' true]> (os_epoll epoll_demo)) epoll_demo) ∧
    (r, interest_map l') = map_ctl 1 (to_i32 8) (le_decode (mem_read (os_mem epoll_demo) 0x1000 4))
      (le_decode (mem_read (os_mem epoll_demo) (0x1000 + 4) 8)) (interest_map demo_interests) ∧
    epoll_open 0x400 0 l' (set_epoll (<[0%nat := mkEpoll 7 l' true]> (os_epoll epoll_demo)) epoll_demo).
Proof.
  apply (epoll_ctl_refines_map 0x400 1 8 0x1000 0 demo_interests epoll_demo); [apply epoll_demo_open|by left|reflexivity].
Defined.

Lemma epoll_wait_reports_witness :
  let evs := take (Z.to_nat 8) (filter ready (filter (λ i, ei_in_use i = true) demo_interests)) in
  ∃ s', sys_epoll_wait 0x400 0x2000 8 epoll_demo = Ret (Z.of_nat (length evs), s') ∧
    mem_read (os_mem s') 0x2000 (12 * Z.of_nat (length evs)) = mjoin (event_bytes <$> evs) ∧
    (∀ x, ¬ (0x2000 ≤ x < 0x2000 + 12 * Z.of_nat (length evs)) → os_mem s' x = os_mem epoll_demo x) ∧
    s' = put_mem (os_mem s') epoll_demo.
Proof.
  apply (epoll_wait_reports 0x400 0 demo_interests 0x2000 8 epoll_demo); [apply epoll_demo_open|apply demo_interests_dense|lia|lia|reflexivity].
Defined.

(** After the removal of the first interest the second is not reported any
    more: the scan stops at the free entry. *)
Lemma epoll_wait_misses_after_delete :
  match sys_epoll_ctl 0x400 2 5 0 epoll_demo with
  | Ret (r, s) => r = 0 ∧ fst <$> (match sys_epoll_wait 0x400 0x2000 8 s with Ret x => Some x | Panic => None end) = Some 0 ∧
      (match os_epoll s with e :: _ => interest_map (ep_interests e) !! 6 | [] => None end) = Some (4, 60)
  | Panic => False
  end.
Proof. vm_compute. done. Qed.
