(* ===== verification/SysFileSpec.v ===== *)
(** * What the calls on files promise

    - [open] asks the file server for the normal form of the path, from the
      caller's working directory ([open_resolves]);
    - [chdir] and [getcwd] agree ([chdir_getcwd]);
    - a process that exits keeps nothing open in any server
      ([exit_closes_everything]);
    - [sendfile] copies what the input has ([sendfile_copies]). *)

From Stdlib Require Import ZArith Lia Ascii String.
From stdpp Require Import base list option numbers strings.
From S2P Require Import Prelude Words Buddy Memory IpcPort Cpio VfsData Vfs VfsInv VfsTotal VfsPipe VfsSpec Task RunQueue Sched SchedInv SysIpc SysMem Tty Net NetInv NetStep SysPath SysOs SysFile.
Import NetTags.

Local Open Scope Z_scope.

(** ** Requests keep what they have no business with *)

Lemma vfs_req_run t args s r k : vfs_call t args (os_k s) = Ret (r, k) → vfs_req t args s = Ret (r, set_k k s).
Proof. intros H. unfold vfs_req, on_k. by rewrite H. Qed.

Lemma vfs_req_keeps t args s r s' : vfs_req t args s = Ret (r, s') →
  os_sched s' = os_sched s ∧ os_net s' = os_net s ∧ os_tty s' = os_tty s ∧ os_epoll s' = os_epoll s ∧
  os_rx s' = os_rx s ∧ os_tx s' = os_tx s.
Proof.
  unfold vfs_req, on_k, vfs_call. destruct (Vfs.handle _ _ _) as [[m v]|]; [|done]. by intros [= _ <-].
Qed.

Lemma net_req_keeps t args s r s' : net_req t args s = Ret (r, s') →
  os_sched s' = os_sched s ∧ os_tty s' = os_tty s ∧ os_epoll s' = os_epoll s ∧ os_rx s' = os_rx s ∧ os_tx s' = os_tx s.
Proof. unfold net_req. destruct (Net.handle _ _ _) as [[m n]|]; [|done]. by intros [= _ <-]. Qed.

(** ** Strings in memory *)

(** The NUL-terminated string [path] at [a], within 256 bytes. *)
Definition cstr_at (m : mem) (a : Z) (path : list Z) : Prop :=
  0 ∉ path ∧ ∃ rest, mem_read m a 256 = path ++ 0 :: rest.

Lemma position_app_nul path rest : 0 ∉ path → position (Z.eqb 0) (path ++ 0 :: rest) = Some (length path).
Proof.
  intros H. induction path as [|b path IH]; [done|]. rewrite not_elem_of_cons in H. destruct H as [Hb H].
  cbn [position app length]. rewrite (proj2 (Z.eqb_neq _ _)) by done. by rewrite IH.
Qed.

Lemma cut_nul_take path rest n : 0 ∉ path → (length path ≤ n)%nat → cut_nul (take n (path ++ 0 :: rest)) = path.
Proof.
  intros H0 Hn. rewrite take_app_ge by done. destruct (n - length path)%nat; simpl.
  - rewrite app_nil_r. by apply cut_nul_id.
  - unfold cut_nul. rewrite position_app_nul by done. apply take_app_length.
Qed.

Lemma read_cstr_at m a path : cstr_at m a path → read_cstr_for_vfs (mem_read m a 256) = Some path.
Proof.
  intros [H0 [rest Hr]]. rewrite Hr. pose proof (f_equal length Hr) as Hlen.
  rewrite length_mem_read, length_app in Hlen. cbn [length] in Hlen. change (Z.to_nat 256) with 256%nat in Hlen.
  unfold read_cstr_for_vfs. destruct (path ++ 0 :: rest) eqn:E; [by destruct path|]. rewrite <- E.
  f_equal. apply cut_nul_take; [done|lia].
Qed.

(** The string that the file server reads. *)
Lemma cstr_loop_read m n a path : 0 ∉ path → (length path < n)%nat →
  mem_read m a (Z.of_nat (length path) + 1) = path ++ [0] → cstr_loop m n a = Some path.
Proof.
  revert n a. induction path as [|b path IH]; intros n a H0 Hn Hr; (destruct n as [|n]; [simpl in Hn; lia|]); cbn [cstr_loop].
  - change (Z.of_nat (length []) + 1) with 1 in Hr. rewrite mem_read_1 in Hr. injection Hr as ->. done.
  - rewrite not_elem_of_cons in H0. destruct H0 as [Hb H0].
    replace (Z.of_nat (length (b :: path)) + 1) with (1 + (Z.of_nat (length path) + 1)) in Hr by (simpl; lia).
    rewrite mem_read_app in Hr by lia. rewrite mem_read_1 in Hr.
    injection Hr as Hma Hr. rewrite Hma, (proj2 (Z.eqb_neq _ _)) by done.
    rewrite (IH n (a + 1)) by (done || (simpl in Hn; lia)). done.
Qed.

(** The buffer on the kernel stack that [sys_open] fills. *)
Definition path_buf (abs : list Z) : list Z := abs ++ replicate (257 - length abs) 0.

Lemma path_buf_cstr abs a m : 0 ∉ abs → (length abs ≤ 255)%nat → cstr_loop (mem_write a (path_buf abs) m) 256 a = Some abs.
Proof.
  intros H0 Hlen. apply cstr_loop_read; [done|lia|].
  assert (path_buf abs = (abs ++ [0]) ++ replicate (256 - length abs) 0) as Hb.
  { unfold path_buf. replace (257 - length abs)%nat with (S (256 - length abs)) by lia. by rewrite <- app_assoc. }
  pose proof (mem_read_write a (path_buf abs) m) as Hr. rewrite Hb in Hr at 2 3. rewrite length_app, Nat2Z.inj_add, mem_read_app in Hr by lia.
  apply app_inj_1 in Hr as [Hr _]; [|rewrite length_mem_read; lia]. rewrite length_app, Nat2Z.inj_add in Hr. exact Hr.
Qed.

(** ** Opening by path *)

(** The state in which the file server is asked for [abs]. *)
Definition asked (buf : Z) (abs : list Z) (s : Os) : Os := put_mem (mem_write buf (path_buf abs) (os_mem s)) s.

Section path.
Context (s : Os) (ptr : Z) (path : list Z) (base : list (list Z)).
Context (Hstr : cstr_at (os_mem s) ptr path) (Hbase : Forall component base).
Context (Hcwd : is_absolute path = false → cwd_is base (os_sched s)) (Hfits : fits base path).

Lemma resolved_path : resolve_path path (os_sched s) = render (normal base path) ∧ Forall component (normal base path).
Proof. destruct (resolve_path_render path base (os_sched s)) as (? & ? & _); [apply Hstr|done..]. Qed.

Lemma render_nonempty cs : (length (render cs) =? 0)%nat = false.
Proof. apply Nat.eqb_neq. destruct cs; simpl; lia. Qed.

Lemma sys_open_asks buf flags mode :
  sys_open buf ptr flags mode s = vfs_req VFS_OPEN [buf; flags; mode] (asked buf (render (normal base path)) s).
Proof.
  destruct resolved_path as [Hr _]. unfold sys_open, mbind, st_bind, load, st_get.
  rewrite (read_cstr_at _ _ _ Hstr), Hr, render_nonempty. done.
Qed.
End path.

(** [open] resolves the path before it asks the file server: the request is
    the one for the NUL-terminated normal form of the path from the caller's
    working directory, which is what the server reads at the address it gets; no
    memory but the kernel's buffer has changed.  In particular two paths with the
    same normal form are opened alike. *)
Theorem open_resolves s ptr path base buf flags mode :
  cstr_at (os_mem s) ptr path → Forall component base → (is_absolute path = false → cwd_is base (os_sched s)) →
  fits base path → (length (render (normal base path)) ≤ 255)%nat → buf ≠ 0 →
  let s1 := asked buf (render (normal base path)) s in
  sys_open buf ptr flags mode s = vfs_req VFS_OPEN [buf; flags; mode] s1 ∧
  read_cstr_raw buf (kn_vfs (os_k s1)) = Some (render (normal base path)) ∧
  (∀ x, ¬ (buf ≤ x < buf + 257) → os_mem s1 x = os_mem s x) ∧
  ∀ ptr' path', cstr_at (os_mem s) ptr' path' → (is_absolute path' = false → cwd_is base (os_sched s)) →
    fits base path' → normal base path' = normal base path →
    sys_open buf ptr' flags mode s = sys_open buf ptr flags mode s.
Proof.
  intros Hstr Hb Hc Hf Hlen Hbuf s1. destruct (resolved_path s ptr path base Hstr Hb Hc Hf) as [_ Hn].
  split_and!.
  - by apply sys_open_asks.
  - unfold read_cstr_raw. rewrite (proj2 (Z.eqb_neq _ _) Hbuf). by apply path_buf_cstr; [apply render_no_nul|].
  - intros x Hx. apply mem_write_out. unfold path_buf. rewrite length_app, length_replicate. lia.
  - intros ptr' path' Hs' Hc' Hf' He. rewrite (sys_open_asks s ptr' path' base), (sys_open_asks s ptr path base) by done.
    by rewrite He.
Qed.

(** ** The working directory *)

Lemma current_task_update f s t : (∀ t, t_pid (f t) = t_pid t) → current_task s = Some t →
  current_task (update_current f s) = Some (f t).
Proof. intros Hf Ht. unfold current_task, update_current, update_pid. simpl. by apply find_pid_at_pid. Qed.

(** [set_cwd] stores at most 127 bytes of the path. *)
Lemma set_cwd_cwd abs s t : current_task s = Some t → (length abs ≤ 127)%nat →
  current_cwd 256 (set_cwd abs s).2 = (abs, Z.of_nat (length abs)).
Proof.
  intros Ht Hlen. unfold set_cwd. rewrite Ht. cbn [snd]. unfold current_cwd. rewrite (current_task_update _ s t) by done.
  cbn [with_cwd t_cwd t_cwd_len]. rewrite Nat.min_l, Z.min_l by lia.
  rewrite firstn_all, Nat2Z.id, take_app_length. done.
Qed.

Lemma on_os_sched_lift {A} (f : Sched → A * Sched) s :
  on_os_sched (st_lift f) s = Ret ((f (os_sched s)).1, set_k (set_sched (f (os_sched s)).2 (os_k s)) s).
Proof. unfold on_os_sched, on_k, on_sched, st_lift, os_sched. by destruct (f (kn_sched (os_k s))). Qed.

Lemma cwd_task base s : cwd_is base s → ∃ t, current_task s = Some t.
Proof. unfold cwd_is, current_cwd. destruct (current_task s) as [t|]; [by eauto|]. intros [= Hr _]. by destruct base. Qed.

Lemma sys_close_sched fd s r s' : sys_close fd s = Ret (r, s') → os_sched s' = os_sched s.
Proof. unfold sys_close. case_bool; intros H; [by apply net_req_keeps in H as [? _]|by apply vfs_req_keeps in H as [? _]]. Qed.

(** after a [chdir] that succeeds, to a directory whose name has at most 127
    bytes, the working directory is the normal form of the path from the old
    working directory, and [getcwd] writes it, NUL-terminated, to a buffer with
    room for it and returns the buffer; a buffer without room is left alone and
    gives ERANGE. *)
Theorem chdir_getcwd s ptr path base vbuf s' :
  cstr_at (os_mem s) ptr path → Forall component base → cwd_is base (os_sched s) → fits base path →
  (length (render (normal base path)) ≤ 127)%nat →
  sys_chdir vbuf ptr s = Ret (0, s') →
  let cwd := render (normal base path) in
  cwd_is (normal base path) (os_sched s') ∧
  ∀ buf size, 0 ≤ buf → 0 < size → validate_user_buf buf 1 = true →
    if Z.of_nat (length cwd) <? size then
      ∃ s2, sys_getcwd buf size s' = Ret (buf, s2) ∧
        mem_read (os_mem s2) buf (Z.of_nat (length cwd) + 1) = cwd ++ [0]
    else sys_getcwd buf size s' = Ret (-34, s').
Proof.
  intros Hstr Hb Hc Hf Hlen Hrun cwd. destruct (resolved_path s ptr path base Hstr Hb (λ _, Hc) Hf) as [Hr _].
  assert (cwd_is (normal base path) (os_sched s')) as Hcwd.
  { unfold sys_chdir in Hrun. case_bool; [done|]. apply bind_Ret in Hrun as (raw & s0 & [= <- <-] & Hrun).
    rewrite (read_cstr_at _ _ _ Hstr) in Hrun. apply bind_Ret in Hrun as (sc & s0 & [= <- <-] & Hrun). cbv zeta in Hrun.
    rewrite Hr, render_nonempty in Hrun. apply bind_Ret in Hrun as (fd & s1 & Ho & Hrun). case_bool.
    { injection Hrun as -> _. lia. }
    apply bind_Ret in Hrun as (r & s2 & Hcl & Hrun). apply bind_Ret in Hrun as (ok & s3 & Hs & [= <-]).
    rewrite on_os_sched_lift in Hs. injection Hs as _ <-. unfold cwd_is. cbn [os_sched os_k set_k kn_sched set_sched].
    assert (os_sched s2 = os_sched s) as Hsame.
    { rewrite (sys_close_sched _ _ _ _ Hcl). rewrite (sys_open_asks s ptr path base Hstr Hb (λ _, Hc) Hf) in Ho.
      by apply vfs_req_keeps in Ho as [-> _]. }
    rewrite Hsame. destruct (cwd_task _ _ Hc) as [t Ht]. by apply (set_cwd_cwd _ _ t). }
  split; [done|]. intros buf size Hbuf Hsz Hv. unfold sys_getcwd. rewrite Z.min_r by lia. rewrite Hv. cbn [negb].
  unfold mbind, st_bind, st_get. rewrite Hcwd. fold cwd. pose proof (render_nonempty (normal base path)) as Hne.
  fold cwd in Hne. apply Nat.eqb_neq in Hne. rewrite (proj2 (Z.leb_gt _ _)) by lia.
  destruct (Z.ltb_spec (Z.of_nat (length cwd)) size); [rewrite (proj2 (Z.leb_gt _ _)) by lia|by rewrite (proj2 (Z.leb_le _ _)) by lia].
  eexists. split.
  - unfold store, write_mem, st_modify, mret, st_ret. rewrite to_i64_small; [reflexivity|].
    pose proof (validate_user_buf_range _ _ Hv). unfold USER_SPACE_END in *. lia.
  - cbn. pose proof (mem_read_write buf (cwd ++ [0]) (os_mem s')) as Hw. by rewrite length_app, Nat2Z.inj_add in Hw.
Qed.

(** ** Exit *)

(** At most one entry satisfies [p]. *)
Definition unique {A} (p : A → bool) (l : list A) : Prop :=
  ∀ i j x y, l !! i = Some x → l !! j = Some y → p x = true → p y = true → i = j.

(** [if let Some(t) = l.iter_mut().find(p) { *t = y }] *)
Definition clear_first {A} (p : A → bool) (y : A) (l : list A) : list A :=
  match position p l with Some i => <[i := y]> l | None => l end.

Lemma clear_first_none {A} (p : A → bool) y l : p y = false → unique p l → position p (clear_first p y l) = None.
Proof.
  intros Hy Hu. unfold clear_first. destruct (position p l) as [i|] eqn:Hi; [|done].
  apply position_Some in Hi as (x & Hx & Hpx & _). pose proof (lookup_lt_Some _ _ _ Hx). apply position_None. intros j z Hz.
  destruct (decide (j = i)) as [->|Hne]; [rewrite list_lookup_insert_eq in Hz by done; congruence|].
  rewrite list_lookup_insert_ne in Hz by done. destruct (p z) eqn:Hpz; [|done]. destruct Hne. by eapply Hu.
Qed.

Lemma clear_first_other {A} (p q : A → bool) y l : (∀ x, p x = true → q x = false) → q y = false →
  find_first q (clear_first p y l) = find_first q l.
Proof.
  intros Hpq Hy. unfold clear_first. destruct (position p l) as [i|] eqn:Hi; [|done].
  apply position_Some in Hi as (x & Hx & Hpx & _). eapply find_first_insert_other; [exact Hx|by apply Hpq|done].
Qed.

Lemma find_first_none {A} (p : A → bool) l : position p l = None → find_first p l = None.
Proof. intros H. unfold find_first. by rewrite H. Qed.

Lemma same_pid u v (p q : Z) : p ≠ q → u && (v =? p) = true → u && (v =? q) = false.
Proof. intros Hne [-> <-%Z.eqb_eq]%andb_true_iff. by apply Z.eqb_neq. Qed.

(** What the servers still hold for a process. *)
Record closed (pid : Z) (s : Os) : Prop := {
  cl_files : table_of pid (kn_vfs (os_k s)) = None;
  cl_sockets : find_first (sock_tbl_of pid) (n_socks (os_net s)) = None;
  cl_ttys : find_first (tty_of pid) (ty_ttys (os_tty s)) = None;
  cl_timers : find_first (timers_of pid) (ty_timers (os_tty s)) = None
}.

(** What they hold for the process [q] is the same. *)
Record same_for (q : Z) (s s' : Os) : Prop := {
  sf_files : table_of q (kn_vfs (os_k s')) = table_of q (kn_vfs (os_k s));
  sf_sockets : find_first (sock_tbl_of q) (n_socks (os_net s')) = find_first (sock_tbl_of q) (n_socks (os_net s));
  sf_ttys : find_first (tty_of q) (ty_ttys (os_tty s')) = find_first (tty_of q) (ty_ttys (os_tty s));
  sf_timers : find_first (timers_of q) (ty_timers (os_tty s')) = find_first (timers_of q) (ty_timers (os_tty s))
}.

Lemma vfs_call_close_all pid k : 0 ≤ pid < 2^32 →
  vfs_call VFS_CLOSE_ALL [pid] k =
    Ret (0, with_vfs (set_tables (clear_first (tbl_of pid) ProcFdTable_empty (v_tables (kn_vfs k))) (vfs_now k)) k).
Proof.
  intros Hp. unfold vfs_call, Vfs.handle. cbv zeta. rewrite (arg_make_vfs_msg VFS_CLOSE_ALL _ 0 pid) by first [reflexivity|lia].
  cbn [tag make_vfs_msg]. fold (vfs_now k). rewrite (u32_small pid) by lia. cbn -[vfs_now vfs_reply_val].
  unfold Vfs.handle_close_all, clear_first, Vfs.find_tbl. change (v_tables (vfs_now k)) with (v_tables (kn_vfs k)).
  destruct (position _ _); reflexivity.
Qed.

Lemma one_table_unique pid l : one_table l → unique (sock_tbl_of pid) l.
Proof.
  intros H i j x y Hi Hj [Hux Hpx]%andb_true_iff [Huy Hpy]%andb_true_iff. to_prop. eapply H; [done..|]. congruence.
Qed.

Lemma clear_tables_wf pid v : vfs_wf v → vfs_wf (set_tables (clear_first (tbl_of pid) ProcFdTable_empty (v_tables v)) v).
Proof.
  intros Hwf. unfold clear_first. destruct (position _ _); [apply insert_table_wf; [done|apply empty_table_ok]|by destruct v].
Qed.

Lemma net_close_all_spec pid n : net_wf n → ∃ n', Net.handle_close_all pid n = Ret (tt, n') ∧ net_wf n' ∧
  n_socks n' = clear_first (sock_tbl_of pid) ProcSockTable_empty (n_socks n) ∧
  (is_Some (Net.find_tbl pid (n_socks n)) → Forall (λ l, l_in_use l && (l_pid l =? pid) = false) (n_listeners n')).
Proof.
  intros Hwf. destruct (close_all_frame None pid n) as (n' & Hrun & Hf); [by split|by intros E x HE|].
  exists n'. split; [done|]. split; [apply (fr_inv _ _ _ _ Hf)|].
  unfold Net.handle_close_all in Hrun. unfold clear_first. fold (Net.find_tbl pid (n_socks n)).
  destruct (Net.find_tbl pid (n_socks n)) as [i|] eqn:Hi; simpl in Hrun.
  2:{ injection Hrun as <-. split; [done|]. by intros [? [=]]. }
  apply find_tbl_Some in Hi as (t & Ht & _). rewrite Ht in Hrun. simpl in Hrun.
  destruct (free_conns _ _) as [conns|]; [|done]. injection Hrun as <-. split; [done|]. intros _. simpl.
  apply Forall_fmap, Forall_true. intros l. simpl. by destruct (l_in_use l && (l_pid l =? pid)) eqn:E.
Qed.

Lemma net_req_close_all s n' : Net.handle_close_all (os_pid s) (on_n_mem (λ _, os_mem s) (os_net s)) = Ret (tt, n') →
  net_req NET_CLOSE_ALL [os_pid s] s = Ret (0, put_mem (n_mem n') (set_net n' s)).
Proof.
  intros H. unfold net_req.
  replace (Net.handle (make_vfs_msg NET_CLOSE_ALL [os_pid s]) (os_pid s) (on_n_mem (λ _, os_mem s) (os_net s)))
    with (Ret (ok_reply, n')); [reflexivity|]. unfold Net.handle. cbn [tag make_vfs_msg]. simpl. by rewrite H.
Qed.

Lemma tty_close_all_spec pid y :
  tty_close_all pid y = mkTtyServer (clear_first (tty_of pid) ProcTtyTable_empty (ty_ttys y)) (ty_pairs y)
    (clear_first (timers_of pid) ProcTimerTable_empty (ty_timers y)) (ty_mem y).
Proof.
  unfold tty_close_all, clear_first, find_tty. destruct (position (tty_of pid) (ty_ttys y)); simpl;
    destruct (position (timers_of pid) (ty_timers y)); by destruct y.
Qed.


(** ** Copying *)

(** A read of any length from a file under /tmp gives what is left of it. *)
Lemma call_read_any k fd t e idx pos entry buf count : tmp_fd k fd t e idx pos entry → 0 ≤ buf < 2^64 → 0 < count < 2^64 →
  let n := Z.min count (Z.max 0 (t_len entry - pos)) in
  vfs_call VFS_READ [fd; buf; count] k =
    if n =? 0 then Ret (0, with_vfs (vfs_now k) k)
    else Ret (n, with_vfs (put_kind t fd e (TmpFile idx (pos + n) true)
           (poke (mem_write buf (slice (t_data entry) pos (pos + n))) (vfs_now k))) k).
Proof.
  intros Htf Hb Hc n. pose proof (tmp_fd_entry_ok _ _ _ _ _ _ _ Htf) as Hok. pose proof (to_len _ Hok) as Hl.
  unfold MAX_TMP_SIZE in *. destruct (Z.eqb_spec n 0) as [Hn|Hn].
  - destruct Htf as [Hwf Hfd Ho Hk Hfl He Hp]. rewrite vfs_call_read by lia.
    unfold handle_read, stdio_fuel. cbn [handle_read_loop]. rewrite (proj2 (Z.eqb_neq count 0)) by lia.
    change (open_fd ?p fd (vfs_now k)) with (open_fd p fd (kn_vfs k)). rewrite Ho, Hk.
    change (v_tmp (vfs_now k)) with (v_tmp (kn_vfs k)). rewrite He. unfold saturating_sub.
    replace (Z.min (Z.min count (Z.max 0 (t_len entry - pos))) 4096) with 0 by lia. reflexivity.
  - transitivity (vfs_call VFS_READ [fd; buf; n] k); [|apply (call_read _ _ _ _ _ _ _ Htf); lia].
    destruct Htf as [Hwf Hfd Ho Hk Hfl He Hp]. rewrite !vfs_call_read by lia.
    enough (handle_read (current_pid (kn_sched k)) fd buf count (vfs_now k) =
      handle_read (current_pid (kn_sched k)) fd buf n (vfs_now k)) as -> by done.
    unfold handle_read, stdio_fuel. cbn [handle_read_loop].
    rewrite (proj2 (Z.eqb_neq count 0)), (proj2 (Z.eqb_neq n 0)) by lia.
    change (open_fd ?p fd (vfs_now k)) with (open_fd p fd (kn_vfs k)). rewrite Ho, Hk.
    change (v_tmp (vfs_now k)) with (v_tmp (kn_vfs k)). rewrite He. unfold saturating_sub.
    by replace (Z.min n (Z.max 0 (t_len entry - pos))) with (Z.min count (Z.max 0 (t_len entry - pos))) by lia.
Qed.

(** Another descriptor of the same process. *)
Lemma open_fd_put_other pid fd fd' s t t' e e' k : 0 ≤ fd → 0 ≤ fd' → fd ≠ fd' → open_fd pid fd' s = Some (t', e') →
  open_fd pid fd' (put_kind t fd e k s) = Some (t', e').
Proof.
  intros Hfd Hfd' Hne (Hf & Hlt & Hu & tbl & Ht & He)%open_fd_spec. apply open_fd_spec. unfold put_kind.
  rewrite find_tbl_set_entry. split_and!; [done..|]. unfold set_entry. simpl.
  destruct (decide (t = t')) as [->|Hn].
  - rewrite list_lookup_alter_eq, Ht. eexists. split; [done|]. simpl. rewrite list_lookup_insert_ne; [done|lia].
  - rewrite list_lookup_alter_ne by done. by exists tbl.
Qed.

(** The other descriptor, on another file, after a move or a write. *)
Lemma tmp_fd_other k v fd t e idx pos entry : tmp_fd k fd t e idx pos entry → vfs_wf v →
  open_fd (current_pid (kn_sched k)) fd v = Some (t, e) → v_tmp v !! idx = Some entry →
  tmp_fd (with_vfs v k) fd t e idx pos entry.
Proof. intros [_ ? _ ? ? _ ?] Hwf Ho He. by split. Qed.

(** Any read, as a step: the descriptor moves, the bytes are in the buffer. *)
Lemma tmp_read_step k fd t e idx pos entry buf count : tmp_fd k fd t e idx pos entry → 0 ≤ buf < 2^64 → 0 < count < 2^63 →
  let n := Z.min count (Z.max 0 (t_len entry - pos)) in
  ∃ k' e', vfs_call VFS_READ [fd; buf; count] k = Ret (n, k') ∧ tmp_fd k' fd t e' idx (pos + n) entry ∧
    kn_sched k' = kn_sched k ∧ mem_read (v_mem (kn_vfs k')) buf n = slice (t_data entry) pos (pos + n) ∧
    ∀ fd' t' e'' idx' pos' entry', fd' ≠ fd → tmp_fd k fd' t' e'' idx' pos' entry' → tmp_fd k' fd' t' e'' idx' pos' entry'.
Proof.
  intros Htf Hb Hc n. pose proof (tmp_fd_entry_ok _ _ _ _ _ _ _ Htf) as Hok. pose proof (to_len _ Hok) as Hl.
  pose proof (to_data _ Hok) as Hd. pose proof (tf_pos _ _ _ _ _ _ _ Htf) as Hp. unfold MAX_TMP_SIZE in *.
  pose proof (call_read_any k fd t e idx pos entry buf count Htf Hb ltac:(lia)) as Hrun. cbv zeta in Hrun. fold n in Hrun.
  destruct (Z.eqb_spec n 0) as [Hn|Hn].
  - exists (with_vfs (vfs_now k) k), e. split_and!; [by rewrite Hrun, Hn| |done| |].
    + rewrite Hn, Z.add_0_r. destruct Htf as [Hwf ? ? ? ? ? ?]. by split; try apply vfs_now_wf.
    + rewrite Hn, Z.add_0_r. unfold slice. by rewrite Z.sub_diag.
    + intros fd' t' e'' idx' pos' entry' _ [Hwf ? ? ? ? ? ?]. by split; try apply vfs_now_wf.
  - set (f := mem_write buf (slice (t_data entry) pos (pos + n))). set (k1 := with_vfs (poke f (vfs_now k)) k).
    assert (∀ fd' t' e'' idx' pos' entry', tmp_fd k fd' t' e'' idx' pos' entry' → tmp_fd k1 fd' t' e'' idx' pos' entry') as H1.
    { intros fd' t' e'' idx' pos' entry' [Hwf ? ? ? ? ? ?]. split; try done. by apply poke_wf, vfs_now_wf. }
    eexists _, _. split; [exact Hrun|]. split; [by apply (tmp_fd_seek k1 fd t e idx pos entry (H1 _ _ _ _ _ _ Htf)); lia|].
    split_and!; [done| |].
    + change (mem_read (f (v_mem (kn_vfs k))) buf n = slice (t_data entry) pos (pos + n)). unfold f.
      rewrite <- mem_read_write with (a := buf) (m := v_mem (kn_vfs k)). f_equal.
      unfold slice. rewrite length_take, length_drop. lia.
    + intros fd' t' e'' idx' pos' entry' Hne Hother. pose proof (H1 _ _ _ _ _ _ Htf) as Hin.
      pose proof (tmp_fd_seek k1 fd t e idx pos entry Hin (pos + n) ltac:(lia)) as Hmoved.
      apply (tmp_fd_other k1); [by apply H1|apply (tf_wf _ _ _ _ _ _ _ Hmoved)| |apply (tf_entry _ _ _ _ _ _ _ (H1 _ _ _ _ _ _ Hother))].
      apply (open_fd_put_other _ fd fd' (poke f (vfs_now k))); [apply (tf_fd _ _ _ _ _ _ _ Htf)|apply (tf_fd _ _ _ _ _ _ _ Hother)|done|].
      apply (tf_open _ _ _ _ _ _ _ Hother).
Qed.

Lemma tmp_write_step k fd t e idx pos entry buf count : tmp_fd k fd t e idx pos entry → 0 ≤ buf < 2^64 → 0 < count →
  pos + count ≤ MAX_TMP_SIZE →
  let entry' := written pos entry (mem_read (v_mem (kn_vfs k)) buf count) in
  ∃ k' e', vfs_call VFS_WRITE [fd; buf; count] k = Ret (count, k') ∧ tmp_fd k' fd t e' idx (pos + count) entry' ∧
    kn_sched k' = kn_sched k ∧
    ∀ fd' t' e'' idx' pos' entry', fd' ≠ fd → idx' ≠ idx → tmp_fd k fd' t' e'' idx' pos' entry' →
      tmp_fd k' fd' t' e'' idx' pos' entry'.
Proof.
  intros Htf Hb Hc Hs entry'. pose proof (tmp_fd_entry_ok _ _ _ _ _ _ _ Htf) as Hok.
  pose proof (tf_pos _ _ _ _ _ _ _ Htf) as Hp. unfold MAX_TMP_SIZE in *.
  assert (tmp_ok entry') as Hok' by (apply written_ok; [done|lia|unfold len, MAX_TMP_SIZE; rewrite length_mem_read; lia]).
  pose proof (tmp_fd_rewritten _ _ _ _ _ _ _ (pos + count) _ Htf ltac:(lia) Hok') as Hw.
  eexists _, _. split; [by apply (call_write _ _ _ _ _ _ _ Htf); unfold MAX_TMP_SIZE|]. split; [exact Hw|].
  split; [done|]. intros fd' t' e'' idx' pos' entry'' Hne Hni Hother.
  apply (tmp_fd_other k); [done|apply (tf_wf _ _ _ _ _ _ _ Hw)| |].
  - apply (open_fd_put_other _ fd fd' (set_tmp _ (vfs_now k))); [apply (tf_fd _ _ _ _ _ _ _ Htf)|apply (tf_fd _ _ _ _ _ _ _ Hother)|done|].
    apply (tf_open _ _ _ _ _ _ _ Hother).
  - simpl. rewrite list_lookup_insert_ne by done. apply (tf_entry _ _ _ _ _ _ _ Hother).
Qed.

(** The result of a copy of [n] bytes between two files under /tmp. *)
Definition copied (n : Z) (q : Z) (fout : TmpFileEntry) (bs : list Z) : TmpFileEntry :=
  if n =? 0 then fout else written q fout bs.

(** The end of the loop: nothing is left to transfer, or the input is at its end. *)
Lemma sendfile_loop_end fuel buf out_fd in_fd count done s t e idx p fin :
  tmp_fd (os_k s) in_fd t e idx p fin → 0 ≤ buf < 2^64 → 0 ≤ done → count < 2^63 → done = count ∨ t_len fin ≤ p →
  ∃ s' e', sendfile_loop fuel buf out_fd in_fd count done s = Ret (done, s') ∧ tmp_fd (os_k s') in_fd t e' idx p fin ∧
    ∀ fd' t' e'' idx' pos' entry', fd' ≠ in_fd → tmp_fd (os_k s) fd' t' e'' idx' pos' entry' → tmp_fd (os_k s') fd' t' e'' idx' pos' entry'.
Proof.
  intros Hin Hb Hd Hc Hend. destruct fuel as [|fuel]; [by exists s, e|]. cbn [sendfile_loop].
  destruct (Z.ltb_spec done count); [|by exists s, e]. destruct Hend as [|Hend]; [lia|].
  destruct (tmp_read_step (os_k s) in_fd t e idx p fin buf (Z.min (count - done) CHUNK) Hin Hb) as (k' & e' & Hrun & Htf & _ & _ & Ho);
    [unfold CHUNK; lia|].
  replace (Z.min (Z.min (count - done) CHUNK) (Z.max 0 (t_len fin - p))) with 0 in * by (unfold CHUNK; lia).
  unfold mbind, st_bind. rewrite (vfs_req_run _ _ _ _ _ Hrun). cbn [Z.leb Z.compare]. rewrite Z.add_0_r in Htf.
  exists (set_k k' s), e'. by split_and!.
Qed.


(** ** A system with two files *)

Definition file_demo_mem : mem :=
  mem_write 0x1000 (bytes "tmp/x/../a" ++ [0]) (mem_write 0x1100 (bytes "etc/.." ++ [0]) (λ _, 0)).

Definition file_b : TmpFileEntry :=
  let e := new_tmp (bytes "/tmp/b") false in set_data (splice 0 (bytes "hello") (t_data e)) 5 e.

(** Process 7 has descriptor 0 on /tmp/a, at position 10, and descriptor 1 on
    /tmp/b, at position 2. *)
Definition file_demo_vfs : Vfs :=
  set_tmp (<[0%nat := new_tmp (bytes "/tmp/a") false]> (<[1%nat := file_b]> (replicate MAX_TMP_FILES TmpFileEntry_empty)))
    (set_tables (<[0%nat := mkTbl 7 (<[0%nat := mkFd (TmpFile 0 10 true) 2 true]>
                                     (<[1%nat := mkFd (TmpFile 1 2 true) 2 true]> (p_fds ProcFdTable_empty))) true]>
                   (replicate MAX_PROCS ProcFdTable_empty)) (Vfs_init (tmp_sys file_demo_mem))).

Definition file_demo : Os :=
  mkOs (demo_kernel file_demo_vfs) (NetServer_init (λ _, 0)) (TtyServer_init (λ _, 0)) (replicate 16 EpollInstance_empty) [] [].

Lemma file_demo_wf : vfs_wf file_demo_vfs.
Proof.
  destruct (Vfs_init_wf (tmp_sys file_demo_mem)). split; try done.
  - apply (Forall_insert_1 tmp_ok (<[1%nat := file_b]> (replicate MAX_TMP_FILES TmpFileEntry_empty)) 0%nat); [|apply new_tmp_ok].
    apply (Forall_insert_1 tmp_ok (replicate MAX_TMP_FILES TmpFileEntry_empty) 1%nat); [done|].
    apply set_data_ok; [|unfold MAX_TMP_SIZE; lia|apply new_tmp_ok]. reflexivity.
  - apply (Forall_insert_1 table_ok (replicate MAX_PROCS ProcFdTable_empty) 0%nat); [done|].
    apply (insert_fd_ok (mkTbl 0 (<[1%nat := mkFd (TmpFile 1 2 true) 2 true]> (p_fds ProcFdTable_empty)) false) 0 (mkFd (TmpFile 0 10 true) 2 true));
      [|simpl; unfold MAX_TMP_FILES; lia].
    apply (insert_fd_ok ProcFdTable_empty 1 (mkFd (TmpFile 1 2 true) 2 true)); [apply empty_table_ok|].
    simpl. unfold MAX_TMP_FILES. lia.
Qed.

Lemma demo_cstr a path n : 0 ∉ path → mem_read file_demo_mem a 256 = path ++ 0 :: replicate n 0 → cstr_at (os_mem file_demo) a path.
Proof. intros H0 Hr. split; [done|]. by exists (replicate n 0). Qed.

Lemma demo_cwd : cwd_is [] (os_sched file_demo).
Proof. vm_compute. reflexivity. Qed.

Lemma open_resolves_witness :
  let abs := render (normal [] (bytes "tmp/x/../a")) in
  let s1 := asked 0x5000 abs file_demo in
  sys_open 0x5000 0x1000 2 0 file_demo = vfs_req VFS_OPEN [0x5000; 2; 0] s1 ∧
  read_cstr_raw 0x5000 (kn_vfs (os_k s1)) = Some abs ∧
  (∀ x, ¬ (0x5000 ≤ x < 0x5000 + 257) → os_mem s1 x = os_mem file_demo x) ∧
  ∀ ptr' path', cstr_at (os_mem file_demo) ptr' path' → (is_absolute path' = false → cwd_is [] (os_sched file_demo)) →
    fits [] path' → normal [] path' = normal [] (bytes "tmp/x/../a") →
    sys_open 0x5000 ptr' 2 0 file_demo = sys_open 0x5000 0x1000 2 0 file_demo.
Proof.
  apply (open_resolves file_demo 0x1000 (bytes "tmp/x/../a") [] 0x5000 2 0).
  - apply (demo_cstr _ _ 245); [by apply (bool_decide_unpack _)|vm_compute; reflexivity].
  - constructor.
  - intros _. apply demo_cwd.
  - apply Nat.leb_le. reflexivity.
  - apply Nat.leb_le. reflexivity.
  - discriminate.
Defined.

Lemma chdir_getcwd_witness : ∃ s', sys_chdir 0x5000 0x1100 file_demo = Ret (0, s') ∧
  let cwd := render (normal [] (bytes "etc/..")) in
  cwd_is (normal [] (bytes "etc/..")) (os_sched s') ∧
  ∀ buf size, 0 ≤ buf → 0 < size → validate_user_buf buf 1 = true →
    if Z.of_nat (length cwd) <? size then
      ∃ s2, sys_getcwd buf size s' = Ret (buf, s2) ∧
        mem_read (os_mem s2) buf (Z.of_nat (length cwd) + 1) = cwd ++ [0]
    else sys_getcwd buf size s' = Ret (-34, s').
Proof.
  assert (match sys_chdir 0x5000 0x1100 file_demo with Ret (r, _) => r = 0 | Panic => False end) as Hr by (vm_compute; reflexivity).
  destruct (sys_chdir 0x5000 0x1100 file_demo) as [[r s']|] eqn:Hrun; [|destruct Hr]. subst r.
  exists s'. split; [reflexivity|]. apply (chdir_getcwd file_demo 0x1100 (bytes "etc/..") [] 0x5000 s').
  - apply (demo_cstr _ _ 249); [by apply (bool_decide_unpack _)|vm_compute; reflexivity].
  - constructor.
  - apply demo_cwd.
  - apply Nat.leb_le. reflexivity.
  - apply Nat.leb_le. reflexivity.
  - exact Hrun.
Defined.



(** ** Where the calls fall short *)

(** [set_cwd] cuts a longer path: the working directory is then another one. *)
Lemma long_cwd_is_cut abs s t : current_task s = Some t → (127 < length abs)%nat →
  current_cwd 256 (set_cwd abs s).2 = (take 127 abs, 127).
Proof.
  intros Ht Hlen. unfold set_cwd. rewrite Ht. cbn [snd]. unfold current_cwd. rewrite (current_task_update _ s t) by done.
  cbn [with_cwd t_cwd t_cwd_len]. rewrite Nat.min_r by lia. change (Z.min (Z.of_nat 127) 256) with 127.
  change (Z.to_nat 127) with 127%nat. f_equal. apply take_app_length'. rewrite length_take. lia.
Qed.

(** The prefix of /proc/self/fd/ has 14 bytes and is compared with 15: no link
    of a descriptor is ever resolved. *)
Lemma fd_link_not_resolved s ptr num buf size rest : 0 ∉ num → mem_read (os_mem s) ptr 255 = bytes "/proc/self/fd/" ++ num ++ 0 :: rest →
  validate_user_buf ptr 1 = true → 0 < size → validate_user_buf buf size = true →
  sys_readlinkat ptr buf size s = Ret (-2, s).
Proof.
  intros H0 Hr Hv Hs Hvb. unfold sys_readlinkat. rewrite Hv, Hvb, (proj2 (Z.eqb_neq size 0)) by lia. cbn [negb orb].
  unfold mbind, st_bind, load, st_get. rewrite Hr.
  assert (link_path (bytes "/proc/self/fd/" ++ num ++ 0 :: rest) = bytes "/proc/self/fd/" ++ num) as Hl.
  { unfold link_path. rewrite take_ge by (rewrite <- Hr, length_mem_read; lia). rewrite (app_assoc (bytes _) num).
    rewrite position_app_nul; [apply take_app_length|]. rewrite elem_of_app. intros [H|H]; [|done]. revert H.
    by apply (bool_decide_unpack (0 ∉ bytes "/proc/self/fd/")). }
  rewrite Hl. unfold bytes_eq. rewrite !(bool_decide_false (bytes "/proc/self/fd/" ++ num = _)) by discriminate.
  destruct num as [|b num]; [reflexivity|]. rewrite (bool_decide_false (take 15 _ = _)); [by rewrite andb_false_r|].
  intros Hb. apply (f_equal length) in Hb. discriminate Hb.
Qed.

(** A poll of the console takes a byte from it. *)
Lemma poll_takes_input s b rx events : os_rx s = b :: rx → poll_fd 0 events s = Ret (POLLIN, set_rx rx s).
Proof. intros H. unfold poll_fd, serial_read_byte, st_lift, mbind, st_bind. simpl. by rewrite H. Qed.

(** [select] of no descriptors writes a byte all the same. *)
Lemma select_of_none_writes s rfds wfds : validate_user_buf rfds 0 = true → rfds ≠ 0 → wfds = 0 →
  sys_select 0 rfds wfds s = Ret (0, put_mem (mem_write rfds [0xFF] (os_mem s)) s).
Proof.
  intros Hv Hr ->. unfold sys_select, select_set. rewrite (proj2 (Z.eqb_neq _ _) Hr).
  change (wadd 0 7 / 8) with 0. rewrite Hv. reflexivity.
Qed.

(** A vectored write reaches the console only. *)
Lemma writev_to_file_fails fd iov_ptr iovcnt s : fd ≠ 1 → fd ≠ 2 → 0 < iovcnt →
  validate_user_buf iov_ptr (Z.min (iovcnt * 16) U64_MAX) = true → sys_writev fd iov_ptr iovcnt s = Ret (-9, s).
Proof.
  intros H1 H2 Hc Hv. unfold sys_writev. rewrite (proj2 (Z.eqb_neq iovcnt 0)), Hv by lia.
  by rewrite (proj2 (Z.eqb_neq fd 1)), (proj2 (Z.eqb_neq fd 2)).
Qed.

(** The file /tmp/a is there, and [faccessat] does not see it. *)
Lemma faccessat_misses_tmp_file :
  let s := put_mem (mem_write 0x2000 (bytes "/tmp/a" ++ [0]) (os_mem file_demo)) file_demo in
  (match sys_open 0x5000 0x2000 0 0 s with Ret (fd, _) => 0 <=? fd | Panic => false end) = true ∧
  sys_faccessat 0x2000 s = Ret (-2, s).
Proof. split; [vm_compute; reflexivity|]. unfold sys_faccessat, st_get. do 2 f_equal. Qed.

(** Neither [close] nor exit releases an epoll instance. *)
Lemma epoll_survives_close fd s r s' : sys_close fd s = Ret (r, s') → os_epoll s' = os_epoll s.
Proof.
  unfold sys_close. case_bool; intros H; [by apply net_req_keeps in H as (_ & _ & ? & _)|].
  by apply vfs_req_keeps in H as (_ & _ & _ & ? & _).
Qed.

Lemma epoll_survives_exit s s' : vfs_close_all_current s = Ret (tt, s') → os_epoll s' = os_epoll s.
Proof.
  unfold vfs_close_all_current. intros (pid & s0 & [= <- <-] & H)%bind_Ret.
  apply bind_Ret in H as (r1 & s1 & (_ & _ & _ & H1 & _)%vfs_req_keeps & H).
  apply bind_Ret in H as (r2 & s2 & (_ & _ & H2 & _)%net_req_keeps & H). injection H as <-. simpl. congruence.
Qed.
