(* ===== verification/Execve.v ===== *)
(** * execve (src/kernel/src/syscall.rs, src/kernel/src/init.rs)

    The lookup of the program in the RAM file system and in the RAM disk, the
    collection of the argument and environment strings, and the initial stack of
    the new image, over the state of [SysOs], [Elf] and [Vmm]. *)

From Stdlib Require Import ZArith Lia Ascii String.
From stdpp Require Import base list option numbers strings.
From S2P Require Import Prelude Words Buddy Memory Paging Vmm IpcPort Cpio VfsData Vfs VfsPipe Elf Task RunQueue Sched SysIpc SysMem Net SysPath SysOs DeviceTree.

Local Open Scope Z_scope.

(** ** The program in the RAM disk ([init.rs]) *)

(** [parse_cpio_hex]: [None] for a byte that is not a digit. *)
Fixpoint parse_hex_opt (s : list Z) (val : Z) : option Z :=
  match s with
  | [] => Some val
  | b :: s' => d ← hex_digit b; parse_hex_opt s' (u64 (Z.lor (Z.shiftl val 4) d))
  end.

(** [trim_start_matches(c)] for an ASCII character. *)
Fixpoint trim_start (c : Z) (s : list Z) : list Z :=
  match s with
  | [] => []
  | b :: s' => if b =? c then trim_start c s' else s
  end.

(** [name.trim_start_matches('.').trim_start_matches('/')] *)
Definition clean (name : list Z) : list Z := trim_start 47 (trim_start 46 name).

(** [&data[a..b]]: a slice out of bounds panics. *)
Definition checked_slice (data : list Z) (a b : Z) : outcome (list Z) :=
  if (a <=? b) && (b <=? len data) then Ret (slice data a b) else Panic.

(** The loop over the archive; every round moves on by at least a header. *)
Fixpoint extract_loop (fuel : nat) (data path : list Z) (offset : Z) : outcome (option (list Z)) :=
  match fuel with
  | O => Ret None
  | S fuel' =>
      if len data <? offset + HEADER_SIZE then Ret None
      else
        let header := slice data offset (offset + HEADER_SIZE) in
        if negb (bytes_eq (slice header 0 6) MAGIC) then Ret None
        else
          match parse_hex_opt (slice header 94 102) 0, parse_hex_opt (slice header 54 62) 0 with
          | Some namesize, Some filesize =>
              let name_offset := offset + HEADER_SIZE in
              if len data <? name_offset + namesize then Ret None
              else
                match checked_slice data name_offset (name_offset + namesize - 1) with
                | Panic => Panic
                | Ret name =>
                    if negb (utf8_valid name) then Ret None
                    else
                      let file_offset := align4 (name_offset + namesize) in
                      if bytes_eq name TRAILER then Ret None
                      else if bytes_eq (clean name) (clean path) then
                        match checked_slice data file_offset (file_offset + filesize) with
                        | Ret file => Ret (Some file)
                        | Panic => Panic
                        end
                      else extract_loop fuel' data path (align4 (file_offset + filesize))
                end
          | _, _ => Ret None
          end
  end.

Definition is_gzip (data : list Z) : bool := bytes_eq (take 2 data) [0x1f; 0x8b] && (2 <? len data).

(** [inflate] is [miniz_oxide::inflate::decompress_to_vec_zlib]; [initrd] the
    bytes of the RAM disk. *)
Definition extract_binary_from_initrd (inflate : list Z → option (list Z)) (path initrd : list Z) : outcome (option (list Z)) :=
  if len initrd =? 0 then Ret None
  else
    match (if is_gzip initrd then inflate initrd else Some initrd) with
    | None => Ret None
    | Some data =>
        if (6 <? len data) && bytes_eq (take 6 data) MAGIC then extract_loop (S (length data)) data path 0
        else if (4 <=? len data) && bytes_eq (take 4 data) ELF_MAGIC then Ret (Some data)
        else Ret None
    end.

(** ** The strings *)

Definition MAX_EXEC_ARGS : nat := 64.
Definition MAX_EXEC_STR : nat := 8192.

Lemma MAX_EXEC_STR_Z : Z.of_nat MAX_EXEC_STR = 8192.
Proof. reflexivity. Qed.

Record ExecStrBuf := mkExec {
  x_data : list Z;
  x_end : nat;
  x_offsets : list nat;
  x_lengths : list nat;
  x_count : nat
}.

Definition ExecStrBuf_new : ExecStrBuf :=
  mkExec (replicate MAX_EXEC_STR 0) 0 (replicate MAX_EXEC_ARGS 0%nat) (replicate MAX_EXEC_ARGS 0%nat) 0.

Definition exec_reset (b : ExecStrBuf) : ExecStrBuf := mkExec (x_data b) 0 (x_offsets b) (x_lengths b) 0.

(** The copy loop of [push_cstr]: whether it met the NUL, the data and the end. *)
Fixpoint push_loop (fuel : nat) (m : mem) (p : Z) (data : list Z) (end_ : nat) : bool * list Z * nat :=
  match fuel with
  | O => (false, data, end_)
  | S fuel' =>
      if (MAX_EXEC_STR - 1 <=? end_)%nat then (false, data, end_)
      else if m p =? 0 then (true, data, end_)
      else push_loop fuel' m (p + 1) (<[end_ := m p]> data) (S end_)
  end.

Definition push_cstr (m : mem) (ptr : Z) (b : ExecStrBuf) : bool * ExecStrBuf :=
  if (MAX_EXEC_ARGS <=? x_count b)%nat then (false, b)
  else if ptr =? 0 then (false, b)
  else
    let start := x_end b in
    let '(ok, data, end_) := push_loop MAX_EXEC_STR m ptr (x_data b) start in
    if ok : bool then
      (true, mkExec (<[end_ := 0]> data) (S end_) (<[x_count b := start]> (x_offsets b))
               (<[x_count b := (end_ - start)%nat]> (x_lengths b)) (S (x_count b)))
    else (false, mkExec data end_ (x_offsets b) (x_lengths b) (x_count b)).

(** A pointer of the caller's array. *)
Definition read_ptr (s : Os) (a : Z) : option Z :=
  match with_current_address_space (λ k as_, read_user_buf k as_ a 8) (os_sched s) with
  | Some (true, bs) => Some (le_decode bs)
  | _ => None
  end.

(** The loop over the array of pointers; the result of [push_cstr] is ignored. *)
Fixpoint collect_args (fuel : nat) (rd : Z → option Z) (m : mem) (ptr i : Z) (b : ExecStrBuf) : ExecStrBuf :=
  match fuel with
  | O => b
  | S fuel' =>
      let ptr_addr := wadd ptr (i * 8) in
      if negb (validate_user_buf ptr_addr 8) then b
      else
        match rd ptr_addr with
        | None => b
        | Some str_ptr =>
            if str_ptr =? 0 then b
            else collect_args fuel' rd m ptr (i + 1) (push_cstr m str_ptr b).2
        end
  end.

(** The buffers are reset first; what an earlier call left in them is not read. *)
Definition collect (s : Os) (ptr : Z) : ExecStrBuf :=
  let b := ExecStrBuf_new in
  if ptr =? 0 then b else collect_args MAX_EXEC_ARGS (read_ptr s) (os_mem s) ptr 0 b.

(** ** The initial stack *)

Definition USER_STACK_TOP : Z := 0x7ffffffff000.
Definition USER_STACK_SIZE : Z := 8 * PAGE_SIZE.
Definition AT_CYANOS_VFS_PORT : Z := 256.

(** Where the parts of the frame lie. *)
Record layout := mkLayout {
  total_ptr_bytes : Z;
  frame_size : Z;
  user_sp : Z;
  str_base_va : Z;
  rand_va : Z
}.

Definition stack_layout (argv envp : ExecStrBuf) : layout :=
  let ptr_words := 1 + Z.of_nat (x_count argv) + 1 + Z.of_nat (x_count envp) + 1 in
  let tpb := (ptr_words + 16) * 8 in
  let strs := Z.of_nat (x_end argv) + Z.of_nat (x_end envp) in
  let frame := tpb + Z.ldiff (strs + 16 + 15) 15 in
  let sp := Z.ldiff (USER_STACK_TOP - frame) 15 in
  mkLayout tpb frame sp (sp + tpb) (sp + tpb + strs).

(** The argv pointers: the strings follow each other. *)
Fixpoint argv_ptrs (base : Z) (lengths : list nat) : list Z :=
  match lengths with
  | [] => []
  | n :: ns => base :: argv_ptrs (base + Z.of_nat n + 1) ns
  end.

Definition envp_ptrs (base : Z) (offsets : list nat) : list Z := (λ o, base + Z.of_nat o) <$> offsets.

Definition auxv (l : layout) (vfs_port : Z) : list (Z * Z) :=
  [(25, rand_va l); (6, PAGE_SIZE); (11, 0); (12, 0); (13, 0); (14, 0); (AT_CYANOS_VFS_PORT, vfs_port); (0, 0)].

(** The words of the pointer table, from the stack pointer up. *)
Definition stack_words (argv envp : ExecStrBuf) (vfs_port : Z) : list Z :=
  let l := stack_layout argv envp in
  [Z.of_nat (x_count argv)] ++
  argv_ptrs (str_base_va l) (take (x_count argv) (x_lengths argv)) ++ [0] ++
  envp_ptrs (str_base_va l + Z.of_nat (x_end argv)) (take (x_count envp) (x_offsets envp)) ++ [0] ++
  mjoin ((λ p, [p.1; p.2]) <$> auxv l vfs_port).

(** [write64] for one word after the other. *)
Fixpoint write_words (a : Z) (ws : list Z) (m : mem) : mem :=
  match ws with
  | [] => m
  | w :: ws' => write_words (a + 8) ws' (write_u64 a w m)
  end.

Definition random_bytes (t : Z) : list Z :=
  le_encode 8 (Z.lxor t 0xdeadbeefcafebabe) ++ le_encode 8 (wadd (wmul t 6364136223846793005) 1442695040888963407).

(** The frame in memory; [base] is the address of [user_sp] in the kernel's view. *)
Definition write_stack (base : Z) (argv envp : ExecStrBuf) (vfs_port t : Z) (m : mem) : mem :=
  let tpb := total_ptr_bytes (stack_layout argv envp) in
  let m := write_words base (stack_words argv envp vfs_port) m in
  let m := mem_write (base + tpb) (take (x_end argv) (x_data argv)) m in
  let m := mem_write (base + tpb + Z.of_nat (x_end argv)) (take (x_end envp) (x_data envp)) m in
  mem_write (base + tpb + Z.of_nat (x_end argv) + Z.of_nat (x_end envp)) (random_bytes t) m.

(** ** The call *)

(** A computation on an address space that no task owns yet. *)
Definition with_as {A} (c : st (kmem * AddressSpace) A) (a : AddressSpace) : st Sched (A * AddressSpace) := λ s,
  match c (sc_kmem s, a) with
  | Ret (r, (k, a')) => Ret ((r, a'), set_kmem k s)
  | Panic => Panic
  end.

(** An error, or the jump to user space. *)
Inductive exec_result := ExecErr (e : Z) | ExecEnter (entry sp : Z).

Definition STACK_FLAGS : Z := Z.lor (Z.lor PageFlags.PRESENT PageFlags.USER) PageFlags.WRITABLE.

(** The new image: page table, program and stack. *)
Definition exec_image (elf : list Z) : st Sched (result (Z * AddressSpace) Z) :=
  pt_root ← with_kmem arch_alloc_page_table_root;
  if pt_root =? 0 then mret (Err (-12))
  else
    r ← with_as (Elf.load elf) (AddressSpace_new pt_root);
    match r with
    | (Err _, a) => with_kmem (drop_as a) ≫= λ _, mret (Err (-8))
    | (Ok entry, a) =>
        r ← with_as (Vmm.map (USER_STACK_TOP - USER_STACK_SIZE) USER_STACK_SIZE STACK_FLAGS) a;
        let '(ok, a) := r in
        if negb ok then with_kmem (drop_as a) ≫= λ _, mret (Err (-12))
        else mret (Ok (entry, a))
    end.

(** The frame on the new stack. *)
Definition exec_stack (argv envp : ExecStrBuf) (vfs_port : Z) (a : AddressSpace) : st Sched (result Z Z) :=
  let l := stack_layout argv envp in
  if USER_STACK_SIZE <? frame_size l then with_kmem (drop_as a) ≫= λ _, mret (Err (-22))
  else
    match as_virt_to_phys a (user_sp l) with
    | None => with_kmem (drop_as a) ≫= λ _, mret (Err (-12))
    | Some phys_base =>
        t ← st_get ticks;
        with_kmem (st_modify (λ k, on_mem (write_stack (phys_to_virt phys_base k) argv envp vfs_port t) k)) ≫= λ _,
        mret (Ok (user_sp l))
    end.

(** The path as a string: the resolved one if it is UTF-8, else the given one
    if that is, else the empty string. *)
Definition exec_path (raw : list Z) (s : Sched) : list Z :=
  let given := cut_nul raw in
  let abs := resolve_path given s in
  if utf8_valid abs then abs else str_or_empty given.

(** [initrd] is the RAM disk of the boot information, if there is one. *)
Definition exec_lookup (inflate : list Z → option (list Z)) (initrd : option (list Z)) (path : list Z) : outcome (option (list Z)) :=
  match get_file_data_by_path path with
  | Some (RamData i) => Ret (Some (ramfs_data i))
  | Some _ => Ret None
  | None => match initrd with Some d => extract_binary_from_initrd inflate path d | None => Ret None end
  end.

Definition sys_execve (inflate : list Z → option (list Z)) (initrd : option (list Z)) (vfs_port path_ptr argv_ptr envp_ptr : Z)
    : st Os exec_result :=
  if negb (validate_user_buf path_ptr 1) then mret (ExecErr (-14))
  else
    r ← st_get (λ s, with_current_address_space (λ k a, read_user_buf k a path_ptr 256) (os_sched s));
    match r with
    | Some (true, raw) =>
        sched ← st_get os_sched;
        elf ← st_of (λ s, match exec_lookup inflate initrd (exec_path raw sched) with Ret x => Ret (x, s) | Panic => Panic end);
        match elf with
        | None => mret (ExecErr (-2))
        | Some elf =>
            if len elf =? 0 then mret (ExecErr (-22))
            else
              argv ← st_get (λ s, collect s argv_ptr);
              envp ← st_get (λ s, collect s envp_ptr);
              img ← on_os_sched (exec_image elf);
              match img with
              | Err e => mret (ExecErr e)
              | Ok (entry, a) =>
                  sp ← on_os_sched (exec_stack argv envp vfs_port a);
                  match sp with
                  | Err e => mret (ExecErr e)
                  | Ok sp =>
                      pid ← st_get os_pid;
                      vfs_req VFS_EXEC_CLOEXEC [pid] ≫= λ _,
                      on_os_sched (replace_address_space a (page_table_root a) (heap_start a)) ≫= λ _,
                      mret (ExecEnter entry sp)
                  end
              end
        end
    | _ => mret (ExecErr (-14))
    end.
