(* ===== verification/ExecveSpec.v ===== *)
(** * What execve hands to the new program

    The strings that [push_cstr] collects, the layout of the initial stack, and
    the theorem that a program that reads its stack through its new address
    space finds the caller's arguments, environment and the auxiliary vector. *)

From Stdlib Require Import ZArith Lia Ascii String.
From stdpp Require Import base list option numbers strings.
From S2P Require Import Prelude Words Buddy Memory Paging Vmm VmmInv VmmBuf IpcPort Cpio VfsData Vfs VfsPipe Elf Task RunQueue Sched SysIpc SysMem SysPath SysOs SysFileSpec Execve.

Local Open Scope Z_scope.
#[local] Opaque MAX_EXEC_STR.

(** ** Collecting strings *)

Definition blob (strs : list (list Z)) : list Z := mjoin ((λ s, s ++ [0]) <$> strs).

(** The offsets of the strings in the blob. *)
Fixpoint starts (o : nat) (strs : list (list Z)) : list nat :=
  match strs with [] => [] | s :: strs' => o :: starts (o + length s + 1) strs' end.

(** The buffer holds [strs]; behind them there is nothing, or the part of a
    string that did not fit. *)
Record buf_holds (strs : list (list Z)) (b : ExecStrBuf) : Prop := {
  bh_data : length (x_data b) = MAX_EXEC_STR;
  bh_offs : length (x_offsets b) = MAX_EXEC_ARGS;
  bh_lens : length (x_lengths b) = MAX_EXEC_ARGS;
  bh_count : x_count b = length strs;
  bh_max : (x_count b ≤ MAX_EXEC_ARGS)%nat;
  bh_end : (x_end b < MAX_EXEC_STR)%nat;
  bh_lengths : take (x_count b) (x_lengths b) = length <$> strs;
  bh_offsets : take (x_count b) (x_offsets b) = starts 0 strs;
  bh_blob : ∃ junk, take (x_end b) (x_data b) = blob strs ++ junk ∧ (junk = [] ∨ x_end b = (MAX_EXEC_STR - 1)%nat);
  bh_nul : Forall (λ s, 0 ∉ s) strs
}.

Lemma take_S_insert {A} (l : list A) n x : (n < length l)%nat → take (S n) (<[n := x]> l) = take n l ++ [x].
Proof.
  intros Hn. rewrite (take_S_r _ _ x) by (by apply list_lookup_insert_eq). f_equal. by rewrite take_insert_ge by lia.
Qed.

Lemma blob_snoc strs s : blob (strs ++ [s]) = blob strs ++ s ++ [0].
Proof. unfold blob. rewrite fmap_app, join_app. simpl. by rewrite app_nil_r. Qed.

Lemma starts_snoc o strs s : starts o (strs ++ [s]) = starts o strs ++ [(o + length (blob strs))%nat].
Proof.
  revert o. induction strs as [|s' strs IH]; intros o; simpl; [by rewrite Nat.add_0_r|].
  rewrite IH. change (blob (s' :: strs)) with ((s' ++ [0]) ++ blob strs). rewrite !length_app. cbn [length].
  by replace (o + (length s' + 1 + length (blob strs)))%nat with (o + length s' + 1 + length (blob strs))%nat by lia.
Qed.

Lemma length_starts o strs : length (starts o strs) = length strs.
Proof. revert o. induction strs as [|s strs IH]; intros o; simpl; [done|]. by rewrite IH. Qed.

(** What the copy loop leaves: the bytes of the string up to the NUL, or up to
    the end of the buffer. *)
Lemma push_loop_spec fuel m p data end_ : length data = MAX_EXEC_STR → (end_ ≤ MAX_EXEC_STR - 1)%nat →
  (MAX_EXEC_STR - end_ ≤ fuel)%nat →
  ∃ str ok data', push_loop fuel m p data end_ = (ok, data', (end_ + length str)%nat) ∧ 0 ∉ str ∧
    mem_read m p (Z.of_nat (length str)) = str ∧ length data' = MAX_EXEC_STR ∧
    take (end_ + length str) data' = take end_ data ++ str ∧ (end_ + length str ≤ MAX_EXEC_STR - 1)%nat ∧
    if (ok : bool) then m (p + Z.of_nat (length str)) = 0 ∧ (end_ + length str < MAX_EXEC_STR - 1)%nat
    else (end_ + length str)%nat = (MAX_EXEC_STR - 1)%nat.
Proof.
  revert p data end_. induction fuel as [|fuel IH]; intros p data end_ Hd He Hf; [pose proof MAX_EXEC_STR_Z; lia|].
  cbn [push_loop]. destruct (Nat.leb_spec (MAX_EXEC_STR - 1) end_) as [Hle|Hlt].
  { exists [], false, data. cbn [length]. rewrite Nat.add_0_r, app_nil_r. split_and!; try done; [by apply not_elem_of_nil|lia]. }
  destruct (Z.eqb_spec (m p) 0) as [H0|H0].
  { exists [], true, data. cbn [length]. rewrite Nat.add_0_r, app_nil_r, Z.add_0_r. split_and!; try done. by apply not_elem_of_nil. }
  destruct (IH (p + 1) (<[end_ := m p]> data) (S end_)) as (str & ok & data' & Hrun & Hs & Hm & Hl & Ht & Hend & Hok);
    [by rewrite length_insert|lia|lia|].
  exists (m p :: str), ok, data'. cbn [length]. rewrite Nat.add_succ_r. rewrite Nat.add_succ_l in *.
  split_and!; [done|by apply not_elem_of_cons| |done| |lia|].
  - replace (Z.of_nat (S (length str))) with (1 + Z.of_nat (length str)) by lia. rewrite mem_read_app by lia.
    by rewrite mem_read_1, Hm.
  - rewrite Ht, take_S_insert by (pose proof MAX_EXEC_STR_Z; lia). by rewrite <- app_assoc.
  - replace (p + Z.of_nat (S (length str))) with (p + 1 + Z.of_nat (length str)) by lia. exact Hok.
Qed.

(** [push_cstr] adds the string at [ptr], or fails and keeps the strings. *)
Lemma push_cstr_spec strs m ptr b : buf_holds strs b →
  let '(ok, b') := push_cstr m ptr b in
  if (ok : bool) then ∃ str, cstring m ptr str ∧ buf_holds (strs ++ [str]) b' ∧ x_end b' = (x_end b + length str + 1)%nat
  else buf_holds strs b' ∧
    ((MAX_EXEC_ARGS ≤ x_count b)%nat ∨ ptr = 0 ∨
     ∃ str, 0 ∉ str ∧ mem_read m ptr (Z.of_nat (length str)) = str ∧ (x_end b + length str)%nat = (MAX_EXEC_STR - 1)%nat).
Proof.
  intros Hb. pose proof Hb as [Hd Ho Hl Hc Hmax He Hlen Hoff (junk & Hblob & Hjunk) Hnul]. unfold push_cstr.
  destruct (Nat.leb_spec MAX_EXEC_ARGS (x_count b)); [by split; [|left]|]. destruct (Z.eqb_spec ptr 0); [by split; [|right; left]|].
  destruct (push_loop_spec MAX_EXEC_STR m ptr (x_data b) (x_end b)) as (str & ok & data' & Hrun & Hs & Hm & Hl' & Ht & Hend & Hok);
    [done|pose proof MAX_EXEC_STR_Z; lia|lia|]. rewrite Hrun. destruct ok.
  - destruct Hok as [H0 Hroom]. assert (junk = []) as -> by (destruct Hjunk; [done|lia]). rewrite app_nil_r in Hblob.
    exists str. split; [split; [done|]; rewrite mem_read_app by lia; by rewrite Hm, mem_read_1, H0|].
    split; [|cbn [x_end]; lia].
    assert (length (blob strs) = x_end b) as Hbl by (rewrite <- Hblob, length_take; lia).
    split; cbn [x_data x_offsets x_lengths x_count x_end]; rewrite ?length_insert; try done.
    + rewrite length_app. simpl. lia.
    + pose proof MAX_EXEC_STR_Z. lia.
    + rewrite take_S_insert, Hlen, fmap_app by lia. simpl. repeat f_equal. lia.
    + rewrite take_S_insert, Hoff, starts_snoc by lia. by rewrite Hbl.
    + exists []. split; [|by left]. rewrite app_nil_r, take_S_insert, Ht, Hblob, blob_snoc by (pose proof MAX_EXEC_STR_Z; lia).
      by rewrite <- app_assoc.
    + apply Forall_app. by split; [|apply Forall_singleton].
  - split; [|by right; right; exists str].
    split; cbn [x_data x_offsets x_lengths x_count x_end]; try done; [pose proof MAX_EXEC_STR_Z; lia|].
    exists (junk ++ str). split; [by rewrite Ht, Hblob, app_assoc|by right].
Qed.

(** A string that fits is added. *)
Lemma push_cstr_fits strs m ptr b str : buf_holds strs b → x_end b = length (blob strs) → cstring m ptr str → ptr ≠ 0 →
  (length strs < MAX_EXEC_ARGS)%nat → (length (blob strs) + length str + 1 < MAX_EXEC_STR)%nat →
  buf_holds (strs ++ [str]) (push_cstr m ptr b).2 ∧ x_end (push_cstr m ptr b).2 = length (blob (strs ++ [str])).
Proof.
  intros Hb He Hs Hp Hn Hroom. pose proof (push_cstr_spec strs m ptr b Hb) as Hspec.
  destruct (push_cstr m ptr b) as [ok b']. cbn [snd]. destruct ok.
  - destruct Hspec as (str' & Hs' & Hb' & He'). assert (str' = str) as -> by (by eapply cstring_unique).
    split; [done|]. rewrite He', He, blob_snoc, !length_app. simpl. lia.
  - destruct Hspec as [_ [Hc|[Hc|(str' & H0 & Hm & Hl)]]]; [rewrite (bh_count _ _ Hb) in Hc; lia|done|]. exfalso.
    apply H0. assert (str' !! length str = Some 0) as Hz; [|by eapply list_elem_of_lookup_2].
    rewrite <- Hm, lookup_mem_read, decide_True by lia. f_equal. by apply (cstring_byte m ptr str).
Qed.

(** The caller's array of pointers from its entry [i] on, with the strings. *)
Fixpoint args_at (rd : Z → option Z) (m : mem) (ptr i : Z) (strs : list (list Z)) : Prop :=
  match strs with
  | [] => validate_user_buf (wadd ptr (i * 8)) 8 = true ∧ rd (wadd ptr (i * 8)) = Some 0
  | s :: strs' => validate_user_buf (wadd ptr (i * 8)) 8 = true ∧
      (∃ p, rd (wadd ptr (i * 8)) = Some p ∧ p ≠ 0 ∧ cstring m p s) ∧ args_at rd m ptr (i + 1) strs'
  end.

Lemma collect_args_spec rd m ptr rest i fuel done b : args_at rd m ptr i rest → buf_holds done b →
  x_end b = length (blob done) → (length rest < fuel)%nat → (length done + length rest ≤ MAX_EXEC_ARGS)%nat →
  (length (blob (done ++ rest)) < MAX_EXEC_STR)%nat →
  buf_holds (done ++ rest) (collect_args fuel rd m ptr i b).
Proof.
  revert i fuel done b. induction rest as [|s rest IH]; intros i fuel done b Ha Hb He Hf Hn Hl;
    (destruct fuel as [|fuel]; [simpl in Hf; lia|]); cbn [collect_args args_at] in *.
  - destruct Ha as [-> ->]. by rewrite app_nil_r.
  - destruct Ha as (-> & (p & -> & Hp & Hs) & Ha). cbn [negb]. rewrite (proj2 (Z.eqb_neq _ _) Hp).
    replace (done ++ s :: rest) with ((done ++ [s]) ++ rest) in * by (by rewrite <- app_assoc).
    assert (length (blob (done ++ [s])) ≤ length (blob ((done ++ [s]) ++ rest)))%nat as Hle
      by (unfold blob; rewrite (fmap_app _ (done ++ [s])), (join_app (_ <$> (done ++ [s]))), (length_app (mjoin _) (mjoin _)); lia).
    rewrite blob_snoc, !length_app in Hle. simpl in *. destruct (push_cstr_fits done m p b s) as [H1 H2]; try done; [lia|lia|].
    apply IH; try done; [lia|]. rewrite length_app. simpl. lia.
Qed.

Lemma new_buf_holds : buf_holds [] ExecStrBuf_new.
Proof.
  split; cbn; try done; rewrite ?length_replicate; try done; try lia; [pose proof MAX_EXEC_STR_Z; lia|].
  exists []. split; [|by left]. done.
Qed.

(** ** The layout *)

(** The frame always fits the stack: the check for too many arguments never fires. *)
Lemma frame_always_fits A E argv envp : buf_holds A argv → buf_holds E envp →
  let l := stack_layout argv envp in
  total_ptr_bytes l + Z.of_nat (x_end argv) + Z.of_nat (x_end envp) + 16 ≤ frame_size l ≤ USER_STACK_SIZE ∧
  user_sp l mod 16 = 0 ∧ USER_STACK_TOP - USER_STACK_SIZE ≤ user_sp l ∧ user_sp l + frame_size l ≤ USER_STACK_TOP ∧
  str_base_va l = user_sp l + total_ptr_bytes l ∧ total_ptr_bytes l = 8 * Z.of_nat (length A + length E + 19) ∧
  rand_va l = str_base_va l + Z.of_nat (x_end argv) + Z.of_nat (x_end envp).
Proof.
  intros HA HE l. pose proof (bh_max _ _ HA). pose proof (bh_max _ _ HE). pose proof (bh_end _ _ HA). pose proof (bh_end _ _ HE).
  pose proof (bh_count _ _ HA). pose proof (bh_count _ _ HE). pose proof MAX_EXEC_STR_Z.
  unfold l, stack_layout, USER_STACK_TOP, USER_STACK_SIZE, PAGE_SIZE, MAX_EXEC_ARGS in *. cbn [total_ptr_bytes frame_size user_sp str_base_va rand_va].
  clear l. remember (Z.of_nat (x_end argv) + Z.of_nat (x_end envp)) as strs eqn:Hstrs.
  remember ((1 + Z.of_nat (x_count argv) + 1 + Z.of_nat (x_count envp) + 1 + 16) * 8) as tpb eqn:Htpb.
  assert (∀ x, 0 ≤ x → Z.ldiff x 15 = x - x mod 16) as Hld.
  { intros x Hx. change 15 with (Z.ones 4). rewrite Z.ldiff_ones_r by lia. rewrite Z.shiftr_div_pow2, Z.shiftl_mul_pow2 by lia.
    change (2 ^ 4) with 16. pose proof (Z.div_mod x 16). lia. }
  rewrite (Hld (strs + 16 + 15)) by lia. pose proof (Z.mod_pos_bound (strs + 16 + 15) 16 ltac:(lia)).
  remember (tpb + (strs + 16 + 15 - (strs + 16 + 15) mod 16)) as fr eqn:Hfr.
  assert (0 ≤ fr ≤ 32768) by lia. rewrite Hld by lia. remember (0x7ffffffff000 - fr) as top eqn:Htop.
  pose proof (Z.mod_pos_bound top 16 ltac:(lia)). pose proof (Z.div_mod top 16 ltac:(lia)).
  assert ((top - top mod 16) mod 16 = 0) by (replace (top - top mod 16) with (top / 16 * 16) by lia; by apply Z.mod_mul).
  split_and!; lia.
Qed.

(** ** The frame in memory *)

Lemma write_words_out ws a m x : ¬ (a ≤ x < a + 8 * Z.of_nat (length ws)) → write_words a ws m x = m x.
Proof.
  revert a m. induction ws as [|w ws IH]; intros a m Hx; [done|]. cbn [write_words length] in *.
  rewrite IH by lia. apply write_u64_out. lia.
Qed.

Lemma write_words_read ws a m i w : ws !! i = Some w → 0 ≤ w < 2^64 →
  read_u64 (write_words a ws m) (a + 8 * Z.of_nat i) = w.
Proof.
  revert a m i. induction ws as [|w' ws IH]; intros a m i Hi Hw; [done|]. cbn [write_words]. destruct i as [|i].
  - injection Hi as ->. rewrite Z.mul_0_r, Z.add_0_r. rewrite (read_u64_ext _ (write_u64 a w m)); [by apply read_write_u64|].
    intros x Hx. apply write_words_out. lia.
  - replace (a + 8 * Z.of_nat (S i)) with (a + 8 + 8 * Z.of_nat i) by lia. by apply IH.
Qed.

(** The pointers of both tables are the offsets of the strings. *)
Lemma argv_ptrs_starts base o strs : argv_ptrs (base + Z.of_nat o) (length <$> strs) = envp_ptrs base (starts o strs).
Proof.
  revert o. induction strs as [|s strs IH]; intros o; [done|]. cbn [fmap list_fmap argv_ptrs starts].
  change (envp_ptrs base (o :: ?l)) with (base + Z.of_nat o :: envp_ptrs base l). f_equal. rewrite <- IH. f_equal. lia.
Qed.

Lemma blob_at o strs i s p : strs !! i = Some s → starts o strs !! i = Some p →
  ∃ pre post, blob strs = pre ++ (s ++ [0]) ++ post ∧ p = (o + length pre)%nat.
Proof.
  revert o i. induction strs as [|s' strs IH]; intros o i Hs Hp; [done|].
  change (blob (s' :: strs)) with ((s' ++ [0]) ++ blob strs). destruct i as [|i].
  - injection Hs as ->. injection Hp as <-. exists [], (blob strs). split; [done|]. simpl. lia.
  - destruct (IH _ _ Hs Hp) as (pre & post & Hb & ->). exists ((s' ++ [0]) ++ pre), post.
    rewrite Hb. split; [by rewrite <- !app_assoc|]. rewrite !length_app. simpl. lia.
Qed.

(** A region of memory that holds the blob holds each string. *)
Lemma blob_cstring m a strs junk i s p : mem_read m a (Z.of_nat (length (blob strs ++ junk))) = blob strs ++ junk →
  Forall (λ s, 0 ∉ s) strs → strs !! i = Some s → starts 0 strs !! i = Some p → cstring m (a + Z.of_nat p) s.
Proof.
  intros Hm Hn Hs Hp. split; [exact (Forall_lookup_1 _ _ _ _ Hn Hs)|].
  destruct (blob_at 0 strs i s p Hs Hp) as (pre & post & Hb & ->). cbn [Nat.add].
  rewrite Hb, <- !app_assoc in Hm. rewrite (app_assoc s [0]) in Hm.
  rewrite (length_app pre), Nat2Z.inj_add, mem_read_app in Hm by lia.
  apply app_inj_1 in Hm as [_ Hm]; [|rewrite length_mem_read; lia].
  rewrite (length_app (s ++ [0])), Nat2Z.inj_add, mem_read_app in Hm by lia.
  apply app_inj_1 in Hm as [Hm _]; [|rewrite length_mem_read; lia]. rewrite length_app, Nat2Z.inj_add in Hm. exact Hm.
Qed.

Lemma starts_bound strs : Forall (λ q, q ≤ length (blob strs))%nat (starts 0 strs).
Proof.
  apply Forall_lookup. intros i q Hq. destruct (strs !! i) as [s|] eqn:Hs.
  - destruct (blob_at 0 strs i s q Hs Hq) as (pre & post & -> & ->). rewrite length_app. lia.
  - apply lookup_lt_Some in Hq. apply lookup_ge_None in Hs. rewrite length_starts in Hq. lia.
Qed.

Lemma blob_end strs b : buf_holds strs b → (length (blob strs) ≤ x_end b)%nat.
Proof.
  intros Hb. destruct (bh_blob _ _ Hb) as (junk & Hj & _). apply (f_equal length) in Hj. rewrite length_take, length_app in Hj. lia.
Qed.

Section frame.
Context (A E : list (list Z)) (argv envp : ExecStrBuf) (vfs_port t base : Z) (m : mem).
Context (HA : buf_holds A argv) (HE : buf_holds E envp).

Let l := stack_layout argv envp.
Let m' := write_stack base argv envp vfs_port t m.

Lemma stack_words_eq : stack_words argv envp vfs_port =
  [Z.of_nat (length A)] ++ envp_ptrs (str_base_va l) (starts 0 A) ++ [0] ++
  envp_ptrs (str_base_va l + Z.of_nat (x_end argv)) (starts 0 E) ++ [0] ++ mjoin ((λ p, [p.1; p.2]) <$> auxv l vfs_port).
Proof.
  unfold stack_words. fold l. rewrite (bh_lengths _ _ HA), (bh_offsets _ _ HE), (bh_count _ _ HA).
  pose proof (argv_ptrs_starts (str_base_va l) 0 A) as Hp. rewrite Z.add_0_r in Hp. by rewrite Hp.
Qed.

Lemma length_stack_words : 8 * Z.of_nat (length (stack_words argv envp vfs_port)) = total_ptr_bytes l.
Proof.
  destruct (frame_always_fits A E argv envp HA HE) as (_ & _ & _ & _ & _ & Ht & _). fold l in Ht. rewrite Ht, stack_words_eq.
  rewrite !length_app. unfold envp_ptrs. rewrite !length_fmap, !length_starts. simpl. lia.
Qed.

(** What was written to the pointer table is still there. *)
Lemma stack_word i w : stack_words argv envp vfs_port !! i = Some w → 0 ≤ w < 2^64 →
  read_u64 m' (base + 8 * Z.of_nat i) = w.
Proof.
  intros Hi Hw. rewrite <- (write_words_read (stack_words argv envp vfs_port) base m i w Hi Hw).
  pose proof (lookup_lt_Some _ _ _ Hi). pose proof length_stack_words. apply read_u64_ext. intros x Hx. unfold m', write_stack. fold l.
  rewrite !mem_write_out by lia. done.
Qed.

Lemma argv_region : mem_read m' (base + total_ptr_bytes l) (Z.of_nat (x_end argv)) = take (x_end argv) (x_data argv).
Proof.
  assert (length (take (x_end argv) (x_data argv)) = x_end argv) as Hl.
  { rewrite length_take, (bh_data _ _ HA). pose proof (bh_end _ _ HA). lia. }
  transitivity (mem_read (mem_write (base + total_ptr_bytes l) (take (x_end argv) (x_data argv))
    (write_words base (stack_words argv envp vfs_port) m)) (base + total_ptr_bytes l) (Z.of_nat (x_end argv))).
  - apply mem_read_ext. intros x Hx. unfold m', write_stack. fold l. rewrite !mem_write_out by lia. done.
  - rewrite <- Hl at 2. apply mem_read_write.
Qed.

Lemma envp_region : mem_read m' (base + total_ptr_bytes l + Z.of_nat (x_end argv)) (Z.of_nat (x_end envp)) = take (x_end envp) (x_data envp).
Proof.
  assert (length (take (x_end envp) (x_data envp)) = x_end envp) as Hl.
  { rewrite length_take, (bh_data _ _ HE). pose proof (bh_end _ _ HE). lia. }
  set (bs := take (x_end envp) (x_data envp)) in *. set (m1 := mem_write (base + total_ptr_bytes l)
    (take (x_end argv) (x_data argv)) (write_words base (stack_words argv envp vfs_port) m)).
  set (a := base + total_ptr_bytes l + Z.of_nat (x_end argv)). transitivity (mem_read (mem_write a bs m1) a (Z.of_nat (x_end envp))).
  - apply mem_read_ext. intros x Hx. unfold m', write_stack. fold l bs m1 a. rewrite mem_write_out by lia. done.
  - rewrite <- Hl. apply mem_read_write.
Qed.

(** The strings are where the pointers say. *)
Lemma argv_string i s p : A !! i = Some s → starts 0 A !! i = Some p → cstring m' (base + total_ptr_bytes l + Z.of_nat p) s.
Proof.
  intros Hs Hp. destruct (bh_blob _ _ HA) as (junk & Hb & _). pose proof argv_region as Hr. rewrite Hb in Hr.
  eapply (blob_cstring m' _ A junk i); [|apply HA|done|done]. rewrite <- Hr at 2. f_equal. f_equal.
  rewrite <- Hb, length_take, (bh_data _ _ HA). pose proof (bh_end _ _ HA). lia.
Qed.

Lemma envp_string i s p : E !! i = Some s → starts 0 E !! i = Some p →
  cstring m' (base + total_ptr_bytes l + Z.of_nat (x_end argv) + Z.of_nat p) s.
Proof.
  intros Hs Hp. destruct (bh_blob _ _ HE) as (junk & Hb & _). pose proof envp_region as Hr. rewrite Hb in Hr.
  eapply (blob_cstring m' _ E junk i); [|apply HE|done|done]. rewrite <- Hr at 2. f_equal. f_equal.
  rewrite <- Hb, length_take, (bh_data _ _ HE). pose proof (bh_end _ _ HE). lia.
Qed.
End frame.

(** ** The new address space *)

Lemma load_good bytes (k : kmem) a entry k' a' : Forall is_byte bytes → vmas_wf (regions a) → wx (regions a) → 0 ≤ heap_start a < 2^64 →
  Elf.load bytes (k, a) = Ret (Ok entry, (k', a')) → vmas_wf (regions a') ∧ wx (regions a') ∧ 0 ≤ heap_start a' < 2^64.
Proof.
  intros Hb Hwf Hwx Hh Hl. unfold Elf.load in Hl. destruct (parse_ehdr bytes) as [h|e]; [|discriminate Hl].
  destruct (ph_table_end h) as [end_|]; [|discriminate Hl]. case_bool; [discriminate Hl|].
  apply bind_Ret in Hl as (r & [m1 a1] & Hloop & Hl).
  pose proof (wlp_run _ _ _ _ _ (load_loop_good bytes Hb (e_phoff h) (e_phentsize h) (Z.to_nat (e_phnum h)) 0 0 k a Hh Hwf Hwx)
    Hloop) as ([Hwf1 Hwx1 _] & Hhs & _). simpl in Hwf1, Hwx1, Hhs. destruct r as [hi|e]; [|discriminate Hl].
  apply bind_Ret in Hl as (a2 & s2 & Ha2 & Hl). injection Ha2 as <- <-. injection Hl as _ _ <-. unfold set_heap. case_bool; [|by rewrite Hhs].
  split_and!; [done|done|apply u64_range..].
Qed.

(** The stack is one region, mapped eagerly: it is contiguous in physical memory. *)
Record stack_region (a : AddressSpace) (r : VmaRegion) : Prop := {
  sr_wf : vmas_wf (regions a);
  sr_in : ∃ i, regions a !! i = Some (Some r);
  sr_start : v_start r = USER_STACK_TOP - USER_STACK_SIZE;
  sr_end : v_end r = USER_STACK_TOP;
  sr_flags : v_flags r = STACK_FLAGS;
  sr_lazy : v_lazy r = false
}.

Lemma exec_image_stack elf s entry a s' : Forall is_byte elf → exec_image elf s = Ret (Ok (entry, a), s') → ∃ r, stack_region a r.
Proof.
  intros Hb Hrun. unfold exec_image in Hrun. apply bind_Ret in Hrun as (root & s1 & _ & Hrun). case_bool; [discriminate Hrun|].
  apply bind_Ret in Hrun as ([r1 a1] & s2 & Hload & Hrun). destruct r1 as [e1|e1].
  2:{ apply bind_Ret in Hrun as (? & ? & _ & [=]). }
  unfold with_as in Hload. destruct (Elf.load elf _) as [[r2 [k2 a2]]|] eqn:Hl; [|discriminate Hload]. injection Hload as -> -> <-.
  apply load_good in Hl as (Hwf1 & Hwx1 & Hh1); [|done|by apply vmas_wf_empty| |simpl; lia].
  2:{ intros i r [[=] _]%lookup_replicate_1. }
  apply bind_Ret in Hrun as ([ok a3] & s3 & Hmap & Hrun). unfold with_as in Hmap.
  destruct (Vmm.map _ _ _ _) as [[ok3 [k3 a3']]|] eqn:Hm; [|discriminate Hmap]. injection Hmap as -> -> <-.
  destruct ok; [|apply bind_Ret in Hrun as (? & ? & _ & [=])]. injection Hrun as _ -> _.
  pose proof (wlp_run _ _ _ _ _ (map_good (USER_STACK_TOP - USER_STACK_SIZE) USER_STACK_SIZE STACK_FLAGS _ a1
    ltac:(by vm_compute) Hh1 Hwf1 Hwx1 eq_refl) Hm) as ([Hwf3 _ _] & Hr).
  destruct (Hr eq_refl) as (i & r & Hi & Hs & He & Hf & Hz). exists r. by split; try exists i.
Qed.

Lemma stack_linear a r x : stack_region a r → USER_STACK_TOP - USER_STACK_SIZE ≤ x < USER_STACK_TOP →
  as_virt_to_phys a x = Some (wadd (v_phys r) (x - (USER_STACK_TOP - USER_STACK_SIZE))).
Proof.
  intros [Hwf [i Hi] Hs He _ Hz] Hx. unfold as_virt_to_phys, Vmm.find. rewrite (find_vma_unique _ i r x Hwf Hi) by lia.
  simpl. rewrite Hz, Hs. unfold USER_STACK_TOP, USER_STACK_SIZE, PAGE_SIZE in *. by rewrite wsub_small by lia.
Qed.

(** ** What the program reads *)

(** A byte and an aligned word of the program's memory. *)
Definition user_byte (k : kmem) (a : AddressSpace) (va : Z) : option Z :=
  p ← as_virt_to_phys a va; Some (k_mem k (phys_to_virt p k)).
Definition user_u64 (k : kmem) (a : AddressSpace) (va : Z) : option Z :=
  p ← as_virt_to_phys a va; Some (read_u64 (k_mem k) (phys_to_virt p k)).

Definition user_string (k : kmem) (a : AddressSpace) (va : Z) (str : list Z) : Prop :=
  0 ∉ str ∧ ∀ i b, (str ++ [0]) !! i = Some b → user_byte k a (va + Z.of_nat i) = Some b.

(** A pointer of one of the vectors. *)
Definition user_arg (k : kmem) (a : AddressSpace) (p : Z) (str : list Z) : Prop := p ≠ 0 ∧ user_string k a p str.

(** The words from [va] up. *)
Definition user_words (k : kmem) (a : AddressSpace) (va : Z) (ws : list Z) : Prop :=
  ∀ i w, ws !! i = Some w → user_u64 k a (va + 8 * Z.of_nat i) = Some w.

(** The System V process entry: argc, the argument pointers, NULL, the
    environment pointers, NULL, the auxiliary vector. *)
Definition program_sees (k : kmem) (a : AddressSpace) (sp vfs_port : Z) (A E : list (list Z)) : Prop :=
  ∃ ps qs rnd,
    user_words k a sp ([Z.of_nat (length A)] ++ ps ++ [0] ++ qs ++ [0] ++
      [25; rnd; 6; PAGE_SIZE; 11; 0; 12; 0; 13; 0; 14; 0; AT_CYANOS_VFS_PORT; vfs_port; 0; 0]) ∧
    Forall2 (user_arg k a) ps A ∧ Forall2 (user_arg k a) qs E.

Section image.
Context (A E : list (list Z)) (argv envp : ExecStrBuf) (vfs_port t : Z) (k : kmem) (a : AddressSpace) (r : VmaRegion) (p : Z).
Context (HA : buf_holds A argv) (HE : buf_holds E envp) (Hr : stack_region a r).
Context (Hp : as_virt_to_phys a (USER_STACK_TOP - USER_STACK_SIZE) = Some p).
Context (Hp0 : 0 ≤ p) (Hh0 : 0 ≤ k_hhdm k) (Hmax : p + k_hhdm k + USER_STACK_SIZE ≤ 2^64).

Let l := stack_layout argv envp.
Let base := p + k_hhdm k + (user_sp l - (USER_STACK_TOP - USER_STACK_SIZE)).
Let k' := on_mem (write_stack base argv envp vfs_port t) k.

Lemma stack_phys x : USER_STACK_TOP - USER_STACK_SIZE ≤ x < USER_STACK_TOP →
  as_virt_to_phys a x = Some (p + (x - (USER_STACK_TOP - USER_STACK_SIZE))).
Proof.
  intros Hx. rewrite (stack_linear _ r) by done. rewrite (stack_linear _ r), Z.sub_diag in Hp by done.
  injection Hp as Hp'. f_equal.
  unfold wadd, u64 in *. rewrite Z.add_0_r in Hp'. rewrite <- Zplus_mod_idemp_l, Hp'. apply Z.mod_small.
  unfold USER_STACK_TOP, USER_STACK_SIZE, PAGE_SIZE in *. lia.
Qed.

Lemma stack_kernel x : USER_STACK_TOP - USER_STACK_SIZE ≤ x < USER_STACK_TOP →
  phys_to_virt (p + (x - (USER_STACK_TOP - USER_STACK_SIZE))) k = base + (x - user_sp l).
Proof.
  intros Hx. unfold phys_to_virt. rewrite wadd_small; [unfold base; lia|].
  unfold USER_STACK_TOP, USER_STACK_SIZE, PAGE_SIZE in *. lia.
Qed.

Lemma seen_byte x : USER_STACK_TOP - USER_STACK_SIZE ≤ x < USER_STACK_TOP → user_byte k' a x = Some (k_mem k' (base + (x - user_sp l))).
Proof. intros Hx. unfold user_byte. rewrite stack_phys by done. simpl. do 2 f_equal. by apply stack_kernel. Qed.

Lemma seen_u64 x : USER_STACK_TOP - USER_STACK_SIZE ≤ x < USER_STACK_TOP →
  user_u64 k' a x = Some (read_u64 (k_mem k') (base + (x - user_sp l))).
Proof. intros Hx. unfold user_u64. rewrite stack_phys by done. simpl. do 2 f_equal. by apply stack_kernel. Qed.

Lemma seen_string va str : cstring (k_mem k') (base + (va - user_sp l)) str →
  USER_STACK_TOP - USER_STACK_SIZE ≤ va → va + Z.of_nat (length str) + 1 ≤ USER_STACK_TOP → user_string k' a va str.
Proof.
  intros [Hn Hc] H1 H2. split; [done|]. intros i b Hi. pose proof (lookup_lt_Some _ _ _ Hi) as Hlt.
  rewrite length_app in Hlt. simpl in Hlt. rewrite seen_byte by lia. rewrite <- Hc, lookup_mem_read, decide_True in Hi by lia.
  apply (inj Some) in Hi. rewrite <- Hi. do 2 f_equal.
  lia.
Qed.

(** The strings of one vector, whose blob lies at the offset [o] of the frame. *)
Lemma seen_strings B n o : (length (blob B) ≤ n)%nat → 0 ≤ o → user_sp l + o + Z.of_nat n ≤ USER_STACK_TOP →
  USER_STACK_TOP - USER_STACK_SIZE ≤ user_sp l →
  (∀ i s q, B !! i = Some s → starts 0 B !! i = Some q → cstring (k_mem k') (base + o + Z.of_nat q) s) →
  Forall2 (user_arg k' a) (envp_ptrs (user_sp l + o) (starts 0 B)) B.
Proof.
  intros Hn Ho Htop Hsp Hc. apply Forall2_same_length_lookup. split; [unfold envp_ptrs; by rewrite length_fmap, length_starts|].
  intros i x s Hx Hs. unfold envp_ptrs in Hx. rewrite list_lookup_fmap in Hx.
  destruct (starts 0 B !! i) as [q|] eqn:Hq; [|discriminate Hx]. apply (inj Some) in Hx. subst x.
  destruct (blob_at 0 B i s q Hs Hq) as (pre & post & Hb & Hq'). simpl in Hq'. subst q.
  assert (length pre + length s + 1 ≤ n)%nat by (rewrite Hb, !length_app in Hn; simpl in Hn; lia).
  split; [unfold USER_STACK_TOP, USER_STACK_SIZE, PAGE_SIZE in Hsp; lia|].
  apply seen_string; [|lia..]. replace (base + _) with (base + o + Z.of_nat (length pre)) by lia. by eapply Hc.
Qed.

Lemma stack_words_range : 0 ≤ vfs_port < 2^64 → Forall (λ w, 0 ≤ w < 2^64) (stack_words argv envp vfs_port).
Proof.
  intros Hport. destruct (frame_always_fits A E argv envp HA HE) as (Hfit & _ & Hlo & Hhi & Hstr & Htpb & Hrnd).
  fold l in Hfit, Hlo, Hhi, Hstr, Htpb, Hrnd.
  pose proof (bh_max _ _ HA). pose proof (bh_count _ _ HA). pose proof (blob_end _ _ HA). pose proof (blob_end _ _ HE).
  unfold USER_STACK_TOP, USER_STACK_SIZE, PAGE_SIZE, MAX_EXEC_ARGS in *.
  assert (∀ B o, 0 ≤ o → o + Z.of_nat (length (blob B)) < 2^64 → Forall (λ w, 0 ≤ w < 2^64) (envp_ptrs o (starts 0 B))) as Hptrs.
  { intros B o Ho Hm. apply Forall_fmap, (Forall_impl _ _ _ (starts_bound B)). intros q Hq. simpl. lia. }
  rewrite (stack_words_eq A E argv envp vfs_port HA HE). fold l.
  apply Forall_app; split; [apply Forall_singleton; lia|]. apply Forall_app; split; [apply Hptrs; lia|].
  apply Forall_app; split; [by apply Forall_singleton|]. apply Forall_app; split; [apply Hptrs; lia|].
  apply Forall_app; split; [by apply Forall_singleton|].
  unfold auxv, PAGE_SIZE, AT_CYANOS_VFS_PORT. cbn [fmap list_fmap mjoin list_join app fst snd].
  repeat (apply Forall_cons; split; [lia|]). apply Forall_nil_2.
Qed.

Lemma frame_seen : 0 ≤ vfs_port < 2^64 → program_sees k' a (user_sp l) vfs_port A E.
Proof.
  intros Hport. destruct (frame_always_fits A E argv envp HA HE) as (Hfit & _ & Hlo & Hhi & Hstr & Htpb & Hrnd).
  fold l in Hfit, Hlo, Hhi, Hstr, Htpb, Hrnd.
  pose proof (blob_end _ _ HA). pose proof (blob_end _ _ HE).
  exists (envp_ptrs (str_base_va l) (starts 0 A)), (envp_ptrs (str_base_va l + Z.of_nat (x_end argv)) (starts 0 E)), (rand_va l).
  split_and!.
  - intros i w Hi. assert (stack_words argv envp vfs_port !! i = Some w) as Hw.
    { rewrite (stack_words_eq A E argv envp vfs_port HA HE). exact Hi. }
    pose proof (lookup_lt_Some _ _ _ Hw). pose proof (length_stack_words A E argv envp vfs_port HA HE) as Hlen. fold l in Hlen.
    rewrite seen_u64 by lia. f_equal. replace (base + _) with (base + 8 * Z.of_nat i) by lia.
    apply (stack_word A E argv envp vfs_port t base (k_mem k) HA HE i w Hw). exact (Forall_lookup_1 _ _ _ _ (stack_words_range Hport) Hw).
  - rewrite Hstr. eapply (seen_strings A (x_end argv)); [lia..|]. intros i s q Hs Hq. rewrite Hstr in *.
    by apply (argv_string A argv envp vfs_port t base (k_mem k) HA i s q).
  - rewrite Hstr, <- Z.add_assoc. eapply (seen_strings E (x_end envp)); [lia..|]. intros i s q Hs Hq. rewrite Z.add_assoc.
    by apply (envp_string E argv envp vfs_port t base (k_mem k) HE i s q).
Qed.
End image.

(** ** The call *)

(** The caller's vector at [ptr], read up to its NULL; a null vector is empty. *)
Record passes (s : Os) (ptr : Z) (strs : list (list Z)) : Prop := {
  pa_strs : if ptr =? 0 then strs = [] else args_at (read_ptr s) (os_mem s) ptr 0 strs;
  pa_few : (length strs < MAX_EXEC_ARGS)%nat;
  pa_short : Z.of_nat (length (blob strs)) < Z.of_nat MAX_EXEC_STR
}.

Lemma collect_holds s ptr strs : passes s ptr strs → buf_holds strs (collect s ptr).
Proof.
  intros [Hs Hf Hb]. unfold collect. case_bool; [subst strs; apply new_buf_holds|].
  apply (collect_args_spec (read_ptr s) (os_mem s) ptr strs 0 MAX_EXEC_ARGS [] ExecStrBuf_new); try done; [apply new_buf_holds|simpl; lia..].
Qed.

(** The file at the caller's path is [elf]. *)
Record names_file (inflate : list Z → option (list Z)) (initrd : option (list Z)) (s : Os) (path_ptr : Z) (elf : list Z) : Prop := {
  nf_ptr : validate_user_buf path_ptr 1 = true;
  nf_found : ∃ raw, with_current_address_space (λ k a, read_user_buf k a path_ptr 256) (os_sched s) = Some (true, raw) ∧
    exec_lookup inflate initrd (exec_path raw (os_sched s)) = Ret (Some elf);
  nf_nonempty : len elf ≠ 0
}.

Definition exec_finish (entry sp : Z) (a : AddressSpace) : st Os exec_result :=
  pid ← st_get os_pid;
  vfs_req VFS_EXEC_CLOEXEC [pid] ≫= λ _,
  on_os_sched (replace_address_space a (page_table_root a) (heap_start a)) ≫= λ _,
  mret (ExecEnter entry sp).

Lemma exec_stack_run A E argv envp vfs_port a r p s : buf_holds A argv → buf_holds E envp → stack_region a r →
  as_virt_to_phys a (USER_STACK_TOP - USER_STACK_SIZE) = Some p → 0 ≤ p → 0 ≤ k_hhdm (sc_kmem s) →
  p + k_hhdm (sc_kmem s) + USER_STACK_SIZE ≤ 2^64 → 0 ≤ vfs_port < 2^64 →
  let sp := user_sp (stack_layout argv envp) in
  ∃ s', exec_stack argv envp vfs_port a s = Ret (Ok sp, s') ∧ program_sees (sc_kmem s') a sp vfs_port A E.
Proof.
  intros HA HE Hr Hp Hp0 Hh Hmax Hport sp.
  destruct (frame_always_fits A E argv envp HA HE) as (Hfit & _ & Hlo & Hhi & _ & Htpb & _).
  unfold exec_stack. rewrite (proj2 (Z.ltb_ge _ _)) by lia.
  rewrite (stack_phys argv envp (sc_kmem s) a r p) by (done || lia). eexists. split; [reflexivity|].
  cbn [sc_kmem set_kmem]. cbv beta. rewrite (stack_kernel argv envp (sc_kmem s) p) by (done || lia).
  rewrite Z.sub_diag, Z.add_0_r. by apply (frame_seen A E argv envp vfs_port (ticks s) (sc_kmem s) a r p).
Qed.

(** The kernel reaches the whole stack without a wrap of its addresses. *)
Definition stack_addressable (a : AddressSpace) (k : kmem) : Prop :=
  ∃ p, as_virt_to_phys a (USER_STACK_TOP - USER_STACK_SIZE) = Some p ∧ 0 ≤ p ∧ 0 ≤ k_hhdm k ∧ p + k_hhdm k + USER_STACK_SIZE ≤ 2^64.

(** The call after the file is found. *)
Lemma execve_image inflate initrd vfs_port path_ptr argv_ptr envp_ptr s elf : names_file inflate initrd s path_ptr elf →
  sys_execve inflate initrd vfs_port path_ptr argv_ptr envp_ptr s =
  (img ← on_os_sched (exec_image elf);
   match img with
   | Err e => mret (ExecErr e)
   | Ok (entry, a) =>
       sp ← on_os_sched (exec_stack (collect s argv_ptr) (collect s envp_ptr) vfs_port a);
       match sp with Err e => mret (ExecErr e) | Ok sp => exec_finish entry sp a end
   end) s.
Proof.
  intros [Hptr (raw & Hraw & Hfile) Hne]. unfold sys_execve. rewrite Hptr. cbn [negb]. unfold mbind, st_bind at 1, st_get at 1. rewrite Hraw.
  unfold st_bind at 1, st_get at 1, st_bind at 1, st_of. rewrite Hfile. rewrite (proj2 (Z.eqb_neq _ _) Hne). reflexivity.
Qed.

(** [execve] hands the caller's arguments to the new program: when the file
    is found and the two vectors have fewer than 64 strings and less than 8 KiB
    each, the call fails exactly when the image cannot be built, with that
    error; otherwise it goes on to enter the program at the entry point of the
    file with a 16-byte aligned stack pointer inside the new stack, and a
    program that reads its stack through the new address space finds argc,
    pointers to its arguments, NULL, pointers to its environment, NULL and the
    auxiliary vector; the strings behind the pointers are the caller's, byte for
    byte. *)
Lemma execve_arguments inflate initrd vfs_port path_ptr argv_ptr envp_ptr s elf A E :
  names_file inflate initrd s path_ptr elf → Forall is_byte elf → passes s argv_ptr A → passes s envp_ptr E → 0 ≤ vfs_port < 2^64 →
  match on_os_sched (exec_image elf) s with
  | Ret (Ok (entry, a), s1) =>
      stack_addressable a (sc_kmem (os_sched s1)) → ∃ sp s2,
        sys_execve inflate initrd vfs_port path_ptr argv_ptr envp_ptr s = exec_finish entry sp a s2 ∧
        sp mod 16 = 0 ∧ USER_STACK_TOP - USER_STACK_SIZE ≤ sp < USER_STACK_TOP ∧
        program_sees (sc_kmem (os_sched s2)) a sp vfs_port A E
  | Ret (Err e, s1) => sys_execve inflate initrd vfs_port path_ptr argv_ptr envp_ptr s = Ret (ExecErr e, s1)
  | Panic => sys_execve inflate initrd vfs_port path_ptr argv_ptr envp_ptr s = Panic
  end.
Proof.
  intros Hf Hb HA%collect_holds HE%collect_holds Hport. rewrite (execve_image _ _ _ _ _ _ _ _ Hf). unfold mbind, st_bind.
  destruct (on_os_sched (exec_image elf) s) as [[[[entry a]|e] s1]|] eqn:Himg; [|reflexivity..].
  intros (p & Hp & Hp0 & Hh & Hmax). destruct (frame_always_fits _ _ _ _ HA HE) as (Hfit & Hal & Hlo & Hhi & _ & Htpb & _).
  assert (∃ r, stack_region a r) as [r Hr].
  { unfold on_os_sched, on_k, SysMem.on_sched in Himg. destruct (exec_image elf _) as [[o k1]|] eqn:Hi; [|discriminate Himg].
    injection Himg as -> _. by apply exec_image_stack in Hi. }
  destruct (exec_stack_run A E _ _ vfs_port a r p (os_sched s1) HA HE Hr Hp Hp0 Hh Hmax Hport) as (k2 & Hrun & Hsees).
  exists (user_sp (stack_layout (collect s argv_ptr) (collect s envp_ptr))), (set_k (set_sched k2 (os_k s1)) s1).
  split; [|by split_and!; [|lia|lia|]].
  unfold on_os_sched at 1, on_k at 1, SysMem.on_sched at 1. change (kn_sched (os_k s1)) with (os_sched s1). rewrite Hrun. reflexivity.
Qed.

(** *** Witness: a task with one page of its own, and 4 MiB of free memory *)

Definition exec_demo_as : AddressSpace :=
  mkAS 0x1000 (<[0%nat := Some (mkVma 0x600000 0x601000 0x200000 7 false [] 0 3 0 0 0 false)]> (replicate 8 None)) 0 0.

(** The page holds the path, the argument vector and the environment vector. *)
Definition exec_demo_page : mem :=
  mem_write 0x200000 (bytes "/bin/x") (mem_write 0x200200 (le_encode 8 0x1000 ++ le_encode 8 0x1100)
    (mem_write 0x200300 (le_encode 8 0x1100) (λ _, 0))).

Definition exec_demo_sched : Sched :=
  let t := with_address_space (Some exec_demo_as) (new_kernel 7 0 0 0 0) in
  mkSched (mkRQ (<[0%nat := Some t]> (replicate MAX_TASKS None)) 1 0) 8 0 false [] 0 7 (Some 0%nat)
    (mkKmem (mkBuddy (<[10%nat := Some 0x400000]> (replicate MAX_ORDER None)) 1024 1024) 0 exec_demo_page 0).

Definition exec_demo : Os := set_k (set_sched exec_demo_sched (os_k file_demo)) file_demo.

Lemma exec_demo_string p str : bool_decide (0 ∉ str) = true → mem_read (os_mem exec_demo) p (Z.of_nat (length str) + 1) = str ++ [0] →
  cstring (os_mem exec_demo) p str.
Proof. intros H0%bool_decide_eq_true H. by split. Qed.

Lemma exec_demo_argv : passes exec_demo 0x600200 [bytes "tmp/x/../a"; bytes "etc/.."].
Proof.
  split; [|vm_compute; lia|vm_compute; reflexivity]. cbn [Z.eqb args_at]. split_and!; lazymatch goal with |- _ = _ => vm_compute; reflexivity | _ => idtac end.
  - exists 0x1000. split_and!; [vm_compute; reflexivity|lia|apply exec_demo_string; vm_compute; reflexivity].
  - exists 0x1100. split_and!; [vm_compute; reflexivity|lia|apply exec_demo_string; vm_compute; reflexivity].
Qed.

Lemma exec_demo_envp : passes exec_demo 0x600300 [bytes "etc/.."].
Proof.
  split; [|vm_compute; lia|vm_compute; reflexivity]. cbn [Z.eqb args_at]. split_and!; lazymatch goal with |- _ = _ => vm_compute; reflexivity | _ => idtac end.
  exists 0x1100. split_and!; [vm_compute; reflexivity|lia|apply exec_demo_string; vm_compute; reflexivity].
Qed.

(** The program is the RAM disk itself. *)
