(* ===== verification/SysDispatch.v ===== *)
(** * The system call table (src/kernel/src/syscall.rs)

    [dispatch_inner] sends a call number and its six arguments to the handlers of
    the other files; [dispatch] then fires the caller's timers.  The state is
    everything a call can reach.  A call that has to wait yields, and [resume]
    is what the task does when it gets the CPU back.

    The layout of the structures that the compiler lays out freely (messages,
    signal actions) is a parameter, and so are the RAM disk, its decompressor
    and the addresses that the handlers take from the kernel's stack. *)

From Stdlib Require Import ZArith Lia Ascii String.
From stdpp Require Import base list option numbers strings.
From S2P Require Import Prelude Words Buddy Memory Vmm IpcPort VfsData Vfs Tty Net Task RunQueue Sched SchedSpec Futex Signal Clone SysIpc SysMem SysPath SysOs SysFile SysInfo SysEpoll Execve.

Local Open Scope Z_scope.

(** ** Numbers: the calls that the table has on aarch64 *)

Inductive nr :=
  | SYS_IPC_SEND | SYS_IPC_RECV | SYS_IPC_CALL | MMAP | MUNMAP | MPROTECT | BRK | MREMAP | MINCORE | SCHED_YIELD |
  EXIT | SYS_SPAWN | WAIT4 | WAITID | GETPID | GETPPID | EXECVE | CLONE | CLOCK_GETTIME | RT_SIGACTION |
  RT_SIGPROCMASK | RT_SIGRETURN | KILL | RT_SIGSUSPEND | RT_SIGTIMEDWAIT | SET_TID_ADDR | FUTEX | WRITE | READ |
  WRITEV | READV | OPENAT | CLOSE | FSTAT | NEWFSTATAT | LSEEK | IOCTL | FCNTL | PIPE2 | FLOCK | GETDENTS64 | DUP |
  DUP3 | READLINKAT | PPOLL | CHDIR | FCHDIR | GETCWD | SETPGID | GETPGID | SETSID | GETSID | SETUID | SETGID |
  SETRESUID | SETRESGID | SETGROUPS | GETRESUID | GETRESGID | GETGROUPS | UMASK | MKDIRAT | UNLINKAT | RENAMEAT |
  RENAMEAT2 | LINKAT | SYMLINKAT | FCHMODAT | FCHMOD | FCHOWNAT | FCHOWN | TRUNCATE | FTRUNCATE | FACCESSAT | STATFS |
  FSTATFS | FSYNC | FDATASYNC | FALLOCATE | UTIMENSAT | MKNODAT | SOCKET | BIND | LISTEN | ACCEPT | ACCEPT4 | CONNECT
  | SENDTO | RECVFROM | SENDMSG | RECVMSG | SHUTDOWN | GETSOCKNAME | GETPEERNAME | SOCKETPAIR | SETSOCKOPT |
  GETSOCKOPT | TIMER_CREATE | TIMER_SETTIME | TIMER_GETTIME | TIMER_DELETE | NANOSLEEP | CLOCK_NANOSLEEP |
  TIMERFD_CREATE | TIMERFD_SETTIME | TIMERFD_GETTIME | GETTIMEOFDAY | SYSINFO | SENDFILE | COPY_FILE_RANGE |
  MEMFD_CREATE | SPLICE | SETITIMER | GETITIMER | SIGPENDING | GETRANDOM | PRCTL | MADVISE | MSYNC | MLOCK | MUNLOCK |
  MLOCKALL | MUNLOCKALL | CLOCK_GETRES | PREAD64 | PWRITE64 | TIMES | SELECT | PSELECT6 | EPOLL_CREATE1 | EPOLL_CTL |
  EPOLL_PWAIT | EPOLL_PWAIT2 | EVENTFD2 | SIGNALFD4 | SCHED_SETSCHEDULER | SCHED_SETPARAM | SCHED_GETSCHEDULER |
  SCHED_GETPARAM | SCHED_SETAFFINITY | SCHED_GETAFFINITY | SCHED_GET_PRIORITY_MAX | SCHED_GET_PRIORITY_MIN | GETRUSAGE
  | CAPGET | CAPSET | MEMBARRIER | RSEQ | STATX | OPENAT2 | CLOSE_RANGE | PIDFD_OPEN | GETUID | GETEUID | GETGID |
  GETEGID | GETTID | TGKILL | SIGALTSTACK | GETRLIMIT | SETRLIMIT | UNAME | PRLIMIT64 | EXIT_GROUP | POSIX_FADVISE |
  SYNC_FILE_RANGE | READAHEAD | INOTIFY_INIT1 | INOTIFY_ADD_WATCH | INOTIFY_RM_WATCH.

Definition number_of (c : nr) : Z :=
  match c with
  | SYS_IPC_SEND => 511 | SYS_IPC_RECV => 512 | SYS_IPC_CALL => 513 | MMAP => 222 | MUNMAP => 215 | MPROTECT => 226 |
  BRK => 214 | MREMAP => 216 | MINCORE => 232 | SCHED_YIELD => 124 | EXIT => 93 | SYS_SPAWN => 510 | WAIT4 => 260 |
  WAITID => 95 | GETPID => 172 | GETPPID => 173 | EXECVE => 221 | CLONE => 220 | CLOCK_GETTIME => 113 |
  RT_SIGACTION => 134 | RT_SIGPROCMASK => 135 | RT_SIGRETURN => 139 | KILL => 129 | RT_SIGSUSPEND => 133 |
  RT_SIGTIMEDWAIT => 137 | SET_TID_ADDR => 96 | FUTEX => 98 | WRITE => 64 | READ => 63 | WRITEV => 66 | READV => 65 |
  OPENAT => 56 | CLOSE => 57 | FSTAT => 80 | NEWFSTATAT => 79 | LSEEK => 62 | IOCTL => 29 | FCNTL => 25 | PIPE2 => 59
  | FLOCK => 32 | GETDENTS64 => 61 | DUP => 23 | DUP3 => 24 | READLINKAT => 78 | PPOLL => 73 | CHDIR => 49 |
  FCHDIR => 50 | GETCWD => 17 | SETPGID => 154 | GETPGID => 155 | SETSID => 157 | GETSID => 156 | SETUID => 146 |
  SETGID => 144 | SETRESUID => 147 | SETRESGID => 149 | SETGROUPS => 159 | GETRESUID => 148 | GETRESGID => 150 |
  GETGROUPS => 158 | UMASK => 166 | MKDIRAT => 34 | UNLINKAT => 35 | RENAMEAT => 38 | RENAMEAT2 => 276 | LINKAT => 37
  | SYMLINKAT => 36 | FCHMODAT => 53 | FCHMOD => 52 | FCHOWNAT => 54 | FCHOWN => 55 | TRUNCATE => 45 | FTRUNCATE => 46
  | FACCESSAT => 48 | STATFS => 43 | FSTATFS => 44 | FSYNC => 82 | FDATASYNC => 83 | FALLOCATE => 47 | UTIMENSAT => 88
  | MKNODAT => 33 | SOCKET => 198 | BIND => 200 | LISTEN => 201 | ACCEPT => 202 | ACCEPT4 => 242 | CONNECT => 203 |
  SENDTO => 206 | RECVFROM => 207 | SENDMSG => 211 | RECVMSG => 212 | SHUTDOWN => 210 | GETSOCKNAME => 204 |
  GETPEERNAME => 205 | SOCKETPAIR => 199 | SETSOCKOPT => 208 | GETSOCKOPT => 209 | TIMER_CREATE => 107 |
  TIMER_SETTIME => 110 | TIMER_GETTIME => 108 | TIMER_DELETE => 111 | NANOSLEEP => 101 | CLOCK_NANOSLEEP => 115 |
  TIMERFD_CREATE => 85 | TIMERFD_SETTIME => 86 | TIMERFD_GETTIME => 87 | GETTIMEOFDAY => 169 | SYSINFO => 179 |
  SENDFILE => 71 | COPY_FILE_RANGE => 285 | MEMFD_CREATE => 279 | SPLICE => 76 | SETITIMER => 103 | GETITIMER => 102 |
  SIGPENDING => 136 | GETRANDOM => 278 | PRCTL => 167 | MADVISE => 233 | MSYNC => 227 | MLOCK => 228 | MUNLOCK => 229
  | MLOCKALL => 230 | MUNLOCKALL => 231 | CLOCK_GETRES => 114 | PREAD64 => 67 | PWRITE64 => 68 | TIMES => 153 |
  SELECT => 270 | PSELECT6 => 72 | EPOLL_CREATE1 => 20 | EPOLL_CTL => 21 | EPOLL_PWAIT => 22 | EPOLL_PWAIT2 => 441 |
  EVENTFD2 => 19 | SIGNALFD4 => 74 | SCHED_SETSCHEDULER => 119 | SCHED_SETPARAM => 118 | SCHED_GETSCHEDULER => 120 |
  SCHED_GETPARAM => 121 | SCHED_SETAFFINITY => 122 | SCHED_GETAFFINITY => 123 | SCHED_GET_PRIORITY_MAX => 125 |
  SCHED_GET_PRIORITY_MIN => 126 | GETRUSAGE => 165 | CAPGET => 90 | CAPSET => 91 | MEMBARRIER => 283 | RSEQ => 293 |
  STATX => 291 | OPENAT2 => 437 | CLOSE_RANGE => 436 | PIDFD_OPEN => 434 | GETUID => 174 | GETEUID => 175 |
  GETGID => 176 | GETEGID => 177 | GETTID => 178 | TGKILL => 131 | SIGALTSTACK => 132 | GETRLIMIT => 163 |
  SETRLIMIT => 164 | UNAME => 160 | PRLIMIT64 => 261 | EXIT_GROUP => 94 | POSIX_FADVISE => 223 | SYNC_FILE_RANGE => 84
  | READAHEAD => 213 | INOTIFY_INIT1 => 360 | INOTIFY_ADD_WATCH => 27 | INOTIFY_RM_WATCH => 28
  end.

(** In the order of the arms. *)
Definition all_nrs : list nr :=
  [SYS_IPC_SEND; SYS_IPC_RECV; SYS_IPC_CALL; MMAP; MUNMAP; MPROTECT; BRK; MREMAP; MINCORE; SCHED_YIELD; EXIT;
   SYS_SPAWN; WAIT4; WAITID; GETPID; GETPPID; EXECVE; CLONE; CLOCK_GETTIME; RT_SIGACTION; RT_SIGPROCMASK;
   RT_SIGRETURN; KILL; RT_SIGSUSPEND; RT_SIGTIMEDWAIT; SET_TID_ADDR; FUTEX; WRITE; READ; WRITEV; READV; OPENAT; CLOSE;
   FSTAT; NEWFSTATAT; LSEEK; IOCTL; FCNTL; PIPE2; FLOCK; GETDENTS64; DUP; DUP3; READLINKAT; PPOLL; CHDIR; FCHDIR;
   GETCWD; SETPGID; GETPGID; SETSID; GETSID; SETUID; SETGID; SETRESUID; SETRESGID; SETGROUPS; GETRESUID; GETRESGID;
   GETGROUPS; UMASK; MKDIRAT; UNLINKAT; RENAMEAT; RENAMEAT2; LINKAT; SYMLINKAT; FCHMODAT; FCHMOD; FCHOWNAT; FCHOWN;
   TRUNCATE; FTRUNCATE; FACCESSAT; STATFS; FSTATFS; FSYNC; FDATASYNC; FALLOCATE; UTIMENSAT; MKNODAT; SOCKET; BIND;
   LISTEN; ACCEPT; ACCEPT4; CONNECT; SENDTO; RECVFROM; SENDMSG; RECVMSG; SHUTDOWN; GETSOCKNAME; GETPEERNAME;
   SOCKETPAIR; SETSOCKOPT; GETSOCKOPT; TIMER_CREATE; TIMER_SETTIME; TIMER_GETTIME; TIMER_DELETE; NANOSLEEP;
   CLOCK_NANOSLEEP; TIMERFD_CREATE; TIMERFD_SETTIME; TIMERFD_GETTIME; GETTIMEOFDAY; SYSINFO; SENDFILE;
   COPY_FILE_RANGE; MEMFD_CREATE; SPLICE; SETITIMER; GETITIMER; SIGPENDING; GETRANDOM; PRCTL; MADVISE; MSYNC; MLOCK;
   MUNLOCK; MLOCKALL; MUNLOCKALL; CLOCK_GETRES; PREAD64; PWRITE64; TIMES; SELECT; PSELECT6; EPOLL_CREATE1; EPOLL_CTL;
   EPOLL_PWAIT; EPOLL_PWAIT2; EVENTFD2; SIGNALFD4; SCHED_SETSCHEDULER; SCHED_SETPARAM; SCHED_GETSCHEDULER;
   SCHED_GETPARAM; SCHED_SETAFFINITY; SCHED_GETAFFINITY; SCHED_GET_PRIORITY_MAX; SCHED_GET_PRIORITY_MIN; GETRUSAGE;
   CAPGET; CAPSET; MEMBARRIER; RSEQ; STATX; OPENAT2; CLOSE_RANGE; PIDFD_OPEN; GETUID; GETEUID; GETGID; GETEGID;
   GETTID; TGKILL; SIGALTSTACK; GETRLIMIT; SETRLIMIT; UNAME; PRLIMIT64; EXIT_GROUP; POSIX_FADVISE; SYNC_FILE_RANGE;
   READAHEAD; INOTIFY_INIT1; INOTIFY_ADD_WATCH; INOTIFY_RM_WATCH].

(** The first arm with the number. *)
Definition decode (number : Z) : option nr := find_first (λ c, number_of c =? number) all_nrs.

(** ** The state of the system *)

(** What a call can reach: the kernel and its servers, the port table, the
    futex table, and the registers saved at the entry to the kernel. *)
Record World := mkWorld {
  w_os : Os;
  w_ports : PortTable;
  w_futex : FutexTable;
  w_frame : UserFrame
}.

Definition set_os (o : Os) (w : World) : World := mkWorld o (w_ports w) (w_futex w) (w_frame w).

Definition on_os {A} (c : st Os A) : st World A := λ w,
  match c (w_os w) with Ret (a, o) => Ret (a, set_os o w) | Panic => Panic end.

Definition put_sched (s : Sched) (o : Os) : Os := set_k (SysMem.set_sched s (os_k o)) o.

(** Operations on the scheduler and one more table. *)
Definition on_ports {A} (c : st (PortTable * Sched) A) : st World A := λ w,
  match c (w_ports w, os_sched (w_os w)) with
  | Ret (a, (p, s)) => Ret (a, mkWorld (put_sched s (w_os w)) p (w_futex w) (w_frame w))
  | Panic => Panic
  end.

Definition on_futex {A} (c : FutexTable * Sched → A * (FutexTable * Sched)) : st World A := λ w,
  let '(a, (f, s)) := c (w_futex w, os_sched (w_os w)) in
  Ret (a, mkWorld (put_sched s (w_os w)) (w_ports w) f (w_frame w)).

Definition on_frame {A} (c : st (UserFrame * Sched) A) : st World A := λ w,
  match c (w_frame w, os_sched (w_os w)) with
  | Ret (a, (f, s)) => Ret (a, mkWorld (put_sched s (w_os w)) (w_ports w) (w_futex w) f)
  | Panic => Panic
  end.

(** How a call goes on after it gave up the CPU. *)
Inductive waiting :=
  | WReturn (r : Z)
  | WRecv (port msg_ptr : Z)
  | WSleep (deadline : Z)
  | WRead (fd buf count : Z)
  | WReadv (fd iov iovcnt i total base len : Z)
  | WWait (pid status : Z)
  | WWaitid (idtype id infop : Z)
  | WSuspend (new_mask old_mask : Z)
  | WTimed (mask : Z) (deadline : option Z) (info : Z)
  | WFutex.

(** What a call did: return a value, yield, end the task, or enter a new program. *)
Inductive answer := Done (r : Z) | Yields (w : waiting) | Exits | Enters (entry sp : Z).

Definition val (c : st Os Z) : st World answer := r ← on_os c; mret (Done r).

(** One round of a loop that yields. *)
Definition attempt (w : waiting) (c : st Os (option Z)) : st World answer :=
  r ← on_os c; mret (match r with Some r => Done r | None => Yields w end).

(** Where structures lie in memory. *)
Record layouts := mkLayouts {
  read_message : mem → Z → Message;
  message_bytes : Message → list Z;
  read_action : mem → Z → SigAction;
  action_bytes : SigAction → list Z
}.

Section dispatch.
Context (lay : layouts).
(** [kbuf] stands for the addresses of the handlers' buffers on the kernel's
    stack, one at a time; [ret_to_user_fork] is the code address at which a
    child enters user space. *)
Context (inflate : list Z → option (list Z)) (initrd : option (list Z)) (vfs_port ret_to_user_fork kbuf : Z).

(** ** Calls on messages *)

Definition ipc_answer (port msg_ptr : Z) (r : sysret) : st World answer :=
  match r with
  | SRet code (Some m) => on_os (store msg_ptr (message_bytes lay m)) ≫= λ _, mret (Done code)
  | SRet code None => mret (Done code)
  | SBlocked => mret (Yields (WRecv port msg_ptr))
  end.

Definition call_send (port msg_ptr : Z) : st World answer :=
  m ← st_get (λ w, read_message lay (os_mem (w_os w)) msg_ptr);
  r ← on_ports (sys_send port msg_ptr m); ipc_answer port msg_ptr r.

Definition call_recv (port msg_ptr : Z) : st World answer :=
  r ← on_ports (sys_recv port msg_ptr); ipc_answer port msg_ptr r.

(** The reply is awaited on the caller's own port. *)
Definition call_call (port msg_ptr : Z) : st World answer :=
  m ← st_get (λ w, read_message lay (os_mem (w_os w)) msg_ptr);
  r ← on_ports (sys_call port msg_ptr m);
  reply ← st_get (λ w, current_reply_port (os_sched (w_os w)));
  ipc_answer reply msg_ptr r.

(** ** Calls on signals *)

(** The old action is written before the new one is read. *)
Definition call_sigaction (signum act_ptr oldact_ptr : Z) : st World answer :=
  val (
    r ← on_os_sched (sys_rt_sigaction signum None (negb (oldact_ptr =? 0)));
    (match r.2 with Some old => store oldact_ptr (action_bytes lay old) | None => mret tt end) ≫= λ _,
    if (r.1 =? 0) && negb (act_ptr =? 0) then
      new ← st_get (λ s, read_action lay (os_mem s) act_ptr);
      r ← on_os_sched (sys_rt_sigaction signum (Some new) false); mret r.1
    else mret r.1).

Definition call_sigprocmask (how set_ptr oldset_ptr : Z) : st World answer :=
  val (
    r ← on_os_sched (st_lift (sys_sigprocmask how None));
    (match r.2 with
     | Some old => if negb (oldset_ptr =? 0) then store oldset_ptr (le_encode 8 old) else mret tt
     | None => mret tt
     end) ≫= λ _,
    if (r.1 =? 0) && negb (set_ptr =? 0) then
      set ← load_le set_ptr 8;
      r ← on_os_sched (st_lift (sys_sigprocmask how (Some set))); mret r.1
    else mret r.1).

Definition call_sigreturn (frame_ptr : Z) : st World answer :=
  if frame_ptr =? 0 then mret (Done 0)
  else
    r ← on_frame restore_signal_frame;
    mret (match r with SigExit => Exits | _ => Done 0 end).

Definition call_sigsuspend (mask_ptr : Z) : st World answer :=
  m ← on_os (sys_rt_sigsuspend_begin mask_ptr);
  attempt (WSuspend m.1 m.2) (sys_rt_sigsuspend_try m.1 m.2).

Definition call_sigtimedwait (set_ptr info_ptr timeout_ptr : Z) : st World answer :=
  m ← on_os (sys_rt_sigtimedwait_begin set_ptr timeout_ptr);
  attempt (WTimed m.1 m.2 info_ptr) (sys_rt_sigtimedwait_try m.1 m.2 info_ptr).

(** ** Tasks *)

Definition sys_futex (uaddr op val : Z) : st World answer :=
  let op := Z.land op (wnot 128) in
  if op =? 0 then
    if negb (validate_user_ptr_aligned uaddr 4 4) then mret (Done (-14))
    else
      current ← on_os (load_le uaddr 4);
      if negb (current =? u32 val) then mret (Done (-11))
      else on_futex (λ x, (tt, futex_wait_begin uaddr x)) ≫= λ _, mret (Yields WFutex)
  else if op =? 1 then r ← on_futex (futex_wake uaddr (u32 val)); mret (Done r)
  else mret (Done (-38)).

(** The scheduler's [spawn_user] creates nothing. *)
Definition spawn_user : option Z := None.

Definition sys_spawn (entry_va stack_va : Z) : Z :=
  if (entry_va =? 0) || (USER_SPACE_END <=? entry_va) then -22
  else if USER_SPACE_END <=? stack_va then -22
  else match spawn_user with Some pid => pid | None => -12 end.

Definition sys_clone_or_fork (flags child_stack tls ctid frame_ptr : Z) : st Os Z :=
  if negb (Z.land flags 0x100 =? 0) then on_os_sched (clone_thread ret_to_user_fork flags child_stack tls ctid frame_ptr)
  else
    parent_pid ← st_get os_pid;
    ret ← on_os_sched (fork_current ret_to_user_fork frame_ptr);
    (if 0 <? ret then vfs_req VFS_FORK_DUP [parent_pid; ret] ≫= λ _, mret tt else mret tt) ≫= λ _,
    mret ret.

Definition call_execve (path argv envp : Z) : st World answer :=
  r ← on_os (sys_execve inflate initrd vfs_port path argv envp);
  mret (match r with ExecErr e => Done e | ExecEnter entry sp => Enters entry sp end).

Definition call_exit (code : Z) : st World answer :=
  on_os (vfs_close_all_current ≫= λ _, on_os_sched (st_modify (exit (to_i32 code)))) ≫= λ _, mret Exits.

Definition readv_answer (fd iov iovcnt : Z) (r : readv_state) : answer :=
  match r with
  | ReadvDone r => Done r
  | ReadvAgain i total base len => Yields (WReadv fd iov iovcnt i total base len)
  | ReadvConsole base len => Yields (WRead 0 base len)
  end.

Definition call_readv (fd iov iovcnt : Z) : st World answer :=
  r ← on_os (sys_readv_try fd iov iovcnt); mret (readv_answer fd iov iovcnt r).

Definition call_nanosleep (rqtp : Z) : st World answer :=
  r ← on_os (sys_nanosleep rqtp);
  mret (match r with Awake r => Done r | Until deadline => Yields (WSleep deadline) end).

Definition call_ppoll (fds nfds timeout : Z) : st World answer :=
  r ← on_os (sys_ppoll fds nfds timeout); mret (if (r.2 : bool) then Yields (WReturn r.1) else Done r.1).

(** ** The table *)

Section arms.
Context (a0 a1 a2 a3 a4 a5 frame_ptr : Z).

Definition task_arms (c : nr) : option (st World answer) :=
  match c with
  | SYS_IPC_SEND => Some (call_send a0 a1)
  | SYS_IPC_RECV => Some (call_recv a0 a1)
  | SYS_IPC_CALL => Some (call_call a0 a1)
  | MMAP => Some (val (on_k (sys_mmap a0 a1 a2 a3 a4 a5)))
  | MUNMAP => Some (val (on_k (sys_unmap_mem a0 a1)))
  | MPROTECT => Some (val (on_k (sys_mprotect a0 a1 a2)))
  | BRK => Some (val (on_k (sys_brk a0)))
  | MREMAP => Some (val (on_k (sys_mremap a0 a1 a2 a3 a4)))
  | MINCORE => Some (mret (Done 0))
  | SCHED_YIELD => Some (mret (Yields (WReturn 0)))
  | EXIT => Some (call_exit a0)
  | SYS_SPAWN => Some (mret (Done (sys_spawn a0 a1)))
  | WAIT4 => Some (attempt (WWait a0 a1) (sys_wait_try a0 a1))
  | WAITID => Some (attempt (WWaitid a0 a1 a2) (sys_waitid_try a0 a1 a2))
  | GETPID => Some (val (st_get os_pid))
  | GETPPID => Some (val sys_getppid)
  | EXECVE => Some (call_execve a0 a1 a2)
  | CLONE => Some (val (sys_clone_or_fork a0 a1 a3 a4 frame_ptr))
  | CLOCK_GETTIME => Some (val (sys_clock_gettime a1))
  | RT_SIGACTION => Some (call_sigaction a0 a1 a2)
  | RT_SIGPROCMASK => Some (call_sigprocmask a0 a1 a2)
  | RT_SIGRETURN => Some (call_sigreturn frame_ptr)
  | KILL => Some (val (sys_kill a0 a1))
  | RT_SIGSUSPEND => Some (call_sigsuspend a0)
  | RT_SIGTIMEDWAIT => Some (call_sigtimedwait a0 a1 a2)
  | SET_TID_ADDR => Some (val (sys_set_tid_address a0))
  | FUTEX => Some (sys_futex a0 a1 a2)
  | _ => None
  end.

Definition file_arms (c : nr) : option (st World answer) :=
  match c with
  | WRITE => Some (val (sys_write a0 a1 a2))
  | READ => Some (attempt (WRead a0 a1 a2) (sys_read_try a0 a1 a2))
  | WRITEV => Some (val (sys_writev a0 a1 a2))
  | READV => Some (call_readv a0 a1 a2)
  | OPENAT => Some (val (sys_openat kbuf a1 a2 a3))
  | CLOSE => Some (val (sys_close a0))
  | FSTAT => Some (val (sys_fstat a0 a1))
  | NEWFSTATAT => Some (val (sys_newfstatat a1 a2))
  | LSEEK => Some (val (sys_lseek a0 a1 a2))
  | IOCTL => Some (val (sys_ioctl a0 a1 a2))
  | FCNTL => Some (val (sys_fcntl a0 a1 a2))
  | PIPE2 => Some (val (sys_pipe2 a0))
  | FLOCK => Some (mret (Done 0))
  | GETDENTS64 => Some (val (sys_getdents64 a0 a1 a2))
  | DUP => Some (val (sys_dup a0))
  | DUP3 => Some (val (sys_dup3 a0 a1))
  | READLINKAT => Some (val (sys_readlinkat a1 a2 a3))
  | PPOLL => Some (call_ppoll a0 a1 a2)
  | CHDIR => Some (val (sys_chdir kbuf a0))
  | FCHDIR => Some (mret (Done (sys_fchdir a0)))
  | GETCWD => Some (val (sys_getcwd a0 a1))
  | SETPGID => Some (val (sys_setpgid a0 a1))
  | GETPGID => Some (val (sys_getpgid a0))
  | SETSID => Some (val (on_os_sched (st_lift setsid)))
  | GETSID => Some (val (st_get (λ s, current_sid (os_sched s))))
  | SETUID | SETGID | SETRESUID | SETRESGID | SETGROUPS => Some (mret (Done 0))
  | GETRESUID => Some (val (sys_getresxid a0 a1 a2))
  | GETRESGID => Some (val (sys_getresxid a0 a1 a2))
  | GETGROUPS => Some (mret (Done 0))
  | UMASK => Some (val (on_os_sched (st_lift (umask (u32 a0)))))
  | MKDIRAT => Some (val (sys_mkdirat a1))
  | UNLINKAT => Some (val (sys_unlinkat a1))
  | RENAMEAT | RENAMEAT2 => Some (val (sys_renameat a1 a2))
  | LINKAT | SYMLINKAT => Some (mret (Done (-30)))
  | FCHMODAT | FCHMOD | FCHOWNAT | FCHOWN => Some (mret (Done 0))
  | TRUNCATE => Some (val (sys_truncate a0 a1))
  | FTRUNCATE => Some (val (sys_os_ftruncate a0 a1))
  | FACCESSAT => Some (val (sys_faccessat a1))
  | STATFS | FSTATFS => Some (val (sys_statfs a1))
  | FSYNC | FDATASYNC | FALLOCATE | UTIMENSAT => Some (mret (Done 0))
  | MKNODAT => Some (mret (Done (-30)))
  | _ => None
  end.

Definition net_time_arms (c : nr) : option (st World answer) :=
  match c with
  | SOCKET => Some (val (sys_socket a0 a1 a2))
  | BIND => Some (val (sys_bind a0 a1 a2))
  | LISTEN => Some (val (sys_listen a0 a1))
  | ACCEPT | ACCEPT4 => Some (val (sys_accept a0 a1 a2))
  | CONNECT => Some (val (sys_connect a0 a1 a2))
  | SENDTO => Some (val (sys_sendto a0 a1 a2 a3 a4 a5))
  | RECVFROM => Some (val (sys_recvfrom a0 a1 a2 a3 a4 a5))
  | SENDMSG => Some (val (sys_sendmsg a0 a1 a2))
  | RECVMSG => Some (val (sys_recvmsg a0 a1 a2))
  | SHUTDOWN => Some (val (sys_net_shutdown a0 a1))
  | GETSOCKNAME => Some (val (sys_getsockname a0 a1 a2))
  | GETPEERNAME => Some (val (sys_getpeername a0 a1 a2))
  | SOCKETPAIR => Some (val (sys_socketpair a0 a1 a2 a3))
  | SETSOCKOPT => Some (val (sys_setsockopt a0 a1 a2 a3 a4))
  | GETSOCKOPT => Some (val (sys_getsockopt a0 a1 a2 a3 a4))
  | TIMER_CREATE => Some (val (sys_timer_create a1 a2))
  | TIMER_SETTIME => Some (val (sys_timer_settime a0 a2 a3))
  | TIMER_GETTIME => Some (val (sys_timer_gettime a0 a1))
  | TIMER_DELETE => Some (val (sys_timer_delete a0))
  | NANOSLEEP => Some (call_nanosleep a0)
  | CLOCK_NANOSLEEP => Some (call_nanosleep a2)
  | TIMERFD_CREATE => Some (val sys_timerfd_create)
  | TIMERFD_SETTIME => Some (val (sys_timerfd_settime a0 a2))
  | TIMERFD_GETTIME => Some (val (sys_timerfd_gettime a0 a1))
  | GETTIMEOFDAY => Some (val (sys_gettimeofday a0 a1))
  | SYSINFO => Some (val (sys_sysinfo a0))
  | SENDFILE => Some (val (sys_sendfile kbuf a0 a1 a2 a3))
  | COPY_FILE_RANGE => Some (val (sys_sendfile kbuf a0 a2 a4 a5))
  | MEMFD_CREATE => Some (val (sys_memfd_create kbuf a0))
  | SPLICE => Some (val (sys_sendfile kbuf a1 a3 0 a4))
  | SETITIMER => Some (val (sys_setitimer kbuf a0 a1 a2))
  | GETITIMER => Some (val (sys_getitimer a0 a1))
  | SIGPENDING => Some (val (sys_sigpending a0))
  | GETRANDOM => Some (val (sys_getrandom a0 a1))
  | PRCTL => Some (val (sys_prctl a0 a1))
  | MADVISE | MSYNC | MLOCK | MUNLOCK | MLOCKALL | MUNLOCKALL => Some (mret (Done 0))
  | CLOCK_GETRES => Some (val (sys_clock_getres a1))
  | PREAD64 => Some (val (on_k (sys_pread64 a0 a1 a2 a3)))
  | PWRITE64 => Some (val (on_k (sys_pwrite64 a0 a1 a2 a3)))
  | TIMES => Some (val (sys_times a0))
  | _ => None
  end.

Definition misc_arms (c : nr) : option (st World answer) :=
  match c with
  | SELECT | PSELECT6 => Some (val (sys_select a0 a1 a2))
  | EPOLL_CREATE1 => Some (val sys_epoll_create1)
  | EPOLL_CTL => Some (val (sys_epoll_ctl a0 a1 a2 a3))
  | EPOLL_PWAIT | EPOLL_PWAIT2 => Some (val (sys_epoll_wait a0 a1 a2))
  | EVENTFD2 => Some (val (sys_eventfd2 a0))
  | SIGNALFD4 => Some (mret (Done (-38)))
  | SCHED_SETSCHEDULER | SCHED_SETPARAM | SCHED_GETSCHEDULER => Some (mret (Done 0))
  | SCHED_GETPARAM => Some (val (sys_sched_getparam a1))
  | SCHED_SETAFFINITY => Some (mret (Done 0))
  | SCHED_GETAFFINITY => Some (val (sys_sched_getaffinity a1 a2))
  | SCHED_GET_PRIORITY_MAX | SCHED_GET_PRIORITY_MIN => Some (mret (Done 0))
  | GETRUSAGE => Some (val (sys_getrusage a1))
  | CAPGET => Some (val (sys_capget a1))
  | CAPSET | MEMBARRIER => Some (mret (Done 0))
  | RSEQ => Some (mret (Done (-38)))
  | STATX => Some (val (sys_statx kbuf a1 a4))
  | OPENAT2 => Some (val (sys_openat kbuf a1 a2 a3))
  | CLOSE_RANGE => Some (val (sys_close_range a0 a1))
  | PIDFD_OPEN => Some (mret (Done (-38)))
  | GETUID | GETEUID | GETGID | GETEGID => Some (mret (Done 0))
  | GETTID => Some (val (st_get os_pid))
  | TGKILL => Some (val (sys_tgkill a1 a2))
  | SIGALTSTACK => Some (val (sys_sigaltstack a1))
  | GETRLIMIT => Some (val (sys_getrlimit a1))
  | SETRLIMIT => Some (mret (Done 0))
  | UNAME => Some (val (sys_uname a0))
  | PRLIMIT64 => Some (val (sys_prlimit64 a3))
  | EXIT_GROUP => Some (call_exit a0)
  | POSIX_FADVISE | SYNC_FILE_RANGE | READAHEAD => Some (mret (Done 0))
  | INOTIFY_INIT1 | INOTIFY_ADD_WATCH | INOTIFY_RM_WATCH => Some (mret (Done (-38)))
  | _ => None
  end.

Definition arm (c : nr) : st World answer :=
  match task_arms c, file_arms c, net_time_arms c, misc_arms c with
  | Some h, _, _, _ | None, Some h, _, _ | None, None, Some h, _ | None, None, None, Some h => h
  | None, None, None, None => mret (Done (-38))
  end.

Definition dispatch_inner (number : Z) : st World answer :=
  match decode number with Some c => arm c | None => mret (Done (-38)) end.
End arms.

(** ** After the call *)

(** [check_timers] before the return to user space. *)
Definition finish (a : answer) : st World answer :=
  match a with
  | Done r =>
      on_os (st_modify (λ s,
        let '(y, sc) := check_timers (os_pid s) (os_tty s, os_sched s) in put_sched sc (set_tty y s))) ≫= λ _,
      mret (Done r)
  | _ => mret a
  end.

Definition dispatch (number a0 a1 a2 a3 a4 a5 frame_ptr : Z) : st World answer :=
  a ← dispatch_inner a0 a1 a2 a3 a4 a5 frame_ptr number; finish a.

(** What a task that yielded does when it runs again. *)
Definition resume (w : waiting) : st World answer :=
  a ← match w with
      | WReturn r => mret (Done r)
      | WRecv port msg_ptr => r ← on_ports (sys_recv_resume port); ipc_answer port msg_ptr r
      | WSleep deadline => st_get (λ w, if nanosleep_done deadline (w_os w) then Done 0 else Yields (WSleep deadline))
      | WRead fd buf count => attempt (WRead fd buf count) (sys_read_again fd buf count)
      | WReadv fd iov iovcnt i total base len =>
          r ← on_os (sys_readv_again fd iov iovcnt i total base len); mret (readv_answer fd iov iovcnt r)
      | WWait pid status => attempt (WWait pid status) (sys_wait_try pid status)
      | WWaitid idtype id infop => attempt (WWaitid idtype id infop) (sys_waitid_try idtype id infop)
      | WSuspend new_mask old_mask => attempt (WSuspend new_mask old_mask) (sys_rt_sigsuspend_try new_mask old_mask)
      | WTimed mask deadline info => attempt (WTimed mask deadline info) (sys_rt_sigtimedwait_try mask deadline info)
      | WFutex => r ← on_futex futex_wait_end; mret (Done r)
      end;
  finish a.
End dispatch.
