(* ===== verification/SysInv.v ===== *)
(** * The invariant of the whole kernel

    Every system call, whatever its number and its arguments, keeps the
    invariants of the scheduler, of the VFS server and of the network server,
    and so does every later attempt of a call that had to wait. *)

From Stdlib Require Import ZArith Lia.
From stdpp Require Import base list option numbers.
From S2P Require Import Prelude Words Buddy Memory Vmm IpcPort Cpio VfsData Vfs VfsInv VfsTotal Tty Net NetInv NetStep Task RunQueue Sched SchedInv SchedSpec Futex Signal Clone SysIpc SysMem SysPath SysOs SysFile SysFileSpec SysInfo SysEpoll Execve SysDispatch.

Local Open Scope Z_scope.

Create HintDb keeps.

(** ** Steps of the scheduler *)

(** The task that has the CPU has not exited. *)
Definition live (s : Sched) : Prop := ∀ i t, task_at s i t → t_pid t = sc_cur s → t_state t ≠ Zombie.

Lemma live_alive s : sched_wf s → live s → alive s = true.
Proof.
  intros [Hok _] H. unfold alive. destruct (current_task s) as [t|] eqn:Ht; [|done]. apply bool_decide_eq_true.
  unfold current_task in Ht. apply (find_pid_task _ _ _ _ Hok) in Ht as (i & Hi & Hp). by apply (H i t).
Qed.

Lemma live_update_pid pid f s : (∀ t, t_pid (f t) = t_pid t) → (∀ t, t_state t ≠ Zombie → t_state (f t) ≠ Zombie) →
  live s → live (update_pid pid f s).
Proof.
  intros Hp Hf Hl i t'. rewrite update_pid_idx. destruct (find_pid_idx pid (sc_rq s)) as [j|]; [|apply Hl].
  intros (o & Ho & Heq)%at_idx_lookup. destruct (i =? j)%nat; [|subst o; by apply (Hl i)].
  destruct o as [t|]; [|discriminate Heq]. injection Heq as ->. rewrite Hp. intros Hc. by apply Hf, (Hl i).
Qed.

(** A step that leaves the scheduler well-formed, hands out no identifier and
    does not end the task. *)
Record kept (s s' : Sched) : Prop := {
  ke_wf : sched_wf s';
  ke_next : sc_next_pid s' = sc_next_pid s;
  ke_ctx : sc_ctx s' = sc_ctx s;
  ke_live : live s → live s'
}.

Lemma kept_refl s : sched_wf s → kept s s.
Proof. by split. Qed.

Lemma kept_trans s1 s2 s3 : kept s1 s2 → kept s2 s3 → kept s1 s3.
Proof. intros [? ? ? ?] [? ? ? ?]. split; [done|congruence|congruence|auto]. Qed.

Lemma kept_kmem k s : sched_wf s → kept s (set_kmem k s).
Proof. intros Hs. split; [|done..]. apply (quiet_wf s); [apply quiet_kmem|done]. Qed.

Lemma kept_update_current f s : sched_wf s → (∀ t, t_pid (f t) = t_pid t) → (∀ t, t_state t ≠ Zombie → t_state (f t) ≠ Zombie) →
  kept s (update_current f s).
Proof. intros Hs Hp Hf. split; [by apply update_current_wf|done|done|by apply live_update_pid]. Qed.

Lemma kept_update_pid pid f s : sched_wf s → (∀ t, t_pid (f t) = t_pid t) → (∀ t, t_state (f t) = t_state t ∨ t_state (f t) = Ready) →
  kept s (update_pid pid f s).
Proof.
  intros Hs Hp Hf. split; [by apply update_pid_wf|done|done|apply live_update_pid; [done|]].
  intros t Ht. destruct (Hf t) as [-> | ->]; [done|discriminate].
Qed.

Definition sched_keeps {A} (c : st Sched A) : Prop := ∀ s, sched_wf s → wlp c (λ _, kept s) s.

Lemma sched_keeps_bind {A B} (c : st Sched A) (f : A → st Sched B) :
  sched_keeps c → (∀ a, sched_keeps (f a)) → sched_keeps (c ≫= f).
Proof.
  intros Hc Hf s Hs. apply wlp_bind. eapply wlp_mono; [by apply Hc|]. intros a s1 H1.
  eapply wlp_mono; [apply Hf, H1|]. intros b s2. by apply kept_trans.
Qed.

Lemma sched_keeps_ret {A} (a : A) : sched_keeps (mret a).
Proof. intros s Hs. by apply kept_refl. Qed.

Lemma sched_keeps_get {A} (f : Sched → A) : sched_keeps (st_get f).
Proof. intros s Hs. by apply kept_refl. Qed.

Lemma sched_keeps_kmem {A} (c : st kmem A) : sched_keeps (with_kmem c).
Proof. intros s Hs. unfold wlp, with_kmem. destruct (c _) as [[a k]|]; [by apply kept_kmem|done]. Qed.

Lemma sched_keeps_with_as {A} (c : st (kmem * AddressSpace) A) a : sched_keeps (with_as c a).
Proof. intros s Hs. unfold wlp, with_as. destruct (c _) as [[r [k a']]|]; [by apply kept_kmem|done]. Qed.

Lemma sched_keeps_as {A} (c : st (kmem * AddressSpace) A) : sched_keeps (with_current_address_space_mut c).
Proof.
  intros s Hs. unfold wlp, with_current_address_space_mut. destruct (mbind _ _) as [a|]; [|by apply kept_refl].
  destruct (c _) as [[r [k a']]|]; [|done]. eapply kept_trans; [by apply (kept_update_current (with_address_space (Some a')))|].
  apply kept_kmem. by apply update_current_wf.
Qed.

Lemma sched_keeps_update f : (∀ t, t_pid (f t) = t_pid t) → (∀ t, t_state t ≠ Zombie → t_state (f t) ≠ Zombie) →
  sched_keeps (st_modify (update_current f)).
Proof. intros Hp Hf s Hs. by apply kept_update_current. Qed.

Lemma sched_keeps_unblock port : sched_keeps (st_modify (sched_unblock_port port)).
Proof.
  intros s Hs. split; [exact (quiet_wf s _ (quiet_unblock _ _ _) Hs)|done|done|]. intros Hl i t' Ht' Hc.
  destruct (qu_back _ _ _ (quiet_unblock None port s) i t' Ht') as (t & Ht & Hp & [[=]|[-> | ->]]); [|discriminate].
  apply (Hl i t Ht). by rewrite <- Hp.
Qed.

Lemma sched_keeps_signal pid signo : sched_keeps (st_lift (deliver_signal pid signo)).
Proof.
  intros s Hs. unfold wlp, st_lift, deliver_signal. destruct (find_pid _ _); [|by apply kept_refl]. case_bool; [|by apply kept_refl].
  apply kept_update_pid; [done|..]; intros t'; unfold wake_blocked; case_bool_decide; auto.
Qed.

Lemma sched_keeps_clear signo : sched_keeps (st_modify (clear_pending_signal signo)).
Proof. intros s Hs. unfold wlp, st_modify, clear_pending_signal. case_bool; [by apply kept_update_current|by apply kept_refl]. Qed.

Lemma sched_keeps_mask mask : sched_keeps (st_lift (replace_signal_mask mask)).
Proof. intros s Hs. unfold wlp, st_lift, replace_signal_mask. destruct (current_task s); [by apply kept_update_current|by apply kept_refl]. Qed.

Lemma sched_keeps_cwd path : sched_keeps (st_lift (set_cwd path)).
Proof. intros s Hs. unfold wlp, st_lift, set_cwd. destruct (current_task s); [by apply kept_update_current|by apply kept_refl]. Qed.

Lemma sched_keeps_pgid pid pgid : sched_keeps (st_lift (set_pgid pid pgid)).
Proof. intros s Hs. unfold wlp, st_lift, set_pgid. destruct (find_pid _ _); [apply kept_update_pid; auto|by apply kept_refl]. Qed.

Lemma sched_keeps_setsid : sched_keeps (st_lift setsid).
Proof. intros s Hs. unfold wlp, st_lift, setsid. destruct (current_task s); [by apply kept_update_current|by apply kept_refl]. Qed.

Lemma sched_keeps_umask mask : sched_keeps (st_lift (umask mask)).
Proof.
  intros s Hs. unfold wlp, st_lift, umask. destruct (current_task s); [|by apply kept_refl].
  case_bool; [by apply kept_refl|by apply kept_update_current].
Qed.

Lemma sched_keeps_tid addr : sched_keeps (st_modify (set_clear_child_tid addr)).
Proof. by apply sched_keeps_update. Qed.

Lemma sched_keeps_exec a pt heap : sched_keeps (replace_address_space a pt heap).
Proof.
  unfold replace_address_space. apply sched_keeps_bind; [apply sched_keeps_get|intros [t|]; [|apply sched_keeps_ret]].
  apply sched_keeps_bind; [apply sched_keeps_kmem|intros []]. by apply sched_keeps_update.
Qed.

#[export] Hint Resolve sched_keeps_ret sched_keeps_get sched_keeps_kmem sched_keeps_with_as sched_keeps_as
  sched_keeps_unblock sched_keeps_signal sched_keeps_clear sched_keeps_mask sched_keeps_cwd sched_keeps_pgid sched_keeps_setsid
  sched_keeps_umask sched_keeps_tid sched_keeps_exec : keeps.

(** Destruct what a computation is, down to the operations of the database;
    [keeps] unfolds the definitions on the way. *)
Ltac head_of c := lazymatch c with ?f _ => head_of f | _ => c end.
Ltac unfold_head c := let h := head_of c in progress unfold h.
Ltac keeps_bind := fail.
Ltac keeps_step :=
  match goal with
  | |- _ => solve [auto with keeps]
  | |- sched_keeps (mbind _ _) => apply sched_keeps_bind; [|intros ?]
  | |- _ => keeps_bind
  | |- _ (match ?x with _ => _ end) => destruct x
  | |- _ (let x := _ in _) => progress cbv zeta
  | |- _ ?c => unfold_head c; cbv beta zeta
  end.
Ltac keeps := repeat keeps_step.

Lemma sched_keeps_panic {A} : sched_keeps (st_panic : st Sched A).
Proof. done. Qed.

Lemma sched_keeps_assert b : sched_keeps (st_assert b).
Proof. destruct b; [apply sched_keeps_ret|done]. Qed.

Lemma sched_keeps_index {A} (l : list A) i : sched_keeps (st_index l i).
Proof. unfold st_index. destruct (l !! i); [apply sched_keeps_ret|done]. Qed.
#[export] Hint Resolve sched_keeps_panic sched_keeps_assert sched_keeps_index : keeps.

Lemma sched_keeps_sigaction signum new old : sched_keeps (sys_rt_sigaction signum new old).
Proof.
  unfold sys_rt_sigaction, sys_sigaction. keeps.
  by apply sched_keeps_update.
Qed.

Lemma sched_keeps_sigprocmask how set : sched_keeps (st_lift (sys_sigprocmask how set)).
Proof.
  intros s Hs. unfold wlp, st_lift, sys_sigprocmask.
  destruct (current_task s) as [t|]; [|by apply kept_refl]. destruct set as [x|]; [|by apply kept_refl].
  repeat case_bool; try (by apply kept_refl); by apply kept_update_current.
Qed.

Lemma sched_keeps_image elf : sched_keeps (exec_image elf).
Proof. unfold exec_image. keeps. Qed.

Lemma sched_keeps_stack argv envp port a : sched_keeps (exec_stack argv envp port a).
Proof. unfold exec_stack. keeps. Qed.
#[export] Hint Resolve sched_keeps_sigaction sched_keeps_sigprocmask sched_keeps_image sched_keeps_stack : keeps.

(** ** New tasks *)

(** One identifier may be handed out. *)
Record kept1 (s s' : Sched) : Prop := {
  k1_wf : sched_wf s';
  k1_next : sc_next_pid s ≤ sc_next_pid s' ≤ sc_next_pid s + 1;
  k1_ctx : sc_ctx s' = sc_ctx s;
  k1_live : live s → live s'
}.

Lemma kept_kept1 s s' : kept s s' → kept1 s s'.
Proof. intros [? Hn ? ?]. split; [done|lia|done|done]. Qed.

Lemma kept_trans1 s1 s2 s3 : kept s1 s2 → kept1 s2 s3 → kept1 s1 s3.
Proof. intros [? Hn ? ?] [? ? ? ?]. split; [done|lia|congruence|auto]. Qed.

Lemma kept1_trans s1 s2 s3 : kept1 s1 s2 → kept s2 s3 → kept1 s1 s3.
Proof. intros [? ? ? ?] [? Hn ? ?]. split; [done|lia|congruence|auto]. Qed.

Definition sched_may_spawn {A} (c : st Sched A) : Prop := ∀ s, sched_wf s → sc_next_pid s + 1 < 2^32 → wlp c (λ _, kept1 s) s.

Lemma sched_spawn_keeps {A} (c : st Sched A) : sched_keeps c → sched_may_spawn c.
Proof. intros Hc s Hs Hn. eapply wlp_mono; [by apply Hc|]. intros a s'. apply kept_kept1. Qed.

Lemma sched_spawn_bind {A B} (c : st Sched A) (f : A → st Sched B) :
  sched_keeps c → (∀ a, sched_may_spawn (f a)) → sched_may_spawn (c ≫= f).
Proof.
  intros Hc Hf s Hs Hn. apply wlp_bind. eapply wlp_mono; [by apply Hc|].
  intros a s1 H1. eapply wlp_mono; [apply Hf; [apply H1|rewrite (ke_next _ _ H1); lia]|]. intros b s2. by apply kept_trans1.
Qed.

Lemma alloc_pid_spawns {A} (f : Z → st Sched A) :
  (∀ pid s, sched_wf s → fresh_pid pid s → wlp (f pid) (λ _, kept s) s) → sched_may_spawn (st_lift alloc_pid ≫= f).
Proof.
  intros Hf s Hs Hn. apply wlp_bind. unfold st_lift, wlp at 1. destruct (alloc_pid s) as [pid s1] eqn:Ha.
  destruct (alloc_pid_wf _ _ _ Hs Hn Ha) as (Hs1 & Hp & Hn1). eapply wlp_mono; [by apply Hf|].
  intros a s2. apply kept1_trans. injection Ha as <- <-. split; [done|lia|done|done].
Qed.

Lemma enqueue_kept task s b rq' : sched_wf s → enqueue task (sc_rq s) = (b, rq') → t_state task = Ready →
  fresh_pid (t_pid task) s → kept s (on_rq (λ _, rq') s).
Proof.
  intros Hs He Hr Hp. split; [by eapply enqueue_sched_wf|done|done|]. intros Hl i t Ht Hc.
  destruct (enqueue_at _ _ _ _ i t He Ht) as [Hi|[-> _]]; [by apply (Hl i)|]. by rewrite Hr.
Qed.

Lemma enqueue_or_free_kept task stack order s : sched_wf s → t_state task = Ready → fresh_pid (t_pid task) s →
  wlp (enqueue_or_free task stack order) (λ _, kept s) s.
Proof.
  intros Hs Hr Hp. unfold enqueue_or_free. apply wlp_bind. unfold st_lift, wlp at 1.
  destruct (enqueue task (sc_rq s)) as [ok rq'] eqn:He. pose proof (enqueue_kept _ _ _ _ Hs He Hr Hp) as Hk.
  assert (∀ c, sched_keeps c → wlp c (λ _ : option Z, kept s) (on_rq (λ _, rq') s)) as Hc.
  { intros c Hc. eapply wlp_mono; [apply Hc, Hk|]. intros a s2. by apply kept_trans. }
  apply Hc. destruct ok; keeps.
Qed.

Lemma spawn_fork_finish ret fp pid stack pt a : sched_may_spawn (fork_finish ret fp pid stack pt a).
Proof.
  unfold fork_finish, fork_undo. do 3 (apply sched_spawn_bind; [auto with keeps|intros ?]).
  destruct a2 as [t|]; [|apply sched_spawn_keeps; keeps].
  apply alloc_pid_spawns. intros child s Hs Hp. apply wlp_bind. unfold st_lift, wlp at 1.
  destruct (enqueue _ (sc_rq s)) as [ok rq] eqn:He. pose proof (enqueue_kept _ _ _ _ Hs He eq_refl Hp) as Hk.
  assert (∀ c, sched_keeps c → wlp c (λ _ : Z, kept s) (on_rq (λ _, rq) s)) as Hc.
  { intros c Hc. eapply wlp_mono; [apply Hc, Hk|]. intros b s2. by apply kept_trans. }
  apply Hc. destruct ok; keeps.
Qed.

Lemma spawn_fork ret fp : sched_may_spawn (fork_current ret fp).
Proof.
  unfold fork_current, alloc_stack, fork_undo.
  repeat match goal with
  | |- sched_may_spawn (fork_finish _ _ _ _ _ _) => apply spawn_fork_finish
  | |- sched_may_spawn (match ?x with _ => _ end) => destruct x
  | |- sched_may_spawn (mbind _ _) => apply sched_spawn_bind; [solve [keeps]|intros ?]
  | |- _ => apply sched_spawn_keeps; solve [keeps]
  end.
Qed.

Lemma spawn_clone ret flags stack tls ctid fp : sched_may_spawn (clone_thread ret flags stack tls ctid fp).
Proof.
  unfold clone_thread, alloc_stack. apply sched_spawn_bind; [keeps|intros pid]. case_bool; [apply sched_spawn_keeps; keeps|].
  apply sched_spawn_bind; [keeps|intros o]. destruct o as [base|]; [|apply sched_spawn_keeps; keeps].
  do 3 (apply sched_spawn_bind; [keeps|intros ?]). destruct a1 as [t|]; [|apply sched_spawn_keeps; keeps].
  apply alloc_pid_spawns. intros child s Hs Hp. apply wlp_bind.
  apply (wlp_mono _ (λ _ s', ∃ k, s' = set_kmem k s)).
  { destruct (ctid_phys flags ctid t); [by eexists|exists (sc_kmem s); by destruct s]. }
  intros [] s1 [k ->]. pose proof (kept_kmem k s Hs) as Hk. apply wlp_bind. eapply wlp_mono.
  - apply enqueue_or_free_kept; [apply Hk|by unfold thread_child; case_bool|].
    unfold thread_child. case_bool; by apply (fresh_pid_quiet (sc_ctx s) child s); [apply quiet_kmem|].
  - intros r s2. by apply kept_trans.
Qed.

Lemma enqueue_or_free_from task stack order s0 s : kept s0 s → t_state task = Ready → fresh_pid (t_pid task) s →
  wlp (enqueue_or_free task stack order) (λ _, kept s0) s.
Proof.
  intros Hk Hr Hp. eapply wlp_mono; [apply enqueue_or_free_kept; [apply Hk|done..]|]. intros r s2. by apply kept_trans.
Qed.

Lemma spawn_user ret entry sp a : sched_may_spawn (spawn_user_with_address_space ret entry sp a).
Proof.
  apply alloc_pid_spawns. intros pid s Hs Hp. apply wlp_bind. unfold with_kmem at 1, wlp at 1.
  destruct (k_alloc 4 (sc_kmem s)) as [[[base|] k]|]; [|eapply wlp_mono|done].
  - apply wlp_bind. unfold st_get, wlp at 1. apply wlp_bind. unfold with_kmem, wlp at 1.
    unfold new_userspace, mbind, st_bind, CpuContext_new_user_task, st_modify, mret, st_ret.
    refine (enqueue_or_free_from _ _ _ s (set_kmem _ (set_kmem k s)) _ _ _); [|done|].
    + apply (kept_kmem _ s Hs).
    + by apply (fresh_pid_quiet (sc_ctx s) pid s); [apply (quiet_kmem (sc_ctx s) _ s)|].
  - assert (sched_keeps (with_kmem (drop_as a) ≫= λ _, mret (M := st Sched) (None : option Z))) as Hk by keeps.
    apply Hk, (kept_kmem _ s Hs).
  - intros r s2. by apply kept_trans, (kept_kmem _ s Hs).
Qed.

(** ** The kernel and its servers *)

Record kern_kept (k k' : Kernel) : Prop := {
  kk_vfs : vfs_wf (kn_vfs k');
  kk_sched : kept (kn_sched k) (kn_sched k')
}.

Definition kern_keeps {A} (c : st Kernel A) : Prop := ∀ k, vfs_wf (kn_vfs k) → sched_wf (kn_sched k) → wlp c (λ _, kern_kept k) k.

(** The invariant. *)
Record os_wf (s : Os) : Prop := {
  ow_vfs : vfs_wf (kn_vfs (os_k s));
  ow_sched : sched_wf (os_sched s);
  ow_net : net_wf (os_net s);
  ow_epoll : length (os_epoll s) = MAX_EPOLL_INSTANCES
}.

Record os_kept (s s' : Os) : Prop := {
  ok_wf : os_wf s';
  ok_sched : kept (os_sched s) (os_sched s')
}.

Lemma os_kept_trans s1 s2 s3 : os_kept s1 s2 → os_kept s2 s3 → os_kept s1 s3.
Proof. intros [? ?] [? ?]. split; [done|by eapply kept_trans]. Qed.

(** The parts other than the scheduler. *)
Lemma os_kept_same s s' : os_wf s → os_sched s' = os_sched s → vfs_wf (kn_vfs (os_k s')) → net_wf (os_net s') →
  length (os_epoll s') = MAX_EPOLL_INSTANCES → os_kept s s'.
Proof. intros Hs Hk Hv Hn He. split; [split; try done|]; rewrite Hk; [apply Hs|apply kept_refl, Hs]. Qed.

Definition os_keeps {A} (c : st Os A) : Prop := ∀ s, os_wf s → wlp c (λ _, os_kept s) s.

Lemma kern_keeps_bind {A B} (c : st Kernel A) (f : A → st Kernel B) :
  kern_keeps c → (∀ a, kern_keeps (f a)) → kern_keeps (c ≫= f).
Proof.
  intros Hc Hf k Hv Hs. apply wlp_bind. eapply wlp_mono; [by apply Hc|]. intros a k1 [Hv1 Hk1].
  eapply wlp_mono; [apply Hf; [done|apply Hk1]|]. intros b k2 [? ?]. split; [done|by eapply kept_trans].
Qed.

Lemma os_keeps_bind {A B} (c : st Os A) (f : A → st Os B) : os_keeps c → (∀ a, os_keeps (f a)) → os_keeps (c ≫= f).
Proof.
  intros Hc Hf s Hs. apply wlp_bind. eapply wlp_mono; [by apply Hc|]. intros a s1 H1.
  eapply wlp_mono; [apply Hf, H1|]. intros b s2. by apply os_kept_trans.
Qed.

Lemma kern_keeps_ret {A} (a : A) : kern_keeps (mret a).
Proof. intros k Hv Hs. split; [done|by apply kept_refl]. Qed.
Lemma os_keeps_ret {A} (a : A) : os_keeps (mret a).
Proof. intros s Hs. split; [done|apply kept_refl, Hs]. Qed.
Lemma os_keeps_get {A} (f : Os → A) : os_keeps (st_get f).
Proof. intros s Hs. split; [done|apply kept_refl, Hs]. Qed.

Lemma kern_keeps_sched {A} (c : st Sched A) : sched_keeps c → kern_keeps (SysMem.on_sched c).
Proof.
  intros Hc k Hv Hs. specialize (Hc _ Hs). unfold wlp, SysMem.on_sched in *.
  by destruct (c (kn_sched k)) as [[a s']|]; [split|].
Qed.

Lemma os_keeps_k {A} (c : st Kernel A) : kern_keeps c → os_keeps (on_k c).
Proof.
  intros Hc s [Hv Hs Hn He]. specialize (Hc _ Hv Hs). unfold wlp, on_k in *.
  destruct (c (os_k s)) as [[a k']|]; [|done]. destruct Hc as [? Hk]. split; [|done]. split; try done. apply Hk.
Qed.

Lemma os_keeps_sched {A} (c : st Sched A) : sched_keeps c → os_keeps (on_os_sched c).
Proof. intros Hc. by apply os_keeps_k, kern_keeps_sched. Qed.

Lemma make_vfs_msg_ok t args : msg_ok (make_vfs_msg t args).
Proof.
  unfold msg_ok, make_vfs_msg. cbn [data]. apply Forall_take, Forall_app. split.
  - induction (take 7 args) as [|a l IH]; [by apply Forall_nil|]. cbn [fmap list_fmap mjoin list_join].
    apply Forall_app. split; [apply le_encode_bytes|done].
  - apply Forall_replicate. unfold is_byte. lia.
Qed.

Lemma kern_keeps_vfs t args : kern_keeps (vfs_call t args).
Proof.
  intros k Hv Hs. unfold wlp, vfs_call. destruct (Vfs.handle _ _ _) as [[m v]|] eqn:Hh; [|done].
  split; [|by apply kept_refl]. eapply handle_wf; [|apply make_vfs_msg_ok|exact Hh]. by apply vfs_now_wf.
Qed.

Lemma kern_keeps_bump n : kern_keeps (bump n).
Proof. intros k Hv Hs. split; [done|by apply kept_refl]. Qed.
#[export] Hint Resolve kern_keeps_ret os_keeps_ret os_keeps_get kern_keeps_sched os_keeps_k os_keeps_sched kern_keeps_vfs
  kern_keeps_bump : keeps.

Lemma kern_keeps_as {A} (c : st (kmem * AddressSpace) A) : kern_keeps (on_as c).
Proof. unfold on_as. auto with keeps. Qed.

Lemma os_keeps_vfs t args : os_keeps (vfs_req t args).
Proof. unfold vfs_req. auto with keeps. Qed.

Lemma os_keeps_mem f : os_keeps (write_mem f).
Proof. intros s Hs. apply os_kept_same; try done; try apply Hs. apply poke_wf, Hs. Qed.

Lemma os_keeps_net t args : os_keeps (net_req t args).
Proof.
  intros s Hs. unfold wlp, net_req.
  destruct (handle_answers None (os_pid s) (on_n_mem (λ _, os_mem s) (os_net s)) (make_vfs_msg t args)) as (m & n & -> & Hf).
  - split; [|done]. apply (frame_mem None 0 (os_net s)). split; [apply Hs|done].
  - by intros E x [=].
  - apply os_kept_same; try done; [apply poke_wf, Hs|apply Hf|apply Hs].
Qed.

Lemma os_keeps_tty t args : os_keeps (tty_req t args).
Proof.
  intros s Hs. unfold wlp, tty_req. destruct (tty_handle _ _ _ _) as [[m y]|]; [|done].
  apply os_kept_same; try done; try apply Hs. apply poke_wf, Hs.
Qed.
#[export] Hint Resolve kern_keeps_as os_keeps_vfs os_keeps_mem os_keeps_net os_keeps_tty : keeps.

Ltac keeps_bind ::= first [apply kern_keeps_bind; [|intros ?]|apply os_keeps_bind; [|intros ?]].

(** *** Loops *)

Lemma os_keeps_for_each {B} (l : list B) (f : B → st Os unit) : (∀ x, os_keeps (f x)) → os_keeps (for_each l f).
Proof. intros Hf. induction l as [|x l IH]; simpl; keeps. Qed.

Lemma os_keeps_store a bs : os_keeps (store a bs).
Proof. unfold store. auto with keeps. Qed.
Lemma os_keeps_zero a n : os_keeps (zero a n).
Proof. unfold zero. auto with keeps. Qed.
Lemma os_keeps_load_le a n : os_keeps (load_le a n).
Proof. intros s Hs. split; [done|apply kept_refl, Hs]. Qed.
Lemma os_keeps_load_i64 a : os_keeps (load_i64 a).
Proof. intros s Hs. split; [done|apply kept_refl, Hs]. Qed.
Lemma os_keeps_load_i32 a : os_keeps (load_i32 a).
Proof. intros s Hs. split; [done|apply kept_refl, Hs]. Qed.
Lemma os_keeps_load a n : os_keeps (load a n).
Proof. intros s Hs. split; [done|apply kept_refl, Hs]. Qed.
Lemma os_keeps_serial_write bs : os_keeps (serial_write_raw bs).
Proof. intros s Hs. apply os_kept_same; try done; apply Hs. Qed.
Lemma os_keeps_serial_read : os_keeps serial_read_byte.
Proof.
  intros s Hs. unfold wlp, serial_read_byte, st_lift. destruct (os_rx s); apply os_kept_same; try done; apply Hs.
Qed.
Lemma os_keeps_drain n : os_keeps (drain_serial n).
Proof. intros s Hs. apply os_kept_same; try done; apply Hs. Qed.
#[export] Hint Resolve os_keeps_for_each os_keeps_store os_keeps_zero os_keeps_load_le os_keeps_load_i64 os_keeps_load_i32 os_keeps_load
  os_keeps_serial_write os_keeps_serial_read os_keeps_drain : keeps.

Lemma os_keeps_close_fds n fd : os_keeps (close_fds n fd).
Proof. revert fd. induction n as [|n IH]; intros fd; cbn [close_fds]; keeps. Qed.
Lemma os_keeps_writev n iov i total : os_keeps (writev_loop n iov i total).
Proof. revert i total. induction n as [|n IH]; intros i total; cbn [writev_loop]; keeps. Qed.
Lemma os_keeps_readv n fd iov i total : os_keeps (readv_loop n fd iov i total).
Proof. revert i total. induction n as [|n IH]; intros i total; cbn [readv_loop]; keeps. Qed.
Lemma os_keeps_first_iovec n iov i : os_keeps (first_iovec n iov i).
Proof. revert i. induction n as [|n IH]; intros i; cbn [first_iovec]; keeps. Qed.
Lemma os_keeps_sendfile n buf o i count t : os_keeps (sendfile_loop n buf o i count t).
Proof. revert t. induction n as [|n IH]; intros t; cbn [sendfile_loop]; keeps. Qed.
Lemma os_keeps_ppoll n p r : os_keeps (ppoll_loop n p r).
Proof. revert p r. induction n as [|n IH]; intros p r; cbn [ppoll_loop]; keeps. Qed.
#[export] Hint Resolve os_keeps_close_fds os_keeps_writev os_keeps_readv os_keeps_first_iovec os_keeps_sendfile os_keeps_ppoll : keeps.

(** *** epoll instances *)

Lemma os_keeps_put_epoll slot e : os_keeps (put_epoll slot e).
Proof. intros s Hs. apply os_kept_same; try done; try apply Hs. cbn. rewrite length_insert. apply Hs. Qed.

Lemma os_keeps_epoll_create : os_keeps sys_epoll_create1.
Proof.
  intros s Hs. unfold wlp, sys_epoll_create1, mbind, st_bind, st_get, st_modify.
  destruct (position _ _); apply os_kept_same; try done; try apply Hs. cbn. rewrite length_insert. apply Hs.
Qed.

Lemma os_keeps_index {A} (l : list A) i : os_keeps (st_index l i).
Proof. unfold st_index. destruct (l !! i); [apply os_keeps_ret|done]. Qed.
#[export] Hint Resolve os_keeps_put_epoll os_keeps_epoll_create os_keeps_index : keeps.

Lemma os_keeps_epoll_loop l base maxevents n : os_keeps (epoll_wait_loop l base maxevents n).
Proof. revert n. induction l as [|i l IH]; intros n; cbn [epoll_wait_loop]; keeps. Qed.

Lemma os_keeps_close_all : os_keeps vfs_close_all_current.
Proof. unfold vfs_close_all_current. keeps. intros s Hs. apply os_kept_same; try done; apply Hs. Qed.
#[export] Hint Resolve os_keeps_epoll_loop os_keeps_close_all : keeps.

(** *** Calls that create or reap a task *)

Definition ids_left (s : Os) : Prop := sc_next_pid (os_sched s) + 1 < 2^32.

Record os_kept1 (s s' : Os) : Prop := {
  o1_wf : os_wf s';
  o1_sched : kept1 (os_sched s) (os_sched s')
}.

Definition os_may {A} (c : st Os A) : Prop := ∀ s, os_wf s → live (os_sched s) → ids_left s → wlp c (λ _, os_kept1 s) s.

Lemma os_keeps_may {A} (c : st Os A) : os_keeps c → os_may c.
Proof. intros Hc s Hs _ Hn. eapply wlp_mono; [by apply Hc|]. intros a s' [? ?]. split; [done|by apply kept_kept1]. Qed.

Lemma os_may_bind {A B} (c : st Os A) (f : A → st Os B) : os_may c → (∀ a, os_keeps (f a)) → os_may (c ≫= f).
Proof.
  intros Hc Hf s Hs Ha Hn. apply wlp_bind. eapply wlp_mono; [by apply Hc|]. intros a s1 [H1 Hp].
  eapply wlp_mono; [by apply Hf|]. intros b s2 [? ?]. split; [done|by eapply kept1_trans].
Qed.

Lemma os_may_sched {A} (c : st Sched A) :
  (∀ s, sched_wf s → live s → sc_next_pid s + 1 < 2^32 → wlp c (λ _, kept1 s) s) → os_may (on_os_sched c).
Proof.
  intros Hc s [Hv Hs Hn He] Ha Hp. specialize (Hc _ Hs Ha Hp). unfold wlp, on_os_sched, on_k, SysMem.on_sched in *.
  change (kn_sched (os_k s)) with (os_sched s). destruct (c (os_sched s)) as [[a s']|]; [|done].
  split; [|done]. split; try done. apply Hc.
Qed.

(** A task that waits reaps nothing: the scheduler's loop has removed the zombies. *)
Lemma wait_pid_same pid s : sched_wf s → live s → wlp (wait_pid_once pid) (λ _ s', s' = s) s.
Proof.
  intros [Hok Hc] Hl. unfold wait_pid_once. apply wlp_bind. unfold wlp at 1, st_get.
  destruct (find_pid_idx pid (sc_rq s)) as [i|]; [|done]. apply wlp_bind. unfold wlp at 1.
  destruct (find_pid pid (sc_rq s)) as [t|] eqn:Ht; [|done]. case_bool_decide as Hz; [exfalso|done].
  apply (find_pid_task _ _ _ _ Hok) in Ht as (j & Hj & Hp). destruct (so_state _ _ Hok j t Hj) as [Hx|[Hx|Hx]]; [|congruence..].
  unfold cur_ok in Hc. rewrite Hx in Hc. destruct Hc as (t' & Ht' & Hp'). unfold task_at in *. rewrite Hj in Ht'. injection Ht' as <-.
  by apply (Hl j t Hj).
Qed.

Lemma os_may_wait pid : os_may (on_os_sched (wait_pid_once pid)).
Proof.
  apply os_may_sched. intros s Hs Hl Hp. eapply wlp_mono; [by apply wait_pid_same|]. intros o s' ->. by apply kept_kept1, kept_refl.
Qed.

Lemma os_may_spawn {A} (c : st Sched A) : sched_may_spawn c → os_may (on_os_sched c).
Proof. intros Hc. apply os_may_sched. intros s Hs _ Hp. by apply Hc. Qed.

Lemma os_may_sys_wait pid status : os_may (sys_wait_try pid status).
Proof. unfold sys_wait_try. case_bool; [apply os_keeps_may; keeps|]. apply os_may_bind; [apply os_may_wait|intros r; keeps]. Qed.

Lemma os_may_sys_waitid idtype id infop : os_may (sys_waitid_try idtype id infop).
Proof. unfold sys_waitid_try. apply os_may_bind; [apply os_may_wait|intros r; keeps]. Qed.

Lemma os_may_clone ret flags stack tls ctid fp : os_may (sys_clone_or_fork ret flags stack tls ctid fp).
Proof.
  unfold sys_clone_or_fork. case_bool; [apply os_may_spawn, spawn_clone|].
  enough (∀ pid, os_may (ret0 ← on_os_sched (fork_current ret fp);
    (if 0 <? ret0 then vfs_req VFS_FORK_DUP [pid; ret0] ≫= λ _, mret tt else mret tt) ≫= λ _, mret ret0)) as H
    by (intros s; exact (H (os_pid s) s)).
  intros pid. apply os_may_bind; [apply os_may_spawn, spawn_fork|intros r; keeps].
Qed.
