(* ===== verification/SysRun.v ===== *)
(** * The invariant and the system call table

    Every arm of the table, and every later attempt of a call that had to wait,
    keeps the invariant of SysInv. *)

From Stdlib Require Import ZArith Lia.
From stdpp Require Import base list option numbers gmap.
From S2P Require Import Prelude Words Buddy Memory Vmm IpcPort Cpio VfsData Vfs VfsInv VfsTotal Tty Net NetInv NetStep Task RunQueue Sched SchedInv SchedSpec Futex Signal Clone SysIpc SysMem SysPath SysOs SysFile SysFileSpec SysInfo SysEpoll Execve SysDispatch SysInv.

Local Open Scope Z_scope.

(** ** The whole system *)

Definition w_keeps {A} (c : st World A) : Prop := ∀ w, os_wf (w_os w) → wlp c (λ _ w', os_kept (w_os w) (w_os w')) w.

(** A call either ends the task, or leaves it running or waiting. *)
Record answered (w : World) (a : answer) (w' : World) : Prop := {
  an_wf : os_wf (w_os w');
  an_next : sc_next_pid (os_sched (w_os w)) ≤ sc_next_pid (os_sched (w_os w')) ≤ sc_next_pid (os_sched (w_os w)) + 1;
  an_ctx : sc_ctx (os_sched (w_os w')) = sc_ctx (os_sched (w_os w));
  an_live : a ≠ Exits → live (os_sched (w_os w'))
}.

Definition w_answers (c : st World answer) : Prop := ∀ w, os_wf (w_os w) → live (os_sched (w_os w)) → ids_left (w_os w) →
  wlp c (answered w) w.

Lemma w_keeps_bind {A B} (c : st World A) (f : A → st World B) : w_keeps c → (∀ a, w_keeps (f a)) → w_keeps (c ≫= f).
Proof.
  intros Hc Hf w Hw. apply wlp_bind. eapply wlp_mono; [by apply Hc|]. intros a w1 H1.
  eapply wlp_mono; [apply Hf, H1|]. intros b w2. by apply os_kept_trans.
Qed.

Lemma w_keeps_answers (c : st World answer) : w_keeps c → w_answers c.
Proof.
  intros Hc w Hw Hl Hn. eapply wlp_mono; [by apply Hc|]. intros a w' [Hw' [_ Hn' Hc' Hl']]. split; [done|lia|done|auto].
Qed.

Lemma w_answers_os {A} (c : st Os A) (f : A → answer) : os_may c → w_answers (r ← on_os c; mret (f r)).
Proof.
  intros Hc w Hw Hl Hn. specialize (Hc _ Hw Hl Hn). unfold wlp, on_os, mbind, st_bind in *.
  destruct (c (w_os w)) as [[a o]|]; [|done]. destruct Hc as [? [? ? ? ?]]. split; auto.
Qed.

Lemma w_keeps_ret {A} (a : A) : w_keeps (mret a).
Proof. intros w Hw. split; [done|apply kept_refl, Hw]. Qed.
Lemma w_keeps_get {A} (f : World → A) : w_keeps (st_get f).
Proof. intros w Hw. split; [done|apply kept_refl, Hw]. Qed.

Lemma w_keeps_os {A} (c : st Os A) : os_keeps c → w_keeps (on_os c).
Proof. intros Hc w Hw. specialize (Hc _ Hw). unfold wlp, on_os in *. by destruct (c (w_os w)) as [[a o]|]. Qed.

Lemma put_sched_wf s o : os_wf o → sched_wf s → os_wf (put_sched s o).
Proof. intros [Hv Hs Hn He] Hs'. by split. Qed.

Lemma put_sched_kept s o : os_wf o → kept (os_sched o) s → os_kept o (put_sched s o).
Proof. intros Ho Hk. split; [apply put_sched_wf; [done|apply Hk]|done]. Qed.

(** A computation on the scheduler and another table. *)
Definition with_keeps {P A} (c : st (P * Sched) A) : Prop := ∀ p s, sched_wf s →
  wlp c (λ _ x, kept s x.2) (p, s).

Lemma w_keeps_ports {A} (c : st (PortTable * Sched) A) : with_keeps c → w_keeps (on_ports c).
Proof.
  intros Hc w Hw. specialize (Hc (w_ports w) _ (ow_sched _ Hw)). unfold wlp, on_ports in *.
  destruct (c _) as [[a [p s]]|]; [|done]. by apply put_sched_kept.
Qed.

Lemma w_keeps_frame {A} (c : st (UserFrame * Sched) A) : with_keeps c → w_keeps (on_frame c).
Proof.
  intros Hc w Hw. specialize (Hc (w_frame w) _ (ow_sched _ Hw)). unfold wlp, on_frame in *.
  destruct (c _) as [[a [p s]]|]; [|done]. by apply put_sched_kept.
Qed.

Lemma w_keeps_futex {A} (c : FutexTable * Sched → A * (FutexTable * Sched)) : with_keeps (st_lift c) → w_keeps (on_futex c).
Proof.
  intros Hc w Hw. specialize (Hc (w_futex w) _ (ow_sched _ Hw)). unfold wlp, on_futex, st_lift in *.
  destruct (c _) as [a [p s]]. by apply put_sched_kept.
Qed.

Lemma with_keeps_bind {P A B} (c : st (P * Sched) A) (f : A → st (P * Sched) B) :
  with_keeps c → (∀ a, with_keeps (f a)) → with_keeps (c ≫= f).
Proof.
  intros Hc Hf p s Hs. apply wlp_bind. eapply wlp_mono; [by apply Hc|].
  intros a [p1 s1] H1. eapply wlp_mono; [apply Hf, H1|]. intros b [p2 s2]. by apply kept_trans.
Qed.

Lemma with_keeps_ret {P A} (a : A) : with_keeps (mret a : st (P * Sched) A).
Proof. intros p s Hs. by apply kept_refl. Qed.
Lemma with_keeps_get {P A} (f : P * Sched → A) : with_keeps (st_get f).
Proof. intros p s Hs. by apply kept_refl. Qed.
#[export] Hint Resolve w_keeps_ret w_keeps_get w_keeps_os w_keeps_ports w_keeps_frame w_keeps_futex with_keeps_ret with_keeps_get : keeps.

Ltac keeps_bind ::= first [apply kern_keeps_bind; [|intros ?]|apply os_keeps_bind; [|intros ?]|
  apply w_keeps_bind; [|intros ?]|apply with_keeps_bind; [|intros ?]|
  apply w_keeps_os|apply w_keeps_ports|apply w_keeps_frame|apply w_keeps_futex|apply os_keeps_sched|apply os_keeps_k|apply kern_keeps_sched].

(** *** Ports, futexes and signal frames *)

Lemma with_keeps_send port msg : with_keeps (st_lift (IpcPort.send port msg)).
Proof.
  intros p s Hs. unfold wlp, st_lift, send. destruct (find_mut p port) as [idx|]; [|by apply kept_refl].
  destruct (with_bucket _ _ _ _) as [[] t']; [by apply (sched_keeps_unblock port s)|by apply kept_refl].
Qed.

Lemma with_keeps_block port : with_keeps (st_modify (λ '(t, s), (t, sched_block_on_port port s)) : st (PortTable * Sched) unit).
Proof. intros p s Hs. cbn. rewrite block_update. by apply kept_update_current. Qed.

Lemma with_keeps_pure {P A} (f : P → Sched → A * P) : with_keeps (st_lift (λ '(t, s), let '(r, t') := f t s in (r, (t', s)))).
Proof. intros p s Hs. unfold wlp, st_lift. destruct (f p s). by apply kept_refl. Qed.

Lemma with_keeps_reply port : with_keeps (st_modify (λ '(t, s), (t, set_current_reply_port port s)) : st (PortTable * Sched) unit).
Proof. intros p s Hs. by apply kept_update_current. Qed.
#[export] Hint Resolve with_keeps_send with_keeps_block with_keeps_reply : keeps.

Lemma with_keeps_recv port caller : with_keeps (sys_recv_loop port caller).
Proof.
  unfold sys_recv_loop. apply with_keeps_bind; [apply (with_keeps_pure (λ t _, recv_as port caller t))|intros o; keeps].
Qed.
#[export] Hint Resolve with_keeps_recv : keeps.

Lemma with_keeps_reply_port : with_keeps call_reply_port.
Proof.
  unfold call_reply_port. apply with_keeps_bind; [keeps|intros rp]. case_bool; [keeps|].
  apply with_keeps_bind; [apply (with_keeps_pure (λ t s, create (current_pid s) t))|intros o; keeps].
Qed.
#[export] Hint Resolve with_keeps_reply_port : keeps.

Lemma with_keeps_futex_begin uaddr : with_keeps (st_lift (λ x, (tt, futex_wait_begin uaddr x))).
Proof. intros p s Hs. by apply kept_update_current. Qed.

Lemma with_keeps_futex_end : with_keeps (st_lift futex_wait_end).
Proof. intros p s Hs. by apply kept_update_current. Qed.

Lemma wake_pids_kept pids n s : sched_wf s → kept s (wake_pids pids n s).2.
Proof.
  revert n s. induction pids as [|pid pids IH]; intros n s Hs; simpl; [by apply kept_refl|].
  destruct (find_pid pid (sc_rq s)) as [t|]; [|by apply IH]. case_bool_decide; [|by apply IH].
  assert (kept s (update_pid pid wake_waiter s)) as Hk by (apply kept_update_pid; auto).
  eapply kept_trans; [exact Hk|]. apply IH, Hk.
Qed.

Lemma with_keeps_futex_wake uaddr n : with_keeps (st_lift (futex_wake uaddr n)).
Proof.
  intros p s Hs. unfold wlp, st_lift, futex_wake. destruct (Futex.collect _ _ _ _) as [pids tbl].
  pose proof (wake_pids_kept pids 0 s Hs). by destruct (wake_pids pids 0 s).
Qed.
#[export] Hint Resolve with_keeps_futex_begin with_keeps_futex_end with_keeps_futex_wake : keeps.

(** *** Signals *)

(** A computation that may end the task. *)
Definition sig_keeps (c : st (UserFrame * Sched) sigres) : Prop := ∀ f s, sched_wf s →
  wlp c (λ r x, sched_wf x.2 ∧ sc_next_pid x.2 = sc_next_pid s ∧ sc_ctx x.2 = sc_ctx s ∧ (r ≠ SigExit → live s → live x.2)) (f, s).

Lemma with_keeps_sig c : with_keeps c → sig_keeps c.
Proof. intros Hc f s Hs. eapply wlp_mono; [by apply Hc|]. intros r x [? ? ? ?]. auto. Qed.

Lemma sig_keeps_bind {A} (c : st (UserFrame * Sched) A) (g : A → st (UserFrame * Sched) sigres) :
  with_keeps c → (∀ a, sig_keeps (g a)) → sig_keeps (c ≫= g).
Proof.
  intros Hc Hg f s Hs. apply wlp_bind. eapply wlp_mono; [by apply Hc|]. intros a [f1 s1] [H1 Hn1 Hc1 Hl1]. cbn [snd] in *.
  eapply wlp_mono; [by apply Hg|]. intros r x (? & Hn & Hx & Hl). rewrite Hn, Hx. split_and!; auto.
Qed.

Lemma sig_keeps_exit code : sig_keeps (sig_exit code).
Proof. intros f s Hs. split; [by apply update_current_wf|]. split_and!; [done|done|]. by intros []. Qed.

Lemma sig_keeps_check_loop fuel pid : sig_keeps (check_loop fuel pid).
Proof.
  induction fuel as [|fuel IH]; [by intros f s Hs|]. cbn [check_loop]. apply sig_keeps_bind; [auto with keeps|intros [t|]; [|by intros f s Hs]].
  case_bool; [by intros f s Hs|]. apply sig_keeps_bind; [|intros action].
  { intros f s Hs. unfold st_index. destruct (_ !! _); [by apply kept_refl|done]. }
  apply sig_keeps_bind.
  - intros p s Hs. apply kept_update_pid; [done|..]; intros t'; unfold take_signal; repeat case_bool; auto.
  - intros []. destruct (sa_handler action =? 0); [destruct (negb _); [apply IH|apply sig_keeps_exit]|].
    destruct (sa_handler action =? 1); [apply IH|]. cbv zeta. apply sig_keeps_bind; [|intros []; [by intros f s Hs|apply sig_keeps_exit]].
    intros p s Hs. unfold wlp, st_lift, prepare. destruct (frame_sp _); [|by apply kept_refl].
    destruct (task_virt_to_phys _ _ _); [by apply kept_kmem|by apply kept_refl].
Qed.

Lemma sig_keeps_signals : sig_keeps check_and_deliver_signals.
Proof.
  unfold check_and_deliver_signals. apply sig_keeps_bind; [auto with keeps|intros pid]. case_bool; [by intros f s Hs|apply sig_keeps_check_loop].
Qed.

Lemma sig_keeps_restore : sig_keeps restore_signal_frame.
Proof.
  unfold restore_signal_frame. apply sig_keeps_bind; [auto with keeps|intros pid]. case_bool; [by intros f s Hs|].
  intros f s Hs. unfold wlp, mbind, st_bind, st_get, restore.
  destruct (task_virt_to_phys _ _ _) as [base|]; [|by apply (sig_keeps_exit (128 + 11) f s)].
  cbn. destruct (kept_update_pid pid (with_signal_mask (read_u64 (k_mem (sc_kmem s)) (base + SIGMASK_OFFSET))) s); auto.
Qed.

(** *** Timers *)

Lemma check_timers_kept T l s : sched_wf s → kept s (check_timers_loop T l s).2.
Proof.
  revert s. induction l as [|x l IH]; intros s Hs; simpl; [by apply kept_refl|]. case_bool.
  - pose proof (sched_keeps_signal (tm_owner_pid x) (tm_signo x) s Hs) as Hd. unfold wlp, st_lift in Hd.
    destruct (deliver_signal _ _ s) as [r s1]. specialize (IH s1 (ke_wf _ _ Hd)).
    destruct (check_timers_loop T l s1). by eapply kept_trans.
  - specialize (IH s Hs). by destruct (check_timers_loop T l s).
Qed.

Lemma w_keeps_finish a : w_keeps (finish a).
Proof.
  destruct a as [r| | |]; cbn [finish]; [|apply w_keeps_ret..]. apply w_keeps_bind; [|intros []; keeps]. apply w_keeps_os.
  intros s Hs. unfold wlp, st_modify, check_timers.
  destruct (_ ≫= _) as [[i t]|]; [|apply os_kept_same; try done; apply Hs].
  pose proof (check_timers_kept (ticks (os_sched s)) (pt_timers t) _ (ow_sched _ Hs)) as Hk.
  destruct (check_timers_loop _ _ _) as [l sc]. split; [|done]. destruct Hs. split; try done. apply Hk.
Qed.

(** *** Every call *)

Lemma w_answers_exit code : w_answers (call_exit code).
Proof.
  intros w Hw Hl Hn. unfold call_exit. apply wlp_bind.
  pose proof (os_keeps_close_all _ Hw) as Hc. unfold wlp, on_os in *. unfold mbind at 1, st_bind at 1.
  destruct (vfs_close_all_current (w_os w)) as [[[] o]|]; [|done]. destruct Hc as [[Hv Hs Hnet He] Hk].
  pose proof (ke_next _ _ Hk) as Hp.
  split; [|change (sc_next_pid (os_sched (w_os (set_os _ _)))) with (sc_next_pid (os_sched o)); lia|apply Hk|done].
  split; try done. by apply update_current_wf.
Qed.

Lemma w_answers_sigreturn fp : w_answers (call_sigreturn fp).
Proof.
  unfold call_sigreturn. case_bool; [apply w_keeps_answers; keeps|]. intros w Hw Hl Hn. apply wlp_bind.
  pose proof (sig_keeps_restore (w_frame w) _ (ow_sched _ Hw)) as Hr. unfold wlp, on_frame in *.
  destruct (restore_signal_frame _) as [[r [f s]]|]; [|done]. destruct Hr as (Hs & Hp & Hx & Hr). cbn [snd] in *.
  split; [by apply put_sched_wf|cbn; lia|done|]. intros Ha. apply Hr; [|done]. by intros ->.
Qed.

Section calls.
Context (lay : layouts) (inflate : list Z → option (list Z)) (initrd : option (list Z)) (vfs_port ret_to_user_fork kbuf : Z).

Lemma w_keeps_execve path argv envp : w_keeps (call_execve inflate initrd vfs_port path argv envp).
Proof.
  unfold call_execve. apply w_keeps_bind; [|intros; keeps]. apply w_keeps_os. unfold sys_execve. case_bool; [keeps|].
  apply os_keeps_bind; [keeps|intros r]. destruct r as [[[] raw]|]; [|keeps..]. apply os_keeps_bind; [keeps|intros sched].
  apply os_keeps_bind; [|intros elf; keeps]. intros s Hs. unfold wlp, st_of.
  destruct (exec_lookup _ _ _); [|done]. by apply (os_keeps_ret tt).
Qed.
Hint Resolve w_keeps_execve : keeps.

Ltac arms c := destruct c; intros H; try discriminate H; injection H as <-;
  first [apply w_keeps_answers; solve [keeps]|apply w_answers_exit|apply w_answers_sigreturn
        |apply w_answers_os, os_may_sys_wait|apply w_answers_os, os_may_sys_waitid|apply w_answers_os, os_may_clone].

Section arms.
Context (a0 a1 a2 a3 a4 a5 frame_ptr : Z).

Lemma task_arms_answer c h : task_arms lay inflate initrd vfs_port ret_to_user_fork a0 a1 a2 a3 a4 a5 frame_ptr c = Some h → w_answers h.
Proof. arms c. Qed.

Lemma file_arms_answer c h : file_arms kbuf a0 a1 a2 a3 c = Some h → w_answers h.
Proof. arms c. Qed.

Lemma net_time_arms_answer c h : net_time_arms kbuf a0 a1 a2 a3 a4 a5 c = Some h → w_answers h.
Proof. arms c. Qed.

Lemma misc_arms_answer c h : misc_arms kbuf a0 a1 a2 a3 a4 c = Some h → w_answers h.
Proof. arms c. Qed.
End arms.

Lemma dispatch_inner_answers number a0 a1 a2 a3 a4 a5 frame_ptr :
  w_answers (dispatch_inner lay inflate initrd vfs_port ret_to_user_fork kbuf a0 a1 a2 a3 a4 a5 frame_ptr number).
Proof.
  unfold dispatch_inner, arm. destruct (decode number) as [c|]; [|apply w_keeps_answers, w_keeps_ret].
  destruct (task_arms _ _ _ _ _ _ _ _ _ _ _ _ c) eqn:H; [by eapply task_arms_answer|].
  destruct (file_arms _ _ _ _ _ c) eqn:H1; [by eapply file_arms_answer|].
  destruct (net_time_arms _ _ _ _ _ _ _ c) eqn:H2; [by eapply net_time_arms_answer|].
  destruct (misc_arms _ _ _ _ _ _ c) eqn:H3; [by eapply misc_arms_answer|]. apply w_keeps_answers, w_keeps_ret.
Qed.

Lemma w_answers_finish c : w_answers c → w_answers (a ← c; finish a).
Proof.
  intros Hc w Hw Hl Hn. apply wlp_bind. eapply wlp_mono; [by apply Hc|]. intros a w1 [Hw1 Hn1 Hc1 Hl1].
  destruct a as [r|wt| |entry sp]; [|by split..].
  eapply wlp_mono; [by apply (w_keeps_finish (Done r))|]. intros b w2 [Hw2 [_ Hn2 Hc2 Hl2]]. split; [done|lia|congruence|]. intros _. by apply Hl2, Hl1.
Qed.

(** A call with any number and any arguments. *)
Lemma dispatch_answers number a0 a1 a2 a3 a4 a5 frame_ptr :
  w_answers (dispatch lay inflate initrd vfs_port ret_to_user_fork kbuf number a0 a1 a2 a3 a4 a5 frame_ptr).
Proof. unfold dispatch. apply w_answers_finish, dispatch_inner_answers. Qed.

(** The next attempt of a call that yielded. *)
Lemma resume_answers wt : w_answers (resume lay wt).
Proof.
  unfold resume. apply w_answers_finish.
  destruct wt; first [apply w_answers_os, os_may_sys_wait|apply w_answers_os, os_may_sys_waitid|apply w_keeps_answers; keeps].
Qed.

End calls.
