(* ===== verification/SysSteps.v ===== *)
(** * Runs of the whole kernel

    Tasks are scheduled, make calls, wait, are interrupted and exit, in any order
    and with any arguments, registers and memory.  The theorem: the invariants of
    the scheduler and of the servers hold in every state that is reached. *)

From Stdlib Require Import ZArith Lia.
From stdpp Require Import base list option numbers gmap relations.
From S2P Require Import Prelude Words IpcPort Buddy Memory Vmm Task RunQueue Sched SchedInv SchedSpec SysIpc Futex Signal Cpio VfsData Vfs VfsInv VfsTotal VfsSpec SysMem Tty Net NetInv NetStep SysOs SysFile SysFileSpec SysDispatch SysInv SysRun.

Local Open Scope Z_scope.

(** A task that waits in a call keeps its registers there. *)
Record System := mkSystem { sy_world : World; sy_waits : gmap Z (waiting * UserFrame) }.

Definition sy_sched (y : System) : Sched := os_sched (w_os (sy_world y)).

Definition set_frame (f : UserFrame) (w : World) : World := mkWorld (w_os w) (w_ports w) (w_futex w) f.

(** After a call: signals on the way back to user space, or the CPU goes to the
    scheduler, which reaps a task that has exited. *)
Definition leave_cpu (idx : nat) : st World unit := on_ports (switch_back exit_hook idx).

Definition settle (idx : nat) (a : answer) : st World (option waiting) :=
  match a with
  | Done _ =>
      r ← on_frame check_and_deliver_signals;
      match r with SigExit => leave_cpu idx ≫= λ _, mret None | _ => mret None end
  | Enters _ _ => mret None
  | Yields wt => leave_cpu idx ≫= λ _, mret (Some wt)
  | Exits => leave_cpu idx ≫= λ _, mret None
  end.

Definition note_wait (pid : Z) (o : option waiting) (f : UserFrame) (m : gmap Z (waiting * UserFrame)) : gmap Z (waiting * UserFrame) :=
  match o with Some wt => <[pid := (wt, f)]> m | None => delete pid m end.

(** The timer interrupt ([irq_dispatch] for the timer): the tick, then
    [preempt_check], which makes a running task give up the CPU. *)
Definition timer_irq : st World unit :=
  on_os (on_os_sched (st_modify timer_tick_irq)) ;;
  needed ← on_os (on_os_sched (st_lift preempt_check));
  ctx ← st_get (λ w, sc_ctx (os_sched (w_os w)));
  match ctx with Some idx => if (needed : bool) then leave_cpu idx else mret () | None => mret () end.

Section runs.
Context (lay : layouts) (inflate : list Z → option (list Z)) (initrd : option (list Z)) (vfs_port ret_to_user_fork kbuf : Z).

(** The steps: the scheduler picks a task; the clock ticks; the running task
    changes its memory, or bytes arrive at the UART; it makes a call, with any
    registers; it goes on with a call; the kernel starts a program. *)
Inductive step : System → System → Prop :=
  | step_pick y idx s : sc_ctx (sy_sched y) = None → Sched.dispatch (sy_sched y) = (Some idx, s) →
      step y (mkSystem (set_os (put_sched s (w_os (sy_world y))) (sy_world y)) (sy_waits y))
  | step_tick y w : timer_irq (sy_world y) = Ret ((), w) → step y (mkSystem w (sy_waits y))
  | step_user y m rx : step y (mkSystem (set_os (set_rx rx (put_mem m (w_os (sy_world y)))) (sy_world y)) (sy_waits y))
  | step_call y idx number a0 a1 a2 a3 a4 a5 frame_ptr f o w :
      sc_ctx (sy_sched y) = Some idx → sy_waits y !! sc_cur (sy_sched y) = None → ids_left (w_os (sy_world y)) →
      (a ← dispatch lay inflate initrd vfs_port ret_to_user_fork kbuf number a0 a1 a2 a3 a4 a5 frame_ptr; settle idx a)
        (set_frame f (sy_world y)) = Ret (o, w) →
      step y (mkSystem w (note_wait (sc_cur (sy_sched y)) o (w_frame w) (sy_waits y)))
  | step_resume y idx wt f o w :
      sc_ctx (sy_sched y) = Some idx → sy_waits y !! sc_cur (sy_sched y) = Some (wt, f) → ids_left (w_os (sy_world y)) →
      (a ← resume lay wt; settle idx a) (set_frame f (sy_world y)) = Ret (o, w) →
      step y (mkSystem w (note_wait (sc_cur (sy_sched y)) o (w_frame w) (sy_waits y)))
  | step_spawn y ret entry sp a r w : sc_ctx (sy_sched y) = None → ids_left (w_os (sy_world y)) →
      on_os (on_os_sched (spawn_user_with_address_space ret entry sp a)) (sy_world y) = Ret (r, w) →
      step y (mkSystem w (sy_waits y)).

(** ** The invariant *)

Record sys_wf (w : World) : Prop := { sw_os : os_wf (w_os w); sw_live : live (os_sched (w_os w)) }.

(** Without a running task [sc_cur] is 0, which no task has. *)
Lemma live_idle s : sched_wf s → sc_ctx s = None → live s.
Proof.
  intros [Hok Hc] Hn i t Ht Hp. unfold cur_ok in Hc. rewrite Hn in Hc.
  pose proof (so_range _ _ Hok i t Ht). lia.
Qed.

Lemma leave_cpu_wf idx w : os_wf (w_os w) → sc_ctx (os_sched (w_os w)) = Some idx → wlp (leave_cpu idx) (λ _, sys_wf) w.
Proof.
  intros Hw Hc. assert (∀ ex h pid y, exit_hook = Some h → quiet ex y.2 (h pid y).2) as Hh.
  { intros ex h pid y [= <-]. apply quiet_release. }
  pose proof (switch_back_wf exit_hook Hh idx (w_ports w) _ (ow_sched _ Hw) Hc) as Hs.
  unfold wlp, leave_cpu, on_ports in *. destruct (switch_back _ _ _) as [[[] [p s]]|]; [|done].
  destruct Hs as (Hs & Hn & _). split; [by apply put_sched_wf|by apply live_idle].
Qed.

Lemma settle_wf idx a w0 w : sc_ctx (os_sched (w_os w0)) = Some idx → answered w0 a w → wlp (settle idx a) (λ _, sys_wf) w.
Proof.
  intros Hc [Hw Hn Hx Hl]. rewrite Hc in Hx. destruct a as [r|wt| |entry sp]; cbn [settle].
  - apply wlp_bind. pose proof (sig_keeps_signals (w_frame w) _ (ow_sched _ Hw)) as Hk.
    unfold wlp at 1, on_frame. unfold wlp in Hk. destruct (check_and_deliver_signals _) as [[res [f s]]|]; [|done].
    cbn [snd] in Hk. destruct Hk as (Hs & _ & Hsx & Hsl). set (w1 := mkWorld _ _ _ _).
    assert (os_wf (w_os w1)) as Hw1 by by apply put_sched_wf.
    assert (res ≠ SigExit → sys_wf w1) as Hres by (intros Hr; split; [done|by apply Hsl, Hl]).
    destruct res; try (by apply Hres). apply wlp_bind. eapply wlp_mono; [apply leave_cpu_wf; [done|]|done].
    transitivity (sc_ctx s); [done|congruence].
  - apply wlp_bind. by eapply wlp_mono; [apply leave_cpu_wf|].
  - apply wlp_bind. by eapply wlp_mono; [apply leave_cpu_wf|].
  - split; [done|by apply Hl].
Qed.

Lemma timer_irq_wf w : sys_wf w → wlp timer_irq (λ _, sys_wf) w.
Proof.
  intros [Hw Hl]. unfold timer_irq. apply wlp_bind.
  assert (w_keeps (on_os (on_os_sched (st_modify timer_tick_irq)))) as Ht.
  { apply w_keeps_os, os_keeps_sched. intros s Hs. split; [|done..]. refine (quiet_wf s _ _ Hs). split; eauto 6. }
  assert (w_keeps (on_os (on_os_sched (st_lift preempt_check)))) as Hp.
  { apply w_keeps_os, os_keeps_sched. intros s Hs. split; [|done..]. refine (quiet_wf s _ _ Hs). split; eauto 6. }
  eapply wlp_mono; [by apply Ht|]. intros [] w1 [Hw1 [_ _ _ Hl1]]. apply wlp_bind.
  eapply wlp_mono; [by apply Hp|]. intros needed w2 [Hw2 [_ _ _ Hl2]]. apply wlp_bind. cbn [wlp st_get].
  assert (sys_wf w2) by (split; auto).
  destruct (sc_ctx (os_sched (w_os w2))) as [idx|] eqn:Hc; [|done]. destruct needed; [|done]. by apply leave_cpu_wf.
Qed.

(** The task that is picked was ready. *)
Lemma pick_live s idx s' : sched_wf s → sc_ctx s = None → Sched.dispatch s = (Some idx, s') → sched_wf s' ∧ live s'.
Proof.
  intros Hs Hn Hd. destruct (dispatch_wf _ _ _ Hs Hn Hd) as (Hs' & Hc & _ & t & _ & Hr & Ht). split; [done|].
  destruct Hs' as [Hok Hcur]. unfold cur_ok in Hcur. rewrite Hc in Hcur. destruct Hcur as (t1 & Ht1 & Hp1).
  intros i u Hu Hpu. assert (i = idx) as -> by (eapply so_unique; [done|done|exact Ht1|congruence]).
  assert (u = with_state Running t) as -> by (unfold task_at in *; congruence). done.
Qed.

Lemma step_wf y y' : step y y' → sys_wf (sy_world y) → sys_wf (sy_world y').
Proof.
  intros Hst [Hw Hl]. destruct Hst as [y idx s Hn Hd|y w Ht|y m rx|y idx number a0 a1 a2 a3 a4 a5 fp f o w Hc Hwt Hi Hr
    |y idx wt f o w Hc Hwt Hi Hr|y ret entry sp a r w Hn Hi Hr]; cbn [sy_world].
  - destruct (pick_live _ _ _ (ow_sched _ Hw) Hn Hd). split; [by apply put_sched_wf|done].
  - by apply (wlp_run _ _ _ _ _ (timer_irq_wf _ (Build_sys_wf _ Hw Hl)) Ht).
  - destruct Hw as [Hv Hs Hnet He]. split; [split; [by apply poke_wf|done..]|done].
  - refine (wlp_run _ (λ _, sys_wf) _ _ _ _ Hr). apply wlp_bind. eapply wlp_mono; [by apply dispatch_answers|].
    intros a w1 Ha. by apply (settle_wf idx a (set_frame f (sy_world y))).
  - refine (wlp_run _ (λ _, sys_wf) _ _ _ _ Hr). apply wlp_bind. eapply wlp_mono; [by apply resume_answers|].
    intros a w1 Ha. by apply (settle_wf idx a (set_frame f (sy_world y))).
  - pose proof (os_may_spawn _ (spawn_user ret entry sp a)) as Hm. unfold on_os in Hr.
    pose proof (Hm _ Hw Hl Hi) as Hk. unfold wlp in Hk. destruct (on_os_sched _ _) as [[r' o]|]; [|done].
    injection Hr as <- <-. destruct Hk as [Ho [_ _ _ Hl']]. split; [done|by apply Hl'].
Qed.

(** ** Executing a run *)

Inductive event :=
  | EPick | ETick | EUser (m : mem) (rx : list Z)
  | ECall (number a0 a1 a2 a3 a4 a5 frame_ptr : Z) (f : UserFrame)
  | EResume
  | ESpawn (ret entry sp : Z) (a : AddressSpace).

Definition new_ids (y : System) : bool := sc_next_pid (sy_sched y) + 1 <? 2^32.

Definition run_to (pid : Z) (c : st World (option waiting)) (f : UserFrame) (y : System) : option System :=
  match c (set_frame f (sy_world y)) with
  | Ret (o, w) => Some (mkSystem w (note_wait pid o (w_frame w) (sy_waits y)))
  | Panic => None
  end.

(** The step of an event, or [None] where it cannot happen or the kernel panics. *)
Definition exec (e : event) (y : System) : option System :=
  let w := sy_world y in
  let s := sy_sched y in
  match e, sc_ctx s with
  | EPick, None =>
      match Sched.dispatch s with
      | (Some _, s') => Some (mkSystem (set_os (put_sched s' (w_os w)) w) (sy_waits y))
      | _ => None
      end
  | ETick, _ => match timer_irq w with Ret (_, w') => Some (mkSystem w' (sy_waits y)) | Panic => None end
  | EUser m rx, _ => Some (mkSystem (set_os (set_rx rx (put_mem m (w_os w))) w) (sy_waits y))
  | ECall number a0 a1 a2 a3 a4 a5 frame_ptr f, Some idx =>
      if new_ids y then
        match sy_waits y !! sc_cur s with
        | None => run_to (sc_cur s) (a ← dispatch lay inflate initrd vfs_port ret_to_user_fork kbuf number a0 a1 a2 a3 a4 a5 frame_ptr; settle idx a) f y
        | Some _ => None
        end
      else None
  | EResume, Some idx =>
      if new_ids y then
        match sy_waits y !! sc_cur s with
        | Some (wt, f) => run_to (sc_cur s) (a ← resume lay wt; settle idx a) f y
        | None => None
        end
      else None
  | ESpawn ret entry sp a, None =>
      if new_ids y then
        match on_os (on_os_sched (spawn_user_with_address_space ret entry sp a)) w with
        | Ret (_, w') => Some (mkSystem w' (sy_waits y))
        | Panic => None
        end
      else None
  | _, _ => None
  end.

Fixpoint exec_all (es : list event) (y : System) : option System :=
  match es with [] => Some y | e :: es => exec e y ≫= exec_all es end.

Lemma run_to_Some pid c f y y' : run_to pid c f y = Some y' → ∃ o w,
  c (set_frame f (sy_world y)) = Ret (o, w) ∧ y' = mkSystem w (note_wait pid o (w_frame w) (sy_waits y)).
Proof. unfold run_to. destruct (c _) as [[o w]|]; [|done]. intros [= <-]. eauto. Qed.

(** An event is a step. *)
Lemma exec_step e y y' : exec e y = Some y' → step y y'.
Proof.
  unfold exec, new_ids. destruct (sc_ctx (sy_sched y)) as [idx|] eqn:Hc, e as [| |m rx|number a0 a1 a2 a3 a4 a5 fp f| |ret entry sp a];
    try done; try (case_bool; [|done]); try (apply Z.ltb_lt in Hb).
  - destruct (timer_irq _) as [[[] w]|] eqn:Ht; [|done]. intros [= <-]. by apply step_tick.
  - intros [= <-]. apply step_user.
  - destruct (_ !! _) eqn:Hw; [done|]. intros (o & w & Hr & ->)%run_to_Some. by eapply step_call.
  - destruct (_ !! _) as [[wt f]|] eqn:Hw; [|done]. intros (o & w & Hr & ->)%run_to_Some. by eapply step_resume.
  - destruct (Sched.dispatch _) as [[idx|] s'] eqn:Hd; [|done]. intros [= <-]. by eapply step_pick.
  - destruct (timer_irq _) as [[[] w]|] eqn:Ht; [|done]. intros [= <-]. by apply step_tick.
  - intros [= <-]. apply step_user.
  - destruct (on_os _ _) as [[r w]|] eqn:Hr; [|done]. intros [= <-]. by eapply step_spawn.
Qed.

Lemma exec_all_steps es y y' : exec_all es y = Some y' → rtc step y y'.
Proof.
  revert y. induction es as [|e es IH]; simpl; intros y H; [injection H as <-; apply rtc_refl|].
  destruct (exec e y) as [y1|] eqn:He; [|done]. eapply rtc_l; [by eapply exec_step|by apply IH].
Qed.

Lemma reachable_wf y0 y : rtc step y0 y → sys_wf (sy_world y0) → sys_wf (sy_world y).
Proof. induction 1 as [|y y1 y2 Hs _ IH]; [done|]. intros H. by apply IH, (step_wf y). Qed.

End runs.

(** The state after the kernel has set up its tables and servers: no task yet. *)
Definition boot (k : kmem) (bump : Z) (y : Sys) (net tty : mem) (f : UserFrame) : System :=
  mkSystem (mkWorld (mkOs (mkKernel bump (Vfs_init y) (Sched_init k)) (NetServer_init net) (TtyServer_init tty)
                       (replicate MAX_EPOLL_INSTANCES EpollInstance_empty) [] [])
              PortTable_new FutexTable_init f) ∅.

Lemma boot_wf k bump y net tty f : sys_wf (sy_world (boot k bump y net tty f)).
Proof.
  split; [split|]; [apply Vfs_init_wf|apply Sched_init_wf|apply net_init_wf|apply length_replicate|].
  apply live_idle; [apply Sched_init_wf|done].
Qed.

(** What holds between two steps. *)
Record sound (y : System) : Prop := {
  sd_vfs : vfs_wf (kn_vfs (os_k (w_os (sy_world y))));
  sd_net : net_wf (os_net (w_os (sy_world y)));
  sd_queue : rq_wf (sc_rq (sy_sched y));
  sd_pids : ∀ i j t u, task_at (sy_sched y) i t → task_at (sy_sched y) j u → t_pid t = t_pid u → i = j;
  sd_running : ∀ i t, task_at (sy_sched y) i t → t_state t = Running → sc_ctx (sy_sched y) = Some i;
  sd_no_zombie : ∀ i t, task_at (sy_sched y) i t → t_state t ≠ Zombie;
  sd_current : ∀ i, sc_ctx (sy_sched y) = Some i → ∃ t, task_at (sy_sched y) i t ∧ t_pid t = sc_cur (sy_sched y)
}.

Lemma sys_wf_sound y : sys_wf (sy_world y) → sound y.
Proof.
  intros [[Hv [Hok Hc] Hn _] Hl]. fold (sy_sched y) in *. unfold cur_ok in Hc. split; try done; try apply Hok.
  - intros i t Ht Hr. destruct (so_state _ _ Hok i t Ht) as [?|[?|?]]; [done|congruence..].
  - intros i t Ht Hz. destruct (so_state _ _ Hok i t Ht) as [Hi|[?|?]]; [|congruence..].
    rewrite Hi in Hc. destruct Hc as (u & Hu & Hp). assert (u = t) as -> by (unfold task_at in *; congruence).
    by apply (Hl i t).
  - intros i Hi. by rewrite Hi in Hc.
Qed.


(** Two programs are started; one asks for its identifier, yields, is preempted,
    goes on and exits; the other makes an unknown call. *)
Definition demo_boot : System :=
  boot (mkKmem (mkBuddy (<[10%nat := Some 0x400000]> (replicate MAX_ORDER None)) 1024 1024) 0 (λ _, 0) 0) 0x10000000
    (tmp_sys (λ _, 0)) (λ _, 0) (λ _, 0) (mkUserFrame (replicate 31 0) 0 0 0).

Definition demo_layouts : layouts :=
  mkLayouts (λ _ _, mkMessage 0 0 [] None) (λ _, []) (λ _ _, DEFAULT_SIGACTION) (λ _, []).

Definition demo_events : list event :=
  let f := mkUserFrame (replicate 31 0) 0x7000 0x400000 0 in
  [ESpawn 0 0x400000 0x7000 (AddressSpace_new 0x1000); ESpawn 0 0x400000 0x7000 (AddressSpace_new 0x2000);
   EPick; ECall 172 0 0 0 0 0 0 0 f; ECall 124 0 0 0 0 0 0 0 f; EPick; ECall 9999 0 0 0 0 0 0 0 f; ETick;
   EPick; EResume; ECall 93 0 0 0 0 0 0 0 f].


(** ** The system call table

    What a number selects: each of the 170 calls of the table has one arm, no arm
    hides another, and every other number is refused. *)

(** Every number leads to its own call. *)
Lemma decode_number c : decode (number_of c) = Some c.
Proof. by destruct c. Qed.

Lemma decode_None number : (∀ c, number_of c ≠ number) → decode number = None.
Proof. intros H. apply find_first_None. intros i c _. apply Z.eqb_neq, H. Qed.

(** The state that a refused call leaves: only the clients of expired timers see
    a difference. *)
Definition after_timers (w : World) : World :=
  let s := w_os w in
  let '(y, sc) := check_timers (os_pid s) (os_tty s, os_sched s) in set_os (put_sched sc (set_tty y s)) w.

Definition no_timer_due (w : World) : Prop :=
  ∀ t x, t ∈ ty_timers (os_tty (w_os w)) → x ∈ pt_timers t → due (ticks (os_sched (w_os w))) x = false.

Lemma check_timers_loop_idle now l s : (∀ x, x ∈ l → due now x = false) → check_timers_loop now l s = (l, s).
Proof.
  induction l as [|x l IH]; intros H; [done|]. cbn [check_timers_loop]. rewrite H by apply list_elem_of_here.
  rewrite IH; [done|]. intros y Hy. by apply H, list_elem_of_further.
Qed.

Lemma after_no_timers w : no_timer_due w → after_timers w = w.
Proof.
  intros H. unfold after_timers, check_timers. destruct w as [[[bump v sc] n y e rx tx] p f u]. cbn -[check_timers_loop] in *.
  destruct (position _ (ty_timers y)) as [i|]; [|by destruct y]. cbn -[check_timers_loop].
  destruct (ty_timers y !! i) as [t|] eqn:Ht; [|by destruct y]. cbn -[check_timers_loop].
  rewrite check_timers_loop_idle.
  - replace (mkTimerTbl _ _ _) with t by by destruct t. rewrite list_insert_id by done. by destruct y.
  - intros x Hx. by apply (H t x); [by eapply list_elem_of_lookup_2|].
Qed.

Lemma timers_only w :
  kn_vfs (os_k (w_os (after_timers w))) = kn_vfs (os_k (w_os w)) ∧ os_net (w_os (after_timers w)) = os_net (w_os w) ∧
  os_epoll (w_os (after_timers w)) = os_epoll (w_os w) ∧ w_ports (after_timers w) = w_ports w ∧
  w_futex (after_timers w) = w_futex w ∧ w_frame (after_timers w) = w_frame w.
Proof. unfold after_timers. by destruct (check_timers _ _). Qed.

Section table.
Context (lay : layouts) (inflate : list Z → option (list Z)) (initrd : option (list Z)) (vfs_port ret_to_user_fork kbuf : Z).
Context (a0 a1 a2 a3 a4 a5 frame_ptr : Z).

Let call := dispatch lay inflate initrd vfs_port ret_to_user_fork kbuf.

(** The groups of arms that have the call. *)
Definition arms_of (c : nr) : list (st World answer) :=
  omap (λ h, h) [task_arms lay inflate initrd vfs_port ret_to_user_fork a0 a1 a2 a3 a4 a5 frame_ptr c; file_arms kbuf a0 a1 a2 a3 c;
           net_time_arms kbuf a0 a1 a2 a3 a4 a5 c; misc_arms kbuf a0 a1 a2 a3 a4 c].

Lemma arms_of_one c : length (arms_of c) = 1%nat.
Proof. by destruct c. Qed.

(** One arm has it, and it is the one that runs. *)
Lemma arms_of_arm c : arms_of c = [arm lay inflate initrd vfs_port ret_to_user_fork kbuf a0 a1 a2 a3 a4 a5 frame_ptr c].
Proof.
  pose proof (arms_of_one c) as H. unfold arms_of, arm in *.
  by destruct (task_arms _ _ _ _ _ _ _ _ _ _ _ _ c), (file_arms _ _ _ _ _ c), (net_time_arms _ _ _ _ _ _ _ c), (misc_arms _ _ _ _ _ _ c).
Qed.

End table.

(** [dup] always fails: it asks the file server to duplicate to the descriptor
    2^64 - 1, which the server refuses. *)
Lemma dup_always_fails oldfd s : 0 ≤ oldfd < 2^64 → ∃ s', sys_dup oldfd s = Ret (-9, s').
Proof.
  intros Ho. unfold sys_dup, vfs_req, on_k, vfs_call.
  set (msg := make_vfs_msg VFS_DUP2 [oldfd; U64_MAX]).
  assert (arg msg 1 = U64_MAX) as Ha by (apply arg_make_vfs_msg; [done|lia|unfold U64_MAX; lia]).
  assert (∀ pid v, Vfs.handle msg pid v = handle_dup2 pid (arg msg 0) (arg msg 1) v) as Hh by done.
  rewrite Hh, Ha. unfold handle_dup2. rewrite orb_true_r. eexists. reflexivity.
Qed.
