(* ===== verification/LibcStart.v ===== *)
(** * From execve to main (src/userland/libc/src/start.rs, src/servers/libc-shim/src/lib.rs)

    What the user library does with the stack that [execve] has built: [_start]
    finds the arguments of [main], and the shim its entries of the auxiliary
    vector.  Words are read through the address space of the new program. *)

From Stdlib Require Import ZArith Lia Ascii String.
From stdpp Require Import base list option numbers.
From S2P Require Import Prelude Words Buddy Memory Vmm Task Sched VfsData Cpio Elf SysMem SysOs SysFileSpec Execve ExecveSpec.

Local Open Scope Z_scope.

Section start.
(** A word of the program's memory; [None] is a fault. *)
Context (word : Z → option Z).

(** The walk to the NULL behind the environment; the fuel bounds the entries. *)
Fixpoint skip_envp (fuel : nat) (ep : Z) : option Z :=
  match fuel with
  | O => None
  | S fuel' => w ← word ep; if negb (w =? 0) then skip_envp fuel' (ep + 8) else Some ep
  end.

(** [parse_auxv] reads the pairs up to AT_NULL and keeps nothing. *)
Fixpoint parse_auxv (fuel : nat) (av : Z) : option unit :=
  match fuel with
  | O => None
  | S fuel' => tag ← word av; _ ← word (av + 8); if tag =? 0 then Some tt else parse_auxv fuel' (av + 16)
  end.

(** The arguments of [main]: argc, argv and envp. *)
Definition libc_start_main (fuel : nat) (sp : Z) : option (Z * Z * Z) :=
  w ← word sp;
  let argc := to_i32 w in
  let argv := sp + 8 in
  let envp := argv + 8 * wadd (u64 argc) 1 in
  ep ← skip_envp fuel envp;
  _ ← parse_auxv fuel (ep + 8);
  Some (argc, argv, envp).

(** ** The shim *)

Record Shim := mkShim { aux_pagesz : Z; aux_random : Z; aux_vfs_port : Z }.

Definition Shim_init : Shim := mkShim 4096 0 U32_MAX.

Definition aux_store (key val : Z) (x : Shim) : Shim :=
  if key =? 6 then mkShim val (aux_random x) (aux_vfs_port x)
  else if key =? 25 then mkShim (aux_pagesz x) val (aux_vfs_port x)
  else if key =? 256 then mkShim (aux_pagesz x) (aux_random x) (u32 val)
  else x.

Fixpoint shim_loop (fuel : nat) (p : Z) (x : Shim) : option Shim :=
  match fuel with
  | O => None
  | S fuel' =>
      key ← word p;
      val ← word (p + 8);
      if key =? 0 then Some x else shim_loop fuel' (p + 16) (aux_store key val x)
  end.

Definition cyanos_shim_init (fuel : nat) (auxv_ptr : Z) (x : Shim) : option Shim :=
  if auxv_ptr =? 0 then Some x else shim_loop fuel auxv_ptr x.

Definition cyanos_shim_init_from_sp (fuel : nat) (sp : Z) (x : Shim) : option Shim :=
  if sp =? 0 then Some x
  else
    argc ← word sp;
    p ← skip_envp fuel (sp + 8 * (1 + argc + 1));
    cyanos_shim_init fuel (p + 8) x.

Definition getauxval (type : Z) (x : Shim) : Z :=
  if type =? 6 then aux_pagesz x else if type =? 25 then aux_random x else if type =? 256 then aux_vfs_port x else 0.

(** ** Reading a frame *)

Definition words (a : Z) (ws : list Z) : Prop := ∀ i w, ws !! i = Some w → word (a + 8 * Z.of_nat i) = Some w.

Lemma words_cons a w ws : words a (w :: ws) → word a = Some w ∧ words (a + 8) ws.
Proof.
  intros H. split.
  - specialize (H 0%nat w eq_refl). by rewrite Z.add_0_r in H.
  - intros i v Hi. specialize (H (S i) v Hi). rewrite <- H. f_equal. lia.
Qed.

Lemma words_app a x y : words a (x ++ y) → words a x ∧ words (a + 8 * Z.of_nat (length x)) y.
Proof.
  intros H. split; intros i w Hi.
  - apply H. by apply lookup_app_l_Some.
  - replace (a + 8 * Z.of_nat (length x) + 8 * Z.of_nat i) with (a + 8 * Z.of_nat (length x + i)) by lia.
    apply H. rewrite lookup_app_r by lia. by replace (length x + i - length x)%nat with i by lia.
Qed.

Lemma skip_envp_spec qs : Forall (λ q, q ≠ 0) qs → ∀ fuel a rest, words a (qs ++ 0 :: rest) → (length qs < fuel)%nat →
  skip_envp fuel a = Some (a + 8 * Z.of_nat (length qs)).
Proof.
  induction 1 as [|q qs Hq _ IH]; intros fuel a rest Hw Hf; (destruct fuel as [|fuel]; [simpl in Hf; lia|]); cbn [skip_envp app] in *;
    apply words_cons in Hw as [Hw0 Hw]; rewrite Hw0; cbn [mbind option_bind].
  - by rewrite Z.add_0_r.
  - rewrite (proj2 (Z.eqb_neq _ _) Hq). cbn [negb]. rewrite (IH fuel (a + 8) rest Hw) by (simpl in Hf; lia). f_equal. simpl. lia.
Qed.

(** The auxiliary vector as words. *)
Definition aux_words (kvs : list (Z * Z)) : list Z := mjoin ((λ kv, [kv.1; kv.2]) <$> kvs).

Lemma aux_spec kvs : Forall (λ kv, kv.1 ≠ 0) kvs → ∀ fuel a z x, words a (aux_words kvs ++ [0; z]) → (length kvs < fuel)%nat →
  parse_auxv fuel a = Some tt ∧ shim_loop fuel a x = Some (foldl (λ x kv, aux_store kv.1 kv.2 x) x kvs).
Proof.
  induction 1 as [|[k v] kvs Hk _ IH]; intros fuel a z x Hw Hf; (destruct fuel as [|fuel]; [simpl in Hf; lia|]);
    apply words_cons in Hw as [Hw0 Hw]; apply words_cons in Hw as [Hw1 Hw]; cbn [parse_auxv shim_loop]; rewrite Hw0; cbn [mbind option_bind];
    rewrite Hw1; cbn [mbind option_bind]; [done|].
  cbn [fst] in *. rewrite (proj2 (Z.eqb_neq _ _) Hk). rewrite <- Z.add_assoc in Hw. apply (IH fuel (a + 16) z); [done|simpl in Hf; lia].
Qed.

(** The frame of a program with arguments [ps] and environment [qs]. *)
Definition frame (sp rnd port : Z) (ps qs : list Z) : Prop :=
  words sp ([Z.of_nat (length ps)] ++ ps ++ [0] ++ qs ++ [0] ++
    [25; rnd; 6; PAGE_SIZE; 11; 0; 12; 0; 13; 0; 14; 0; AT_CYANOS_VFS_PORT; port; 0; 0]).

Definition kernel_aux (rnd port : Z) : list (Z * Z) :=
  [(25, rnd); (6, PAGE_SIZE); (11, 0); (12, 0); (13, 0); (14, 0); (AT_CYANOS_VFS_PORT, port)].

Lemma kernel_aux_keys rnd port : Forall (λ kv, kv.1 ≠ 0) (kernel_aux rnd port).
Proof. repeat (constructor; [done|]). constructor. Qed.

Section frame.
Context (sp rnd port : Z) (ps qs : list Z) (fuel : nat).
Context (Hf : frame sp rnd port ps qs) (Hq : Forall (λ q, q ≠ 0) qs).
Context (Hps : Z.of_nat (length ps) < 2^31) (Hfuel : (length qs + 8 < fuel)%nat).

Let argv := sp + 8.
Let envp := sp + 8 + 8 * (Z.of_nat (length ps) + 1).
Let auxp := envp + 8 * Z.of_nat (length qs) + 8.

Lemma frame_parts : word sp = Some (Z.of_nat (length ps)) ∧ words argv (ps ++ [0]) ∧ words envp (qs ++ [0]) ∧
  skip_envp fuel envp = Some (envp + 8 * Z.of_nat (length qs)) ∧
  words auxp [25; rnd; 6; PAGE_SIZE; 11; 0; 12; 0; 13; 0; 14; 0; AT_CYANOS_VFS_PORT; port; 0; 0].
Proof.
  pose proof Hf as Hw. unfold frame in Hw. apply words_cons in Hw as [H0 Hw]. fold argv in Hw.
  rewrite app_assoc in Hw. apply words_app in Hw as [Ha Hw]. rewrite length_app in Hw.
  replace (argv + 8 * Z.of_nat (length ps + length [0])) with envp in Hw by (unfold envp, argv; simpl; lia).
  split_and!; [done|done| | |].
  - rewrite app_assoc in Hw. by apply words_app in Hw as [Hw _].
  - eapply skip_envp_spec; [done|exact Hw|lia].
  - rewrite app_assoc in Hw. apply words_app in Hw as [_ Hw]. rewrite length_app in Hw.
    by replace (envp + 8 * Z.of_nat (length qs + length [0])) with auxp in Hw by (unfold auxp; simpl; lia).
Qed.

(** [main] gets the vectors of the frame. *)
Lemma start_frame : libc_start_main fuel sp = Some (Z.of_nat (length ps), argv, envp).
Proof.
  destruct frame_parts as (H0 & _ & _ & Hs & Hx). unfold libc_start_main. rewrite H0. cbn [mbind option_bind].
  rewrite to_i32_small by lia.
  rewrite u64_small, wadd_small by lia. fold argv. change (argv + 8 * (Z.of_nat (length ps) + 1)) with envp. rewrite Hs. cbn [mbind option_bind].
  fold auxp. destruct (aux_spec (kernel_aux rnd port) (kernel_aux_keys rnd port) fuel auxp 0 Shim_init Hx) as [-> _]; [simpl; lia|done].
Qed.

(** The shim gets the page size, the random bytes and the port of the VFS server. *)
Lemma shim_frame x : sp ≠ 0 → auxp ≠ 0 → cyanos_shim_init_from_sp fuel sp x = Some (mkShim PAGE_SIZE rnd (u32 port)).
Proof.
  intros Hsp Hap. destruct frame_parts as (H0 & _ & _ & Hs & Hx). unfold cyanos_shim_init_from_sp. rewrite (proj2 (Z.eqb_neq _ _) Hsp), H0.
  cbn [mbind option_bind]. replace (sp + 8 * (1 + Z.of_nat (length ps) + 1)) with envp by (unfold envp; lia). rewrite Hs. cbn [mbind option_bind].
  fold auxp. unfold cyanos_shim_init. rewrite (proj2 (Z.eqb_neq _ _) Hap).
  by destruct (aux_spec (kernel_aux rnd port) (kernel_aux_keys rnd port) fuel auxp 0 x Hx) as [_ ->]; [simpl; lia|].
Qed.
End frame.
End start.

(** ** From execve to main *)

(** What [main] finds: its vectors, and behind each pointer the string. *)
Record main_args (k : kmem) (a : AddressSpace) (vec : Z) (strs : list (list Z)) : Prop := {
  ma_strings : ∀ i str, strs !! i = Some str → ∃ p, user_u64 k a (vec + 8 * Z.of_nat i) = Some p ∧ user_arg k a p str;
  ma_null : user_u64 k a (vec + 8 * Z.of_nat (length strs)) = Some 0
}.

Lemma main_args_words k a vec ps strs : words (user_u64 k a) vec (ps ++ [0]) → Forall2 (user_arg k a) ps strs → main_args k a vec strs.
Proof.
  intros Hw Hs. pose proof (Forall2_length Hs) as Hlen. split.
  - intros i str Hi. destruct (Forall2_lookup_r _ _ _ _ _ Hs Hi) as (p & Hp & Hps). exists p. split; [|done].
    apply Hw. by apply lookup_app_l_Some.
  - rewrite <- Hlen. apply Hw. by apply list_lookup_middle.
Qed.

(** The library's start code on a stack as [execve] builds it. *)
Lemma program_starts k a sp port A E fuel x : program_sees k a sp port A E → (length A < 64)%nat → (length E < 64)%nat → 0 < sp → (72 ≤ fuel)%nat →
  ∃ argv envp rnd, libc_start_main (user_u64 k a) fuel sp = Some (Z.of_nat (length A), argv, envp) ∧
    main_args k a argv A ∧ main_args k a envp E ∧
    cyanos_shim_init_from_sp (user_u64 k a) fuel sp x = Some (mkShim PAGE_SIZE rnd (u32 port)).
Proof.
  intros (ps & qs & rnd & Hw & HA & HE) HlA HlE Hsp Hf.
  pose proof (Forall2_length HA) as HA'. pose proof (Forall2_length HE) as HE'.
  assert (frame (user_u64 k a) sp rnd port ps qs) as Hfr by (unfold frame; by rewrite HA').
  assert (Forall (λ q, q ≠ 0) qs) as Hq by (eapply Forall2_Forall_l; [exact HE|by apply Forall_forall; intros ? _ ? []]).
  destruct (frame_parts _ sp rnd port ps qs fuel Hfr Hq ltac:(lia)) as (_ & Ha & He & _ & _).
  exists (sp + 8), (sp + 8 + 8 * (Z.of_nat (length ps) + 1)), rnd. split_and!.
  - rewrite <- HA'. apply (start_frame _ sp rnd port ps qs fuel Hfr Hq); lia.
  - by apply (main_args_words _ _ _ ps).
  - by apply (main_args_words _ _ _ qs).
  - apply (shim_frame _ sp rnd port ps qs fuel Hfr Hq); lia.
Qed.


