(* ===== verification/InitText.v ===== *)
(** * Text of the shell (src/servers/init/src/lib.rs)

    The functions of the shell that work on byte strings alone: trimming,
    searching, numbers, fields, substitution, sorting, formats and tests.  Slices
    are lists; what would index out of bounds is [Panic]. *)

From Stdlib Require Import ZArith Lia Ascii String.
From stdpp Require Import base list option numbers strings sorting sets.
From S2P Require Import Prelude Words Cpio.

Local Open Scope Z_scope.

Definition SP : Z := 32.
Definition TAB : Z := 9.
Definition NL : Z := 10.
Definition CR : Z := 13.

Definition is_digit (c : Z) : bool := (48 <=? c) && (c <=? 57).
Definition is_alnum (c : Z) : bool := is_digit c || ((65 <=? c) && (c <=? 90)) || ((97 <=? c) && (c <=? 122)).
(** A byte of a name: [is_ascii_alphanumeric() || b == b'_'] *)
Definition is_name (c : Z) : bool := is_alnum c || (c =? 95).

(** [s.iter().position(|&b| b == c)] *)
Definition pos_of (c : Z) (s : list Z) : option nat := position (λ b, b =? c) s.
Definition starts_with (p s : list Z) : bool := bool_decide (take (length p) s = p).
Definition ends_with (p s : list Z) : bool := bool_decide (drop (length s - length p) s = p).
Definition empty (s : list Z) : bool := (length s =? 0)%nat.

Definition trim (s : list Z) : list Z :=
  let start := default (length s) (position (λ b, negb (b =? SP)) s) in
  let end_ := match position (λ b, negb (b =? SP)) (reverse s) with Some p => (length s - p)%nat | None => 0%nat end in
  if (end_ <=? start)%nat then [] else take (end_ - start) (drop start s).

(** [haystack.windows(needle.len()).position(|w| w == needle)] *)
Fixpoint windows_pos (needle haystack : list Z) : option nat :=
  if (length haystack <? length needle)%nat then None
  else if starts_with needle haystack then Some 0%nat
  else match haystack with [] => None | _ :: rest => S <$> windows_pos needle rest end.

Definition find_seq (haystack needle : list Z) : option nat :=
  if empty needle then Some 0%nat else windows_pos needle haystack.

(** [line.windows(pat.len()).any(|w| w == pat)] for a pattern that is not empty *)
Definition contains (pat line : list Z) : bool := match windows_pos pat line with Some _ => true | None => false end.

(** The token up to the next space and what follows it. *)
Definition split_space (s : list Z) : list Z * list Z :=
  match pos_of SP s with Some sp => (take sp s, trim (drop (sp + 1) s)) | None => (s, []) end.

(** ** Numbers *)

Fixpoint dec_loop (room : nat) (n : Z) (acc : list Z) : list Z :=
  match room with
  | O => acc
  | S room' => if 0 <? n then dec_loop room' (n / 10) (48 + n mod 10 :: acc) else acc
  end.

(** The digits of a 32-bit number: ten at most. *)
Definition u32_dec (n : Z) : list Z := if n =? 0 then [48] else dec_loop 10 n [].

(** The number at the front and the rest; [w] is the wrap-around of the type. *)
Fixpoint number_from (w : Z → Z) (v : Z) (s : list Z) : Z * list Z :=
  match s with
  | c :: s' => if is_digit c then number_from w (w (v * 10 + (c - 48))) s' else (v, s)
  | [] => (v, [])
  end.

Definition parse_int (s : list Z) : Z :=
  match s with
  | 45 :: s' => to_i64 (- (number_from to_i64 0 s').1)
  | _ => (number_from to_i64 0 s).1
  end.

(** [parse_kb]: the first number of the line *)
Fixpoint parse_kb_loop (v : Z) (seen : bool) (s : list Z) : Z :=
  match s with
  | [] => v
  | c :: s' => if is_digit c then parse_kb_loop (u32 (v * 10 + (c - 48))) true s' else if seen then v else parse_kb_loop v seen s'
  end.

Definition parse_kb (line : list Z) : Z := parse_kb_loop 0 false line.

(** All the digits of a string, as [kill] reads them *)
Definition all_digits (s : list Z) : Z := foldl (λ v c, if is_digit c then u32 (v * 10 + (c - 48)) else v) 0 s.

(** ** Fields *)

(** [cut]: the [field]th field of the line, when it has one *)
Fixpoint cut_loop (delim : Z) (field : nat) (line : list Z) (f_cur start j : nat) : nat * nat * option nat :=
  match line with
  | [] => (f_cur, start, None)
  | c :: line' =>
      if c =? delim then
        if (f_cur =? field)%nat then (f_cur, start, Some j) else cut_loop delim field line' (S f_cur) (S j) (S j)
      else cut_loop delim field line' f_cur start (S j)
  end.

Definition cut_field (delim : Z) (field : nat) (line : list Z) : option (list Z) :=
  let '(f_cur, start, e) := cut_loop delim field line 1 0 0 in
  let end_ := default (length line) e in
  if (f_cur =? field)%nat then Some (take (end_ - start) (drop start line)) else None.

Definition is_blank (c : Z) : bool := (c =? SP) || (c =? TAB).

Fixpoint skip_while (p : Z → bool) (s : list Z) : list Z :=
  match s with c :: s' => if p c then skip_while p s' else s | [] => [] end.
Fixpoint take_while (p : Z → bool) (s : list Z) : list Z :=
  match s with c :: s' => if p c then c :: take_while p s' else [] | [] => [] end.

(** [awk_print_field]: what is printed of the line, with the newline *)
Fixpoint awk_loop (fuel : nat) (line : list Z) (f field : nat) : list Z :=
  match fuel with
  | O => []
  | S fuel' =>
      let line := skip_while is_blank line in
      if empty line then []
      else
        let tok := take_while (λ c, negb (is_blank c)) line in
        if (S f =? field)%nat then tok ++ [NL] else awk_loop fuel' (drop (length tok) line) (S f) field
  end.

Definition awk_print_field (line : list Z) (field : nat) : list Z :=
  if (field =? 0)%nat then line ++ [NL] else awk_loop (length line) line 0 field.

(** ** Substitution *)

(** [if oi < 511 { out[oi] = b; oi += 1; }] *)
Definition push (cap : nat) (out : list Z) (b : Z) : list Z := if (length out <? cap)%nat then out ++ [b] else out.
Definition push_all (cap : nat) (out bs : list Z) : list Z := foldl (push cap) out bs.

(** The loop of [sed_replace]; each round moves on, so the length of the line is
    enough fuel. *)
Fixpoint sed_loop (fuel : nat) (line from to : list Z) (global : bool) (i : nat) (replaced : bool) (out : list Z) : outcome (nat * list Z) :=
  match fuel with
  | O => Ret (i, out)
  | S fuel' =>
      if (i <=? length line - length from)%nat then
        let copy :=
          match line !! i with
          | Some c => sed_loop fuel' line from to global (i + 1) replaced (push 511 out c)
          | None => Panic
          end in
        if negb replaced || global then
          if (i + length from <=? length line)%nat then
            if bool_decide (take (length from) (drop i line) = from)
            then sed_loop fuel' line from to global (i + length from) true (push_all 511 out to)
            else copy
          else Panic
        else copy
      else Ret (i, out)
  end.

Definition sed_replace (line from to : list Z) (global : bool) : outcome (list Z) :=
  if empty from then Ret (take 511 line)
  else
    match sed_loop (S (length line)) line from to global 0 false [] with
    | Ret (i, out) => Ret (push_all 511 out (drop i line))
    | Panic => Panic
    end.

(** ** Sorting *)

(** [a > b] on slices: lexicographic *)
Fixpoint lex_gt (a b : list Z) : bool :=
  match a, b with
  | [], _ => false
  | _ :: _, [] => true
  | x :: a', y :: b' => (y <? x) || ((x =? y) && lex_gt a' b')
  end.

(** [while j > 0 && lines[j-1] > lines[j] { swap(j-1, j); j -= 1 }] *)
Fixpoint sift (j : nat) (lines : list (list Z)) : list (list Z) :=
  match j with
  | O => lines
  | S i =>
      match lines !! i, lines !! j with
      | Some a, Some b => if lex_gt a b then sift i (<[i := b]> (<[j := a]> lines)) else lines
      | _, _ => lines
      end
  end.

(** [for i in 1..count] *)
Fixpoint sort_loop (n i : nat) (lines : list (list Z)) : list (list Z) :=
  match n with
  | O => lines
  | S n' => sort_loop n' (S i) (sift i lines)
  end.

Definition insertion_sort (lines : list (list Z)) : list (list Z) := sort_loop (length lines - 1) 1 lines.

(** ** printf *)

Record pf := mkPf { pf_out : list Z; pf_rest : list Z }.

Definition pf_push (x : pf) (bs : list Z) : pf := mkPf (push_all 510 (pf_out x) bs) (pf_rest x).

(** The next argument. *)
Definition pf_arg (x : pf) : list Z * pf :=
  let '(tok, tail) := split_space (trim (pf_rest x)) in (tok, mkPf (pf_out x) tail).

(** The conversions; [pad] and [width] come from the directive. *)
Definition pf_convert (c pad : Z) (width : nat) (x : pf) : pf :=
  if c =? 115 then let '(tok, x) := pf_arg x in pf_push x tok
  else if c =? 100 then
    let '(tok, x) := pf_arg x in
    let val := parse_int tok in
    let db := if val <? 0 then u32_dec (u32 (to_i64 (- val))) else u32_dec (u32 val) in
    let x := if val <? 0 then pf_push x [45] else x in
    pf_push (pf_push x (replicate (width - length db) pad)) db
  else if c =? 37 then pf_push x [37]
  else pf_push x [37; c].

Fixpoint pf_loop (fuel : nat) (fmt : list Z) (x : pf) : pf :=
  match fuel with
  | O => x
  | S fuel' =>
      if (510 <=? length (pf_out x))%nat then x
      else
        match fmt with
        | [] => x
        | 92 :: c :: fmt' =>
            pf_loop fuel' fmt' (pf_push x (if c =? 110 then [NL] else if c =? 116 then [TAB] else if c =? 114 then [CR]
                                           else if c =? 92 then [92] else [92; c]))
        | 37 :: ((c :: fmt1) as fmt0) =>
            let pad := if c =? 48 then 48 else SP in
            let '(width, fmt') := number_from u64 0 (if c =? 48 then fmt1 else fmt0) in
            match fmt' with
            | [] => x
            | d :: fmt'' => pf_loop fuel' fmt'' (pf_convert d pad (Z.to_nat width) x)
            end
        | c :: fmt' => pf_loop fuel' fmt' (pf_push x [c])
        end
  end.

(** What [printf] writes. *)
Definition printf_bytes (args : list Z) : list Z :=
  let '(fmt, rest) := match pos_of SP args with Some sp => (take sp args, drop (sp + 1) args) | None => (args, []) end in
  pf_out (pf_loop (length fmt) fmt (mkPf [] rest)).

(** ** Patterns of case *)

Definition glob_match (pat expr : list Z) : bool :=
  if bool_decide (pat = [42]) then true
  else if ends_with [42] pat then starts_with (take (length pat - 1) pat) expr
  else if starts_with [42] pat then ends_with (drop 1 pat) expr
  else bool_decide (pat = expr).

(** ** Tests *)

(** The binary operators of [test]; the file operators are in the shell. *)
Definition compare_at (op : list Z) (args : list Z) (cmp : Z → Z → bool) : option bool :=
  p ← find_seq args op;
  Some (cmp (parse_int (trim (take p args))) (parse_int (trim (drop (p + length op) args)))).

Definition test_binary (args : list Z) : bool :=
  match compare_at (bytes " -eq ") args Z.eqb with Some r => r | None =>
  match compare_at (bytes " -ne ") args (λ a b, negb (a =? b)) with Some r => r | None =>
  match compare_at (bytes " -lt ") args Z.ltb with Some r => r | None =>
  match compare_at (bytes " -gt ") args Z.gtb with Some r => r | None =>
  match compare_at (bytes " -le ") args Z.leb with Some r => r | None =>
  match compare_at (bytes " -ge ") args Z.geb with Some r => r | None =>
  match find_seq args (bytes " != ") with Some p => negb (bool_decide (take p args = drop (p + 4) args)) | None =>
  match find_seq args (bytes " = ") with Some p => bool_decide (take p args = drop (p + 3) args) | None =>
  negb (empty args)
  end end end end end end end end.

(** ** Properties of the text functions of the shell

    Trimming and searching, decimal numbers, the sort, substitution and the
    splitting of a stream into lines. *)

(** ** Trimming and searching *)

Definition nonspace (b : Z) : bool := negb (b =? SP).

(** A text without spaces at its ends. *)
Definition trimmed (s : list Z) : Prop := ∃ a b, s !! 0%nat = Some a ∧ last s = Some b ∧ a ≠ SP ∧ b ≠ SP.

Lemma position_first {A} (p : A → bool) a l x : Forall (λ y, p y = false) a → p x = true → position p (a ++ x :: l) = Some (length a).
Proof. induction 1 as [|y a Hy _ IH]; intros Hx; cbn [app position length]; [by rewrite Hx|]. by rewrite Hy, IH. Qed.

Lemma nonspace_true b : b ≠ SP → nonspace b = true.
Proof. intros Hb. unfold nonspace. by rewrite (proj2 (Z.eqb_neq _ _) Hb). Qed.

Lemma spaces_false n : Forall (λ y, nonspace y = false) (replicate n SP).
Proof. apply Forall_replicate. done. Qed.

(** Trimming takes the spaces at both ends away and nothing else. *)
Lemma trim_spec m s n : trimmed s → trim (replicate m SP ++ s ++ replicate n SP) = s.
Proof.
  intros (a & b & Ha & Hb & Hna & Hnb). unfold trim. change (λ b : Z, negb (b =? SP)) with nonspace.
  assert (position nonspace (replicate m SP ++ s ++ replicate n SP) = Some m) as ->.
  { destruct s as [|x s]; [done|]. injection Ha as ->. cbn [app].
    rewrite position_first by (apply spaces_false || by apply nonspace_true). by rewrite length_replicate. }
  apply last_Some in Hb as [s0 ->].
  rewrite !reverse_app, reverse_replicate, reverse_singleton, <- app_assoc. cbn [app].
  rewrite (position_first nonspace (replicate n SP)) by (apply spaces_false || by apply nonspace_true).
  rewrite !length_app, !length_replicate. cbn [default length]. rewrite (proj2 (Nat.leb_gt _ _)) by (simpl; lia).
  rewrite drop_app_length' by (by rewrite length_replicate). rewrite take_app_length'; [done|]. rewrite !length_app. simpl. lia.
Qed.

Lemma trim_id s : trimmed s → trim s = s.
Proof. intros Hs. pose proof (trim_spec 0 s 0 Hs) as H. cbn [replicate app] in H. by rewrite app_nil_r in H. Qed.

Lemma trim_nil : trim [] = [].
Proof. done. Qed.

Lemma windows_pos_cons needle x h :
  windows_pos needle (x :: h) =
  if (length (x :: h) <? length needle)%nat then None
  else if starts_with needle (x :: h) then Some 0%nat
  else S <$> windows_pos needle h.
Proof. done. Qed.

(** A text whose first byte does not occur before is found there. *)
Lemma find_at c needle a b : c ∉ a → windows_pos (c :: needle) (a ++ (c :: needle) ++ b) = Some (length a).
Proof.
  induction a as [|x a IH]; intros Hc.
  - cbn [app length]. assert (starts_with (c :: needle) (c :: needle ++ b) = true) as Hs.
    { unfold starts_with. apply bool_decide_true. cbn [length take]. f_equal. apply take_app_length. }
    rewrite windows_pos_cons, Hs. cbn [length]. rewrite length_app. by rewrite (proj2 (Nat.ltb_ge _ _)) by lia.
  - change ((x :: a) ++ (c :: needle) ++ b) with (x :: (a ++ (c :: needle) ++ b)). assert (starts_with (c :: needle) (x :: a ++ (c :: needle) ++ b) = false) as Hs.
    { unfold starts_with. apply bool_decide_false. cbn [length take]. intros [= -> _]. set_solver. }
    rewrite windows_pos_cons, Hs, IH by set_solver. rewrite (proj2 (Nat.ltb_ge _ _)); [done|].
    cbn [length]. rewrite !length_app. cbn [length]. lia.
Qed.

Lemma starts_with_app p s : starts_with p (p ++ s) = true.
Proof. unfold starts_with. apply bool_decide_true. apply take_app_length. Qed.

Lemma ends_with_app p s : ends_with p (s ++ p) = true.
Proof. unfold ends_with. apply bool_decide_true. rewrite length_app. apply drop_app_length'. lia. Qed.

Lemma pos_of_app c a b : c ∉ a → pos_of c (a ++ c :: b) = Some (length a).
Proof.
  intros Hc. apply position_first; [|by rewrite Z.eqb_refl]. apply Forall_forall. intros y Hy. apply Z.eqb_neq. intros ->. done.
Qed.

Lemma pos_of_none c a : c ∉ a → pos_of c a = None.
Proof. intros Hc. apply position_None. intros i y Hy. apply Z.eqb_neq. intros ->. apply Hc. by eapply list_elem_of_lookup_2. Qed.

(** ** Numbers *)

Lemma dec_loop_digits room : ∀ n acc, 0 ≤ n < 10 ^ Z.of_nat room → Forall (λ c, is_digit c = true) acc →
  Forall (λ c, is_digit c = true) (dec_loop room n acc).
Proof.
  induction room as [|room IH]; intros n acc Hn Hacc; cbn [dec_loop]; [done|]. case_bool; [|done]. apply IH.
  - rewrite Nat2Z.inj_succ, Z.pow_succ_r in Hn by lia. split; [apply Z.div_pos; lia|apply Z.div_lt_upper_bound; lia].
  - constructor; [|done]. pose proof (Z.mod_pos_bound n 10 ltac:(lia)). unfold is_digit. apply andb_true_iff. split; apply Z.leb_le; lia.
Qed.

(** The value of a string of digits. *)
Definition dec_value (v : Z) (s : list Z) : Z := foldl (λ v c, v * 10 + (c - 48)) v s.

Lemma dec_loop_value room : ∀ n acc, 0 ≤ n < 10 ^ Z.of_nat room →
  ∀ v, dec_value v (dec_loop room n acc) = dec_value (v * 10 ^ Z.of_nat (length (dec_loop room n []))  + n) acc.
Proof.
  induction room as [|room IH]; intros n acc Hn v; cbn [dec_loop].
  - cbn [length]. change (10 ^ Z.of_nat 0) with 1 in *. f_equal. lia.
  - case_bool.
    + rewrite Nat2Z.inj_succ, Z.pow_succ_r in Hn by lia. assert (0 ≤ n / 10 < 10 ^ Z.of_nat room) as Hd
        by (split; [apply Z.div_pos; lia|apply Z.div_lt_upper_bound; lia]).
      assert (∀ k m a, length (dec_loop k m a) = (length (dec_loop k m []) + length a)%nat) as Hlen.
      { clear. induction k as [|k IH]; intros m a; cbn [dec_loop]; [done|]. destruct (0 <? m); [|done]. rewrite (IH _ (_ :: a)), (IH _ [_]). simpl. lia. }
      rewrite (IH _ _ Hd). unfold dec_value. cbn [foldl]. f_equal. rewrite (Hlen room (n / 10) [_]). cbn [length].
      rewrite Nat2Z.inj_add, Z.pow_add_r by lia. change (10 ^ Z.of_nat 1) with 10.
      pose proof (Z.div_mod n 10 ltac:(lia)). nia.
    + cbn [length]. change (10 ^ Z.of_nat 0) with 1. f_equal. lia.
Qed.

Lemma number_from_digits w s v : Forall (λ c, is_digit c = true) s → (∀ x, 0 ≤ x ≤ dec_value v s → w x = x) → 0 ≤ v →
  number_from w v s = (dec_value v s, []).
Proof.
  revert v. induction s as [|c s IH]; intros v Hs Hw Hv; [done|]. apply Forall_cons in Hs as [Hc Hs].
  assert (0 ≤ c - 48) as Hc' by (unfold is_digit in Hc; to_prop; lia).
  assert (∀ s v, 0 ≤ v → Forall (λ c, is_digit c = true) s → v ≤ dec_value v s) as Hmono.
  { clear. induction s as [|c s IH]; intros v Hv Hs; unfold dec_value; cbn [foldl]; [lia|]. apply Forall_cons in Hs as [Hc Hs].
    unfold is_digit in Hc. to_prop. pose proof (IH (v * 10 + (c - 48)) ltac:(lia) Hs) as Hi. unfold dec_value in Hi. lia. }
  cbn [number_from]. rewrite Hc. change (dec_value v (c :: s)) with (dec_value (v * 10 + (c - 48)) s) in *.
  rewrite Hw by (pose proof (Hmono s (v * 10 + (c - 48)) ltac:(lia) Hs); lia). apply IH; [done|done|lia].
Qed.

(** A number that was printed is read back. *)
Lemma dec_roundtrip n : 0 ≤ n < 2^32 → number_from u64 0 (u32_dec n) = (n, []).
Proof.
  intros Hn. assert (0 ≤ n < 10 ^ Z.of_nat 10) as Hn' by (change (10 ^ Z.of_nat 10) with 10000000000; lia).
  assert (dec_value 0 (u32_dec n) = n) as Hv.
  { unfold u32_dec. case_bool; [by subst n|]. rewrite dec_loop_value by done. cbn [dec_value foldl]. unfold dec_value. cbn [foldl]. lia. }
  rewrite number_from_digits; [by rewrite Hv| | |lia].
  - unfold u32_dec. case_bool; [by constructor|]. by apply dec_loop_digits.
  - intros x Hx. rewrite Hv in Hx. apply u64_small. lia.
Qed.

(** ** Sorting *)

(** The order of the lines. *)
Definition lex_le (a b : list Z) : Prop := lex_gt a b = false.

Lemma lex_le_total a b : lex_gt a b = true → lex_le b a.
Proof.
  unfold lex_le. revert b. induction a as [|x a IH]; intros [|y b]; cbn [lex_gt]; [done..|]. intros H.
  apply orb_false_iff. apply orb_true_iff in H as [H|H]; to_prop.
  - split; [apply Z.ltb_ge; lia|]. apply andb_false_iff. left. apply Z.eqb_neq. lia.
  - destruct H as [-> H]. split; [apply Z.ltb_ge; lia|]. apply andb_false_iff. right. by apply IH.
Qed.

Lemma lex_le_trans a b c : lex_le a b → lex_le b c → lex_le a c.
Proof.
  unfold lex_le. revert b c. induction a as [|x a IH]; intros [|y b] [|z c]; cbn [lex_gt]; [done..|]. intros H1 H2.
  apply orb_false_iff in H1 as [H1 H1'], H2 as [H2 H2']. to_prop. apply orb_false_iff. split; [apply Z.ltb_ge; lia|].
  destruct (decide (x = z)) as [->|Hxz]; [|apply andb_false_iff; left; by apply Z.eqb_neq].
  assert (y = z) as -> by lia. rewrite Z.eqb_refl in *. cbn [andb] in *. by eapply IH.
Qed.

(** The new line moves down to its place in the part that is sorted. *)
Lemma sift_inserts pre : ∀ x rest, StronglySorted lex_le pre →
  ∃ l, sift (length pre) (pre ++ x :: rest) = l ++ rest ∧ l ≡ₚ x :: pre ∧ StronglySorted lex_le l.
Proof.
  induction pre as [|a pre IH] using rev_ind; intros x rest Hpre.
  - exists [x]. split; [done|]. split; [done|]. by repeat constructor.
  - rewrite length_app. cbn [length]. rewrite Nat.add_1_r, <- app_assoc. cbn [app sift].
    rewrite list_lookup_middle by done.
    assert ((pre ++ a :: x :: rest) !! S (length pre) = Some x) as ->
      by (rewrite lookup_app_r by lia; by replace (S (length pre) - length pre)%nat with 1%nat by lia).
    apply StronglySorted_app in Hpre as (Hpa & Hpre & _).
    destruct (lex_gt a x) eqn:Hax.
    + replace (<[length pre := x]> (<[S (length pre) := a]> (pre ++ a :: x :: rest))) with (pre ++ x :: a :: rest).
      2:{ rewrite insert_app_r_alt by lia. replace (S (length pre) - length pre)%nat with 1%nat by lia.
          rewrite insert_app_r_alt by lia. by rewrite Nat.sub_diag. }
      destruct (IH x (a :: rest) Hpre) as (l & -> & Hl & Hs). exists (l ++ [a]). rewrite <- app_assoc. split; [done|]. split.
      * rewrite Hl. cbn [app]. by rewrite (Permutation_app_comm pre).
      * apply StronglySorted_app. split; [|split; [done|by repeat constructor]].
        intros y z Hy ->%list_elem_of_singleton. rewrite Hl in Hy. apply elem_of_cons in Hy as [->|Hy]; [by apply lex_le_total|].
        apply Hpa; [done|by apply list_elem_of_singleton].
    + exists (pre ++ [a; x]). rewrite <- app_assoc. split; [done|]. split.
      * by rewrite (Permutation_app_comm _ [a; x]), Permutation_swap, (Permutation_app_comm pre).
      * apply StronglySorted_app. split; [|split; [done|by repeat constructor]].
        intros y z Hy [->|[->|Hz]%elem_of_cons]%elem_of_cons; [| |by apply not_elem_of_nil in Hz].
        -- apply Hpa; [done|by apply list_elem_of_singleton].
        -- apply lex_le_trans with a; [|done]. apply Hpa; [done|by apply list_elem_of_singleton].
Qed.

Lemma sort_loop_sorts n : ∀ pre rest, length rest = n → StronglySorted lex_le pre →
  sort_loop n (length pre) (pre ++ rest) ≡ₚ pre ++ rest ∧ StronglySorted lex_le (sort_loop n (length pre) (pre ++ rest)).
Proof.
  induction n as [|n IH]; intros pre rest Hn Hpre; cbn [sort_loop].
  - destruct rest; [|done]. by rewrite app_nil_r.
  - destruct rest as [|x rest]; [done|]. destruct (sift_inserts pre x rest Hpre) as (l & -> & Hl & Hs).
    rewrite <- (Permutation_length Hl : length l = S (length pre)).
    destruct (IH l rest) as [Hp Hq]; [by injection Hn|done|]. split; [|done]. rewrite Hp, Hl. cbn [app].
    by rewrite Permutation_middle.
Qed.

(** The sort orders the lines and loses none. *)
Lemma insertion_sort_sorts l : insertion_sort l ≡ₚ l ∧ StronglySorted lex_le (insertion_sort l).
Proof.
  destruct l as [|x l]; [by repeat constructor|]. unfold insertion_sort.
  replace (length (x :: l) - 1)%nat with (length l) by (simpl; lia).
  apply (sort_loop_sorts (length l) [x] l); [done|]. by repeat constructor.
Qed.

#[export] Instance lex_le_dec : RelDecision lex_le := λ a b, bool_eq_dec (lex_gt a b) false.
#[export] Instance lex_le_transitive : Transitive lex_le := lex_le_trans.
#[export] Instance lex_le_is_total : Total lex_le.
Proof. intros a b. destruct (lex_gt a b) eqn:Hg; [right; by apply lex_le_total|by left]. Qed.
#[export] Instance lex_le_antisym : AntiSymm (=) lex_le.
Proof.
  unfold lex_le. intros a. induction a as [|x a IH]; intros [|y b]; cbn [lex_gt]; [done..|]. intros H1 H2.
  apply orb_false_iff in H1 as [H1 H1'], H2 as [H2 H2']. to_prop. assert (x = y) as -> by lia. rewrite Z.eqb_refl in *.
  cbn [andb] in *. f_equal. by apply IH.
Qed.

(** The sort of the shell gives what the merge sort gives. *)
Lemma insertion_sort_merge_sort l : insertion_sort l = merge_sort lex_le l.
Proof.
  destruct (insertion_sort_sorts l) as [Hp Hs]. apply (StronglySorted_unique lex_le); [done| |].
  - apply StronglySorted_merge_sort; apply _.
  - by rewrite Hp, merge_sort_Permutation.
Qed.

(** ** Substitution *)

Lemma push_all_app cap out a b : push_all cap out (a ++ b) = push_all cap (push_all cap out a) b.
Proof. apply foldl_app. Qed.

Lemma push_all_take cap : ∀ bs out, (length out ≤ cap)%nat → push_all cap out bs = out ++ take (cap - length out) bs.
Proof.
  induction bs as [|b bs IH]; intros out Ho; [by rewrite take_nil, app_nil_r|]. change (push_all cap out (b :: bs)) with (push_all cap (push cap out b) bs).
  unfold push. destruct (Nat.ltb_spec (length out) cap).
  - rewrite IH by (rewrite length_app; simpl; lia). rewrite length_app, <- app_assoc. cbn [length app].
    replace (cap - length out)%nat with (S (cap - (length out + 1))) by lia. done.
  - rewrite IH by lia. by replace (cap - length out)%nat with 0%nat by lia.
Qed.

(** Leftmost substitution: [skip] bytes belong to the last match. *)
Fixpoint replace (from to : list Z) (global : bool) (skip : nat) (replaced : bool) (line : list Z) : list Z :=
  match line with
  | [] => []
  | c :: line' =>
      match skip with
      | S k => replace from to global k replaced line'
      | O =>
          if (negb replaced || global) && starts_with from line
          then to ++ replace from to global (length from - 1) true line'
          else c :: replace from to global 0 replaced line'
      end
  end.

Lemma replace_skip from to g r : ∀ k line, replace from to g k r line = replace from to g 0 r (drop k line).
Proof. induction k as [|k IH]; intros [|c line]; [done..|]. apply IH. Qed.

Lemma replace_short from to g : ∀ line r, (length line < length from)%nat → replace from to g 0 r line = line.
Proof.
  induction line as [|c line IH]; intros r Hl; [done|]. cbn [replace length] in *.
  assert (starts_with from (c :: line) = false) as ->.
  { unfold starts_with. apply bool_decide_false. intros He. apply (f_equal length) in He. rewrite length_take in He. simpl in He. lia. }
  rewrite andb_false_r, IH by lia. done.
Qed.

Section sed.
Context (line from to : list Z) (global : bool).
Context (Hfrom : from ≠ []) (Hline : (length from ≤ length line)%nat).

Lemma sed_loop_spec fuel : ∀ i r out, (i ≤ length line)%nat → (length line - i < fuel)%nat →
  ∃ i' out', sed_loop fuel line from to global i r out = Ret (i', out') ∧
    push_all 511 out' (drop i' line) = push_all 511 out (replace from to global 0 r (drop i line)).
Proof.
  assert (0 < length from)%nat as Hn by (destruct from; [done|simpl; lia]).
  induction fuel as [|fuel IH]; intros i r out Hi Hf; [lia|]. cbn [sed_loop]. case_bool.
  2:{ exists i, out. split; [done|]. rewrite replace_short; [done|]. rewrite length_drop. lia. }
  destruct (lookup_lt_is_Some_2 line i) as [c Hc]; [lia|]. rewrite Hc, (drop_S _ c) by done.
  cbn [replace]. rewrite <- (drop_S line c i) by done.
  assert (∃ i' out', sed_loop fuel line from to global (i + 1) r (push 511 out c) = Ret (i', out') ∧
    push_all 511 out' (drop i' line) = push_all 511 out (c :: replace from to global 0 r (drop (S i) line))) as Hcopy.
  { destruct (IH (i + 1)%nat r (push 511 out c)) as (i' & out' & -> & He); [lia..|]. exists i', out'. split; [done|].
    rewrite He, Nat.add_1_r. done. }
  rewrite (proj2 (Nat.leb_le (i + length from) (length line))) by lia.
  destruct (negb r || global); cbn [andb]; [|exact Hcopy].
  unfold starts_with. destruct (bool_decide (take (length from) (drop i line) = from)); [|exact Hcopy].
  destruct (IH (i + length from)%nat true (push_all 511 out to)) as (i' & out' & -> & He); [lia..|].
  exists i', out'. split; [done|]. rewrite He, push_all_app, (replace_skip from to global true (length from - 1)), drop_drop.
  by replace (S i + (length from - 1))%nat with (i + length from)%nat by lia.
Qed.

(** Each occurrence from the left, or the first only, is replaced; 511 bytes of
    the result are kept. *)
Lemma sed_replace_spec : sed_replace line from to global = Ret (take 511 (replace from to global 0 false line)).
Proof.
  unfold sed_replace. assert (empty from = false) as -> by (by destruct from).
  destruct (sed_loop_spec (S (length line)) 0 false []) as (i' & out' & -> & He); [lia..|].
  rewrite He, push_all_take by (simpl; lia). done.
Qed.
End sed.

(** A line shorter than the pattern, the empty line among them, is a slice out of
    bounds. *)
Lemma sed_short_line_panics line from to global : (length line < length from)%nat → sed_replace line from to global = Panic.
Proof.
  intros Hl. unfold sed_replace. assert (empty from = false) as -> by (destruct from; [simpl in Hl; lia|done]).
  cbn [sed_loop]. rewrite (proj2 (Nat.leb_le 0 (length line - length from))) by lia. cbn [negb orb].
  by rewrite (proj2 (Nat.leb_gt (0 + length from) (length line))) by lia.
Qed.
