(* ===== verification/InitShell.v ===== *)
(** * The shell of the init server (src/servers/init/src/lib.rs)

    Variables, functions, redirections, the built-in commands and the
    interpreter of command lines.  The shell talks to the system through
    [ShellOs]; the kernel's servers implement it ([init_os], below).  A command
    runs in the monad [sh]: it returns, panics ([Panic]), or has not returned
    within the fuel ([None]) - the blocking reads poll, and a function of the
    shell may call itself.  The terminal is the list of bytes written to it and
    the list of keys still to come. *)

From Stdlib Require Import ZArith Lia Ascii String.
From stdpp Require Import base list option numbers strings.
From S2P Require Import Prelude Words Cpio Memory IpcPort VfsData Vfs Task Sched Net SysMem SysOs InitText.

Local Open Scope Z_scope.

(** ** What the shell asks of the system *)

Class ShellOs (K : Type) := {
  os_open : list Z → Z → K → outcome (Z * K);
  (** the result and the buffer *)
  os_read : Z → Z → K → outcome (Z * list Z * K);
  os_write : Z → list Z → K → outcome (Z * K);
  os_close : Z → K → outcome (unit * K);
  os_getdents : Z → Z → K → outcome (Z * list Z * K);
  os_mkdir : list Z → K → outcome (Z * K);
  os_unlink : list Z → K → outcome (Z * K);
  os_rename : list Z → list Z → K → outcome (Z * K);
  os_fd_path : Z → Z → K → outcome (Z * list Z * K);
  os_pid_of : K → Z;
  os_ticks : K → Z;
  os_cwd : Z → K → list Z * Z;
  os_chdir : list Z → K → bool * K;
  os_signal : Z → Z → K → Z * K;
  os_yield : K → K
}.

(** ** Its own state *)

Definition NO_REDIR : Z := U64_MAX.

Definition MAX_VARS : nat := 16.
Definition MAX_VAR_KEY : nat := 32.
Definition MAX_VAR_VAL : nat := 128.
Definition MAX_FUNCS : nat := 8.
Definition MAX_FUNC_NAME : nat := 32.
Definition MAX_FUNC_BODY : nat := 256.

(** [key[..klen]] and [val[..vlen]] *)
Record ShellVar := mkVar { sv_key : list Z; sv_val : list Z }.
Record ShellFunc := mkFunc { sf_name : list Z; sf_body : list Z }.

Definition ShellVar_empty : ShellVar := mkVar [] [].
Definition ShellFunc_empty : ShellFunc := mkFunc [] [].

Definition var_set (key val : list Z) (vars : list ShellVar) : list ShellVar :=
  let pos := match position (λ v, bool_decide (sv_key v = key)) vars with
             | Some i => Some i
             | None => position (λ v, empty (sv_key v)) vars
             end in
  match pos with
  | Some i => <[i := mkVar (take MAX_VAR_KEY key) (take MAX_VAR_VAL val)]> vars
  | None => vars
  end.

(** [var_get_len]: the value of the first variable with this name *)
Definition var_get (key : list Z) (vars : list ShellVar) : list Z :=
  match find_first (λ v, bool_decide (sv_key v = key)) vars with Some v => sv_val v | None => [] end.

Definition func_define (name body : list Z) (funcs : list ShellFunc) : list ShellFunc :=
  let slot := match position (λ f, bool_decide (sf_name f = name)) funcs with
              | Some i => Some i
              | None => position (λ f, empty (sf_name f)) funcs
              end in
  match slot with
  | Some i => <[i := mkFunc (take MAX_FUNC_NAME name) (take MAX_FUNC_BODY body)]> funcs
  | None => funcs
  end.

Definition func_find (name : list Z) (funcs : list ShellFunc) : option ShellFunc :=
  find_first (λ f, bool_decide (sf_name f = name)) funcs.

Section shell.
Context {K : Type} `{ShellOs K}.
(** The text of [help]. *)
Context (help_text : list Z).

Record Sh := mkSh {
  sh_os : K;
  sh_vars : list ShellVar;
  sh_funcs : list ShellFunc;
  sh_exit : Z;
  sh_out : Z;
  sh_in : Z;
  sh_term : list Z;
  sh_keys : list Z
}.

Definition Sh_init (k : K) (keys : list Z) : Sh :=
  mkSh k (replicate MAX_VARS ShellVar_empty) (replicate MAX_FUNCS ShellFunc_empty) 0 NO_REDIR NO_REDIR [] keys.

Definition set_os k s := mkSh k (sh_vars s) (sh_funcs s) (sh_exit s) (sh_out s) (sh_in s) (sh_term s) (sh_keys s).
Definition set_vars v s := mkSh (sh_os s) v (sh_funcs s) (sh_exit s) (sh_out s) (sh_in s) (sh_term s) (sh_keys s).
Definition set_funcs f s := mkSh (sh_os s) (sh_vars s) f (sh_exit s) (sh_out s) (sh_in s) (sh_term s) (sh_keys s).
Definition set_exit x s := mkSh (sh_os s) (sh_vars s) (sh_funcs s) x (sh_out s) (sh_in s) (sh_term s) (sh_keys s).
Definition set_out x s := mkSh (sh_os s) (sh_vars s) (sh_funcs s) (sh_exit s) x (sh_in s) (sh_term s) (sh_keys s).
Definition set_in x s := mkSh (sh_os s) (sh_vars s) (sh_funcs s) (sh_exit s) (sh_out s) x (sh_term s) (sh_keys s).
Definition set_term t s := mkSh (sh_os s) (sh_vars s) (sh_funcs s) (sh_exit s) (sh_out s) (sh_in s) t (sh_keys s).
Definition set_keys k s := mkSh (sh_os s) (sh_vars s) (sh_funcs s) (sh_exit s) (sh_out s) (sh_in s) (sh_term s) k.

(** ** The monad *)

Definition sh (A : Type) : Type := Sh → option (outcome (A * Sh)).

#[global] Instance sh_ret : MRet sh := λ A a s, Some (Ret (a, s)).
#[global] Instance sh_bind : MBind sh := λ A B f m s,
  match m s with
  | Some (Ret (a, s')) => f a s'
  | Some Panic => Some Panic
  | None => None
  end.

Definition modify (f : Sh → Sh) : sh unit := λ s, Some (Ret (tt, f s)).
Definition gets {A} (f : Sh → A) : sh A := λ s, Some (Ret (f s, s)).
Definition panic {A} : sh A := λ _, Some Panic.
Definition hang {A} : sh A := λ _, None.
Definition when (b : bool) (c : sh unit) : sh unit := if b then c else mret tt.

(** A call of the system. *)
Definition sys {A} (f : K → outcome (A * K)) : sh A := λ s,
  match f (sh_os s) with Ret (a, k) => Some (Ret (a, set_os k s)) | Panic => Some Panic end.

Definition io_write_raw (b : list Z) : sh unit :=
  fd ← gets sh_out;
  if negb (fd =? NO_REDIR) then sys (os_write fd b) ≫= λ _, mret tt
  else modify (λ s, set_term (sh_term s ++ b) s).

Definition print (s : string) : sh unit := io_write_raw (bytes s).
Definition println (s : string) : sh unit := io_write_raw (bytes s ++ [NL]).

(** [loop { n = vfs_read(..); if n != -11 { return n; } yield_now(); }] *)
Fixpoint vfs_read_blocking (fuel : nat) (fd n : Z) : sh (Z * list Z) :=
  match fuel with
  | O => hang
  | S fuel' =>
      sys (os_read fd n) ≫= λ r : Z * list Z,
      if negb (r.1 =? -11) then mret r else modify (λ s, set_os (os_yield (sh_os s)) s) ≫= λ _, vfs_read_blocking fuel' fd n
  end.

(** [loop { n = read(..); if n <= 0 { break; } body }]; the body says whether it
    leaves the loop. *)
Fixpoint chunks {A} (fuel : nat) (fd n : Z) (body : A → list Z → sh (A * bool)) (a : A) : sh A :=
  match fuel with
  | O => hang
  | S fuel' =>
      vfs_read_blocking fuel fd n ≫= λ r : Z * list Z,
      if r.1 <=? 0 then mret a
      else
        body a (take (Z.to_nat r.1) r.2) ≫= λ x : A * bool,
        if x.2 then mret x.1 else chunks fuel' fd n body x.1
  end.

(** [for i in 0..n { .. }] over the bytes of a chunk *)
Fixpoint each_byte {A} (body : A → Z → sh (A * bool)) (bs : list Z) (a : A) : sh (A * bool) :=
  match bs with
  | [] => mret (a, false)
  | b :: bs' => body a b ≫= λ x : A * bool, if x.2 then mret (x.1, true) else each_byte body bs' x.1
  end.

Definition stream {A} (fuel : nat) (fd n : Z) (body : A → Z → sh (A * bool)) : A → sh A := chunks fuel fd n (λ a bs, each_byte body bs a).

(** A command that reads lines: [line] is what has been read of the current line,
    of which [cap] bytes are kept; at each newline [flush] is run. *)
Definition by_lines {A} (cap : nat) (flush : A → list Z → sh A) (x : A * list Z) (c : Z) : sh ((A * list Z) * bool) :=
  if c =? NL then a ← flush x.1 x.2; mret ((a, []), false)
  else mret ((x.1, push cap x.2 c), false).

Definition redirected : sh bool := fd ← gets sh_in; mret (negb (fd =? NO_REDIR)).

(** The input of a filter: the redirection for [-], or for no name when there is
    one; otherwise the file.  A name that is missing is an error when there is a
    [usage]. *)
Definition open_input (path : list Z) (no_stdin no_file : string) (usage : option string) : sh (option (Z * bool)) :=
  redir ← gets sh_in;
  if bool_decide (path = bytes "-") || (empty path && negb (redir =? NO_REDIR)) then
    if redir =? NO_REDIR then println no_stdin ≫= λ _, mret None
    else mret (Some (to_i32 redir, false))
  else
    match usage with
    | Some u =>
        if empty path then println u ≫= λ _, mret None
        else
          f ← sys (os_open path 0);
          if f <? 0 then println no_file ≫= λ _, mret None else mret (Some (f, true))
    | None =>
        f ← sys (os_open path 0);
        if f <? 0 then println no_file ≫= λ _, mret None else mret (Some (f, true))
    end.

Definition close_if (b : bool) (fd : Z) : sh unit := when b (sys (os_close fd)).

(** ** Commands *)

Definition O_WRITE : Z := Z.lor 1 (Z.lor 0x40 0x200).
Definition O_DIRECTORY : Z := 0x10000.

Definition cmd_echo (args : list Z) : sh unit := io_write_raw args ≫= λ _, println "".

Definition cmd_cat (fuel : nat) (path : list Z) : sh unit :=
  i ← open_input path "cat: no stdin" "cat: no such file" None;
  match i with
  | None => mret tt
  | Some (fd, close_after) =>
      chunks fuel fd 256 (λ _ bs, io_write_raw bs ≫= λ _, mret (tt, false)) tt ≫= λ _,
      close_if close_after fd
  end.

(** The records of a directory in the first [n] bytes of the buffer; the slice
    of a name panics when the record does not lie in the buffer. *)
Fixpoint ls_loop (fuel : nat) (buf : list Z) (n off : nat) : sh unit :=
  match fuel with
  | O => mret tt
  | S fuel' =>
      if (n <=? off)%nat then mret tt
      else if (n <? off + 19)%nat then mret tt
      else
        let reclen := Z.to_nat (le_decode (take 2 (drop (off + 16) buf))) in
        if (reclen =? 0)%nat then mret tt
        else if negb ((off + 19 <=? off + reclen)%nat && (off + reclen <=? length buf)%nat) then panic
        else
          let raw := take (reclen - 19) (drop (off + 19) buf) in
          let name := take (default (length raw) (pos_of 0 raw)) raw in
          io_write_raw name ≫= λ _,
          println "" ≫= λ _,
          ls_loop fuel' buf n (off + reclen)
  end.

Fixpoint dents (fuel : nat) (fd n : Z) (body : list Z → nat → sh unit) : sh unit :=
  match fuel with
  | O => hang
  | S fuel' =>
      sys (os_getdents fd n) ≫= λ r : Z * list Z,
      if r.1 <=? 0 then mret tt else body r.2 (Z.to_nat r.1) ≫= λ _, dents fuel' fd n body
  end.

Definition cmd_ls (fuel : nat) (path : list Z) : sh unit :=
  fd ← sys (os_open path O_DIRECTORY);
  if fd <? 0 then println "ls: cannot open directory"
  else
    dents fuel fd 1024 (λ buf n, ls_loop (S n) buf n 0) ≫= λ _,
    sys (os_close fd).

Definition cmd_uname : sh unit := println "Cyanos 1.0.0 #1 SMP aarch64/x86_64".

(** The result of [current_cwd] is used as an unsigned length. *)
Definition cmd_pwd : sh unit :=
  gets (λ s, os_cwd 256 (sh_os s)) ≫= λ r : list Z * Z,
  let n := u64 r.2 in
  (if 0 <? n then if n <=? 256 then io_write_raw (take (Z.to_nat n) (r.1 ++ replicate (256 - length r.1) 0)) else panic else print "/") ≫= λ _,
  println "".

Definition cmd_cd (path : list Z) : sh unit :=
  let target := if empty path then bytes "/" else path in
  ok ← sys (λ k, Ret (os_chdir (take 255 target) k));
  when (negb ok) (print "cd: " ≫= λ _, io_write_raw target ≫= λ _, println ": no such directory").

Definition cmd_mkdir (path : list Z) : sh unit :=
  if empty path then println "mkdir: missing operand"
  else
    r ← sys (os_mkdir (take 255 path));
    when (to_i32 r <? 0) (print "mkdir: " ≫= λ _, io_write_raw path ≫= λ _, println ": failed").

Definition cmd_rm (path : list Z) : sh unit :=
  if empty path then println "rm: missing operand"
  else
    r ← sys (os_unlink (take 255 path));
    when (to_i32 r <? 0) (print "rm: " ≫= λ _, io_write_raw path ≫= λ _, println ": failed").

Definition cmd_write (path content : list Z) : sh unit :=
  fd ← sys (os_open path O_WRITE);
  if fd <? 0 then println "write: cannot open file"
  else
    sys (os_write fd content) ≫= λ _,
    sys (os_close fd).

(** The copy does not wait for data: it uses [vfs_read]. *)
Fixpoint copy_loop (fuel : nat) (rfd wfd : Z) : sh unit :=
  match fuel with
  | O => hang
  | S fuel' =>
      sys (os_read rfd 512) ≫= λ r : Z * list Z,
      if r.1 <=? 0 then mret tt
      else sys (os_write wfd (take (Z.to_nat r.1) r.2)) ≫= λ _, copy_loop fuel' rfd wfd
  end.

Definition cmd_cp (fuel : nat) (src dst : list Z) : sh unit :=
  if empty src || empty dst then println "cp: missing operand"
  else
    rfd ← sys (os_open src 0);
    if rfd <? 0 then print "cp: " ≫= λ _, io_write_raw src ≫= λ _, println ": cannot open"
    else
      wfd ← sys (os_open dst O_WRITE);
      if wfd <? 0 then
        sys (os_close rfd) ≫= λ _, print "cp: " ≫= λ _, io_write_raw dst ≫= λ _, println ": cannot create"
      else
        copy_loop fuel rfd wfd ≫= λ _,
        sys (os_close rfd) ≫= λ _,
        sys (os_close wfd).

Definition cmd_mv (fuel : nat) (src dst : list Z) : sh unit :=
  if empty src || empty dst then println "mv: missing operand"
  else
    r ← sys (os_rename (take 255 src) (take 255 dst));
    if to_i32 r =? 0 then mret tt
    else
      cmd_cp fuel src dst ≫= λ _,
      sys (os_unlink (take 255 src)) ≫= λ _, mret tt.

(** A slice of 15 bytes is compared with a literal of 14, so the link is never
    resolved. *)
Definition cmd_readlink (path : list Z) : sh unit :=
  if empty path then println "readlink: missing operand"
  else
    let n := Nat.min (length path) 255 in
    if (15 <? n)%nat && bool_decide (take 15 path = bytes "/proc/self/fd/") then
      let num_str := take (n - 15) (drop 15 path) in
      if forallb is_digit num_str && negb (empty num_str) then
        sys (os_fd_path (number_from u64 0 num_str).1 256) ≫= λ r : Z * list Z,
        if 0 <? r.1 then
          if r.1 <=? 256 then io_write_raw (take (Z.to_nat r.1) r.2) ≫= λ _, println "" else panic
        else println "readlink: not a symlink"
      else println "readlink: not a symlink"
    else println "readlink: not a symlink".

Definition cmd_ps : sh unit :=
  println "  PID TTY      STAT  COMMAND" ≫= λ _,
  pid ← gets (λ s, os_pid_of (sh_os s));
  print "    " ≫= λ _,
  io_write_raw (u32_dec pid) ≫= λ _,
  println " ttyS0   R     cyanos-init".

(** [content.split(|&b| b == b'\n')] *)
Fixpoint split_nl (acc s : list Z) : list (list Z) :=
  match s with
  | [] => [acc]
  | c :: s' => if c =? NL then acc :: split_nl [] s' else split_nl (acc ++ [c]) s'
  end.


(** The last line with the prefix wins. *)
Definition line_kb (prefix : string) (lines : list (list Z)) : Z :=
  foldl (λ v line, if starts_with (bytes prefix) line then parse_kb line else v) 0 lines.

Definition cmd_free : sh unit :=
  fd ← sys (os_open (bytes "/proc/meminfo") 0);
  if fd <? 0 then println "free: cannot read /proc/meminfo"
  else
    println "              total        used        free" ≫= λ _,
    print "Mem:  " ≫= λ _,
    sys (os_read fd 512) ≫= λ r : Z * list Z,
    sys (os_close fd) ≫= λ _,
    let lines := split_nl [] (take (Z.to_nat (Z.max r.1 0)) r.2) in
    let total_kb := line_kb "MemTotal:" lines in
    let free_kb := line_kb "MemFree:" lines in
    io_write_raw (u32_dec total_kb) ≫= λ _, print " kB   " ≫= λ _,
    io_write_raw (u32_dec (saturating_sub total_kb free_kb)) ≫= λ _, print " kB   " ≫= λ _,
    io_write_raw (u32_dec free_kb) ≫= λ _, println " kB".

Definition cmd_df : sh unit :=
  println "Filesystem      1K-blocks      Used  Available Use% Mounted on" ≫= λ _,
  fd ← sys (os_open (bytes "/proc/meminfo") 0);
  if fd <? 0 then println "df: cannot read memory info"
  else
    sys (os_read fd 256) ≫= λ r : Z * list Z,
    sys (os_close fd) ≫= λ _,
    let lines := split_nl [] (take (Z.to_nat (Z.max r.1 0)) r.2) in
    let total_kb := match find_first (starts_with (bytes "MemTotal:")) lines with Some l => parse_kb l | None => 0 end in
    print "tmpfs           " ≫= λ _, io_write_raw (u32_dec total_kb) ≫= λ _,
    print " kB         0 kB   " ≫= λ _, io_write_raw (u32_dec total_kb) ≫= λ _,
    println " kB   0% /tmp".

Definition two_digits (v : Z) : sh unit := when (v <? 10) (print "0") ≫= λ _, io_write_raw (u32_dec (u32 v)).

Definition cmd_date : sh unit :=
  ticks ← gets (λ s, os_ticks (sh_os s));
  let secs := ticks / 100 in
  print "Uptime " ≫= λ _,
  two_digits (secs / 3600 mod 24) ≫= λ _, print ":" ≫= λ _,
  two_digits (secs / 60 mod 60) ≫= λ _, print ":" ≫= λ _,
  two_digits (secs mod 60) ≫= λ _,
  println " (seconds since boot)".

Definition cmd_uptime : sh unit :=
  ticks ← gets (λ s, os_ticks (sh_os s));
  io_write_raw (u32_dec (u32 (ticks / 100))) ≫= λ _,
  println " seconds since boot".

Definition cmd_kill (args : list Z) : sh unit :=
  let '(sig, rest) :=
    if starts_with (bytes "-") args then
      let sp := default (length args) (pos_of SP args) in
      let v := all_digits (take (sp - 1) (drop 1 args)) in
      (if v =? 0 then 15 else v, trim (drop sp args))
    else (15, args) in
  let pid := all_digits rest in
  if pid =? 0 then println "kill: invalid pid"
  else
    r ← sys (λ k, Ret (os_signal pid sig k));
    if r =? 0 then mret tt
    else if r =? -3 then println "kill: no such process"
    else println "kill: failed".

Fixpoint sleep_loop (fuel : nat) (start ticks : Z) : sh unit :=
  match fuel with
  | O => hang
  | S fuel' =>
      now ← gets (λ s, os_ticks (sh_os s));
      if wsub now start <? ticks then modify (λ s, set_os (os_yield (sh_os s)) s) ≫= λ _, sleep_loop fuel' start ticks
      else mret tt
  end.

Definition cmd_sleep (fuel : nat) (arg : list Z) : sh unit :=
  let secs := (number_from u64 0 arg).1 in
  if secs =? 0 then mret tt
  else
    start ← gets (λ s, os_ticks (sh_os s));
    sleep_loop fuel start (wmul secs 100).

Definition is_space (c : Z) : bool := (c =? SP) || (c =? TAB) || (c =? NL) || (c =? CR).

Record wc_state := mkWc { wc_lines : Z; wc_words : Z; wc_bytes : Z; wc_in_word : bool }.

Definition wc_byte (x : wc_state) (c : Z) : wc_state :=
  let lines := if c =? NL then u32 (wc_lines x + 1) else wc_lines x in
  let bs := u32 (wc_bytes x + 1) in
  if is_space c then mkWc lines (wc_words x) bs false
  else if negb (wc_in_word x) then mkWc lines (u32 (wc_words x + 1)) bs true
  else mkWc lines (wc_words x) bs (wc_in_word x).

Definition cmd_wc (fuel : nat) (path : list Z) : sh unit :=
  i ← open_input path "wc: no stdin" "wc: cannot open file" None;
  match i with
  | None => mret tt
  | Some (fd, close_after) =>
      x ← stream fuel fd 512 (λ x c, mret (wc_byte x c, false)) (mkWc 0 0 0 false);
      close_if close_after fd ≫= λ _,
      io_write_raw (u32_dec (wc_lines x)) ≫= λ _, print " " ≫= λ _,
      io_write_raw (u32_dec (wc_words x)) ≫= λ _, print " " ≫= λ _,
      io_write_raw (u32_dec (wc_bytes x)) ≫= λ _, print " " ≫= λ _,
      io_write_raw path ≫= λ _, println ""
  end.

Definition cmd_head (fuel : nat) (path : list Z) (n_lines : Z) : sh unit :=
  i ← open_input path "head: no stdin" "head: cannot open file" None;
  match i with
  | None => mret tt
  | Some (fd, close_after) =>
      stream fuel fd 256 (λ lines c,
        io_write_raw [c] ≫= λ _,
        mret (if c =? NL then (lines + 1, n_lines <=? lines + 1) else (lines, false))) 0 ≫= λ _,
      close_if close_after fd
  end.

Definition grep_line (pat line : list Z) : sh unit :=
  when (contains pat line) (io_write_raw line ≫= λ _, println "").

Definition cmd_grep (fuel : nat) (args : list Z) : sh unit :=
  let '(pat, path) := split_space args in
  if empty pat then println "usage: grep PATTERN [FILE]"
  else
    i ← open_input path "grep: no stdin" "grep: no such file" (Some "usage: grep PATTERN FILE");
    match i with
    | None => mret tt
    | Some (fd, close_after) =>
        stream fuel fd 256 (by_lines 255 (λ _ line, grep_line pat line)) (tt, []) ≫= λ x : unit * list Z,
        when (negb (empty x.2)) (grep_line pat x.2) ≫= λ _,
        close_if close_after fd
    end.

(** At most 64 lines are kept, of 127 bytes each. *)
Definition keep_line (lines : list (list Z)) (line : list Z) : list (list Z) :=
  if (length lines <? 64)%nat then lines ++ [line] else lines.

Fixpoint print_lines (lines : list (list Z)) : sh unit :=
  match lines with [] => mret tt | l :: ls => io_write_raw l ≫= λ _, println "" ≫= λ _, print_lines ls end.

Definition cmd_sort (fuel : nat) (path : list Z) : sh unit :=
  i ← open_input path "sort: no stdin" "sort: no such file" (Some "usage: sort [FILE]");
  match i with
  | None => mret tt
  | Some (fd, close_after) =>
      stream fuel fd 256 (by_lines 127 (λ lines line, mret (keep_line lines line))) ([], []) ≫= λ x : list (list Z) * list Z,
      let lines := if empty x.2 then x.1 else keep_line x.1 x.2 in
      close_if close_after fd ≫= λ _,
      print_lines (insertion_sort lines)
  end.

Definition cmd_tee (fuel : nat) (path : list Z) : sh unit :=
  if empty path then println "usage: tee FILE"
  else
    redir ← gets sh_in;
    if redir =? NO_REDIR then println "tee: no stdin"
    else
      wfd ← sys (os_open path O_WRITE);
      if wfd <? 0 then println "tee: cannot open file"
      else
        chunks fuel (to_i32 redir) 256 (λ _ bs,
          io_write_raw bs ≫= λ _, sys (os_write wfd bs) ≫= λ _, mret (tt, false)) tt ≫= λ _,
        sys (os_close wfd).

(** The children of a directory: the first 32, their names cut at 63 bytes. *)
Fixpoint find_names (fuel : nat) (buf : list Z) (n off : nat) (names : list (list Z * bool)) : list (list Z * bool) :=
  match fuel with
  | O => names
  | S fuel' =>
      if (off + 19 <=? n)%nat then
        let rec_len := Z.to_nat (le_decode (take 2 (drop (off + 16) buf))) in
        let d_type := nth (off + 18)%nat buf 0 in
        let name_end := Nat.min (off + rec_len) n in
        let raw := take (name_end - (off + 19)) (drop (off + 19) buf) in
        let raw := take (default (length raw) (pos_of 0 raw)) raw in
        let names :=
          if (off + 19 <? name_end)%nat && (length names <? 32)%nat && negb (empty raw)
             && negb (bool_decide (raw = bytes ".")) && negb (bool_decide (raw = bytes ".."))
          then names ++ [(take 63 raw, d_type =? 4)] else names in
        if (rec_len =? 0)%nat then names else find_names fuel' buf n (off + rec_len) names
      else names
  end.

Fixpoint find_dents (fuel : nat) (fd : Z) (names : list (list Z * bool)) : sh (list (list Z * bool)) :=
  match fuel with
  | O => hang
  | S fuel' =>
      sys (os_getdents fd 512) ≫= λ r : Z * list Z,
      if r.1 <=? 0 then mret names else find_dents fuel' fd (find_names (S (Z.to_nat r.1)) r.2 (Z.to_nat r.1) 0 names)
  end.

Fixpoint find_recurse (fuel : nat) (pat : list Z) (dir : list Z) : sh unit :=
  match fuel with
  | O => hang
  | S fuel' =>
      fd ← sys (os_open dir O_DIRECTORY);
      if fd <? 0 then mret tt
      else
        names ← find_dents fuel fd [];
        sys (os_close fd) ≫= λ _,
        (fix children (l : list (list Z * bool)) : sh unit :=
           match l with
           | [] => mret tt
           | (name, is_dir) :: l' =>
               let full := take 60 dir ++ bytes "/" ++ name in
               when (empty pat || contains pat name) (io_write_raw full ≫= λ _, println "") ≫= λ _,
               when is_dir (find_recurse fuel' pat full) ≫= λ _,
               children l'
           end) names
  end.

Definition cmd_find (fuel : nat) (args : list Z) : sh unit :=
  match windows_pos (bytes "-name ") args with
  | Some p => find_recurse fuel (trim (drop (p + 6) args)) (trim (take p args))
  | None => find_recurse fuel [] (if empty args then bytes "/" else args)
  end.

Definition cmd_touch (path : list Z) : sh unit :=
  if empty path then println "usage: touch FILE"
  else
    fd ← sys (os_open path (Z.lor 1 0x40));
    if fd <? 0 then print "touch: " ≫= λ _, io_write_raw path ≫= λ _, println ": failed"
    else sys (os_close fd).

(** The options of [cut]; each takes a byte at least. *)
Fixpoint cut_options (fuel : nat) (rest : list Z) (delim field : Z) : Z * Z * list Z :=
  match fuel with
  | O => (delim, field, rest)
  | S fuel' =>
      if starts_with (bytes "-d ") rest then
        match trim (drop 3 rest) with
        | [] => cut_options fuel' [] delim field
        | d :: rest' => cut_options fuel' (trim rest') d field
        end
      else if starts_with (bytes "-f ") rest then
        let '(n, rest') := number_from u64 0 (trim (drop 3 rest)) in
        cut_options fuel' (trim rest') delim (if 0 <? n then n else field)
      else (delim, field, rest)
  end.

Definition cmd_cut (fuel : nat) (args : list Z) : sh unit :=
  let '(delim, field, path) := cut_options (length args) args TAB 1 in
  i ← open_input path "cut: no stdin" "cut: no such file" (Some "usage: cut -d D -f N FILE");
  match i with
  | None => mret tt
  | Some (fd, close_after) =>
      stream fuel fd 256 (by_lines 255 (λ _ line,
        match cut_field delim (Z.to_nat field) line with
        | Some f => io_write_raw f ≫= λ _, println ""
        | None => mret tt
        end)) (tt, []) ≫= λ _,
      close_if close_after fd
  end.

(** What [tr] makes of a byte. *)
Definition tr_byte (delete : bool) (set1 set2 : list Z) (c : Z) : list Z :=
  if delete then if bool_decide (c ∈ set1) then [] else [c]
  else
    match pos_of c set1 with
    | Some pos => [match set2 !! pos with Some d => d | None => default c (last set2) end]
    | None => [c]
    end.

Definition cmd_tr (fuel : nat) (args : list Z) : sh unit :=
  let delete := starts_with (bytes "-d ") args in
  let rest := if delete then trim (drop 3 args) else args in
  redir ← gets sh_in;
  if redir =? NO_REDIR then println "tr: no stdin"
  else
    let '(set1, set2) := split_space rest in
    stream fuel (to_i32 redir) 256 (λ _ c,
      let out := tr_byte delete set1 set2 c in
      when (negb (empty out)) (io_write_raw out) ≫= λ _, mret (tt, false)) tt ≫= λ _, mret tt.

(** A line that differs from the line before it is printed and remembered. *)
Definition uniq_line (prev : option (list Z)) (line : list Z) : sh (option (list Z)) :=
  if bool_decide (prev = Some line) then mret prev
  else io_write_raw line ≫= λ _, println "" ≫= λ _, mret (Some line).

Definition cmd_uniq (fuel : nat) (path : list Z) : sh unit :=
  i ← open_input path "uniq: no stdin" "uniq: no such file" (Some "usage: uniq [FILE]");
  match i with
  | None => mret tt
  | Some (fd, close_after) =>
      stream fuel fd 256 (by_lines 255 uniq_line) (None, []) ≫= λ x : option (list Z) * list Z,
      when (negb (empty x.2)) (uniq_line x.1 x.2 ≫= λ _, mret tt) ≫= λ _,
      close_if close_after fd
  end.

Definition sed_line (from to : list Z) (global : bool) (line : list Z) : sh unit :=
  match sed_replace line from to global with
  | Ret out => io_write_raw out ≫= λ _, io_write_raw [NL]
  | Panic => panic
  end.

(** The input of [sed] and [awk]: the file, or the redirection. *)
Definition file_or_stdin (file_arg : list Z) (no_file no_input : string) : sh (option (Z * bool)) :=
  redir ← gets sh_in;
  if negb (empty file_arg) then
    f ← sys (os_open file_arg 0);
    if f <? 0 then println no_file ≫= λ _, mret None else mret (Some (f, true))
  else if negb (redir =? NO_REDIR) then mret (Some (to_i32 redir, false))
  else println no_input ≫= λ _, mret None.

Definition cmd_sed (fuel : nat) (args : list Z) : sh unit :=
  let args := trim args in
  if negb (starts_with (bytes "s/") args) then println "sed: only s/FROM/TO/[g] supported"
  else
    let inner := drop 2 args in
    match pos_of 47 inner with
    | None => println "sed: malformed"
    | Some mid =>
        let from := take mid inner in
        let rest := drop (mid + 1) inner in
        match pos_of 47 rest with
        | None => println "sed: malformed"
        | Some end_ =>
            let to := take end_ rest in
            let flags := drop (end_ + 1) rest in
            let global := bool_decide (103 ∈ flags) in
            let file_arg := trim (match pos_of SP flags with Some sp => drop (sp + 1) flags | None => [] end) in
            i ← file_or_stdin file_arg "sed: cannot open file" "sed: no input";
            match i with
            | None => mret tt
            | Some (fd, close_after) =>
                stream fuel fd 256 (by_lines 511 (λ _ line, sed_line from to global line)) (tt, []) ≫= λ x : unit * list Z,
                when (negb (empty x.2)) (sed_line from to global x.2) ≫= λ _,
                close_if close_after fd
            end
        end
    end.

Definition cmd_awk (fuel : nat) (args : list Z) : sh unit :=
  let args := trim args in
  let field := match find_seq args (bytes "$") with Some p => (number_from u64 0 (drop (p + 1) args)).1 | None => 0 end in
  let file_arg := match pos_of 125 args with Some rb => trim (drop (rb + 1) args) | None => [] end in
  i ← file_or_stdin file_arg "awk: cannot open file" "awk: no input";
  match i with
  | None => mret tt
  | Some (fd, close_after) =>
      let show line := io_write_raw (awk_print_field line (Z.to_nat field)) in
      stream fuel fd 256 (by_lines 511 (λ _ line, show line)) (tt, []) ≫= λ x : unit * list Z,
      when (negb (empty x.2)) (show x.2) ≫= λ _,
      close_if close_after fd
  end.

(** [read] from the redirection: bytes up to the newline, 127 of them kept *)
Fixpoint read_redir (fuel : nat) (fd : Z) (buf : list Z) : sh (list Z) :=
  match fuel with
  | O => hang
  | S fuel' =>
      sys (os_read fd 1) ≫= λ r : Z * list Z,
      if r.1 <=? 0 then mret buf
      else if nth 0 r.2 0 =? NL then mret buf
      else read_redir fuel' fd (push 127 buf (nth 0 r.2 0))
  end.

(** [read] from the serial line: it waits for a key. *)
Fixpoint read_keys (keys buf : list Z) : option (list Z * list Z) :=
  match keys with
  | [] => None
  | b :: keys' => if (b =? NL) || (b =? CR) then Some (buf, keys') else read_keys keys' (push 127 buf b)
  end.

Definition cmd_read (fuel : nat) (var_name : list Z) : sh unit :=
  let var_name := trim var_name in
  if empty var_name then println "usage: read VAR"
  else
    redir ← gets sh_in;
    if negb (redir =? NO_REDIR) then
      buf ← read_redir fuel (to_i32 redir) [];
      modify (λ s, set_vars (var_set var_name buf (sh_vars s)) s)
    else
      keys ← gets sh_keys;
      match read_keys keys [] with
      | Some (buf, keys') => modify (λ s, set_vars (var_set var_name buf (sh_vars s)) (set_keys keys' s))
      | None => hang
      end.

Definition cmd_type (name : list Z) : sh unit :=
  let name := trim name in
  funcs ← gets sh_funcs;
  match func_find name funcs with
  | Some _ => io_write_raw name ≫= λ _, println " is a shell function"
  | None => io_write_raw name ≫= λ _, println " is a shell builtin"
  end.

Definition cmd_env : sh unit :=
  vars ← gets sh_vars;
  let set_ones := filter (λ v, empty (sv_key v) = false) vars in
  if (length set_ones =? 0)%nat then println "(no variables set)"
  else
    (fix show (l : list ShellVar) : sh unit :=
       match l with
       | [] => mret tt
       | v :: l' => io_write_raw (sv_key v) ≫= λ _, print "=" ≫= λ _, io_write_raw (sv_val v) ≫= λ _, println "" ≫= λ _, show l'
       end) set_ones.

(** Whether the file can be opened. *)
Definition opens (path : list Z) (flags : Z) : sh bool :=
  fd ← sys (os_open path flags);
  if 0 <=? fd then sys (os_close fd) ≫= λ _, mret true else mret false.

Definition cmd_test (args : list Z) : sh bool :=
  let args := trim args in
  let args := if ends_with (bytes "]") args then trim (take (length args - 1) args) else args in
  if empty args then mret false
  else if starts_with (bytes "-f ") args then opens (trim (drop 3 args)) 0
  else if starts_with (bytes "-d ") args then opens (trim (drop 3 args)) O_DIRECTORY
  else if starts_with (bytes "-z ") args then mret (empty (trim (drop 3 args)))
  else if starts_with (bytes "-n ") args then mret (negb (empty (trim (drop 3 args))))
  else if starts_with (bytes "-e ") args then opens (trim (drop 3 args)) 0
  else mret (test_binary args).

(** ** The interpreter

    [self] runs a command line; [dispatch_command], below, ties the knot. *)

Section interpreter.
Context (fuel : nat) (self : list Z → sh bool).

(** [$(cmd)]: the output of the command, through a file, without the newlines at
    its end. *)
Definition command_output (subcmd : list Z) : sh (list Z) :=
  wfd ← sys (os_open (bytes "/tmp/.subcmd") O_WRITE);
  if wfd <? 0 then mret []
  else
    prev ← gets sh_out;
    modify (set_out wfd) ≫= λ _,
    self subcmd ≫= λ _,
    modify (set_out prev) ≫= λ _,
    sys (os_close wfd) ≫= λ _,
    rfd ← sys (os_open (bytes "/tmp/.subcmd") 0);
    if rfd <? 0 then mret []
    else
      sys (os_read rfd 256) ≫= λ r : Z * list Z,
      sys (os_close rfd) ≫= λ _,
      if 0 <? r.1 then
        mret (reverse (skip_while (λ c, (c =? NL) || (c =? CR)) (reverse (take (Z.to_nat r.1) r.2))))
      else mret [].

(** The rest of the line is expanded into [dst], of which 511 bytes are kept. *)
Fixpoint expand_loop (n : nat) (src dst : list Z) : sh (list Z) :=
  match n with
  | O => mret dst
  | S n' =>
      if (511 <=? length dst)%nat then mret dst
      else
        match src with
        | [] => mret dst
        | 36 :: ((c :: src1) as src0) =>
            if c =? 40 then
              let subcmd := take_while (λ b, negb (b =? 41)) src1 in
              out ← command_output subcmd;
              expand_loop n' (drop (length subcmd + 1) src1) (push_all 511 dst out)
            else if c =? 36 then
              pid ← gets (λ s, os_pid_of (sh_os s));
              expand_loop n' src1 (push_all 511 dst (u32_dec pid))
            else if c =? 63 then expand_loop n' src1 (dst ++ [48])
            else
              let name := take_while is_name src0 in
              vars ← gets sh_vars;
              expand_loop n' (drop (length name) src0) (push_all 511 dst (var_get name vars))
        | c :: src1 => expand_loop n' src1 (dst ++ [c])
        end
  end.

Definition var_expand (src : list Z) : sh (list Z) := expand_loop (length src) src [].

(** [$1] to [$9] from the arguments. *)
Fixpoint set_params (i : nat) (n : nat) (rest : list Z) (vars : list ShellVar) : list ShellVar :=
  match n with
  | O => vars
  | S n' =>
      let '(tok, tail) := split_space rest in
      set_params (S i) n' tail (var_set [48 + Z.of_nat i] tok vars)
  end.

Definition call_func (name args : list Z) : sh bool :=
  funcs ← gets sh_funcs;
  match func_find name funcs with
  | None => mret false
  | Some f =>
      modify (λ s, set_vars (set_params 1 9 args (sh_vars s)) s) ≫= λ _,
      self (sf_body f) ≫= λ _,
      mret true
  end.

Definition cmd_source (path : list Z) : sh unit :=
  let path := trim path in
  if empty path then println "usage: source FILE"
  else
    fd ← sys (os_open path 0);
    if fd <? 0 then io_write_raw (bytes "source: cannot open ") ≫= λ _, io_write_raw path ≫= λ _, println ""
    else
      stream fuel fd 256 (by_lines 255 (λ _ line, when (negb (empty line)) (self line ≫= λ _, mret tt))) (tt, []) ≫= λ x : unit * list Z,
      when (negb (empty x.2)) (self x.2 ≫= λ _, mret tt) ≫= λ _,
      sys (os_close fd).

(** The tokens of the input, separated by single spaces. *)
Definition xargs_byte (x : list Z * bool) (c : Z) : list Z * bool :=
  if is_space c then (if x.2 && (length x.1 <? 255)%nat then x.1 ++ [SP] else x.1, false)
  else if (length x.1 <? 254)%nat then (x.1 ++ [c], true)
  else x.

Definition cmd_xargs (args : list Z) : sh unit :=
  if empty args then println "usage: xargs CMD"
  else
    redir ← gets sh_in;
    if redir =? NO_REDIR then println "xargs: no stdin"
    else
      stream fuel (to_i32 redir) 256 (λ x c, mret (xargs_byte x c, false)) ([], false) ≫= λ x : list Z * bool,
      let tokens := reverse (skip_while (λ c, c =? SP) (reverse x.1)) in
      if empty tokens then mret tt
      else
        modify (set_in NO_REDIR) ≫= λ _,
        self (take 255 args ++ [SP] ++ tokens) ≫= λ _,
        modify (set_in redir).

Definition succeeded : sh bool := x ← gets sh_exit; mret (x =? 0).

Definition run_if (line : list Z) : sh unit :=
  match find_seq (drop 3 line) (bytes "; then ") with
  | None => mret tt
  | Some then_off =>
      let cond := trim (take then_off (drop 3 line)) in
      let rest := drop (3 + then_off + 7) line in
      if ends_with (bytes "; fi") rest || bool_decide (rest = bytes "fi") then
        let body_all := if ends_with (bytes "; fi") rest then trim (take (length rest - 4) rest) else [] in
        match find_seq body_all (bytes "; else ") with
        | Some else_off =>
            let then_body := trim (take else_off body_all) in
            let else_body := trim (drop (else_off + 7) body_all) in
            self cond ≫= λ _,
            ok ← succeeded;
            self (if ok : bool then then_body else else_body) ≫= λ _, mret tt
        | None =>
            self cond ≫= λ _,
            ok ← succeeded;
            if ok : bool then self body_all ≫= λ _, mret tt else mret tt
        end
      else mret tt
  end.

(** At most 256 rounds. *)
Fixpoint while_loop (n : nat) (cond body : list Z) : sh unit :=
  match n with
  | O => mret tt
  | S n' =>
      self cond ≫= λ _,
      ok ← succeeded;
      if ok : bool then self body ≫= λ _, while_loop n' cond body else mret tt
  end.

Definition run_while (line : list Z) : sh unit :=
  match find_seq (drop 6 line) (bytes "; do ") with
  | None => mret tt
  | Some do_off =>
      let cond := trim (take do_off (drop 6 line)) in
      let rest := drop (6 + do_off + 5) line in
      if ends_with (bytes "; done") rest then while_loop 256 cond (trim (take (length rest - 6) rest)) else mret tt
  end.

(** The items are the words of the list. *)
Fixpoint for_loop (n : nat) (var_name items body : list Z) : sh unit :=
  match n with
  | O => mret tt
  | S n' =>
      let items := skip_while (λ c, c =? SP) items in
      if empty items then mret tt
      else
        let item := take_while (λ c, negb (c =? SP)) items in
        modify (λ s, set_vars (var_set var_name item (sh_vars s)) s) ≫= λ _,
        self body ≫= λ _,
        for_loop n' var_name (drop (length item) items) body
  end.

Definition run_for (line : list Z) : sh unit :=
  let rest := drop 4 line in
  match find_seq rest (bytes " in ") with
  | None => mret tt
  | Some in_off =>
      let var_name := trim (take in_off rest) in
      let rest2 := drop (in_off + 4) rest in
      match find_seq rest2 (bytes "; do ") with
      | None => mret tt
      | Some do_off =>
          let items := trim (take do_off rest2) in
          let rest3 := drop (do_off + 5) rest2 in
          if ends_with (bytes "; done") rest3 then
            for_loop (length items) var_name items (trim (take (length rest3 - 6) rest3))
          else mret tt
      end
  end.

(** The branches of a case, up to the first that matches. *)
Fixpoint case_loop (n : nat) (expr pats : list Z) : sh unit :=
  match n with
  | O => mret tt
  | S n' =>
      if empty pats then mret tt
      else
        let end_ := default (length pats) (find_seq pats (bytes ";;")) in
        let case_str := trim (take end_ pats) in
        let next := drop (end_ + 2) pats in
        match pos_of 41 case_str with
        | Some rp =>
            if glob_match (trim (take rp case_str)) expr then self (trim (drop (rp + 1) case_str)) ≫= λ _, mret tt
            else case_loop n' expr next
        | None => case_loop n' expr next
        end
  end.

Definition run_case (line : list Z) : sh unit :=
  let rest := drop 5 line in
  match find_seq rest (bytes " in ") with
  | None => mret tt
  | Some in_off =>
      let expr := trim (take in_off rest) in
      let pats := trim (drop (in_off + 4) rest) in
      let pats := if ends_with (bytes " esac") pats then trim (take (length pats - 5) pats)
                  else if ends_with (bytes "esac") pats then trim (take (length pats - 4) pats)
                  else pats in
      case_loop (length pats) expr pats
  end.

(** [left | right]: the output of the left command, through a file, is the input
    of the right one. *)
Definition run_pipe (left right : list Z) : sh unit :=
  wfd ← sys (os_open (bytes "/tmp/.pipebuf") O_WRITE);
  if 0 <=? wfd then
    modify (set_out wfd) ≫= λ _,
    self left ≫= λ _,
    modify (set_out NO_REDIR) ≫= λ _,
    sys (os_close wfd) ≫= λ _,
    rfd ← sys (os_open (bytes "/tmp/.pipebuf") 0);
    when (0 <=? rfd) (
      modify (set_in rfd) ≫= λ _,
      self right ≫= λ _,
      modify (set_in NO_REDIR) ≫= λ _,
      sys (os_close rfd))
  else println "pipe: cannot create buffer".

(** The command without its redirection, and the descriptor it is redirected to. *)
Definition output_redirection (line : list Z) : sh (list Z * Z) :=
  match windows_pos (bytes ">>") line with
  | Some p =>
      let path := trim (drop (p + 2) line) in
      if empty path then mret (line, -1)
      else rfd ← sys (os_open path (Z.lor 1 (Z.lor 0x40 0x400))); mret (trim (take p line), rfd)
  | None =>
      match pos_of 62 line with
      | Some p =>
          let path := trim (drop (p + 1) line) in
          if empty path then mret (line, -1)
          else rfd ← sys (os_open path O_WRITE); mret (trim (take p line), rfd)
      | None => mret (line, -1)
      end
  end.

(** Two arguments, for [cp], [mv] and [write]. *)
Definition two_args (args : list Z) (usage : string) (run : list Z → list Z → sh unit) : sh unit :=
  match pos_of SP args with
  | Some sp => run (take sp args) (trim (drop (sp + 1) args))
  | None => println usage
  end.

Definition head_args (args : list Z) : Z * list Z :=
  if starts_with (bytes "-n ") args then
    let '(n, p) := number_from u64 0 (trim (drop 3 args)) in (if n =? 0 then 10 else n, trim p)
  else (10, args).

Definition set_result (ok : bool) : sh unit := modify (set_exit (if ok then 0 else 1)).

(** The table of commands; [false] when the shell is to end. *)
Definition run_builtin (cmd args : list Z) : sh bool :=
  redir ← redirected;
  let named (s : string) := bool_decide (cmd = bytes s) in
  let go (c : sh unit) : sh bool := c ≫= λ _, mret true in
  if named "echo" then go (cmd_echo args)
  else if named "cat" then go (cmd_cat fuel (if empty args && negb redir then bytes "/etc/motd" else args))
  else if named "ls" then go (cmd_ls fuel (if empty args then bytes "/" else args))
  else if named "cd" then go (cmd_cd args)
  else if named "pwd" then go cmd_pwd
  else if named "mkdir" then go (cmd_mkdir args)
  else if named "rm" then go (cmd_rm args)
  else if named "cp" then go (two_args args "usage: cp <src> <dst>" (cmd_cp fuel))
  else if named "mv" then go (two_args args "usage: mv <src> <dst>" (cmd_mv fuel))
  else if named "readlink" then go (cmd_readlink args)
  else if named "write" then go (two_args args "usage: write <path> <content>" cmd_write)
  else if named "sleep" then go (cmd_sleep fuel args)
  else if named "grep" then go (cmd_grep fuel args)
  else if named "sort" then go (cmd_sort fuel (if empty args && redir then bytes "-" else args))
  else if named "tee" then go (cmd_tee fuel args)
  else if named "find" then go (cmd_find fuel args)
  else if named "touch" then go (cmd_touch args)
  else if named "cut" then go (cmd_cut fuel args)
  else if named "tr" then go (cmd_tr fuel args)
  else if named "uniq" then go (cmd_uniq fuel (if empty args && redir then bytes "-" else args))
  else if named "xargs" then go (cmd_xargs args)
  else if named "wc" then go (cmd_wc fuel (if empty args && negb redir then bytes "/etc/motd" else args))
  else if named "head" then let '(n, path) := head_args args in go (cmd_head fuel path n)
  else if named "test" then go (cmd_test args ≫= set_result)
  else if named "[" then go (cmd_test args ≫= set_result)
  else if named "whoami" then go (println "root")
  else if named "hostname" then go (cmd_cat fuel (bytes "/etc/hostname"))
  else if named "true" then go (set_result true)
  else if named "false" then go (set_result false)
  else if named "env" then go cmd_env
  else if named "unset" then go (when (negb (empty args)) (modify (λ s, set_vars (var_set args [] (sh_vars s)) s)))
  else if named "read" then go (cmd_read fuel args)
  else if named "printf" then go (if empty args then mret tt else io_write_raw (printf_bytes args))
  else if named "sed" then go (cmd_sed fuel args)
  else if named "awk" then go (cmd_awk fuel args)
  else if named "source" then go (cmd_source args)
  else if named "." then go (cmd_source args)
  else if named "type" then go (cmd_type args)
  else if named "ps" then go cmd_ps
  else if named "free" then go cmd_free
  else if named "df" then go cmd_df
  else if named "date" then go cmd_date
  else if named "kill" then go (cmd_kill args)
  else if named "uname" then go cmd_uname
  else if named "uptime" then go cmd_uptime
  else if named "help" || named "?" then go (io_write_raw help_text)
  else if named "exit" || named "quit" then mret false
  else
    found ← call_func cmd args;
    if found : bool then mret true
    else
      io_write_raw (bytes "unknown command: ") ≫= λ _, io_write_raw cmd ≫= λ _, println "" ≫= λ _,
      println "Type 'help' for a list of commands." ≫= λ _, mret true.

(** [NAME() { BODY; }]: the name and the body *)
Definition function_definition (line : list Z) : option (list Z * list Z) :=
  match pos_of 40 line with
  | None => None
  | Some paren_pos =>
      let name := take paren_pos line in
      let after := drop (paren_pos + 1) line in
      if forallb is_name name && match name with c :: _ => negb (is_digit c) | [] => false end then
        match find_seq after (bytes "{") with
        | None => None
        | Some brace =>
            if (default 0%nat (pos_of 41 after) <? brace)%nat then
              let inner := trim (drop (brace + 1) after) in
              Some (name, if ends_with (bytes "}") inner then trim (take (length inner - 1) inner) else inner)
            else None
        end
      else None
  end.

(** [VAR=value] *)
Definition assignment (line : list Z) : option (list Z * list Z) :=
  match pos_of 61 line with
  | None => None
  | Some eq =>
      let key := take eq line in
      if forallb is_name key && match key with c :: _ => negb (is_digit c) | [] => false end
      then Some (key, drop (eq + 1) line) else None
  end.

(** A simple command with its output redirection. *)
Definition run_simple (line : list Z) : sh bool :=
  output_redirection line ≫= λ x : list Z * Z,
  when (0 <=? x.2) (modify (set_out x.2)) ≫= λ _,
  let '(cmd, args) := split_space x.1 in
  r ← run_builtin cmd args;
  when (0 <=? x.2) (modify (set_out NO_REDIR) ≫= λ _, sys (os_close x.2)) ≫= λ _,
  mret r.

(** The expanded line. *)
Definition run_expanded (line : list Z) : sh bool :=
  let go (c : sh unit) : sh bool := c ≫= λ _, mret true in
  if empty line then mret true
  else if starts_with (bytes "if ") line then go (run_if line)
  else if starts_with (bytes "while ") line then go (run_while line)
  else if starts_with (bytes "for ") line then go (run_for line)
  else if starts_with (bytes "case ") line then go (run_case line)
  else
    match pos_of 59 line with
    | Some semi =>
        let first := trim (take semi line) in
        let rest := trim (drop (semi + 1) line) in
        (if empty first then mret true else self first) ≫= λ _,
        (if empty rest then mret true else self rest) ≫= λ _,
        mret true
    | None =>
        match pos_of 124 line with
        | Some pipe_pos =>
            let left := trim (take pipe_pos line) in
            let right := trim (drop (pipe_pos + 1) line) in
            if negb (empty left) && negb (empty right) then go (run_pipe left right) else run_simple line
        | None => run_simple line
        end
    end.

Definition dispatch_body (line : list Z) : sh bool :=
  let line := trim line in
  if empty line then mret true
  else
    match function_definition line with
    | Some (name, body) => modify (λ s, set_funcs (func_define name body (sh_funcs s)) s) ≫= λ _, mret true
    | None =>
        match assignment line with
        | Some (key, val) => modify (λ s, set_vars (var_set key val (sh_vars s)) s) ≫= λ _, mret true
        | None =>
            expanded ← var_expand line;
            run_expanded (trim expanded)
        end
    end.
End interpreter.

Fixpoint dispatch_command (fuel : nat) (line : list Z) : sh bool :=
  match fuel with
  | O => hang
  | S fuel' => dispatch_body fuel (dispatch_command fuel') line
  end.

(** ** Lines from the terminal *)

Definition echo_raw (b : list Z) : sh unit := modify (λ s, set_term (sh_term s ++ b) s).

(** [readline]: the line and the keys that are left; it waits for a key.  Echo of
    characters goes to the terminal, the rest through the redirection. *)
Fixpoint readline (keys : list Z) (cap : nat) (buf : list Z) : sh (list Z) :=
  match keys with
  | [] => hang
  | b :: keys' =>
      modify (set_keys keys') ≫= λ _,
      if (b =? CR) || (b =? NL) then io_write_raw [CR; NL] ≫= λ _, mret buf
      else if (b =? 8) || (b =? 127) then
        if (0 <? length buf)%nat then io_write_raw [8; SP; 8] ≫= λ _, readline keys' cap (take (length buf - 1) buf)
        else readline keys' cap buf
      else if b =? 3 then io_write_raw (bytes "^C" ++ [CR; NL]) ≫= λ _, mret []
      else if (32 <=? b) && (b <=? 126) then
        if (length buf <? cap - 1)%nat then echo_raw [b] ≫= λ _, readline keys' cap (buf ++ [b])
        else readline keys' cap buf
      else readline keys' cap buf
  end.

(** The loop of [run_shell], up to the command that ends it. *)
Fixpoint shell_loop (fuel : nat) : sh unit :=
  match fuel with
  | O => hang
  | S fuel' =>
      io_write_raw (bytes "cyanos> ") ≫= λ _,
      keys ← gets sh_keys;
      line ← readline keys 256 [];
      if empty line then shell_loop fuel'
      else
        go ← dispatch_command fuel line;
        if go : bool then shell_loop fuel' else mret tt
  end.
End shell.

(** ** The kernel as the system of the shell

    The shell runs in the kernel and calls the servers directly, with the
    addresses of its local buffers: [P] and [P2] for paths, [B] for data.
    [others] is what the other tasks do while it yields. *)

Section init_os.
Context (P P2 B : Z) (others : Os → Os).

(** A path of at most 255 bytes in a buffer of 256 zeros. *)
Definition path_bytes (path : list Z) : list Z := take 255 path ++ replicate (256 - length (take 255 path)) 0.

Definition vfs_open (path : list Z) (flags : Z) : st Os Z :=
  let n := Nat.min (length path) 255 in
  let end_ := default n (pos_of 0 (take n path)) in
  store P (<[end_ := 0]> (path_bytes path)) ≫= λ _,
  r ← vfs_req VFS_OPEN [P; flags; 0];
  mret (to_i32 r).

Definition vfs_read (fd n : Z) : st Os (Z * list Z) :=
  r ← vfs_req VFS_READ [u64 fd; B; n];
  bs ← load B n;
  mret (r, bs).

Definition vfs_write (fd : Z) (bs : list Z) : st Os Z :=
  store B bs ≫= λ _,
  vfs_req VFS_WRITE [u64 fd; B; len bs].

Definition vfs_close (fd : Z) : st Os unit :=
  if SOCK_FD_BASE <=? u64 fd then net_req NetTags.NET_CLOSE [u64 fd] ≫= λ _, mret tt
  else vfs_req VFS_CLOSE [u64 fd] ≫= λ _, mret tt.

Definition vfs_getdents64 (fd n : Z) : st Os (Z * list Z) :=
  r ← vfs_req VFS_GETDENTS64 [u64 fd; B; n];
  bs ← load B n;
  mret (r, bs).

#[export] Instance init_os : ShellOs Os := {|
  os_open := vfs_open;
  os_read := vfs_read;
  os_write := vfs_write;
  os_close := vfs_close;
  os_getdents := vfs_getdents64;
  os_mkdir := λ path, store P (path_bytes path) ≫= λ _, vfs_req VFS_MKDIR [P];
  os_unlink := λ path, store P (path_bytes path) ≫= λ _, vfs_req VFS_UNLINK [P];
  os_rename := λ src dst, store P (path_bytes src) ≫= λ _, store P2 (path_bytes dst) ≫= λ _, vfs_req VFS_RENAME [P; P2];
  os_fd_path := λ fd n, r ← vfs_req VFS_FD_PATH [fd; B; n]; bs ← load B n; mret (r, bs);
  os_pid_of := os_pid;
  os_ticks := λ s, ticks (os_sched s);
  os_cwd := λ n s, current_cwd n (os_sched s);
  os_chdir := λ path s, let '(b, c) := set_cwd path (os_sched s) in (b, set_k (set_sched c (os_k s)) s);
  os_signal := λ pid sig s, let '(r, c) := deliver_signal pid sig (os_sched s) in (r, set_k (set_sched c (os_k s)) s);
  os_yield := others
|}.
End init_os.
