(* ===== verification/InitShellSpec.v ===== *)
(** * What the shell's commands do

    The filters are proved against an interface: [TextFiles] says what the shell
    relies on of files it writes and reads, and the VFS server discharges it for
    files under /tmp.  The theorems are about the whole input, however the reads
    cut it up. *)

From Stdlib Require Import ZArith Lia Ascii String.
From stdpp Require Import base list option numbers strings sorting sets.
From S2P Require Import Prelude Words Cpio Memory IpcPort VfsData Vfs Task Sched Net SysMem SysOs InitText InitShell.

Local Open Scope Z_scope.

(** ** Lines *)

Lemma split_nl_nonempty acc s : split_nl acc s ≠ [].
Proof. revert acc. induction s as [|c s IH]; intros acc; cbn [split_nl]; [done|]. by destruct (c =? NL). Qed.

(** The lines of a text that end in a newline, and what follows the last of them. *)
Definition whole_lines (bs : list Z) : list (list Z) := removelast (split_nl [] bs).
Definition last_line (bs : list Z) : list Z := List.last (split_nl [] bs) [].

(** All lines; the last one counts when it is not empty. *)
Definition text_lines (bs : list Z) : list (list Z) :=
  whole_lines bs ++ (if empty (last_line bs) then [] else [last_line bs]).

(** Lines printed. *)
Definition unlines (ls : list (list Z)) : list Z := mjoin ((λ l, l ++ [NL]) <$> ls).

(** A machine that reads bytes and writes bytes, and may stop. *)
Fixpoint machine {A} (f : A → Z → A * list Z * bool) (bs : list Z) (a : A) : A * list Z * bool :=
  match bs with
  | [] => (a, [], false)
  | b :: bs' =>
      let '(a', o, stop) := f a b in
      if stop then (a', o, true) else let '(a'', o', stop') := machine f bs' a' in (a'', o ++ o', stop')
  end.

Lemma machine_app {A} (f : A → Z → A * list Z * bool) x y a :
  machine f (x ++ y) a =
  let '(a1, o1, s1) := machine f x a in
  if s1 then (a1, o1, true) else let '(a2, o2, s2) := machine f y a1 in (a2, o1 ++ o2, s2).
Proof.
  revert a. induction x as [|b x IH]; intros a; cbn [app machine]; [by destruct (machine f y a) as [[] []]|].
  destruct (f a b) as [[a' o] []]; [done|]. rewrite IH. destruct (machine f x a') as [[a1 o1] []]; [done|].
  destruct (machine f y a1) as [[a2 o2] s2]. by rewrite (assoc_L (++)).
Qed.

(** The machine of a command that reads lines. *)
Definition line_machine {A} (cap : nat) (g : A → list Z → A * list Z) (x : A * list Z) (c : Z) : A * list Z * list Z * bool :=
  if c =? NL then let '(a, o) := g x.1 x.2 in ((a, []), o, false) else ((x.1, push cap x.2 c), [], false).

(** What it makes of a list of lines. *)
Fixpoint over_lines {A} (g : A → list Z → A * list Z) (ls : list (list Z)) (a : A) : A * list Z :=
  match ls with
  | [] => (a, [])
  | l :: ls' => let '(a', o) := g a l in let '(a'', o') := over_lines g ls' a' in (a'', o ++ o')
  end.

Lemma over_lines_app {A} (g : A → list Z → A * list Z) x y a :
  over_lines g (x ++ y) a = let '(a1, o1) := over_lines g x a in let '(a2, o2) := over_lines g y a1 in (a2, o1 ++ o2).
Proof.
  revert a. induction x as [|l x IH]; intros a; cbn [app over_lines]; [by destruct (over_lines g y a)|].
  destruct (g a l) as [a' o]. rewrite IH. destruct (over_lines g x a') as [a1 o1]. destruct (over_lines g y a1). by rewrite (assoc_L (++)).
Qed.

Lemma push_take cap acc c : push cap (take cap acc) c = take cap (acc ++ [c]).
Proof.
  unfold push. rewrite length_take. destruct (Nat.ltb_spec (Nat.min cap (length acc)) cap).
  - rewrite take_ge, take_ge; [done|rewrite length_app; simpl; lia|lia].
  - by rewrite take_app_le by lia.
Qed.

Lemma line_machine_run {A} cap (g : A → list Z → A * list Z) bs : ∀ acc a,
  machine (line_machine cap g) bs (a, take cap acc) =
  let segs := take cap <$> split_nl acc bs in
  let '(a', o) := over_lines g (removelast segs) a in ((a', List.last segs []), o, false).
Proof.
  induction bs as [|c bs IH]; intros acc a; [done|]. cbn [machine split_nl]. unfold line_machine at 1. cbn [fst snd].
  destruct (c =? NL).
  - destruct (g a (take cap acc)) as [a' o] eqn:Hg. pose proof (IH [] a') as H0. rewrite take_nil in H0. rewrite H0. cbv zeta.
    destruct (split_nl [] bs) as [|l ls] eqn:Hs; [by destruct (split_nl_nonempty [] bs)|]. cbn [fmap list_fmap].
    change (removelast (take cap acc :: take cap l :: (take cap <$> ls))) with (take cap acc :: removelast (take cap l :: (take cap <$> ls))).
    cbn [over_lines]. rewrite Hg. by destruct (over_lines g _ a').
  - rewrite push_take, IH. cbv zeta. by destruct (over_lines g _ a).
Qed.

Lemma removelast_fmap {A B} (f : A → B) l : removelast (f <$> l) = f <$> removelast l.
Proof. induction l as [|x [|y l] IH]; [done..|]. change (f x :: removelast (f <$> y :: l) = f x :: (f <$> removelast (y :: l))). by rewrite IH. Qed.

Lemma last_fmap {A B} (f : A → B) l x : List.last (f <$> l) (f x) = f (List.last l x).
Proof. induction l as [|a [|b l] IH]; [done..|]. exact IH. Qed.

(** Line by line over the whole text, the last line included. *)
Lemma line_machine_text {A} cap (g : A → list Z → A * list Z) bs a :
  machine (line_machine cap g) bs (a, []) =
  let '(a', o) := over_lines g (take cap <$> whole_lines bs) a in ((a', take cap (last_line bs)), o, false).
Proof.
  pose proof (line_machine_run cap g bs [] a) as Hr. rewrite take_nil in Hr. rewrite Hr. cbv zeta. unfold whole_lines, last_line.
  pose proof (last_fmap (take cap) (split_nl [] bs) []) as Hl. rewrite take_nil in Hl. by rewrite removelast_fmap, Hl.
Qed.

(** ** What the shell relies on *)

(** [ready path]: the file can be made and opened; [writing fd path w]: the
    descriptor is open for writing at the end of the file, which holds [w];
    [holds path w]: so does the file, and it can be opened; [reading fd path w]:
    [w] is left to be read. *)
Class TextFiles (K : Type) `{ShellOs K} := {
  ready : list Z → K → Prop;
  writing : Z → list Z → list Z → K → Prop;
  holds : list Z → list Z → K → Prop;
  reading : Z → list Z → list Z → K → Prop;
  open_write path k : ready path k →
    ∃ fd k', os_open path O_WRITE k = Ret (fd, k') ∧ 0 ≤ fd < 2^31 ∧ writing fd path [] k';
  write_more fd path w bs k : writing fd path w k → 0 < len bs → len w + len bs ≤ MAX_TMP_SIZE →
    ∃ r k', os_write fd bs k = Ret (r, k') ∧ writing fd path (w ++ bs) k';
  close_written fd path w k : writing fd path w k → ∃ k', os_close fd k = Ret (tt, k') ∧ holds path w k';
  open_read path w k : holds path w k →
    ∃ fd k', os_open path 0 k = Ret (fd, k') ∧ 0 ≤ fd < 2^31 ∧ reading fd path w k';
  read_more fd path w n k : reading fd path w k → 0 < n ≤ 4096 →
    ∃ buf k', os_read fd n k = Ret (len (take (Z.to_nat n) w), buf, k') ∧
      take (length (take (Z.to_nat n) w)) buf = take (Z.to_nat n) w ∧ reading fd path (drop (Z.to_nat n) w) k';
  close_read fd path w k : reading fd path w k → ∃ k', os_close fd k = Ret (tt, k') ∧ ready path k'
}.

Section commands.
Context {K : Type} `{TextFiles K} (help_text : list Z).
Notation Sh := (@Sh K).
Implicit Types (s : Sh) (k : K).

(** Output on the terminal. *)
Definition tell (out : list Z) (s : Sh) : Sh := set_term (sh_term s ++ out) s.

Lemma tell_nil s : tell [] s = s.
Proof. unfold tell. rewrite app_nil_r. by destruct s. Qed.

Lemma tell_tell a b s : tell b (tell a s) = tell (a ++ b) s.
Proof. unfold tell, set_term. simpl. by rewrite (assoc_L (++)). Qed.

(** ** Commands that only write

    [says c a out]: with the terminal as output, [c] writes [out] and returns [a]. *)
Definition says {A} (c : sh A) (a : A) (out : list Z) : Prop :=
  ∀ s, sh_out s = NO_REDIR → c s = Some (Ret (a, tell out s)).

Lemma says_ret {A} (a : A) : says (mret a) a [].
Proof. intros s _. by rewrite tell_nil. Qed.

Lemma says_bind {A B} (c : sh A) (f : A → sh B) a b o1 o2 : says c a o1 → says (f a) b o2 → says (c ≫= f) b (o1 ++ o2).
Proof.
  intros H1 H2 s Hs. unfold mbind, sh_bind. rewrite (H1 s Hs), <- tell_tell. by apply H2.
Qed.

Lemma says_then {A B} (c : sh A) a (b : B) o : says c a o → says (c ≫= λ _, mret b) b o.
Proof. intros Hc. rewrite <- (app_nil_r o). eapply says_bind; [exact Hc|apply says_ret]. Qed.

Lemma says_write bs : says (io_write_raw bs) tt bs.
Proof. intros s Hs. unfold io_write_raw, mbind, sh_bind, gets. by rewrite Hs. Qed.

Lemma says_println t : says (println t) tt (bytes t ++ [NL]).
Proof. apply says_write. Qed.

Lemma says_print t : says (print t) tt (bytes t).
Proof. apply says_write. Qed.

Lemma says_when (b : bool) c o : says c tt o → says (when b c) tt (if b then o else []).
Proof. intros Hc. destruct b; [done|]. apply says_ret. Qed.

(** ** Commands that read a file

    [reads fd path w c a out]: with the terminal as output and [w] to be read
    from [fd], [c] writes [out] and returns [a]; the file can still be closed. *)
Definition reads {A} (fd : Z) (path w : list Z) (c : sh A) (a : A) (out : list Z) : Prop :=
  ∀ s, sh_out s = NO_REDIR → reading fd path w (sh_os s) →
  ∃ k' w', c s = Some (Ret (a, tell out (set_os k' s))) ∧ reading fd path w' k'.

Lemma reads_says {A} fd path w (c : sh A) a o : says c a o → reads fd path w c a o.
Proof. intros Hc s Hs Hr. exists (sh_os s), w. split; [|done]. rewrite (Hc s Hs). by destruct s. Qed.

Lemma reads_bind {A B} fd path w (c : sh A) (f : A → sh B) a b o1 o2 :
  reads fd path w c a o1 → says (f a) b o2 → reads fd path w (c ≫= f) b (o1 ++ o2).
Proof.
  intros H1 H2 s Hs Hr. destruct (H1 s Hs Hr) as (k' & w' & Hc & Hr'). exists k', w'. split; [|done].
  unfold mbind, sh_bind. rewrite Hc, <- tell_tell. by apply H2.
Qed.

Lemma says_reads_bind {A B} fd path w (c : sh A) (f : A → sh B) a b o1 o2 :
  says c a o1 → reads fd path w (f a) b o2 → reads fd path w (c ≫= f) b (o1 ++ o2).
Proof.
  intros H1 H2 s Hs Hr. unfold mbind, sh_bind. rewrite (H1 s Hs).
  destruct (H2 (tell o1 s) Hs Hr) as (k' & w' & Hc & Hr'). exists k', w'. split; [|done]. rewrite Hc. by rewrite <- tell_tell.
Qed.

(** A chunk through a machine. *)
Lemma each_byte_says {A} (body : A → Z → sh (A * bool)) f bs :
  (∀ a c, says (body a c) ((f a c).1.1, (f a c).2) (f a c).1.2) →
  ∀ a, let '(a', o, stop) := machine f bs a in says (each_byte body bs a) (a', stop) o.
Proof.
  intros Hb. induction bs as [|b bs IH]; intros a; [apply says_ret|]. cbn [machine each_byte].
  pose proof (Hb a b) as H1. destruct (f a b) as [[a' o] stop]. cbn [fst snd] in H1. destruct stop.
  - rewrite <- (app_nil_r o). eapply says_bind; [exact H1|apply says_ret].
  - pose proof (IH a') as H2. destruct (machine f bs a') as [[a'' o'] stop']. eapply says_bind; [exact H1|exact H2].
Qed.

(** A read that has data does not wait. *)
Lemma read_blocking_reads fuel fd path w n s : reading fd path w (sh_os s) → 0 < n ≤ 4096 → (0 < fuel)%nat →
  ∃ buf k', vfs_read_blocking fuel fd n s = Some (Ret ((len (take (Z.to_nat n) w), buf), set_os k' s)) ∧
    take (length (take (Z.to_nat n) w)) buf = take (Z.to_nat n) w ∧ reading fd path (drop (Z.to_nat n) w) k'.
Proof.
  intros Hr Hn Hf. destruct fuel as [|fuel]; [lia|]. destruct (read_more fd path w n _ Hr Hn) as (buf & k' & Hrun & Hb & Hr').
  exists buf, k'. split; [|done]. cbn [vfs_read_blocking]. unfold mbind, sh_bind, sys. rewrite Hrun. cbn [fst].
  rewrite (proj2 (Z.eqb_neq _ (-11))) by (unfold len; lia). done.
Qed.

(** A command that works on chunks as a machine on bytes: it gets the whole
    input, whatever the chunks are.  Each read takes a byte at least. *)
Lemma chunks_reads {A} fd path n (body : A → list Z → sh (A * bool)) f : 0 < n ≤ 4096 →
  (∀ bs a, let '(a', o, stop) := machine f bs a in says (body a bs) (a', stop) o) →
  ∀ fuel w a, (length w < fuel)%nat → reads fd path w (chunks fuel fd n body a) (machine f w a).1.1 (machine f w a).1.2.
Proof.
  intros Hn Hb. induction fuel as [|fuel IH]; intros w a Hf s Hs Hr; [lia|].
  destruct (read_blocking_reads (S fuel) fd path w n s Hr Hn) as (buf & k' & Hrun & Hbuf & Hr'); [lia|].
  cbn [chunks]. unfold mbind at 1, sh_bind at 1. rewrite Hrun. cbn [fst snd].
  set (x := take (Z.to_nat n) w) in *. set (y := drop (Z.to_nat n) w) in *. assert (w = x ++ y) as Hw by (symmetry; apply take_drop).
  destruct (Z.leb_spec (len x) 0) as [Hlx|Hlx].
  { assert (w = []) as ->. { destruct w; [done|]. unfold len, x in Hlx. rewrite length_take in Hlx. simpl in Hlx. lia. }
    exists k', y. split; [|done]. cbn [machine fst snd]. by rewrite tell_nil. }
  unfold len. rewrite Nat2Z.id, Hbuf. pose proof (Hb x a) as Hx. rewrite Hw, machine_app.
  destruct (machine f x a) as [[a1 o1] stop]. unfold mbind, sh_bind. rewrite (Hx (set_os k' s) Hs). cbn [fst snd]. destruct stop.
  { exists k', y. by split. }
  destruct (IH y a1) with (s := tell o1 (set_os k' s)) as (k2 & w2 & Hrun2 & Hr2); [|done|done|].
  { apply (f_equal length) in Hw. rewrite length_app in Hw. unfold len in Hlx. lia. }
  destruct (machine f y a1) as [[a2 o2] stop2]. exists k2, w2. split; [|done]. cbn [fst snd] in *.
  rewrite Hrun2. by rewrite <- tell_tell.
Qed.

Lemma stream_reads {A} fd path n (body : A → Z → sh (A * bool)) f fuel w a : 0 < n ≤ 4096 →
  (∀ a c, says (body a c) ((f a c).1.1, (f a c).2) (f a c).1.2) → (length w < fuel)%nat →
  reads fd path w (stream fuel fd n body a) (machine f w a).1.1 (machine f w a).1.2.
Proof. intros Hn Hb Hf. apply chunks_reads; [done| |done]. intros bs a'. by apply each_byte_says. Qed.

(** The same for commands that read lines. *)
Lemma by_lines_reads {A} fd path n cap (flush : A → list Z → sh A) g fuel w a : 0 < n ≤ 4096 →
  (∀ a l, says (flush a l) (g a l).1 (g a l).2) → (length w < fuel)%nat →
  let r := over_lines g (take cap <$> whole_lines w) a in
  reads fd path w (stream fuel fd n (by_lines cap flush) (a, [])) (r.1, take cap (last_line w)) r.2.
Proof.
  intros Hn Hg Hf. pose proof (stream_reads fd path n (by_lines cap flush) (line_machine cap g) fuel w (a, []) Hn) as Hr.
  rewrite line_machine_text in Hr. cbv zeta. destruct (over_lines g _ a) as [a' o]. apply Hr; [|done].
  clear -Hg. intros [a l] c. unfold by_lines, line_machine. cbn [fst snd]. destruct (c =? NL); [|apply says_ret].
  pose proof (Hg a l) as Hl. destruct (g a l) as [a' o]. cbn [fst snd] in *. rewrite <- (app_nil_r o).
  eapply says_bind; [exact Hl|apply says_ret].
Qed.

(** ** Filters

    [filters w c out]: with [w] as the redirected input and the terminal as
    output, [c] writes [out]. *)
Definition filters (w : list Z) (c : sh unit) (out : list Z) : Prop :=
  ∀ fd path s, 0 ≤ fd < 2^31 → sh_in s = fd → sh_out s = NO_REDIR → reading fd path w (sh_os s) →
  ∃ k' w', c s = Some (Ret (tt, tell out (set_os k' s))) ∧ reading fd path w' k'.

Lemma fd_redirected fd : 0 ≤ fd < 2^31 → (fd =? NO_REDIR) = false ∧ to_i32 fd = fd.
Proof. intros Hfd. split; [apply Z.eqb_neq; unfold NO_REDIR, U64_MAX; lia|by apply to_i32_small]. Qed.

Lemma filters_open w p no_stdin no_file usage (f : Z → bool → sh unit) out : p = [] ∨ p = bytes "-" →
  (∀ fd path, reads fd path w (f fd false) tt out) →
  filters w (i ← open_input p no_stdin no_file usage; match i with None => mret tt | Some (fd, c) => f fd c end) out.
Proof.
  intros Hp Hf fd path s Hfd Hin Hout Hr. destruct (fd_redirected fd Hfd) as [Hne Hi].
  unfold open_input, mbind at 1, sh_bind at 1. unfold mbind at 1, sh_bind at 1, gets. rewrite Hin.
  assert (bool_decide (p = bytes "-") || empty p && negb (fd =? NO_REDIR) = true) as ->
    by (destruct Hp as [->| ->]; [|done]; by rewrite Hne).
  rewrite Hne, Hi. exact (Hf fd path s Hout Hr).
Qed.

(** *** References *)

Definition show_line (b : bool) (l : list Z) : list Z := if b then l ++ [NL] else [].

(** The text up to the end of line [n]. *)
Fixpoint first_lines (n : nat) (bs : list Z) : list Z :=
  match n, bs with
  | S m, c :: bs' => c :: first_lines (if c =? NL then m else n) bs'
  | _, _ => []
  end.

(** Lines that differ from the line before. *)
Fixpoint squeeze (prev : option (list Z)) (ls : list (list Z)) : list (list Z) :=
  match ls with
  | [] => []
  | l :: ls' => if bool_decide (prev = Some l) then squeeze prev ls' else l :: squeeze (Some l) ls'
  end.

(** The words of a text. *)
Fixpoint split_words (acc bs : list Z) : list (list Z) :=
  match bs with
  | [] => if empty acc then [] else [acc]
  | c :: bs' => if is_space c then (if empty acc then [] else [acc]) ++ split_words [] bs' else split_words (acc ++ [c]) bs'
  end.

(** The report of [wc]. *)
Definition wc_report (p bs : list Z) : list Z :=
  u32_dec (len (filter (eq NL) bs)) ++ bytes " " ++ u32_dec (len (split_words [] bs)) ++ bytes " " ++ u32_dec (len bs) ++ bytes " " ++ p ++ [NL].

(** ** Each filter *)

Section filter_lemmas.
Context (fuel : nat) (w : list Z) (Hfuel : (length w < fuel)%nat).

Lemma cat_filters p : p = [] ∨ p = bytes "-" → filters w (cmd_cat fuel p) w.
Proof.
  intros Hp. apply (filters_open w p _ _ _ (λ fd c, chunks fuel fd 256 (λ _ bs, io_write_raw bs ≫= λ _, mret (tt, false)) tt ≫= λ _, close_if c fd) w Hp).
  intros fd path. assert (∀ bs a, machine (λ (_ : unit) c, (tt, [c], false)) bs a = (a, bs, false)) as Hm.
  { clear. induction bs as [|b bs IH]; intros []; [done|]. cbn [machine]. by rewrite IH. }
  pose proof (chunks_reads fd path 256 (λ _ bs, io_write_raw bs ≫= λ _, mret (tt, false)) (λ (_ : unit) c, (tt, [c], false)) ltac:(lia)) as Hr.
  rewrite <- (app_nil_r w) at 2. eapply reads_bind; [|apply says_ret].
  pose proof (Hr ltac:(intros bs []; rewrite Hm; eapply says_then, says_write) fuel w tt Hfuel) as Hw.
  by rewrite Hm in Hw.
Qed.

Lemma head_filters p n : p = [] ∨ p = bytes "-" → 0 < n → filters w (cmd_head fuel p n) (first_lines (Z.to_nat n) w).
Proof.
  intros Hp Hn. set (f := λ lines c, if c =? NL then (lines + 1, [c], n <=? lines + 1) else (lines, [c], false)).
  set (body := λ lines c, io_write_raw [c] ≫= λ _, mret (if c =? NL then (lines + 1, n <=? lines + 1) else (lines, false))).
  apply (filters_open w p _ _ _ (λ fd c, stream fuel fd 256 body 0 ≫= λ _, close_if c fd) _ Hp).
  intros fd path. rewrite <- (app_nil_r (first_lines _ _)). eapply reads_bind; [|apply says_ret].
  assert (∀ bs l, 0 ≤ l < n → (machine f bs l).1.2 = first_lines (Z.to_nat (n - l)) bs) as Hm.
  { clear Hp. induction bs as [|b bs IH]; intros l Hl; [by destruct (Z.to_nat (n - l))|]. cbn [machine]. unfold f at 1.
    destruct (Z.to_nat (n - l)) as [|m] eqn:Hml; [lia|]. cbn [first_lines]. destruct (b =? NL).
    - destruct (Z.leb_spec n (l + 1)); [replace m with 0%nat by lia; by destruct bs|]. specialize (IH (l + 1) ltac:(lia)).
      destruct (machine f bs (l + 1)) as [[]]. cbn [fst snd] in *. rewrite IH. cbn [app]. do 2 f_equal. lia.
    - specialize (IH l Hl). destruct (machine f bs l) as [[]]. cbn [fst snd] in *. by rewrite IH, Hml. }
  rewrite <- (Z.sub_0_r n), <- Hm by lia. apply stream_reads; [lia| |done]. intros a c. unfold f, body.
  destruct (c =? NL); cbn [fst snd]; eapply says_then, says_write.
Qed.

(** Line by line to the end of the text. *)
Lemma all_lines_reads {A} fd path n cap (flush : A → list Z → sh A) (fin : A * list Z → sh unit) g a : 0 < n ≤ 4096 → (0 < cap)%nat →
  (∀ a l, says (flush a l) (g a l).1 (g a l).2) → (∀ a l, says (fin (a, l)) tt (g a l).2) →
  reads fd path w (stream fuel fd n (by_lines cap flush) (a, []) ≫= λ x : A * list Z,
                   when (negb (empty x.2)) (fin x) ≫= λ _, close_if false fd) tt
    (over_lines g (take cap <$> text_lines w) a).2.
Proof.
  intros Hn Hcap Hg Hfin. pose proof (by_lines_reads fd path n cap flush g fuel w a Hn Hg Hfuel) as Hr. cbv zeta in Hr.
  unfold text_lines. rewrite fmap_app, over_lines_app. destruct (over_lines g (take cap <$> whole_lines w) a) as [a1 o1].
  cbn [fst snd] in Hr. set (l := last_line w) in *.
  assert (empty (take cap l) = empty l) as He by (unfold empty; rewrite length_take; destruct l; cbn [length]; [by rewrite Nat.min_0_r|]; destruct cap; [lia|done]).
  destruct (over_lines g _ a1) as [a2 o2] eqn:Ho. cbn [snd]. eapply reads_bind; [exact Hr|]. cbn [fst snd].
  rewrite <- (app_nil_r o2). eapply says_bind; [|apply says_ret]. rewrite He. destruct (empty l); cbn [negb when].
  - injection Ho as <- <-. apply says_ret.
  - cbn [fmap list_fmap over_lines] in Ho. pose proof (Hfin a1 (take cap l)) as Hf. destruct (g a1 (take cap l)) as [a3 o3].
    injection Ho as <- <-. by rewrite app_nil_r.
Qed.

Lemma over_lines_map (h : list Z → list Z) ls : over_lines (λ (_ : unit) l, (tt, h l)) ls tt = (tt, mjoin (h <$> ls)).
Proof. induction ls as [|l ls IH]; [done|]. cbn [over_lines]. by rewrite IH. Qed.

Lemma mjoin_cons {A} (x : list A) ls : mjoin (x :: ls) = x ++ mjoin ls.
Proof. done. Qed.

Lemma unlines_filter (P : list Z → bool) ls : mjoin ((λ l, if P l then l ++ [NL] else []) <$> ls) = unlines (filter P ls).
Proof.
  unfold unlines. induction ls as [|l ls IH]; [done|]. rewrite fmap_cons, mjoin_cons, IH. destruct (P l) eqn:HP.
  - by rewrite filter_cons_True, fmap_cons, mjoin_cons by (by rewrite HP).
  - rewrite filter_cons_False; [done|]. rewrite HP. by intros [].
Qed.

Lemma says_line l : says (io_write_raw l ≫= λ _, println "") tt (l ++ [NL]).
Proof. eapply says_bind; [apply says_write|apply (says_println "")]. Qed.

Lemma grep_filters pat : pat ≠ [] → SP ∉ pat → filters w (cmd_grep fuel pat) (unlines (filter (contains pat) (take 255 <$> text_lines w))).
Proof.
  intros Hne Hsp. unfold cmd_grep, split_space. rewrite pos_of_none by done.
  assert (empty pat = false) as -> by (by destruct pat). apply filters_open; [by left|]. intros fd path.
  rewrite <- unlines_filter. pose proof (over_lines_map (λ l, if contains pat l then l ++ [NL] else []) (take 255 <$> text_lines w)) as Ho.
  apply (f_equal snd) in Ho. cbn [snd] in Ho. rewrite <- Ho.
  assert (∀ l, says (grep_line pat l) tt (if contains pat l then l ++ [NL] else [])) as Hl.
  { intros l. apply says_when, says_line. }
  apply (all_lines_reads fd path 256 255 (λ _ line, grep_line pat line) (λ x, grep_line pat x.2)); [lia|lia| |]; intros a l; apply Hl.
Qed.

Lemma over_lines_squeeze ls prev :
  (over_lines (λ prev l, if bool_decide (prev = Some l) then (prev, []) else (Some l, l ++ [NL])) ls prev).2 = unlines (squeeze prev ls).
Proof.
  revert prev. induction ls as [|l ls IH]; intros prev; [done|]. cbn [over_lines squeeze]. destruct (bool_decide (prev = Some l)).
  - specialize (IH prev). by destruct (over_lines _ ls prev).
  - specialize (IH (Some l)). destruct (over_lines _ ls (Some l)). cbn [snd] in *. by rewrite IH.
Qed.

Lemma uniq_filters p : p = [] ∨ p = bytes "-" → filters w (cmd_uniq fuel p) (unlines (squeeze None (take 255 <$> text_lines w))).
Proof.
  intros Hp. unfold cmd_uniq. apply filters_open; [done|]. intros fd path. rewrite <- over_lines_squeeze.
  assert (∀ a l, says (uniq_line a l) (if bool_decide (a = Some l) then (a, []) else (Some l, l ++ [NL])).1
    (if bool_decide (a = Some l) then (a, []) else (Some l, l ++ [NL])).2) as Hl.
  { intros a l. unfold uniq_line. destruct (bool_decide (a = Some l)); [apply says_ret|]. rewrite <- (app_nil_r (l ++ [NL])), <- app_assoc.
    eapply says_bind; [apply says_write|]. eapply says_bind; [apply (says_println "")|apply says_ret]. }
  apply (all_lines_reads fd path 256 255 uniq_line (λ x, uniq_line x.1 x.2 ≫= λ _, mret tt)); [lia|lia|exact Hl|].
  intros a l. eapply says_then. apply Hl.
Qed.

Lemma over_lines_keep ls kept : (length kept ≤ 64)%nat →
  over_lines (λ a l, (keep_line a l, [])) ls kept = (kept ++ take (64 - length kept) ls, []).
Proof.
  revert kept. induction ls as [|l ls IH]; intros kept Hk; cbn [over_lines]; [by rewrite take_nil, app_nil_r|].
  destruct (Nat.lt_ge_cases (length kept) 64).
  - assert (keep_line kept l = kept ++ [l]) as -> by (unfold keep_line; by rewrite (proj2 (Nat.ltb_lt _ _))). rewrite IH by (rewrite length_app; simpl; lia). rewrite length_app, <- app_assoc. cbn [length app].
    by replace (64 - length kept)%nat with (S (64 - (length kept + 1))) by lia.
  - assert (keep_line kept l = kept) as -> by (unfold keep_line; by rewrite (proj2 (Nat.ltb_ge _ _))).
    rewrite IH by lia. by replace (64 - length kept)%nat with 0%nat by lia.
Qed.

Lemma print_lines_says ls : says (print_lines ls) tt (unlines ls).
Proof.
  induction ls as [|l ls IH]; [apply says_ret|]. cbn [print_lines]. unfold unlines. rewrite fmap_cons, mjoin_cons, <- app_assoc.
  eapply says_bind; [apply says_write|]. eapply says_bind; [apply (says_println "")|exact IH].
Qed.

Lemma take_snoc_keep (ls : list (list Z)) l : keep_line (take 64 ls) l = take 64 (ls ++ [l]).
Proof.
  unfold keep_line. rewrite length_take. destruct (Nat.ltb_spec (Nat.min 64 (length ls)) 64).
  - rewrite !take_ge; [done|rewrite length_app; simpl; lia|lia].
  - by rewrite take_app_le by lia.
Qed.

Lemma sort_filters p : p = [] ∨ p = bytes "-" →
  filters w (cmd_sort fuel p) (unlines (merge_sort lex_le (take 64 (take 127 <$> text_lines w)))).
Proof.
  intros Hp. unfold cmd_sort. apply filters_open; [done|]. intros fd path.
  pose proof (by_lines_reads fd path 256 127 (λ lines line, mret (keep_line lines line)) (λ a l, (keep_line a l, [])) fuel w []
    ltac:(lia) (λ a l, says_ret _) Hfuel) as Hr. cbv zeta in Hr. rewrite over_lines_keep in Hr by (simpl; lia). cbn [fst snd app length Nat.sub] in Hr.
  rewrite <- (app_nil_l (unlines _)). eapply reads_bind; [exact Hr|]. cbn [fst snd].
  rewrite <- (app_nil_l (unlines _)). eapply says_bind; [apply says_ret|]. rewrite insertion_sort_merge_sort.
  assert ((if empty (take 127 (last_line w)) then take 64 (take 127 <$> whole_lines w)
           else keep_line (take 64 (take 127 <$> whole_lines w)) (take 127 (last_line w))) = take 64 (take 127 <$> text_lines w)) as ->.
  { unfold text_lines. destruct (last_line w); [cbn; by rewrite app_nil_r|]. rewrite take_snoc_keep, fmap_app. done. }
  apply print_lines_says.
Qed.

Lemma tr_filters set1 set2 : set1 ≠ [] → SP ∉ set1 → trimmed set2 → starts_with (bytes "-d ") (set1 ++ SP :: set2) = false →
  filters w (cmd_tr fuel (set1 ++ SP :: set2)) (mjoin (tr_byte false set1 set2 <$> w)).
Proof.
  intros Hne Hsp Hset2 Hd fd path s Hfd Hin Hout Hr. destruct (fd_redirected fd Hfd) as [Hne' Hi].
  unfold cmd_tr. rewrite Hd. unfold mbind at 1, sh_bind at 1, gets. rewrite Hin, Hne', Hi.
  unfold split_space. rewrite pos_of_app, take_app_length by done. cbv zeta iota.
  set (f := λ (_ : unit) c, (tt, tr_byte false set1 set2 c, false)).
  assert (trim (drop (length set1 + 1) (set1 ++ SP :: set2)) = set2) as ->.
  { rewrite <- drop_drop, drop_app_length. cbn [drop]. by apply trim_id. }
  assert (∀ bs, machine f bs tt = (tt, mjoin (tr_byte false set1 set2 <$> bs), false)) as Hm.
  { clear. induction bs as [|b bs IH]; [done|]. cbn [machine]. unfold f at 1. by rewrite IH. }
  rewrite <- (app_nil_r (mjoin _)). pose proof (Hm w) as Hw. apply (f_equal (λ x, x.1.2)) in Hw. cbn [fst snd] in Hw. rewrite <- Hw.
  revert s Hin Hout Hr. intros s _. revert s. eapply reads_bind; [|apply says_ret].
  apply stream_reads; [lia| |done]. intros [] c. eapply says_then. unfold f. cbn [fst snd].
  destruct (tr_byte false set1 set2 c) as [|b l]; [apply says_ret|apply says_write].
Qed.

Lemma wc_counts bs : ∀ acc l n b, 0 ≤ l → 0 ≤ n → 0 ≤ b → l + len bs < 2^32 → n + len bs < 2^32 → b + len bs < 2^32 →
  let x := foldl wc_byte (mkWc l n b (negb (empty acc))) bs in
  wc_lines x = l + len (filter (eq NL) bs) ∧ wc_bytes x = b + len bs ∧
  wc_words x = n + len (split_words acc bs) - (if empty acc then 0 else 1).
Proof.
  unfold len. induction bs as [|c bs IH]; intros acc l n b Hl Hn Hb Hl' Hn' Hb'.
  { cbn. destruct (empty acc); cbn; lia. }
  cbn [length] in *. set (nl := length (filter (eq NL) [c])).
  assert (nl ≤ 1)%nat as Hnl by (etrans; [apply length_filter|done]).
  assert (length (filter (eq NL) (c :: bs)) = (nl + length (filter (eq NL) bs))%nat) as ->
    by (unfold nl; rewrite <- length_app, <- filter_app; done).
  assert (wc_byte (mkWc l n b (negb (empty acc))) c =
    mkWc (l + Z.of_nat nl) (if is_space c then n else if empty acc then n + 1 else n) (b + 1) (negb (is_space c))) as Hstep.
  { unfold wc_byte. cbn [wc_lines wc_words wc_bytes wc_in_word]. rewrite (u32_small (b + 1)), (u32_small (n + 1)) by lia.
    assert ((if c =? NL then u32 (l + 1) else l) = l + Z.of_nat nl) as ->.
    { unfold nl. destruct (Z.eqb_spec c NL) as [->|Hc]; [rewrite u32_small by lia; done|].
      rewrite filter_cons_False by congruence. cbn. lia. }
    by destruct (is_space c), (empty acc). }
  cbn [foldl split_words]. rewrite Hstep. destruct (is_space c); cbn [negb].
  - destruct (IH [] (l + Z.of_nat nl) n (b + 1)) as (H1 & H2 & H3); [lia..|]. cbn [empty length Nat.eqb negb] in *.
    rewrite H1, H2, H3, length_app. destruct (empty acc); cbn [length]; lia.
  - assert (empty (acc ++ [c]) = false) as He by (unfold empty; rewrite length_app; simpl; apply Nat.eqb_neq; lia).
    destruct (IH (acc ++ [c]) (l + Z.of_nat nl) (if empty acc then n + 1 else n) (b + 1)) as (H1 & H2 & H3);
      try (destruct (empty acc); lia).
    rewrite He in H1, H2, H3. cbn [negb] in *. rewrite H1, H2, H3. destruct (empty acc); lia.
Qed.

Lemma wc_filters p : p = [] ∨ p = bytes "-" → len w < 2^32 → filters w (cmd_wc fuel p) (wc_report p w).
Proof.
  intros Hp Hw. unfold cmd_wc. apply filters_open; [done|]. intros fd path.
  set (f := λ x c, (wc_byte x c, [] : list Z, false)).
  assert (∀ bs x, machine f bs x = (foldl wc_byte x bs, [], false)) as Hm.
  { clear. induction bs as [|b bs IH]; intros x; [done|]. cbn [machine]. unfold f at 1. by rewrite IH. }
  pose proof (stream_reads fd path 512 (λ x c, mret (wc_byte x c, false)) f fuel w (mkWc 0 0 0 false) ltac:(lia) (λ a c, says_ret _) Hfuel) as Hr.
  rewrite Hm in Hr. cbn [fst snd] in Hr. rewrite <- (app_nil_l (wc_report p w)). eapply reads_bind; [exact Hr|].
  destruct (wc_counts w [] 0 0 0) as (H1 & H2 & H3); [lia..|]. cbn [empty length Nat.eqb negb] in *. rewrite H1, H2, H3, !Z.add_0_l, Z.sub_0_r.
  rewrite <- (app_nil_l (wc_report p w)). eapply says_bind; [apply says_ret|]. unfold wc_report.
  repeat (eapply says_bind; [apply says_write|]). apply (says_println "").
Qed.
End filter_lemmas.
End commands.
