(* ===== verification/InitRun.v ===== *)
(** * Command lines of the shell

    How a command line is taken apart, and a pipeline from end to end: what
    [echo TEXT | FILTER] prints. *)

From Stdlib Require Import ZArith Lia Ascii String.
From stdpp Require Import base list option numbers strings sorting sets.
From S2P Require Import Prelude Words Cpio Memory IpcPort VfsData Vfs Task Sched Net SysMem SysOs InitText InitShell InitShellSpec.

Local Open Scope Z_scope.

(** ** Lines *)

(** Nothing in the text means something to the interpreter: no [$], [;], [|], [>]. *)
Definition plain (s : list Z) : Prop := 36 ∉ s ∧ 59 ∉ s ∧ 124 ∉ s ∧ 62 ∉ s.

Definition word (s : list Z) : Prop := s ≠ [] ∧ SP ∉ s ∧ plain s.

(** A command and its arguments. *)
Definition cmdline (name args : list Z) : list Z := if empty args then name else name ++ SP :: args.

Definition keyword (line : list Z) : bool :=
  starts_with (bytes "if ") line || starts_with (bytes "while ") line || starts_with (bytes "for ") line || starts_with (bytes "case ") line.

Lemma word_trimmed s : word s → trimmed s.
Proof.
  intros (Hne & Hsp & _). destruct s as [|a s]; [done|]. destruct (last (a :: s)) as [b|] eqn:Hb; [|by apply last_None in Hb].
  exists a, b. split_and!; [done|done|set_solver|]. intros ->. apply Hsp. apply last_Some in Hb as [l ->]. set_solver.
Qed.

Lemma trimmed_app a b : a ≠ [] → SP ∉ a → trimmed b → trimmed (a ++ SP :: b).
Proof.
  intros Hne Hsp (x & y & _ & Hy & _ & Hny). destruct a as [|c a]; [done|]. exists c, y. split_and!; [done| |set_solver|done].
  rewrite last_app_cons. destruct b; [done|]. by rewrite last_cons_cons.
Qed.

Lemma cmdline_trimmed name args : name ≠ [] → SP ∉ name → args = [] ∨ trimmed args → trimmed (cmdline name args).
Proof.
  intros Hne Hsp [->|Ha]; [|].
  - cbn. destruct name as [|a s]; [done|]. destruct (last (a :: s)) as [b|] eqn:Hb; [|by apply last_None in Hb].
    exists a, b. split_and!; [done|done|set_solver|]. intros ->. apply Hsp. apply last_Some in Hb as [l ->]. set_solver.
  - unfold cmdline. destruct args as [|x args]; [by destruct Ha as (? & ? & ? & _)|]. by apply trimmed_app.
Qed.

Lemma split_cmdline name args : SP ∉ name → args = [] ∨ trimmed args → split_space (cmdline name args) = (name, args).
Proof.
  intros Hsp Ha. unfold cmdline, split_space. destruct args as [|x args].
  - cbn [empty length Nat.eqb]. by rewrite pos_of_none.
  - cbn [empty length Nat.eqb]. rewrite pos_of_app, take_app_length by done.
    rewrite <- drop_drop, drop_app_length. cbn [drop]. destruct Ha as [|Ha]; [done|]. by rewrite trim_id.
Qed.

(** What stands before the first [c] is not a name, or there is no [c]. *)
Definition no_name_before (c : Z) (line : list Z) : Prop :=
  c ∉ line ∨ ∃ w sep rest, line = w ++ sep :: rest ∧ is_name sep = false ∧ c ∉ w ∧ c ≠ sep.

Lemma name_before_false c line : no_name_before c line → ∀ p, pos_of c line = Some p → forallb is_name (take p line) = false.
Proof.
  intros [Hc|(w & sep & rest & -> & Hsep & Hw & Hsp)] p Hp; [by rewrite pos_of_none in Hp|].
  apply position_Some in Hp as (x & Hx & ->%Z.eqb_eq & _).
  assert (length w < p)%nat as Hlt.
  { destruct (Nat.lt_trichotomy p (length w)) as [H|[->|H]]; [|rewrite list_lookup_middle in Hx by done; congruence|done].
    rewrite lookup_app_l in Hx by done. by apply list_elem_of_lookup_2 in Hx. }
  rewrite take_app_ge by lia. replace (p - length w)%nat with (S (p - length w - 1)) by lia. cbn [take].
  rewrite forallb_app. cbn [forallb]. by rewrite Hsep, andb_false_r.
Qed.

Lemma not_definition line : no_name_before 40 line → function_definition line = None.
Proof.
  intros Hn. unfold function_definition. destruct (pos_of 40 line) as [p|] eqn:Hp; [|done]. by rewrite (name_before_false 40 line Hn p Hp).
Qed.

Lemma not_assignment line : no_name_before 61 line → assignment line = None.
Proof.
  intros Hn. unfold assignment. destruct (pos_of 61 line) as [p|] eqn:Hp; [|done]. by rewrite (name_before_false 61 line Hn p Hp).
Qed.

Lemma no_name_cmdline c name args : c ∉ name → c ≠ SP → no_name_before c (cmdline name args).
Proof. intros Hc Hs. unfold cmdline. destruct (empty args); [by left|]. right. by exists name, SP, args. Qed.

Lemma windows_pos_none c needle h : c ∉ h → windows_pos (c :: needle) h = None.
Proof.
  induction h as [|x h IH]; intros Hc; [done|]. rewrite windows_pos_cons, IH by set_solver.
  assert (starts_with (c :: needle) (x :: h) = false) as ->; [|by destruct (_ <? _)%nat].
  unfold starts_with. apply bool_decide_false. cbn [length take]. intros [= -> _]. set_solver.
Qed.

Lemma cmdline_plain name args : plain name → plain args → plain (cmdline name args).
Proof.
  intros (? & ? & ? & ?) (? & ? & ? & ?). unfold cmdline. destruct (empty args); [done|].
  assert (∀ c, c ∉ name → c ∉ args → c ≠ SP → c ∉ name ++ SP :: args) as Hc by set_solver.
  split_and!; by apply Hc.
Qed.

Section run.
Context {K : Type} `{ShellOs K} (help_text : list Z).
Notation Sh := (@Sh K).
Implicit Types (s : Sh) (line : list Z).

(** ** Expansion *)

Lemma expand_other (self : list Z → sh bool) n c src dst : c ≠ 36 →
  expand_loop self (S n) (c :: src) dst = if (511 <=? length dst)%nat then mret dst else expand_loop self n src (dst ++ [c]).
Proof. intros Hc. destruct c as [|p|p]; [done| |done]. do 6 (destruct p as [p|p|]; try done). Qed.

(** A line without [$] stays as it is. *)
Lemma expand_app (self : list Z → sh bool) n pre : ∀ src dst, 36 ∉ pre → (length dst + length pre ≤ 511)%nat →
  expand_loop self (length pre + n) (pre ++ src) dst = expand_loop self n src (dst ++ pre).
Proof.
  induction pre as [|c pre IH]; intros src dst Hc Hl; [by rewrite app_nil_r|]. cbn [length app Nat.add] in *.
  rewrite expand_other by set_solver. rewrite (proj2 (Nat.leb_gt _ _)) by lia.
  rewrite IH; [by rewrite <- app_assoc|set_solver|rewrite length_app; simpl; lia].
Qed.

Lemma expand_nil (self : list Z → sh bool) n dst s : expand_loop self n [] dst s = Some (Ret (dst, s)).
Proof. destruct n; [done|]. cbn [expand_loop]. by destruct (511 <=? length dst)%nat. Qed.

Lemma expand_plain (self : list Z → sh bool) n src dst s : 36 ∉ src → (length dst + length src ≤ 511)%nat → (length src ≤ n)%nat →
  expand_loop self n src dst s = Some (Ret (dst ++ src, s)).
Proof.
  intros Hc Hl Hn. replace n with (length src + (n - length src))%nat by lia.
  pose proof (expand_app self (n - length src) src [] dst Hc Hl) as He. rewrite app_nil_r in He. rewrite He. apply expand_nil.
Qed.

(** A line that is neither a definition nor an assignment runs as it stands. *)
Lemma dispatch_expanded fuel line s : trimmed line → 36 ∉ line → (length line ≤ 511)%nat →
  no_name_before 40 line → no_name_before 61 line →
  dispatch_command help_text (S fuel) line s = run_expanded help_text (S fuel) (dispatch_command help_text fuel) line s.
Proof.
  intros Ht Hd Hl H40 H61. cbn [dispatch_command]. unfold dispatch_body. cbv zeta. rewrite trim_id by done.
  assert (empty line = false) as -> by (destruct line; [by destruct Ht as (? & ? & ? & _)|done]).
  rewrite not_definition, not_assignment by done. unfold mbind, sh_bind, var_expand. rewrite expand_plain by done || lia. cbn [app].
  by rewrite trim_id.
Qed.

Lemma bind_ret {A} (c : sh A) s : (c ≫= λ a, mret a) s = c s.
Proof. unfold mbind, sh_bind. by destruct (c s) as [[[]|]|]. Qed.

Lemma run_simple_plain fuel self line s : 62 ∉ line →
  run_simple help_text fuel self line s = run_builtin help_text fuel self (split_space line).1 (split_space line).2 s.
Proof.
  intros Hgt. unfold run_simple, output_redirection. change (bytes ">>") with [62; 62]. rewrite windows_pos_none, pos_of_none by done.
  unfold mbind at 1, sh_bind at 1. cbn [mret sh_ret fst snd Z.leb Z.compare when]. unfold mbind at 1, sh_bind at 1. cbn [mret sh_ret].
  destruct (split_space line) as [cmd args]. cbn [fst snd]. apply bind_ret.
Qed.

Section simple.
Context (name args : list Z).
Context (Hname : name ≠ []) (Hsp : SP ∉ name) (H40 : 40 ∉ name) (H61 : 61 ∉ name) (Hplain : plain name).
Context (Hkey : keyword (cmdline name args) = false).
Context (Hargs : args = [] ∨ trimmed args) (Hpa : plain args).

(** A plain command runs the built-in. *)
Lemma run_expanded_simple fuel self s :
  run_expanded help_text fuel self (cmdline name args) s = run_builtin help_text fuel self name args s.
Proof.
  destruct (cmdline_plain name args Hplain Hpa) as (H36 & H59 & H124 & H62).
  pose proof (cmdline_trimmed name args Hname Hsp Hargs) as Ht.
  unfold run_expanded. assert (empty (cmdline name args) = false) as -> by (destruct (cmdline name args); [by destruct Ht as (? & ? & ? & _)|done]).
  unfold keyword in Hkey. apply orb_false_iff in Hkey as [Hkey' ->]. apply orb_false_iff in Hkey' as [Hkey' ->].
  apply orb_false_iff in Hkey' as [-> ->]. rewrite !pos_of_none by done. rewrite run_simple_plain by done. by rewrite split_cmdline.
Qed.

Lemma dispatch_simple fuel s : (length (cmdline name args) ≤ 511)%nat →
  dispatch_command help_text (S fuel) (cmdline name args) s = run_builtin help_text (S fuel) (dispatch_command help_text fuel) name args s.
Proof.
  intros Hlen. destruct (cmdline_plain name args Hplain Hpa) as (H36 & _).
  rewrite dispatch_expanded; [apply run_expanded_simple|by apply cmdline_trimmed|done|done|by apply no_name_cmdline|by apply no_name_cmdline].
Qed.
End simple.
End run.

(** ** Filters as command lines *)

Inductive Filter :=
  | Cat | Wc | Sort | Uniq
  | Head (n : Z)
  | Grep (pat : list Z)
  | Tr (set1 set2 : list Z).

Definition filter_name (f : Filter) : list Z :=
  bytes match f with Cat => "cat" | Wc => "wc" | Sort => "sort" | Uniq => "uniq" | Head _ => "head" | Grep _ => "grep" | Tr _ _ => "tr" end.

Definition filter_args (f : Filter) : list Z :=
  match f with
  | Head n => bytes "-n " ++ u32_dec n
  | Grep pat => pat
  | Tr set1 set2 => set1 ++ SP :: set2
  | _ => []
  end.

Definition filter_ok (f : Filter) : Prop :=
  match f with
  | Head n => 0 < n < 2^32
  | Grep pat => word pat
  | Tr set1 set2 => word set1 ∧ word set2 ∧ set1 ≠ bytes "-d"
  | _ => True
  end.

(** What the filter makes of a text: lines are cut at 255 bytes by [grep] and
    [uniq], at 127 by [sort], which keeps 64 of them. *)
Definition filter_out (f : Filter) (bs : list Z) : list Z :=
  match f with
  | Cat => bs
  | Wc => wc_report [] bs
  | Sort => unlines (merge_sort lex_le (take 64 (take 127 <$> text_lines bs)))
  | Uniq => unlines (squeeze None (take 255 <$> text_lines bs))
  | Head n => first_lines (Z.to_nat n) bs
  | Grep pat => unlines (filter (contains pat) (take 255 <$> text_lines bs))
  | Tr set1 set2 => mjoin (tr_byte false set1 set2 <$> bs)
  end.

Lemma u32_dec_digits n : 0 ≤ n < 2^32 → Forall (λ c, is_digit c = true) (u32_dec n).
Proof.
  intros Hn. unfold u32_dec. case_bool; [by constructor|]. apply dec_loop_digits; [change (10 ^ Z.of_nat 10) with 10000000000; lia|constructor].
Qed.

Lemma digits_avoid c s : is_digit c = false → Forall (λ c, is_digit c = true) s → c ∉ s.
Proof. intros Hc Hs Hin. rewrite Forall_forall in Hs. apply Hs in Hin. congruence. Qed.

Lemma u32_dec_word n : 0 < n < 2^32 → word (u32_dec n).
Proof.
  intros Hn. pose proof (u32_dec_digits n ltac:(lia)) as Hd. split_and!; [|by eapply digits_avoid|].
  - intros He. pose proof (dec_roundtrip n ltac:(lia)) as Hr. rewrite He in Hr. injection Hr. lia.
  - split_and!; by eapply digits_avoid.
Qed.

Lemma plain_app a b : plain a → plain b → plain (a ++ b).
Proof. intros (? & ? & ? & ?) (? & ? & ? & ?). split_and!; set_solver. Qed.

Lemma plain_cons c b : c ≠ 36 → c ≠ 59 → c ≠ 124 → c ≠ 62 → plain b → plain (c :: b).
Proof. intros ? ? ? ? (? & ? & ? & ?). split_and!; set_solver. Qed.

Lemma plain_nil : plain [].
Proof. split_and!; apply not_elem_of_nil. Qed.

Lemma avoids c l : forallb (λ x, negb (x =? c)) l = true → c ∉ l.
Proof.
  intros Hl Hin. rewrite forallb_forall in Hl. apply list_elem_of_In, Hl in Hin. by rewrite Z.eqb_refl in Hin.
Qed.

Lemma filter_args_ok f : filter_ok f → (filter_args f = [] ∨ trimmed (filter_args f)) ∧ plain (filter_args f).
Proof.
  destruct f as [| | | |n|pat|set1 set2]; intros Hok; try (split; [by left|apply plain_nil]).
  - pose proof (u32_dec_word n Hok) as Hw. split; [right|].
    + apply (trimmed_app (bytes "-n") (u32_dec n)); [done|by apply avoids|by apply word_trimmed].
    + apply plain_app; [|apply Hw]. repeat (apply plain_cons; [done..|]). apply plain_nil.
  - split; [right; by apply word_trimmed|apply Hok].
  - destruct Hok as (H1 & H2 & _). split; [right|].
    + apply trimmed_app; [apply H1|apply H1|by apply word_trimmed].
    + apply plain_app; [apply H1|]. apply plain_cons; [done..|apply H2].
Qed.

(** The names are plain words and not keywords. *)
Lemma filter_name_ok f : let name := filter_name f in
  name ≠ [] ∧ SP ∉ name ∧ 40 ∉ name ∧ 61 ∉ name ∧ plain name ∧ keyword (cmdline name (filter_args f)) = false.
Proof.
  cbv zeta. split_and!; [by destruct f|..].
  1-3: apply avoids; by destruct f.
  - split_and!; apply avoids; by destruct f.
  - by destruct f as [| | | |n|[|? ?]|[|? ?] ?].
Qed.

Lemma not_delete set1 set2 : SP ∉ set1 → set1 ≠ bytes "-d" → starts_with (bytes "-d ") (set1 ++ SP :: set2) = false.
Proof.
  intros Hsp Hne. unfold starts_with. apply bool_decide_false. change (bytes "-d ") with [45; 100; 32]. change (bytes "-d") with [45; 100] in Hne.
  destruct set1 as [|a [|b [|c l]]]; cbn [length take app]; intros Heq; simplify_eq/=; [done..|]. apply Hsp. set_solver.
Qed.

(** ** Pipelines *)

Section pipeline.
Context {K : Type} `{TextFiles K} (help_text : list Z).
Notation Sh := (@Sh K).
Implicit Types (s : Sh).

Lemma bind_run {A B} (c : sh A) (f : A → sh B) s a s' : c s = Some (Ret (a, s')) → (c ≫= f) s = f a s'.
Proof. intros Hc. unfold mbind, sh_bind. by rewrite Hc. Qed.

Lemma sys_run {A} (f : K → outcome (A * K)) s a k : f (sh_os s) = Ret (a, k) → sys f s = Some (Ret (a, set_os k s)).
Proof. intros Hf. unfold sys. by rewrite Hf. Qed.

(** Output to a file. *)
Lemma write_redirected fd path w bs s : 0 ≤ fd < 2^31 → sh_out s = fd → writing fd path w (sh_os s) → 0 < len bs →
  len w + len bs ≤ MAX_TMP_SIZE → ∃ k, io_write_raw bs s = Some (Ret (tt, set_os k s)) ∧ writing fd path (w ++ bs) k.
Proof.
  intros Hfd Hout Hw Hb Hl. destruct (write_more fd path w bs _ Hw Hb Hl) as (r & k & Hrun & Hw'). exists k. split; [|done].
  unfold io_write_raw, mbind at 1, sh_bind at 1, gets. rewrite Hout, (proj1 (fd_redirected fd Hfd)). cbn [negb].
  by rewrite (bind_run _ _ _ r (set_os k s)) by (by apply sys_run).
Qed.

Lemma echo_redirected fd path w text s : 0 ≤ fd < 2^31 → sh_out s = fd → writing fd path w (sh_os s) → 0 < len text →
  len w + len text + 1 ≤ MAX_TMP_SIZE →
  ∃ k, cmd_echo text s = Some (Ret (tt, set_os k s)) ∧ writing fd path (w ++ text ++ [NL]) k.
Proof.
  intros Hfd Hout Hw Ht Hl. destruct (write_redirected fd path w text s) as (k1 & H1 & Hw1); [done..|lia|].
  destruct (write_redirected fd path (w ++ text) [NL] (set_os k1 s)) as (k2 & H2 & Hw2); [done..| |].
  { unfold len in *. rewrite length_app. cbn [length]. lia. }
  exists k2. rewrite (assoc_L (++)). split; [|done]. unfold cmd_echo. rewrite (bind_run _ _ _ _ _ H1). exact H2.
Qed.

(** A filter as a command line. *)
Lemma filter_runs f fuel w : filter_ok f → (length (cmdline (filter_name f) (filter_args f)) ≤ 511)%nat → (length w < S fuel)%nat → len w < 2^32 →
  ∀ fd path s, 0 ≤ fd < 2^31 → sh_in s = fd → sh_out s = NO_REDIR → reading fd path w (sh_os s) →
  ∃ k' w', dispatch_command help_text (S fuel) (cmdline (filter_name f) (filter_args f)) s =
      Some (Ret (true, tell (filter_out f w) (set_os k' s))) ∧ reading fd path w' k'.
Proof.
  intros Hok Hlen Hfuel Hw fd path s Hfd Hin Hout Hr. destruct (filter_args_ok f Hok) as [Hargs Hpa].
  destruct (filter_name_ok f) as (Hne & Hsp & H40 & H61 & Hpl & Hkey).
  rewrite dispatch_simple by done. unfold run_builtin, redirected. unfold mbind at 1, sh_bind at 1. unfold mbind at 1, sh_bind at 1, gets.
  rewrite Hin, (proj1 (fd_redirected fd Hfd)). cbn [mret sh_ret negb].
  assert (∀ c : sh unit, filters w c (filter_out f w) → ∃ k' w', (c ≫= λ _, mret true) s =
    Some (Ret (true, tell (filter_out f w) (set_os k' s))) ∧ reading fd path w' k') as Hgo.
  { intros c Hc. destruct (Hc fd path s Hfd Hin Hout Hr) as (k' & w' & Hrun & Hr'). exists k', w'. split; [|done].
    by rewrite (bind_run _ _ _ _ _ Hrun). }
  destruct f as [| | | |n|pat|set1 set2]; cbn [filter_out filter_ok] in *.
  - exact (Hgo _ (cat_filters (S fuel) w Hfuel [] ltac:(by left))).
  - exact (Hgo _ (wc_filters (S fuel) w Hfuel [] ltac:(by left) Hw)).
  - exact (Hgo _ (sort_filters (S fuel) w Hfuel (bytes "-") ltac:(by right))).
  - exact (Hgo _ (uniq_filters (S fuel) w Hfuel (bytes "-") ltac:(by right))).
  - assert (head_args (bytes "-n " ++ u32_dec n) = (n, [])) as Hh.
    { unfold head_args. rewrite starts_with_app, drop_app_length' by done. rewrite trim_id by (by apply word_trimmed, u32_dec_word).
      rewrite dec_roundtrip by lia. by rewrite (proj2 (Z.eqb_neq n 0)) by lia. }
    pose proof (Hgo _ (head_filters (S fuel) w Hfuel [] n ltac:(by left) ltac:(lia))) as Hd.
    cbn [filter_name filter_args]. change (bytes "head") with [104; 101; 97; 100].
    rewrite Hh. exact Hd.
  - exact (Hgo _ (grep_filters (S fuel) w Hfuel pat (proj1 Hok) (proj1 (proj2 Hok)))).
  - destruct Hok as (H1 & H2 & Hd). apply (Hgo _ (tr_filters (S fuel) w Hfuel set1 set2 (proj1 H1) (proj1 (proj2 H1)) (word_trimmed _ H2) (not_delete set1 set2 (proj1 (proj2 H1)) Hd))).
Qed.

(** The line of the pipeline is a pipe of its two commands. *)
Lemma dispatch_pipe fuel left right name rest s : left = name ++ SP :: rest → trimmed left → trimmed right → plain left → plain right →
  40 ∉ name → 61 ∉ name → keyword (left ++ bytes " | " ++ right) = false → (length (left ++ bytes " | " ++ right) ≤ 511)%nat →
  dispatch_command help_text (S fuel) (left ++ bytes " | " ++ right) s =
  (run_pipe (dispatch_command help_text fuel) left right ≫= λ _, mret true) s.
Proof.
  intros Hleft Htl Htr Hpl Hpr H40 H61 Hkey Hlen. change (bytes " | ") with [32; 124; 32] in *.
  destruct Hpl as (Hl36 & Hl59 & Hl124 & Hl62), Hpr as (Hr36 & Hr59 & Hr124 & Hr62).
  assert (∀ c, c ∉ left → c ∉ right → c ≠ 32 → c ≠ 124 → c ∉ left ++ [32; 124; 32] ++ right) as Hc by set_solver.
  assert (trimmed (left ++ [32; 124; 32] ++ right)) as Ht.
  { destruct Htl as (a & _ & Ha & _ & Hna & _), Htr as (_ & b & _ & Hb & _ & Hnb). exists a, b.
    split_and!; [by rewrite lookup_app_l by (by eapply lookup_lt_Some)| |done|done].
    rewrite (assoc_L (++)). destruct right; [done|]. by rewrite last_app_cons. }
  assert (∀ c, c ∉ name → c ≠ SP → no_name_before c (left ++ [32; 124; 32] ++ right)) as Hn.
  { intros c Hcn Hcs. right. exists name, SP, (rest ++ [32; 124; 32] ++ right). rewrite Hleft, <- app_assoc. done. }
  rewrite dispatch_expanded; [|done|by apply Hc|done|by apply Hn|by apply Hn]. unfold run_expanded.
  assert (empty (left ++ [32; 124; 32] ++ right) = false) as -> by (destruct left; [by destruct Htl as (? & ? & ? & _)|done]).
  unfold keyword in Hkey. apply orb_false_iff in Hkey as [Hkey' ->]. apply orb_false_iff in Hkey' as [Hkey' ->].
  apply orb_false_iff in Hkey' as [-> ->]. rewrite (pos_of_none 59) by (by apply Hc).
  assert (pos_of 124 (left ++ [32; 124; 32] ++ right) = Some (length (left ++ [32]))) as ->.
  { replace (left ++ [32; 124; 32] ++ right) with ((left ++ [32]) ++ 124 :: 32 :: right) by (by rewrite <- app_assoc). apply pos_of_app. set_solver. }
  replace (left ++ [32; 124; 32] ++ right) with ((left ++ [32]) ++ 124 :: 32 :: right) by (by rewrite <- app_assoc).
  rewrite take_app_length, <- drop_drop, drop_app_length. cbn [drop]. cbv zeta.
  pose proof (trim_spec 0 left 1 Htl) as Ha. pose proof (trim_spec 1 right 0 Htr) as Hb. cbn [replicate app] in Ha, Hb. rewrite app_nil_r in Hb.
  change SP with 32 in Ha, Hb. rewrite Ha, Hb.
  assert (empty left = false) as -> by (destruct left; [by destruct Htl as (? & ? & ? & _)|done]).
  by assert (empty right = false) as -> by (destruct right; [by destruct Htr as (? & ? & ? & _)|done]).
Qed.

(** A command whose output, when it goes to a file, is [out]. *)
Definition outputs (c : sh bool) (out : list Z) : Prop :=
  ∀ fd path w s, 0 ≤ fd < 2^31 → sh_out s = fd → writing fd path w (sh_os s) → len w + len out ≤ MAX_TMP_SIZE →
  ∃ b k, c s = Some (Ret (b, set_os k s)) ∧ writing fd path (w ++ out) k.

(** The right command reads what the left one has written. *)
Lemma pipe_runs (self : list Z → sh bool) left right out res s : sh_out s = NO_REDIR → sh_in s = NO_REDIR →
  ready (bytes "/tmp/.pipebuf") (sh_os s) → len out ≤ MAX_TMP_SIZE → outputs (self left) out →
  (∀ fd path s, 0 ≤ fd < 2^31 → sh_in s = fd → sh_out s = NO_REDIR → reading fd path out (sh_os s) →
     ∃ k' w', self right s = Some (Ret (true, tell res (set_os k' s))) ∧ reading fd path w' k') →
  ∃ k, run_pipe self left right s = Some (Ret (tt, tell res (set_os k s))) ∧ ready (bytes "/tmp/.pipebuf") k.
Proof.
  intros Hout Hin Hready Hlen Hl Hr. destruct (open_write _ _ Hready) as (wfd & k1 & Ho & Hw & Hwr).
  destruct (Hl wfd _ [] (set_out wfd (set_os k1 s)) Hw eq_refl Hwr Hlen) as (b & k2 & Hrun & Hwr2). cbn [app] in Hwr2.
  destruct (close_written _ _ _ _ Hwr2) as (k3 & Hc & Hh). destruct (open_read _ _ _ Hh) as (rfd & k4 & Ho2 & Hrf & Hrd).
  destruct (Hr rfd _ (set_in rfd (set_os k4 s)) Hrf eq_refl Hout Hrd) as (k5 & w' & Hrun2 & Hrd2).
  destruct (close_read _ _ _ _ Hrd2) as (k6 & Hc2 & Hre). exists k6. split; [|done].
  unfold run_pipe. rewrite (bind_run _ _ _ _ _ (sys_run _ _ _ _ Ho)), (proj2 (Z.leb_le 0 wfd)) by lia.
  rewrite (bind_run _ _ _ tt (set_out wfd (set_os k1 s))) by done. rewrite (bind_run _ _ _ _ _ Hrun).
  rewrite (bind_run _ _ _ tt (set_os k2 s)) by (unfold modify, set_out, set_os; simpl; rewrite <- Hout; done).
  rewrite (bind_run _ _ _ tt (set_os k3 s)) by (by apply (sys_run _ (set_os k2 s))).
  rewrite (bind_run _ _ _ rfd (set_os k4 s)) by (by apply (sys_run _ (set_os k3 s))).
  rewrite (proj2 (Z.leb_le 0 rfd)) by lia. cbn [when].
  rewrite (bind_run _ _ _ tt (set_in rfd (set_os k4 s))) by done. rewrite (bind_run _ _ _ _ _ Hrun2).
  rewrite (bind_run _ _ _ tt (tell res (set_os k5 s))) by (unfold modify, set_in, set_os, tell, set_term; simpl; rewrite <- Hin; done).
  by rewrite (sys_run _ (tell res (set_os k5 s)) tt k6).
Qed.

Lemma echo_outputs fuel text : trimmed text → plain text → (5 + length text ≤ 511)%nat →
  outputs (dispatch_command help_text (S fuel) (cmdline (bytes "echo") text)) (text ++ [NL]).
Proof.
  intros Ht Hp Hlen fd path w s Hfd Hout Hw Hl. unfold len in Hl. rewrite length_app in Hl. cbn [length] in Hl.
  assert (0 < len text) as Hpos by (destruct Ht as (a & _ & Ha & _); apply lookup_lt_Some in Ha; unfold len; lia).
  assert (cmdline (bytes "echo") text = bytes "echo" ++ SP :: text) as Hcl by (unfold cmdline; destruct text; [by vm_compute in Hpos|done]).
  rewrite dispatch_simple; [|done|by apply avoids..| |by rewrite Hcl|by right|done|by rewrite Hcl].
  2:{ split_and!; by apply avoids. }
  destruct (echo_redirected fd path w text s) as (k & Hrun & Hw'); [done..|unfold len in *; lia|]. exists true, k. split; [|done].
  unfold run_builtin, redirected. unfold mbind at 1, sh_bind at 1. unfold mbind at 1, sh_bind at 1, gets. cbn [mret sh_ret].
  change ((cmd_echo text ≫= λ _, mret true) s = Some (Ret (true, set_os k s))). by rewrite (bind_run _ _ _ _ _ Hrun).
Qed.

(** [echo TEXT | FILTER] *)
Lemma echo_pipe f text fuel s : filter_ok f → trimmed text → plain text →
  let line := cmdline (bytes "echo") text ++ bytes " | " ++ cmdline (filter_name f) (filter_args f) in
  (length line ≤ 511)%nat → (length text + 1 ≤ fuel)%nat → sh_out s = NO_REDIR → sh_in s = NO_REDIR →
  ready (bytes "/tmp/.pipebuf") (sh_os s) →
  ∃ k, dispatch_command help_text (S (S fuel)) line s = Some (Ret (true, tell (filter_out f (text ++ [NL])) (set_os k s))) ∧
    ready (bytes "/tmp/.pipebuf") k.
Proof.
  intros Hok Ht Hp line Hlen Hfuel Hout Hin Hready. destruct (filter_args_ok f Hok) as [Hargs Hpa].
  destruct (filter_name_ok f) as (Hne & Hsp & H40 & H61 & Hpl & Hkey).
  assert (cmdline (bytes "echo") text = bytes "echo" ++ SP :: text) as Hcl
    by (unfold cmdline; destruct text; [by destruct Ht as (? & ? & ? & _)|done]).
  assert (length line = (5 + length text + 3 + length (cmdline (filter_name f) (filter_args f)))%nat) as Hll.
  { unfold line. rewrite Hcl, !length_app. cbn [length]. change (length (bytes "echo")) with 4%nat. change (length (bytes " | ")) with 3%nat. lia. }
  destruct (pipe_runs (dispatch_command help_text (S fuel)) (cmdline (bytes "echo") text) (cmdline (filter_name f) (filter_args f))
    (text ++ [NL]) (filter_out f (text ++ [NL])) s) as (k & Hrun & Hre); [done..| | | |].
  - unfold len, MAX_TMP_SIZE. rewrite length_app. cbn [length]. lia.
  - apply echo_outputs; [done|done|lia].
  - intros fd path s' Hfd Hin' Hout' Hr'. apply filter_runs with (fd := fd); try done; [lia| |].
    + rewrite length_app. cbn [length]. lia.
    + unfold len. rewrite length_app. cbn [length]. lia.
  - exists k. split; [|done]. unfold line. rewrite (dispatch_pipe _ _ _ (bytes "echo") text); [by rewrite (bind_run _ _ _ _ _ Hrun)|done| | | | | | | |done].
    + rewrite Hcl. by apply trimmed_app; [|apply avoids|].
    + by apply cmdline_trimmed.
    + rewrite Hcl. apply plain_app; [split_and!; by apply avoids|]. by apply plain_cons.
    + by apply cmdline_plain.
    + by apply avoids.
    + by apply avoids.
    + by rewrite Hcl.
Qed.
End pipeline.
