(* ===== verification/InitVfs.v ===== *)
(** * The files of the shell

    The VFS server keeps the promises of [TextFiles] for files under /tmp, so the
    theorems on the shell's commands hold in the kernel. *)

From Stdlib Require Import ZArith Lia Ascii String.
From stdpp Require Import base list option numbers strings sorting sets.
From S2P Require Import Prelude Words ProcServer Net Memory IpcPort Cpio VfsData Vfs VfsInv VfsPipe VfsSpec Task Sched SysMem SysOs SysFileSpec InitText InitShell InitShellSpec InitRun.

Local Open Scope Z_scope.

(** ** Requests *)

Lemma vfs_call_open ptr flags k : 0 ≤ ptr < 2^64 → 0 ≤ flags < 2^32 →
  vfs_call VFS_OPEN [ptr; flags; 0] k =
    match handle_open (current_pid (kn_sched k)) ptr flags (vfs_now k) with
    | Ret (m, v) => Ret (vfs_reply_val m, with_vfs v k) | Panic => Panic end.
Proof.
  intros Hp Hf. unfold vfs_call, Vfs.handle. cbv zeta.
  rewrite (arg_make_vfs_msg VFS_OPEN _ 0 ptr), (arg_make_vfs_msg VFS_OPEN _ 1 flags) by first [reflexivity|lia].
  cbn [tag make_vfs_msg]. fold (vfs_now k). unfold u32. by rewrite ?(Z.mod_small flags) by lia.
Qed.

Lemma vfs_call_close fd k : 0 ≤ fd < 2^64 →
  vfs_call VFS_CLOSE [fd] k =
    match handle_close (current_pid (kn_sched k)) fd (vfs_now k) with
    | Ret (m, v) => Ret (vfs_reply_val m, with_vfs v k) | Panic => Panic end.
Proof.
  intros Hp. unfold vfs_call, Vfs.handle. cbv zeta. rewrite (arg_make_vfs_msg VFS_CLOSE _ 0 fd) by first [reflexivity|lia]. done.
Qed.

(** ** Paths *)

(** A name under /tmp that a file can have. *)
Definition tmp_name (path : list Z) : Prop :=
  0 ∉ path ∧ (length path < 64)%nat ∧ ∃ a rest c, path = bytes "/tmp/" ++ a :: rest ∧ last (a :: rest) = Some c ∧ c ≠ 47.

Lemma tmp_name_opens path pid flags v : tmp_name path → open_kind pid (normalize path) flags v = open_tmp path flags v.
Proof.
  intros (_ & _ & a & rest & c & -> & Hl & Hc).
  assert (normalize (bytes "/tmp/" ++ a :: rest) = bytes "/tmp/" ++ a :: rest) as ->; [|done].
  unfold normalize. change (bytes_eq (bytes "/tmp/" ++ a :: rest) (bytes ".")) with false. cbv iota.
  assert (Cpio.ends_with (bytes "/") (bytes "/tmp/" ++ a :: rest) = false) as ->; [|by rewrite andb_false_r].
  apply last_Some in Hl as [l ->]. unfold Cpio.ends_with. rewrite (assoc_L (++)), length_app. cbn [length].
  replace (length (bytes "/tmp/" ++ l) + 1 - length (bytes "/"))%nat with (length (bytes "/tmp/" ++ l)) by (change (length (bytes "/")) with 1%nat; lia).
  rewrite drop_app_length. apply andb_false_iff. right. apply bool_decide_false. by intros [= ->].
Qed.

(** What the shell puts in its buffer. *)
Definition path_store (path : list Z) : list Z :=
  <[default (Nat.min (length path) 255) (pos_of 0 (take (Nat.min (length path) 255) path)) := 0]> (path_bytes path).

(** The path in the shell's buffer is what the server reads. *)
Lemma path_stored P path m : tmp_name path →
  cstr_loop (mem_write P (path_store path) m) 256 P = Some path.
Proof.
  intros (H0 & Hlen & _). unfold path_store. rewrite Nat.min_l by lia. rewrite firstn_all. rewrite pos_of_none by done. cbn [default].
  assert (<[length path := 0]> (path_bytes path) = (path ++ [0]) ++ replicate (255 - length path) 0) as ->.
  { unfold path_bytes. rewrite (take_ge path) by lia. replace (256 - length path)%nat with (S (255 - length path)) by lia.
    rewrite insert_app_r_alt, Nat.sub_diag by lia. by rewrite <- app_assoc. }
  apply cstr_loop_read; [done|lia|].
  pose proof (mem_read_write P ((path ++ [0]) ++ replicate (255 - length path) 0) m) as Hr.
  rewrite length_app, Nat2Z.inj_add, mem_read_app in Hr by lia.
  apply app_inj_1 in Hr as [Hr _]; [|rewrite length_mem_read; lia]. rewrite length_app, Nat2Z.inj_add in Hr. exact Hr.
Qed.

(** ** Descriptors and files *)

(** The process has a table with a free descriptor. *)
Definition spare (pid : Z) (v : Vfs) : Prop :=
  ∃ t tbl fd, find_tbl pid (v_tables v) = Some t ∧ v_tables v !! t = Some tbl ∧ alloc_fd tbl = Some fd.

(** The file with this path. *)
Definition file_at (path : list Z) (idx : nat) (entry : TmpFileEntry) (v : Vfs) : Prop :=
  position (tmp_file_named path) (v_tmp v) = Some idx ∧ v_tmp v !! idx = Some entry.

Lemma install_spec pid e a b v : vfs_wf v → spare pid v → fd_in_use e = true →
  ∃ t fd, install pid e a b v = (Ok fd, set_entry t fd e v) ∧ (fd < 64)%nat ∧
    open_fd pid (Z.of_nat fd) (set_entry t fd e v) = Some (t, e).
Proof.
  intros Hwf (t & tbl & fd & Hf & Ht & Ha) Hu. exists t, fd. assert (fd < 64)%nat as Hfd.
  { apply position_lt in Ha. pose proof (vw_tables v Hwf) as Htb. rewrite Forall_lookup in Htb. destruct (Htb _ _ Ht) as [Hl _].
    rewrite Hl in Ha. exact Ha. }
  split_and!; [|done|].
  - unfold install, get_or_create. unfold find_tbl in Hf. rewrite Hf. rewrite Ht. cbn [mbind option_bind]. rewrite Ha. by destruct v.
  - apply open_fd_spec. rewrite find_tbl_set_entry. split_and!; [done|unfold MAX_FDS; lia|done|].
    unfold set_entry. cbn [v_tables set_tables]. rewrite list_lookup_alter_eq, Ht. eexists. split; [done|]. cbn [p_fds].
    rewrite Nat2Z.id, list_lookup_insert_eq; [done|]. by apply position_lt in Ha.
Qed.

Lemma new_tmp_named path : tmp_name path → tmp_file_named path (new_tmp path false) = true.
Proof.
  intros (_ & Hl & _). unfold tmp_file_named, tmp_named, new_tmp. cbn [t_in_use t_is_dir t_path_len t_path negb andb].
  assert (Z.min (len path) (MAX_TMP_PATH - 1) = len path) as -> by (unfold len, MAX_TMP_PATH; lia).
  rewrite Z.eqb_refl. cbn [andb]. apply bool_decide_true. unfold splice, len. rewrite Nat2Z.id, firstn_all. change (Z.to_nat 0) with 0%nat.
  rewrite take_0. cbn [app]. apply take_app_length.
Qed.

(** Opening for writing: the file is there and empty. *)
Lemma open_tmp_write path v : vfs_wf v → tmp_name path →
  is_Some (position (tmp_file_named path) (v_tmp v)) ∨ is_Some (position tmp_free (v_tmp v)) →
  ∃ idx entry v', open_tmp path InitShell.O_WRITE v = (Ok (TmpFile idx 0 true), v') ∧ vfs_wf v' ∧ (idx < MAX_TMP_FILES)%nat ∧
    file_at path idx entry v' ∧ t_len entry = 0 ∧ v_tables v' = v_tables v ∧ v_mem v' = v_mem v.
Proof.
  intros Hwf Hname Hex. unfold open_tmp. cbv zeta.
  change (flag InitShell.O_WRITE O_TRUNC) with true. cbv iota. destruct (position (tmp_file_named path) (v_tmp v)) as [idx|] eqn:Hp.
  - destruct (lookup_lt_is_Some_2 (v_tmp v) idx) as [e He]; [by eapply position_lt|].
    exists idx, (set_len 0 e). eexists. split; [done|]. split_and!; [| |split|done|done|done].
    + apply alter_tmp_wf; [done|]. intros x Hx. destruct Hx. split; cbn; [done..|unfold MAX_TMP_SIZE; lia].
    + rewrite <- (vw_tmp_len v Hwf). by eapply position_lt.
    + cbn [v_tmp set_tmp]. rewrite position_alter; [done|by intros []].
    + cbn [v_tmp set_tmp]. by rewrite list_lookup_alter_eq, He.
  - destruct Hex as [[? ?]|[idx Hidx]]; [done|]. rewrite Hidx. pose proof (position_lt _ _ _ Hidx) as Hlt.
    exists idx, (new_tmp path false). eexists. split; [done|]. split_and!; [| |split|done|done|done].
    + apply insert_tmp_wf; [done|apply new_tmp_ok].
    + by rewrite <- (vw_tmp_len v Hwf).
    + cbn [v_tmp set_tmp]. eapply position_insert_free; [exact Hidx| |by apply new_tmp_named|].
      * intros y Hy. unfold tmp_free in Hy. unfold tmp_file_named. by destruct (t_in_use y).
      * intros y [i Hy]%list_elem_of_lookup_1. rewrite position_None in Hp. by eapply Hp.
    + cbn [v_tmp set_tmp]. by apply list_lookup_insert_eq.
Qed.

(** Opening for reading. *)
Lemma open_tmp_read path idx entry v : file_at path idx entry v → open_tmp path 0 v = (Ok (TmpFile idx 0 false), v).
Proof. intros [Hp _]. unfold open_tmp. rewrite Hp. cbn. by destruct v. Qed.

(** The descriptor [fd] of the shell is on the file, at [pos]. *)
Record on_file (fd : Z) (path : list Z) (pos : Z) (wr : bool) (entry : TmpFileEntry) (t : nat) (e : FdEntry) (idx : nat) (s : Os) : Prop := {
  of_name : tmp_name path;
  of_wf : vfs_wf (kn_vfs (os_k s));
  of_fd : 0 ≤ fd < 64;
  of_open : open_fd (os_pid s) fd (kn_vfs (os_k s)) = Some (t, e);
  of_kind : fd_kind e = TmpFile idx pos wr;
  of_flags : flag (fd_flags e) O_APPEND = false;
  of_file : file_at path idx entry (kn_vfs (os_k s));
  of_pos : 0 ≤ pos ≤ t_len entry
}.

(** A file under this path can be opened by the shell. *)
Record can_open (path : list Z) (s : Os) : Prop := {
  co_name : tmp_name path;
  co_wf : vfs_wf (kn_vfs (os_k s));
  co_spare : spare (os_pid s) (kn_vfs (os_k s))
}.

(** A change of the contents keeps the place of the file. *)
Lemma position_holds_insert path l idx entry entry' : position (tmp_file_named path) l = Some idx → l !! idx = Some entry →
  tmp_file_named path entry' = tmp_file_named path entry → position (tmp_file_named path) (<[idx := entry']> l) = Some idx.
Proof.
  intros Hp He Hn. rewrite <- Hp. apply position_ext. apply Forall2_same_length_lookup. split; [by rewrite length_insert|].
  intros i x y Hx Hy. apply list_lookup_insert_Some in Hx as [(-> & -> & _)|[_ Hx]]; congruence.
Qed.

Section instance.
Context (P P2 B : Z) (others : Os → Os) (HP : 0 < P < 2^64) (HB : 0 ≤ B < 2^64).

(** ** open *)

(** The request after the path has been stored, for an opening that succeeds. *)
Lemma vfs_open_run path flags s v' idx wr : can_open path s → 0 ≤ flags < 2^32 →
  let v := poke (mem_write P (path_store path)) (kn_vfs (os_k s)) in
  open_tmp path flags (vfs_now (with_vfs v (os_k s))) = (Ok (TmpFile idx 0 wr), v') → vfs_wf v' → v_tables v' = v_tables v →
  ∃ t fd, vfs_open P path flags s = Ret (Z.of_nat fd, set_k (with_vfs (set_entry t fd (mkFd (TmpFile idx 0 wr) flags true) v') (os_k s)) s) ∧
    (fd < 64)%nat ∧ open_fd (os_pid s) (Z.of_nat fd) (set_entry t fd (mkFd (TmpFile idx 0 wr) flags true) v') = Some (t, mkFd (TmpFile idx 0 wr) flags true).
Proof.
  intros [Hname Hwf Hsp] Hf v Hopen Hwf' Htb.
  destruct (install_spec (os_pid s) (mkFd (TmpFile idx 0 wr) flags true) (-12) (-24) v' Hwf') as (t & fd & Hi & Hfd & Ho); [|done|].
  { destruct Hsp as (t & tbl & fd & ?). exists t, tbl, fd. by rewrite Htb. }
  exists t, fd. split; [|done]. unfold vfs_open. cbv zeta. unfold mbind at 1, st_bind at 1. unfold store, write_mem, st_modify.
  set (s1 := put_mem _ s). unfold mbind, st_bind.
  assert (vfs_req VFS_OPEN [P; flags; 0] s1 = Ret (Z.of_nat fd, set_k (with_vfs (set_entry t fd (mkFd (TmpFile idx 0 wr) flags true) v') (os_k s)) s)) as ->.
  { change (set_k (with_vfs ?x (os_k s)) s) with (set_k (with_vfs x (os_k s1)) s1). apply vfs_req_run. rewrite vfs_call_open by lia.
    unfold handle_open, read_cstr_raw. rewrite (proj2 (Z.eqb_neq P 0)) by lia. change (v_mem (vfs_now (os_k s1))) with (mem_write P (path_store path) (os_mem s)). rewrite path_stored by done.
    rewrite tmp_name_opens by done. change (vfs_now (os_k s1)) with (vfs_now (with_vfs v (os_k s))). rewrite Hopen.
    change (current_pid (kn_sched (os_k s1))) with (os_pid s). rewrite Hi. by rewrite vfs_reply_small by lia. }
  cbn [mret st_ret]. by rewrite (proj2 (fd_redirected (Z.of_nat fd) ltac:(lia))).
Qed.

Definition f_ready (path : list Z) (s : Os) : Prop :=
  can_open path s ∧ (is_Some (position (tmp_file_named path) (v_tmp (kn_vfs (os_k s)))) ∨ is_Some (position tmp_free (v_tmp (kn_vfs (os_k s))))).

Definition f_holds (path w : list Z) (s : Os) : Prop :=
  can_open path s ∧ ∃ idx entry, file_at path idx entry (kn_vfs (os_k s)) ∧ t_len entry = len w ∧ take (length w) (t_data entry) = w.

Definition f_writing (fd : Z) (path w : list Z) (s : Os) : Prop :=
  ∃ entry t e idx, on_file fd path (len w) true entry t e idx s ∧ t_len entry = len w ∧ take (length w) (t_data entry) = w.

Definition f_reading (fd : Z) (path w : list Z) (s : Os) : Prop :=
  ∃ entry pos t e idx, on_file fd path pos false entry t e idx s ∧ w = slice (t_data entry) pos (t_len entry).

Lemma f_open_write path s : f_ready path s → ∃ fd s', vfs_open P path InitShell.O_WRITE s = Ret (fd, s') ∧ 0 ≤ fd < 2^31 ∧ f_writing fd path [] s'.
Proof.
  intros [Hco Hex]. set (v := poke (mem_write P (path_store path)) (kn_vfs (os_k s))).
  destruct (open_tmp_write path (vfs_now (with_vfs v (os_k s)))) as (idx & entry & v' & Ho & Hwf & Hi & Hfa & Hl & Ht & _);
    [apply vfs_now_wf, poke_wf, Hco|apply Hco|done|].
  destruct (vfs_open_run path InitShell.O_WRITE s v' idx true Hco ltac:(done) Ho Hwf Ht) as (t & fd & Hrun & Hfd & Hof).
  eexists _, _. split; [exact Hrun|]. split; [lia|]. eexists entry, t, _, idx. split; [|done].
  split; [apply Hco|by apply set_entry_wf|lia|exact Hof|done|done|exact Hfa|]. rewrite Hl. unfold len. simpl. lia.
Qed.

Lemma f_open_read path w s : f_holds path w s → ∃ fd s', vfs_open P path 0 s = Ret (fd, s') ∧ 0 ≤ fd < 2^31 ∧ f_reading fd path w s'.
Proof.
  intros (Hco & idx & entry & Hfa & Hl & Hd). set (v := poke (mem_write P (path_store path)) (kn_vfs (os_k s))).
  assert (vfs_wf v) as Hwf by apply poke_wf, Hco.
  assert (vfs_wf (vfs_now (with_vfs v (os_k s)))) as Hwf' by (by apply (vfs_now_wf (with_vfs v (os_k s)))).
  destruct (vfs_open_run path 0 s (vfs_now (with_vfs v (os_k s))) idx false Hco ltac:(done) (open_tmp_read path idx entry (vfs_now (with_vfs v (os_k s))) Hfa) Hwf' eq_refl) as (t & fd & Hrun & Hfd & Hof).
  eexists _, _. split; [exact Hrun|]. split; [lia|]. eexists entry, 0, t, _, idx. split.
  - pose proof (proj2 (Hfa : file_at path idx entry v)) as Hidx. pose proof (lookup_lt_Some _ _ _ Hidx) as Hlt. rewrite (vw_tmp_len _ Hwf) in Hlt.
    split; [apply Hco|by apply set_entry_wf|lia|exact Hof|done|done|exact Hfa|]. rewrite Hl. unfold len. lia.
  - unfold slice. rewrite Hl, Z.sub_0_r. cbn [Z.to_nat drop]. unfold len. by rewrite Nat2Z.id.
Qed.

(** ** write, read and close *)

Lemma f_write fd path w bs s : f_writing fd path w s → 0 < len bs → len w + len bs ≤ MAX_TMP_SIZE →
  ∃ r s', vfs_write B fd bs s = Ret (r, s') ∧ f_writing fd path (w ++ bs) s'.
Proof.
  intros (entry & t & e & idx & [Hn Hwf Hfd Ho Hk Hfl [Hp He] Hpos] & Hl & Hd) Hb Hroom.
  set (s1 := put_mem (mem_write B bs (os_mem s)) s).
  assert (tmp_fd (os_k s1) fd t e idx (len w) entry) as Htf.
  { split; [by apply poke_wf|lia|exact Ho|done|done|exact He|]. unfold MAX_TMP_SIZE in *. lia. }
  pose proof (tmp_fd_entry_ok _ _ _ _ _ _ _ Htf) as Hok.
  pose proof (call_write _ _ _ _ _ _ _ Htf B (len bs) HB Hb Hroom) as Hrun.
  assert (mem_read (v_mem (kn_vfs (os_k s1))) B (len bs) = bs) as Hm by apply mem_read_write. rewrite Hm in Hrun.
  set (entry' := VfsSpec.written (len w) entry bs) in *.
  assert (tmp_ok entry') as Hok' by (apply written_ok; [done|lia|done]).
  pose proof (tmp_fd_rewritten _ _ _ _ _ _ _ (len w + len bs) entry' Htf ltac:(unfold MAX_TMP_SIZE in *; lia) Hok') as [Hwf2 _ Ho2 Hk2 _ He2 _].
  set (k2 := rewritten _ _ _ _ _ _ _) in *.
  exists (len bs), (set_k k2 s1). split.
  { unfold vfs_write. unfold mbind at 1, st_bind at 1. unfold store, write_mem, st_modify. fold s1.
    rewrite (u64_small fd) by lia. by apply vfs_req_run. }
  assert (len (w ++ bs) = len w + len bs) as Hlen by (unfold len; rewrite length_app; lia).
  exists entry', t, (set_kind (TmpFile idx (len w + len bs) true) e), idx. rewrite Hlen. split_and!.
  - split; [done|exact Hwf2|done|exact Ho2|done|done| |].
    + split; [|exact He2]. unfold k2, rewritten. cbn [kn_vfs os_k set_k with_vfs]. apply position_holds_insert with entry; [exact Hp|exact He|done].
    + unfold entry', VfsSpec.written. cbn [t_len set_data]. lia.
  - unfold entry', VfsSpec.written. cbn [t_len set_data]. lia.
  - unfold entry', VfsSpec.written. cbn [t_data set_data]. unfold splice, len. rewrite Nat2Z.id, (assoc_L (++)), Hd.
    apply take_app_length.
Qed.

(** A read of any length at any position, through a descriptor of either mode. *)
Lemma read_any pid fd v t e idx pos wr entry n : open_fd pid fd v = Some (t, e) → fd_kind e = TmpFile idx pos wr →
  v_tmp v !! idx = Some entry → tmp_ok entry → 0 ≤ pos ≤ t_len entry → 0 < n →
  let m := Z.min n (t_len entry - pos) in
  handle_read pid fd B n v =
    Ret (val_reply m, if m =? 0 then v else put_kind t fd e (TmpFile idx (pos + m) wr) (poke (mem_write B (slice (t_data entry) pos (pos + m))) v)).
Proof.
  intros Ho Hk He [_ _ _ Hl] Hpos Hn m. unfold MAX_TMP_SIZE in *.
  unfold handle_read, stdio_fuel. cbn [handle_read_loop]. rewrite (proj2 (Z.eqb_neq n 0)), Ho, Hk, He by lia. cbv zeta.
  unfold saturating_sub. replace (Z.min (Z.min n (Z.max 0 (t_len entry - pos))) 4096) with m by lia.
  destruct (Z.eqb_spec m 0) as [->|Hm]; [done|]. rewrite wadd_small by lia.
  set (v1 := poke _ v). assert (open_fd pid fd v1 = Some (t, e)) as Ho1 by done.
  by rewrite (set_tmp_pos_open _ _ _ _ _ _ _ _ _ Ho1 Hk).
Qed.

Lemma slice_split d a b n : 0 ≤ a ≤ b → 0 < n → (Z.to_nat b ≤ length d)%nat →
  let m := Z.min n (b - a) in
  take (Z.to_nat n) (slice d a b) = slice d a (a + m) ∧ drop (Z.to_nat n) (slice d a b) = slice d (a + m) b ∧
  len (take (Z.to_nat n) (slice d a b)) = m.
Proof.
  intros Hab Hn Hb m. unfold slice, len. rewrite take_take. split_and!.
  - f_equal. lia.
  - rewrite skipn_firstn_comm, drop_drop. destruct (Z.le_ge_cases n (b - a)).
    + f_equal; [lia|]. f_equal. lia.
    + replace (Z.to_nat (b - a) - Z.to_nat n)%nat with 0%nat by lia. by replace (Z.to_nat (b - (a + m))) with 0%nat by lia.
  - rewrite length_take, length_drop. lia.
Qed.

Lemma f_read fd path w n s : f_reading fd path w s → 0 < n ≤ 4096 →
  ∃ buf s', vfs_read B fd n s = Ret (len (take (Z.to_nat n) w), buf, s') ∧
    take (length (take (Z.to_nat n) w)) buf = take (Z.to_nat n) w ∧ f_reading fd path (drop (Z.to_nat n) w) s'.
Proof.
  intros (entry & pos & t & e & idx & [Hname Hwf Hfd Ho Hk Hfl [Hp He] Hpos] & ->) Hn.
  destruct (open_fd_ok _ Hwf _ _ _ _ Ho) as [Hkind _]. rewrite Hk in Hkind. destruct Hkind as [Hi _].
  destruct (tmp_slot _ Hwf idx Hi) as (x & Hx & Hok). assert (x = entry) as -> by congruence.
  pose proof (to_len _ Hok) as Hl. pose proof (to_data _ Hok) as Hd. unfold MAX_TMP_SIZE in *.
  destruct (slice_split (t_data entry) pos (t_len entry) n) as (Htk & Hdr & Hlen); [lia|lia|lia|].
  set (m := Z.min n (t_len entry - pos)) in *. rewrite Htk, Hdr, <- Htk, Hlen, Htk.
  pose proof (read_any (os_pid s) fd (vfs_now (os_k s)) t e idx pos false entry n Ho Hk He Hok Hpos ltac:(lia)) as Hrun. cbv zeta in Hrun. fold m in Hrun.
  set (v' := if m =? 0 then _ else _) in Hrun.
  assert (length (slice (t_data entry) pos (pos + m)) = Z.to_nat m) as Hsl.
  { rewrite <- Htk in *. unfold len in Hlen. lia. }
  exists (mem_read (v_mem v') B n), (set_k (with_vfs v' (os_k s)) s). split_and!.
  - unfold vfs_read. unfold mbind, st_bind. rewrite (u64_small fd) by lia.
    rewrite (vfs_req_run _ _ _ m (with_vfs v' (os_k s))); [done|]. rewrite vfs_call_read by lia.
    change (current_pid (kn_sched (os_k s))) with (os_pid s). rewrite Hrun. by rewrite vfs_reply_small by lia.
  - rewrite Hsl. unfold v'. destruct (Z.eqb_spec m 0) as [Hm|Hm]; [rewrite Hm, Z.add_0_r; unfold slice; by rewrite Z.sub_diag|].
    cbn [v_mem put_kind set_entry set_tables poke].
    replace n with (m + (n - m)) by lia. rewrite mem_read_app by lia. rewrite take_app_length' by (by rewrite length_mem_read).
    rewrite <- (mem_read_write B (slice (t_data entry) pos (pos + m)) (v_mem (vfs_now (os_k s)))) at 2. f_equal. lia.
  - exists entry, (pos + m), t, (if m =? 0 then e else set_kind (TmpFile idx (pos + m) false) e), idx. split; [|done].
    unfold v'. destruct (Z.eqb_spec m 0) as [Hm|Hm].
    + rewrite Hm, Z.add_0_r. split; try done. by apply vfs_now_wf.
    + split; [done| |done| |done|done|done|lia].
      * apply set_entry_wf; [by apply poke_wf, vfs_now_wf|]. simpl. lia.
      * apply (open_fd_put_kind _ _ (poke _ (vfs_now (os_k s)))). exact Ho.
Qed.

Lemma f_close fd path pos wr entry t e idx s : on_file fd path pos wr entry t e idx s →
  ∃ s', vfs_close fd s = Ret (tt, s') ∧ can_open path s' ∧ file_at path idx entry (kn_vfs (os_k s')).
Proof.
  intros [Hname Hwf Hfd Ho Hk Hfl Hfa Hpos]. set (v' := set_entry t (Z.to_nat fd) FdEntry_empty (vfs_now (os_k s))).
  exists (set_k (with_vfs v' (os_k s)) s). split_and!; [| |done].
  - unfold vfs_close. rewrite (u64_small fd) by lia. rewrite (proj2 (Z.leb_gt SOCK_FD_BASE fd)) by (unfold SOCK_FD_BASE; lia).
    unfold mbind, st_bind. rewrite (vfs_req_run _ _ _ 0 (with_vfs v' (os_k s))); [done|]. rewrite vfs_call_close by lia.
    unfold handle_close. change (open_fd ?p fd (vfs_now (os_k s))) with (open_fd (os_pid s) fd (kn_vfs (os_k s))). by rewrite Ho, Hk.
  - split; [done|by apply set_entry_wf; [apply vfs_now_wf|]|].
    apply open_fd_spec in Ho as (Hf & _ & _ & tbl & Ht & He).
    set (tbl' := mkTbl (p_pid tbl) (<[Z.to_nat fd := FdEntry_empty]> (p_fds tbl)) (p_in_use tbl)).
    destruct (position_is_Some (λ f, negb (fd_in_use f)) (p_fds tbl') (Z.to_nat fd) FdEntry_empty) as (fd' & Hfd' & _); [|done|].
    { apply list_lookup_insert_eq. by eapply lookup_lt_Some. }
    exists t, tbl', fd'. split_and!; [|by cbn; rewrite list_lookup_alter_eq, Ht|done].
    cbn [kn_vfs os_k set_k with_vfs]. unfold v'. rewrite find_tbl_set_entry. exact Hf.
Qed.

#[export] Instance init_files : @TextFiles Os (init_os P P2 B others).
Proof.
  refine (@Build_TextFiles Os (init_os P P2 B others) f_ready f_writing f_holds f_reading _ f_write _ f_open_read f_read _).
  - apply f_open_write.
  - intros fd path w s (entry & t & e & idx & Hon & Hl & Hd). destruct (f_close _ _ _ _ _ _ _ _ _ Hon) as (s' & Hrun & Hco & Hfa).
    exists s'. split; [exact Hrun|]. split; [done|]. by exists idx, entry.
  - intros fd path w s (entry & pos & t & e & idx & Hon & _). destruct (f_close _ _ _ _ _ _ _ _ _ Hon) as (s' & Hrun & Hco & Hfa).
    exists s'. split; [exact Hrun|]. split; [done|]. left. by exists idx; apply Hfa.
Defined.
End instance.

(** ** A pipeline from end to end *)

(** C3: The line [echo TEXT | FILTER] typed at the shell prints what the filter
    makes of the text, for [cat], [wc], [sort], [uniq], [head -n N], [grep WORD]
    and [tr SET SET], and for every text without [$], [;], [|] and [>]: the
    interpreter takes the line apart, [echo] writes the file /tmp/.pipebuf through
    the VFS server, and the filter reads it back in chunks.  Nothing else of the
    shell changes, and the file can be used again. *)
Theorem pipeline_prints (P P2 B : Z) (others : Os → Os) help_text f text fuel (s : Sh (K:=Os)) :
  0 < P < 2^64 → 0 ≤ B < 2^64 → filter_ok f → trimmed text → plain text →
  let line := cmdline (bytes "echo") text ++ bytes " | " ++ cmdline (filter_name f) (filter_args f) in
  (length line ≤ 511)%nat → (length text + 1 ≤ fuel)%nat → sh_out s = NO_REDIR → sh_in s = NO_REDIR →
  f_ready (bytes "/tmp/.pipebuf") (sh_os s) →
  ∃ k, @dispatch_command Os (init_os P P2 B others) help_text (S (S fuel)) line s =
      Some (Ret (true, tell (filter_out f (text ++ [NL])) (set_os k s))) ∧
    f_ready (bytes "/tmp/.pipebuf") k.
Proof.
  intros HP HB Hok Ht Hp line Hlen Hfuel Hout Hin Hready.
  exact (@echo_pipe Os (init_os P P2 B others) (init_files P P2 B others HP HB) help_text f text fuel s Hok Ht Hp Hlen Hfuel Hout Hin Hready).
Qed.

Lemma demo_ready : f_ready (bytes "/tmp/.pipebuf") file_demo.
Proof.
  split; [|right; by eexists]. split.
  - split; [by apply avoids|]. split; [by apply Nat.ltb_lt|]. by exists 46, (bytes "pipebuf"), 102.
  - apply file_demo_wf.
  - eexists _, _, _. by split_and!.
Qed.

(** Two lines through [sort]. *)
Lemma pipeline_prints_witness :
  ∃ k, @dispatch_command Os (init_os 0x7000 0x7200 0x8000 (λ s, s)) [] 6
      (cmdline (bytes "echo") (bytes "b" ++ NL :: bytes "a") ++ bytes " | sort") (Sh_init file_demo []) =
      Some (Ret (true, tell (bytes "a" ++ NL :: bytes "b" ++ [NL]) (set_os k (Sh_init file_demo [])))) ∧
    f_ready (bytes "/tmp/.pipebuf") k.
Proof.
  apply (pipeline_prints 0x7000 0x7200 0x8000 (λ s, s) [] Sort (bytes "b" ++ NL :: bytes "a") 4 (Sh_init file_demo []));
    [lia|lia|done|by exists 98, 97|split_and!; by apply avoids|by apply Nat.leb_le|simpl; lia|done|done|apply demo_ready].
Defined.
