(* ===== verification/InitVars.v ===== *)
(** * Variables of the shell

    The table of variables as a map, assignment and expansion, and runs of the
    shell that show what it does with loops, longer pipelines and [sed]. *)

From Stdlib Require Import ZArith Lia Ascii String.
From stdpp Require Import base list option numbers strings sorting sets.
From S2P Require Import Prelude Words Cpio Memory VfsData SysOs SysFileSpec InitText InitShell InitShellSpec InitRun InitVfs.

Local Open Scope Z_scope.

(** ** The table *)

(** There is a place for the variable. *)
Definition var_room (key : list Z) (vars : list ShellVar) : Prop := ∃ v, v ∈ vars ∧ (sv_key v = key ∨ sv_key v = []).

Definition var_at (key : list Z) (v : ShellVar) : bool := bool_decide (sv_key v = key).
Definition var_pos (key : list Z) (vars : list ShellVar) : option nat := position (var_at key) vars.

Lemma empty_nil (l : list Z) `{!Decision (l = [])} : empty l = bool_decide (l = []).
Proof. symmetry. destruct l; [by apply bool_decide_eq_true_2|by apply bool_decide_eq_false_2]. Qed.

Lemma position_same {A} (p q : A → bool) l : (∀ x, p x = q x) → position p l = position q l.
Proof. intros Hpq. induction l as [|x l IH]; [done|]. cbn [position]. by rewrite Hpq, IH. Qed.

Lemma var_set_slot key val vars : (length key ≤ MAX_VAR_KEY)%nat → var_set key val vars =
  match (match var_pos key vars with Some i => Some i | None => var_pos [] vars end) with
  | Some i => <[i := mkVar key (take MAX_VAR_VAL val)]> vars
  | None => vars
  end.
Proof.
  intros Hk. unfold var_set, var_pos, var_at. rewrite (take_ge key) by done.
  destruct (position (λ v, bool_decide (sv_key v = key)) vars); [done|].
  enough (position (λ v, empty (sv_key v)) vars = var_pos [] vars) as -> by done.
  unfold var_pos. apply position_same. intros v. apply empty_nil.
Qed.

Lemma var_pos_room key vars : var_room key vars → key ≠ [] → ∃ i v, vars !! i = Some v ∧ (sv_key v = key ∨ sv_key v = []) ∧
  (match var_pos key vars with Some i => Some i | None => var_pos [] vars end) = Some i ∧
  ∀ j u, vars !! j = Some u → sv_key u = key → (i ≤ j)%nat ∧ (sv_key v = key).
Proof.
  intros (v & [n Hv]%list_elem_of_lookup_1 & Hkey) Hne. unfold var_pos. destruct (position _ vars) as [i|] eqn:Hp.
  - pose proof Hp as Hp'. apply position_Some in Hp as (u & Hu & Hk%bool_decide_eq_true & Hmin). exists i, u. split_and!; [done|by left|done|].
    intros j w Hw Hwk. split; [|done]. destruct (Nat.le_gt_cases i j); [done|].
    pose proof (Hmin j w ltac:(done) Hw) as Hf. apply bool_decide_eq_false in Hf. done.
  - rewrite position_None in Hp. destruct Hkey as [Hkey|Hkey]; [by apply Hp in Hv; apply bool_decide_eq_false in Hv|].
    assert (∃ i, var_pos [] vars = Some i) as [i Hi].
    { destruct (position_is_Some (var_at []) vars n v Hv) as (i & Hi & _); [by apply bool_decide_eq_true|by exists i]. }
    unfold var_pos in Hi.
    pose proof Hi as Hi'. apply position_Some in Hi as (u & Hu & Hk%bool_decide_eq_true & _). exists i, u. split_and!; [done|by right|done|].
    intros j w Hw Hwk. apply Hp in Hw. by apply bool_decide_eq_false in Hw.
Qed.

(** A variable that was set has its value. *)
Lemma var_get_set_same key val vars : var_room key vars → key ≠ [] → (length key ≤ MAX_VAR_KEY)%nat →
  var_get key (var_set key val vars) = take MAX_VAR_VAL val.
Proof.
  intros Hroom Hne Hlen. destruct (var_pos_room key vars Hroom Hne) as (i & v & Hv & Hkey & Hslot & Hmin).
  rewrite var_set_slot by done. rewrite Hslot. unfold var_get.
  assert (position (λ v, bool_decide (sv_key v = key)) (<[i := mkVar key (take MAX_VAR_VAL val)]> vars) = Some i) as Hp.
  { apply position_Some. exists (mkVar key (take MAX_VAR_VAL val)). split_and!.
    - apply list_lookup_insert_eq. by eapply lookup_lt_Some.
    - by apply bool_decide_eq_true.
    - intros j y Hj Hy. rewrite list_lookup_insert_ne in Hy by lia. apply bool_decide_eq_false. intros Hyk. destruct (Hmin j y Hy Hyk). lia. }
  unfold find_first. rewrite Hp. cbn. rewrite list_lookup_insert_eq; [done|by eapply lookup_lt_Some].
Qed.

(** The others keep theirs. *)
Lemma var_get_set_other key key' val vars : key' ≠ key → key' ≠ [] → (length key ≤ MAX_VAR_KEY)%nat →
  var_get key' (var_set key val vars) = var_get key' vars.
Proof.
  intros Hne Hne' Hlen. rewrite var_set_slot by done. unfold var_get, find_first.
  destruct (match var_pos key vars with Some i => Some i | None => var_pos [] vars end) as [i|] eqn:Hslot; [|done].
  assert (∃ v, vars !! i = Some v ∧ sv_key v ≠ key') as (v & Hv & Hvk).
  { unfold var_pos in Hslot. destruct (position (var_at key) vars) as [j|] eqn:Hj.
    - injection Hslot as ->. apply position_Some in Hj as (u & Hu & Hk%bool_decide_eq_true & _). exists u. split; [done|congruence].
    - apply position_Some in Hslot as (u & Hu & Hk%bool_decide_eq_true & _). exists u. split; [done|congruence]. }
  assert (∀ p : ShellVar → bool, p v = false → p (mkVar key (take MAX_VAR_VAL val)) = false →
    position p (<[i := mkVar key (take MAX_VAR_VAL val)]> vars) = position p vars) as Hsame.
  { intros p Hpv Hpn. apply position_ext. apply Forall2_same_length_lookup. split; [by rewrite length_insert|]. intros j x y Hx Hy.
    apply list_lookup_insert_Some in Hx as [(Hij & Hxy & _)|[_ Hx]]; [|congruence].
    subst j x. assert (y = v) as -> by congruence. by rewrite Hpv. }
  rewrite Hsame by (apply bool_decide_eq_false_2; cbn; congruence).
  destruct (position _ vars) as [j|] eqn:Hj; [|done]. cbn. rewrite list_lookup_insert_ne; [done|]. intros ->.
  apply position_Some in Hj as (u & Hu & Hk%bool_decide_eq_true & _). congruence.
Qed.

(** ** Assignment and expansion *)

(** The name of a variable. *)
Definition var_name (key : list Z) : Prop :=
  forallb is_name key = true ∧ (∃ c rest, key = c :: rest ∧ is_digit c = false) ∧ (length key ≤ MAX_VAR_KEY)%nat.

Lemma var_name_avoids key c : var_name key → is_name c = false → c ∉ key.
Proof.
  intros (Hk & _) Hc Hin. rewrite forallb_forall in Hk. apply list_elem_of_In, Hk in Hin. congruence.
Qed.

Section vars.
Context {K : Type} `{ShellOs K} (help_text : list Z).
Notation Sh := (@Sh K).
Implicit Types (s : Sh).

(** [KEY=VALUE] *)
Lemma dispatch_assign fuel key val s : var_name key → val = [] ∨ trimmed val →
  dispatch_command help_text (S fuel) (key ++ 61 :: val) s = Some (Ret (true, set_vars (var_set key val (sh_vars s)) s)).
Proof.
  intros Hkey Hval. pose proof (var_name_avoids key) as Hav. destruct (Hkey) as (Hk & (c & rest & -> & Hd) & _).
  assert (trimmed ((c :: rest) ++ 61 :: val)) as Ht.
  { assert (c ≠ SP) as Hc by (intros ->; apply (Hav SP Hkey eq_refl); set_solver).
    destruct Hval as [->|(_ & b & _ & Hb & _ & Hnb)]; [by exists c, 61; rewrite last_snoc|].
    exists c, b. split_and!; [done| |done|done]. rewrite last_app_cons. destruct val; [done|]. by rewrite last_cons_cons. }
  cbn [dispatch_command]. unfold dispatch_body. cbv zeta. rewrite trim_id by done. cbn [empty length app Nat.eqb].
  change (c :: rest ++ 61 :: val) with ((c :: rest) ++ 61 :: val).
  rewrite not_definition by (right; exists (c :: rest), 61, val; split_and!; [done|done|by apply Hav|done]).
  unfold assignment. rewrite pos_of_app by (by apply Hav). rewrite take_app_length, Hk. cbn [andb app]. rewrite Hd. cbn [negb].
  change (c :: rest ++ 61 :: val) with ((c :: rest) ++ 61 :: val). rewrite <- drop_drop, drop_app_length. done.
Qed.

Lemma expand_dollar (self : list Z → sh bool) n c src dst s : is_name c = true → (length dst < 511)%nat →
  expand_loop self (S n) (36 :: c :: src) dst s =
  expand_loop self n (drop (length (take_while is_name (c :: src))) (c :: src))
    (push_all 511 dst (var_get (take_while is_name (c :: src)) (sh_vars s))) s.
Proof.
  intros Hc Hl. cbn [expand_loop]. rewrite (proj2 (Nat.leb_gt _ _)) by lia.
  assert (c ≠ 40 ∧ c ≠ 36 ∧ c ≠ 63) as (H1 & H2 & H3) by (split_and!; intros ->; done).
  by rewrite (proj2 (Z.eqb_neq c 40)), (proj2 (Z.eqb_neq c 36)), (proj2 (Z.eqb_neq c 63)) by done.
Qed.

(** A name is taken up to the first byte that is not one of a name. *)
Lemma take_while_name key post : forallb is_name key = true → (∀ c rest, post = c :: rest → is_name c = false) →
  take_while is_name (key ++ post) = key.
Proof.
  intros Hk Hpost. induction key as [|c key IH]; cbn [app take_while].
  - destruct post as [|c rest]; [done|]. cbn [take_while]. by rewrite (Hpost c rest).
  - cbn [forallb] in Hk. apply andb_true_iff in Hk. destruct Hk as [-> Hk]. by rewrite IH.
Qed.

Lemma expand_variable (self : list Z → sh bool) pre key post s : var_name key → 36 ∉ pre → 36 ∉ post →
  (∀ c rest, post = c :: rest → is_name c = false) →
  let val := var_get key (sh_vars s) in (length pre + length val + length post < 511)%nat →
  var_expand self (pre ++ 36 :: key ++ post) s = Some (Ret (pre ++ val ++ post, s)).
Proof.
  intros (Hk & (c & rest & -> & Hd) & _) Hpre Hpost Hp val Hl. unfold var_expand. rewrite length_app.
  rewrite expand_app by (done || simpl; lia). cbn [length app]. rewrite expand_dollar by (lia || (cbn [forallb] in Hk; by apply andb_true_iff in Hk as [? _])).
  change (c :: rest ++ post) with ((c :: rest) ++ post). rewrite (take_while_name (c :: rest) post) by done. fold val.
  rewrite push_all_take by lia. rewrite take_ge by lia. rewrite drop_app_length.
  rewrite expand_plain; [by rewrite <- app_assoc|done|rewrite length_app; lia|rewrite length_app; lia].
Qed.

Lemma echo_var_trimmed key pre val post : var_name key → trimmed (pre ++ val ++ post) →
  trimmed (bytes "echo" ++ SP :: pre ++ 36 :: key ++ post).
Proof.
  intros Hkey (_ & b & _ & Hb & _ & Hnb). set (line := bytes "echo" ++ SP :: pre ++ 36 :: key ++ post).
  assert (∃ b, last line = Some b ∧ b ≠ SP) as (x & Hx & Hxs); [|by exists 101, x; split_and!].
  replace line with ((bytes "echo" ++ SP :: pre) ++ 36 :: key ++ post) by (unfold line; by rewrite <- app_assoc).
  destruct (Hkey) as (_ & (c & rest & -> & _) & _). rewrite last_app_cons. destruct post as [|x post].
  - rewrite app_nil_r. destruct (last (36 :: c :: rest)) as [y|] eqn:Hy; [|by apply last_None in Hy]. exists y. split; [done|]. intros ->.
    apply (var_name_avoids _ SP Hkey eq_refl). rewrite last_cons_cons in Hy. apply last_Some in Hy as [l ->]. set_solver.
  - exists b. split; [|done]. rewrite (assoc_L (++)), last_app_cons in Hb. by rewrite app_comm_cons, last_app_cons.
Qed.

(** C39: A variable that is set by [KEY=VALUE] keeps its value, the others keep
    theirs, and a later [echo] prints the value in place of [$KEY]. *)
Theorem assign_then_echo fuel fuel' key val pre post s : var_name key → var_room key (sh_vars s) → (length val ≤ MAX_VAR_VAL)%nat →
  val = [] ∨ trimmed val → 36 ∉ pre → 36 ∉ post → (∀ c rest, post = c :: rest → is_name c = false) →
  let text := pre ++ val ++ post in trimmed text → plain text → (length text ≤ 500)%nat → sh_out s = NO_REDIR →
  ∃ s', dispatch_command help_text (S fuel) (key ++ 61 :: val) s = Some (Ret (true, s')) ∧
    dispatch_command help_text (S fuel') (bytes "echo" ++ SP :: pre ++ 36 :: key ++ post) s' = Some (Ret (true, tell (text ++ [NL]) s')) ∧
    ∀ key', key' ≠ key → key' ≠ [] → var_get key' (sh_vars s') = var_get key' (sh_vars s).
Proof.
  intros Hkey Hroom Hlen Hval Hpre Hpost Hp text Ht Hplain Hl Hout. eexists. split; [by apply dispatch_assign|].
  destruct (Hkey) as (Hk & (c & rest & -> & Hd) & Hlk).
  set (s' := set_vars _ s). assert (var_get (c :: rest) (sh_vars s') = val) as Hget.
  { unfold s'. cbn [sh_vars set_vars]. rewrite var_get_set_same by done. by apply take_ge. }
  split; [|intros key' Hne Hne'; by apply var_get_set_other].
  set (line := bytes "echo" ++ SP :: pre ++ 36 :: (c :: rest) ++ post).
  assert (trimmed line) as Htl by (by apply echo_var_trimmed with val).
  assert (∀ x, x ∉ bytes "echo" → x ≠ SP → no_name_before x line) as Hn by (intros x Hx Hs; right; by exists (bytes "echo"), SP, (pre ++ 36 :: (c :: rest) ++ post)).
  cbn [dispatch_command]. unfold dispatch_body. cbv zeta. rewrite trim_id by done. change (empty line) with false. cbv iota.
  rewrite not_definition, not_assignment by (apply Hn; [by apply avoids|done]). unfold mbind, sh_bind.
  assert (var_expand (dispatch_command help_text fuel') line s' = Some (Ret (cmdline (bytes "echo") text, s'))) as ->.
  { replace line with ((bytes "echo" ++ SP :: pre) ++ 36 :: (c :: rest) ++ post) by (unfold line; by rewrite <- app_assoc).
    rewrite expand_variable; [|done|by set_solver +Hpre|done|done|].
    - rewrite Hget. assert (empty text = false) as He.
      { destruct Ht as (a & _ & Ha & _). apply lookup_lt_Some in Ha. apply Nat.eqb_neq. lia. }
      unfold cmdline. rewrite He. by rewrite <- (app_assoc (bytes "echo")).
    - rewrite Hget. unfold text in Hl. rewrite !length_app in *. change (length (bytes "echo")) with 4%nat. cbn [length]. lia. }
  assert (trimmed (cmdline (bytes "echo") text)) as Htc by (apply cmdline_trimmed; [done|by apply avoids|by right]).
  rewrite trim_id by done. rewrite run_expanded_simple; [|done|by apply avoids|split_and!; by apply avoids| |by right|done].
  2:{ unfold cmdline. by destruct (empty text). }
  unfold run_builtin, redirected. unfold mbind at 1, sh_bind at 1. unfold mbind at 1, sh_bind at 1, gets. cbn [mret sh_ret].
  change ((cmd_echo text ≫= λ _, mret true) s' = Some (Ret (true, tell (text ++ [NL]) s'))).
  eapply says_then; [|done]. eapply says_line.
Qed.
End vars.

Lemma assign_then_echo_witness :
  ∃ s', @dispatch_command Os (init_os 0x7000 0x7200 0x8000 (λ s, s)) [] 1 (bytes "NAME" ++ 61 :: bytes "a cat") (Sh_init file_demo []) = Some (Ret (true, s')) ∧
    @dispatch_command Os (init_os 0x7000 0x7200 0x8000 (λ s, s)) [] 1 (bytes "echo" ++ SP :: bytes "see " ++ 36 :: bytes "NAME" ++ bytes "!") s' =
      Some (Ret (true, tell ((bytes "see " ++ bytes "a cat" ++ bytes "!") ++ [NL]) s')) ∧
    ∀ key', key' ≠ bytes "NAME" → key' ≠ [] → var_get key' (sh_vars s') = var_get key' (replicate MAX_VARS ShellVar_empty).
Proof.
  apply (@assign_then_echo Os (init_os 0x7000 0x7200 0x8000 (λ s, s)) [] 0 0 (bytes "NAME") (bytes "a cat") (bytes "see ") (bytes "!") (Sh_init file_demo [])).
  - split; [done|]. split; [by exists 78, (bytes "AME")|by apply Nat.leb_le].
  - exists ShellVar_empty. split; [|by right]. apply list_elem_of_lookup_2 with 0%nat. done.
  - by apply Nat.leb_le.
  - right. by exists 97, 116.
  - by apply avoids.
  - by apply avoids.
  - by intros c rest [= <- <-].
  - by exists 115, 33.
  - split_and!; by apply avoids.
  - by apply Nat.leb_le.
  - done.
Defined.

(** ** Runs of the shell

    The terminal after the lines were typed, on a system with two files under
    /tmp. *)
Fixpoint typed (ls : list string) (s : Sh (K:=Os)) : option (outcome (Sh (K:=Os))) :=
  match ls with
  | [] => Some (Ret s)
  | l :: ls' =>
      match @dispatch_command Os (init_os 0x7000 0x7200 0x8000 (λ s, s)) [] 40 (bytes l) s with
      | Some (Ret (_, s')) => typed ls' s'
      | Some Panic => Some Panic
      | None => None
      end
  end.

Definition printed (ls : list string) : option (outcome (list Z)) :=
  match typed ls (Sh_init file_demo []) with
  | Some (Ret s) => Some (Ret (sh_term s))
  | Some Panic => Some Panic
  | None => None
  end.

(** A chosen branch. *)
Lemma if_runs_else : printed ["if false; then echo a; else echo b; fi"]%string = Some (Ret (bytes "b" ++ [NL])).
Proof. by vm_compute. Qed.

(** The body of a loop is expanded before the loop starts. *)
Lemma loop_variable_expanded_early : printed ["for i in a b; do echo $i; done"]%string = Some (Ret [NL; NL]).
Proof. by vm_compute. Qed.

(** The second pipe of a line empties the file that its left command is about to read. *)
Lemma three_stage_pipe_loses_input : printed ["echo one | grep on | wc"]%string = Some (Ret (bytes "0 0 0 " ++ [NL])).
Proof. by vm_compute. Qed.

(** Files under /tmp are not listed. *)
Lemma tmp_files_not_listed : printed ["echo x > /tmp/f"; "ls /tmp"]%string = Some (Ret (bytes "." ++ [NL] ++ bytes ".." ++ [NL])).
Proof. by vm_compute. Qed.

(** A blank line stops [sed], and with it the kernel. *)
Lemma sed_blank_line_panics : printed ["echo | sed s/a/b/"]%string = Some Panic.
Proof. by vm_compute. Qed.

(** A list of assignments is one assignment. *)
Lemma second_assignment_lost : printed ["A=1; B=2"; "echo $B"]%string = Some (Ret [NL]).
Proof. by vm_compute. Qed.

(** The value of an assignment is not expanded. *)
Lemma assigned_value_not_expanded : printed ["B=x"; "A=$B"; "echo $A"]%string = Some (Ret (bytes "$B" ++ [NL])).
Proof. by vm_compute. Qed.

(** The status of the last command is not shown. *)
Lemma status_always_zero : printed ["false"; "echo $?"]%string = Some (Ret (bytes "0" ++ [NL])).
Proof. by vm_compute. Qed.

(** The example of the usage of [awk] does not work. *)
Lemma awk_field_fails : printed ["echo one two | awk '{print $2}'"]%string = Some (Ret (bytes "awk: cannot open file" ++ [NL])).
Proof. by vm_compute. Qed.

(** A last line without a newline is not cut. *)
Lemma cut_drops_last_line : printed ["printf ab > /tmp/r"; "cut -f 1 /tmp/r"]%string = Some (Ret []).
Proof. by vm_compute. Qed.

